(* ===== verification/_CoqProject ===== *)
-Q . S2P
Prelude.v
Bytes.v
PyStr.v
Dict.v
Serialization.v
Wire.v
WireRoundTrip.v
Mailbox.v
MailboxInv.v
MailboxSpec.v
Registry.v
Negotiation.v
WorkerPool.v
WorkerPoolInv.v
WorkerPoolSpec.v
Http.v
HttpSpec.v
DeadLetter.v
ActorContext.v
ActorContextSpec.v
ActorPath.v
ActorPathSpec.v
ActorRegistry.v
ActorMailbox.v
Extension.v
ExtensionSpec.v
Effects.v
Transport.v
Association.v
AssociationRules.v
AssociationHandshake.v
AssociationAgreement.v
AssociationDelivery.v
AssociationEndToEnd.v
AssociationLifecycle.v
AssociationRequests.v
Sha256.v
Json.v
JsonRoundTrip.v
Cluster.v
ClusterCodec.v
ClusterCodecSpec.v
ClusterRuntime.v
ClusterInv.v
ClusterSteps.v
ClusterSystem.v
ClusterMember.v
ClusterWorld.v
ClusterWorker.v
Persistence.v
SqliteStore.v
StoreLog.v
StoreRefine.v
StoreReads.v
StoreSteps.v
StoreSpec.v
Projection.v
FeedLemmas.v
ProjectionSpec.v
DurableBehavior.v
DurableSystem.v
StoreAdmission.v
ProjectionExt.v
Streams.v
StreamGraph.v
StreamLink.v
StreamReact.v
StreamStage.v
StreamFlow.v
StreamEnds.v
StreamInv.v
StreamRun.v
StreamStep.v
StreamKeep.v
StreamReach.v
StreamSpec.v
StreamLive.v
