(* ===== verification/Prelude.v ===== *)
(** Verification of the Movie actor runtime.

    Movie ([src/movie]) is an actor framework: behaviours run inside actor
    contexts, one message at a time; a mailbox serialises each actor's messages and
    hands batches to a dispatcher, whose worker threads run them; a registry finds
    actors by identity and path; refused messages become dead letters; remoting
    carries messages between systems in a binary protocol whose payloads are written
    by negotiated serializers; an HTTP server, streams, durable state, projections
    and cluster membership are built on top.

    * How the parts interact

    [ActorRegistry.spawn] creates an actor context, attaches it to its parent and
    starts it; starting creates its mailbox.  A sender enqueues in the mailbox; the
    first message of an idle mailbox publishes an activation to the worker pool; a
    worker takes the activation and calls the mailbox, which takes a batch and calls
    [invoke_batch] of the context; what comes back is restored to the mailbox, which
    is published again while it has work the actor can process.  What the mailbox
    refuses is published to the dead-letter broker.  A remote message arrives as a
    [UserMessage] frame on an association, whose two ends agreed on limits and serializer
    routes in a handshake; the association hands it to the local mailbox of its recipient.
    The cluster runtime of each system sends its control messages to the control actors of
    the others over these associations, as JSON payloads of its own serializer: one
    system, the coordinator, decides who is a member and broadcasts the list.  A durable
    behaviour recovers from and commits to the SQLite store, whose change feed the
    projections follow.

    * Files

    - [Prelude] (this file): exceptions, the [result] and [SE] (state and error)
      monads, tactics, sums and permutations.
    - [Bytes]: byte strings, [struct] integers, the relation between writers and
      readers.
    - [PyStr]: Python [str], UTF-8, the string methods and number formats used.
    - [Dict]: dictionaries in insertion order; [Effects]: methods that change an object and
      may raise.
    - [Json], [JsonRoundTrip]: [json.dumps] and [json.loads] as the cluster calls them.
    - [Serialization]: the descriptors, routes and negotiation of
      [remoting/serialization.py].
    - [Wire], [WireRoundTrip]: the codec of [remoting/wire.py] and its theorems
      (C1, C20).
    - [Mailbox], [MailboxInv], [MailboxSpec]: [mailbox/default.py] as a step relation
      of sender and worker threads at lock granularity, its invariants and theorems
      (C4, C10, C11, C12).
    - [Registry], [Negotiation]: the serializer registry and its builder, and
      theorems on negotiation (C16).
    - [WorkerPool], [WorkerPoolInv], [WorkerPoolSpec]: [dispatch/worker_pool.py],
      interleaved in the same way (C17, C21).
    - [Http], [HttpSpec]: [http/model.py] and [http/codec.py] (C22, C23, C24, C25).
    - [DeadLetter]: [actor/dead_letter.py] (C26).
    - [ActorContext], [ActorContextSpec]: [actor/impl/context.py] with
      [actor/behaviour.py] and [actor/supervision.py], over an arbitrary application
      (C15).
    - [ActorMailbox]: the interface between a mailbox and its actor, which
      [ActorContext] implements ().
    - [ActorPath], [ActorPathSpec]: [actor/path.py] (C27).
    - [ActorRegistry]: the class of that name in [actor/impl/system.py], with
      [actor/identity.py] (C28).
    - [Extension], [ExtensionSpec]: [actor/extension.py], interleaved at lock
      granularity (C29).
    - [Transport]: the values of [remoting/transport.py] and [remoting/config.py].
    - [Association]: [remoting/association.py] over any transport and runtime, the class
      [Environment]; [AssociationRules]: Hoare triples of its methods;
      [AssociationHandshake], [AssociationAgreement], [AssociationDelivery],
      [AssociationEndToEnd], [AssociationLifecycle], [AssociationRequests]: its theorems
      (C2, C3, C34, C35).
    - [Sha256]: SHA-256, as [hashlib] computes it.
    - [Cluster]: [cluster/model.py], [cluster/config.py] and the control messages of
      [cluster/_protocol.py]; [ClusterCodec], [ClusterCodecSpec]: their serializer
      (C38, C39).
    - [ClusterRuntime]: [cluster/runtime.py]; [ClusterInv], [ClusterSteps]: the coordinator's
      critical sections; [ClusterSystem], [ClusterMember]: those of a member;
      [ClusterWorld]: coordinator, members and network together; [ClusterWorker]: the
      coordinator's worker loop (C5, C14, C36, C37).
    - [Persistence]: [persistence/model.py], [effect.py] and [codec.py].
    - [SqliteStore]: the operations of [persistence/sqlite.py] as SQL statements on
      tables; [StoreLog]: their specification, a log of commits; [StoreRefine],
      [StoreReads], [StoreSteps], [StoreSpec]: the refinement (C6, C18, C19, C30, C31).
    - [StoreAdmission]: admission, startup and shutdown of the store, and the settings of
      [persistence/extension.py] ().
    - [Projection]: [projection/extension.py], [model.py] and [transaction.py];
      [FeedLemmas], [ProjectionSpec], [ProjectionExt]: delivery over the store
      (C7, C32, C33).
    - [DurableBehavior]: [persistence/behavior.py]; [DurableSystem]: the behaviour over
      the store (C8).
    - [Streams]: the stages and sinks of [streams.py]; [StreamGraph]: its graph lifecycle,
      [run], and the running pipeline as steps.  [StreamLink]: the protocol between two
      stages; [StreamReact], [StreamStage], [StreamFlow], [StreamEnds]: each stage keeps it;
      [StreamInv], [StreamRun], [StreamStep], [StreamKeep], [StreamReach]: the invariant of
      the pipeline; [StreamSpec], [StreamLive]: the theorems (C9, C13, C40).

    * Correspondence

    Definitions keep the names of the functions they translate; a constructor of a
    class [C] is [C_new], with the checks of [__init__] or [__post_init__].  A Python
    exception is a value of [exn]; messages are left out.  Integers are [Z]; where the
    code packs them into a fixed width, the range check and the packing are those of
    the code.  Dictionaries and sets are [gmap] and [gset], or lists where their order
    matters.  Concurrent components are step relations whose steps are the code's
    lock-protected blocks, so every interleaving of threads is a run.  Callbacks of the
    application, serializers, the answers of other components and random values are
    arguments of the definitions.

    * What the theorems show

    - Wire: decoding what was encoded returns the frame, for all ten frame types; the
      single-call encoder and decoder of user messages agree with the generic ones,
      refusals included.
    - Mailbox: one batch at a time per actor, the capacity bound, no lost wake-up (but
      where the dispatcher's own fallback raises), and the refinement of a FIFO queue.
    - Serializers: negotiation is symmetric and exact, a negotiated payload is
      readable by the peer, and the builder yields sound registries.
    - Worker pool: no stranded task, conservation of tasks, bounded queues, the order
      of work stealing, and what publication does.
    - HTTP: the parser terminates, does not depend on how input is cut (as long as the
      buffer takes all of it), frames requests by the first blank line and their single Content-Length and inverts the printer; responses
      cannot be split.
    - Dead letters: subscriptions see an ordered subsequence with every gap counted.
    - Actors: the lifecycle (an actor closes once, only without children, and never
      revives), the contract of a batch with the mailbox, the outcomes of a restart
      with the order in which stashed messages are replayed, and the isolation of a
      failing callback; a batch run by an actor is a step of the mailbox model.
    - Paths and registry: the canonical text of a valid path is parsed back, and what is
      parsed is valid; the registry
      resolves exactly the registered actors.
    - Extensions: concurrent lookups never wait in a circle, an extension is started
      once, and extensions stop in the reverse order of their start.
    - Association: a handshake that returns has stored an allowlisted peer and compared its
      HELLO_ACCEPT, whatever it was sent; the two ends of a handshake agree on identities,
      limits and routes, and a handshake completes when each end hears the other; what is admitted on
      a lane is what was sent on it, once and in order, whatever else a peer sends; an
      association closes with one reason, a resolution request settles once and none is
      forgotten.
    - Cluster: members at one revision have adopted the same snapshot and follow the
      coordinator's, whatever the network does; an incarnation that left never returns; the
      public membership always passes its checks; no message but one ends the
      coordinator's worker; control messages survive their serializer, and nothing
      unchecked comes out of it.
    - Store: every operation, whatever fails, keeps the tables those of one append-only
      log; writes answer as the log does, a retried operation is answered with its
      original revision, reads return what was written, a page of the change feed is
      exact and makes progress, compaction takes nothing a projection still needs, and
      admission stays within its capacities.
    - Durable behaviours: with failures, restarts, late completions and other writers,
      callbacks see only committed states and commands meet a committed state.
    - Projections: exactly-once runners apply each matching change once and in order,
      at-least-once runners checkpoint only what a handler call succeeded on, a runner
      catches up, and a projection is never retired while it runs.
    - Streams, with mailboxes of at least 4p + 8 messages where p is the prefetch: under
      every schedule the sink sees the mapped elements in order and a result means all of
      them, each accepted by the sink's function; a stream that nothing disturbs finishes;
      such mailboxes never overflow.
    - Some theorems show behaviour the code does not intend: [refused_despite_capacity]
      (an activation is refused while there is capacity), [exact_line_refused_when_cut] (a
      maximal request line is refused when it is cut before its line feed),
      [root_path_not_canonical], [refused_spawn_leaks_child] (a refused spawn keeps its
      parent from stopping), [cycle_reported_without_cycle] (a dependency cycle reported where
      there is none), [stop_overtakes_projection] (a store closed under a projection
      operation it admitted), [violation_counted_twice] (one protocol violation, two
      counts), [refused_dispatch_system_strands] (a mailbox marked scheduled that nobody
      runs), [nul_host_ends_worker] (a join request that ends the coordinator's worker) and [min_capacity_overflows] (a stream that overflows a mailbox of the
      capacity it asks for).

    * Fuel and bounds

    [feed_loop] of the HTTP parser takes as fuel one more than the length of the
    buffer: each request consumes a byte, and [feed_terminates] shows that the fuel is enough.
    [str_of_Z] takes as fuel one more than the binary logarithm, which bounds the number of
    decimal digits.  The replay of an actor's stash recurses over the rounds of
    arrivals from other threads, which are finite for every run that ends.  The search
    for a cycle of waits takes as fuel one more than the number of waits, which [extension_registry_safe]
    shows
    to be enough, and the loop that stops extensions one more than their number ([extensions_stop_in_reverse]).
    The search for a free correlation ID takes as fuel two more than the requests in flight,
    and [correlation_id_found] shows that it finds one.  The wait for the second handshake
    frame takes as fuel one more than the records that may still be put aside, which
    [handshake_wait_ends] shows to be enough.  The receive loop of an association, which runs
    until it is told to stop, and the loops that retry
    [associate] and [resolve] until a deadline take as fuel the number of iterations looked
    at, and no theorem about them depends on it.  [loads] takes as fuel one more than twice
    the length of the text, which [loads_errors] shows to be enough for any text.  [push_loop]
    takes as fuel the length of the buffer, from which each iteration takes an element, and
    [produce] the number of elements asked for, as the loop of the code does.  All other
    recursion is structural.

    * Not modelled

    I/O and event loops ([io], [remoting/tcp.py], [remoting/asyncio_tcp.py]) and the HTTP
    server on top of them; the remoting runtime, which creates associations, appears as an
    interface ([Environment]); the runtime's futures, of which streams use the outcomes only,
    and general configuration; logging, metrics
    and error texts; the benchmarks and examples.  Of the actor system
    ([actor/impl/system.py]) the registry and path resolution are modelled, not its
    start and stop; of the store, not the opening of its file and the comparison of table
    definitions; of the cluster, not the bounded window in which readers see events, nor
    the registration of its serializer.  Times are inputs, and so is how long a thread waits.  Of
    streams, a stage whose start fails is not modelled, nor the thread that completes futures:
    what is submitted to it takes effect at once.  The two locked blocks of
    [create_root_guardian] are one step.  Admission of a remote message to a mailbox is
    taken to answer and not to raise. *)

From stdpp Require Import base list numbers strings gmap sorting.

#[global] Open Scope Z_scope.

(** * Exceptions

    Python exceptions are modelled by their class.  The constructors carry the
    names of the classes under [movie/remoting/errors.py], [movie/mailbox],
    [movie/dispatch], [movie/http], [movie/persistence/errors.py] and
    [movie/projection/errors.py], [movie/remoting/transport.py], [movie/cluster/errors.py], and of the built-in and [sqlite3] classes the
    modelled code raises or catches; messages are not modelled.  The [locked] flag of
    [OperationalError] says whether its text contains "locked" or "busy", which is
    all the code reads of it; [UserError] stands for any exception of a callback the
    application supplies. *)

Inductive exn : Set :=
  | ProtocolValidationError
  | SerializerRegistryError
  | UnknownSerializerError
  | UnsupportedManifestError
  | SerializationError
  | DeserializationError
  | SerializerNegotiationError
  | InvalidPreambleError
  | MalformedFrameError
  | FrameTooLargeError
  | UnsupportedFrameError
  | UnsupportedFeatureError
  | UnsupportedHeaderVersionError
  | WrongStreamError
  | MailboxCapacityExceeded
  | DispatcherCapacityExceeded
  | DispatcherStopped
  | RuntimeError
  | ValueError
  | TypeError
  | KeyError
  | UnicodeEncodeError
  | OverflowError
  | IndexError
  | AssertionError
  | HttpProtocolError (status : Z)
  | IntegrityError
  | OperationalError (locked : bool)
  | PersistenceCapacityError
  | PersistenceSchemaError
  | ChangeFeedCompactedError (requested_offset compacted_through : Z)
  | PersistenceOperationTimeout
  | ConcurrentWriteError (expected_revision actual_revision : Z)
  | OperationConflictError
  | DurableStateRecoveryError
  | DurableStatePersistError
  | ProjectionAlreadyRunningError
  | ProjectionBaselineError
  | ProjectionCapacityError
  | ProjectionHandlerTimeout
  | ProjectionOffsetConflictError
  | ProjectionSourceConflictError
  | ProjectionTransactionError
  | ProjectionOffsetMismatch (actual_offset : Z)
  | InvalidHandler
  | StopRequested
  | TimeoutError
  | DatabaseError
  | NoAssociationError
  | StaleIncarnationError
  | RemotingCapacityError
  | ResolutionError
  | HandshakeError
  | RemotingShutdownError
  | TransportClosedError
  | TransportCapacityError
  | TransportFlowControlError
  | TransportProtocolError
  | TransportListenError
  | TransportConnectError
  | ClusterError
  | ClusterJoinError
  | ClusterShutdownError
  | JSONDecodeError
  | RecursionError
  | UnicodeDecodeError
  | BufferError
  | InvalidStateError
  | OutOfFuel (** Raised by no Python code: a recursion was given too little fuel. *)
  | UserError.

#[global] Instance exn_eq_dec : EqDecision exn.
Proof. solve_decision. Defined.

Inductive result (A : Type) : Type :=
  | Ok (a : A)
  | Err (e : exn).
Arguments Ok {A} a.
Arguments Err {A} e.

#[global] Instance result_ret : MRet result := fun A a => Ok a.
#[global] Instance result_bind : MBind result :=
  fun A B k m => match m with Ok a => k a | Err e => Err e end.

Definition is_err {A} (r : result A) : Prop :=
  match r with Ok _ => False | Err _ => True end.

(** [raise_unless c e] is the Python guard [if not c: raise e]. *)
Definition raise_unless (c : bool) (e : exn) : result unit :=
  if c then Ok tt else Err e.

(** [len(xs)]. *)
Definition len {A} (xs : list A) : Z := Z.of_nat (length xs).

(** * State and error: an effectful method over a mutable object of type [S] *)

Definition SE (S A : Type) : Type := S -> result (A * S).

Definition se_ret {S A} (a : A) : SE S A := fun s => Ok (a, s).
Definition se_bind {S A B} (m : SE S A) (k : A -> SE S B) : SE S B :=
  fun s => match m s with Ok (a, s') => k a s' | Err e => Err e end.
Definition se_raise {S A} (e : exn) : SE S A := fun _ => Err e.
Definition se_check {S} (c : bool) (e : exn) : SE S unit :=
  fun s => if c then Ok (tt, s) else Err e.
(** A pure fallible computation inside a method. *)
Definition se_lift {S A} (r : result A) : SE S A :=
  fun s => match r with Ok a => Ok (a, s) | Err e => Err e end.

Declare Scope se_scope.
Delimit Scope se_scope with se.
Notation "x <- m ;; k" := (se_bind m (fun x => k))
  (at level 60, m at next level, right associativity) : se_scope.
Notation "m ;;; k" := (se_bind m (fun _ => k))
  (at level 60, right associativity) : se_scope.

(** * Inversion of successful runs *)

Lemma Ok_inj {A} (a b : A) : Ok a = Ok b -> a = b.
Proof. congruence. Qed.

Lemma bind_ok {A B} (m : result A) (k : A -> result B) b :
  (m ≫= k) = Ok b <-> exists a, m = Ok a /\ k a = Ok b.
Proof.
  destruct m as [a|e]; simpl; split.
  - eauto.
  - by intros (a' & [= ->] & Hk).
  - done.
  - by intros (a' & ? & _).
Qed.

Lemma raise_unless_ok c e u : raise_unless c e = Ok u <-> c = true.
Proof. destruct c; simpl; split; try done. by destruct u. Qed.

Lemma se_bind_ok {S A B} (m : SE S A) (k : A -> SE S B) s b s'' :
  se_bind m k s = Ok (b, s'') <-> exists a s', m s = Ok (a, s') /\ k a s' = Ok (b, s'').
Proof.
  unfold se_bind. destruct (m s) as [[a s']|e]; split.
  - eauto.
  - by intros (? & ? & [= -> ->] & ?).
  - done.
  - by intros (? & ? & ? & _).
Qed.

Lemma se_check_ok {S} c e (s : S) u s' :
  se_check c e s = Ok (u, s') <-> c = true /\ s' = s.
Proof.
  unfold se_check. destruct c, u; split; try done; [by intros [= <-]|by intros [_ ->]|].
  by intros [? _].
Qed.

Lemma se_lift_ok {S A} (r : result A) (s : S) a s' :
  se_lift r s = Ok (a, s') <-> r = Ok a /\ s' = s.
Proof.
  unfold se_lift. destruct r; split; try done; [by intros [= -> ->]|by intros [[= ->] ->]|].
  by intros [? _].
Qed.

Lemma se_ret_ok {S A} (a b : A) (s s' : S) :
  se_ret a s = Ok (b, s') <-> b = a /\ s' = s.
Proof. unfold se_ret. split; [by intros [= -> ->]|by intros [-> ->]]. Qed.

(** Break a successful run into the successes of its steps. *)
Ltac inv_run_step :=
  match goal with
  | H : (_ ≫= _) = Ok _ |- _ => apply bind_ok in H as (? & ? & ?)
  | H : raise_unless _ _ = Ok _ |- _ => apply raise_unless_ok in H
  | H : se_bind _ _ _ = Ok (_, _) |- _ => apply se_bind_ok in H as (? & ? & ? & ?)
  | H : se_check _ _ _ = Ok (_, _) |- _ => apply se_check_ok in H as [? ?]
  | H : se_lift _ _ = Ok (_, _) |- _ => apply se_lift_ok in H as [? ?]
  | H : se_ret _ _ = Ok (_, _) |- _ => apply se_ret_ok in H as [? ?]
  | H : Err _ = Ok _ |- _ => discriminate H
  | H : Ok _ = Ok _ |- _ => injection H; clear H; intros
  | H : _ && _ = true |- _ => apply andb_true_iff in H as [? ?]
  | H : negb _ = true |- _ => apply negb_true_iff in H
  | H : bool_decide _ = true |- _ => apply bool_decide_eq_true in H
  | H : bool_decide _ = false |- _ => apply bool_decide_eq_false in H
  | H : (_ <=? _) = true |- _ => apply Z.leb_le in H
  | H : (_ <=? _) = false |- _ => apply Z.leb_gt in H
  | H : (_ <? _) = true |- _ => apply Z.ltb_lt in H
  | H : (_ <? _) = false |- _ => apply Z.ltb_ge in H
  | H : (_ =? _) = true |- _ => apply Z.eqb_eq in H
  | H : (_ =? _) = false |- _ => apply Z.eqb_neq in H
  end.
Ltac inv_run := repeat (inv_run_step; subst).

(** * Sums over lists: counting resources held by threads *)

Section sums.
Context {A : Type}.

Lemma sum_insert (f : A -> nat) (ts : list A) i t t' :
  ts !! i = Some t ->
  (sum_list_with f (<[i := t']> ts) + f t = sum_list_with f ts + f t')%nat.
Proof.
  revert i. induction ts as [|u ts IH]; intros [|i] Hi; simplify_eq/=; [lia|].
  specialize (IH i Hi). change (list_insert i t' ts) with (<[i:=t']> ts). lia.
Qed.

Lemma sum_snoc (f : A -> nat) (ts : list A) t :
  sum_list_with f (ts ++ [t]) = (sum_list_with f ts + f t)%nat.
Proof. induction ts as [|u ts IH]; simpl; lia. Qed.

Lemma sum_lookup (f : A -> nat) (ts : list A) i t :
  ts !! i = Some t -> (f t <= sum_list_with f ts)%nat.
Proof.
  revert i. induction ts as [|u ts IH]; intros [|i] Hi; simplify_eq/=; [lia|].
  specialize (IH i Hi). lia.
Qed.

Lemma sum_two (f : A -> nat) (ts : list A) i j t u :
  i <> j -> ts !! i = Some t -> ts !! j = Some u ->
  (f t + f u <= sum_list_with f ts)%nat.
Proof.
  revert i j. induction ts as [|v ts IH]; intros [|i] [|j] Hij Hi Hj; simplify_eq/=.
  - apply (sum_lookup f) in Hj. lia.
  - apply (sum_lookup f) in Hi. lia.
  - specialize (IH i j ltac:(lia) Hi Hj). lia.
Qed.

Lemma sum_positive (f : A -> nat) (ts : list A) :
  sum_list_with f ts <> 0%nat -> exists i t, ts !! i = Some t /\ f t <> 0%nat.
Proof.
  induction ts as [|u ts IH]; simpl; [done|]. intros H.
  destruct (decide (f u = 0%nat)) as [Hu|Hu]; [|by exists 0%nat, u].
  destruct IH as (i & t & Hi & Ht); [lia|]. by exists (S i), t.
Qed.

(** Updating one element exchanges its share of the collected items. *)
Lemma flat_map_insert {B} (f : A -> list B) (l : list A) i x y :
  l !! i = Some x ->
  flat_map f (<[i := y]> l) ++ f x ≡ₚ flat_map f l ++ f y.
Proof.
  revert i. induction l as [|z l IH]; intros [|i] Hi; simplify_eq/=.
  - rewrite <- !(assoc_L (++)). rewrite (Permutation_app_comm (flat_map f l)).
    rewrite (assoc_L (++)). rewrite (Permutation_app_comm (f y)).
    rewrite <- (assoc_L (++)). f_equiv. apply Permutation_app_comm.
  - specialize (IH i Hi). change (list_insert i y l) with (<[i:=y]> l).
    rewrite <- !(assoc_L (++)). by f_equiv.
Qed.

(** Two exchanges of items, composed. *)
Lemma perm_exchange (a a' b b' r x y : list A) :
  a' ++ x ≡ₚ a ++ y -> r ++ y ++ b' ≡ₚ x ++ b -> a ++ b ≡ₚ r ++ a' ++ b'.
Proof.
  intros H1 H2. apply (Permutation_app_inv_r (y ++ x)).
  trans ((a ++ y) ++ (x ++ b)); [solve_Permutation|]. rewrite <- H1, <- H2. solve_Permutation.
Qed.
End sums.

(** Prove a decidable closed proposition by evaluating its decision. *)
Ltac by_compute := apply (bool_decide_unpack _); vm_compute; exact I.

(** * Filters *)

Lemma filter_Forall_id {A} (P : A -> Prop) `{!forall x, Decision (P x)} (l : list A) :
  Forall P l -> filter P l = l.
Proof. induction 1 as [|x l Hx _ IH]; [done|]. by rewrite filter_cons_True, IH. Qed.

Lemma filter_Forall_nil {A} (P : A -> Prop) `{!forall x, Decision (P x)} (l : list A) :
  Forall (fun x => ~ P x) l -> filter P l = [].
Proof. induction 1 as [|x l Hx _ IH]; [done|]. by rewrite filter_cons_False, IH. Qed.

Lemma Forall2_filter {A B} (R : A -> B -> Prop) P Q
  `{!forall x, Decision (P x)} `{!forall y, Decision (Q y)} xs ys :
  (forall x y, R x y -> P x <-> Q y) -> Forall2 R xs ys -> Forall2 R (filter P xs) (filter Q ys).
Proof.
  intros HR. induction 1 as [|x y xs ys Hxy _ IH]; [done|].
  pose proof (HR _ _ Hxy) as HPQ. destruct (decide (P x)) as [Hp|Hp].
  - rewrite !filter_cons_True by tauto. by constructor.
  - by rewrite !filter_cons_False by tauto.
Qed.

(** Lengths, as Python's integers. *)
Lemma len_app {A} (xs ys : list A) : len (xs ++ ys) = len xs + len ys.
Proof. unfold len. rewrite length_app. lia. Qed.

Lemma len_nonneg {A} (xs : list A) : 0 <= len xs.
Proof. unfold len. lia. Qed.

Lemma len_singleton {A} (x : A) : len [x] = 1.
Proof. done. Qed.
