(* ===== verification/Bytes.v ===== *)
(** Byte strings and the big-endian integer formats of Python's [struct].

    Python [bytes] are lists of integers; [bytes_ok] says that every element is
    an unsigned 8-bit value, which holds of every Python [bytes] object.
    [be_pack n v] is [struct.pack] of one unsigned [n]-byte big-endian field and
    [be_unpack] is [struct.unpack] / [int.from_bytes(.., "big")].  The second
    half relates writers (methods that append to a buffer) to readers (methods
    that consume a suffix): [writes_as] and [reads_as], with the composition
    lemmas the wire codec proofs are made of. *)

From stdpp Require Import base list numbers gmap sorting.
From S2P Require Import Prelude.

Abbreviation bytes := (list Z).

Definition bytes_ok (bs : bytes) : Prop := Forall (fun b => 0 <= b < 256) bs.

#[global] Instance bytes_ok_dec bs : Decision (bytes_ok bs).
Proof. unfold bytes_ok. apply _. Defined.

(** * [struct.pack] and [struct.unpack] of unsigned big-endian fields *)

Fixpoint be_pack (n : nat) (v : Z) : bytes :=
  match n with
  | O => []
  | S n' => (v / 256 ^ Z.of_nat n') mod 256 :: be_pack n' v
  end.

Fixpoint be_unpack (bs : bytes) : Z :=
  match bs with
  | [] => 0
  | b :: bs' => b * 256 ^ Z.of_nat (length bs') + be_unpack bs'
  end.

Lemma length_be_pack n v : length (be_pack n v) = n.
Proof. induction n as [|n IH]; simpl; [done|by rewrite IH]. Qed.

Lemma be_pack_ok n v : bytes_ok (be_pack n v).
Proof.
  unfold bytes_ok. induction n as [|n IH]; simpl; constructor; [|done].
  apply Z.mod_pos_bound. lia.
Qed.

Lemma be_unpack_pack n v : be_unpack (be_pack n v) = v mod 256 ^ Z.of_nat n.
Proof.
  induction n as [|n IH]; simpl be_pack; simpl be_unpack.
  { by rewrite Z.mod_1_r. }
  rewrite length_be_pack, IH.
  replace (256 ^ Z.of_nat (S n)) with (256 ^ Z.of_nat n * 256)
    by (rewrite Nat2Z.inj_succ, Z.pow_succ_r by lia; lia).
  rewrite Z.rem_mul_r by (try apply Z.pow_nonzero; try apply Z.pow_pos_nonneg; lia).
  lia.
Qed.

Lemma be_unpack_pack_small n v :
  0 <= v < 256 ^ Z.of_nat n -> be_unpack (be_pack n v) = v.
Proof. intros H. rewrite be_unpack_pack. by apply Z.mod_small. Qed.

Lemma be_unpack_bound bs :
  bytes_ok bs -> 0 <= be_unpack bs < 256 ^ Z.of_nat (length bs).
Proof.
  induction 1 as [|b bs Hb Hbs IH]; simpl be_unpack; [simpl; lia|].
  simpl length. rewrite Nat2Z.inj_succ, Z.pow_succ_r by lia.
  assert (0 < 256 ^ Z.of_nat (length bs)) by (apply Z.pow_pos_nonneg; lia).
  nia.
Qed.

(** The high-order bytes do not influence the low-order ones. *)
Lemma be_pack_add_high n k v :
  be_pack n (k * 256 ^ Z.of_nat n + v) = be_pack n v.
Proof.
  assert (forall m j, (n <= m)%nat -> be_pack n (j * 256 ^ Z.of_nat m + v) = be_pack n v) as Hg.
  { clear k. induction n as [|n IH]; intros m j Hm; simpl; [done|].
    f_equal; [|apply IH; lia].
    replace (256 ^ Z.of_nat m)
      with (256 ^ Z.of_nat (m - S n) * 256 * 256 ^ Z.of_nat n).
    2:{ rewrite <- (Z.pow_1_r 256) at 2. rewrite <- !Z.pow_add_r by lia.
        f_equal. lia. }
    assert (256 ^ Z.of_nat n <> 0) by (apply Z.pow_nonzero; lia).
    rewrite Z.mul_assoc, Z.div_add_l by done.
    rewrite Z.mul_assoc, Z.add_comm.
    by rewrite Z.mod_add by lia. }
  by apply Hg.
Qed.

Lemma be_pack_unpack bs : bytes_ok bs -> be_pack (length bs) (be_unpack bs) = bs.
Proof.
  induction 1 as [|b bs Hb Hbs IH]; simpl; [done|].
  pose proof (be_unpack_bound bs Hbs) as Hr.
  f_equal.
  - rewrite Z.div_add_l by (apply Z.pow_nonzero; lia).
    rewrite Z.div_small by done. rewrite Z.add_0_r. by apply Z.mod_small.
  - by rewrite be_pack_add_high.
Qed.

Lemma be_pack_unpack_len n bs :
  bytes_ok bs -> length bs = n -> be_pack n (be_unpack bs) = bs.
Proof. intros Hok <-. by apply be_pack_unpack. Qed.

(** * Lexicographic order of byte strings (Python's [bytes] comparison) *)

Fixpoint bytes_leb (xs ys : bytes) : bool :=
  match xs, ys with
  | [], _ => true
  | _ :: _, [] => false
  | x :: xs', y :: ys' =>
      if x <? y then true else if x =? y then bytes_leb xs' ys' else false
  end.

Definition bytes_le (xs ys : bytes) : Prop := bytes_leb xs ys = true.

#[global] Instance bytes_le_dec : RelDecision bytes_le.
Proof. intros xs ys. unfold bytes_le. apply _. Defined.

#[global] Instance bytes_le_total : Total bytes_le.
Proof.
  intros xs. induction xs as [|x xs IH]; intros [|y ys]; unfold bytes_le; simpl; auto.
  destruct (Z.ltb_spec x y), (Z.ltb_spec y x), (Z.eqb_spec x y), (Z.eqb_spec y x);
    auto; try lia; apply IH.
Qed.

#[global] Instance bytes_le_trans : Transitive bytes_le.
Proof.
  intros xs. induction xs as [|x xs IH]; intros [|y ys] [|z zs]; unfold bytes_le; simpl;
    try done.
  destruct (Z.ltb_spec x y), (Z.ltb_spec y z), (Z.eqb_spec x y), (Z.eqb_spec y z),
    (Z.ltb_spec x z), (Z.eqb_spec x z); try done; try lia.
  apply IH.
Qed.

#[global] Instance bytes_le_antisymm : AntiSymm eq bytes_le.
Proof.
  intros xs. induction xs as [|x xs IH]; intros [|y ys]; unfold bytes_le; simpl; try done.
  destruct (Z.ltb_spec x y), (Z.ltb_spec y x), (Z.eqb_spec x y), (Z.eqb_spec y x);
    try done; try lia.
  intros ??. subst. f_equal. by apply IH.
Qed.

(** * Writers and readers

    A writer method appends to the [bytearray] it owns; a reader method
    consumes a prefix of the unread suffix of its [memoryview]. *)

(** Every successful run of [w] appends bytes from which [r] reads [a] back,
    whatever follows them. *)
Definition writes_as {A} (w : SE bytes unit) (r : SE bytes A) (a : A) : Prop :=
  forall buf buf', w buf = Ok (tt, buf') ->
    exists bs, buf' = buf ++ bs /\ forall rest, r (bs ++ rest) = Ok (a, rest).

(** Every successful read of [a] consumed exactly the bytes [w a] appends. *)
Definition reads_as {A} (r : SE bytes A) (w : A -> SE bytes unit) : Prop :=
  forall buf a rest, bytes_ok buf -> r buf = Ok (a, rest) ->
    exists bs, buf = bs ++ rest /\ forall out, w a out = Ok (tt, out ++ bs).

Section pairing.
Context {A B : Type}.
Open Scope se_scope.

Lemma writes_as_ret (a : A) : writes_as (se_ret tt) (se_ret a) a.
Proof. intros buf buf' [= <-]. exists []. by rewrite app_nil_r. Qed.

Lemma writes_as_bind w w' (r : SE bytes A) (r' : A -> SE bytes B) a b :
  writes_as w r a -> writes_as w' (r' a) b ->
  writes_as (w ;;; w') (x <- r ;; r' x) b.
Proof.
  intros H1 H2 buf buf'' Hw. unfold se_bind in Hw.
  destruct (w buf) as [[[] buf']|] eqn:E1; [|done].
  destruct (H1 _ _ E1) as (bs1 & -> & Hr1).
  destruct (H2 _ _ Hw) as (bs2 & -> & Hr2).
  exists (bs1 ++ bs2). split; [by rewrite app_assoc|].
  intros rest. unfold se_bind. by rewrite <- app_assoc, Hr1, Hr2.
Qed.

(** A last write whose value the reader maps into its result. *)
Lemma writes_as_map w (r : SE bytes A) (f : A -> B) a :
  writes_as w r a -> writes_as w (x <- r ;; se_ret (f x)) (f a).
Proof.
  intros H buf buf' Hw. destruct (H _ _ Hw) as (bs & -> & Hr).
  exists bs. split; [done|]. intros rest. unfold se_bind, se_ret. by rewrite Hr.
Qed.

Lemma writes_as_check_w c e w (r : SE bytes A) a :
  (c = true -> writes_as w r a) -> writes_as (se_check c e ;;; w) r a.
Proof.
  intros H buf buf' Hw. unfold se_bind, se_check in Hw.
  destruct c; [|done]. by apply H.
Qed.

Lemma writes_as_check_r c e w (r : SE bytes A) a :
  c = true -> writes_as w r a -> writes_as w (se_check c e ;;; r) a.
Proof.
  intros -> H buf buf' Hw. destruct (H _ _ Hw) as (bs & -> & Hr).
  exists bs. split; [done|]. intros rest. unfold se_bind, se_check. apply Hr.
Qed.

Lemma writes_as_lift_w (m : result B) (k : B -> SE bytes unit) (r : SE bytes A) a :
  (forall x, m = Ok x -> writes_as (k x) r a) ->
  writes_as (x <- se_lift m ;; k x) r a.
Proof.
  intros H buf buf' Hw. unfold se_bind, se_lift in Hw.
  destruct m as [x|]; [|done]. by apply (H x).
Qed.

Lemma writes_as_lift_r (m : result B) x w (k : B -> SE bytes A) a :
  m = Ok x -> writes_as w (k x) a -> writes_as w (x <- se_lift m ;; k x) a.
Proof.
  intros -> H buf buf' Hw. destruct (H _ _ Hw) as (bs & -> & Hr).
  exists bs. split; [done|]. intros rest. unfold se_bind, se_lift. apply Hr.
Qed.

Lemma writes_as_ext w w' (r : SE bytes A) a :
  (forall buf, w' buf = w buf) -> writes_as w r a -> writes_as w' r a.
Proof. intros E H buf buf'. rewrite E. apply H. Qed.

Lemma writes_as_ext_r w (r r' : SE bytes A) a :
  (forall buf, r' buf = r buf) -> writes_as w r a -> writes_as w r' a.
Proof.
  intros E H buf buf' Hw. destruct (H _ _ Hw) as (bs & -> & Hr).
  exists bs. split; [done|]. intros rest. by rewrite E.
Qed.

End pairing.

Section se_laws.
Context {S A B C : Type}.
Open Scope se_scope.

Lemma se_bind_assoc (m : SE S A) (k : A -> SE S B) (h : B -> SE S C) s :
  (y <- (x <- m ;; k x) ;; h y) s = (x <- m ;; (y <- k x ;; h y)) s.
Proof. unfold se_bind. by destruct (m s) as [[]|]. Qed.

End se_laws.

(** Sequencing over a list: [for x in xs: m(x)]. *)
Fixpoint se_iter {S A} (m : A -> SE S unit) (xs : list A) : SE S unit :=
  match xs with
  | [] => se_ret tt
  | x :: xs' => se_bind (m x) (fun _ => se_iter m xs')
  end.

(** [tuple(m() for _ in range(n))]. *)
Fixpoint se_replicate {S A} (n : nat) (m : SE S A) : SE S (list A) :=
  match n with
  | O => se_ret []
  | S n' => se_bind m (fun x => se_bind (se_replicate n' m) (fun xs => se_ret (x :: xs)))
  end.

Lemma writes_as_iter {A} (w : A -> SE bytes unit) (r : SE bytes A) xs :
  Forall (fun x => writes_as (w x) r x) xs ->
  writes_as (se_iter w xs) (se_replicate (length xs) r) xs.
Proof.
  induction 1 as [|x xs Hx _ IH]; simpl.
  - apply writes_as_ret.
  - eapply writes_as_bind; [exact Hx|].
    apply (writes_as_map _ _ (cons x)). exact IH.
Qed.
