(* ===== verification/PyStr.v ===== *)
(** Python [str] and its UTF-8 codec.

    A [str] is a list of code points; [str_ok] says that each is at most
    U+10FFFF, which holds of every Python string (surrogates included).
    [utf8_encode] is [str.encode("utf-8", errors="strict")], which refuses
    surrogates, and [utf8_decode] is [bytes.decode("utf-8", errors="strict")],
    which refuses overlong forms, surrogates and values above U+10FFFF.  The
    theorems show that the two are inverse to each other. *)

From stdpp Require Import base list numbers gmap strings sorting.
From S2P Require Import Prelude Bytes.

Abbreviation pystr := (list Z).

Definition str_ok (s : pystr) : Prop := Forall (fun c => 0 <= c <= 0x10FFFF) s.

#[global] Instance str_ok_dec s : Decision (str_ok s).
Proof. unfold str_ok. apply _. Defined.

(** A string literal of the source. *)
Fixpoint lit (s : string) : pystr :=
  match s with
  | EmptyString => []
  | String a s' => Z.of_N (Ascii.N_of_ascii a) :: lit s'
  end.

Definition is_surrogate (c : Z) : bool := (0xD800 <=? c) && (c <=? 0xDFFF).

(** [str.isascii]. *)
Definition isascii (s : pystr) : bool := forallb (fun c => c <? 128) s.

(** * Encoding *)

Definition utf8_char (c : Z) : bytes :=
  if c <? 0x80 then [c]
  else if c <? 0x800 then [0xC0 + c / 64; 0x80 + c mod 64]
  else if c <? 0x10000 then
    [0xE0 + c / 4096; 0x80 + (c / 64) mod 64; 0x80 + c mod 64]
  else
    [0xF0 + c / 262144; 0x80 + (c / 4096) mod 64; 0x80 + (c / 64) mod 64; 0x80 + c mod 64].

Definition utf8_bytes (s : pystr) : bytes := s ≫= utf8_char.

Definition utf8_encode (s : pystr) : result bytes :=
  if existsb is_surrogate s then Err UnicodeEncodeError else Ok (utf8_bytes s).

(** * Decoding *)

Definition is_cont (b : Z) : bool := (0x80 <=? b) && (b <=? 0xBF).

Fixpoint utf8_decode (bs : bytes) : option pystr :=
  match bs with
  | [] => Some []
  | b0 :: r0 =>
      if b0 <? 0x80 then cons b0 <$> utf8_decode r0
      else if b0 <? 0xC2 then None
      else if b0 <? 0xE0 then
        match r0 with
        | b1 :: r1 =>
            if is_cont b1 then
              cons ((b0 - 0xC0) * 64 + (b1 - 0x80)) <$> utf8_decode r1
            else None
        | _ => None
        end
      else if b0 <? 0xF0 then
        match r0 with
        | b1 :: b2 :: r2 =>
            let c := (b0 - 0xE0) * 4096 + (b1 - 0x80) * 64 + (b2 - 0x80) in
            if is_cont b1 && is_cont b2 && (0x800 <=? c) && negb (is_surrogate c) then
              cons c <$> utf8_decode r2
            else None
        | _ => None
        end
      else if b0 <? 0xF5 then
        match r0 with
        | b1 :: b2 :: b3 :: r3 =>
            let c := (b0 - 0xF0) * 262144 + (b1 - 0x80) * 4096
                     + (b2 - 0x80) * 64 + (b3 - 0x80) in
            if is_cont b1 && is_cont b2 && is_cont b3
               && (0x10000 <=? c) && (c <=? 0x10FFFF) then
              cons c <$> utf8_decode r3
            else None
        | _ => None
        end
      else None
  end.

(** * The codec is a bijection between scalar-value strings and accepted bytes *)

Definition scalar (c : Z) : Prop := 0 <= c <= 0x10FFFF /\ is_surrogate c = false.

Lemma utf8_char_cases c :
  scalar c ->
  (c < 0x80 /\ utf8_char c = [c]) \/
  (0x80 <= c < 0x800 /\ utf8_char c = [0xC0 + c / 64; 0x80 + c mod 64]) \/
  (0x800 <= c < 0x10000 /\
     utf8_char c = [0xE0 + c / 4096; 0x80 + (c / 64) mod 64; 0x80 + c mod 64]) \/
  (0x10000 <= c /\
     utf8_char c = [0xF0 + c / 262144; 0x80 + (c / 4096) mod 64;
                    0x80 + (c / 64) mod 64; 0x80 + c mod 64]).
Proof.
  intros [Hr _]. unfold utf8_char.
  destruct (Z.ltb_spec c 0x80); [by left|].
  destruct (Z.ltb_spec c 0x800); [by right; left|].
  destruct (Z.ltb_spec c 0x10000); [by do 2 right; left|by do 3 right].
Qed.

(** Decides the range tests of the decoder by linear arithmetic. *)
Ltac ztests :=
  repeat match goal with
  | |- context [?a <? ?b] =>
      first [ rewrite (proj2 (Z.ltb_lt a b)) by lia
            | rewrite (proj2 (Z.ltb_ge a b)) by lia ]
  | |- context [?a <=? ?b] =>
      first [ rewrite (proj2 (Z.leb_le a b)) by lia
            | rewrite (proj2 (Z.leb_gt a b)) by lia ]
  end.

Lemma is_cont_low c : is_cont (0x80 + c mod 64) = true.
Proof.
  pose proof (Z.mod_pos_bound c 64 eq_refl). unfold is_cont. by ztests.
Qed.

Lemma utf8_decode_char c rest :
  scalar c -> utf8_decode (utf8_char c ++ rest) = cons c <$> utf8_decode rest.
Proof.
  intros Hc. pose proof Hc as [Hr Hs].
  destruct (utf8_char_cases c Hc) as [[H ->]|[[H ->]|[[H ->]|[H ->]]]];
    cbn [app utf8_decode]; rewrite ?is_cont_low; cbn [andb].
  - by ztests.
  - assert (2 <= c / 64 < 32)
      by (split; [apply Z.div_le_lower_bound|apply Z.div_lt_upper_bound]; lia).
    ztests. f_equal. f_equal. pose proof (Z.div_mod c 64). lia.
  - assert (0 <= c / 4096 < 16)
      by (split; [apply Z.div_le_lower_bound|apply Z.div_lt_upper_bound]; lia).
    replace ((0xE0 + c / 4096 - 0xE0) * 4096 + (0x80 + (c / 64) mod 64 - 0x80) * 64
             + (0x80 + c mod 64 - 0x80)) with c.
    2:{ Z.to_euclidean_division_equations. lia. }
    rewrite Hs. by ztests.
  - assert (0 <= c / 262144 < 5)
      by (split; [apply Z.div_le_lower_bound|apply Z.div_lt_upper_bound]; lia).
    replace ((0xF0 + c / 262144 - 0xF0) * 262144 + (0x80 + (c / 4096) mod 64 - 0x80) * 4096
             + (0x80 + (c / 64) mod 64 - 0x80) * 64 + (0x80 + c mod 64 - 0x80)) with c.
    2:{ Z.to_euclidean_division_equations. lia. }
    by ztests.
Qed.

Lemma utf8_decode_bytes s : Forall scalar s -> utf8_decode (utf8_bytes s) = Some s.
Proof.
  unfold utf8_bytes. induction 1 as [|c s Hc _ IH]; [done|].
  cbn [mbind list_bind]. rewrite utf8_decode_char by done.
  change (list_bind _ _ utf8_char s) with (s ≫= utf8_char). by rewrite IH.
Qed.

Lemma utf8_encode_scalar s bs :
  str_ok s -> utf8_encode s = Ok bs -> Forall scalar s /\ bs = utf8_bytes s.
Proof.
  unfold utf8_encode. intros Hs. destruct (existsb is_surrogate s) eqn:E; [done|].
  intros [= <-]. split; [|done].
  apply Forall_forall. intros c Hc. split; [by apply (proj1 (Forall_forall _ _) Hs)|].
  destruct (is_surrogate c) eqn:Ec; [|done].
  rewrite <- E. symmetry. apply existsb_exists. exists c. split; [|done].
  by apply list_elem_of_In.
Qed.

Lemma utf8_decode_encode s bs :
  str_ok s -> utf8_encode s = Ok bs -> utf8_decode bs = Some s.
Proof.
  intros Hs Hbs. destruct (utf8_encode_scalar s bs Hs Hbs) as [Hsc ->].
  by apply utf8_decode_bytes.
Qed.

Lemma utf8_encode_ok s : Forall scalar s -> utf8_encode s = Ok (utf8_bytes s).
Proof.
  intros Hs. unfold utf8_encode. destruct (existsb is_surrogate s) eqn:E; [|done].
  apply existsb_exists in E as (c & Hin & Hc). apply list_elem_of_In in Hin.
  destruct (proj1 (Forall_forall _ _) Hs c Hin). congruence.
Qed.

Lemma utf8_char_ok c : scalar c -> bytes_ok (utf8_char c).
Proof.
  intros Hc. pose proof Hc as [Hr _]. unfold bytes_ok.
  pose proof (Z.mod_pos_bound c 64 eq_refl).
  pose proof (Z.mod_pos_bound (c / 64) 64 eq_refl).
  pose proof (Z.mod_pos_bound (c / 4096) 64 eq_refl).
  destruct (utf8_char_cases c Hc) as [[H' ->]|[[H' ->]|[[H' ->]|[H' ->]]]];
    repeat (apply Forall_cons_2); try apply Forall_nil_2; try lia.
  - split; [|apply Z.lt_le_trans with (0xC0 + 32)]; try lia.
    + apply Z.add_nonneg_nonneg; [lia|]. apply Z.div_pos; lia.
    + apply Z.add_lt_mono_l, Z.div_lt_upper_bound; lia.
  - split; [|apply Z.lt_le_trans with (0xE0 + 16)]; try lia.
    + apply Z.add_nonneg_nonneg; [lia|]. apply Z.div_pos; lia.
    + apply Z.add_lt_mono_l, Z.div_lt_upper_bound; lia.
  - split; [|apply Z.lt_le_trans with (0xF0 + 5)]; try lia.
    + apply Z.add_nonneg_nonneg; [lia|]. apply Z.div_pos; lia.
    + apply Z.add_lt_mono_l, Z.div_lt_upper_bound; lia.
Qed.

(** The converse: an accepted byte string is the encoding of its decoding. *)

Lemma scalar_intro c :
  0 <= c <= 0x10FFFF -> is_surrogate c = false -> scalar c.
Proof. done. Qed.

Lemma is_cont_spec b : is_cont b = true <-> 0x80 <= b <= 0xBF.
Proof. unfold is_cont. rewrite andb_true_iff, !Z.leb_le. lia. Qed.

Lemma utf8_bytes_cons c s : utf8_bytes (c :: s) = utf8_char c ++ utf8_bytes s.
Proof. done. Qed.

Lemma utf8_bytes_app s t : utf8_bytes (s ++ t) = utf8_bytes s ++ utf8_bytes t.
Proof. apply bind_app. Qed.

Lemma utf8_char2 b0 b1 :
  0xC2 <= b0 < 0xE0 -> 0x80 <= b1 <= 0xBF ->
  let c := (b0 - 0xC0) * 64 + (b1 - 0x80) in
  scalar c /\ utf8_char c = [b0; b1].
Proof.
  intros H0 H1 c. split.
  { split; [lia|]. unfold is_surrogate. by ztests. }
  unfold utf8_char. ztests. subst c.
  repeat f_equal; Z.to_euclidean_division_equations; lia.
Qed.

Lemma utf8_char3 b0 b1 b2 :
  0xE0 <= b0 < 0xF0 -> 0x80 <= b1 <= 0xBF -> 0x80 <= b2 <= 0xBF ->
  let c := (b0 - 0xE0) * 4096 + (b1 - 0x80) * 64 + (b2 - 0x80) in
  0x800 <= c -> is_surrogate c = false ->
  scalar c /\ utf8_char c = [b0; b1; b2].
Proof.
  intros H0 H1 H2 c Hc Hs. split; [split; [lia|done]|].
  unfold utf8_char. ztests. subst c. clear Hs.
  repeat f_equal; Z.to_euclidean_division_equations; lia.
Qed.

Lemma utf8_char4 b0 b1 b2 b3 :
  0xF0 <= b0 < 0xF5 -> 0x80 <= b1 <= 0xBF -> 0x80 <= b2 <= 0xBF -> 0x80 <= b3 <= 0xBF ->
  let c := (b0 - 0xF0) * 262144 + (b1 - 0x80) * 4096 + (b2 - 0x80) * 64 + (b3 - 0x80) in
  0x10000 <= c <= 0x10FFFF ->
  scalar c /\ utf8_char c = [b0; b1; b2; b3].
Proof.
  intros H0 H1 H2 H3 c Hc. split.
  { split; [lia|]. unfold is_surrogate. ztests. by rewrite andb_false_r. }
  unfold utf8_char. ztests. subst c.
  repeat f_equal; Z.to_euclidean_division_equations; lia.
Qed.

Ltac split_tests H :=
  repeat (rewrite ?andb_true_iff, ?negb_true_iff, ?is_cont_spec, ?Z.leb_le in H).

(** One step of the decoder consumes the encoding of one scalar value. *)
Lemma utf8_decode_step bs s :
  bytes_ok bs -> utf8_decode bs = Some s ->
  (bs = [] /\ s = []) \/
  exists c rest s', bs = utf8_char c ++ rest /\ s = c :: s' /\ scalar c /\
    utf8_decode rest = Some s'.
Proof.
  intros Hok H. destruct bs as [|b0 r0]; [left; by injection H as <-|right].
  apply Forall_cons in Hok as [Hb0 Hok]. cbn [utf8_decode] in H.
  destruct (Z.ltb_spec b0 0x80).
  { apply fmap_Some in H as (s' & Hd & ->). exists b0, r0, s'.
    split_and!; [|done| |done].
    - unfold utf8_char. by ztests.
    - split; [lia|]. unfold is_surrogate. by ztests. }
  destruct (Z.ltb_spec b0 0xC2); [done|].
  destruct (Z.ltb_spec b0 0xE0).
  { destruct r0 as [|b1 r1]; [done|].
    destruct (is_cont b1) eqn:E1; [|done]. split_tests E1.
    apply fmap_Some in H as (s' & Hd & ->).
    destruct (utf8_char2 b0 b1) as [Hs Hc]; [lia..|].
    eexists _, r1, s'. rewrite Hc. by split_and!. }
  destruct (Z.ltb_spec b0 0xF0).
  { destruct r0 as [|b1 [|b2 r2]]; [done..|].
    destruct (is_cont b1 && _ && _ && _) eqn:E1; [|done]. split_tests E1.
    destruct E1 as [[[??]?]?].
    apply fmap_Some in H as (s' & Hd & ->).
    destruct (utf8_char3 b0 b1 b2) as [Hs Hc]; [lia..|done|].
    eexists _, r2, s'. rewrite Hc. by split_and!. }
  destruct (Z.ltb_spec b0 0xF5); [|done].
  destruct r0 as [|b1 [|b2 [|b3 r3]]]; [done..|].
  destruct (is_cont b1 && _ && _ && _ && _) eqn:E1; [|done]. split_tests E1.
  destruct E1 as [[[[??]?]?]?].
  apply fmap_Some in H as (s' & Hd & ->).
  destruct (utf8_char4 b0 b1 b2 b3) as [Hs Hc]; [lia..|].
  eexists _, r3, s'. rewrite Hc. by split_and!.
Qed.

Lemma utf8_decode_sound bs s :
  bytes_ok bs -> utf8_decode bs = Some s -> Forall scalar s /\ utf8_bytes s = bs.
Proof.
  revert bs. induction s as [|c s IH]; intros bs Hok H;
    destruct (utf8_decode_step bs _ Hok H) as [[??]|(c' & r & s' & -> & Hcs & Hc & Hd)];
    simplify_eq; [done|].
  apply Forall_app in Hok as [_ Hok]. destruct (IH r Hok Hd) as [Hs Hb].
  split; [by constructor|]. by rewrite utf8_bytes_cons, Hb.
Qed.

Lemma utf8_encode_decode bs s :
  bytes_ok bs -> utf8_decode bs = Some s -> utf8_encode s = Ok bs.
Proof.
  intros Hok H. destruct (utf8_decode_sound bs s Hok H) as [Hs <-].
  by apply utf8_encode_ok.
Qed.

Lemma utf8_bytes_inj s t :
  Forall scalar s -> Forall scalar t -> utf8_bytes s = utf8_bytes t -> s = t.
Proof.
  intros Hs Ht E. apply utf8_decode_bytes in Hs, Ht. congruence.
Qed.

Lemma scalar_str_ok s : Forall scalar s -> str_ok s.
Proof. intros H. eapply Forall_impl; [exact H|]. by intros c [??]. Qed.

Lemma utf8_bytes_ok s : Forall scalar s -> bytes_ok (utf8_bytes s).
Proof.
  induction 1 as [|c s Hc _ IH]; [constructor|].
  rewrite utf8_bytes_cons. apply Forall_app. split; [by apply utf8_char_ok|done].
Qed.

Lemma utf8_encode_nil_inv s : utf8_encode s = Ok [] -> s = [].
Proof.
  unfold utf8_encode. destruct (existsb _ _); [done|]. intros [= E].
  destruct s as [|c s]; [done|]. exfalso. rewrite utf8_bytes_cons in E.
  unfold utf8_char in E. repeat case_match; done.
Qed.

(** * Canonical order of strings: [sorted(xs, key=lambda s: s.encode("utf-8"))] *)

Definition utf8_le (s t : pystr) : Prop := bytes_le (utf8_bytes s) (utf8_bytes t).

#[global] Instance utf8_le_dec : RelDecision utf8_le.
Proof. intros s t. unfold utf8_le. apply _. Defined.
#[global] Instance utf8_le_total : Total utf8_le.
Proof. intros s t. apply (total bytes_le). Qed.
#[global] Instance utf8_le_trans : Transitive utf8_le.
Proof. intros s t u. apply (transitivity (R := bytes_le)). Qed.

Definition sorted_utf8 (xs : list pystr) : list pystr := merge_sort utf8_le xs.

Lemma sorted_utf8_perm xs : sorted_utf8 xs ≡ₚ xs.
Proof. apply merge_sort_Permutation. Qed.

Lemma sorted_utf8_sorted xs : StronglySorted utf8_le (sorted_utf8 xs).
Proof. apply StronglySorted_merge_sort; apply _. Qed.

(** Two sorted arrangements of the same strings coincide: UTF-8 is injective. *)
Lemma sorted_utf8_unique xs ys :
  Forall (Forall scalar) xs -> xs ≡ₚ ys ->
  StronglySorted utf8_le xs -> StronglySorted utf8_le ys -> xs = ys.
Proof.
  intros Hx Hp Hsx Hsy.
  assert (Forall (Forall scalar) ys) as Hy by by rewrite <- Hp.
  assert (utf8_bytes <$> xs = utf8_bytes <$> ys) as E.
  { apply (StronglySorted_unique bytes_le).
    - clear -Hsx. induction Hsx; constructor; [done|]. by apply Forall_fmap.
    - clear -Hsy. induction Hsy; constructor; [done|]. by apply Forall_fmap.
    - by rewrite Hp. }
  clear Hsx Hsy Hp. revert ys Hy E.
  induction Hx as [|x xs Hx _ IH]; intros [|y ys] Hy E; simplify_eq/=; [done|].
  apply Forall_cons in Hy as [Hy Hys]. f_equal; [by apply utf8_bytes_inj|by apply IH].
Qed.

Lemma sorted_utf8_id xs :
  Forall (Forall scalar) xs -> StronglySorted utf8_le xs -> sorted_utf8 xs = xs.
Proof.
  intros Hx Hs. symmetry. apply sorted_utf8_unique; try done.
  - by rewrite sorted_utf8_perm.
  - apply sorted_utf8_sorted.
Qed.

(** * String methods the modelled code uses *)

(** [s.split(sep)] for a one-character separator: never the empty list. *)
Fixpoint split_on (sep : Z) (s : pystr) : list pystr :=
  match s with
  | [] => [[]]
  | c :: s' =>
      if c =? sep then [] :: split_on sep s'
      else match split_on sep s' with
           | [] => [[c]]
           | seg :: segs => (c :: seg) :: segs
           end
  end.

(** [sep.join(parts)]. *)
Fixpoint join (sep : pystr) (parts : list pystr) : pystr :=
  match parts with
  | [] => []
  | [p] => p
  | p :: ps => p ++ sep ++ join sep ps
  end.

Definition starts_with (prefix s : pystr) : bool :=
  bool_decide (take (length prefix) s = prefix).

Definition in_range (lo hi c : Z) : bool := (lo <=? c) && (c <=? hi).

(** The characters of [abc...zABC...Z0123456789._~-]. *)
Definition is_unreserved (c : Z) : bool :=
  in_range 97 122 c || in_range 65 90 c || in_range 48 57 c
  || (c =? 46) || (c =? 95) || (c =? 126) || (c =? 45).

Lemma split_on_nonempty sep s : split_on sep s <> [].
Proof. destruct s as [|c s]; simpl; [done|]. repeat case_match; done. Qed.

Lemma join_split_on sep s : join [sep] (split_on sep s) = s.
Proof.
  induction s as [|c s IH]; simpl; [done|].
  pose proof (split_on_nonempty sep s) as Hn.
  destruct (Z.eqb_spec c sep) as [->|Hc].
  - destruct (split_on sep s) as [|p ps]; [done|].
    change (join [sep] ([] :: p :: ps)) with ([sep] ++ join [sep] (p :: ps)).
    by rewrite IH.
  - destruct (split_on sep s) as [|p ps]; [done|].
    destruct ps; simpl in *; by rewrite <- IH.
Qed.

Lemma split_on_no_sep sep s : Forall (fun seg => sep ∉ seg) (split_on sep s).
Proof.
  induction s as [|c s IH]; simpl; [repeat constructor; set_solver|].
  destruct (Z.eqb_spec c sep) as [->|Hc]; [constructor; [set_solver|done]|].
  destruct (split_on sep s) as [|p ps]; [constructor; set_solver|].
  apply Forall_cons in IH as [Hp IH]. constructor; [set_solver|done].
Qed.

Lemma split_on_join sep parts :
  parts <> [] -> Forall (fun seg => sep ∉ seg) parts ->
  split_on sep (join [sep] parts) = parts.
Proof.
  intros Hne H. induction H as [|p ps Hp _ IH]; [done|].
  assert (forall tail, split_on sep (p ++ tail) =
            match split_on sep tail with
            | [] => [p] | seg :: segs => (p ++ seg) :: segs end) as Hpre.
  { clear -Hp. induction p as [|c p IH]; intros tail; simpl.
    - by destruct (split_on sep tail) eqn:E; [apply split_on_nonempty in E|].
    - apply not_elem_of_cons in Hp as [Hc Hp]. rewrite (IH Hp).
      destruct (Z.eqb_spec c sep); [congruence|].
      by destruct (split_on sep tail). }
  destruct ps as [|q qs]; cbn [join].
  - specialize (Hpre []). rewrite app_nil_r in Hpre. rewrite Hpre. simpl.
    by rewrite app_nil_r.
  - rewrite Hpre. cbn [app split_on]. rewrite Z.eqb_refl, app_nil_r.
    f_equal. by apply IH.
Qed.

(** * Searching *)

Definition is_prefix (pat b : bytes) : bool := bool_decide (take (length pat) b = pat).

(** [b.find(pat)], with [None] for [-1]. *)
Fixpoint find (pat b : bytes) : option nat :=
  if is_prefix pat b then Some 0%nat
  else match b with
       | [] => None
       | _ :: b' => S <$> find pat b'
       end.

(** [b.find(pat, start)]. *)
Definition find_from (pat b : bytes) (start : nat) : option nat :=
  (fun i => (start + i)%nat) <$> find pat (drop start b).

(** [line.partition(sep)]: the part before, whether [sep] was found, the rest. *)
Fixpoint partition (sep : Z) (line : bytes) : bytes * bool * bytes :=
  match line with
  | [] => ([], false, [])
  | c :: line' =>
      if c =? sep then ([], true, line')
      else let '(before, found, after) := partition sep line' in (c :: before, found, after)
  end.

(** * Hexadecimal *)

(** [bytes.hex()]. *)
Definition hex_digit (n : Z) : Z := if n <? 10 then n + 48 else n + 87.
Definition hexdigest (b : bytes) : pystr := b ≫= fun x => [hex_digit (x / 16); hex_digit (x mod 16)].

(** * Numbers *)

Definition is_digit (c : Z) : bool := in_range 48 57 c.

(** [int(s)] of a string of digits. *)
Definition int_of_digits (s : pystr) : Z := foldl (fun n c => n * 10 + (c - 48)) 0 s.

(** [str(n)] of a nonnegative integer. *)
Fixpoint str_aux (fuel : nat) (n : Z) : pystr :=
  match fuel with
  | O => []
  | S fuel' => if n <? 10 then [n + 48] else str_aux fuel' (n / 10) ++ [n mod 10 + 48]
  end.
Definition str_of_Z (n : Z) : pystr := str_aux (S (Z.to_nat (Z.log2 n))) n.

Lemma is_prefix_spec pat b : is_prefix pat b = true <-> exists r, b = pat ++ r.
Proof.
  unfold is_prefix. rewrite bool_decide_eq_true. split.
  - intros E. exists (drop (length pat) b). by rewrite <- E at 1; rewrite take_drop.
  - intros [r ->]. by rewrite take_app_length.
Qed.

Lemma is_prefix_app pat b x : is_prefix pat b = true -> is_prefix pat (b ++ x) = true.
Proof. rewrite !is_prefix_spec. intros [r ->]. exists (r ++ x). by rewrite (assoc_L (++)). Qed.

Lemma find_Some pat b i :
  find pat b = Some i -> exists pre post, b = pre ++ pat ++ post /\ length pre = i.
Proof.
  revert i. induction b as [|c b IH]; intros i; simpl; destruct (is_prefix _ _) eqn:E.
  - apply is_prefix_spec in E as [r ->]. intros [= <-]. by exists [], r.
  - done.
  - apply is_prefix_spec in E as [r E]. intros [= <-]. by exists [], r.
  - destruct (find pat b) as [j|]; [|done]. intros [= <-].
    destruct (IH j eq_refl) as (pre & post & -> & <-). by exists (c :: pre), post.
Qed.

Lemma find_bound pat b i : find pat b = Some i -> (i + length pat <= length b)%nat.
Proof.
  intros (pre & post & -> & <-)%find_Some. rewrite !length_app. lia.
Qed.

(** A match stays the first match when bytes are appended. *)
Lemma find_app pat b x i : find pat b = Some i -> find pat (b ++ x) = Some i.
Proof.
  revert i. induction b as [|c b IH]; intros i.
  - simpl. destruct (is_prefix pat []) eqn:E; [|done]. intros [= <-].
    apply (is_prefix_app _ _ x) in E. simpl in E. by destruct x; simpl; rewrite E.
  - cbn [find app]. destruct (is_prefix pat (c :: b)) eqn:E.
    + intros [= <-]. apply (is_prefix_app _ _ x) in E. cbn [app] in E. by rewrite E.
    + destruct (find pat b) as [j|] eqn:Ef; [|done]. intros [= <-].
      destruct (is_prefix pat (c :: b ++ x)) eqn:E'.
      * exfalso. apply find_bound in Ef. apply is_prefix_spec in E' as [r E'].
        apply not_true_iff_false in E. apply E, is_prefix_spec.
        exists (take (S (length b) - length pat) r).
        apply (f_equal (take (S (length b)))) in E'.
        change (c :: b ++ x) with ((c :: b) ++ x) in E'.
        rewrite take_app_length' in E' by done.
        rewrite E', take_app. f_equal. rewrite take_ge; [done|]. lia.
      * by rewrite (IH j).
Qed.

Lemma find_from_bound pat b s i :
  find_from pat b s = Some i -> (s <= length b)%nat -> (s <= i /\ i + length pat <= length b)%nat.
Proof.
  unfold find_from. intros (j & Hf & ->)%fmap_Some Hs. apply find_bound in Hf.
  rewrite length_drop in Hf. lia.
Qed.

Lemma find_from_app pat b x s i :
  (s <= length b)%nat -> find_from pat b s = Some i -> find_from pat (b ++ x) s = Some i.
Proof.
  unfold find_from. intros Hs (j & Hf & ->)%fmap_Some.
  rewrite drop_app_le by lia. by rewrite (find_app _ _ _ _ Hf).
Qed.

Lemma find_here pat b : find pat (pat ++ b) = Some 0%nat.
Proof.
  assert (E : is_prefix pat (pat ++ b) = true) by (apply is_prefix_spec; eauto).
  destruct (pat ++ b); simpl; by rewrite E.
Qed.

Lemma is_digit_spec c : is_digit c = true <-> 48 <= c <= 57.
Proof. unfold is_digit, in_range. rewrite andb_true_iff. lia. Qed.

(** Positional value of a digit string. *)
Lemma int_foldl s n : foldl (fun n c => n * 10 + (c - 48)) n s = n * 10 ^ len s + int_of_digits s.
Proof.
  revert n. induction s as [|c s IH]; intros n; unfold int_of_digits, len in *; cbn [foldl].
  - cbn. lia.
  - rewrite IH, (IH (0 * 10 + (c - 48))). rewrite length_cons, Nat2Z.inj_succ, Z.pow_succ_r by lia.
    lia.
Qed.

Lemma int_of_cons c s : int_of_digits (c :: s) = (c - 48) * 10 ^ len s + int_of_digits s.
Proof. unfold int_of_digits at 1. cbn [foldl]. by rewrite int_foldl. Qed.

Lemma int_bound s : forallb is_digit s = true -> 0 <= int_of_digits s < 10 ^ len s.
Proof.
  induction s as [|c s IH]; [unfold len; cbn; lia|]. cbn [forallb].
  rewrite andb_true_iff. intros [Hc%is_digit_spec Hs]. specialize (IH Hs).
  rewrite int_of_cons. replace (len (c :: s)) with (Z.succ (len s)) by (unfold len; cbn; lia).
  rewrite Z.pow_succ_r by (unfold len; lia). nia.
Qed.

(** A number without leading zeros has as many digits as it needs. *)
Lemma int_lower c s :
  forallb is_digit (c :: s) = true -> c <> 48 -> 10 ^ len s <= int_of_digits (c :: s).
Proof.
  cbn [forallb]. rewrite andb_true_iff. intros [Hc%is_digit_spec Hs] Hne.
  pose proof (int_bound s Hs). rewrite int_of_cons. nia.
Qed.

Lemma str_aux_spec fuel n :
  0 <= n -> n < 10 ^ Z.of_nat fuel ->
  n < 10 ^ len (str_aux fuel n) /\ forallb is_digit (str_aux fuel n) = true /\
  int_of_digits (str_aux fuel n) = n.
Proof.
  revert n. induction fuel as [|fuel IH]; intros n Hn Hf; cbn [str_aux].
  - cbn in *. unfold len; simpl. lia.
  - destruct (Z.ltb_spec n 10) as [Hlt|Hge].
    + unfold len; simpl. split_and!; [lia| |unfold int_of_digits; simpl; lia].
      rewrite andb_true_r. apply is_digit_spec. lia.
    + rewrite Nat2Z.inj_succ, Z.pow_succ_r in Hf by lia.
      destruct (IH (n / 10)) as (H1 & H2 & H3); [by apply Z.div_pos|apply Z.div_lt_upper_bound; lia|].
      pose proof (Z.mod_pos_bound n 10 ltac:(lia)). pose proof (Z.div_mod n 10 ltac:(lia)).
      unfold len in *. rewrite length_app, Nat2Z.inj_add, Z.pow_add_r by lia.
      change (10 ^ Z.of_nat (length [_])) with 10. split_and!.
      * lia.
      * rewrite forallb_app, H2. cbn [forallb]. rewrite andb_true_r. apply is_digit_spec. lia.
      * unfold int_of_digits in *. rewrite foldl_app, H3. cbn [foldl]. lia.
Qed.

Lemma str_of_Z_spec n :
  0 <= n -> n < 10 ^ len (str_of_Z n) /\ forallb is_digit (str_of_Z n) = true /\
  int_of_digits (str_of_Z n) = n.
Proof.
  intros Hn. apply str_aux_spec; [done|].
  destruct (Z.eq_dec n 0) as [->|Hn0]; [done|].
  pose proof (Z.log2_spec n ltac:(lia)) as [_ H].
  rewrite Nat2Z.inj_succ, Z2Nat.id by apply Z.log2_nonneg.
  eapply Z.lt_le_trans; [exact H|]. apply Z.pow_le_mono_l. lia.
Qed.
