(* ===== verification/Dict.v ===== *)
(** Python dicts as association lists: a dict keeps the order in which its keys were
    first inserted, assignment to a key that is there keeps its place, and [pop] takes it
    out.  A dict reached by these operations has distinct keys. *)

From stdpp Require Import base list.
From S2P Require Import Prelude.

Section dict.
Context {K V : Type} `{EqDecision K}.

Fixpoint dict_get (d : list (K * V)) (k : K) : option V :=
  match d with
  | [] => None
  | (k', v) :: d' => if decide (k = k') then Some v else dict_get d' k
  end.

Definition dict_has (d : list (K * V)) (k : K) : bool :=
  match dict_get d k with Some _ => true | None => false end.

(** [d[k] = v]. *)
Fixpoint dict_set (d : list (K * V)) (k : K) (v : V) : list (K * V) :=
  match d with
  | [] => [(k, v)]
  | (k', v') :: d' => if decide (k = k') then (k', v) :: d' else (k', v') :: dict_set d' k v
  end.

Lemma dict_get_elem d k v : dict_get d k = Some v -> (k, v) ∈ d.
Proof.
  induction d as [|[k' v'] d IH]; simpl; [done|]. case_decide as E; intros H.
  - simplify_eq. left.
  - right. auto.
Qed.

Lemma dict_get_none d k : dict_get d k = None <-> k ∉ d.*1.
Proof.
  induction d as [|[k' v'] d IH]; simpl; [split; [intros _; apply not_elem_of_nil|done]|].
  rewrite not_elem_of_cons. case_decide; naive_solver.
Qed.

Lemma dict_elem_get d k v : NoDup d.*1 -> (k, v) ∈ d -> dict_get d k = Some v.
Proof.
  induction d as [|[k' v'] d IH]; simpl; intros Hd Hin; [by apply not_elem_of_nil in Hin|].
  apply NoDup_cons in Hd as [Hk Hd]. apply elem_of_cons in Hin as [[= <- <-]|Hin].
  - by rewrite decide_True.
  - rewrite decide_False; [by apply IH|]. intros ->. apply Hk.
    by apply (list_elem_of_fmap_2 fst _ (k', v)).
Qed.

Lemma dict_set_fresh d k v : k ∉ d.*1 -> dict_set d k v = d ++ [(k, v)].
Proof.
  induction d as [|[k' v'] d IH]; simpl; [done|]. rewrite not_elem_of_cons. intros [Hk Hd].
  by rewrite decide_False, IH.
Qed.

Lemma dict_has_false d k : dict_has d k = false <-> k ∉ d.*1.
Proof. unfold dict_has. rewrite <- dict_get_none. by destruct (dict_get d k). Qed.

(** [d.pop(k, None)]. *)
Definition dict_pop (d : list (K * V)) (k : K) : list (K * V) := filter (fun p => p.1 <> k) d.

Lemma dict_get_nil k : dict_get [] k = None.
Proof. done. Qed.

Lemma dict_get_set d k v j :
  dict_get (dict_set d k v) j = if decide (j = k) then Some v else dict_get d j.
Proof.
  induction d as [|[k' v'] d IH]; cbn [dict_set dict_get].
  - by case_decide.
  - destruct (decide (k = k')) as [<-|]; cbn [dict_get].
    + by destruct (decide (j = k)).
    + rewrite IH. destruct (decide (j = k')) as [->|]; [|done]. by rewrite decide_False.
Qed.
Lemma dict_get_set_eq d k v : dict_get (dict_set d k v) k = Some v.
Proof. by rewrite dict_get_set, decide_True. Qed.
Lemma dict_get_set_ne d k v j : j <> k -> dict_get (dict_set d k v) j = dict_get d j.
Proof. intros. by rewrite dict_get_set, decide_False. Qed.

Lemma dict_get_pop d k j :
  dict_get (dict_pop d k) j = if decide (j = k) then None else dict_get d j.
Proof.
  unfold dict_pop. induction d as [|[k' v'] d IH]; cbn [dict_get]; [by case_decide|].
  rewrite filter_cons. cbn [fst]. destruct (decide (k' <> k)) as [Hne|Heq]; cbn [dict_get].
  - destruct (decide (j = k')) as [->|]; [|done]. by rewrite decide_False.
  - apply dec_stable in Heq as ->. rewrite IH. by destruct (decide (j = k)).
Qed.
Lemma dict_get_pop_ne d k j : j <> k -> dict_get (dict_pop d k) j = dict_get d j.
Proof. intros. by rewrite dict_get_pop, decide_False. Qed.

Lemma dict_keys_set d k v :
  (dict_set d k v).*1 = match dict_get d k with Some _ => d.*1 | None => d.*1 ++ [k] end.
Proof.
  induction d as [|[k' v'] d IH]; cbn; [done|]. destruct (decide (k = k')) as [<-|]; cbn; [done|].
  rewrite IH. by destruct (dict_get d k).
Qed.

Lemma dict_set_NoDup d k v : NoDup d.*1 -> NoDup (dict_set d k v).*1.
Proof.
  intros Hd. rewrite dict_keys_set. destruct (dict_get d k) eqn:E; [done|].
  apply dict_get_none in E. apply NoDup_app. split_and!; [done| |apply NoDup_singleton].
  intros x Hx ->%list_elem_of_singleton. done.
Qed.

Lemma dict_pop_NoDup d k : NoDup d.*1 -> NoDup (dict_pop d k).*1.
Proof.
  unfold dict_pop. induction d as [|[k' v'] d IH]; [done|]. cbn [fmap list_fmap].
  intros [Hk Hd]%NoDup_cons. rewrite filter_cons. destruct (decide _); [|by apply IH].
  apply NoDup_cons. split; [|by apply IH]. cbn [fst] in *.
  intros ([x y] & -> & [_ Hx]%list_elem_of_filter)%list_elem_of_fmap. apply Hk.
  by apply (list_elem_of_fmap_2 fst _ (x, y)).
Qed.

Lemma dict_pop_absent d k : dict_get d k = None -> dict_pop d k = d.
Proof.
  intros H%dict_get_none. unfold dict_pop. induction d as [|[k' v'] d IH]; [done|].
  cbn in H. apply not_elem_of_cons in H as [Hk Hd]. rewrite filter_cons_True; [by rewrite IH|].
  cbn. congruence.
Qed.

Lemma dict_pop_twice d k : dict_pop (dict_pop d k) k = dict_pop d k.
Proof. apply dict_pop_absent. by rewrite dict_get_pop, decide_True. Qed.

Lemma dict_set_same d k v : dict_get d k = Some v -> dict_set d k v = d.
Proof.
  induction d as [|[k' v'] d IH]; cbn; [done|]. destruct (decide (k = k')) as [->|].
  - by intros [= ->].
  - intros Hg. by rewrite IH.
Qed.

Lemma dict_set_length d k v :
  length (dict_set d k v) = match dict_get d k with Some _ => length d | None => S (length d) end.
Proof.
  rewrite <- (length_fmap fst), dict_keys_set.
  destruct (dict_get d k); rewrite ?length_app, length_fmap; cbn; lia.
Qed.

Lemma dict_pop_length d k :
  NoDup d.*1 -> length (dict_pop d k) = (length d - match dict_get d k with Some _ => 1 | None => 0 end)%nat.
Proof.
  induction d as [|[k' v'] d IH]; cbn [fmap list_fmap dict_get]; intros Hd; [done|].
  apply NoDup_cons in Hd as [Hk Hd]. unfold dict_pop. rewrite filter_cons. cbn [fst].
  fold (dict_pop d k). destruct (decide (k' <> k)) as [Hne|Heq].
  - rewrite decide_False by congruence. cbn. rewrite IH by done.
    destruct (dict_get d k) eqn:E; [|lia]. apply dict_get_elem in E. destruct d; [|cbn; lia].
    by apply not_elem_of_nil in E.
  - apply dec_stable in Heq as ->. rewrite decide_True by done.
    rewrite dict_pop_absent by by apply dict_get_none. cbn. lia.
Qed.

(** A key that is set again keeps its place: the values change there only. *)
Lemma dict_set_elem d k v j w :
  NoDup d.*1 -> (j, w) ∈ dict_set d k v <-> (j = k /\ w = v) \/ (j <> k /\ (j, w) ∈ d).
Proof.
  intros Hd. pose proof (dict_set_NoDup d k v Hd) as Hd'. split.
  - intros H%(dict_elem_get _ _ _ Hd'). rewrite dict_get_set in H. case_decide.
    + left. naive_solver.
    + right. split; [done|]. by apply dict_get_elem.
  - intros [[-> ->]|[Hne H]]; apply dict_get_elem.
    + apply dict_get_set_eq.
    + rewrite dict_get_set_ne by done. by apply dict_elem_get.
Qed.
End dict.

