(* ===== verification/Serialization.v ===== *)
(** Explicit payload serializers: [movie/remoting/serialization.py].

    [SerializerDescriptor] and [SerializerRoute] with their [__post_init__]
    validation, the [SerializerRegistryBuilder] and the immutable
    [SerializerRegistry], and the directional negotiation
    [negotiate_serializers].  Unicode normalisation is an interface
    ([Unicode]); the serializers themselves are application code, passed in as
    functions.  The dynamic [isinstance] tests of the source are the types of
    the model; the per-registration lock is not modelled. *)

From stdpp Require Import base list numbers gmap strings sorting.
From S2P Require Import Prelude Bytes PyStr.

(** [unicodedata.is_normalized("NFC", _)]: a property of Unicode's tables, which
    no definition below depends on. *)
Class Unicode := is_nfc : pystr -> bool.


Definition MAX_U16 : Z := 2 ^ 16 - 1.
Definition MAX_U32 : Z := 2 ^ 32 - 1.
Definition MAX_MANIFEST_BYTES : Z := 1024.

(** [len(set(xs)) == len(xs)]. *)
Definition all_distinct {A} `{Countable A} (xs : list A) : bool :=
  Z.of_nat (size (list_to_set xs : gset A)) =? len xs.

Lemma size_list_to_set_le {A} `{Countable A} (xs : list A) :
  (size (list_to_set xs : gset A) <= length xs)%nat.
Proof.
  induction xs as [|x xs IH]; cbn [list_to_set length].
  - by rewrite size_empty.
  - pose proof (size_union_alt {[x]} (list_to_set xs : gset A)) as E.
    rewrite E, size_singleton.
    pose proof (subseteq_size (list_to_set xs ∖ {[x]} : gset A) (list_to_set xs)
                  ltac:(set_solver)). lia.
Qed.

Lemma all_distinct_spec {A} `{Countable A} (xs : list A) :
  all_distinct xs = true <-> NoDup xs.
Proof.
  unfold all_distinct, len. rewrite Z.eqb_eq. split.
  - intros E. apply Nat2Z.inj in E. induction xs as [|x xs IH]; [constructor|].
    cbn [list_to_set length] in E.
    pose proof (size_list_to_set_le xs) as Hle.
    destruct (decide (x ∈ xs)) as [Hin|Hin].
    + exfalso. assert ({[x]} ∪ list_to_set xs = (list_to_set xs : gset A)) as Es
        by set_solver. rewrite Es in E. lia.
    + constructor; [done|]. apply IH.
      rewrite size_union, size_singleton in E by set_solver. lia.
  - intros Hd. f_equal. by apply size_list_to_set.
Qed.

Section values.
Context `{Unicode}.

Definition _encoded_text (value : pystr) (maximum : Z) (nonempty : bool) : result bytes :=
  raise_unless (is_nfc value) SerializerRegistryError ≫= fun _ =>
  match utf8_encode value with
  | Err _ => Err SerializerRegistryError
  | Ok encoded =>
      if nonempty && bool_decide (encoded = []) then Err SerializerRegistryError
      else if maximum <? len encoded then Err SerializerRegistryError
      else Ok encoded
  end.

Definition registry_uint (value maximum : Z) (nonzero : bool) : result unit :=
  let minimum := if nonzero then 1 else 0 in
  raise_unless ((minimum <=? value) && (value <=? maximum)) SerializerRegistryError.

(** [for m in manifests: _encoded_text(m, ..., MAX_MANIFEST_BYTES)]. *)
Definition check_manifests (ms : list pystr) : result unit :=
  raise_unless
    (forallb (fun m => match _encoded_text m MAX_MANIFEST_BYTES true with
                       | Ok _ => true | Err _ => false end) ms)
    SerializerRegistryError.

Record SerializerDescriptor := mkDescriptor {
  sd_serializer_id : Z;
  sd_name : pystr;
  sd_protocol_major : Z;
  sd_protocol_minor : Z;
  sd_readable_manifests : gset pystr;
  sd_writable_manifests : gset pystr;
}.

(** [SerializerDescriptor.__post_init__]. *)
Definition SerializerDescriptor_new (serializer_id : Z) (name : pystr)
    (protocol_major protocol_minor : Z) (readable writable : gset pystr) :
    result SerializerDescriptor :=
  registry_uint serializer_id MAX_U32 true ≫= fun _ =>
  _encoded_text name MAX_U16 true ≫= fun _ =>
  registry_uint protocol_major MAX_U16 false ≫= fun _ =>
  registry_uint protocol_minor MAX_U16 false ≫= fun _ =>
  raise_unless ((Z.of_nat (size readable) <=? MAX_U16)
                && (Z.of_nat (size writable) <=? MAX_U16)) SerializerRegistryError ≫= fun _ =>
  check_manifests (elements (readable ∪ writable)) ≫= fun _ =>
  Ok (mkDescriptor serializer_id name protocol_major protocol_minor readable writable).

Record SerializerRoute := mkRoute {
  sr_origin_incarnation_uid : Z;
  sr_serializer_id : Z;
  sr_manifests : list pystr;
}.

(** [SerializerRoute.__post_init__]: the manifests are stored sorted. *)
Definition SerializerRoute_new (origin serializer_id : Z) (manifests : list pystr) :
    result SerializerRoute :=
  raise_unless (negb (origin =? 0)) SerializerRegistryError ≫= fun _ =>
  registry_uint serializer_id MAX_U32 true ≫= fun _ =>
  raise_unless (len manifests <=? MAX_U16) SerializerRegistryError ≫= fun _ =>
  check_manifests manifests ≫= fun _ =>
  raise_unless (all_distinct manifests) SerializerRegistryError ≫= fun _ =>
  let canonical := sorted_utf8 manifests in
  raise_unless (negb (bool_decide (canonical = []))) SerializerRegistryError ≫= fun _ =>
  Ok (mkRoute origin serializer_id canonical).

Record NegotiatedSerializer := mkNegotiated {
  ns_serializer_id : Z;
  ns_protocol_minor : Z;
}.

Record SerializerNegotiation := mkNegotiation {
  sn_routes : list SerializerRoute;
  sn_serializers : list NegotiatedSerializer;
}.

Fixpoint find_minor (serializers : list NegotiatedSerializer) (serializer_id : Z) :
    result Z :=
  match serializers with
  | [] => Err UnknownSerializerError
  | s :: rest =>
      if ns_serializer_id s =? serializer_id then Ok (ns_protocol_minor s)
      else find_minor rest serializer_id
  end.

Definition protocol_minor_for (n : SerializerNegotiation) (serializer_id : Z) : result Z :=
  find_minor (sn_serializers n) serializer_id.

#[global] Instance SerializerDescriptor_eq_dec : EqDecision SerializerDescriptor.
Proof. solve_decision. Defined.
#[global] Instance SerializerRoute_eq_dec : EqDecision SerializerRoute.
Proof. solve_decision. Defined.
#[global] Instance NegotiatedSerializer_eq_dec : EqDecision NegotiatedSerializer.
Proof. solve_decision. Defined.

(** * Canonical order of routes: the sort key
      [(origin.bytes, serializer_id, tuple of encoded manifests)] *)

Fixpoint manifests_leb (xs ys : list pystr) : bool :=
  match xs, ys with
  | [], _ => true
  | _ :: _, [] => false
  | x :: xs', y :: ys' =>
      if bool_decide (utf8_bytes x = utf8_bytes y) then manifests_leb xs' ys'
      else bytes_leb (utf8_bytes x) (utf8_bytes y)
  end.

Definition route_leb (r s : SerializerRoute) : bool :=
  let ro := be_pack 16 (sr_origin_incarnation_uid r) in
  let so := be_pack 16 (sr_origin_incarnation_uid s) in
  if bool_decide (ro = so) then
    if sr_serializer_id r =? sr_serializer_id s then
      manifests_leb (sr_manifests r) (sr_manifests s)
    else sr_serializer_id r <? sr_serializer_id s
  else bytes_leb ro so.

Definition route_le (r s : SerializerRoute) : Prop := route_leb r s = true.

#[global] Instance route_le_dec : RelDecision route_le.
Proof. intros r s. unfold route_le. apply _. Defined.

Definition sorted_routes (rs : list SerializerRoute) : list SerializerRoute :=
  merge_sort route_le rs.

(** * Negotiation *)

(** [_descriptor_maps]: index one peer's descriptors by ID and by name. *)
Fixpoint _descriptor_maps (descriptors : list SerializerDescriptor)
    (by_id : gmap Z SerializerDescriptor) (by_name : gmap pystr Z) :
    result (gmap Z SerializerDescriptor * gmap pystr Z) :=
  match descriptors with
  | [] => Ok (by_id, by_name)
  | d :: rest =>
      if bool_decide (is_Some (by_id !! sd_serializer_id d)) then Err SerializerNegotiationError
      else if bool_decide (is_Some (by_name !! sd_name d)) then Err SerializerNegotiationError
      else _descriptor_maps rest (<[sd_serializer_id d := d]> by_id)
             (<[sd_name d := sd_serializer_id d]> by_name)
  end.

(** [if sendable: routes.append(SerializerRoute(origin, id, tuple(sendable)))]. *)
Definition append_route (routes : list SerializerRoute) (origin serializer_id : Z)
    (sendable : gset pystr) : result (list SerializerRoute) :=
  if bool_decide (sendable = ∅) then Ok routes
  else SerializerRoute_new origin serializer_id (elements sendable) ≫= fun r =>
       Ok (routes ++ [r]).

Fixpoint negotiate_ids (first_uid second_uid : Z)
    (first_by_id second_by_id : gmap Z SerializerDescriptor) (ids : list Z)
    (routes : list SerializerRoute) (negotiated : list NegotiatedSerializer) :
    result (list SerializerRoute * list NegotiatedSerializer) :=
  match ids with
  | [] => Ok (routes, negotiated)
  | i :: rest =>
      match first_by_id !! i, second_by_id !! i with
      | Some f, Some s =>
          if negb (bool_decide (sd_name f = sd_name s)) then Err SerializerNegotiationError
          else if negb (sd_protocol_major f =? sd_protocol_major s) then
            Err SerializerNegotiationError
          else
            let n := mkNegotiated i (Z.min (sd_protocol_minor f) (sd_protocol_minor s)) in
            append_route routes first_uid i
              (sd_writable_manifests f ∩ sd_readable_manifests s) ≫= fun routes1 =>
            append_route routes1 second_uid i
              (sd_writable_manifests s ∩ sd_readable_manifests f) ≫= fun routes2 =>
            negotiate_ids first_uid second_uid first_by_id second_by_id rest
              routes2 (negotiated ++ [n])
      | _, _ => Err KeyError
      end
  end.

Definition negotiate_serializers
    (first_uid : Z) (first : list SerializerDescriptor)
    (second_uid : Z) (second : list SerializerDescriptor) : result SerializerNegotiation :=
  raise_unless (negb (first_uid =? 0)) SerializerNegotiationError ≫= fun _ =>
  raise_unless (negb (second_uid =? 0)) SerializerNegotiationError ≫= fun _ =>
  raise_unless (negb (first_uid =? second_uid)) SerializerNegotiationError ≫= fun _ =>
  _descriptor_maps first ∅ ∅ ≫= fun '(first_by_id, first_by_name) =>
  _descriptor_maps second ∅ ∅ ≫= fun '(second_by_id, second_by_name) =>
  raise_unless
    (forallb (fun n => bool_decide (first_by_name !! n = second_by_name !! n))
       (elements (dom first_by_name ∩ dom second_by_name)))
    SerializerNegotiationError ≫= fun _ =>
  negotiate_ids first_uid second_uid first_by_id second_by_id
    (merge_sort Z.le (elements (dom first_by_id ∩ dom second_by_id))) [] []
  ≫= fun '(routes, negotiated) =>
  Ok (mkNegotiation (sorted_routes routes) negotiated).

Definition negotiate_serializer_routes
    (first_uid : Z) (first : list SerializerDescriptor)
    (second_uid : Z) (second : list SerializerDescriptor) : result (list SerializerRoute) :=
  negotiate_serializers first_uid first second_uid second ≫= fun n => Ok (sn_routes n).

End values.
