(* ===== verification/Wire.v ===== *)
(** The remoting v1 wire codec: [movie/remoting/wire.py].

    Enumerations are inductive types with their numeric codes, the frame
    dataclasses are records, [_Writer] and [_Reader] methods are state-and-error
    computations ([SE bytes]): a writer's state is the [bytearray] it extends, a
    reader's state is the unread suffix of its [memoryview].  Every function of
    the source has a definition of the same name; [isinstance] tests are the
    types of the model. *)

From stdpp Require Import base list numbers gmap strings sorting.
From S2P Require Import Prelude Bytes PyStr Serialization.

Definition MAGIC : bytes := lit "MOV1".
Definition PROTOCOL_MAJOR : Z := 1.
Definition PROTOCOL_MINOR : Z := 0.
Definition HEADER_VERSION : Z := 1.
Definition BOOTSTRAP_MAX_FRAME_BYTES : Z := 2 ^ 20.
Definition PREAMBLE_SIZE : Z := 23.
Definition COMMON_HEADER_SIZE : Z := 16.
Definition MINIMUM_GOAWAY_FRAME_BYTES : Z := COMMON_HEADER_SIZE + 4.
Definition CONTROL_LANE_ID : Z := 0xFFFF.
Definition MAX_U8 : Z := 2 ^ 8 - 1.
Definition MAX_U64 : Z := 2 ^ 64 - 1.
Definition _HEADER_AFTER_LENGTH_SIZE : Z := COMMON_HEADER_SIZE - 4.
Definition _USER_MESSAGE_FIXED_BODY_SIZE : Z := 84.

(** * Enumerations *)

Inductive StreamKind := CONTROL | DELIVERY_LANE | MULTIPLEXED.

Definition stream_kind_code (k : StreamKind) : Z :=
  match k with CONTROL => 0 | DELIVERY_LANE => 1 | MULTIPLEXED => 2 end.

Definition stream_kind_of (v : Z) : option StreamKind :=
  if v =? 0 then Some CONTROL else if v =? 1 then Some DELIVERY_LANE
  else if v =? 2 then Some MULTIPLEXED else None.

Inductive AssociationRole := INITIATOR | RESPONDER.

Definition role_code (r : AssociationRole) : Z :=
  match r with INITIATOR => 0 | RESPONDER => 1 end.

Definition role_of (v : Z) : option AssociationRole :=
  if v =? 0 then Some INITIATOR else if v =? 1 then Some RESPONDER else None.

Inductive FrameType :=
  | HELLO | HELLO_ACCEPT | GOAWAY | HELLO_REJECT
  | RESOLVE_REQUEST | RESOLVE_RESPONSE | RESOLVE_REJECTED
  | USER_MESSAGE | RECIPIENT_UNAVAILABLE | DESERIALIZATION_REJECTED.

Definition frame_type_code (t : FrameType) : Z :=
  match t with
  | HELLO => 0x01 | HELLO_ACCEPT => 0x02 | GOAWAY => 0x03 | HELLO_REJECT => 0x04
  | RESOLVE_REQUEST => 0x10 | RESOLVE_RESPONSE => 0x11 | RESOLVE_REJECTED => 0x12
  | USER_MESSAGE => 0x20 | RECIPIENT_UNAVAILABLE => 0x30
  | DESERIALIZATION_REJECTED => 0x31
  end.

Definition frame_types : list FrameType :=
  [HELLO; HELLO_ACCEPT; GOAWAY; HELLO_REJECT; RESOLVE_REQUEST; RESOLVE_RESPONSE;
   RESOLVE_REJECTED; USER_MESSAGE; RECIPIENT_UNAVAILABLE; DESERIALIZATION_REJECTED].

(** The enum constructor call [FrameType(value)]. *)
Definition frame_type_of (v : Z) : option FrameType :=
  List.find (fun t => frame_type_code t =? v) frame_types.

Inductive ReasonCode :=
  | NORMAL_SHUTDOWN | INCOMPATIBLE_VERSION | SYSTEM_NAME_MISMATCH
  | DUPLICATE_ASSOCIATION | UNSUPPORTED_FRAME | PROTOCOL_VIOLATION
  | FLOW_CONTROL_VIOLATION | ACTOR_NOT_FOUND | ACTOR_STOPPING | MAILBOX_FULL
  | INVALID_PATH | UNKNOWN_SERIALIZER | UNSUPPORTED_MANIFEST | MALFORMED_PAYLOAD.

Definition reason_code (r : ReasonCode) : Z :=
  match r with
  | NORMAL_SHUTDOWN => 0x0000 | INCOMPATIBLE_VERSION => 0x0001
  | SYSTEM_NAME_MISMATCH => 0x0002 | DUPLICATE_ASSOCIATION => 0x0003
  | UNSUPPORTED_FRAME => 0x0004 | PROTOCOL_VIOLATION => 0x0005
  | FLOW_CONTROL_VIOLATION => 0x0006 | ACTOR_NOT_FOUND => 0x0010
  | ACTOR_STOPPING => 0x0011 | MAILBOX_FULL => 0x0012 | INVALID_PATH => 0x0013
  | UNKNOWN_SERIALIZER => 0x0020 | UNSUPPORTED_MANIFEST => 0x0021
  | MALFORMED_PAYLOAD => 0x0022
  end.

Definition reason_codes : list ReasonCode :=
  [NORMAL_SHUTDOWN; INCOMPATIBLE_VERSION; SYSTEM_NAME_MISMATCH; DUPLICATE_ASSOCIATION;
   UNSUPPORTED_FRAME; PROTOCOL_VIOLATION; FLOW_CONTROL_VIOLATION; ACTOR_NOT_FOUND;
   ACTOR_STOPPING; MAILBOX_FULL; INVALID_PATH; UNKNOWN_SERIALIZER;
   UNSUPPORTED_MANIFEST; MALFORMED_PAYLOAD].

Definition reason_of (v : Z) : option ReasonCode :=
  List.find (fun r => reason_code r =? v) reason_codes.

#[global] Instance StreamKind_eq_dec : EqDecision StreamKind.
Proof. solve_decision. Defined.
#[global] Instance AssociationRole_eq_dec : EqDecision AssociationRole.
Proof. solve_decision. Defined.
#[global] Instance FrameType_eq_dec : EqDecision FrameType.
Proof. solve_decision. Defined.
#[global] Instance ReasonCode_eq_dec : EqDecision ReasonCode.
Proof. solve_decision. Defined.

(** * Frames *)

(** A UUID is its 128-bit integer. *)
Abbreviation UUID := Z (only parsing).

Record StreamPreamble := mkPreamble {
  pr_stream_kind : StreamKind;
  pr_association_uid : UUID;
  pr_lane_id : Z;
}.

Record FrameHeader := mkHeader {
  fh_frame_length : Z;
  fh_frame_type : FrameType;
  fh_flags : Z;
  fh_header_version : Z;
  fh_correlation_id : Z;
}.

Definition total_length (h : FrameHeader) : Z := fh_frame_length h + 4.
Definition body_length (h : FrameHeader) : Z := fh_frame_length h - _HEADER_AFTER_LENGTH_SIZE.

Record Limits := mkLimits {
  maximum_frame_bytes : Z;
  lane_count : Z;
  outbound_message_limit : Z;
  outbound_byte_limit : Z;
  inbound_message_limit : Z;
  inbound_byte_limit : Z;
}.

Record Hello := mkHello {
  hl_protocol_major : Z;
  hl_protocol_minor : Z;
  hl_role : AssociationRole;
  hl_system_name : pystr;
  hl_system_incarnation_uid : UUID;
  hl_association_uid : UUID;
  hl_endpoint_host : pystr;
  hl_endpoint_port : Z;
  hl_limits : Limits;
  hl_serializers : list SerializerDescriptor;
  hl_capabilities : list pystr;
  hl_correlation_id : Z;
}.

Record HelloAccept := mkHelloAccept {
  ha_association_uid : UUID;
  ha_protocol_minor : Z;
  ha_limits : Limits;
  ha_serializer_routes : list SerializerRoute;
  ha_capabilities : list pystr;
  ha_correlation_id : Z;
}.

Record ReasonFrame := mkReasonFrame {
  rf_reason : ReasonCode;
  rf_detail : pystr;
  rf_correlation_id : Z;
}.

Record ResolveRequest := mkResolveRequest {
  rq_correlation_id : Z;
  rq_system_name : pystr;
  rq_actor_path : pystr;
}.

Record ResolveResponse := mkResolveResponse {
  rp_correlation_id : Z;
  rp_system_incarnation_uid : UUID;
  rp_actor_uid : UUID;
  rp_actor_path : pystr;
}.

Record UserMessage := mkUserMessage {
  um_association_uid : UUID;
  um_lane_id : Z;
  um_lane_sequence : Z;
  um_sender_incarnation_uid : UUID;
  um_recipient_incarnation_uid : UUID;
  um_recipient_actor_uid : UUID;
  um_serializer_id : Z;
  um_manifest : pystr;
  um_payload : bytes;
  um_correlation_id : Z;
}.

Record Advisory := mkAdvisory {
  av_association_uid : UUID;
  av_lane_id : Z;
  av_lane_sequence : Z;
  av_recipient_actor_uid : UUID;
  av_reason : ReasonCode;
  av_detail : pystr;
  av_correlation_id : Z;
}.

(** [GoAway], [HelloReject] and [ResolveRejected] have the same fields, as have
    the two advisory frames; the constructor tells them apart. *)
Inductive Frame :=
  | FHello (f : Hello)
  | FHelloAccept (f : HelloAccept)
  | FGoAway (f : ReasonFrame)
  | FHelloReject (f : ReasonFrame)
  | FResolveRequest (f : ResolveRequest)
  | FResolveResponse (f : ResolveResponse)
  | FResolveRejected (f : ReasonFrame)
  | FUserMessage (f : UserMessage)
  | FRecipientUnavailable (f : Advisory)
  | FDeserializationRejected (f : Advisory).

(** [_FRAME_TYPES[type(frame)]]. *)
Definition frame_type (f : Frame) : FrameType :=
  match f with
  | FHello _ => HELLO
  | FHelloAccept _ => HELLO_ACCEPT
  | FGoAway _ => GOAWAY
  | FHelloReject _ => HELLO_REJECT
  | FResolveRequest _ => RESOLVE_REQUEST
  | FResolveResponse _ => RESOLVE_RESPONSE
  | FResolveRejected _ => RESOLVE_REJECTED
  | FUserMessage _ => USER_MESSAGE
  | FRecipientUnavailable _ => RECIPIENT_UNAVAILABLE
  | FDeserializationRejected _ => DESERIALIZATION_REJECTED
  end.

Definition correlation_id (f : Frame) : Z :=
  match f with
  | FHello h => hl_correlation_id h
  | FHelloAccept h => ha_correlation_id h
  | FGoAway r | FHelloReject r | FResolveRejected r => rf_correlation_id r
  | FResolveRequest r => rq_correlation_id r
  | FResolveResponse r => rp_correlation_id r
  | FUserMessage m => um_correlation_id m
  | FRecipientUnavailable a | FDeserializationRejected a => av_correlation_id a
  end.

Definition is_control_type (t : FrameType) : bool := negb (bool_decide (t = USER_MESSAGE)).

(** [_ZERO_CORRELATION_TYPES]. *)
Definition zero_correlation (t : FrameType) : bool :=
  match t with
  | HELLO | HELLO_ACCEPT | GOAWAY | HELLO_REJECT | USER_MESSAGE
  | RECIPIENT_UNAVAILABLE | DESERIALIZATION_REJECTED => true
  | RESOLVE_REQUEST | RESOLVE_RESPONSE | RESOLVE_REJECTED => false
  end.

(** [_BOOTSTRAP_FRAME_TYPES]. *)
Definition is_bootstrap (t : FrameType) : bool :=
  match t with HELLO | HELLO_ACCEPT | HELLO_REJECT => true | _ => false end.

(** [_FRAME_REASON_CODES.get(frame_type)]. *)
Definition frame_reason_codes (t : FrameType) : option (list ReasonCode) :=
  match t with
  | RESOLVE_REJECTED =>
      Some [SYSTEM_NAME_MISMATCH; ACTOR_NOT_FOUND; ACTOR_STOPPING; INVALID_PATH]
  | RECIPIENT_UNAVAILABLE => Some [ACTOR_NOT_FOUND; ACTOR_STOPPING; MAILBOX_FULL]
  | DESERIALIZATION_REJECTED =>
      Some [UNKNOWN_SERIALIZER; UNSUPPORTED_MANIFEST; MALFORMED_PAYLOAD]
  | _ => None
  end.

(** * Field validation *)

Definition _uint (value maximum : Z) (e : exn) (minimum : Z) : result Z :=
  if (minimum <=? value) && (value <=? maximum) then Ok value else Err e.

Definition _uuid (value : UUID) (e : exn) : result UUID :=
  if value =? 0 then Err e else Ok value.

Section codec.
Context `{Unicode}.
Open Scope se_scope.

Definition _text_bytes (value : pystr) (maximum : Z) (e : exn) (nonempty : bool) :
    result bytes :=
  if negb (is_nfc value) then Err e
  else match utf8_encode value with
       | Err _ => Err e
       | Ok encoded =>
           if nonempty && bool_decide (encoded = []) then Err e
           else if maximum <? len encoded then Err e
           else Ok encoded
       end.

Definition _system_name (value : pystr) (e : exn) : result bytes :=
  match _text_bytes value 255 e true with
  | Err e' => Err e'
  | Ok encoded => if forallb is_unreserved value then Ok encoded else Err e
  end.

Definition path_segment_ok (segment : pystr) : bool :=
  let segment_bytes := if isascii segment then segment else [] in
  (1 <=? len segment_bytes) && (len segment_bytes <=? 255) && forallb is_unreserved segment.

Definition _actor_path (value : pystr) (e : exn) : result bytes :=
  match _text_bytes value MAX_U16 e true with
  | Err e' => Err e'
  | Ok encoded =>
      if negb (starts_with (lit "/") value) || starts_with (lit "//") value then Err e
      else
        let segments := split_on 47 (drop 1 value) in
        if bool_decide (segments = []) || existsb (fun s => bool_decide (s = [])) segments
        then Err e
        else if forallb path_segment_ok segments then Ok encoded else Err e
  end.

(** * [_Writer] *)

Definition w_raw (value : bytes) : SE bytes unit := fun data => Ok (tt, data ++ value).

Definition w_u8 (value : Z) : SE bytes unit :=
  v <- se_lift (_uint value MAX_U8 ProtocolValidationError 0) ;; w_raw (be_pack 1 v).
Definition w_u16 (value : Z) : SE bytes unit :=
  v <- se_lift (_uint value MAX_U16 ProtocolValidationError 0) ;; w_raw (be_pack 2 v).
Definition w_u32 (value : Z) : SE bytes unit :=
  v <- se_lift (_uint value MAX_U32 ProtocolValidationError 0) ;; w_raw (be_pack 4 v).
Definition w_u64 (value : Z) : SE bytes unit :=
  v <- se_lift (_uint value MAX_U64 ProtocolValidationError 0) ;; w_raw (be_pack 8 v).
Definition w_uuid (value : UUID) : SE bytes unit :=
  v <- se_lift (_uuid value ProtocolValidationError) ;; w_raw (be_pack 16 v).
Definition w_string16 (value : pystr) (maximum : Z) (nonempty : bool) : SE bytes unit :=
  encoded <- se_lift (_text_bytes value (Z.min maximum MAX_U16) ProtocolValidationError nonempty) ;;
  w_u16 (len encoded) ;;; w_raw encoded.

(** * [_Reader] *)

Definition r_take (length : Z) : SE bytes bytes := fun data =>
  if len data <? length then Err MalformedFrameError
  else Ok (take (Z.to_nat length) data, drop (Z.to_nat length) data).

Definition r_u8 : SE bytes Z := b <- r_take 1 ;; se_ret (be_unpack b).
Definition r_u16 : SE bytes Z := b <- r_take 2 ;; se_ret (be_unpack b).
Definition r_u32 : SE bytes Z := b <- r_take 4 ;; se_ret (be_unpack b).
Definition r_u64 : SE bytes Z := b <- r_take 8 ;; se_ret (be_unpack b).
Definition r_uuid : SE bytes UUID :=
  b <- r_take 16 ;; se_lift (_uuid (be_unpack b) MalformedFrameError).
Definition r_raw (length : Z) : SE bytes bytes := r_take length.

(** [encoded.decode("utf-8", errors="strict")] followed by [_text_bytes]. *)
Definition decode_text (encoded : bytes) (maximum : Z) (nonempty : bool) : result pystr :=
  match utf8_decode encoded with
  | None => Err MalformedFrameError
  | Some value =>
      match _text_bytes value maximum MalformedFrameError nonempty with
      | Ok _ => Ok value
      | Err e => Err e
      end
  end.

Definition r_string16 (maximum : Z) (nonempty : bool) : SE bytes pystr :=
  length <- r_u16 ;;
  se_check (length <=? maximum) MalformedFrameError ;;;
  encoded <- r_raw length ;;
  se_lift (decode_text encoded maximum nonempty).

Definition r_finish : SE bytes unit := fun data =>
  if bool_decide (data = []) then Ok (tt, data) else Err MalformedFrameError.

(** * Stream preambles *)

Definition _validate_preamble (preamble : StreamPreamble) (e : exn)
    (lane_count : option Z) (expected_association_uid : option UUID)
    (expected_kind : option StreamKind) : result unit :=
  let kind := pr_stream_kind preamble in
  match _uuid (pr_association_uid preamble) e with
  | Err e' => Err e'
  | Ok association_uid =>
  match _uint (pr_lane_id preamble) MAX_U16 e 0 with
  | Err e' => Err e'
  | Ok lane_id =>
  if bool_decide (kind = CONTROL) && negb (lane_id =? CONTROL_LANE_ID) then Err e
  else if bool_decide (kind = MULTIPLEXED) && negb (lane_id =? CONTROL_LANE_ID) then Err e
  else if bool_decide (kind = DELIVERY_LANE) && (lane_id =? CONTROL_LANE_ID) then Err e
  else
    match lane_count with
    | Some n =>
        match _uint n MAX_U16 e 0 with
        | Err e' => Err e'
        | Ok n =>
            raise_unless (negb (bool_decide (kind = DELIVERY_LANE) && (n <=? lane_id))) e
        end
    | None => Ok tt
    end ≫= fun _ =>
    raise_unless (match expected_association_uid with
                  | Some uid => association_uid =? uid | None => true end) e ≫= fun _ =>
    raise_unless (match expected_kind with
                  | Some k => bool_decide (kind = k) | None => true end) e
  end
  end.

Definition encode_preamble (preamble : StreamPreamble) (lane_count : option Z) : result bytes :=
  _validate_preamble preamble ProtocolValidationError lane_count None None ≫= fun _ =>
  Ok (MAGIC ++ [stream_kind_code (pr_stream_kind preamble)]
      ++ be_pack 16 (pr_association_uid preamble) ++ be_pack 2 (pr_lane_id preamble)).

(** [data[i:j]]. *)
Definition slice (i j : nat) (data : bytes) : bytes := take (j - i) (drop i data).

Definition decode_preamble (data : bytes) (lane_count : option Z)
    (expected_association_uid : option UUID) (expected_kind : option StreamKind) :
    result StreamPreamble :=
  if negb (len data =? PREAMBLE_SIZE) then Err InvalidPreambleError
  else if negb (bool_decide (slice 0 4 data = MAGIC)) then Err InvalidPreambleError
  else match data !! 4%nat ≫= stream_kind_of with
       | None => Err InvalidPreambleError
       | Some kind =>
           let preamble := mkPreamble kind (be_unpack (slice 5 21 data))
                             (be_unpack (slice 21 23 data)) in
           _validate_preamble preamble InvalidPreambleError lane_count
             expected_association_uid expected_kind ≫= fun _ => Ok preamble
       end.

(** * The common header *)

Definition _effective_limit (t : FrameType) (maximum_frame_bytes : Z) : result Z :=
  match _uint maximum_frame_bytes MAX_U32 ProtocolValidationError COMMON_HEADER_SIZE with
  | Err e => Err e
  | Ok m => if is_bootstrap t then Ok (Z.min m BOOTSTRAP_MAX_FRAME_BYTES) else Ok m
  end.

Definition _validate_correlation (t : FrameType) (correlation_id : Z) (e : exn) : result unit :=
  match _uint correlation_id MAX_U64 e 0 with
  | Err e' => Err e'
  | Ok c =>
      if zero_correlation t && negb (c =? 0) then Err e
      else if negb (zero_correlation t) && (c =? 0) then Err e
      else Ok tt
  end.

(** [struct.pack(">IBBHQ", ...)]. *)
Definition pack_header (frame_length code flags version correlation_id : Z) : bytes :=
  be_pack 4 frame_length ++ be_pack 1 code ++ be_pack 1 flags ++ be_pack 2 version
  ++ be_pack 8 correlation_id.

Definition encode_common_header (t : FrameType) (body_length correlation_id : Z)
    (maximum_frame_bytes : Z) : result bytes :=
  _uint body_length (MAX_U32 - _HEADER_AFTER_LENGTH_SIZE) ProtocolValidationError 0 ≫= fun _ =>
  _validate_correlation t correlation_id ProtocolValidationError ≫= fun _ =>
  let frame_length := _HEADER_AFTER_LENGTH_SIZE + body_length in
  let total_length := frame_length + 4 in
  _effective_limit t maximum_frame_bytes ≫= fun limit =>
  raise_unless (total_length <=? limit) FrameTooLargeError ≫= fun _ =>
  Ok (pack_header frame_length (frame_type_code t) 0 HEADER_VERSION correlation_id).

Definition decode_common_header (data : bytes) (maximum_frame_bytes : Z) : result FrameHeader :=
  if len data <? COMMON_HEADER_SIZE then Err MalformedFrameError
  else
  let frame_length := be_unpack (slice 0 4 data) in
  let frame_type_value := be_unpack (slice 4 5 data) in
  let flags := be_unpack (slice 5 6 data) in
  let version := be_unpack (slice 6 8 data) in
  let correlation_id := be_unpack (slice 8 16 data) in
  if frame_length <? _HEADER_AFTER_LENGTH_SIZE then Err MalformedFrameError
  else
  let total_length := frame_length + 4 in
  _uint maximum_frame_bytes MAX_U32 ProtocolValidationError COMMON_HEADER_SIZE ≫= fun _ =>
  raise_unless (total_length <=? maximum_frame_bytes) FrameTooLargeError ≫= fun _ =>
  match frame_type_of frame_type_value with
  | None => Err UnsupportedFrameError
  | Some t =>
      _effective_limit t maximum_frame_bytes ≫= fun limit =>
      raise_unless (total_length <=? limit) FrameTooLargeError ≫= fun _ =>
      raise_unless (flags =? 0) UnsupportedFeatureError ≫= fun _ =>
      raise_unless (version =? HEADER_VERSION) UnsupportedHeaderVersionError ≫= fun _ =>
      _validate_correlation t correlation_id MalformedFrameError ≫= fun _ =>
      Ok (mkHeader frame_length t flags version correlation_id)
  end.

Definition _validate_stream (t : FrameType) (stream_kind : option StreamKind) : result unit :=
  match stream_kind with
  | None | Some MULTIPLEXED => Ok tt
  | Some k =>
      let expected := if is_control_type t then CONTROL else DELIVERY_LANE in
      raise_unless (bool_decide (k = expected)) WrongStreamError
  end.

(** * Body components *)

Definition w_manifest (m : pystr) : SE bytes unit := w_string16 m MAX_MANIFEST_BYTES true.
Definition r_manifest : SE bytes pystr := r_string16 MAX_MANIFEST_BYTES true.

Definition _write_descriptor (d : SerializerDescriptor) : SE bytes unit :=
  w_u32 (sd_serializer_id d) ;;;
  w_string16 (sd_name d) MAX_U16 true ;;;
  w_u16 (sd_protocol_major d) ;;;
  w_u16 (sd_protocol_minor d) ;;;
  let readable := sorted_utf8 (elements (sd_readable_manifests d)) in
  let writable := sorted_utf8 (elements (sd_writable_manifests d)) in
  w_u16 (len readable) ;;;
  se_iter w_manifest readable ;;;
  w_u16 (len writable) ;;;
  se_iter w_manifest writable.

(** [try: ... except SerializerRegistryError: raise MalformedFrameError]. *)
Definition registry_as_malformed {A} (r : result A) : result A :=
  match r with
  | Err SerializerRegistryError => Err MalformedFrameError
  | _ => r
  end.

Definition _read_descriptor : SE bytes SerializerDescriptor :=
  serializer_id <- r_u32 ;;
  name <- r_string16 MAX_U16 true ;;
  protocol_major <- r_u16 ;;
  protocol_minor <- r_u16 ;;
  readable_count <- r_u16 ;;
  readable <- se_replicate (Z.to_nat readable_count) r_manifest ;;
  writable_count <- r_u16 ;;
  writable <- se_replicate (Z.to_nat writable_count) r_manifest ;;
  se_check (all_distinct readable && all_distinct writable) MalformedFrameError ;;;
  se_lift (registry_as_malformed
             (SerializerDescriptor_new serializer_id name protocol_major protocol_minor
                (list_to_set readable) (list_to_set writable))).

Definition _write_limits (l : Limits) : SE bytes unit :=
  w_u32 (maximum_frame_bytes l) ;;;
  se_check (COMMON_HEADER_SIZE <=? maximum_frame_bytes l) ProtocolValidationError ;;;
  w_u16 (lane_count l) ;;;
  w_u32 (outbound_message_limit l) ;;;
  w_u64 (outbound_byte_limit l) ;;;
  w_u32 (inbound_message_limit l) ;;;
  w_u64 (inbound_byte_limit l).

Definition _read_limits : SE bytes Limits :=
  mx <- r_u32 ;;
  se_check (COMMON_HEADER_SIZE <=? mx) MalformedFrameError ;;;
  lanes <- r_u16 ;;
  om <- r_u32 ;;
  ob <- r_u64 ;;
  im <- r_u32 ;;
  ib <- r_u64 ;;
  se_ret (mkLimits mx lanes om ob im ib).

(** [for c in capabilities: _text_bytes(c, ..., nonempty=True)]. *)
Definition check_capabilities (capabilities : list pystr) : result unit :=
  raise_unless
    (forallb (fun c => match _text_bytes c MAX_U16 ProtocolValidationError true with
                       | Ok _ => true | Err _ => false end) capabilities)
    ProtocolValidationError.

Definition _write_capabilities (capabilities : list pystr) : SE bytes unit :=
  se_check (len capabilities <=? MAX_U16) ProtocolValidationError ;;;
  se_lift (check_capabilities capabilities) ;;;
  se_check (all_distinct capabilities) ProtocolValidationError ;;;
  w_u16 (len capabilities) ;;;
  se_iter (fun c => w_string16 c MAX_U16 true) capabilities.

Definition _read_capabilities : SE bytes (list pystr) :=
  count <- r_u16 ;;
  capabilities <- se_replicate (Z.to_nat count) (r_string16 MAX_U16 true) ;;
  se_check (all_distinct capabilities) MalformedFrameError ;;;
  se_ret capabilities.

(** The pairs [(route.origin_incarnation_uid, route.serializer_id)]. *)
Definition route_ids (routes : list SerializerRoute) : list (Z * Z) :=
  (fun r => (sr_origin_incarnation_uid r, sr_serializer_id r)) <$> routes.

Definition w_route (r : SerializerRoute) : SE bytes unit :=
  w_uuid (sr_origin_incarnation_uid r) ;;;
  w_u32 (sr_serializer_id r) ;;;
  w_u16 (len (sr_manifests r)) ;;;
  se_iter w_manifest (sr_manifests r).

Definition _write_routes (routes : list SerializerRoute) : SE bytes unit :=
  se_check (len routes <=? MAX_U16) ProtocolValidationError ;;;
  se_check (bool_decide (sorted_routes routes = routes)) ProtocolValidationError ;;;
  se_check (all_distinct (route_ids routes)) ProtocolValidationError ;;;
  w_u16 (len routes) ;;;
  se_iter w_route routes.

Definition r_route : SE bytes SerializerRoute :=
  origin_uid <- r_uuid ;;
  serializer_id <- r_u32 ;;
  count <- r_u16 ;;
  manifests <- se_replicate (Z.to_nat count) r_manifest ;;
  let canonical_manifests := sorted_utf8 (elements (list_to_set manifests : gset pystr)) in
  se_check (negb (bool_decide (manifests = []))
            && bool_decide (manifests = canonical_manifests)) MalformedFrameError ;;;
  se_lift (registry_as_malformed (SerializerRoute_new origin_uid serializer_id manifests)).

Definition _read_routes : SE bytes (list SerializerRoute) :=
  count <- r_u16 ;;
  result <- se_replicate (Z.to_nat count) r_route ;;
  se_check (bool_decide (result = sorted_routes result)) MalformedFrameError ;;;
  se_check (all_distinct (route_ids result)) MalformedFrameError ;;;
  se_ret result.

Definition _write_reason (reason : ReasonCode) (detail : pystr) : SE bytes unit :=
  w_u16 (reason_code reason) ;;; w_string16 detail MAX_U16 false.

Definition _read_reason : SE bytes (ReasonCode * pystr) :=
  value <- r_u16 ;;
  reason <- se_lift (match reason_of value with
                     | Some r => Ok r | None => Err MalformedFrameError end) ;;
  detail <- r_string16 MAX_U16 false ;;
  se_ret (reason, detail).

Definition _validate_frame_reason (t : FrameType) (reason : ReasonCode) (e : exn) :
    result unit :=
  match frame_reason_codes t with
  | Some allowed => raise_unless (bool_decide (reason ∈ allowed)) e
  | None => Ok tt
  end.

Definition _write_advisory (a : Advisory) : SE bytes unit :=
  w_uuid (av_association_uid a) ;;;
  w_u16 (av_lane_id a) ;;;
  se_check (negb (av_lane_id a =? CONTROL_LANE_ID)) ProtocolValidationError ;;;
  w_u64 (av_lane_sequence a) ;;;
  w_uuid (av_recipient_actor_uid a) ;;;
  _write_reason (av_reason a) (av_detail a).

(** The advisory fields, with the header's correlation ID. *)
Definition _read_advisory (correlation_id : Z) : SE bytes Advisory :=
  association_uid <- r_uuid ;;
  lane_id <- r_u16 ;;
  se_check (negb (lane_id =? CONTROL_LANE_ID)) MalformedFrameError ;;;
  lane_sequence <- r_u64 ;;
  recipient_actor_uid <- r_uuid ;;
  reason_detail <- _read_reason ;;
  se_ret (mkAdvisory association_uid lane_id lane_sequence recipient_actor_uid
            reason_detail.1 reason_detail.2 correlation_id).

Definition w_system_name (name : pystr) : SE bytes unit :=
  encoded <- se_lift (_system_name name ProtocolValidationError) ;;
  w_u16 (len encoded) ;;; w_raw encoded.

Definition w_actor_path (path : pystr) : SE bytes unit :=
  encoded <- se_lift (_actor_path path ProtocolValidationError) ;;
  w_u16 (len encoded) ;;; w_raw encoded.

Definition _read_system_name : SE bytes pystr :=
  value <- r_string16 255 true ;;
  se_lift (_system_name value MalformedFrameError) ;;;
  se_ret value.

Definition _read_actor_path : SE bytes pystr :=
  value <- r_string16 MAX_U16 true ;;
  se_lift (_actor_path value MalformedFrameError) ;;;
  se_ret value.

(** * Frame bodies *)

Definition encode_hello (f : Hello) : SE bytes unit :=
  w_u16 (hl_protocol_major f) ;;;
  w_u16 (hl_protocol_minor f) ;;;
  w_u8 (role_code (hl_role f)) ;;;
  w_system_name (hl_system_name f) ;;;
  w_uuid (hl_system_incarnation_uid f) ;;;
  w_uuid (hl_association_uid f) ;;;
  w_string16 (hl_endpoint_host f) MAX_U16 true ;;;
  w_u16 (hl_endpoint_port f) ;;;
  _write_limits (hl_limits f) ;;;
  se_check (len (hl_serializers f) <=? MAX_U16) ProtocolValidationError ;;;
  se_check (all_distinct (sd_serializer_id <$> hl_serializers f)
            && all_distinct (sd_name <$> hl_serializers f)) ProtocolValidationError ;;;
  w_u16 (len (hl_serializers f)) ;;;
  se_iter _write_descriptor (hl_serializers f) ;;;
  _write_capabilities (hl_capabilities f).

Definition encode_hello_accept (f : HelloAccept) : SE bytes unit :=
  w_uuid (ha_association_uid f) ;;;
  w_u16 (ha_protocol_minor f) ;;;
  _write_limits (ha_limits f) ;;;
  _write_routes (ha_serializer_routes f) ;;;
  _write_capabilities (ha_capabilities f).

Definition encode_user_message (f : UserMessage) : SE bytes unit :=
  w_uuid (um_association_uid f) ;;;
  w_u16 (um_lane_id f) ;;;
  se_check (negb (um_lane_id f =? CONTROL_LANE_ID)) ProtocolValidationError ;;;
  w_u64 (um_lane_sequence f) ;;;
  w_uuid (um_sender_incarnation_uid f) ;;;
  w_uuid (um_recipient_incarnation_uid f) ;;;
  w_uuid (um_recipient_actor_uid f) ;;;
  w_u32 (um_serializer_id f) ;;;
  se_check (negb (um_serializer_id f =? 0)) ProtocolValidationError ;;;
  manifest <- se_lift (_text_bytes (um_manifest f) MAX_MANIFEST_BYTES
                         ProtocolValidationError true) ;;
  w_u16 (len manifest) ;;;
  w_u32 (len (um_payload f)) ;;;
  w_raw manifest ;;;
  w_raw (um_payload f).

Definition encode_body_writer (frame : Frame) : SE bytes unit :=
  match frame with
  | FHello f => encode_hello f
  | FHelloAccept f => encode_hello_accept f
  | FGoAway f | FHelloReject f => _write_reason (rf_reason f) (rf_detail f)
  | FResolveRequest f =>
      w_system_name (rq_system_name f) ;;; w_actor_path (rq_actor_path f)
  | FResolveResponse f =>
      w_uuid (rp_system_incarnation_uid f) ;;;
      w_uuid (rp_actor_uid f) ;;;
      w_actor_path (rp_actor_path f)
  | FResolveRejected f =>
      se_lift (_validate_frame_reason RESOLVE_REJECTED (rf_reason f)
                 ProtocolValidationError) ;;;
      _write_reason (rf_reason f) (rf_detail f)
  | FUserMessage f => encode_user_message f
  | FRecipientUnavailable f =>
      se_lift (_validate_frame_reason RECIPIENT_UNAVAILABLE (av_reason f)
                 ProtocolValidationError) ;;;
      _write_advisory f
  | FDeserializationRejected f =>
      se_lift (_validate_frame_reason DESERIALIZATION_REJECTED (av_reason f)
                 ProtocolValidationError) ;;;
      _write_advisory f
  end.

Definition _encode_body (frame : Frame) : result bytes :=
  match encode_body_writer frame [] with
  | Ok (_, data) => Ok data
  | Err e => Err e
  end.

Definition decode_hello (correlation_id : Z) : SE bytes Hello :=
  protocol_major <- r_u16 ;;
  protocol_minor <- r_u16 ;;
  role_value <- r_u8 ;;
  role <- se_lift (match role_of role_value with
                   | Some r => Ok r | None => Err MalformedFrameError end) ;;
  system_name <- _read_system_name ;;
  system_uid <- r_uuid ;;
  association_uid <- r_uuid ;;
  endpoint_host <- r_string16 MAX_U16 true ;;
  endpoint_port <- r_u16 ;;
  limits <- _read_limits ;;
  count <- r_u16 ;;
  serializers <- se_replicate (Z.to_nat count) _read_descriptor ;;
  se_check (all_distinct (sd_serializer_id <$> serializers)
            && all_distinct (sd_name <$> serializers)) MalformedFrameError ;;;
  capabilities <- _read_capabilities ;;
  se_ret (mkHello protocol_major protocol_minor role system_name system_uid
            association_uid endpoint_host endpoint_port limits serializers
            capabilities correlation_id).

Definition decode_hello_accept (correlation_id : Z) : SE bytes HelloAccept :=
  association_uid <- r_uuid ;;
  protocol_minor <- r_u16 ;;
  limits <- _read_limits ;;
  routes <- _read_routes ;;
  capabilities <- _read_capabilities ;;
  se_ret (mkHelloAccept association_uid protocol_minor limits routes capabilities
            correlation_id).

Definition decode_user_message (correlation_id : Z) : SE bytes UserMessage :=
  association_uid <- r_uuid ;;
  lane_id <- r_u16 ;;
  se_check (negb (lane_id =? CONTROL_LANE_ID)) MalformedFrameError ;;;
  lane_sequence <- r_u64 ;;
  sender_uid <- r_uuid ;;
  recipient_uid <- r_uuid ;;
  actor_uid <- r_uuid ;;
  serializer_id <- r_u32 ;;
  se_check (negb (serializer_id =? 0)) MalformedFrameError ;;;
  manifest_length <- r_u16 ;;
  se_check (manifest_length <=? MAX_MANIFEST_BYTES) MalformedFrameError ;;;
  payload_length <- r_u32 ;;
  (fun data => se_check (manifest_length + payload_length =? len data)
                 MalformedFrameError data) ;;;
  manifest_bytes <- r_raw manifest_length ;;
  manifest <- se_lift (decode_text manifest_bytes MAX_MANIFEST_BYTES true) ;;
  payload <- r_raw payload_length ;;
  se_ret (mkUserMessage association_uid lane_id lane_sequence sender_uid recipient_uid
            actor_uid serializer_id manifest payload correlation_id).

Definition decode_body_reader (t : FrameType) (correlation_id : Z) : SE bytes Frame :=
  match t with
  | HELLO => f <- decode_hello correlation_id ;; se_ret (FHello f)
  | HELLO_ACCEPT => f <- decode_hello_accept correlation_id ;; se_ret (FHelloAccept f)
  | GOAWAY =>
      rd <- _read_reason ;; se_ret (FGoAway (mkReasonFrame rd.1 rd.2 correlation_id))
  | HELLO_REJECT =>
      rd <- _read_reason ;; se_ret (FHelloReject (mkReasonFrame rd.1 rd.2 correlation_id))
  | RESOLVE_REQUEST =>
      name <- _read_system_name ;;
      path <- _read_actor_path ;;
      se_ret (FResolveRequest (mkResolveRequest correlation_id name path))
  | RESOLVE_RESPONSE =>
      system_uid <- r_uuid ;;
      actor_uid <- r_uuid ;;
      path <- _read_actor_path ;;
      se_ret (FResolveResponse (mkResolveResponse correlation_id system_uid actor_uid path))
  | RESOLVE_REJECTED =>
      rd <- _read_reason ;;
      se_lift (_validate_frame_reason RESOLVE_REJECTED rd.1 MalformedFrameError) ;;;
      se_ret (FResolveRejected (mkReasonFrame rd.1 rd.2 correlation_id))
  | USER_MESSAGE => f <- decode_user_message correlation_id ;; se_ret (FUserMessage f)
  | RECIPIENT_UNAVAILABLE =>
      a <- _read_advisory correlation_id ;;
      se_lift (_validate_frame_reason RECIPIENT_UNAVAILABLE (av_reason a)
                 MalformedFrameError) ;;;
      se_ret (FRecipientUnavailable a)
  | DESERIALIZATION_REJECTED =>
      a <- _read_advisory correlation_id ;;
      se_lift (_validate_frame_reason DESERIALIZATION_REJECTED (av_reason a)
                 MalformedFrameError) ;;;
      se_ret (FDeserializationRejected a)
  end.

Definition _decode_body (header : FrameHeader) (body : bytes) : result Frame :=
  match (f <- decode_body_reader (fh_frame_type header) (fh_correlation_id header) ;;
         r_finish ;;; se_ret f) body with
  | Ok (f, _) => Ok f
  | Err e => Err e
  end.

(** * The user-message fast path *)

(** [struct.Struct(">IBBHQ16sHQ16s16s16sIHI").pack(...)]. *)
Definition pack_user_message_prefix (frame_length code flags version correlation_id
    association_uid lane_id lane_sequence sender_uid recipient_uid actor_uid
    serializer_id manifest_length payload_length : Z) : bytes :=
  pack_header frame_length code flags version correlation_id
  ++ be_pack 16 association_uid ++ be_pack 2 lane_id ++ be_pack 8 lane_sequence
  ++ be_pack 16 sender_uid ++ be_pack 16 recipient_uid ++ be_pack 16 actor_uid
  ++ be_pack 4 serializer_id ++ be_pack 2 manifest_length ++ be_pack 4 payload_length.

(** [_USER_MESSAGE_PREFIX.size]. *)
Definition user_message_prefix_size : Z := COMMON_HEADER_SIZE + _USER_MESSAGE_FIXED_BODY_SIZE.

Definition _encode_user_message_frame (f : UserMessage) (maximum_frame_bytes : Z) :
    result bytes :=
  _validate_correlation USER_MESSAGE (um_correlation_id f) ProtocolValidationError ≫= fun _ =>
  _uuid (um_association_uid f) ProtocolValidationError ≫= fun association_uid =>
  _uint (um_lane_id f) MAX_U16 ProtocolValidationError 0 ≫= fun lane_id =>
  raise_unless (negb (lane_id =? CONTROL_LANE_ID)) ProtocolValidationError ≫= fun _ =>
  _uint (um_lane_sequence f) MAX_U64 ProtocolValidationError 0 ≫= fun lane_sequence =>
  _uuid (um_sender_incarnation_uid f) ProtocolValidationError ≫= fun sender_uid =>
  _uuid (um_recipient_incarnation_uid f) ProtocolValidationError ≫= fun recipient_uid =>
  _uuid (um_recipient_actor_uid f) ProtocolValidationError ≫= fun actor_uid =>
  _uint (um_serializer_id f) MAX_U32 ProtocolValidationError 0 ≫= fun serializer_id =>
  raise_unless (negb (serializer_id =? 0)) ProtocolValidationError ≫= fun _ =>
  _text_bytes (um_manifest f) MAX_MANIFEST_BYTES ProtocolValidationError true
    ≫= fun manifest =>
  _uint (len (um_payload f)) MAX_U32 ProtocolValidationError 0 ≫= fun payload_length =>
  let total_length := user_message_prefix_size + len manifest + payload_length in
  _effective_limit USER_MESSAGE maximum_frame_bytes ≫= fun limit =>
  raise_unless (total_length <=? limit) FrameTooLargeError ≫= fun _ =>
  Ok (pack_user_message_prefix (total_length - 4) (frame_type_code USER_MESSAGE) 0
        HEADER_VERSION 0 association_uid lane_id lane_sequence sender_uid recipient_uid
        actor_uid serializer_id (len manifest) payload_length
      ++ manifest ++ um_payload f).

Definition _decode_user_message_frame (data : bytes) (header : FrameHeader) :
    result UserMessage :=
  let body := drop 16 data in
  if len body <? _USER_MESSAGE_FIXED_BODY_SIZE then Err MalformedFrameError
  else
  let association := be_unpack (slice 0 16 body) in
  let lane_id := be_unpack (slice 16 18 body) in
  let lane_sequence := be_unpack (slice 18 26 body) in
  let sender := be_unpack (slice 26 42 body) in
  let recipient := be_unpack (slice 42 58 body) in
  let actor := be_unpack (slice 58 74 body) in
  let serializer_id := be_unpack (slice 74 78 body) in
  let manifest_length := be_unpack (slice 78 80 body) in
  let payload_length := be_unpack (slice 80 84 body) in
  _uuid association MalformedFrameError ≫= fun association_uid =>
  raise_unless (negb (lane_id =? CONTROL_LANE_ID)) MalformedFrameError ≫= fun _ =>
  _uuid sender MalformedFrameError ≫= fun sender_uid =>
  _uuid recipient MalformedFrameError ≫= fun recipient_uid =>
  _uuid actor MalformedFrameError ≫= fun actor_uid =>
  raise_unless (negb (serializer_id =? 0)) MalformedFrameError ≫= fun _ =>
  raise_unless (manifest_length <=? MAX_MANIFEST_BYTES) MalformedFrameError ≫= fun _ =>
  raise_unless (_USER_MESSAGE_FIXED_BODY_SIZE + manifest_length + payload_length
                =? body_length header) MalformedFrameError ≫= fun _ =>
  let manifest_start := Z.to_nat (COMMON_HEADER_SIZE + _USER_MESSAGE_FIXED_BODY_SIZE) in
  let manifest_end := (manifest_start + Z.to_nat manifest_length)%nat in
  decode_text (slice manifest_start manifest_end data) MAX_MANIFEST_BYTES true
    ≫= fun manifest =>
  Ok (mkUserMessage association_uid lane_id lane_sequence sender_uid recipient_uid actor_uid
        serializer_id manifest (drop manifest_end data) (fh_correlation_id header)).

(** * Complete frames *)

(** The last statements of [encode_frame]: body, then header, concatenated. *)
Definition encode_generic (frame : Frame) (maximum_frame_bytes : Z) : result bytes :=
  _encode_body frame ≫= fun body =>
  encode_common_header (frame_type frame) (len body) (correlation_id frame)
    maximum_frame_bytes ≫= fun header =>
  Ok (header ++ body).

Definition encode_frame (frame : Frame) (maximum_frame_bytes : Z)
    (stream_kind : option StreamKind) : result bytes :=
  _validate_stream (frame_type frame) stream_kind ≫= fun _ =>
  match frame with
  | FUserMessage m => _encode_user_message_frame m maximum_frame_bytes
  | _ => encode_generic frame maximum_frame_bytes
  end.

Definition decode_frame (data : bytes) (maximum_frame_bytes : Z)
    (stream_kind : option StreamKind) : result Frame :=
  decode_common_header data maximum_frame_bytes ≫= fun header =>
  _validate_stream (fh_frame_type header) stream_kind ≫= fun _ =>
  if len data <? total_length header then Err MalformedFrameError
  else if total_length header <? len data then Err MalformedFrameError
  else match fh_frame_type header with
       | USER_MESSAGE =>
           _decode_user_message_frame data header ≫= fun m => Ok (FUserMessage m)
       | _ => _decode_body header (drop 16 data)
       end.

(** [FrameCodec]: a codec bound to one complete-frame limit. *)
Definition FrameCodec_new (maximum_frame_bytes : Z) : result Z :=
  _uint maximum_frame_bytes MAX_U32 ProtocolValidationError COMMON_HEADER_SIZE.

Definition negotiate_capabilities (first second : list pystr) : result (list pystr) :=
  check_capabilities (first ++ second) ≫= fun _ =>
  Ok (sorted_utf8 (elements (list_to_set first ∩ list_to_set second : gset pystr))).
End codec.
