(* ===== verification/WireRoundTrip.v ===== *)
(** Decoding inverts encoding on the wire: every frame the encoder accepts is
    read back unchanged by [decode_frame], and the user-message fast path
    computes what the generic body codec computes.

    The proofs pair each writer of [Wire.v] with its reader ([writes_as] of
    [Bytes.v]); the pairs are collected in the hint database [codec] and the
    [codec] tactic follows the structure of a frame body. *)

From stdpp Require Import base list numbers gmap strings sorting.
From S2P Require Import Prelude Bytes PyStr Serialization Wire.

Create HintDb codec.

(** * Values that exist in Python

    Invariants of the objects a frame is made of that the model's types do not
    carry: a UUID has 128 bits, a string is made of code points, descriptors and
    routes went through [__post_init__]. *)

Definition uuid_ok (u : Z) : Prop := 0 <= u < 2 ^ 128.

#[global] Instance uuid_ok_dec u : Decision (uuid_ok u).
Proof. unfold uuid_ok. apply _. Defined.

Section wf.
Context `{Unicode}.

Record descriptor_ok (d : SerializerDescriptor) : Prop := {
  do_name : str_ok (sd_name d);
  do_readable : forall m, m ∈ sd_readable_manifests d -> str_ok m;
  do_writable : forall m, m ∈ sd_writable_manifests d -> str_ok m;
  do_valid : SerializerDescriptor_new (sd_serializer_id d) (sd_name d)
      (sd_protocol_major d) (sd_protocol_minor d) (sd_readable_manifests d)
      (sd_writable_manifests d) = Ok d;
}.

Record route_ok (r : SerializerRoute) : Prop := {
  ro_origin : uuid_ok (sr_origin_incarnation_uid r);
  ro_manifests : Forall str_ok (sr_manifests r);
  ro_valid : SerializerRoute_new (sr_origin_incarnation_uid r) (sr_serializer_id r)
      (sr_manifests r) = Ok r;
}.

Definition frame_ok (f : Frame) : Prop :=
  match f with
  | FHello h =>
      str_ok (hl_system_name h) /\ uuid_ok (hl_system_incarnation_uid h) /\
      uuid_ok (hl_association_uid h) /\ str_ok (hl_endpoint_host h) /\
      Forall descriptor_ok (hl_serializers h) /\ Forall str_ok (hl_capabilities h)
  | FHelloAccept h =>
      uuid_ok (ha_association_uid h) /\ Forall route_ok (ha_serializer_routes h) /\
      Forall str_ok (ha_capabilities h)
  | FGoAway r | FHelloReject r | FResolveRejected r => str_ok (rf_detail r)
  | FResolveRequest r => str_ok (rq_system_name r) /\ str_ok (rq_actor_path r)
  | FResolveResponse r =>
      uuid_ok (rp_system_incarnation_uid r) /\ uuid_ok (rp_actor_uid r) /\
      str_ok (rp_actor_path r)
  | FUserMessage m =>
      uuid_ok (um_association_uid m) /\ uuid_ok (um_sender_incarnation_uid m) /\
      uuid_ok (um_recipient_incarnation_uid m) /\ uuid_ok (um_recipient_actor_uid m) /\
      str_ok (um_manifest m) /\ bytes_ok (um_payload m)
  | FRecipientUnavailable a | FDeserializationRejected a =>
      uuid_ok (av_association_uid a) /\ uuid_ok (av_recipient_actor_uid a) /\
      str_ok (av_detail a)
  end.

End wf.

(** * Inversion of the field checks *)

Lemma uint_inv v mx e mn x : _uint v mx e mn = Ok x -> x = v /\ mn <= v <= mx.
Proof.
  unfold _uint. destruct (_ && _) eqn:E; [|done]. intros [= <-].
  rewrite andb_true_iff, !Z.leb_le in E. lia.
Qed.

Lemma uint_intro v mx e mn : mn <= v <= mx -> _uint v mx e mn = Ok v.
Proof. intros Hv. unfold _uint. by ztests. Qed.

Lemma uuid_inv v e x : _uuid v e = Ok x -> x = v /\ v <> 0.
Proof. unfold _uuid. destruct (Z.eqb_spec v 0); [done|]. by intros [= <-]. Qed.

Lemma uuid_intro v e : v <> 0 -> _uuid v e = Ok v.
Proof. intros Hv. unfold _uuid. by destruct (Z.eqb_spec v 0). Qed.

Section lemmas.
Context `{Unicode}.
Open Scope se_scope.

Lemma text_bytes_inv value mx e ne bs :
  _text_bytes value mx e ne = Ok bs ->
  is_nfc value = true /\ utf8_encode value = Ok bs /\ len bs <= mx /\
  (ne = true -> bs <> []).
Proof.
  unfold _text_bytes. destruct (is_nfc value); [|done]. simpl.
  destruct (utf8_encode value) as [enc|]; [|done].
  destruct (ne && bool_decide (enc = [])) eqn:E1; [done|].
  destruct (Z.ltb_spec mx (len enc)); [done|]. intros [= <-].
  split_and!; try done. intros ->. simpl in E1.
  by apply bool_decide_eq_false in E1.
Qed.

Lemma text_bytes_intro value mx e ne bs :
  is_nfc value = true -> utf8_encode value = Ok bs -> len bs <= mx ->
  (ne = true -> bs <> []) -> _text_bytes value mx e ne = Ok bs.
Proof.
  intros Hn He Hl Hne. unfold _text_bytes. rewrite Hn, He. simpl.
  destruct ne; simpl.
  - rewrite bool_decide_eq_false_2 by auto. by ztests.
  - by ztests.
Qed.

(** The limits and the emptiness test of a second check may be weaker. *)
Lemma text_bytes_weaken value mx mx' e e' ne ne' bs :
  _text_bytes value mx e ne = Ok bs -> mx <= mx' -> (ne' = true -> ne = true) ->
  _text_bytes value mx' e' ne' = Ok bs.
Proof.
  intros Ht Hle Hne. apply text_bytes_inv in Ht as (?&?&?&?).
  apply text_bytes_intro; auto. lia.
Qed.

Lemma decode_text_intro value mx e ne bs mx' ne' :
  str_ok value -> _text_bytes value mx e ne = Ok bs -> mx <= mx' ->
  (ne' = true -> ne = true) -> decode_text bs mx' ne' = Ok value.
Proof.
  intros Hs Ht Hle Hne. unfold decode_text.
  pose proof Ht as (_&He&_&_)%text_bytes_inv.
  rewrite (utf8_decode_encode value bs Hs He).
  by rewrite (text_bytes_weaken _ _ mx' _ MalformedFrameError _ ne' _ Ht).
Qed.

(** * Primitive pairs *)

Lemma to_nat_len {A} (xs : list A) : Z.to_nat (len xs) = length xs.
Proof. unfold len. apply Nat2Z.id. Qed.

Lemma r_take_app bs rest n : n = len bs -> r_take n (bs ++ rest) = Ok (bs, rest).
Proof.
  intros ->. unfold r_take. rewrite len_app.
  pose proof (len_nonneg rest). ztests. rewrite to_nat_len.
  by rewrite take_app_length, drop_app_length.
Qed.

Lemma writes_as_raw bs n : n = len bs -> writes_as (w_raw bs) (r_raw n) bs.
Proof.
  intros Hn buf buf' [= <-]. exists bs. split; [done|].
  intros rest. by apply r_take_app.
Qed.

Lemma writes_as_field n v :
  0 <= v < 256 ^ Z.of_nat n ->
  writes_as (w_raw (be_pack n v)) (b <- r_take (Z.of_nat n) ;; se_ret (be_unpack b)) v.
Proof.
  intros Hv buf buf' [= <-]. exists (be_pack n v). split; [done|].
  intros rest. unfold se_bind, se_ret.
  rewrite r_take_app by (unfold len; by rewrite length_be_pack).
  by rewrite be_unpack_pack_small.
Qed.

Lemma writes_as_uint n v mx e :
  mx + 1 = 256 ^ Z.of_nat n ->
  writes_as (x <- se_lift (_uint v mx e 0) ;; w_raw (be_pack n x))
            (b <- r_take (Z.of_nat n) ;; se_ret (be_unpack b)) v.
Proof.
  intros Hmx. apply writes_as_lift_w. intros x [-> Hv]%uint_inv.
  apply writes_as_field. lia.
Qed.

Lemma writes_as_u8 v : writes_as (w_u8 v) r_u8 v.
Proof. by apply (writes_as_uint 1). Qed.
Lemma writes_as_u16 v : writes_as (w_u16 v) r_u16 v.
Proof. by apply (writes_as_uint 2). Qed.
Lemma writes_as_u32 v : writes_as (w_u32 v) r_u32 v.
Proof. by apply (writes_as_uint 4). Qed.
Lemma writes_as_u64 v : writes_as (w_u64 v) r_u64 v.
Proof. by apply (writes_as_uint 8). Qed.

Lemma writes_as_uuid u : uuid_ok u -> writes_as (w_uuid u) r_uuid u.
Proof.
  intros Hu. apply writes_as_lift_w. intros x [-> Hnz]%uuid_inv.
  intros buf buf' [= <-]. exists (be_pack 16 u). split; [done|].
  intros rest. unfold r_uuid, se_bind, se_lift.
  rewrite r_take_app by (unfold len; by rewrite length_be_pack).
  rewrite be_unpack_pack_small by (unfold uuid_ok in Hu; lia).
  by rewrite uuid_intro.
Qed.

(** After the last write the reader only checks and returns. *)
Lemma writes_as_then {A B} w (r : SE bytes A) (k : A -> SE bytes B) a b :
  writes_as w r a -> writes_as (se_ret tt) (k a) b -> writes_as w (x <- r ;; k x) b.
Proof.
  intros H1 H2 buf buf' Hw. destruct (H1 _ _ Hw) as (bs & -> & Hr).
  exists bs. split; [done|]. intros rest. unfold se_bind. rewrite Hr.
  destruct (H2 [] [] eq_refl) as (bs2 & E2 & Hr2). simpl in E2. subst bs2. apply Hr2.
Qed.

(** A length-prefixed encoding followed by further text checks. *)
Lemma writes_as_prefixed value mx e ne bs mx' ne' :
  str_ok value -> _text_bytes value mx e ne = Ok bs -> mx <= mx' ->
  (ne' = true -> ne = true) ->
  writes_as (w_u16 (len bs) ;;; w_raw bs) (r_string16 mx' ne') value.
Proof.
  intros Hs Ht Hle Hne. pose proof Ht as (_&_&Hlen&_)%text_bytes_inv.
  eapply writes_as_bind; [apply writes_as_u16|].
  apply writes_as_check_r; [apply Z.leb_le; lia|].
  eapply writes_as_then; [by apply writes_as_raw|].
  replace (se_lift (decode_text bs mx' ne')) with (se_ret (S := bytes) value)
    by (by rewrite (decode_text_intro value mx e ne)).
  apply writes_as_ret.
Qed.

Lemma writes_as_string16 value mx ne :
  str_ok value -> writes_as (w_string16 value mx ne) (r_string16 mx ne) value.
Proof.
  intros Hs. apply writes_as_lift_w. intros bs Ht.
  eapply writes_as_prefixed; [done|exact Ht|lia|done].
Qed.

Lemma writes_as_list {A} (w : A -> SE bytes unit) (r : SE bytes A) xs :
  Forall (fun x => writes_as (w x) r x) xs ->
  writes_as (se_iter w xs) (se_replicate (Z.to_nat (len xs)) r) xs.
Proof. rewrite to_nat_len. apply writes_as_iter. Qed.

Lemma writes_as_strings xs mx ne :
  Forall str_ok xs ->
  writes_as (se_iter (fun c => w_string16 c mx ne) xs)
            (se_replicate (Z.to_nat (len xs)) (r_string16 mx ne)) xs.
Proof.
  intros Hx. apply writes_as_list. eapply Forall_impl; [exact Hx|].
  intros x. apply writes_as_string16.
Qed.

Lemma writes_as_manifests xs :
  Forall str_ok xs ->
  writes_as (se_iter w_manifest xs) (se_replicate (Z.to_nat (len xs)) r_manifest) xs.
Proof. apply writes_as_strings. Qed.

End lemmas.

#[export] Hint Resolve writes_as_u8 writes_as_u16 writes_as_u32 writes_as_u64
  writes_as_uuid writes_as_string16 writes_as_strings writes_as_manifests : codec.

(** Follow a writer and its reader in lockstep, closing primitive pairs with
    [codec] and leaving the reader's remaining checks. *)
Ltac codec_step :=
  lazymatch goal with
  | |- writes_as (se_bind (se_check _ _) _) _ _ => apply writes_as_check_w; intros ?
  | |- writes_as (se_bind (se_lift _) _) _ _ => apply writes_as_lift_w; intros ? ?
  | |- writes_as _ (se_bind (se_check _ _) _) _ => apply writes_as_check_r
  | |- writes_as (se_bind _ _) (se_bind _ _) _ =>
      eapply writes_as_bind; [solve [eauto with codec]|]
  | |- writes_as (se_ret _) (se_ret _) _ => apply writes_as_ret
  | |- writes_as _ (se_bind _ _) _ => eapply writes_as_then; [solve [eauto with codec]|]
  end.
Ltac codec := repeat codec_step.

(** * Component pairs *)

Section components.
Context `{Unicode}.
Open Scope se_scope.

Lemma writes_as_lift_ret {A} (m : result A) a :
  m = Ok a -> writes_as (se_ret tt) (se_lift m) a.
Proof. intros ->. apply writes_as_ret. Qed.

Lemma elements_str_ok (X : gset pystr) :
  (forall m, m ∈ X -> str_ok m) -> Forall str_ok (sorted_utf8 (elements X)).
Proof.
  intros HX. rewrite sorted_utf8_perm. apply Forall_forall. set_solver.
Qed.

Lemma all_distinct_elements (X : gset pystr) :
  all_distinct (sorted_utf8 (elements X)) = true.
Proof. apply all_distinct_spec. rewrite sorted_utf8_perm. apply NoDup_elements. Qed.

Lemma list_to_set_sorted (X : gset pystr) :
  list_to_set (sorted_utf8 (elements X)) = X.
Proof.
  apply set_eq. intros m. rewrite elem_of_list_to_set, sorted_utf8_perm.
  apply elem_of_elements.
Qed.

Lemma writes_as_descriptor d :
  descriptor_ok d -> writes_as (_write_descriptor d) _read_descriptor d.
Proof.
  intros [Hn Hr Hw Hv]. unfold _write_descriptor, _read_descriptor.
  pose proof (elements_str_ok _ Hr). pose proof (elements_str_ok _ Hw). codec.
  - by rewrite !all_distinct_elements.
  - apply writes_as_lift_ret. by rewrite !list_to_set_sorted, Hv.
Qed.

Lemma writes_as_limits l : writes_as (_write_limits l) _read_limits l.
Proof. unfold _write_limits, _read_limits. codec; [done|]. destruct l. apply writes_as_ret. Qed.

Lemma writes_as_capabilities cs :
  Forall str_ok cs -> writes_as (_write_capabilities cs) _read_capabilities cs.
Proof. intros Hc. unfold _write_capabilities, _read_capabilities. by codec. Qed.

(** What [SerializerRoute.__post_init__] leaves behind: sorted, distinct,
    nonempty manifests made of scalar values. *)
Lemma route_new_inv o i ms r :
  SerializerRoute_new o i ms = Ok r ->
  r = mkRoute o i (sorted_utf8 ms) /\ o <> 0 /\ 1 <= i <= MAX_U32 /\
  len ms <= MAX_U16 /\ check_manifests ms = Ok tt /\ NoDup ms /\ ms <> [].
Proof.
  unfold SerializerRoute_new, registry_uint. intros Hr. inv_run.
  repeat match goal with u : unit |- _ => destruct u end.
  split_and!; try done; [by apply all_distinct_spec|]. by intros ->.
Qed.

Lemma manifest_scalar ms :
  Forall str_ok ms -> check_manifests ms = Ok tt -> Forall (Forall scalar) ms.
Proof.
  intros Hs. unfold check_manifests, raise_unless.
  destruct (forallb _ _) eqn:E; [|done]. intros _.
  rewrite forallb_forall in E. apply Forall_forall. intros m Hm.
  specialize (E m ltac:(by apply list_elem_of_In)).
  unfold _encoded_text, raise_unless in E. destruct (is_nfc m); [|done]. simpl in E.
  destruct (utf8_encode m) as [bs|] eqn:Em; [|done].
  apply utf8_encode_scalar in Em as [? _]; [done|].
  by apply (proj1 (Forall_forall _ _) Hs).
Qed.

(** A route's manifests are their own canonical form. *)
Lemma route_ok_sorted r : route_ok r -> sorted_utf8 (sr_manifests r) = sr_manifests r.
Proof. intros [_ _ Hv]. apply route_new_inv in Hv as [E _]. by destruct r; injection E. Qed.

Lemma canonical_manifests r :
  route_ok r ->
  sorted_utf8 (elements (list_to_set (sr_manifests r) : gset pystr)) = sr_manifests r.
Proof.
  intros Hr. pose proof (route_ok_sorted r Hr) as Hs. destruct Hr as [_ Hst Hv].
  apply route_new_inv in Hv as (_ & _ & _ & _ & Hc & Hd & _).
  pose proof (manifest_scalar _ Hst Hc) as Hsc.
  assert (elements (list_to_set (sr_manifests r) : gset pystr) ≡ₚ sr_manifests r) as Hp
    by (by apply elements_list_to_set).
  apply sorted_utf8_unique.
  - by rewrite sorted_utf8_perm, Hp.
  - by rewrite sorted_utf8_perm, Hp.
  - apply sorted_utf8_sorted.
  - rewrite <- Hs. apply sorted_utf8_sorted.
Qed.

Lemma writes_as_route r : route_ok r -> writes_as (w_route r) r_route r.
Proof.
  intros Hr. pose proof (canonical_manifests r Hr) as Hc. destruct Hr as [Ho Hs Hv].
  pose proof Hv as (_ & _ & _ & _ & _ & _ & Hne)%route_new_inv.
  unfold w_route, r_route. codec.
  - by rewrite Hc, bool_decide_eq_false_2, bool_decide_eq_true_2.
  - apply writes_as_lift_ret. by rewrite Hv.
Qed.

Lemma writes_as_routes rs :
  Forall route_ok rs -> writes_as (_write_routes rs) _read_routes rs.
Proof.
  intros Hr. unfold _write_routes, _read_routes.
  assert (writes_as (se_iter w_route rs) (se_replicate (Z.to_nat (len rs)) r_route) rs).
  { apply writes_as_list. eapply Forall_impl; [exact Hr|]. apply writes_as_route. }
  codec; [|done]. by match goal with
  | Hb : bool_decide (_ = _) = true |- _ =>
      apply bool_decide_eq_true in Hb; rewrite Hb; apply bool_decide_eq_true
  end.
Qed.

Lemma reason_of_code r : reason_of (reason_code r) = Some r.
Proof. by destruct r. Qed.
Lemma frame_type_of_code t : frame_type_of (frame_type_code t) = Some t.
Proof. by destruct t. Qed.
Lemma role_of_code r : role_of (role_code r) = Some r.
Proof. by destruct r. Qed.
Lemma stream_kind_of_code k : stream_kind_of (stream_kind_code k) = Some k.
Proof. by destruct k. Qed.

Lemma writes_as_reason r d :
  str_ok d -> writes_as (_write_reason r d) _read_reason (r, d).
Proof.
  intros Hd. unfold _write_reason, _read_reason.
  eapply writes_as_bind; [apply writes_as_u16|]. rewrite reason_of_code.
  eapply writes_as_lift_r; [done|]. by codec.
Qed.

Lemma writes_as_system_name n :
  str_ok n -> writes_as (w_system_name n) _read_system_name n.
Proof.
  intros Hn. apply writes_as_lift_w. intros bs E. unfold _system_name in E.
  destruct (_text_bytes n 255 _ true) as [bs'|] eqn:Ht; [|done].
  destruct (forallb is_unreserved n) eqn:Hu; [|done]. injection E as ->.
  eapply writes_as_then; [by eapply writes_as_prefixed|].
  eapply (writes_as_lift_r _ bs); [|apply writes_as_ret].
  unfold _system_name. by rewrite (text_bytes_weaken _ _ 255 _ _ _ true _ Ht), Hu.
Qed.

Lemma writes_as_actor_path p :
  str_ok p -> writes_as (w_actor_path p) _read_actor_path p.
Proof.
  intros Hp. apply writes_as_lift_w. intros bs E. unfold _actor_path in E.
  destruct (_text_bytes p MAX_U16 _ true) as [bs'|] eqn:Ht; [|done].
  eapply writes_as_then; [|eapply (writes_as_lift_r _ bs); [|apply writes_as_ret]].
  - repeat case_match; simplify_eq. by eapply writes_as_prefixed.
  - unfold _actor_path. rewrite (text_bytes_weaken _ _ MAX_U16 _ _ _ true _ Ht) by done.
    by repeat case_match.
Qed.

End components.

#[export] Hint Resolve writes_as_descriptor writes_as_limits writes_as_capabilities
  writes_as_routes writes_as_reason writes_as_system_name writes_as_actor_path : codec.

(** * Frame bodies *)

Section bodies.
Context `{Unicode}.
Open Scope se_scope.

Lemma writes_as_hello f :
  frame_ok (FHello f) -> writes_as (encode_hello f) (decode_hello (hl_correlation_id f)) f.
Proof.
  destruct f as [mj mn ro nm su au eh ep lm ss cs ci].
  intros (? & ? & ? & ? & Hd & ?). unfold encode_hello, decode_hello. cbn in *.
  assert (writes_as (se_iter _write_descriptor ss)
            (se_replicate (Z.to_nat (len ss)) _read_descriptor) ss).
  { apply writes_as_list. eapply Forall_impl; [exact Hd|]. apply writes_as_descriptor. }
  codec_step; codec_step; eapply writes_as_bind; [apply writes_as_u8|].
  rewrite role_of_code. eapply writes_as_lift_r; [done|]. by codec.
Qed.

Lemma writes_as_hello_accept f :
  frame_ok (FHelloAccept f) ->
  writes_as (encode_hello_accept f) (decode_hello_accept (ha_correlation_id f)) f.
Proof.
  destruct f as [au mn lm rs cs ci]. intros (? & ? & ?).
  unfold encode_hello_accept, decode_hello_accept. cbn in *. by codec.
Qed.

Lemma writes_as_advisory a :
  uuid_ok (av_association_uid a) -> uuid_ok (av_recipient_actor_uid a) ->
  str_ok (av_detail a) ->
  writes_as (_write_advisory a) (_read_advisory (av_correlation_id a)) a.
Proof.
  destruct a as [au li ls ra re de ci]. cbn. intros ???.
  unfold _write_advisory, _read_advisory. cbn. by codec.
Qed.

(** Errors of the reason check do not depend on the error type passed in. *)
Lemma frame_reason_any t r e e' u :
  _validate_frame_reason t r e = Ok u -> _validate_frame_reason t r e' = Ok tt.
Proof.
  unfold _validate_frame_reason. destruct (frame_reason_codes t); [|done].
  intros Hr. inv_run. by apply raise_unless_ok, bool_decide_eq_true.
Qed.

Hint Resolve writes_as_hello writes_as_hello_accept writes_as_advisory : codec.

Lemma writes_as_body f :
  frame_ok f -> frame_type f <> USER_MESSAGE ->
  writes_as (encode_body_writer f) (decode_body_reader (frame_type f) (correlation_id f)) f.
Proof.
  intros Hok Ht. destruct f as [f|f|f|f|f|f|f|f|f|f]; try done;
    cbn [encode_body_writer frame_type correlation_id decode_body_reader].
  - by codec.
  - by codec.
  - destruct f. by codec.
  - destruct f. by codec.
  - destruct f. destruct Hok. by codec.
  - destruct f. destruct Hok as (?&?&?). by codec.
  - destruct f. codec. cbn [fst snd]. eapply writes_as_lift_r; [by eapply frame_reason_any|].
    apply writes_as_ret.
  - destruct Hok as (?&?&?). codec.
    eapply writes_as_lift_r; [by eapply frame_reason_any|]. apply writes_as_ret.
  - destruct Hok as (?&?&?). codec.
    eapply writes_as_lift_r; [by eapply frame_reason_any|]. apply writes_as_ret.
Qed.

(** Like [writes_as] for the end of a body, where the reader may look at how
    many bytes are left. *)
Definition writes_end {A} (w : SE bytes unit) (r : SE bytes A) (a : A) : Prop :=
  forall buf buf', w buf = Ok (tt, buf') ->
    exists bs, buf' = buf ++ bs /\ r bs = Ok (a, []).

Lemma writes_end_bind {A B} w w' (r : SE bytes A) (r' : A -> SE bytes B) a b :
  writes_as w r a -> writes_end w' (r' a) b ->
  writes_end (w ;;; w') (x <- r ;; r' x) b.
Proof.
  intros H1 H2 buf out (u & s & E1 & E2)%se_bind_ok. destruct u.
  destruct (H1 _ _ E1) as (b1 & -> & Hr1). destruct (H2 _ _ E2) as (b2 & -> & Hr2).
  exists (b1 ++ b2). rewrite <- app_assoc. split; [done|]. apply se_bind_ok. eauto.
Qed.

Lemma writes_end_check_w {A} c e w (r : SE bytes A) a :
  (c = true -> writes_end w r a) -> writes_end (se_check c e ;;; w) r a.
Proof.
  intros HP buf out (u & s & E1 & E2)%se_bind_ok.
  apply se_check_ok in E1 as [-> ->]. by apply HP.
Qed.

Lemma writes_end_check_r {A} c e w (r : SE bytes A) a :
  c = true -> writes_end w r a -> writes_end w (se_check c e ;;; r) a.
Proof. intros -> HP buf out E. destruct (HP buf out E) as (bs & -> & Hr). eauto. Qed.

Lemma writes_end_lift_w {A B} (m : result B) k (r : SE bytes A) a :
  (forall x, m = Ok x -> writes_end (k x) r a) ->
  writes_end (x <- se_lift m ;; k x) r a.
Proof.
  intros HP buf out (u & s & E1 & E2)%se_bind_ok.
  apply se_lift_ok in E1 as [E1 ->]. by eapply HP.
Qed.

(** The generic codec reads a user-message body back: the payload runs to the
    end of the frame. *)
Lemma writes_end_user_message f :
  frame_ok (FUserMessage f) ->
  writes_end (encode_user_message f) (decode_user_message (um_correlation_id f)) f.
Proof.
  destruct f as [au li ls su ru ra si mf pl ci]. cbn. intros (?&?&?&?&Hm&_).
  unfold encode_user_message, decode_user_message. cbn.
  repeat first
    [ apply writes_end_check_w; intros ?
    | apply writes_end_lift_w; intros ? ?
    | apply writes_end_check_r; [solve [done | apply Z.leb_le; by eapply text_bytes_inv]|]
    | eapply writes_end_bind; [solve [eauto with codec]|] ].
  match goal with Ht : _text_bytes mf _ _ _ = Ok ?m |- _ => rename m into bm end.
  intros buf out (u & s & [= <- <-] & [= <-])%se_bind_ok.
  exists (bm ++ pl). split; [by rewrite app_assoc|].
  unfold se_bind, se_check, se_lift, se_ret. rewrite len_app, Z.eqb_refl.
  unfold r_raw. rewrite (r_take_app bm pl) by done.
  erewrite decode_text_intro by (done || lia).
  rewrite <- (app_nil_r pl) at 2. by rewrite r_take_app.
Qed.

Lemma decode_encode_body f body h :
  frame_ok f -> _encode_body f = Ok body ->
  fh_frame_type h = frame_type f -> fh_correlation_id h = correlation_id f ->
  _decode_body h body = Ok f.
Proof.
  intros Hok Hb Ht Hc. unfold _encode_body in Hb.
  destruct (encode_body_writer f []) as [[[] data]|] eqn:Hw; [|done].
  injection Hb as ->. unfold _decode_body. rewrite Ht, Hc.
  assert (decode_body_reader (frame_type f) (correlation_id f) body = Ok (f, [])) as E.
  { destruct (decide (frame_type f = USER_MESSAGE)) as [Hu|Hu].
    - destruct f as [| | | | | | |f| |]; try done.
      destruct (writes_end_user_message f Hok [] body Hw) as (bs & -> & E).
      cbn. unfold se_bind. by rewrite E.
    - destruct (writes_as_body f Hok Hu [] body Hw) as (bs & -> & E).
      by rewrite <- (E []), app_nil_r. }
  unfold se_bind. by rewrite E.
Qed.
End bodies.

(** * The common header *)

Section frames.
Context `{Unicode}.
Open Scope se_scope.

Lemma slice_mid i j (xs ys zs : bytes) :
  length xs = i -> length ys = (j - i)%nat -> slice i j (xs ++ ys ++ zs) = ys.
Proof.
  intros <- Hy. unfold slice. rewrite drop_app_length, <- Hy. by rewrite take_app_length.
Qed.

Lemma validate_correlation_any t c e e' u :
  _validate_correlation t c e = Ok u -> _validate_correlation t c e' = Ok tt.
Proof.
  unfold _validate_correlation, _uint. destruct (_ && _); [|done].
  repeat case_match; done.
Qed.

Lemma effective_limit_inv t mx l :
  _effective_limit t mx = Ok l -> COMMON_HEADER_SIZE <= mx <= MAX_U32 /\ l <= mx.
Proof.
  unfold _effective_limit. destruct (_uint _ _ _ _) as [m|] eqn:E; [|done].
  apply uint_inv in E as [-> ?]. case_match; intros [= <-]; lia.
Qed.

Lemma length_pack_header a b c d e : length (pack_header a b c d e) = 16%nat.
Proof. unfold pack_header. by rewrite !length_app, !length_be_pack. Qed.

Lemma slices_pack_header a b c d e rest :
  let data := pack_header a b c d e ++ rest in
  slice 0 4 data = be_pack 4 a /\ slice 4 5 data = be_pack 1 b /\
  slice 5 6 data = be_pack 1 c /\ slice 6 8 data = be_pack 2 d /\
  slice 8 16 data = be_pack 8 e.
Proof. by cbn. Qed.

Lemma decode_encode_header t bl c mx hdr body :
  0 <= bl -> encode_common_header t bl c mx = Ok hdr ->
  length hdr = 16%nat /\
  decode_common_header (hdr ++ body) mx =
    Ok (mkHeader (_HEADER_AFTER_LENGTH_SIZE + bl) t 0 HEADER_VERSION c).
Proof.
  intros Hbl Hr. unfold encode_common_header in Hr. inv_run.
  match goal with Hl : _effective_limit _ _ = Ok ?l |- _ =>
    rename l into lim; rename Hl into Hlim end.
  match goal with Hu : _uint bl _ _ _ = Ok _ |- _ => apply uint_inv in Hu as [-> Hb] end.
  match goal with Hu : _validate_correlation _ _ _ = Ok _ |- _ => rename Hu into Hc end.
  split; [apply length_pack_header|].
  pose proof (effective_limit_inv _ _ _ Hlim) as [Hmx Hle].
  unfold _HEADER_AFTER_LENGTH_SIZE, COMMON_HEADER_SIZE, MAX_U32 in *.
  pose proof Hc as Hc'. unfold _validate_correlation in Hc'.
  destruct (_uint c _ _ _) as [c'|] eqn:Ec; [|done]. apply uint_inv in Ec as [-> Hcr].
  unfold decode_common_header.
  edestruct slices_pack_header as (-> & -> & -> & -> & ->).
  assert ((len (pack_header (16 - 4 + bl) (frame_type_code t) 0 HEADER_VERSION c ++ body)
           <? COMMON_HEADER_SIZE) = false) as ->.
  { apply Z.ltb_ge. rewrite len_app. unfold len at 1. rewrite length_pack_header.
    pose proof (len_nonneg body). unfold COMMON_HEADER_SIZE. lia. }
  unfold MAX_U64 in Hcr.
  rewrite !be_unpack_pack_small by (try (destruct t; done); done || lia).
  unfold _HEADER_AFTER_LENGTH_SIZE, COMMON_HEADER_SIZE in *. ztests.
  rewrite uint_intro by (unfold MAX_U32; lia). cbn [mbind result_bind].
  unfold raise_unless. ztests. rewrite frame_type_of_code, Hlim. cbn [mbind result_bind].
  ztests. by rewrite (validate_correlation_any _ _ _ MalformedFrameError _ Hc).
Qed.

(** Framing of [header ++ body]: the declared length is the actual length. *)
Lemma decode_frame_framed t bl c mx hdr body kind :
  bl = len body -> encode_common_header t bl c mx = Ok hdr ->
  let h := mkHeader (_HEADER_AFTER_LENGTH_SIZE + bl) t 0 HEADER_VERSION c in
  total_length h = len (hdr ++ body) /\
  drop 16 (hdr ++ body) = body /\
  decode_frame (hdr ++ body) mx kind =
    (_validate_stream t kind ≫= fun _ =>
     match t with
     | USER_MESSAGE =>
         _decode_user_message_frame (hdr ++ body) h ≫= fun m => Ok (FUserMessage m)
     | _ => _decode_body h body
     end).
Proof.
  intros -> Hh h. destruct (decode_encode_header t (len body) c mx hdr body) as [Hl Hd];
    [apply len_nonneg|done|].
  assert (total_length h = len (hdr ++ body)) as Ht.
  { rewrite len_app. unfold total_length, h, _HEADER_AFTER_LENGTH_SIZE, COMMON_HEADER_SIZE.
    cbn. unfold len at 2. rewrite Hl. lia. }
  assert (drop 16 (hdr ++ body) = body) as Hdrop
    by (rewrite <- Hl; apply drop_app_length).
  split_and!; [done|done|]. unfold decode_frame. rewrite Hd. cbn [mbind result_bind].
  fold h. rewrite Ht, Z.ltb_irrefl, Hdrop. cbn. done.
Qed.

Lemma decode_encode_generic f mx kind data :
  frame_ok f -> frame_type f <> USER_MESSAGE ->
  _validate_stream (frame_type f) kind = Ok tt ->
  encode_generic f mx = Ok data -> decode_frame data mx kind = Ok f.
Proof.
  intros Hok Ht Hs He. unfold encode_generic in He. inv_run.
  match goal with Hh : encode_common_header _ _ _ _ = Ok ?x |- _ =>
    rename x into hdr; rename Hh into Hhdr end.
  match goal with Hb : _encode_body _ = Ok ?x |- _ =>
    rename x into body; rename Hb into Hbody end.
  destruct (decode_frame_framed _ _ _ _ _ body kind eq_refl Hhdr) as (_ & _ & ->).
  rewrite Hs. cbn [mbind result_bind].
  destruct (frame_type f) eqn:Eft; try done; by apply decode_encode_body.
Qed.
End frames.

(** * The user-message fast path *)

Section fast_path.
Context `{Unicode}.
Open Scope se_scope.

Lemma text_bytes_err v mx e ne e' : _text_bytes v mx e ne = Err e' -> e' = e.
Proof. unfold _text_bytes. repeat case_match; congruence. Qed.

Lemma fast_body_writer f m :
  _text_bytes (um_manifest f) MAX_MANIFEST_BYTES ProtocolValidationError true = Ok m ->
  _encode_body (FUserMessage f) =
    (_uuid (um_association_uid f) ProtocolValidationError ≫= fun au =>
     _uint (um_lane_id f) MAX_U16 ProtocolValidationError 0 ≫= fun li =>
     raise_unless (negb (li =? CONTROL_LANE_ID)) ProtocolValidationError ≫= fun _ =>
     _uint (um_lane_sequence f) MAX_U64 ProtocolValidationError 0 ≫= fun ls =>
     _uuid (um_sender_incarnation_uid f) ProtocolValidationError ≫= fun su =>
     _uuid (um_recipient_incarnation_uid f) ProtocolValidationError ≫= fun ru =>
     _uuid (um_recipient_actor_uid f) ProtocolValidationError ≫= fun ra =>
     _uint (um_serializer_id f) MAX_U32 ProtocolValidationError 0 ≫= fun si =>
     raise_unless (negb (si =? 0)) ProtocolValidationError ≫= fun _ =>
     _uint (len (um_payload f)) MAX_U32 ProtocolValidationError 0 ≫= fun pl =>
     Ok (be_pack 16 au ++ be_pack 2 li ++ be_pack 8 ls ++ be_pack 16 su ++ be_pack 16 ru
         ++ be_pack 16 ra ++ be_pack 4 si ++ be_pack 2 (len m) ++ be_pack 4 pl
         ++ m ++ um_payload f)).
Proof.
  intros Hm. unfold _encode_body. cbn [encode_body_writer]. unfold encode_user_message.
  unfold w_uuid, w_u16, w_u64, w_u32, w_raw, se_bind, se_lift, se_check, _uuid.
  rewrite Hm. pose proof Hm as (_&_&Hlen&_)%text_bytes_inv. pose proof (len_nonneg m).
  rewrite (uint_intro (len m)) by (unfold MAX_MANIFEST_BYTES, MAX_U16 in *; lia).
  unfold _uint, raise_unless.
  repeat (case_match; cbn [mbind result_bind]; try done; simplify_eq).
Qed.

Lemma uuid_err v e e' : _uuid v e = Err e' -> e' = e.
Proof. unfold _uuid. case_match; congruence. Qed.
Lemma uint_err v mx e mn e' : _uint v mx e mn = Err e' -> e' = e.
Proof. unfold _uint. case_match; congruence. Qed.
Lemma correlation_err t c e e' : _validate_correlation t c e = Err e' -> e' = e.
Proof.
  unfold _validate_correlation. destruct (_uint _ _ _ _) eqn:E; [|intros [= <-]].
  - repeat case_match; congruence.
  - by eapply uint_err.
Qed.

(** When the manifest is refused, so is the frame, whatever comes before. *)
Lemma body_manifest_err f e :
  _text_bytes (um_manifest f) MAX_MANIFEST_BYTES ProtocolValidationError true = Err e ->
  _encode_body (FUserMessage f) = Err ProtocolValidationError.
Proof.
  intros Hm. pose proof (text_bytes_err _ _ _ _ _ Hm) as ->.
  unfold _encode_body. cbn [encode_body_writer]. unfold encode_user_message.
  unfold w_uuid, w_u16, w_u64, w_u32, w_raw, se_bind, se_lift, se_check, _uuid, _uint.
  rewrite Hm. repeat (case_match; try done; simplify_eq); done.
Qed.

Lemma len_fixed au li ls su ru ra si ml pl (tail : bytes) :
  len (be_pack 16 au ++ be_pack 2 li ++ be_pack 8 ls ++ be_pack 16 su ++ be_pack 16 ru
       ++ be_pack 16 ra ++ be_pack 4 si ++ be_pack 2 ml ++ be_pack 4 pl ++ tail)
  = _USER_MESSAGE_FIXED_BODY_SIZE + len tail.
Proof.
  rewrite !len_app. unfold len. rewrite !length_be_pack.
  unfold _USER_MESSAGE_FIXED_BODY_SIZE. lia.
Qed.

Definition fits_frame_length (f : UserMessage) : Prop :=
  forall m, _text_bytes (um_manifest f) MAX_MANIFEST_BYTES ProtocolValidationError true = Ok m ->
    _USER_MESSAGE_FIXED_BODY_SIZE + len m + len (um_payload f)
      <= MAX_U32 - _HEADER_AFTER_LENGTH_SIZE.

(** Run the shared field checks of both encoders; every refusal is a
    [ProtocolValidationError]. *)
Ltac field_checks :=
  repeat match goal with
  | |- context [_uuid ?v ?e] =>
      let E := fresh "E" in
      destruct (_uuid v e) eqn:E; cbn [mbind result_bind];
      [|first [done | by rewrite (uuid_err _ _ _ E)]]
  | |- context [_uint ?v ?mx ?e 0] =>
      let E := fresh "E" in
      destruct (_uint v mx e 0) eqn:E; cbn [mbind result_bind];
      [|first [done | by rewrite (uint_err _ _ _ _ _ E)]]
  | |- context [raise_unless ?c ?e] =>
      destruct c; cbn [raise_unless mbind result_bind]; [|done]
  end.

Lemma zero_correlation_id c u :
  _validate_correlation USER_MESSAGE c ProtocolValidationError = Ok u -> c = 0.
Proof.
  unfold _validate_correlation. destruct (_uint c _ _ _) as [c'|] eqn:E; [|done].
  apply uint_inv in E as [-> _]. cbn. destruct (Z.eqb_spec c 0); [done|]. done.
Qed.

Lemma fast_encode_generic f mx :
  fits_frame_length f ->
  _encode_user_message_frame f mx = encode_generic (FUserMessage f) mx.
Proof.
  intros Hfit. unfold _encode_user_message_frame, encode_generic.
  cbn [frame_type correlation_id]. unfold encode_common_header.
  destruct (_text_bytes (um_manifest f) _ _ _) as [m|e] eqn:Hm.
  2:{ rewrite (body_manifest_err f e Hm), (text_bytes_err _ _ _ _ _ Hm).
      cbn [mbind result_bind].
      destruct (_validate_correlation _ _ _) eqn:Ec; cbn [mbind result_bind];
        [|by rewrite (correlation_err _ _ _ _ Ec)].
      field_checks; done. }
  specialize (Hfit m Hm). rewrite (fast_body_writer f m Hm).
  pose proof (len_nonneg m). pose proof (len_nonneg (um_payload f)).
  destruct (_validate_correlation _ _ _) as [u|e] eqn:Ec; cbn [mbind result_bind].
  2:{ rewrite (correlation_err _ _ _ _ Ec). field_checks; done. }
  apply zero_correlation_id in Ec as Hc0.
  field_checks.
  all: repeat match goal with
       | HE : _uint _ _ _ _ = Ok _ |- _ => apply uint_inv in HE as [-> ?]
       | HE : _uuid _ _ = Ok _ |- _ => apply uuid_inv in HE as [-> ?]
       end.
  all: rewrite ?len_fixed, ?len_app in *.
  rewrite (uint_intro (_USER_MESSAGE_FIXED_BODY_SIZE + _)).
  2:{ unfold _USER_MESSAGE_FIXED_BODY_SIZE in *. lia. }
  rewrite Hc0. cbn [mbind result_bind].
  destruct (_effective_limit USER_MESSAGE mx) as [lim|]; cbn [mbind result_bind]; [|done].
  replace (_HEADER_AFTER_LENGTH_SIZE
           + (_USER_MESSAGE_FIXED_BODY_SIZE + (len m + len (um_payload f))))
    with (user_message_prefix_size + len m + len (um_payload f) - 4)
    by (unfold user_message_prefix_size, _HEADER_AFTER_LENGTH_SIZE; lia).
  rewrite Z.sub_add.
  destruct (_ <=? lim); cbn [raise_unless mbind result_bind]; [|done].
  unfold pack_user_message_prefix. by rewrite <- !app_assoc.
Qed.

(** A message too long for the 32-bit length field is refused by both. *)
Lemma oversize_refused f mx :
  ~ fits_frame_length f ->
  is_err (_encode_user_message_frame f mx) /\ is_err (encode_generic (FUserMessage f) mx).
Proof.
  intros Hbig.
  destruct (_text_bytes (um_manifest f) MAX_MANIFEST_BYTES ProtocolValidationError true)
    as [m|e] eqn:Hm; [|exfalso; apply Hbig; unfold fits_frame_length; by rewrite Hm].
  assert (MAX_U32 - _HEADER_AFTER_LENGTH_SIZE
          < _USER_MESSAGE_FIXED_BODY_SIZE + len m + len (um_payload f)) as Hlong.
  { apply Z.nle_gt. intros Hle. apply Hbig. unfold fits_frame_length. rewrite Hm.
    by intros ? [= <-]. }
  split.
  - destruct (_encode_user_message_frame f mx) eqn:E; [|done]. exfalso.
    unfold _encode_user_message_frame in E. inv_run.
    match goal with Ht : _text_bytes _ _ _ _ = Ok ?x |- _ =>
      assert (x = m) as -> by congruence end.
    match goal with Hl : _effective_limit _ _ = Ok _ |- _ =>
      apply effective_limit_inv in Hl end.
    match goal with Hu : _uint (len _) _ _ _ = Ok _ |- _ => apply uint_inv in Hu as [-> ?] end.
    unfold user_message_prefix_size, _HEADER_AFTER_LENGTH_SIZE, COMMON_HEADER_SIZE in *. lia.
  - destruct (encode_generic _ mx) eqn:E; [|done]. exfalso.
    unfold encode_generic in E. destruct (_encode_body (FUserMessage f)) as [body|] eqn:Hb; [|done].
    cbn [mbind result_bind] in E. unfold encode_common_header in E. inv_run.
    match goal with Hu : _uint (len body) _ _ _ = Ok _ |- _ => apply uint_inv in Hu as [_ Hu'] end.
    assert (len body = _USER_MESSAGE_FIXED_BODY_SIZE + len m + len (um_payload f)) as Hlb;
      [|lia].
    rewrite (fast_body_writer f m Hm) in Hb. clear -Hb.
    repeat apply bind_ok in Hb as (? & _ & Hb). apply Ok_inj in Hb as <-.
    by rewrite len_fixed, len_app, Z.add_assoc.
Qed.

(** * The user-message decoding fast path *)

Lemma r_take_err n buf e : r_take n buf = Err e -> e = MalformedFrameError.
Proof. unfold r_take. case_match; congruence. Qed.

Lemma decode_text_err bs mx ne e : decode_text bs mx ne = Err e -> e = MalformedFrameError.
Proof.
  unfold decode_text. destruct (utf8_decode bs); [|congruence].
  destruct (_text_bytes _ _ _ _) eqn:E; [done|]. intros [= <-]. by eapply text_bytes_err.
Qed.

(** Every refusal of the generic user-message reader is a malformed frame. *)
Lemma decode_user_message_err c buf e :
  decode_user_message c buf = Err e -> e = MalformedFrameError.
Proof.
  assert (forall A B (m : SE bytes A) (k : A -> SE bytes B),
    (forall s e, m s = Err e -> e = MalformedFrameError) ->
    (forall a s e, k a s = Err e -> e = MalformedFrameError) ->
    forall s e, se_bind m k s = Err e -> e = MalformedFrameError) as Hbind.
  { intros A B m k H1 H2 s e'. unfold se_bind. destruct (m s) as [[a s']|] eqn:E; [apply H2|].
    intros [= <-]. by eapply H1. }
  assert (forall A (r : result A), (forall e, r = Err e -> e = MalformedFrameError) ->
    forall s e, se_lift (S := bytes) r s = Err e -> e = MalformedFrameError) as Hlift.
  { intros A r Hr s e'. unfold se_lift. destruct r; [done|]. intros [= <-]. by apply Hr. }
  revert buf e. unfold decode_user_message, r_u16, r_u32, r_u64, r_uuid, r_raw.
  repeat first
    [ done
    | (intros ? ?; apply r_take_err)
    | (intros ? ?; unfold se_check; case_match; congruence)
    | apply Hlift; intros ?; first [apply uuid_err | apply decode_text_err]
    | apply Hbind; [|intros ?] ].
Qed.

Lemma r_take_inv n buf a s :
  0 <= n -> r_take n buf = Ok (a, s) -> buf = a ++ s /\ len a = n.
Proof.
  intros Hn. unfold r_take. case_match eqn:E; [done|]. intros [= <- <-].
  rewrite take_drop. split; [done|]. unfold len in *. rewrite length_take.
  apply Z.ltb_ge in E. lia.
Qed.

(** A successful read consumed the fixed part. *)
Lemma decode_user_message_len c buf f s :
  decode_user_message c buf = Ok (f, s) -> _USER_MESSAGE_FIXED_BODY_SIZE <= len buf.
Proof.
  unfold decode_user_message, r_u16, r_u32, r_u64, r_uuid. intros Hr. inv_run.
  repeat match goal with Ht : r_take (Zpos _) _ = Ok _ |- _ =>
    apply r_take_inv in Ht as [-> ?]; [|lia] end.
  rewrite !len_app.
  match goal with |- context [len ?x + 0] => idtac | _ => idtac end.
  unfold _USER_MESSAGE_FIXED_BODY_SIZE.
  repeat match goal with |- context [len ?x] =>
    lazymatch goal with _ : 0 <= len x |- _ => fail | _ => pose proof (len_nonneg x) end end.
  lia.
Qed.

(** Cut a prefix of known length off a byte string. *)
Lemma cut_prefix n (buf : bytes) :
  (n <= length buf)%nat -> exists a s, buf = a ++ s /\ length a = n.
Proof.
  intros Hn. exists (take n buf), (drop n buf). rewrite take_drop. split; [done|].
  rewrite length_take. lia.
Qed.

(** The fixed part of a user-message body, cut into its nine fields. *)
Lemma cut_fixed (body : bytes) :
  _USER_MESSAGE_FIXED_BODY_SIZE <= len body ->
  exists b1 b2 b3 b4 b5 b6 b7 b8 b9 rest,
    body = b1 ++ b2 ++ b3 ++ b4 ++ b5 ++ b6 ++ b7 ++ b8 ++ b9 ++ rest /\
    length b1 = 16%nat /\ length b2 = 2%nat /\ length b3 = 8%nat /\ length b4 = 16%nat /\
    length b5 = 16%nat /\ length b6 = 16%nat /\ length b7 = 4%nat /\ length b8 = 2%nat /\
    length b9 = 4%nat.
Proof.
  unfold _USER_MESSAGE_FIXED_BODY_SIZE, len. intros Hl.
  destruct (cut_prefix 16 body) as (b1 & r1 & -> & H1); [lia|]. rewrite length_app in Hl.
  destruct (cut_prefix 2 r1) as (b2 & r2 & -> & H2); [lia|]. rewrite length_app in Hl.
  destruct (cut_prefix 8 r2) as (b3 & r3 & -> & H3); [lia|]. rewrite length_app in Hl.
  destruct (cut_prefix 16 r3) as (b4 & r4 & -> & H4); [lia|]. rewrite length_app in Hl.
  destruct (cut_prefix 16 r4) as (b5 & r5 & -> & H5); [lia|]. rewrite length_app in Hl.
  destruct (cut_prefix 16 r5) as (b6 & r6 & -> & H6); [lia|]. rewrite length_app in Hl.
  destruct (cut_prefix 4 r6) as (b7 & r7 & -> & H7); [lia|]. rewrite length_app in Hl.
  destruct (cut_prefix 2 r7) as (b8 & r8 & -> & H8); [lia|]. rewrite length_app in Hl.
  destruct (cut_prefix 4 r8) as (b9 & r9 & -> & H9); [lia|].
  by exists b1, b2, b3, b4, b5, b6, b7, b8, b9, r9.
Qed.

Lemma slice_skip i j (xs ys : bytes) :
  (length xs <= i)%nat -> slice i j (xs ++ ys) = slice (i - length xs) (j - length xs) ys.
Proof.
  intros Hl. unfold slice. rewrite drop_app_ge by done. f_equal. lia.
Qed.

Lemma slice_here i j (ys zs : bytes) :
  i = 0%nat -> length ys = j -> slice i j (ys ++ zs) = ys.
Proof. intros -> Hy. by apply (slice_mid 0 j []); [|rewrite Nat.sub_0_r]. Qed.

(** The checks both decoders make on the nine fields [b1..b9] of the fixed part,
    followed by [rest]. *)
Definition check_fields (c : Z) (b1 b2 b3 b4 b5 b6 b7 b8 b9 rest : bytes) :
    result UserMessage :=
  _uuid (be_unpack b1) MalformedFrameError ≫= fun au =>
  raise_unless (negb (be_unpack b2 =? CONTROL_LANE_ID)) MalformedFrameError ≫= fun _ =>
  _uuid (be_unpack b4) MalformedFrameError ≫= fun su =>
  _uuid (be_unpack b5) MalformedFrameError ≫= fun ru =>
  _uuid (be_unpack b6) MalformedFrameError ≫= fun ra =>
  raise_unless (negb (be_unpack b7 =? 0)) MalformedFrameError ≫= fun _ =>
  raise_unless (be_unpack b8 <=? MAX_MANIFEST_BYTES) MalformedFrameError ≫= fun _ =>
  raise_unless (be_unpack b8 + be_unpack b9 =? len rest) MalformedFrameError ≫= fun _ =>
  decode_text (take (Z.to_nat (be_unpack b8)) rest) MAX_MANIFEST_BYTES true ≫= fun mf =>
  Ok (mkUserMessage au (be_unpack b2) (be_unpack b3) su ru ra (be_unpack b7) mf
        (drop (Z.to_nat (be_unpack b8)) rest) c).

Ltac take_field :=
  match goal with |- context [r_take ?n (?b ++ ?t)] =>
    rewrite (r_take_app b t n) by (unfold len; lia) end.
Ltac test_field :=
  match goal with
  | |- context [_uuid ?v ?e] =>
      let E := fresh "E" in
      destruct (_uuid v e) eqn:E; cbn [mbind result_bind];
      [|by rewrite ?(uuid_err _ _ _ E)]
  | |- context [raise_unless ?c ?e] =>
      destruct c eqn:?; cbn [raise_unless mbind result_bind]; [|done]
  end.

Section fields.
Context (b1 b2 b3 b4 b5 b6 b7 b8 b9 rest : bytes).
Context (L1 : length b1 = 16%nat) (L2 : length b2 = 2%nat) (L3 : length b3 = 8%nat)
  (L4 : length b4 = 16%nat) (L5 : length b5 = 16%nat) (L6 : length b6 = 16%nat)
  (L7 : length b7 = 4%nat) (L8 : length b8 = 2%nat) (L9 : length b9 = 4%nat).
Let body := b1 ++ b2 ++ b3 ++ b4 ++ b5 ++ b6 ++ b7 ++ b8 ++ b9 ++ rest.

Lemma len_fields : len body = _USER_MESSAGE_FIXED_BODY_SIZE + len rest.
Proof. unfold body. rewrite !len_app. unfold _USER_MESSAGE_FIXED_BODY_SIZE, len. lia. Qed.

Lemma generic_fields c :
  0 <= be_unpack b8 -> 0 <= be_unpack b9 ->
  match decode_user_message c body with
  | Ok (f, s) => if bool_decide (s = []) then Ok f else Err MalformedFrameError
  | Err e => Err e
  end = check_fields c b1 b2 b3 b4 b5 b6 b7 b8 b9 rest.
Proof.
  intros H8 H9. unfold body, decode_user_message, check_fields, r_uuid, r_u16, r_u32, r_u64,
    r_raw, se_bind, se_lift, se_check, se_ret.
  take_field. test_field. take_field. test_field. do 2 take_field. test_field.
  take_field. test_field. take_field. test_field. take_field. test_field.
  take_field. test_field. take_field. test_field. inv_run.
  unfold r_take at 1. rewrite (proj2 (Z.ltb_ge (len rest) (be_unpack b8))) by lia.
  destruct (decode_text _ _ _) as [mf|e] eqn:Ed; cbn [mbind result_bind]; [|done].
  assert (len (drop (Z.to_nat (be_unpack b8)) rest) = be_unpack b9) as Hp.
  { unfold len in *. rewrite length_drop. lia. }
  rewrite <- (app_nil_r (drop (Z.to_nat (be_unpack b8)) rest)) at 1.
  by rewrite r_take_app.
Qed.

Lemma fast_fields data h :
  drop 16 data = body -> body_length h = len body ->
  _decode_user_message_frame data h =
    check_fields (fh_correlation_id h) b1 b2 b3 b4 b5 b6 b7 b8 b9 rest.
Proof.
  intros Hb Hl. unfold _decode_user_message_frame, check_fields.
  rewrite Hl, len_fields. assert (forall n, drop (100 + n) data = drop n rest) as Hdrop.
  { intros n. replace (100 + n)%nat with (16 + (84 + n))%nat by lia.
    rewrite <- drop_drop, Hb. unfold body.
    rewrite !app_assoc, drop_app_ge; rewrite !length_app; [|lia]. f_equal. lia. }
  change (Z.to_nat (COMMON_HEADER_SIZE + _USER_MESSAGE_FIXED_BODY_SIZE)) with 100%nat.
  assert (forall n, slice 100 (100 + n) data = take n rest) as Htake.
  { intros n. unfold slice. rewrite Nat.add_sub'. pose proof (Hdrop 0%nat) as Hd0.
    rewrite Nat.add_0_r in Hd0. by rewrite Hd0. }
  rewrite Htake, Hdrop, Hb, len_fields.
  rewrite (proj2 (Z.ltb_ge _ _)) by (pose proof (len_nonneg rest); lia). unfold body.
  repeat match goal with |- context [slice ?i ?j (b1 ++ ?t)] =>
    let E := fresh "E" in
    eassert (slice i j (b1 ++ t) = _) as E
      by (repeat (rewrite slice_skip by lia); apply slice_here; lia);
    rewrite E; clear E end.
  replace (_USER_MESSAGE_FIXED_BODY_SIZE + be_unpack b8 + be_unpack b9 =?
           _USER_MESSAGE_FIXED_BODY_SIZE + len rest)
    with (be_unpack b8 + be_unpack b9 =? len rest)
    by (apply eq_true_iff_eq; rewrite !Z.eqb_eq; lia).
  done.
Qed.
End fields.

Lemma generic_user_message h body :
  fh_frame_type h = USER_MESSAGE ->
  _decode_body h body =
    (match decode_user_message (fh_correlation_id h) body with
     | Ok (f, s) => if bool_decide (s = []) then Ok f else Err MalformedFrameError
     | Err e => Err e
     end ≫= fun m => Ok (FUserMessage m)).
Proof.
  intros Ht. unfold _decode_body. rewrite Ht. cbn [decode_body_reader].
  unfold se_bind, se_ret, r_finish.
  destruct (decode_user_message _ body) as [[f s]|e]; [|done]. by case_bool_decide.
Qed.

Lemma fast_decode_generic data h :
  bytes_ok data -> fh_frame_type h = USER_MESSAGE -> len data = total_length h ->
  COMMON_HEADER_SIZE <= len data ->
  (_decode_user_message_frame data h ≫= fun m => Ok (FUserMessage m)) =
    _decode_body h (drop 16 data).
Proof.
  intros Hok Ht Hlen H16. rewrite generic_user_message by done. f_equal.
  assert (body_length h = len (drop 16 data)) as Hbl.
  { unfold total_length, body_length, _HEADER_AFTER_LENGTH_SIZE, COMMON_HEADER_SIZE, len in *.
    rewrite length_drop. lia. }
  destruct (Z.ltb_spec (len (drop 16 data)) _USER_MESSAGE_FIXED_BODY_SIZE) as [Hs|Hs].
  { unfold _decode_user_message_frame. rewrite (proj2 (Z.ltb_lt _ _)) by done.
    destruct (decode_user_message _ (drop 16 data)) as [[f s]|e] eqn:E.
    - apply decode_user_message_len in E. lia.
    - by rewrite (decode_user_message_err _ _ _ E). }
  assert (Forall (fun b => 0 <= b < 256) (drop 16 data)) as Hbok by by apply Forall_drop.
  destruct (cut_fixed _ Hs) as (b1&b2&b3&b4&b5&b6&b7&b8&b9&rest&Hb&L1&L2&L3&L4&L5&L6&L7&L8&L9).
  rewrite Hb in Hbok. do 9 apply Forall_app in Hbok as [? Hbok].
  rewrite (fast_fields b1 b2 b3 b4 b5 b6 b7 b8 b9 rest) by (done || by rewrite <- Hb).
  rewrite Hb. symmetry. apply generic_fields; try done; by apply be_unpack_bound.
Qed.
End fast_path.

(** * Round trip *)

Section round_trip.
Context `{Unicode}.

Lemma pack_header_ok a b c d e : bytes_ok (pack_header a b c d e).
Proof. unfold pack_header, bytes_ok. rewrite !Forall_app. split_and!; apply be_pack_ok. Qed.

Lemma text_bytes_ok v mx e ne bs :
  str_ok v -> _text_bytes v mx e ne = Ok bs -> bytes_ok bs.
Proof.
  intros Hv (_ & He & _)%text_bytes_inv.
  destruct (utf8_encode_scalar v bs Hv He) as [? ->]. by apply utf8_bytes_ok.
Qed.

Lemma user_body_ok f body :
  frame_ok (FUserMessage f) -> _encode_body (FUserMessage f) = Ok body -> bytes_ok body.
Proof.
  intros (_ & _ & _ & _ & Hm & Hp) Hb.
  destruct (_text_bytes (um_manifest f) MAX_MANIFEST_BYTES ProtocolValidationError true)
    as [m|e] eqn:Et; [|by rewrite (body_manifest_err f e Et) in Hb].
  rewrite (fast_body_writer f m Et) in Hb.
  repeat apply bind_ok in Hb as (? & _ & Hb). apply Ok_inj in Hb as <-.
  unfold bytes_ok. rewrite !Forall_app.
  split_and!; try apply be_pack_ok; [by eapply text_bytes_ok|done].
Qed.

Lemma encode_user_generic f mx data :
  _encode_user_message_frame f mx = Ok data <-> encode_generic (FUserMessage f) mx = Ok data.
Proof.
  destruct (_text_bytes (um_manifest f) MAX_MANIFEST_BYTES ProtocolValidationError true)
    as [m|e] eqn:Et.
  2:{ rewrite fast_encode_generic; [done|]. intros m Hm. congruence. }
  destruct (Z.le_gt_cases (_USER_MESSAGE_FIXED_BODY_SIZE + len m + len (um_payload f))
              (MAX_U32 - _HEADER_AFTER_LENGTH_SIZE)) as [Hle|Hgt].
  { rewrite fast_encode_generic; [done|]. intros m' Hm. by assert (m' = m) as -> by congruence. }
  destruct (oversize_refused f mx) as [H1 H2].
  { intros Hf. specialize (Hf m Et). lia. }
  destruct (_encode_user_message_frame f mx), (encode_generic (FUserMessage f) mx); done.
Qed.

Lemma decode_encode_user f mx kind data :
  frame_ok (FUserMessage f) -> _validate_stream USER_MESSAGE kind = Ok tt ->
  _encode_user_message_frame f mx = Ok data ->
  decode_frame data mx kind = Ok (FUserMessage f).
Proof.
  intros Hok Hs He. apply encode_user_generic in He. unfold encode_generic in He.
  apply bind_ok in He as (body & Hbody & He). apply bind_ok in He as (hdr & Hhdr & He).
  apply Ok_inj in He as <-. pose proof (user_body_ok f body Hok Hbody) as Hbok.
  destruct (decode_frame_framed _ _ _ _ _ body kind eq_refl Hhdr) as (Ht & Hd & ->).
  assert (exists a b c d e, hdr = pack_header a b c d e) as (a & b & c & d & e & ->).
  { unfold encode_common_header in Hhdr. inv_run. by eexists _, _, _, _, _. }
  cbn [frame_type] in *. rewrite Hs. cbn [mbind result_bind].
  rewrite fast_decode_generic; try done.
  - rewrite Hd. by apply decode_encode_body.
  - apply Forall_app. split; [apply pack_header_ok|done].
  - rewrite len_app. unfold len at 1. rewrite length_pack_header.
    pose proof (len_nonneg body). unfold COMMON_HEADER_SIZE. lia.
Qed.

Lemma validate_stream_unit t k u : _validate_stream t k = Ok u -> _validate_stream t k = Ok tt.
Proof. by destruct u. Qed.

(** C1.  Round trip of the wire codec: whenever [encode_frame] accepts a frame
    (built from well-formed Python values) under a frame limit and a stream
    kind, [decode_frame] of the bytes under the same limit and kind returns
    exactly that frame. *)
Theorem decode_encode_frame frame mx kind data :
  frame_ok frame -> encode_frame frame mx kind = Ok data ->
  decode_frame data mx kind = Ok frame.
Proof.
  intros Hok He. unfold encode_frame in He. apply bind_ok in He as (u & Hs & He).
  apply validate_stream_unit in Hs.
  destruct (decide (frame_type frame = USER_MESSAGE)) as [Ht|Ht].
  - destruct frame; try done. by apply decode_encode_user.
  - apply decode_encode_generic; try done. by destruct frame.
Qed.

(** The user-message encoder, which packs the whole prefix with one
    [struct] call, accepts exactly the messages the generic body and header
    encoders accept and produces the same bytes; when the message fits the
    32-bit frame length the two agree on refusals as well. *)
Theorem user_message_fast_encode f mx :
  (forall data, _encode_user_message_frame f mx = Ok data <->
                encode_generic (FUserMessage f) mx = Ok data) /\
  (fits_frame_length f ->
   _encode_user_message_frame f mx = encode_generic (FUserMessage f) mx).
Proof. split; [intros data; apply encode_user_generic|apply fast_encode_generic]. Qed.

(** C20.  The user-message decoder, which unpacks the fixed part with one [struct]
    call, returns what the generic body reader returns on every input whose
    length matches its header: the same message, or the same refusal. *)
Theorem user_message_fast_decode data h :
  bytes_ok data -> fh_frame_type h = USER_MESSAGE -> len data = total_length h ->
  COMMON_HEADER_SIZE <= len data ->
  (_decode_user_message_frame data h ≫= fun m => Ok (FUserMessage m)) =
    _decode_body h (drop 16 data).
Proof. apply fast_decode_generic. Qed.
End round_trip.

(** * Concrete instances *)

Module Examples.

(** Unicode restricted to ASCII, where every string is in normal form. *)
#[local] Instance ascii_unicode : Unicode := isascii.

Definition work : pystr := lit "work/v1".

Definition work_descriptor : SerializerDescriptor :=
  mkDescriptor 1 (lit "work-contracts") 1 0 {[ work ]} {[ work; lit "work/v2" ]}.

Definition example_limits : Limits := mkLimits 65536 4 100 1000000 100 1000000.

Definition example_hello : Hello :=
  mkHello PROTOCOL_MAJOR PROTOCOL_MINOR INITIATOR (lit "gateway-system") 7 9
    (lit "127.0.0.1") 7101 example_limits [work_descriptor] [lit "trace"] 0.

Definition example_message : UserMessage :=
  mkUserMessage 9 3 42 7 8 5 1 work [1; 2; 255] 0.

Lemma work_descriptor_ok : descriptor_ok work_descriptor.
Proof.
  split.
  - by_compute.
  - intros m Hm. cbn [work_descriptor sd_readable_manifests] in Hm.
    apply elem_of_singleton in Hm as ->. by_compute.
  - intros m Hm. cbn [work_descriptor sd_writable_manifests] in Hm.
    apply elem_of_union in Hm as [->%elem_of_singleton| ->%elem_of_singleton]; by_compute.
  - vm_compute. reflexivity.
Qed.

Lemma example_hello_ok : frame_ok (FHello example_hello).
Proof.
  unfold frame_ok. split_and!; try by_compute.
  apply Forall_singleton, work_descriptor_ok.
Qed.

Lemma example_message_ok : frame_ok (FUserMessage example_message).
Proof. unfold frame_ok. split_and!; by_compute. Qed.

(** The round trip of a HELLO and of a user message. *)
Lemma decode_encode_frame_witness :
  (exists data, encode_frame (FHello example_hello) 65536 (Some CONTROL) = Ok data /\
     decode_frame data 65536 (Some CONTROL) = Ok (FHello example_hello)) /\
  (exists data, encode_frame (FUserMessage example_message) 65536 (Some DELIVERY_LANE)
       = Ok data /\
     decode_frame data 65536 (Some DELIVERY_LANE) = Ok (FUserMessage example_message)).
Proof.
  split; eexists.
  - match goal with |- ?P /\ _ => assert P as HE by (vm_compute; reflexivity) end.
    split; [exact HE|]. exact (decode_encode_frame _ _ _ _ example_hello_ok HE).
  - match goal with |- ?P /\ _ => assert P as HE by (vm_compute; reflexivity) end.
    split; [exact HE|]. exact (decode_encode_frame _ _ _ _ example_message_ok HE).
Defined.

Lemma user_message_fast_encode_witness :
  fits_frame_length example_message /\
  _encode_user_message_frame example_message 65536 =
    encode_generic (FUserMessage example_message) 65536.
Proof.
  assert (fits_frame_length example_message) as Hf.
  { intros m Hm. vm_compute in Hm. injection Hm as <-. vm_compute. discriminate. }
  split; [exact Hf|]. exact (proj2 (user_message_fast_encode _ _) Hf).
Defined.

Lemma user_message_fast_decode_witness :
  exists data h, len data = total_length h /\
    (_decode_user_message_frame data h ≫= fun m => Ok (FUserMessage m)) =
      _decode_body h (drop 16 data).
Proof.
  exists (pack_header 12 0x20 0 1 0), (mkHeader 12 USER_MESSAGE 0 1 0).
  split; [reflexivity|]. apply user_message_fast_decode.
  - apply pack_header_ok.
  - reflexivity.
  - reflexivity.
  - vm_compute. discriminate.
Defined.

End Examples.
