(* ===== verification/Mailbox.v ===== *)
(** One actor's mailbox: [movie/mailbox/default.py], [DefaultMailbox].

    Every [with self._lock:] block of the source is one definition below, a
    function of the mailbox record (and of what the block reads from the actor);
    everything between two blocks runs outside the lock.  [step] interleaves the
    blocks of any number of sender threads ([_enqueue]) and dispatcher workers
    ([__call__], [_run_batch], [_recover_after_failure]): a thread is the
    program point it has reached.  The dispatcher accepts or refuses an
    activation nondeterministically, and [dispatch_system], which uses capacity
    reserved per actor, accepts it or raises (a dispatcher that was stopped
    does).  A stop of the user queue happens inside the
    actor's own callback, as in [LocalActorContext._invoke_system]; a close may
    happen at any time. *)

From stdpp Require Import base list numbers.
From S2P Require Import Prelude.

Inductive MailboxAdmissionResult := ACCEPTED | STOPPING | FULL.

Section mailbox.
Context {M : Type}.

(** A queued element: a bare message, or an [_Entry] object, whose identity
    matters when its activation is refused. *)
Inductive item :=
  | Plain (m : M)
  | Entry (id : nat) (m : M).

Definition item_message (i : item) : M :=
  match i with Plain m => m | Entry _ m => m end.

Definition is_entry (id : nat) (i : item) : bool :=
  match i with Plain _ => false | Entry id' _ => Nat.eqb id id' end.

Record mailbox := mkMailbox {
  capacity : Z;
  throughput : Z;
  messages : list item;
  system_messages : list item;
  in_flight_user_messages : Z;
  scheduled : bool;
  running : bool;
  inline_run_requested : bool;
  accepting_user_messages : bool;
  closed : bool;
  next_entry : nat;
}.

(** [DefaultMailbox.__init__]. *)
Definition new_mailbox (capacity throughput : Z) : result mailbox :=
  raise_unless ((0 <? capacity) && (0 <? throughput)) ValueError ≫= fun _ =>
  Ok (mkMailbox capacity throughput [] [] 0 false false false true false 0).

Definition set_messages (b : mailbox) (q : list item) : mailbox :=
  mkMailbox (capacity b) (throughput b) q (system_messages b)
    (in_flight_user_messages b) (scheduled b) (running b) (inline_run_requested b)
    (accepting_user_messages b) (closed b) (next_entry b).
Definition set_system_messages (b : mailbox) (q : list item) : mailbox :=
  mkMailbox (capacity b) (throughput b) (messages b) q
    (in_flight_user_messages b) (scheduled b) (running b) (inline_run_requested b)
    (accepting_user_messages b) (closed b) (next_entry b).
Definition set_in_flight (b : mailbox) (n : Z) : mailbox :=
  mkMailbox (capacity b) (throughput b) (messages b) (system_messages b) n
    (scheduled b) (running b) (inline_run_requested b)
    (accepting_user_messages b) (closed b) (next_entry b).
Definition set_scheduled (b : mailbox) (v : bool) : mailbox :=
  mkMailbox (capacity b) (throughput b) (messages b) (system_messages b)
    (in_flight_user_messages b) v (running b) (inline_run_requested b)
    (accepting_user_messages b) (closed b) (next_entry b).
Definition set_running (b : mailbox) (v : bool) : mailbox :=
  mkMailbox (capacity b) (throughput b) (messages b) (system_messages b)
    (in_flight_user_messages b) (scheduled b) v (inline_run_requested b)
    (accepting_user_messages b) (closed b) (next_entry b).
Definition set_inline (b : mailbox) (v : bool) : mailbox :=
  mkMailbox (capacity b) (throughput b) (messages b) (system_messages b)
    (in_flight_user_messages b) (scheduled b) (running b) v
    (accepting_user_messages b) (closed b) (next_entry b).
Definition set_accepting (b : mailbox) (v : bool) : mailbox :=
  mkMailbox (capacity b) (throughput b) (messages b) (system_messages b)
    (in_flight_user_messages b) (scheduled b) (running b) (inline_run_requested b)
    v (closed b) (next_entry b).
Definition set_closed (b : mailbox) (v : bool) : mailbox :=
  mkMailbox (capacity b) (throughput b) (messages b) (system_messages b)
    (in_flight_user_messages b) (scheduled b) (running b) (inline_run_requested b)
    (accepting_user_messages b) v (next_entry b).
Definition fresh_entry (b : mailbox) : mailbox :=
  mkMailbox (capacity b) (throughput b) (messages b) (system_messages b)
    (in_flight_user_messages b) (scheduled b) (running b) (inline_run_requested b)
    (accepting_user_messages b) (closed b) (S (next_entry b)).

(** [target] is [self._messages] or [self._system_messages]. *)
Definition target (user : bool) (b : mailbox) : list item :=
  if user then messages b else system_messages b.
Definition set_target (user : bool) (b : mailbox) (q : list item) : mailbox :=
  if user then set_messages b q else set_system_messages b q.

Definition no_work (b : mailbox) : bool :=
  match system_messages b, messages b with [], [] => true | _, _ => false end.

(** The stopping conditions of [_run_batch]: nothing queued, or only user
    messages of an actor that cannot process them. *)
Definition nothing_to_run (can_process : bool) (b : mailbox) : bool :=
  no_work b ||
  (match system_messages b with [] => true | _ => false end && negb can_process).

(** * Lock-protected blocks *)

Inductive enqueue_outcome :=
  | Returned (r : MailboxAdmissionResult)
  | Raised (e : exn)
  | MustDispatch (id : nat).

(** The first block of [_enqueue]. *)
Definition enqueue_locked (can_process user report_full : bool) (m : M) (b : mailbox) :
    mailbox * enqueue_outcome :=
  if closed b || (user && negb (accepting_user_messages b)) then (b, Returned STOPPING)
  else if user && (capacity b <=? len (messages b) + in_flight_user_messages b) then
    (b, if report_full then Returned FULL else Raised MailboxCapacityExceeded)
  else if scheduled b || (user && negb can_process) then
    (set_target user b (target user b ++ [Plain m]), Returned ACCEPTED)
  else
    let id := next_entry b in
    (set_scheduled
       (set_target user (fresh_entry b) (target user b ++ [Entry id m])) true,
     MustDispatch id).

(** [target.remove(entry)]. *)
Fixpoint remove_entry (id : nat) (q : list item) : list item :=
  match q with
  | [] => []
  | i :: q' => if is_entry id i then q' else i :: remove_entry id q'
  end.

(** The block of [_enqueue] after a refused activation:
    [(mailbox, lifecycle_accepted, publish_fallback)]. *)
Definition enqueue_refused_locked (user : bool) (id : nat) (b : mailbox) :
    mailbox * bool * bool :=
  let queued := existsb (is_entry id) (target user b) in
  let b1 := if queued && user
            then set_target user b (remove_entry id (target user b))
            else b in
  let lifecycle_accepted := queued && negb user in
  if queued && negb (no_work b1) then (set_scheduled b1 true, lifecycle_accepted, true)
  else if queued then (set_scheduled b1 false, lifecycle_accepted, false)
  else (b1, lifecycle_accepted, false).

(** [close]. *)
Definition close (b : mailbox) : mailbox :=
  set_in_flight
    (set_system_messages (set_messages (set_closed (set_accepting b false) true) []) []) 0.

(** [stop_user_messages]: the undelivered messages are returned. *)
Definition stop_user_messages (b : mailbox) : mailbox * list M :=
  (set_messages (set_accepting b false) [], item_message <$> messages b).

(** The first block of [__call__]: [None] when another worker is running. *)
Definition call_enter (b : mailbox) : mailbox * bool :=
  if running b then (set_inline b true, false) else (set_running b true, true).

(** The first block of the loop of [_run_batch]: [None] is [return]. *)
Definition take_batch (can_process : bool) (b : mailbox) : mailbox * option (bool * list M) :=
  if closed b || nothing_to_run can_process b then (set_scheduled b false, None)
  else
    let system_batch := match system_messages b with [] => false | _ => true end in
    let source := target (negb system_batch) b in
    let n := Nat.min (Z.to_nat (throughput b)) (length source) in
    let batch := item_message <$> take n source in
    let b1 := set_target (negb system_batch) b (drop n source) in
    let b2 := if system_batch then b1
              else set_in_flight b1 (in_flight_user_messages b1 + len batch) in
    (b2, Some (system_batch, batch)).

(** The second block of the loop of [_run_batch]: [true] is [return]. *)
Definition check_more (can_process : bool) (b : mailbox) : mailbox * bool :=
  if closed b || nothing_to_run can_process b then (set_scheduled b false, true)
  else (b, false).

(** The block after an accepted activation in [_run_batch], and the last block
    of the loop of [__call__]: read and clear the inline request. *)
Definition take_inline (b : mailbox) : mailbox * bool :=
  (set_inline b false, inline_run_requested b).
Definition call_finish (b : mailbox) : mailbox * bool :=
  let run_inline := inline_run_requested b in
  let b1 := set_inline b false in
  (if run_inline then b1 else set_running b1 false, run_inline).

(** [_restore_batch]: [extendleft(reversed(remaining))]. *)
Definition restore_batch (system : bool) (remaining : list M) (b : mailbox) : mailbox :=
  let b1 := if system then b else set_in_flight b 0 in
  if closed b1 then b1
  else match remaining with
       | [] => b1
       | _ => set_target (negb system) b1 ((Plain <$> remaining) ++ target (negb system) b1)
       end.

(** The handler of other exceptions in [__call__]. *)
Definition reset_in_flight (b : mailbox) : mailbox := set_in_flight b 0.

(** The two blocks of [_recover_after_failure]: [true] is [return] and
    [has_lifecycle] respectively. *)
Definition recover_locked (can_process : bool) (b : mailbox) : mailbox * bool :=
  if closed b || nothing_to_run can_process b then (set_scheduled b false, true)
  else (b, false).
Definition recover_refused_locked (b : mailbox) : mailbox * bool :=
  match system_messages b with
  | [] => (set_scheduled b false, false)
  | _ => (b, true)
  end.

(** * Threads and interleaving *)

(** What [actor.invoke_batch(batch, system=...)] does: it returns the messages
    it did not consume, raises [ActorBatchFailed] with them, or raises something
    else. *)
Inductive invoke_outcome :=
  | InvokeReturned (remaining : list M)
  | InvokeFailed (remaining : list M)
  | InvokeRaised.

Inductive thread :=
  (* a sender inside [_enqueue] *)
  | SEnqueue (user report_full : bool) (m : M)
  | SDispatch (user : bool) (id : nat)
  | SRefused (user : bool) (id : nat)
  | SFallback (accepted : bool)
  (* [dispatch_system] raised: the exception leaves [_enqueue], the mailbox
     stays marked scheduled *)
  | SStranded
  | SDone (r : result MailboxAdmissionResult)
  (* a worker inside [__call__]; [err] records a pending error *)
  | WEnter
  | WBatch (err : bool)
  | WInvoke (err : bool) (system : bool) (batch : list M)
  | WRestore (err failed : bool) (system : bool) (remaining : list M)
  | WCheck (err : bool)
  | WDispatch (err : bool)
  | WAfter (err : bool)
  | WReset
  | WRecover
  | WRecoverDispatch
  | WRecoverRefused
  | WRecoverFallback
  (* [dispatch_system] raised: the exception leaves [__call__], the mailbox
     stays marked scheduled and running *)
  | WStranded
  | WFinish (err : bool)
  | WDone (err : bool).

(** [activations] counts the mailbox's entries in the dispatcher's queues. *)
Record config := mkConfig {
  box : mailbox;
  can_process : bool;
  activations : nat;
  threads : list thread;
}.

(** One step of a thread: the mailbox, the change of the activation count, the
    next program point; [can] is [actor.can_process_user_messages()]. *)
Inductive thread_step (foreign can : bool) : mailbox -> thread -> mailbox -> nat -> thread -> Prop :=
  | step_enqueue b user report_full m b' out :
      enqueue_locked can user report_full m b = (b', out) ->
      thread_step foreign can b (SEnqueue user report_full m) b' 0
        match out with
        | Returned r => SDone (Ok r)
        | Raised e => SDone (Err e)
        | MustDispatch id => SDispatch user id
        end
  | step_send_dispatched b user id :
      thread_step foreign can b (SDispatch user id) b 1 (SDone (Ok ACCEPTED))
  | step_send_refused b user id :
      thread_step foreign can b (SDispatch user id) b 0 (SRefused user id)
  | step_refused b user id b' accepted fallback :
      enqueue_refused_locked user id b = (b', accepted, fallback) ->
      thread_step foreign can b (SRefused user id) b' 0
        (if fallback : bool then SFallback accepted
         else SDone (if accepted : bool then Ok ACCEPTED else Err RuntimeError))
  | step_fallback b accepted :
      thread_step foreign can b (SFallback accepted) b 1
        (SDone (if accepted : bool then Ok ACCEPTED else Err RuntimeError))
  | step_fallback_raised b accepted :
      thread_step foreign can b (SFallback accepted) b 0 SStranded
  | step_enter b b' run :
      call_enter b = (b', run) ->
      thread_step foreign can b WEnter b' 0 (if run : bool then WBatch false else WDone false)
  | step_take b err b' r :
      take_batch can b = (b', r) ->
      thread_step foreign can b (WBatch err) b' 0
        match r with
        | None => WFinish err
        | Some (system, batch) => WInvoke err system batch
        end
  | step_restore b err failed system remaining :
      thread_step foreign can b (WRestore err failed system remaining)
        (restore_batch system remaining b) 0
        (if failed : bool then WRecover else WCheck err)
  | step_check b err b' stop :
      check_more can b = (b', stop) ->
      thread_step foreign can b (WCheck err) b' 0 (if stop : bool then WFinish err else WDispatch err)
  | step_dispatch_ok b err :
      thread_step foreign can b (WDispatch err) b 1 (WAfter err)
  | step_dispatch_refused b err :
      thread_step foreign can b (WDispatch err) b 0 (WBatch err)
  | step_dispatch_raised b err :
      Is_true foreign ->
      thread_step foreign can b (WDispatch err) b 0 WReset
  | step_after b err b' inline :
      take_inline b = (b', inline) ->
      thread_step foreign can b (WAfter err) b' 0 (if inline : bool then WBatch err else WFinish err)
  | step_reset b :
      thread_step foreign can b WReset (reset_in_flight b) 0 WRecover
  | step_recover b b' stop :
      recover_locked can b = (b', stop) ->
      thread_step foreign can b WRecover b' 0 (if stop : bool then WFinish true else WRecoverDispatch)
  | step_recover_dispatched b :
      thread_step foreign can b WRecoverDispatch b 1 (WFinish true)
  | step_recover_refused b :
      thread_step foreign can b WRecoverDispatch b 0 WRecoverRefused
  | step_recover_check b b' has_lifecycle :
      recover_refused_locked b = (b', has_lifecycle) ->
      thread_step foreign can b WRecoverRefused b' 0
        (if has_lifecycle : bool then WRecoverFallback else WFinish true)
  | step_recover_fallback b :
      thread_step foreign can b WRecoverFallback b 1 (WFinish true)
  | step_recover_fallback_raised b :
      thread_step foreign can b WRecoverFallback b 0 WStranded
  | step_finish b err b' inline :
      call_finish b = (b', inline) ->
      thread_step foreign can b (WFinish err) b' 0 (if inline : bool then WBatch err else WDone err).

(** What a step does to the queues: a message is appended, a batch prefix is
    consumed by the actor, or queued messages are given up. *)
Inductive event :=
  | Accepted (user : bool) (m : M)
  | Consumed (user : bool) (ms : list M)
  | Dropped.

Definition thread_events (can : bool) (b : mailbox) (t : thread) : list event :=
  match t with
  | SEnqueue user report_full m =>
      match (enqueue_locked can user report_full m b).2 with
      | Returned ACCEPTED | MustDispatch _ => [Accepted user m]
      | _ => []
      end
  | SRefused true _ => [Dropped]
  | WRestore _ _ _ _ => if closed b then [Dropped] else []
  | _ => []
  end.

(** [foreign] allows a dispatcher whose [dispatch] raises something other than a
    [RuntimeError], and an actor whose [invoke_batch] raises something other than
    [ActorBatchFailed] or raises it while still able to process messages.
    [WorkerPoolDispatcherImpl] and [LocalActorContext] do neither.  The consumed
    part of a batch is a prefix of it; an actor that stops meanwhile calls
    [stop_user_messages] and gives up the rest. *)
Inductive step (foreign : bool) : config -> list event -> config -> Prop :=
  | step_thread c i t b' n t' :
      threads c !! i = Some t ->
      thread_step foreign (can_process c) (box c) t b' n t' ->
      step foreign c (thread_events (can_process c) (box c) t)
        (mkConfig b' (can_process c) (activations c + n) (<[i := t']> (threads c)))
  | step_invoke c i err system batch consumed given_up remaining can' out stop t' :
      threads c !! i = Some (WInvoke err system batch) ->
      batch = consumed ++ given_up ++ remaining ->
      (given_up <> [] -> stop = true) ->
      (out = InvokeReturned remaining /\ t' = WRestore err false system remaining \/
       out = InvokeFailed remaining /\ t' = WRestore true true system remaining /\
         (can' = false \/ foreign = true) \/
       out = InvokeRaised /\ t' = WReset /\ foreign = true) ->
      step foreign c
        (Consumed (negb system) consumed :: if stop : bool then [Dropped] else [])
        (mkConfig (if stop : bool then (stop_user_messages (box c)).1 else box c)
           can' (activations c) (<[i := t']> (threads c)))
  | step_send c user report_full m :
      step foreign c []
        (mkConfig (box c) (can_process c) (activations c)
           (threads c ++ [SEnqueue user report_full m]))
  | step_worker c n :
      activations c = S n ->
      step foreign c [] (mkConfig (box c) (can_process c) n (threads c ++ [WEnter]))
  | step_suspend c :
      step foreign c [] (mkConfig (box c) false (activations c) (threads c))
  | step_close c :
      step foreign c [Dropped]
        (mkConfig (close (box c)) (can_process c) (activations c) (threads c)).

(** [execution es c]: [c] is reached with the events [es], in order. *)
Inductive execution (foreign : bool) (cap thr : Z) : list event -> config -> Prop :=
  | exec_init b :
      new_mailbox cap thr = Ok b -> execution foreign cap thr [] (mkConfig b false 0 [])
  | exec_step es e c c' :
      execution foreign cap thr es c -> step foreign c e c' ->
      execution foreign cap thr (es ++ e) c'.

(** [send] and [try_send] differ in what they do with a refusal. *)
Definition try_send_result (r : result MailboxAdmissionResult) : MailboxAdmissionResult :=
  match r with Ok a => a | Err _ => FULL end.
End mailbox.
