(* ===== verification/MailboxInv.v ===== *)
(** The mailbox invariant, for every interleaving of senders and workers:

    - at most one worker is inside the batch loop ([_running]);
    - at most one activation of the mailbox exists, whether queued at the
      dispatcher, held by a thread, or requested inline, and while the mailbox
      is open there is one exactly when [_scheduled] is set;
    - an unscheduled open mailbox has nothing its actor could process: no
      wake-up is lost;
    - queued and in-flight user messages never exceed the capacity;
    - the pending messages behave as a FIFO queue. *)

From stdpp Require Import base list numbers.
From S2P Require Import Prelude Mailbox.

Section invariant.
Context {M : Type}.
Implicit Types (c : config (M := M)) (b : mailbox (M := M)) (t : thread (M := M)).

(** Threads that hold the mailbox's activation; a stranded thread has lost it,
    and nobody else can make another one. *)
Definition holds_token t : nat :=
  match t with
  | SDispatch _ _ | SRefused _ _ | SFallback _ | SStranded => 1
  | WEnter | WBatch _ | WInvoke _ _ _ | WRestore _ _ _ _ | WCheck _ | WDispatch _
  | WReset | WRecover | WRecoverDispatch | WRecoverRefused | WRecoverFallback
  | WStranded => 1
  | SEnqueue _ _ _ | SDone _ | WAfter _ | WFinish _ | WDone _ => 0
  end.

(** Threads inside the loop of [__call__]. *)
Definition in_region t : nat :=
  match t with
  | WBatch _ | WInvoke _ _ _ | WRestore _ _ _ _ | WCheck _ | WDispatch _ | WAfter _
  | WReset | WRecover | WRecoverDispatch | WRecoverRefused | WRecoverFallback
  | WStranded | WFinish _ => 1
  | _ => 0
  end.

(** Threads that lost the activation to a [dispatch_system] that raised. *)
Definition stranded t : bool :=
  match t with SStranded | WStranded => true | _ => false end.

Definition tokens c : nat :=
  (sum_list_with holds_token (threads c) + activations c
   + Nat.b2n (inline_run_requested (box c)))%nat.

(** What a thread knows about the mailbox: its entry is still queued, its batch
    is counted as in flight, and an actor that failed is suspended. *)
Definition thread_ok (foreign can : bool) b t : Prop :=
  match t with
  | SDispatch user id | SRefused user id =>
      closed b = false -> existsb (is_entry id) (target user b) = true
  | WInvoke _ false batch => closed b = false -> len batch <= in_flight_user_messages b
  | WRestore _ failed system remaining =>
      (system = false -> closed b = false -> len remaining <= in_flight_user_messages b) /\
      (failed = true -> foreign = false -> can = false)
  | WReset => foreign = true
  | WRecover | WRecoverDispatch | WRecoverRefused => foreign = false -> can = false
  | _ => True
  end.

Record mailbox_inv (foreign : bool) (cap thr : Z) c : Prop := {
  inv_capacity : capacity (box c) = cap;
  inv_throughput : throughput (box c) = thr;
  inv_region : sum_list_with in_region (threads c) = Nat.b2n (running (box c));
  inv_token_le : (tokens c <= Nat.b2n (scheduled (box c)))%nat;
  inv_token : closed (box c) = false -> tokens c = Nat.b2n (scheduled (box c));
  inv_threads : Forall (thread_ok foreign (can_process c) (box c)) (threads c);
  inv_bound : 0 <= in_flight_user_messages (box c) /\
    len (messages (box c)) + in_flight_user_messages (box c) <= cap;
  inv_idle : foreign = false -> closed (box c) = false -> scheduled (box c) = false ->
    nothing_to_run (can_process c) (box c) = true;
  inv_inline : inline_run_requested (box c) = true -> running (box c) = true;
}.

Lemma thread_ok_no_token foreign can b t : holds_token t = 0%nat -> thread_ok foreign can b t.
Proof. by destruct t. Qed.

(** When the stepping thread held the activation, the others know nothing. *)
Lemma threads_ok_token foreign can can' b b' (ts : list thread) i t t' :
  ts !! i = Some t -> (sum_list_with holds_token ts <= 1)%nat -> holds_token t = 1%nat ->
  thread_ok foreign can' b' t' -> Forall (thread_ok foreign can b) ts ->
  Forall (thread_ok foreign can' b') (<[i := t']> ts).
Proof.
  intros Hi Hsum Ht Hok _. apply Forall_lookup. intros j u Hj.
  destruct (decide (i = j)) as [<-|Hij].
  - rewrite list_lookup_insert_eq in Hj by (by eapply lookup_lt_Some). by simplify_eq.
  - rewrite list_lookup_insert_ne in Hj by done. apply thread_ok_no_token.
    pose proof (sum_two holds_token ts i j t u Hij Hi Hj). lia.
Qed.

(** A step that only extends the queues keeps what the other threads know. *)
Definition extends b b' : Prop :=
  closed b' = closed b /\ in_flight_user_messages b' = in_flight_user_messages b /\
  forall user, exists q, target user b' = target user b ++ q.

Lemma thread_ok_extends foreign can b b' t :
  extends b b' -> thread_ok foreign can b t -> thread_ok foreign can b' t.
Proof.
  intros (Hc & Hf & Ht) Hok.
  destruct t as [|user id|user id| | | | | |? []| | | | | | | | | | | |]; cbn in *; try done;
    rewrite Hc, ?Hf; auto.
  all: intros Hcl; specialize (Hok Hcl); destruct (Ht user) as [q ->].
  all: by rewrite existsb_app, Hok.
Qed.

Lemma threads_ok_extends foreign can b b' (ts : list thread) i t' :
  extends b b' -> thread_ok foreign can b' t' -> Forall (thread_ok foreign can b) ts ->
  Forall (thread_ok foreign can b') (<[i := t']> ts).
Proof.
  intros He Hok Hts. apply Forall_insert; [|done].
  eapply Forall_impl; [|exact Hts]. intros t. by apply thread_ok_extends.
Qed.

(** The holder of the activation is the only source of one. *)
Lemma holder_alone foreign cap thr c i t :
  mailbox_inv foreign cap thr c -> threads c !! i = Some t -> holds_token t = 1%nat ->
  scheduled (box c) = true /\ inline_run_requested (box c) = false /\
  activations c = 0%nat /\ sum_list_with holds_token (threads c) = 1%nat.
Proof.
  intros Hinv Hi Ht. pose proof (inv_token_le _ _ _ _ Hinv) as H. unfold tokens in H.
  pose proof (sum_lookup holds_token _ _ _ Hi).
  destruct (scheduled (box c)), (inline_run_requested (box c)); simpl in H; lia.
Qed.

(** The proof obligations of one thread step. *)
Record step_ok (foreign can : bool) b t b' (n : nat) t' : Prop := {
  ok_capacity : capacity b' = capacity b /\ throughput b' = throughput b;
  ok_closed : closed b' = closed b;
  ok_region : (in_region t + Nat.b2n (running b') = in_region t' + Nat.b2n (running b))%nat;
  ok_token_le : (holds_token t' + n + Nat.b2n (inline_run_requested b') + Nat.b2n (scheduled b)
    <= holds_token t + Nat.b2n (inline_run_requested b) + Nat.b2n (scheduled b'))%nat;
  ok_token : closed b = false ->
    (holds_token t + Nat.b2n (inline_run_requested b) + Nat.b2n (scheduled b')
    <= holds_token t' + n + Nat.b2n (inline_run_requested b') + Nat.b2n (scheduled b))%nat;
  ok_others : holds_token t = 1%nat \/ extends b b';
  ok_thread : thread_ok foreign can b' t';
  ok_bound : 0 <= in_flight_user_messages b' /\
    len (messages b') + in_flight_user_messages b' <= capacity b;
  ok_idle : foreign = false -> closed b' = false -> scheduled b' = false ->
    nothing_to_run can b' = true;
  ok_inline : inline_run_requested b' = true -> running b' = true;
}.

Lemma step_ok_inv foreign cap thr c i t b' n t' :
  mailbox_inv foreign cap thr c -> threads c !! i = Some t ->
  step_ok foreign (can_process c) (box c) t b' n t' ->
  mailbox_inv foreign cap thr
    (mkConfig b' (can_process c) (activations c + n) (<[i := t']> (threads c))).
Proof.
  intros Hinv Hi [[Hcap Hthr] Hcl Hreg Hle Hge Hoth Hth Hb Hidle Hinl].
  pose proof (sum_insert in_region _ _ _ t' Hi) as Sr.
  pose proof (sum_insert holds_token _ _ _ t' Hi) as Sh.
  destruct Hinv as [Ic It Ir Ile Ieq Ith Ib Iid Iin].
  unfold tokens in *. constructor; unfold tokens; cbn; try congruence; try done.
  - lia.
  - lia.
  - rewrite Hcl. intros Hc. specialize (Hge Hc). specialize (Ieq Hc). lia.
  - destruct Hoth as [Ht|He]; [|by eapply threads_ok_extends].
    eapply threads_ok_token; try done. destruct (scheduled (box c)); simpl in *; lia.
Qed.

Lemma nothing_to_run_spec can b :
  nothing_to_run can b = true <->
  system_messages b = [] /\ (messages b = [] \/ can = false).
Proof.
  unfold nothing_to_run, no_work.
  destruct (system_messages b), (messages b), can; simpl; naive_solver.
Qed.

Lemma no_work_spec b : no_work b = true <-> system_messages b = [] /\ messages b = [].
Proof. unfold no_work. destruct (system_messages b), (messages b); naive_solver. Qed.

Lemma existsb_remove_entry id (q : list item) :
  existsb (is_entry (M := M) id) q = true -> length q = S (length (remove_entry id q)).
Proof.
  induction q as [|x q IH]; simpl; [done|].
  destruct (is_entry id x); simpl; [done|]. intros H. by rewrite IH.
Qed.

Lemma extends_refl b : extends b b.
Proof. repeat split. intros user. exists []. by rewrite app_nil_r. Qed.

Lemma extends_queues b b' :
  closed b' = closed b -> in_flight_user_messages b' = in_flight_user_messages b ->
  messages b' = messages b -> system_messages b' = system_messages b -> extends b b'.
Proof.
  intros. repeat split; try done. intros user; exists []; rewrite app_nil_r.
  by destruct user.
Qed.

Lemma extends_snoc b b' user x :
  closed b' = closed b -> in_flight_user_messages b' = in_flight_user_messages b ->
  target user b' = target user b ++ [x] -> target (negb user) b' = target (negb user) b ->
  extends b b'.
Proof.
  intros Hc Hf Ht Hn. repeat split; try done. intros user'.
  destruct (decide (user' = user)) as [->|Hne]; [by eexists|].
  exists []. rewrite app_nil_r. by destruct user, user'.
Qed.

Section thread_cases.
Variables (foreign : bool) (cap thr : Z) (c : config (M := M)) (i : nat).
Hypothesis Hinv : mailbox_inv foreign cap thr c.
#[local] Abbreviation b := (box c).
#[local] Abbreviation can := (can_process c).

Lemma bound_now : 0 <= in_flight_user_messages b /\
  len (messages b) + in_flight_user_messages b <= capacity b.
Proof. destruct Hinv as [-> _ _ _ _ _ Ib _ _]. done. Qed.

Lemma inline_now : inline_run_requested b = true -> running b = true.
Proof. apply (inv_inline _ _ _ _ Hinv). Qed.

(** Steps that change no queue and not [_scheduled]. *)
Lemma control_step_ok t b' n t' :
  capacity b' = capacity b -> throughput b' = throughput b -> extends b b' ->
  messages b' = messages b -> system_messages b' = system_messages b ->
  scheduled b' = scheduled b ->
  (in_region t + Nat.b2n (running b') = in_region t' + Nat.b2n (running b))%nat ->
  (holds_token t' + n + Nat.b2n (inline_run_requested b')
   = holds_token t + Nat.b2n (inline_run_requested b))%nat ->
  (inline_run_requested b' = true -> running b' = true) ->
  thread_ok foreign can b' t' -> step_ok foreign can b t b' n t'.
Proof.
  intros Hc Ht He Hm Hs Hsch Hr Htok Hin Hok. pose proof bound_now as [B1 B2]. pose proof inline_now as Hrun.
  pose proof He as (Hcl & Hf & _).
  constructor; rewrite ?Hsch, ?Hf, ?Hm; try done; try lia; [by right|].
  rewrite Hcl. intros F C S. pose proof (inv_idle _ _ _ _ Hinv F C S) as N.
  apply nothing_to_run_spec in N. apply nothing_to_run_spec. by rewrite Hm, Hs.
Qed.

(** Steps that only release the activation: [_scheduled = False; return]. *)
Lemma release_step_ok t t' :
  threads c !! i = Some t -> holds_token t = 1%nat -> holds_token t' = 0%nat ->
  in_region t = in_region t' ->
  (foreign = false -> closed b = false -> nothing_to_run can b = true) ->
  step_ok foreign can b t (set_scheduled b false) 0 t'.
Proof.
  intros Hi Ht Ht' Hr Hn. destruct (holder_alone _ _ _ _ _ _ Hinv Hi Ht) as (Hs & Hin & _).
  pose proof bound_now. pose proof inline_now.
  constructor; simpl; rewrite ?Hs, ?Ht, ?Ht'; simpl; try done; try lia.
  - by apply thread_ok_no_token.
  - intros F C _. specialize (Hn F C). apply nothing_to_run_spec in Hn. by apply nothing_to_run_spec.
Qed.

Lemma enqueue_step_ok user report_full m b' out :
  enqueue_locked can user report_full m b = (b', out) ->
  step_ok foreign can b (SEnqueue user report_full m) b' 0
    match out with
    | Returned r => SDone (Ok r)
    | Raised e => SDone (Err e)
    | MustDispatch id => SDispatch user id
    end.
Proof.
  pose proof bound_now as [B1 B2]. pose proof inline_now as Hrun. unfold enqueue_locked.
  destruct (closed b || _) eqn:Hcl.
  { intros [= <- <-]. by apply control_step_ok; auto using extends_refl, inline_now. }
  apply orb_false_iff in Hcl as [Hcl Hacc].
  destruct (user && (_ <=? _)) eqn:Hfull.
  { destruct report_full; intros [= <- <-]; by apply control_step_ok; auto using extends_refl, inline_now. }
  assert (Hroom : user = true -> len (messages b) + in_flight_user_messages b + 1 <= capacity b).
  { intros ->. simpl in Hfull. lia. }
  destruct (scheduled b || _) eqn:Hsch; intros [= <- <-].
  - constructor; try (destruct user; simpl; first [done | lia]).
    + right. by apply (extends_snoc _ _ user (Plain m)); destruct user.
    + destruct user; cbn; unfold len in *; rewrite ?length_app; simpl; [|lia].
      specialize (Hroom eq_refl). lia.
    + intros F C E. destruct user; cbn in *.
      * rewrite E in Hsch. apply negb_true_iff in Hsch.
        pose proof (inv_idle _ _ _ _ Hinv F C E) as N.
        apply nothing_to_run_spec in N. apply nothing_to_run_spec; cbn. tauto.
      * by rewrite E in Hsch.
  - apply orb_false_iff in Hsch as [Hsch _].
    constructor; try (destruct user; simpl; rewrite ?Hsch; simpl; first [done | lia]).
    + right. by apply (extends_snoc _ _ user (Entry (next_entry b) m)); destruct user.
    + intros _. destruct user; simpl; rewrite existsb_app; simpl;
        by rewrite Nat.eqb_refl, orb_true_r.
    + destruct user; cbn; unfold len in *; rewrite ?length_app; simpl; [|lia].
      specialize (Hroom eq_refl). lia.
Qed.

Lemma refused_step_ok user id b' accepted fallback :
  threads c !! i = Some (SRefused user id) ->
  enqueue_refused_locked user id b = (b', accepted, fallback) ->
  step_ok foreign can b (SRefused user id) b' 0
    (if fallback : bool then SFallback accepted
     else SDone (if accepted : bool then Ok ACCEPTED else Err RuntimeError)).
Proof.
  intros Hi. pose proof bound_now as [B1 B2]. pose proof inline_now as Hrun.
  destruct (holder_alone _ _ _ _ _ _ Hinv Hi eq_refl) as (Hs & Hin & _).
  pose proof (Forall_lookup_1 _ _ _ _ (inv_threads _ _ _ _ Hinv) Hi) as Hok; simpl in Hok.
  unfold enqueue_refused_locked.
  destruct (existsb (is_entry id) (target user b)) eqn:Hq; simpl.
  - set (b1 := if user then _ else _).
    assert (Hb1 : capacity b1 = capacity b /\ throughput b1 = throughput b /\
      closed b1 = closed b /\ running b1 = running b /\ scheduled b1 = scheduled b /\
      inline_run_requested b1 = inline_run_requested b /\
      in_flight_user_messages b1 = in_flight_user_messages b /\
      len (messages b1) <= len (messages b)).
    { subst b1. destruct user; cbn; split_and!; try done.
      apply existsb_remove_entry in Hq. cbn in Hq. unfold len. lia. }
    destruct Hb1 as (E1 & E2 & E3 & E4 & E5 & E6 & E7 & E8).
    destruct (no_work b1) eqn:Hnw; simpl; intros [= <- <- <-];
      constructor; simpl; rewrite ?E1, ?E2, ?E3, ?E4, ?E6, ?E7, ?Hs; simpl;
      try done; try lia; try by left.
    intros _ _ _. apply no_work_spec in Hnw as [H1 H2]. apply nothing_to_run_spec; cbn. auto.
  - intros [= <- <- <-]. constructor; simpl; try done; try lia; try by left.
    + intros Hc. by specialize (Hok Hc).
    + congruence.
Qed.

Lemma take_step_ok err b' r :
  threads c !! i = Some (WBatch err) -> take_batch can b = (b', r) ->
  step_ok foreign can b (WBatch err) b' 0
    match r with
    | None => WFinish err
    | Some (system, batch) => WInvoke err system batch
    end.
Proof.
  intros Hi. pose proof bound_now as [B1 B2]. pose proof inline_now as Hrun.
  destruct (holder_alone _ _ _ _ _ _ Hinv Hi eq_refl) as (Hs & Hin & _).
  unfold take_batch. destruct (closed b || _) eqn:Hstop.
  { intros [= <- <-]. eapply release_step_ok; try done. intros _ Hc.
    by rewrite Hc in Hstop. }
  destruct (system_messages b) as [|x l] eqn:Hsys; simpl; intros [= <- <-];
    constructor; simpl; try done; try lia; try (by left); try congruence.
  - unfold len in *. rewrite length_fmap, length_take, length_drop. lia.
Qed.

Lemma restore_step_ok err failed system remaining :
  threads c !! i = Some (WRestore err failed system remaining) ->
  step_ok foreign can b (WRestore err failed system remaining)
    (restore_batch system remaining b) 0 (if failed : bool then WRecover else WCheck err).
Proof.
  intros Hi. pose proof bound_now as [B1 B2]. pose proof inline_now as Hrun.
  destruct (holder_alone _ _ _ _ _ _ Hinv Hi eq_refl) as (Hs & Hin & _).
  pose proof (Forall_lookup_1 _ _ _ _ (inv_threads _ _ _ _ Hinv) Hi) as [Hrem Hfail].
  assert (E : capacity (restore_batch system remaining b) = capacity b /\
    throughput (restore_batch system remaining b) = throughput b /\
    closed (restore_batch system remaining b) = closed b /\
    running (restore_batch system remaining b) = running b /\
    scheduled (restore_batch system remaining b) = true /\
    inline_run_requested (restore_batch system remaining b) = inline_run_requested b).
  { unfold restore_batch.
    destruct system; simpl; destruct (closed b) eqn:Hc, remaining; by split_and!. }
  destruct E as (E1 & E2 & E3 & E4 & E5 & E6).
  constructor; rewrite ?E1, ?E2, ?E3, ?E4, ?E5, ?E6, ?Hs;
    try (destruct failed; simpl; done); try (destruct failed; simpl; lia); try by left.
  - destruct failed; [intros F; by apply Hfail|done].
  - unfold restore_batch. destruct system; simpl.
    + by destruct (closed b), remaining.
    + specialize (Hrem eq_refl). destruct (closed b); simpl; [unfold len in *; lia|].
      specialize (Hrem eq_refl). destruct remaining; simpl; unfold len in *; [lia|].
      simpl in *. rewrite length_app, length_fmap. lia.
Qed.

(** Every step of a thread meets its obligations. *)
Lemma thread_step_ok t b' n t' :
  threads c !! i = Some t -> thread_step foreign can b t b' n t' ->
  step_ok foreign can b t b' n t'.
Proof.
  intros Hi Hstep.
  pose proof (Forall_lookup_1 _ _ _ _ (inv_threads _ _ _ _ Hinv) Hi) as Hok.
  pose proof bound_now as [B1 B2]. pose proof inline_now as Hrun.
  inversion Hstep as
    [? ? ? ? ? out He|? user id|? user id|? user id ? acc fb He|? acc|? acc|? ? run He
    |? err ? r He|? err failed system remaining|? err ? stop He|? err|? err|? err Hf
    |? err ? inl He|?|? ? stop He|?|?|? ? life He|?|?|? err ? inl He]; subst.
  - by apply enqueue_step_ok.
  - by apply control_step_ok; auto using extends_refl, inline_now.
  - by apply control_step_ok; auto using extends_refl, inline_now.
  - by apply refused_step_ok.
  - by apply control_step_ok; auto using extends_refl, inline_now.
  - by apply control_step_ok; auto using extends_refl, inline_now.
  - destruct (holder_alone _ _ _ _ _ _ Hinv Hi eq_refl) as (Hs & Hin & _).
    unfold call_enter in He. destruct (running b) eqn:Hr; simplify_eq;
      apply control_step_ok; auto using extends_queues; simpl; by rewrite ?Hin, ?Hr.
  - by apply take_step_ok.
  - by apply restore_step_ok.
  - unfold check_more in He. destruct (closed b || _) eqn:Hstop; simplify_eq.
    + eapply release_step_ok; try done. intros _ Hc. by rewrite Hc in Hstop.
    + by apply control_step_ok; auto using extends_refl, inline_now.
  - by apply control_step_ok; auto using extends_refl, inline_now.
  - by apply control_step_ok; auto using extends_refl, inline_now.
  - apply control_step_ok; auto using extends_refl, inline_now. by apply Is_true_true.
  - unfold take_inline in He. simplify_eq.
    apply control_step_ok; auto using extends_queues; by destruct (inline_run_requested b).
  - destruct (holder_alone _ _ _ _ _ _ Hinv Hi eq_refl) as (Hs & _).
    constructor; simpl; rewrite ?Hs; try done; try lia; simpl in Hok; congruence.
  - unfold recover_locked in He. destruct (closed b || _) eqn:Hstop; simplify_eq.
    + eapply release_step_ok; try done. intros _ Hc. by rewrite Hc in Hstop.
    + by apply control_step_ok; auto using extends_refl, inline_now.
  - by apply control_step_ok; auto using extends_refl, inline_now.
  - by apply control_step_ok; auto using extends_refl, inline_now.
  - unfold recover_refused_locked in He.
    destruct (system_messages b) as [|x l] eqn:Hsys; simplify_eq.
    + eapply release_step_ok; try done. intros F Hc. simpl in Hok.
      apply nothing_to_run_spec. auto.
    + by apply control_step_ok; auto using extends_refl, inline_now.
  - by apply control_step_ok; auto using extends_refl, inline_now.
  - by apply control_step_ok; auto using extends_refl, inline_now.
  - unfold call_finish in He. destruct (inline_run_requested b) eqn:Hin; simplify_eq;
      apply control_step_ok; auto using extends_queues; simpl; rewrite ?Hin; try done.
    pose proof (sum_lookup in_region _ _ _ Hi). pose proof (inv_region _ _ _ _ Hinv).
    destruct (running b); simpl in *; lia.
Qed.
End thread_cases.

Lemma init_inv foreign cap thr b :
  new_mailbox cap thr = Ok b -> mailbox_inv foreign cap thr (mkConfig b false 0 []).
Proof.
  unfold new_mailbox. destruct (_ && _) eqn:H; [|done]. intros Hb.
  apply Ok_inj in Hb; subst. constructor; cbn; try done; unfold len; simpl; lia.
Qed.

Lemma invoke_inv foreign cap thr c i err system batch can' (stop : bool) t' :
  mailbox_inv foreign cap thr c -> threads c !! i = Some (WInvoke err system batch) ->
  holds_token t' = 1%nat -> in_region t' = 1%nat ->
  (forall b, in_flight_user_messages b = in_flight_user_messages (box c) ->
     closed b = closed (box c) -> thread_ok foreign can' b t') ->
  mailbox_inv foreign cap thr
    (mkConfig (if stop then (stop_user_messages (box c)).1 else box c)
       can' (activations c) (<[i := t']> (threads c))).
Proof.
  intros Hinv Hi Ht Hr Hok. set (b' := if stop then _ else _).
  pose proof (sum_insert in_region _ _ _ t' Hi) as Sr.
  pose proof (sum_insert holds_token _ _ _ t' Hi) as Sh.
  destruct (holder_alone _ _ _ _ _ _ Hinv Hi eq_refl) as (Hs & Hin & Ha & Hsum).
  assert (Hb : capacity b' = capacity (box c) /\ throughput b' = throughput (box c) /\
    closed b' = closed (box c) /\ running b' = running (box c) /\
    scheduled b' = scheduled (box c) /\
    inline_run_requested b' = inline_run_requested (box c) /\
    in_flight_user_messages b' = in_flight_user_messages (box c) /\
    len (messages b') <= len (messages (box c))).
  { subst b'. destruct stop; cbn; split_and!; try done. unfold len; simpl; lia. }
  destruct Hb as (E1 & E2 & E3 & E4 & E5 & E6 & E7 & E8).
  destruct Hinv as [Ic It Ir Ile Ieq Ith Ib Iid Iin]. unfold tokens in *; simpl in *.
  constructor; unfold tokens; simpl; rewrite ?E1, ?E2, ?E3, ?E4, ?E5, ?E6, ?E7, ?Hs; try done;
    try lia.
  - rewrite Hin. simpl. lia.
  - intros _. rewrite Hin. simpl. lia.
  - eapply threads_ok_token; eauto; lia.
Qed.

Lemma append_inv foreign cap thr c n t :
  mailbox_inv foreign cap thr c -> in_region t = 0%nat ->
  (activations c = n + holds_token t)%nat ->
  (forall b, thread_ok foreign (can_process c) b t) ->
  mailbox_inv foreign cap thr (mkConfig (box c) (can_process c) n (threads c ++ [t])).
Proof.
  intros [Ic It Ir Ile Ieq Ith Ib Iid Iin] Hr Ha Hok. unfold tokens in *.
  constructor; unfold tokens; simpl; rewrite ?sum_snoc; try done; try lia.
  - intros Hc. specialize (Ieq Hc). lia.
  - apply Forall_app; eauto.
Qed.

Lemma step_inv foreign cap thr c es c' :
  mailbox_inv foreign cap thr c -> step foreign c es c' -> mailbox_inv foreign cap thr c'.
Proof.
  intros Hinv Hstep.
  destruct Hstep as [c i t b' n t' Hi Ht|c i err system batch consumed given_up remaining can' out
    stop t' Hi Hb Hg Hout|c user report_full m|c n Hn|c|c].
  - eapply step_ok_inv; eauto using thread_step_ok.
  - pose proof (Forall_lookup_1 _ _ _ _ (inv_threads _ _ _ _ Hinv) Hi) as Hok; simpl in Hok.
    assert (Hl : len remaining <= len batch).
    { subst batch. unfold len. rewrite !length_app. lia. }
    eapply invoke_inv; eauto; destruct Hout as [[-> ->]|[(-> & -> & ?)|(-> & -> & ?)]]; try done.
    all: intros b Hf Hc; simpl; rewrite Hc, Hf; split; [|intuition congruence].
    all: intros -> Hcl; specialize (Hok Hcl); lia.
  - apply append_inv; simpl; auto; lia.
  - apply append_inv; simpl; auto; lia.
  - destruct Hinv as [Ic It Ir Ile Ieq Ith Ib Iid Iin]. constructor; try done; simpl.
    + eapply Forall_impl; [|exact Ith]. intros t Ht.
      destruct t as [| | | | | | | |? []| | | | | | | | | | | |]; simpl in *; tauto.
    + intros F C E. apply nothing_to_run_spec. specialize (Iid F C E).
      apply nothing_to_run_spec in Iid. tauto.
  - destruct Hinv as [Ic It Ir Ile Ieq Ith Ib Iid Iin]. constructor; try done; simpl.
    + eapply Forall_impl; [|exact Ith]. intros t Ht.
      destruct t as [| | | | | | | |? []| | | | | | | | | | | |]; simpl in *; intuition congruence.
    + unfold len in *. simpl. lia.
Qed.

Lemma execution_inv foreign cap thr es c :
  execution foreign cap thr es c -> mailbox_inv foreign cap thr c.
Proof. induction 1; eauto using init_inv, step_inv. Qed.
End invariant.
