(* ===== verification/MailboxSpec.v ===== *)
(** What the mailbox promises: the pending messages of each kind refine a FIFO
    queue, and the invariant's consequences as they are used by the actor and
    by the dispatcher. *)

From stdpp Require Import base list numbers relations.
From S2P Require Import Prelude Mailbox MailboxInv.

Section queue.
Context {M : Type}.
Implicit Types (c : config (M := M)) (b : mailbox (M := M)) (t : thread (M := M)).
Implicit Types (es : list (event (M := M))).

(** * The abstract queue *)

(** The messages of one kind a worker has taken and not yet handed over or put
    back. *)
Definition in_hand (user : bool) t : list M :=
  match t with
  | WInvoke _ system ms | WRestore _ _ system ms => if Bool.eqb system user then [] else ms
  | _ => []
  end.

(** The abstract queue: what a worker holds, then what is queued. *)
Definition pending (user : bool) c : list M :=
  flat_map (in_hand user) (threads c) ++ (item_message <$> target user (box c)).

Definition accepted_by (user : bool) (e : event (M := M)) : list M :=
  match e with Accepted u m => if Bool.eqb u user then [m] else [] | _ => [] end.
Definition consumed_by (user : bool) (e : event (M := M)) : list M :=
  match e with Consumed u ms => if Bool.eqb u user then ms else [] | _ => [] end.
Definition accepted (user : bool) es : list M := flat_map (accepted_by user) es.
Definition consumed (user : bool) es : list M := flat_map (consumed_by user) es.

(** One step of the abstract queue: elements leave at the front, in order, and
    enter at the back; elements may be given up only with [Dropped]. *)
Record queue_law (user : bool) es (q q' : list M) : Prop := {
  law_order : sublist (consumed user es ++ q') (q ++ accepted user es);
  law_exact : Dropped ∉ es -> consumed user es ++ q' = q ++ accepted user es;
}.

Lemma law_eq user es q q' :
  consumed user es ++ q' = q ++ accepted user es -> queue_law user es q q'.
Proof. intros H. by constructor; rewrite H. Qed.

Lemma law_dropped user es q q' :
  Dropped ∈ es -> sublist (consumed user es ++ q') (q ++ accepted user es) ->
  queue_law user es q q'.
Proof. by constructor. Qed.

Lemma in_hand_insert user (ts : list thread) i t t' :
  ts !! i = Some t -> in_hand user t' = in_hand user t ->
  flat_map (in_hand user) (<[i := t']> ts) = flat_map (in_hand user) ts.
Proof.
  revert i. induction ts as [|u ts IH]; intros [|i] Hi Ht; simplify_eq/=; [by rewrite Ht|].
  f_equal. by apply IH.
Qed.

Lemma in_hand_none user (ts : list thread) :
  sum_list_with holds_token ts = 0%nat -> flat_map (in_hand user) ts = [].
Proof.
  induction ts as [|t ts IH]; simpl; [done|]. intros H. rewrite IH by lia.
  destruct t; simpl in *; try done; lia.
Qed.

(** The holder of the activation is the only one with messages in hand. *)
Lemma in_hand_holder user (ts : list thread) i t :
  ts !! i = Some t -> holds_token t = 1%nat -> (sum_list_with holds_token ts <= 1)%nat ->
  flat_map (in_hand user) ts = in_hand user t.
Proof.
  revert i. induction ts as [|u ts IH]; intros [|i] Hi Ht Hs; simplify_eq/=.
  - rewrite in_hand_none by lia. by rewrite app_nil_r.
  - pose proof (sum_lookup holds_token _ _ _ Hi).
    rewrite (IH i) by (done || lia).
    assert (holds_token u = 0%nat) by lia. by destruct u.
Qed.

Lemma in_hand_replace user (ts : list thread) i t t' :
  ts !! i = Some t -> holds_token t = 1%nat -> (sum_list_with holds_token ts <= 1)%nat ->
  flat_map (in_hand user) (<[i := t']> ts) = in_hand user t'.
Proof.
  revert i. induction ts as [|u ts IH]; intros [|i] Hi Ht Hs; simplify_eq/=.
  - rewrite in_hand_none by lia. by rewrite app_nil_r.
  - pose proof (sum_lookup holds_token _ _ _ Hi).
    change (list_insert i t' ts) with (<[i := t']> ts). rewrite (IH i) by (done || lia).
    assert (holds_token u = 0%nat) by lia. by destruct u.
Qed.

Lemma remove_entry_sublist id (q : list item) :
  sublist (item_message (M := M) <$> remove_entry id q) (item_message <$> q).
Proof.
  induction q as [|x q IH]; simpl; [done|].
  destruct (is_entry id x); simpl; [by apply sublist_cons|by apply sublist_skip].
Qed.

(** Steps that keep both queues and change no messages in hand. *)
Lemma pending_same user c b' can' n i t t' :
  threads c !! i = Some t -> in_hand user t' = in_hand user t ->
  target user b' = target user (box c) ->
  pending user (mkConfig b' can' n (<[i := t']> (threads c))) = pending user c.
Proof. intros Hi Ht Hb. unfold pending; simpl. by rewrite (in_hand_insert _ _ _ t), Hb. Qed.

Lemma law_same user q q' : q' = q -> queue_law user [] q q'.
Proof. intros ->. apply law_eq. by rewrite app_nil_r. Qed.

Section steps.
Variables (foreign : bool) (cap thr : Z) (c : config (M := M)) (i : nat) (user : bool).
Hypothesis Hinv : mailbox_inv foreign cap thr c.
#[local] Abbreviation b := (box c).
#[local] Abbreviation can := (can_process c).

Lemma enqueue_law u report_full m b' n out t' :
  threads c !! i = Some (SEnqueue u report_full m) ->
  enqueue_locked can u report_full m b = (b', out) -> in_hand user t' = [] ->
  queue_law user (thread_events can b (SEnqueue u report_full m)) (pending user c)
    (pending user (mkConfig b' can n (<[i := t']> (threads c)))).
Proof.
  intros Hi He Ht. unfold thread_events. rewrite He; simpl.
  unfold pending; simpl. rewrite (in_hand_insert _ _ _ _ _ Hi) by done.
  unfold enqueue_locked in He. destruct (closed b || _); simplify_eq; [by apply law_same|].
  destruct (u && (_ <=? _)); [destruct report_full; simplify_eq; by apply law_same|].
  destruct (scheduled b || _); simplify_eq; apply law_eq; simpl; rewrite <- (assoc_L (++));
    f_equal; destruct u, user; simpl; by rewrite ?fmap_app, ?app_nil_r.
Qed.

Lemma refused_law u id b' n acc fb t' :
  threads c !! i = Some (SRefused u id) ->
  enqueue_refused_locked u id b = (b', acc, fb) -> in_hand user t' = [] ->
  queue_law user (thread_events can b (SRefused u id)) (pending user c)
    (pending user (mkConfig b' can n (<[i := t']> (threads c)))).
Proof.
  intros Hi He Ht.
  assert (Hb : target user b' = target user b \/
    u = true /\ user = true /\ target user b' = remove_entry id (target user b)).
  { unfold enqueue_refused_locked in He. destruct (existsb _ _); simpl in He.
    - destruct u, user; simpl in He; destruct (no_work _); simplify_eq/=; auto.
    - simplify_eq. auto. }
  unfold pending; simpl. rewrite (in_hand_insert _ _ _ _ _ Hi) by done.
  destruct Hb as [->|(-> & -> & ->)].
  - destruct u; simpl; [|by apply law_same].
    apply law_dropped; [left|]. simpl. by rewrite app_nil_r.
  - apply law_dropped; [left|]. simpl. rewrite app_nil_r.
    apply sublist_app; [done|apply remove_entry_sublist].
Qed.

Lemma take_law err b' r n t' :
  threads c !! i = Some (WBatch err) -> take_batch can b = (b', r) ->
  t' = match r with
       | None => WFinish err
       | Some (system, batch) => WInvoke err system batch
       end ->
  queue_law user [] (pending user c)
    (pending user (mkConfig b' can n (<[i := t']> (threads c)))).
Proof.
  intros Hi He ->. destruct (holder_alone _ _ _ _ _ _ Hinv Hi eq_refl) as (_ & _ & _ & Hs).
  apply law_same. unfold pending; simpl.
  rewrite (in_hand_replace _ _ _ _ _ Hi) by (done || lia).
  rewrite (in_hand_holder _ _ _ _ Hi) by (done || lia). simpl.
  unfold take_batch in He. destruct (closed b || _); simplify_eq; [by destruct user|].
  destruct (system_messages b) as [|x l] eqn:Hsys, user; simpl; rewrite ?Hsys; try done.
  - by rewrite <- fmap_app, take_drop.
  - by rewrite <- fmap_app, take_drop.
Qed.

Lemma restore_law err failed system remaining n t' :
  threads c !! i = Some (WRestore err failed system remaining) -> in_hand user t' = [] ->
  queue_law user (thread_events can b (WRestore err failed system remaining)) (pending user c)
    (pending user (mkConfig (restore_batch system remaining b) can n (<[i := t']> (threads c)))).
Proof.
  intros Hi Ht. destruct (holder_alone _ _ _ _ _ _ Hinv Hi eq_refl) as (_ & _ & _ & Hs).
  unfold pending; simpl. rewrite (in_hand_replace _ _ _ _ _ Hi) by (done || lia).
  rewrite (in_hand_holder _ _ _ _ Hi) by (done || lia). rewrite Ht; simpl.
  destruct (closed b) eqn:Hc.
  - apply law_dropped; [left|]. simpl. rewrite app_nil_r.
    apply sublist_inserts_l. unfold restore_batch.
    destruct system; simpl; rewrite Hc; by destruct user.
  - apply law_same. unfold restore_batch.
    destruct system, user; simpl; rewrite Hc; destruct remaining; simpl; try done.
    all: by rewrite fmap_app, <- list_fmap_compose, list_fmap_id.
Qed.

Lemma thread_step_law t b' n t' :
  threads c !! i = Some t -> thread_step foreign can b t b' n t' ->
  queue_law user (thread_events can b t) (pending user c)
    (pending user (mkConfig b' can (activations c + n) (<[i := t']> (threads c)))).
Proof.
  intros Hi Hstep. inversion Hstep; subst.
  - eapply enqueue_law; eauto. by destruct out.
  - apply law_same. by eapply pending_same.
  - apply law_same. by eapply pending_same.
  - eapply refused_law; eauto. by destruct fallback.
  - apply law_same. by eapply pending_same.
  - apply law_same. by eapply pending_same.
  - apply law_same. eapply pending_same; eauto; unfold call_enter in *;
      destruct (running b); simplify_eq; by destruct user.
  - eapply take_law; eauto.
  - eapply restore_law; eauto. by destruct failed.
  - apply law_same. eapply pending_same; eauto; unfold check_more in *;
      destruct (closed b || _); simplify_eq; by destruct user.
  - apply law_same. by eapply pending_same.
  - apply law_same. by eapply pending_same.
  - apply law_same. by eapply pending_same.
  - apply law_same. eapply pending_same; eauto; unfold take_inline in *; simplify_eq;
      destruct user, (inline_run_requested b); done.
  - apply law_same. eapply pending_same; eauto; by destruct user.
  - apply law_same. eapply pending_same; eauto; unfold recover_locked in *;
      destruct (closed b || _); simplify_eq; by destruct user.
  - apply law_same. by eapply pending_same.
  - apply law_same. by eapply pending_same.
  - apply law_same. eapply pending_same; eauto; unfold recover_refused_locked in *;
      destruct (system_messages b); simplify_eq; by destruct user.
  - apply law_same. by eapply pending_same.
  - apply law_same. by eapply pending_same.
  - apply law_same. eapply pending_same; eauto; unfold call_finish in *;
      destruct (inline_run_requested b); simplify_eq; by destruct user.
Qed.
End steps.

(** Every step of a mailbox refines a step of the abstract queue. *)
Lemma step_law cap thr c es c' user :
  mailbox_inv false cap thr c -> step false c es c' ->
  queue_law user es (pending user c) (pending user c').
Proof.
  intros Hinv Hstep.
  destruct Hstep as [c i t b' n t' Hi Ht|c i err system batch consumed given_up remaining can' out
    stop t' Hi Hb Hg Hout|c u report_full m|c n Hn|c|c].
  - by eapply thread_step_law.
  - destruct (holder_alone _ _ _ _ _ _ Hinv Hi eq_refl) as (_ & _ & _ & Hs).
    assert (Ht : in_hand user t' = if Bool.eqb system user then [] else remaining).
    { by destruct Hout as [[_ ->]|[(_ & -> & _)|(_ & _ & ?)]]. }
    unfold pending; simpl. rewrite (in_hand_replace _ _ _ _ _ Hi) by (done || lia).
    rewrite (in_hand_holder _ _ _ _ Hi) by (done || lia). rewrite Ht; simpl. subst batch.
    destruct stop; [apply law_dropped; [right; left|]|].
    + destruct system, user; simpl; rewrite ?app_nil_r, <- ?(assoc_L (++)); try done.
      * apply sublist_nil_l.
      * apply sublist_app; [done|]. by apply sublist_inserts_l.
      * apply sublist_app; [done|]. apply sublist_inserts_l. by apply sublist_inserts_r.
    + destruct given_up as [|x given_up]; [|by discriminate Hg]. apply law_eq.
      destruct system, user; simpl; by rewrite ?app_nil_r, <- ?(assoc_L (++)).
  - apply law_same. unfold pending; simpl. rewrite flat_map_app; simpl. by rewrite app_nil_r.
  - apply law_same. unfold pending; simpl. rewrite flat_map_app; simpl. by rewrite app_nil_r.
  - by apply law_same.
  - apply law_dropped; [left|]. unfold pending; simpl. rewrite app_nil_r.
    destruct user; simpl; rewrite app_nil_r; by apply sublist_inserts_r.
Qed.

Lemma execution_law cap thr es c user :
  execution false cap thr es c ->
  sublist (consumed user es ++ pending user c) (accepted user es) /\
  (Dropped ∉ es -> consumed user es ++ pending user c = accepted user es).
Proof.
  induction 1 as [b Hb|es e c c' Hex [IHo IHe] Hstep].
  { unfold new_mailbox in Hb. destruct (_ && _); [|done]. apply Ok_inj in Hb. subst.
    by destruct user. }
  pose proof (step_law _ _ _ _ _ user (execution_inv _ _ _ _ _ Hex) Hstep) as [Ho He].
  unfold consumed, accepted in *. rewrite !flat_map_app, <- (assoc_L (++)). split.
  - etrans; [apply sublist_app; [reflexivity|exact Ho]|].
    rewrite (assoc_L (++)). by apply sublist_app.
  - intros Hd. rewrite not_elem_of_app in Hd. destruct Hd as [Hd1 Hd2].
    rewrite (He Hd2), (assoc_L (++)). f_equal. by apply IHe.
Qed.

(** A lost activation is the only one there was. *)
Lemma stranded_alone foreign cap thr c :
  mailbox_inv foreign cap thr c -> existsb stranded (threads c) = true ->
  activations c = 0%nat /\ inline_run_requested (box c) = false /\
  forall i t, threads c !! i = Some t -> stranded t = false -> holds_token t = 0%nat.
Proof.
  intros Hinv (s & Hin & Hst)%existsb_exists.
  apply list_elem_of_In, list_elem_of_lookup in Hin as [j Hj].
  assert (holds_token s = 1%nat) as H1 by (by destruct s).
  destruct (holder_alone _ _ _ _ _ _ Hinv Hj H1) as (_ & Hi & Ha & Hsum).
  split_and!; try done. intros i t Hi' Ht.
  assert (j <> i) as Hne by (intros ->; congruence).
  pose proof (sum_two holds_token _ _ _ _ _ Hne Hj Hi'). lia.
Qed.

(** What a thread that is still on its way holds: the activation, or a place in
    the loop of [__call__], which looks for an inline request before it leaves. *)
Definition will_run t : bool :=
  negb (stranded t) && negb (Nat.eqb (holds_token t + in_region t) 0).

Lemma on_its_way cap thr c :
  mailbox_inv false cap thr c -> closed (box c) = false -> scheduled (box c) = true ->
  activations c = 0%nat -> existsb stranded (threads c) = false ->
  existsb will_run (threads c) = true.
Proof.
  intros [_ _ Ir _ Ieq _ _ _ Iin] Hc Hs Ha He. specialize (Ieq Hc).
  unfold tokens in Ieq. rewrite Hs, Ha in Ieq. simpl in Ieq.
  assert (exists i t, threads c !! i = Some t /\ (holds_token t + in_region t <> 0)%nat)
    as (i & t & Hi & Ht).
  { destruct (decide (sum_list_with holds_token (threads c) = 0%nat)) as [Hh|Hh].
    - destruct (inline_run_requested (box c)); [|simpl in *; lia].
      rewrite (Iin eq_refl) in Ir.
      destruct (sum_positive in_region (threads c)) as (i & t & Hi & Ht); [simpl in *; lia|].
      exists i, t. split; [done|lia].
    - destruct (sum_positive _ _ Hh) as (i & t & Hi & Ht). exists i, t. split; [done|lia]. }
  apply existsb_exists. exists t. apply list_elem_of_lookup_2, list_elem_of_In in Hi. split; [done|].
  unfold will_run. apply andb_true_iff; split; apply negb_true_iff; [|by apply Nat.eqb_neq].
  destruct (stranded t) eqn:Hst; [|done].
  rewrite <- He. symmetry. apply existsb_exists. by exists t.
Qed.

(** Nothing takes a stranded thread away. *)
Lemma stranded_stays foreign c es c' :
  step foreign c es c' -> existsb stranded (threads c) = true ->
  existsb stranded (threads c') = true.
Proof.
  assert (forall i t t', threads c !! i = Some t -> stranded t = false ->
    existsb stranded (threads c) = true ->
    existsb stranded (<[i := t']> (threads c)) = true) as Hins.
  { intros i t t' Hi Ht (s & Hs & Hst)%existsb_exists. apply existsb_exists. exists s.
    split; [|done]. apply list_elem_of_In in Hs. apply list_elem_of_lookup in Hs as [j Hj].
    apply list_elem_of_In, (list_elem_of_lookup_2 _ j).
    rewrite list_lookup_insert_ne; [done|]. intros ->. congruence. }
  intros Hstep He. destruct Hstep as [c i t b' n t' Hi Ht|c i err system batch consumed given_up
    remaining can' out stop t' Hi Hb Hg Hout|c u report_full m|c n Hn|c|c]; simpl in *; try done.
  - eapply Hins; eauto. by destruct Ht.
  - by eapply Hins.
  - by rewrite existsb_app, He.
  - by rewrite existsb_app, He.
Qed.

(** * Claims *)

(** C4.  Serialization of one actor: in every interleaving of any number of
    senders and dispatcher workers, with any dispatcher and actor behaviour, at
    most one worker is between the entry and the exit of [__call__]'s loop (so
    [actor.invoke_batch] never runs twice at once), and at most one activation
    of the mailbox exists, counting those queued at the dispatcher, those held
    by a thread and a requested inline run. *)
Theorem mailbox_serializes foreign cap thr es c :
  execution foreign cap thr es c ->
  (tokens c <= 1)%nat /\
  forall i j t u, threads c !! i = Some t -> threads c !! j = Some u ->
    in_region t = 1%nat -> in_region u = 1%nat -> i = j.
Proof.
  intros Hex. destruct (execution_inv _ _ _ _ _ Hex) as [_ _ Ir Ile _ _ _ _ _]. split.
  - destruct (scheduled (box c)); simpl in Ile; lia.
  - intros i j t u Hi Hj Ht Hu. destruct (decide (i = j)) as [|Hij]; [done|].
    pose proof (sum_two in_region _ _ _ _ _ Hij Hi Hj).
    destruct (running (box c)); simpl in Ir; lia.
Qed.

(** C12.  Bounded mailbox: queued plus in-flight user messages never exceed the
    configured capacity, whatever the interleaving of sends, batches, restored
    batches and recoveries after failures. *)
Theorem mailbox_capacity_bound foreign cap thr es c :
  execution foreign cap thr es c ->
  len (messages (box c)) + in_flight_user_messages (box c) <= cap /\
  0 <= in_flight_user_messages (box c).
Proof. intros Hex. destruct (execution_inv _ _ _ _ _ Hex) as [_ _ _ _ _ _ [] _ _]. done. Qed.

(** C11.  No lost wake-up: whenever an open mailbox holds something its actor can
    process, it is marked scheduled; and unless a call of [dispatch_system]
    raised, an activation is queued at the dispatcher or a thread is on its way
    to run or to reschedule it.  The dispatcher may refuse any activation.  If
    [dispatch_system] did raise, in [_enqueue] or in [_recover_after_failure],
    the mailbox stays marked scheduled while no activation is queued, none is
    requested inline and no other thread holds one. *)
Theorem mailbox_no_lost_wakeup cap thr es c :
  execution false cap thr es c -> closed (box c) = false ->
  nothing_to_run (can_process c) (box c) = false ->
  scheduled (box c) = true /\
  if existsb stranded (threads c)
  then activations c = 0%nat /\ inline_run_requested (box c) = false /\
       forall i t, threads c !! i = Some t -> stranded t = false -> holds_token t = 0%nat
  else activations c <> 0%nat \/ existsb will_run (threads c) = true.
Proof.
  intros Hex Hc Hn. pose proof (execution_inv _ _ _ _ _ Hex) as Hinv.
  destruct (scheduled (box c)) eqn:Hs; [|by rewrite (inv_idle _ _ _ _ Hinv) in Hn].
  split; [done|]. destruct (existsb stranded (threads c)) eqn:He.
  - by apply (stranded_alone false cap thr).
  - destruct (decide (activations c = 0%nat)) as [Ha|]; [right|by left].
    by eapply on_its_way.
Qed.

(** C10.  FIFO delivery, for user and for lifecycle messages: what the actor has
    consumed followed by what is pending is, in order and without duplicates, a
    subsequence of what [_enqueue] accepted; and it is exactly what was accepted
    as long as no message was given up (a refused activation of a user message,
    [stop_user_messages], [close]).  Restored batches go back to the front. *)
Theorem mailbox_fifo cap thr es c user :
  execution false cap thr es c ->
  sublist (consumed user es ++ pending user c) (accepted user es) /\
  (Dropped ∉ es -> consumed user es ++ pending user c = accepted user es).
Proof. apply execution_law. Qed.
End queue.

(** * A concrete run *)
Module MailboxRun.
(** A lifecycle message is sent to a mailbox of capacity 2; its activation is
    accepted by the dispatcher and a worker takes the message. *)
Definition box1 : mailbox (M := nat) :=
  mkMailbox 2 1 [] [Entry 0 7%nat] 0 true false false true false 1.
Definition sent : config := mkConfig box1 false 0 [SDispatch false 0].
Definition taken : config :=
  mkConfig (mkMailbox 2 1 [] [] 0 true true false true false 1) false 0
    [SDone (Ok ACCEPTED); WInvoke false true [7%nat]].

Lemma exec_thread es c i t b' n t' es' c' :
  execution (M := nat) false 2 1 es c -> threads c !! i = Some t ->
  thread_step false (can_process c) (box c) t b' n t' ->
  es' = es ++ thread_events (can_process c) (box c) t ->
  c' = mkConfig b' (can_process c) (activations c + n) (<[i := t']> (threads c)) ->
  execution false 2 1 es' c'.
Proof. intros H Hi Ht -> ->. eapply exec_step; [done|by eapply step_thread]. Qed.

Lemma sent_execution : execution false 2 1 [Accepted false 7%nat] sent.
Proof.
  eapply (exec_thread _ _ 0).
  - eapply exec_step; [by apply exec_init|apply (step_send _ _ false false 7%nat)].
  - reflexivity.
  - by apply (step_enqueue _ _ _ _ _ _ box1 (MustDispatch 0)).
  - reflexivity.
  - reflexivity.
Qed.

Lemma taken_execution : execution false 2 1 [Accepted false 7%nat] taken.
Proof.
  assert (execution false 2 1 [Accepted false 7%nat]
    (mkConfig box1 false 1 [SDone (Ok ACCEPTED)])) as H1.
  { eapply (exec_thread _ _ 0); [apply sent_execution|reflexivity|
      apply step_send_dispatched|reflexivity|reflexivity]. }
  pose proof (exec_step _ _ _ _ _ _ _ H1
    (step_worker _ (mkConfig box1 false 1 [SDone (Ok ACCEPTED)]) 0 eq_refl)) as H2.
  assert (execution false 2 1 [Accepted false 7%nat]
    (mkConfig (set_running box1 true) false 0 [SDone (Ok ACCEPTED); WBatch false])) as H3.
  { eapply (exec_thread _ _ 1); [exact H2|reflexivity|
      by apply (step_enter _ _ _ _ true)|reflexivity|reflexivity]. }
  eapply (exec_thread _ _ 1); [exact H3|reflexivity|
    by apply (step_take _ _ _ _ _ (Some (true, [7%nat])))|reflexivity|reflexivity].
Qed.

(** Two user messages fill the mailbox before its actor has started; the actor
    starts, and the worker takes the first of them. *)
Definition full : config :=
  mkConfig (mkMailbox 2 1 [Plain 6%nat] [] 1 true true false true false 1) true 0
    [SDone (Ok ACCEPTED); SDone (Ok ACCEPTED); SDone (Ok ACCEPTED); WInvoke false false [5%nat]].

Lemma exec_next es c i t b' n t' :
  execution (M := nat) false 2 1 es c -> threads c !! i = Some t ->
  thread_step false (can_process c) (box c) t b' n t' ->
  execution false 2 1 (es ++ thread_events (can_process c) (box c) t)
    (mkConfig b' (can_process c) (activations c + n) (<[i := t']> (threads c))).
Proof. intros H Hi Ht. by eapply exec_thread. Qed.

(** One more step of thread [i], by the rule [r]. *)
Ltac run_thread H i r :=
  eapply (exec_next _ _ i) in H; [|reflexivity|r]; vm_compute in H.
Ltac run_step H r := eapply exec_step in H; [|r]; vm_compute in H.

Lemma full_execution : exists es, execution false 2 1 es full.
Proof.
  assert (execution (M := nat) false 2 1 []
    (mkConfig (mkMailbox 2 1 [] [] 0 false false false true false 0) false 0 [])) as H
    by (by apply exec_init).
  run_step H ltac:(apply (step_send _ _ true false 5%nat)).
  run_thread H 0%nat ltac:(eapply step_enqueue; reflexivity).
  run_step H ltac:(apply (step_send _ _ true false 6%nat)).
  run_thread H 1%nat ltac:(eapply step_enqueue; reflexivity).
  run_step H ltac:(apply (step_send _ _ false false 7%nat)).
  run_thread H 2%nat ltac:(eapply step_enqueue; reflexivity).
  run_thread H 2%nat ltac:(apply step_send_dispatched).
  run_step H ltac:(by eapply step_worker).
  run_thread H 3%nat ltac:(eapply step_enter; reflexivity).
  run_thread H 3%nat ltac:(eapply step_take; reflexivity).
  eapply exec_step in H.
  2: { by apply (step_invoke _ _ 3 false true [7%nat] [7%nat] [] [] true (InvokeReturned []) false
         (WRestore false false true [])); [..|left]. }
  vm_compute in H.
  run_thread H 3%nat ltac:(eapply step_restore; reflexivity).
  run_thread H 3%nat ltac:(eapply step_check; reflexivity).
  run_thread H 3%nat ltac:(apply step_dispatch_refused).
  run_thread H 3%nat ltac:(eapply step_take; reflexivity).
  eexists. exact H.
Qed.

(** The dispatcher refuses the activation of the lifecycle message, and then its
    reserved activation too: the message stays queued, the mailbox scheduled. *)
Definition stuck : config := mkConfig box1 false 0 [SStranded].

Lemma stuck_execution : execution false 2 1 [Accepted false 7%nat] stuck.
Proof.
  pose proof sent_execution as H.
  run_thread H 0%nat ltac:(apply step_send_refused).
  run_thread H 0%nat ltac:(eapply step_refused; reflexivity).
  run_thread H 0%nat ltac:(apply step_fallback_raised).
  exact H.
Qed.

(** From there on no activation is ever made, whoever sends what: the queued
    lifecycle message is never taken. *)
Theorem refused_dispatch_system_strands c :
  rtc (fun c c' => exists es, step false c es c') stuck c ->
  existsb stranded (threads c) = true /\ activations c = 0%nat /\
  inline_run_requested (box c) = false.
Proof.
  assert (forall c0 es0, execution false 2 1 es0 c0 -> existsb stranded (threads c0) = true ->
    rtc (fun c c' => exists es, step false c es c') c0 c ->
    existsb stranded (threads c) = true /\ exists es, execution false 2 1 es c) as Hgen.
  { intros c0 es0 Hex Hst Hrtc. revert es0 Hex Hst.
    induction Hrtc as [c0|c0 c1 c2 [es Hstep] _ IH]; intros es0 Hex Hst; [by eauto|].
    eapply IH; [by eapply exec_step|by eapply stranded_stays]. }
  intros H. destruct (Hgen _ _ stuck_execution eq_refl H) as [Hst [es Hex]].
  destruct (stranded_alone _ _ _ _ (execution_inv _ _ _ _ _ Hex) Hst) as (? & ? & _). done.
Qed.

Lemma mailbox_serializes_witness : (tokens taken <= 1)%nat.
Proof. apply (mailbox_serializes false 2 1 _ taken taken_execution). Defined.

Lemma mailbox_capacity_bound_witness :
  len (messages (box full)) + in_flight_user_messages (box full) <= 2.
Proof.
  destruct full_execution as [es H]. apply (mailbox_capacity_bound false 2 1 es full H).
Defined.

Lemma mailbox_no_lost_wakeup_witness :
  (scheduled (box sent) = true /\ (activations sent <> 0%nat \/ existsb will_run (threads sent) = true)) /\
  scheduled (box stuck) = true /\ activations stuck = 0%nat.
Proof.
  split; [apply (mailbox_no_lost_wakeup 2 1 _ sent sent_execution); reflexivity|].
  destruct (mailbox_no_lost_wakeup 2 1 _ stuck stuck_execution eq_refl eq_refl) as (? & ? & _).
  split; assumption.
Defined.

Lemma mailbox_fifo_witness : [] ++ pending false taken = [7%nat].
Proof.
  apply (mailbox_fifo 2 1 _ taken false taken_execution).
  intros H. inversion H as [|? ? ? H']; inversion H'.
Defined.
End MailboxRun.
