(* ===== verification/Registry.v ===== *)
(** The serializer registry and its builder: [SerializerRegistryBuilder] and
    [SerializerRegistry] of [movie/remoting/serialization.py].

    A Python dict keeps its insertion order; it is an association list here.  A
    builder method that raises keeps what it had already stored, so a method
    returns the builder next to its result.  Message types, values and the
    serializers' own code are parameters: [type_of] is [type(value)], and a
    serializer is a pair of functions that may fail, whose [serialize] may also
    return something that is not [bytes]. *)

From stdpp Require Import base list numbers gmap sorting.
From S2P Require Import Prelude Bytes PyStr Dict Serialization.

Section registry.
Context `{Unicode}.
Context {T V : Type} `{EqDecision T} (type_of : V -> T).

(** [Serializer]: [serialize] returns bytes, something else ([None]), or raises. *)
Record Serializer := mkSerializer {
  s_serialize : V -> pystr -> Z -> result (option bytes);
  s_deserialize : bytes -> pystr -> Z -> result V;
}.

Record _Registration := mkRegistration {
  descriptor : SerializerDescriptor;
  serializer : Serializer;
}.

Record SerializerBinding := mkBinding {
  message_type : T;
  sb_serializer_id : Z;
  sb_manifest : pystr;
}.

Record SerializedPayload := mkPayload {
  sp_serializer_id : Z;
  sp_manifest : pystr;
  sp_payload : bytes;
}.

Record SerializerRegistry := mkRegistry {
  _registrations : list (Z * _Registration);
  _bindings : list (T * SerializerBinding);
  _descriptors : list SerializerDescriptor;
}.

Definition key_le (p q : Z * _Registration) : Prop := p.1 <= q.1.
#[global] Instance key_le_dec : RelDecision key_le.
Proof. intros p q. unfold key_le. apply _. Defined.
#[global] Instance key_le_total : Total key_le.
Proof. intros p q. unfold key_le. lia. Qed.
#[global] Instance key_le_trans : Transitive key_le.
Proof. intros p q r. unfold key_le. lia. Qed.

(** [SerializerRegistry.__init__]. *)
Definition SerializerRegistry_new (registrations : list (Z * _Registration))
    (bindings : list (T * SerializerBinding)) : SerializerRegistry :=
  mkRegistry registrations bindings
    ((fun p : Z * _Registration => descriptor p.2) <$> merge_sort key_le registrations).

Definition registry_descriptor (r : SerializerRegistry) (serializer_id : Z) :
    result SerializerDescriptor :=
  match dict_get (_registrations r) serializer_id with
  | Some reg => Ok (descriptor reg)
  | None => Err UnknownSerializerError
  end.

Definition binding_for (r : SerializerRegistry) (t : T) : result SerializerBinding :=
  match dict_get (_bindings r) t with
  | Some b => Ok b
  | None => Err UnknownSerializerError
  end.

Definition _serialize (r : SerializerRegistry) (binding : SerializerBinding) (value : V)
    (protocol_minor : Z) : result SerializedPayload :=
  match dict_get (_registrations r) (sb_serializer_id binding) with
  | None => Err KeyError
  | Some registration =>
      registry_uint protocol_minor (sd_protocol_minor (descriptor registration)) false ≫= fun _ =>
      match s_serialize (serializer registration) value (sb_manifest binding) protocol_minor with
      | Ok (Some payload) =>
          Ok (mkPayload (sb_serializer_id binding) (sb_manifest binding) payload)
      | Ok None | Err _ => Err SerializationError
      end
  end.

Definition serialize (r : SerializerRegistry) (value : V) : result SerializedPayload :=
  binding_for r (type_of value) ≫= fun binding =>
  match dict_get (_registrations r) (sb_serializer_id binding) with
  | None => Err KeyError
  | Some registration =>
      _serialize r binding value (sd_protocol_minor (descriptor registration))
  end.

Definition serialize_for_route (r : SerializerRegistry) (value : V) (route : SerializerRoute)
    (protocol_minor : Z) : result SerializedPayload :=
  binding_for r (type_of value) ≫= fun binding =>
  if negb (sb_serializer_id binding =? sr_serializer_id route)
     || negb (bool_decide (sb_manifest binding ∈ sr_manifests route))
  then Err UnsupportedManifestError
  else _serialize r binding value protocol_minor.

Definition deserialize (r : SerializerRegistry) (serializer_id : Z) (manifest : pystr)
    (payload : bytes) (protocol_minor : option Z) : result V :=
  match dict_get (_registrations r) serializer_id with
  | None => Err UnknownSerializerError
  | Some registration =>
      if negb (bool_decide (manifest ∈ sd_readable_manifests (descriptor registration)))
      then Err UnsupportedManifestError
      else
        let selected_minor :=
          default (sd_protocol_minor (descriptor registration)) protocol_minor in
        registry_uint selected_minor (sd_protocol_minor (descriptor registration)) false
        ≫= fun _ =>
        match s_deserialize (serializer registration) payload manifest selected_minor with
        | Ok v => Ok v
        | Err _ => Err DeserializationError
        end
  end.

(** * The builder *)

Record SerializerRegistryBuilder := mkBuilder {
  b_registrations : list (Z * _Registration);
  b_names : list (pystr * Z);
  b_bindings : list (T * SerializerBinding);
}.

Definition builder_new : SerializerRegistryBuilder := mkBuilder [] [] [].

(** Store a registration; the two guards of [register] and [include]. *)
Definition add_registration (b : SerializerRegistryBuilder) (serializer_id : Z)
    (registration : _Registration) : SerializerRegistryBuilder * result unit :=
  let name := sd_name (descriptor registration) in
  if dict_has (b_registrations b) serializer_id then (b, Err SerializerRegistryError)
  else if dict_has (b_names b) name then (b, Err SerializerRegistryError)
  else (mkBuilder (dict_set (b_registrations b) serializer_id registration)
          (dict_set (b_names b) name serializer_id) (b_bindings b), Ok tt).

Definition register (d : SerializerDescriptor) (s : Serializer)
    (b : SerializerRegistryBuilder) : SerializerRegistryBuilder * result unit :=
  add_registration b (sd_serializer_id d) (mkRegistration d s).

Definition bind (t : T) (serializer_id : Z) (manifest : pystr)
    (b : SerializerRegistryBuilder) : SerializerRegistryBuilder * result unit :=
  if dict_has (b_bindings b) t then (b, Err SerializerRegistryError)
  else match dict_get (b_registrations b) serializer_id with
       | None => (b, Err SerializerRegistryError)
       | Some registration =>
           if negb (bool_decide (manifest ∈ sd_writable_manifests (descriptor registration)))
           then (b, Err SerializerRegistryError)
           else (mkBuilder (b_registrations b) (b_names b)
                   (dict_set (b_bindings b) t (mkBinding t serializer_id manifest)), Ok tt)
       end.

(** The two loops of [include]: each stops at the first error. *)
Fixpoint include_registrations (rs : list (Z * _Registration))
    (b : SerializerRegistryBuilder) : SerializerRegistryBuilder * result unit :=
  match rs with
  | [] => (b, Ok tt)
  | (i, registration) :: rs' =>
      match add_registration b i registration with
      | (b', Ok _) => include_registrations rs' b'
      | (b', Err e) => (b', Err e)
      end
  end.

Fixpoint include_bindings (bs : list (T * SerializerBinding))
    (b : SerializerRegistryBuilder) : SerializerRegistryBuilder * result unit :=
  match bs with
  | [] => (b, Ok tt)
  | (_, binding) :: bs' =>
      match bind (message_type binding) (sb_serializer_id binding) (sb_manifest binding) b with
      | (b', Ok _) => include_bindings bs' b'
      | (b', Err e) => (b', Err e)
      end
  end.

Definition include (registry : SerializerRegistry) (b : SerializerRegistryBuilder) :
    SerializerRegistryBuilder * result unit :=
  match include_registrations (_registrations registry) b with
  | (b', Ok _) => include_bindings (_bindings registry) b'
  | (b', Err e) => (b', Err e)
  end.

Definition build (b : SerializerRegistryBuilder) : SerializerRegistry :=
  SerializerRegistry_new (b_registrations b) (b_bindings b).

(** * Invariants *)

(** The builder's three dicts agree, and every binding can be served. *)
Record builder_ok (b : SerializerRegistryBuilder) : Prop := {
  bo_keys : Forall (fun p : Z * _Registration => sd_serializer_id (descriptor p.2) = p.1)
              (b_registrations b);
  bo_ids : NoDup (b_registrations b).*1;
  bo_index : b_names b =
    (fun p : Z * _Registration => (sd_name (descriptor p.2), p.1)) <$> b_registrations b;
  bo_names : NoDup (b_names b).*1;
  bo_types : NoDup (b_bindings b).*1;
  bo_bindings : Forall (fun p : T * SerializerBinding =>
      message_type p.2 = p.1 /\
      exists reg, dict_get (b_registrations b) (sb_serializer_id p.2) = Some reg /\
        sb_manifest p.2 ∈ sd_writable_manifests (descriptor reg)) (b_bindings b);
}.

Lemma builder_new_ok : builder_ok builder_new.
Proof. constructor; simpl; try done; constructor. Qed.

Lemma dict_get_app {K W} `{EqDecision K} (d e : list (K * W)) k :
  dict_get (d ++ e) k = match dict_get d k with Some v => Some v | None => dict_get e k end.
Proof. induction d as [|[k' v'] d IH]; simpl; [done|]. by case_decide. Qed.

Lemma NoDup_snoc {A} (l : list A) x : NoDup l -> x ∉ l -> NoDup (l ++ [x]).
Proof.
  intros Hl Hx. apply NoDup_app. split; [done|]. split; [|apply NoDup_singleton].
  intros y Hy. rewrite list_elem_of_singleton. by intros ->.
Qed.

Lemma add_registration_ok b i reg :
  sd_serializer_id (descriptor reg) = i -> builder_ok b ->
  builder_ok (add_registration b i reg).1.
Proof.
  intros Hi Hb. unfold add_registration.
  destruct (dict_has (b_registrations b) i) eqn:E1; [done|].
  destruct (dict_has (b_names b) _) eqn:E2; [done|]. simpl.
  apply dict_has_false in E1, E2. destruct Hb as [Hk Hd Hn Hnd Ht Hbs].
  rewrite !dict_set_fresh by done. constructor; simpl.
  - apply Forall_app; auto.
  - rewrite fmap_app. by apply NoDup_snoc.
  - by rewrite Hn, fmap_app.
  - rewrite fmap_app. by apply NoDup_snoc.
  - done.
  - eapply Forall_impl; [exact Hbs|]. intros p (? & r & Hr & Hm). split; [done|].
    exists r. by rewrite dict_get_app, Hr.
Qed.

Lemma bind_preserves b t i m : builder_ok b -> builder_ok (bind t i m b).1.
Proof.
  intros Hb. unfold bind. destruct (dict_has (b_bindings b) t) eqn:E1; [done|].
  destruct (dict_get (b_registrations b) i) as [reg|] eqn:E2; [|done].
  case_bool_decide as Hm; [|done]. simpl. apply dict_has_false in E1.
  destruct Hb as [Hk Hd Hn Hnd Ht Hbs]. rewrite dict_set_fresh by done.
  constructor; simpl; try done.
  - rewrite fmap_app. by apply NoDup_snoc.
  - apply Forall_app. split; [done|]. constructor; [|done]. simpl. eauto.
Qed.

Lemma include_registrations_ok rs b :
  Forall (fun p : Z * _Registration => sd_serializer_id (descriptor p.2) = p.1) rs ->
  builder_ok b -> builder_ok (include_registrations rs b).1.
Proof.
  intros Hrs. revert b. induction Hrs as [|[i reg] rs Hi Hrs IH]; intros b Hb; [done|]. simpl.
  pose proof (add_registration_ok b i reg Hi Hb) as Hb'.
  destruct (add_registration b i reg) as [b' [u|e]]; simpl in *; auto.
Qed.

Lemma include_bindings_ok bs b : builder_ok b -> builder_ok (include_bindings bs b).1.
Proof.
  revert b. induction bs as [|[t x] bs IH]; intros b Hb; [done|]. simpl.
  pose proof (bind_preserves b (message_type x) (sb_serializer_id x) (sb_manifest x) Hb) as Hb'.
  destruct (bind _ _ _ b) as [b' [u|e]]; simpl in *; auto.
Qed.

(** Registries that a builder produces. *)
Definition registry_ok (r : SerializerRegistry) : Prop :=
  exists b, builder_ok b /\ r = build b.

Lemma include_preserves r b :
  registry_ok r -> builder_ok b -> builder_ok (include r b).1.
Proof.
  intros (b0 & Hb0 & ->) Hb. unfold include; simpl.
  pose proof (include_registrations_ok _ _ (bo_keys _ Hb0) Hb) as Hb'.
  destruct (include_registrations _ b) as [b' [u|e]]; simpl in *; [|done].
  by apply include_bindings_ok.
Qed.
End registry.
