(* ===== verification/Negotiation.v ===== *)
(** Theorems on serializer negotiation ([negotiate_serializers] of
    [movie/remoting/serialization.py]): both peers derive the same canonical
    routes whichever side they call "first", the routes are exactly the
    manifests one side writes and the other reads, and a payload sent on a
    negotiated route is one the peer's registry accepts. *)

From stdpp Require Import base list numbers gmap sorting.
From S2P Require Import Prelude Bytes PyStr Serialization Wire WireRoundTrip Dict Registry.

(** * The order of routes *)
(** * The order of routes *)

(** One level of a lexicographic comparison. *)
Lemma lex_trans {K} `{EqDecision K} (le : K -> K -> Prop) `{!Transitive le, !AntiSymm (=) le}
    (leb : K -> K -> bool) (a b c : K) (tab tbc tac : bool) :
  (forall x y, leb x y = true -> le x y) ->
  (forall x y, x <> y -> le x y -> leb x y = true) ->
  (tab = true -> tbc = true -> tac = true) ->
  (if bool_decide (a = b) then tab else leb a b) = true ->
  (if bool_decide (b = c) then tbc else leb b c) = true ->
  (if bool_decide (a = c) then tac else leb a c) = true.
Proof.
  intros Hle Hlt Ht. repeat case_bool_decide; subst; auto; try done.
  intros La%Hle Lb%Hle. apply Hlt; [done|]. by etrans.
Qed.

Lemma lex_total {K} `{EqDecision K} (leb : K -> K -> bool) (a b : K) (tab tba : bool) :
  (forall x y, x <> y -> leb x y = true \/ leb y x = true) ->
  (tab = true \/ tba = true) ->
  (if bool_decide (a = b) then tab else leb a b) = true \/
  (if bool_decide (b = a) then tba else leb b a) = true.
Proof. intros Hl Ht. repeat case_bool_decide; subst; auto; by destruct Ht. Qed.

Lemma manifests_leb_trans xs ys zs :
  manifests_leb xs ys = true -> manifests_leb ys zs = true -> manifests_leb xs zs = true.
Proof.
  revert ys zs. induction xs as [|x xs IH]; intros [|y ys] [|z zs]; simpl; try done.
  by apply (lex_trans bytes_le); eauto.
Qed.

Lemma manifests_leb_total xs ys : manifests_leb xs ys = true \/ manifests_leb ys xs = true.
Proof.
  revert ys. induction xs as [|x xs IH]; intros [|y ys]; simpl; auto.
  apply lex_total; [|apply IH]. intros. apply (total bytes_le).
Qed.

(** The comparison of serializer IDs, in the shape of [lex_trans]. *)
Lemma route_leb_unfold r s :
  route_leb r s =
  (if bool_decide (be_pack 16 (sr_origin_incarnation_uid r) =
                   be_pack 16 (sr_origin_incarnation_uid s)) then
     (if bool_decide (sr_serializer_id r = sr_serializer_id s) then
        manifests_leb (sr_manifests r) (sr_manifests s)
      else sr_serializer_id r <? sr_serializer_id s)
   else bytes_leb (be_pack 16 (sr_origin_incarnation_uid r))
          (be_pack 16 (sr_origin_incarnation_uid s))).
Proof.
  unfold route_leb. case_bool_decide; [|done]. case_bool_decide as E.
  - apply Z.eqb_eq in E. by rewrite E.
  - apply Z.eqb_neq in E. by rewrite E.
Qed.

#[global] Instance route_le_trans : Transitive route_le.
Proof.
  intros r s t. unfold route_le. rewrite !route_leb_unfold.
  apply (lex_trans bytes_le); [done|done|].
  apply (lex_trans Z.le); [intros; lia|intros; lia|]. apply manifests_leb_trans.
Qed.

#[global] Instance route_le_total : Total route_le.
Proof.
  intros r s. unfold route_le. rewrite !route_leb_unfold.
  apply lex_total; [intros; apply (total bytes_le)|].
  apply lex_total; [intros; lia|]. apply manifests_leb_total.
Qed.

(** Routes that compare both ways have the same origin and serializer. *)
Lemma route_le_antisymm_key r s :
  0 <= sr_origin_incarnation_uid r < 2 ^ 128 -> 0 <= sr_origin_incarnation_uid s < 2 ^ 128 ->
  route_le r s -> route_le s r ->
  sr_origin_incarnation_uid r = sr_origin_incarnation_uid s /\
  sr_serializer_id r = sr_serializer_id s.
Proof.
  intros Hr Hs. unfold route_le. rewrite !route_leb_unfold. repeat case_bool_decide;
    try congruence; try lia.
  - intros _ _. split; [|done].
    rewrite <- (be_unpack_pack_small 16 (sr_origin_incarnation_uid r)) by done.
    rewrite <- (be_unpack_pack_small 16 (sr_origin_incarnation_uid s)) by done. congruence.
  - intros La Lb. match goal with N : _ <> _ |- _ => destruct N end.
    by apply (anti_symm bytes_le).
Qed.

Section negotiation.
Context `{Unicode}.

(** * Indexing a peer's descriptors *)

Lemma descriptor_maps_spec ds bi bn bi' bn' :
  _descriptor_maps ds bi bn = Ok (bi', bn') ->
  (forall i d, bi' !! i = Some d <-> bi !! i = Some d \/ d ∈ ds /\ sd_serializer_id d = i) /\
  (forall n i, bn' !! n = Some i <->
     bn !! n = Some i \/ exists d, d ∈ ds /\ sd_name d = n /\ sd_serializer_id d = i).
Proof.
  revert bi bn. induction ds as [|d ds IH]; intros bi bn; simpl.
  - intros [= <- <-]. set_solver.
  - case_bool_decide as E1; [done|]. case_bool_decide as E2; [done|].
    intros [Hi Hn]%IH. apply eq_None_not_Some in E1. apply eq_None_not_Some in E2. split.
    + intros i e. rewrite Hi, lookup_insert_Some. set_solver.
    + intros n i. rewrite Hn, lookup_insert_Some. set_solver.
Qed.

Lemma descriptor_maps_err ds bi bn e :
  _descriptor_maps ds bi bn = Err e -> e = SerializerNegotiationError.
Proof.
  revert bi bn. induction ds as [|d ds IH]; intros bi bn; simpl; [done|].
  repeat case_bool_decide; [by intros [= <-]..|apply IH].
Qed.

(** * One serializer ID *)

(** The route of one direction, if anything is sendable. *)
Definition routes_at (origin i : Z) (sendable : gset pystr) : list SerializerRoute :=
  if bool_decide (sendable = ∅) then []
  else [mkRoute origin i (sorted_utf8 (elements sendable))].

Definition sendable (w r : SerializerDescriptor) : gset pystr :=
  sd_writable_manifests w ∩ sd_readable_manifests r.

Definition compatible (f s : gmap Z SerializerDescriptor) (i : Z) : bool :=
  match f !! i, s !! i with
  | Some a, Some b =>
      bool_decide (sd_name a = sd_name b) && (sd_protocol_major a =? sd_protocol_major b)
  | _, _ => false
  end.

Definition pair_routes (u v : Z) (f s : gmap Z SerializerDescriptor) (i : Z) :
    list SerializerRoute :=
  match f !! i, s !! i with
  | Some a, Some b => routes_at u i (sendable a b) ++ routes_at v i (sendable b a)
  | _, _ => []
  end.

Definition pair_minor (f s : gmap Z SerializerDescriptor) (i : Z) : list NegotiatedSerializer :=
  match f !! i, s !! i with
  | Some a, Some b =>
      [mkNegotiated i (Z.min (sd_protocol_minor a) (sd_protocol_minor b))]
  | _, _ => []
  end.

(** Manifests of validated descriptors make a valid route. *)
Lemma append_route_ok rs o i a b :
  descriptor_ok a -> descriptor_ok b -> sd_serializer_id a = i -> o <> 0 ->
  append_route rs o i (sendable a b) = Ok (rs ++ routes_at o i (sendable a b)).
Proof.
  intros Ha Hb <- Ho. unfold append_route, routes_at.
  case_bool_decide as E; [by rewrite app_nil_r|].
  destruct Ha as [_ _ _ Ha]. unfold SerializerDescriptor_new in Ha. inv_run.
  repeat match goal with u : unit |- _ => destruct u end.
  unfold SerializerRoute_new.
  rewrite (proj2 (Z.eqb_neq o 0) Ho); simpl.
  match goal with R : registry_uint (sd_serializer_id a) _ _ = _ |- _ => rewrite R end; simpl.
  assert (Hsub : sendable a b ⊆ sd_writable_manifests a) by (unfold sendable; set_solver).
  pose proof (subseteq_size _ _ Hsub) as Hsz.
  rewrite (proj2 (Z.leb_le _ _)); simpl.
  2: { unfold len. unfold size, set_size in *. simpl in *. lia. }
  replace (check_manifests (elements (sendable a b))) with (Ok tt : result unit); simpl.
  2: { symmetry. unfold check_manifests in *.
       match goal with R : raise_unless (forallb _ _) _ = _ |- _ =>
         apply raise_unless_ok in R; rewrite forallb_forall in R; rename R into Hall end.
       apply raise_unless_ok, forallb_forall. intros m Hm. apply Hall.
       apply list_elem_of_In in Hm. apply list_elem_of_In.
       apply elem_of_elements in Hm. apply elem_of_elements. set_solver. }
  rewrite (proj2 (all_distinct_spec _)) by apply NoDup_elements. simpl.
  rewrite bool_decide_eq_false_2; [done|]. intros En.
  pose proof (sorted_utf8_perm (elements (sendable a b))) as P. rewrite En in P.
  apply Permutation_nil in P. by apply elements_empty_inv in P; apply E, leibniz_equiv.
Qed.

Definition well_indexed (m : gmap Z SerializerDescriptor) : Prop :=
  forall i d, m !! i = Some d -> descriptor_ok d /\ sd_serializer_id d = i.

(** The loop over the common IDs, in closed form. *)
Lemma negotiate_ids_closed u v f s ids rs ns :
  well_indexed f -> well_indexed s -> u <> 0 -> v <> 0 ->
  Forall (fun i => is_Some (f !! i) /\ is_Some (s !! i)) ids ->
  negotiate_ids u v f s ids rs ns =
    if forallb (compatible f s) ids
    then Ok (rs ++ flat_map (pair_routes u v f s) ids, ns ++ flat_map (pair_minor f s) ids)
    else Err SerializerNegotiationError.
Proof.
  intros Hf Hs Hu Hv Hids. revert rs ns.
  induction Hids as [|i ids [[a Ha] [b Hb]] Hids IH]; intros rs ns; simpl.
  - by rewrite !app_nil_r.
  - unfold compatible at 1, pair_routes at 1, pair_minor at 1. rewrite Ha, Hb.
    case_bool_decide; simpl; [|done].
    destruct (sd_protocol_major a =? sd_protocol_major b); simpl; [|done].
    destruct (Hf _ _ Ha) as [Hoa Hia], (Hs _ _ Hb) as [Hob Hib].
    fold (sendable a b). fold (sendable b a).
    rewrite append_route_ok by done. simpl. rewrite append_route_ok by done. simpl.
    rewrite IH. by rewrite <- !(assoc_L (++)).
Qed.

Lemma maps_well_indexed ds f fn :
  Forall descriptor_ok ds -> _descriptor_maps ds ∅ ∅ = Ok (f, fn) -> well_indexed f.
Proof.
  intros Hds [Hi _]%descriptor_maps_spec i d Hd. apply Hi in Hd as [Hd|[Hin <-]].
  - by rewrite lookup_empty in Hd.
  - split; [|done]. by eapply Forall_forall in Hin.
Qed.

Definition common_ids (f s : gmap Z SerializerDescriptor) : list Z :=
  merge_sort Z.le (elements (dom f ∩ dom s)).

Lemma common_ids_elem f s i :
  i ∈ common_ids f s <-> is_Some (f !! i) /\ is_Some (s !! i).
Proof.
  unfold common_ids. rewrite merge_sort_Permutation, elem_of_elements, elem_of_intersection.
  by rewrite !elem_of_dom.
Qed.

Lemma common_ids_both f s :
  Forall (fun i => is_Some (f !! i) /\ is_Some (s !! i)) (common_ids f s).
Proof. apply Forall_forall. intros i. apply common_ids_elem. Qed.

Lemma common_ids_comm f s : common_ids f s = common_ids s f.
Proof. unfold common_ids. by rewrite (comm_L (∩)). Qed.

Lemma routes_at_elem r o i m :
  r ∈ routes_at o i m <-> m <> ∅ /\ r = mkRoute o i (sorted_utf8 (elements m)).
Proof.
  unfold routes_at. case_bool_decide; [set_solver|]. rewrite list_elem_of_singleton. naive_solver.
Qed.

Lemma elem_of_flat_map {A B} (g : A -> list B) l y :
  y ∈ flat_map g l <-> exists x, x ∈ l /\ y ∈ g x.
Proof.
  rewrite list_elem_of_In, in_flat_map. setoid_rewrite list_elem_of_In. done.
Qed.

(** The routes of a set of IDs: each is determined by its origin and ID. *)
Lemma pair_routes_elem u v f s ids r :
  r ∈ flat_map (pair_routes u v f s) ids <->
  exists i a b, i ∈ ids /\ f !! i = Some a /\ s !! i = Some b /\
    (r ∈ routes_at u i (sendable a b) \/ r ∈ routes_at v i (sendable b a)).
Proof.
  rewrite elem_of_flat_map. unfold pair_routes. split.
  - intros (i & Hi & Hr). destruct (f !! i) as [a|] eqn:Ha; [|by apply not_elem_of_nil in Hr].
    destruct (s !! i) as [b|] eqn:Hb; [|by apply not_elem_of_nil in Hr].
    apply elem_of_app in Hr. by exists i, a, b.
  - intros (i & a & b & Hi & Ha & Hb & Hr). exists i. rewrite Ha, Hb, elem_of_app. done.
Qed.

Lemma pair_routes_swap u v f s ids :
  flat_map (pair_routes u v f s) ids ≡ₚ flat_map (pair_routes v u s f) ids.
Proof.
  induction ids as [|i ids IH]; simpl; [done|]. rewrite IH. apply Permutation_app_tail.
  unfold pair_routes. destruct (f !! i), (s !! i); try done. apply Permutation_app_comm.
Qed.

Lemma pair_routes_key u v f s ids r r' :
  u <> v -> r ∈ flat_map (pair_routes u v f s) ids -> r' ∈ flat_map (pair_routes u v f s) ids ->
  sr_origin_incarnation_uid r = sr_origin_incarnation_uid r' ->
  sr_serializer_id r = sr_serializer_id r' -> r = r'.
Proof.
  intros Huv (i & a & b & _ & Ha & Hb & Hr)%pair_routes_elem
    (i' & a' & b' & _ & Ha' & Hb' & Hr')%pair_routes_elem.
  rewrite !routes_at_elem in Hr, Hr'.
  destruct Hr as [[_ ->]|[_ ->]], Hr' as [[_ ->]|[_ ->]]; simpl; intros; subst;
    simplify_eq; done.
Qed.

(** Sorting makes the routes independent of the peers' roles. *)
Lemma sorted_routes_swap u v f s ids :
  uuid_ok u -> uuid_ok v -> u <> v ->
  sorted_routes (flat_map (pair_routes u v f s) ids) =
  sorted_routes (flat_map (pair_routes v u s f) ids).
Proof.
  intros Hu Hv Huv. unfold sorted_routes.
  apply (StronglySorted_unique_strong route_le).
  - intros r r'. rewrite !merge_sort_Permutation. rewrite <- (pair_routes_swap u v f s ids).
    intros Hr Hr' L1 L2.
    assert (Horig : forall r, r ∈ flat_map (pair_routes u v f s) ids ->
      uuid_ok (sr_origin_incarnation_uid r)).
    { intros r0 (i & a & b & _ & _ & _ & Hr0)%pair_routes_elem. rewrite !routes_at_elem in Hr0.
      by destruct Hr0 as [[_ ->]|[_ ->]]. }
    destruct (route_le_antisymm_key r r') as [E1 E2]; try done; [by apply Horig..|].
    by eapply pair_routes_key.
  - apply (StronglySorted_merge_sort route_le).
  - apply (StronglySorted_merge_sort route_le).
  - rewrite !merge_sort_Permutation. apply pair_routes_swap.
Qed.

(** [negotiate_serializers] in closed form, once both peers' descriptors have
    been indexed and their names agree. *)
Lemma negotiate_closed u F v S :
  Forall descriptor_ok F -> Forall descriptor_ok S ->
  negotiate_serializers u F v S =
  if (u =? 0) || (v =? 0) || (u =? v) then Err SerializerNegotiationError
  else match _descriptor_maps F ∅ ∅, _descriptor_maps S ∅ ∅ with
       | Ok (f, fn), Ok (s, sn) =>
           if forallb (fun n => bool_decide (fn !! n = sn !! n)) (elements (dom fn ∩ dom sn))
              && forallb (compatible f s) (common_ids f s)
           then Ok (mkNegotiation
                      (sorted_routes (flat_map (pair_routes u v f s) (common_ids f s)))
                      (flat_map (pair_minor f s) (common_ids f s)))
           else Err SerializerNegotiationError
       | _, _ => Err SerializerNegotiationError
       end.
Proof.
  intros HF HS. unfold negotiate_serializers.
  destruct (Z.eqb_spec u 0) as [|Hu]; simpl; [done|].
  destruct (Z.eqb_spec v 0) as [|Hv]; simpl; [done|].
  destruct (Z.eqb_spec u v) as [|Huv]; simpl; [done|].
  destruct (_descriptor_maps F ∅ ∅) as [[f fn]|e] eqn:EF; simpl;
    [|by rewrite (descriptor_maps_err _ _ _ _ EF)].
  destruct (_descriptor_maps S ∅ ∅) as [[s sn]|e] eqn:ES; simpl;
    [|by rewrite (descriptor_maps_err _ _ _ _ ES)].
  destruct (forallb _ (elements _)); simpl; [|done].
  fold (common_ids f s).
  rewrite negotiate_ids_closed by eauto using maps_well_indexed, common_ids_both.
  by destruct (forallb _ (common_ids f s)).
Qed.

Lemma compatible_comm f s i : compatible f s i = compatible s f i.
Proof.
  unfold compatible. destruct (f !! i), (s !! i); try done. rewrite Z.eqb_sym. f_equal.
  by apply bool_decide_ext.
Qed.

Lemma forallb_ext' {A} (p q : A -> bool) l : (forall x, p x = q x) -> forallb p l = forallb q l.
Proof. intros H'. induction l as [|x l IH]; simpl; [done|]. by rewrite H', IH. Qed.

Lemma pair_minor_comm f s i : pair_minor f s i = pair_minor s f i.
Proof. unfold pair_minor. destruct (f !! i), (s !! i); try done. by rewrite Z.min_comm. Qed.

(** Perspective independence: for descriptors and incarnation UIDs that
    passed validation, the negotiation does not depend on which peer is called
    first: both ends of an association compute the same routes in the same
    order, the same protocol minors, or both refuse. *)
Theorem negotiation_symmetric u F v S :
  uuid_ok u -> uuid_ok v -> Forall descriptor_ok F -> Forall descriptor_ok S ->
  negotiate_serializers u F v S = negotiate_serializers v S u F.
Proof.
  intros Hu Hv HF HS. rewrite !negotiate_closed by done.
  rewrite (Z.eqb_sym v u), (orb_comm (v =? 0)).
  destruct ((u =? 0) || (v =? 0) || (u =? v)) eqn:Ez; [done|].
  destruct (_descriptor_maps F ∅ ∅) as [[f fn]|e], (_descriptor_maps S ∅ ∅) as [[s sn]|e'];
    try done.
  rewrite (common_ids_comm s f), (comm_L (∩) (dom sn)).
  rewrite (forallb_ext' (compatible s f) (compatible f s)) by (intros; apply compatible_comm).
  rewrite (forallb_ext' (fun n => bool_decide (sn !! n = fn !! n))
             (fun n => bool_decide (fn !! n = sn !! n))) by (intros; by apply bool_decide_ext).
  rewrite (sorted_routes_swap u v) by (done || (intros ->; by rewrite Z.eqb_refl, orb_true_r in Ez)).
  rewrite (flat_map_ext (pair_minor f s) (pair_minor s f) (pair_minor_comm f s)). done.
Qed.

Lemma find_minor_spec f s ids i m :
  find_minor (flat_map (pair_minor f s) ids) i = Ok m <->
  i ∈ ids /\ exists a b, f !! i = Some a /\ s !! i = Some b /\
    m = Z.min (sd_protocol_minor a) (sd_protocol_minor b).
Proof.
  induction ids as [|j ids IH]; simpl.
  { split; [done|]. by intros [Hi%not_elem_of_nil _]. }
  rewrite elem_of_cons. unfold pair_minor at 1.
  destruct (f !! j) as [a|] eqn:Ha, (s !! j) as [b|] eqn:Hb; simpl; rewrite ?IH.
  2-4: split; [naive_solver|]; intros [[->|?] (a' & b' & ? & ? & ?)]; simplify_eq; naive_solver.
  destruct (Z.eqb_spec j i) as [->|Hne].
  - split; [intros [= <-]; naive_solver|].
    intros [_ (a' & b' & ? & ? & ->)]. by simplify_eq.
  - rewrite IH. naive_solver.
Qed.

Lemma routes_at_keys o i m :
  (fun r => (sr_origin_incarnation_uid r, sr_serializer_id r)) <$> routes_at o i m =
  if bool_decide (m = ∅) then [] else [(o, i)].
Proof. unfold routes_at. by case_bool_decide. Qed.

Lemma pair_routes_nodup u v f s ids :
  u <> v -> NoDup ids ->
  NoDup ((fun r => (sr_origin_incarnation_uid r, sr_serializer_id r)) <$>
           flat_map (pair_routes u v f s) ids).
Proof.
  intros Huv Hids. induction Hids as [|i ids Hi Hids IH]; simpl; [constructor|].
  rewrite fmap_app. apply NoDup_app. split_and!; [|intros k Hk Hk'|done].
  - unfold pair_routes. destruct (f !! i), (s !! i); try by constructor.
    rewrite fmap_app, !routes_at_keys.
    repeat case_bool_decide; simpl; [by constructor|apply NoDup_singleton..|].
    apply NoDup_cons; split; [|apply NoDup_singleton].
    rewrite list_elem_of_singleton. congruence.
  - apply list_elem_of_fmap in Hk as (r & -> & Hr). apply list_elem_of_fmap in Hk' as (r' & E & Hr').
    apply pair_routes_elem in Hr' as (j & a & b & Hj & _ & _ & Hr').
    assert (Hr2 : r ∈ flat_map (pair_routes u v f s) [i]) by (simpl; by rewrite app_nil_r).
    apply pair_routes_elem in Hr2 as (i' & a' & b' & Hi' & _ & _ & Hr2).
    apply list_elem_of_singleton in Hi' as ->. rewrite !routes_at_elem in Hr', Hr2.
    destruct Hr' as [[_ ->]|[_ ->]], Hr2 as [[_ ->]|[_ ->]]; simplify_eq/=; done.
Qed.

(** What a successful negotiation is made of. *)
Lemma negotiate_inv u F v S n :
  Forall descriptor_ok F -> Forall descriptor_ok S -> negotiate_serializers u F v S = Ok n ->
  exists f s, u <> v /\ well_indexed f /\ well_indexed s /\
    (forall i d, f !! i = Some d <-> d ∈ F /\ sd_serializer_id d = i) /\
    (forall i d, s !! i = Some d <-> d ∈ S /\ sd_serializer_id d = i) /\
    (forall i, i ∈ common_ids f s -> compatible f s i = true) /\
    n = mkNegotiation (sorted_routes (flat_map (pair_routes u v f s) (common_ids f s)))
          (flat_map (pair_minor f s) (common_ids f s)).
Proof.
  intros HF HS. rewrite negotiate_closed by done.
  destruct ((u =? 0) || (v =? 0) || (u =? v)) eqn:Ez; [done|].
  destruct (_descriptor_maps F ∅ ∅) as [[f fn]|e] eqn:EF; [|done].
  destruct (_descriptor_maps S ∅ ∅) as [[s sn]|e] eqn:ES; [|done].
  destruct (forallb _ (elements _) && _) eqn:Ec; [|done]. intros [= <-].
  apply andb_true_iff in Ec as [_ Ec]. rewrite forallb_forall in Ec.
  exists f, s. split_and!; eauto using maps_well_indexed.
  - intros ->. by rewrite Z.eqb_refl, orb_true_r in Ez.
  - intros i d. destruct (descriptor_maps_spec _ _ _ _ _ EF) as [-> _].
    rewrite lookup_empty. naive_solver.
  - intros i d. destruct (descriptor_maps_spec _ _ _ _ _ ES) as [-> _].
    rewrite lookup_empty. naive_solver.
  - intros i Hi. apply Ec. by apply list_elem_of_In.
Qed.

(** C16.  Exactness and canonical form: after a successful negotiation there is
    a route from a peer for an ID exactly when both peers describe that ID and
    the manifests the peer writes and the other reads are not empty; it carries
    exactly these manifests, sorted by their UTF-8 bytes.  The routes are sorted
    by (origin, ID, manifests), at most one per origin and ID, and the selected
    minor of an ID is the smaller one of the two peers. *)
Theorem negotiation_exact u F v S n :
  Forall descriptor_ok F -> Forall descriptor_ok S -> negotiate_serializers u F v S = Ok n ->
  (forall r, r ∈ sn_routes n <-> exists a b, a ∈ F /\ b ∈ S /\
     sd_serializer_id a = sd_serializer_id b /\
     (r ∈ routes_at u (sd_serializer_id a) (sendable a b) \/
      r ∈ routes_at v (sd_serializer_id a) (sendable b a))) /\
  StronglySorted route_le (sn_routes n) /\
  NoDup ((fun r => (sr_origin_incarnation_uid r, sr_serializer_id r)) <$> sn_routes n) /\
  (forall i m, protocol_minor_for n i = Ok m <-> exists a b, a ∈ F /\ b ∈ S /\
     sd_serializer_id a = i /\ sd_serializer_id b = i /\
     m = Z.min (sd_protocol_minor a) (sd_protocol_minor b)).
Proof.
  intros HF HS (f & s & Huv & Hwf & Hws & Hf & Hs & _ & ->)%negotiate_inv; [|done..].
  unfold protocol_minor_for, sorted_routes; simpl. split_and!.
  - intros r. rewrite merge_sort_Permutation, pair_routes_elem. split.
    + intros (i & a & b & _ & [Ha <-]%Hf & [Hb Hib]%Hs & Hr). by exists a, b.
    + intros (a & b & Ha & Hb & Hab & Hr). exists (sd_serializer_id a), a, b.
      rewrite common_ids_elem, Hf, Hs. split_and!; eauto.
      * exists a. by apply Hf.
      * exists b. by apply Hs.
  - apply (StronglySorted_merge_sort route_le).
  - rewrite merge_sort_Permutation. apply pair_routes_nodup; [done|].
    unfold common_ids. rewrite merge_sort_Permutation. apply NoDup_elements.
  - intros i m. rewrite find_minor_spec, common_ids_elem. split.
    + intros [_ (a & b & [Ha <-]%Hf & [Hb Hib]%Hs & ->)]. by exists a, b.
    + intros (a & b & Ha & Hb & <- & Hib & ->).
      assert (f !! sd_serializer_id a = Some a) by by apply Hf.
      assert (s !! sd_serializer_id a = Some b) by by apply Hs.
      split_and!; eauto.
Qed.
End negotiation.

(** * From the sender's registry to the receiver's *)
Section delivery.
Context `{Unicode}.
Context {T V : Type} `{EqDecision T} (type_of : V -> T).
Implicit Types (A B : SerializerRegistry (T := T) (V := V)).

Lemma registry_descriptor_elem A d :
  registry_ok A -> d ∈ _descriptors A ->
  exists reg, dict_get (_registrations A) (sd_serializer_id d) = Some reg /\ descriptor reg = d.
Proof.
  intros (b & Hb & ->) Hd. simpl in Hd.
  apply list_elem_of_fmap in Hd as ([i reg] & -> & Hin). simpl.
  rewrite merge_sort_Permutation in Hin. exists reg. split; [|done]. simpl.
  pose proof (proj1 (Forall_forall _ _) (bo_keys _ Hb) _ Hin) as Hk. simpl in Hk. rewrite Hk.
  apply dict_elem_get; [apply (bo_ids _ Hb)|done].
Qed.

Lemma descriptor_minor_nonneg d : descriptor_ok d -> 0 <= sd_protocol_minor d.
Proof.
  intros [_ _ _ Hv]. unfold SerializerDescriptor_new, registry_uint in Hv. inv_run. lia.
Qed.

Lemma serialize_inv A value r minor p :
  serialize_for_route type_of A value r minor = Ok p ->
  sp_serializer_id p = sr_serializer_id r /\ sp_manifest p ∈ sr_manifests r.
Proof.
  unfold serialize_for_route, _serialize. intros Hp. inv_run.
  destruct (_ || _) eqn:Hroute; [done|]. apply orb_false_iff in Hroute as [Hi Hm].
  apply negb_false_iff in Hi, Hm. inv_run.
  destruct (dict_get _ _); [|done]. inv_run. destruct (s_serialize _ _ _ _) as [[|]|]; inv_run.
  simpl in *. congruence || (split; [congruence|done]).
Qed.

(** On a negotiated route of [u], whatever is written with one of its manifests and the
    negotiated minor is handed to the serializer the peer registered. *)
Lemma negotiated_readable A B u v n r :
  registry_ok B ->
  Forall descriptor_ok (_descriptors A) -> Forall descriptor_ok (_descriptors B) ->
  negotiate_serializers u (_descriptors A) v (_descriptors B) = Ok n ->
  r ∈ sn_routes n -> sr_origin_incarnation_uid r = u ->
  exists minor reg,
    protocol_minor_for n (sr_serializer_id r) = Ok minor /\
    dict_get (_registrations B) (sr_serializer_id r) = Some reg /\
    forall m payload, m ∈ sr_manifests r ->
      deserialize B (sr_serializer_id r) m payload (Some minor) =
      match s_deserialize (serializer reg) payload m minor with
      | Ok x => Ok x
      | Err _ => Err DeserializationError
      end.
Proof.
  intros HB HdA HdB (f & s & Huv & _ & _ & Hf & Hs & _ & ->)%negotiate_inv; [|done..].
  simpl. unfold sorted_routes. rewrite merge_sort_Permutation, pair_routes_elem.
  intros (i & a & b & Hi & Ha & Hb & Hr) Ho. rewrite !routes_at_elem in Hr.
  destruct Hr as [[Hne ->]|[_ ->]]; [|by simpl in Ho]. simpl in *.
  pose proof (proj1 (Hf _ _) Ha) as [HaA Hia]. pose proof (proj1 (Hs _ _) Hb) as [HbB Hib].
  destruct (registry_descriptor_elem B b HB HbB) as (reg & Hreg & Hdesc). rewrite Hib in Hreg.
  exists (Z.min (sd_protocol_minor a) (sd_protocol_minor b)), reg. split_and!; [|done|].
  { apply find_minor_spec. split; [done|]. by exists a, b. }
  intros m payload Hm.
  unfold deserialize. rewrite Hreg, Hdesc. rewrite sorted_utf8_perm, elem_of_elements in Hm.
  rewrite bool_decide_eq_true_2 by (unfold sendable in Hm; set_solver). simpl.
  unfold registry_uint, raise_unless.
  pose proof (descriptor_minor_nonneg a (proj1 (Forall_forall _ _) HdA _ HaA)).
  pose proof (descriptor_minor_nonneg b (proj1 (Forall_forall _ _) HdB _ HbB)).
  rewrite !(proj2 (Z.leb_le _ _)) by lia. done.
Qed.

(** End-to-end contract of negotiation: whatever peer A serializes on a
    negotiated route of its own, with the negotiated minor (which exists), peer
    B's registry accepts: it knows the serializer, reads the manifest and
    supports the minor, so B's [deserialize] hands the payload to the
    registered serializer and fails only if that serializer fails. *)
Theorem negotiated_payload_readable A B u v n r value :
  registry_ok A -> registry_ok B ->
  Forall descriptor_ok (_descriptors A) -> Forall descriptor_ok (_descriptors B) ->
  negotiate_serializers u (_descriptors A) v (_descriptors B) = Ok n ->
  r ∈ sn_routes n -> sr_origin_incarnation_uid r = u ->
  exists minor reg,
    protocol_minor_for n (sr_serializer_id r) = Ok minor /\
    dict_get (_registrations B) (sr_serializer_id r) = Some reg /\
    forall p, serialize_for_route type_of A value r minor = Ok p ->
      deserialize B (sp_serializer_id p) (sp_manifest p) (sp_payload p) (Some minor) =
      match s_deserialize (serializer reg) (sp_payload p) (sp_manifest p) minor with
      | Ok x => Ok x
      | Err _ => Err DeserializationError
      end.
Proof.
  intros HA HB HdA HdB Hn Hr Ho.
  destruct (negotiated_readable A B u v n r HB HdA HdB Hn Hr Ho) as (minor & reg & Hm & Hreg & Hd).
  exists minor, reg. split_and!; [done|done|]. intros p [-> Hp]%serialize_inv. by apply Hd.
Qed.

(** * Builders *)

(** A sequence of builder calls; what a call raises is the caller's business. *)
Inductive builder_call :=
  | CallRegister (d : SerializerDescriptor) (s : Serializer (V := V))
  | CallBind (t : T) (serializer_id : Z) (manifest : pystr)
  | CallInclude (calls : list builder_call).

Fixpoint run_call (c : builder_call) (b : SerializerRegistryBuilder (T := T) (V := V)) :
    SerializerRegistryBuilder :=
  match c with
  | CallRegister d s => (register d s b).1
  | CallBind t i m => (bind t i m b).1
  | CallInclude cs => (include (build (foldl (fun b' c' => run_call c' b') builder_new cs)) b).1
  end.

Definition run_calls (cs : list builder_call) : SerializerRegistryBuilder :=
  foldl (fun b c => run_call c b) builder_new cs.

Fixpoint run_call_ok (c : builder_call) :
  forall b, builder_ok b -> builder_ok (run_call c b).
Proof.
  destruct c as [d s|t i m|cs]; intros b Hb; simpl.
  - by apply add_registration_ok.
  - by apply bind_preserves.
  - apply include_preserves; [|done]. eexists; split; [|reflexivity].
    assert (Hcs : forall b0, builder_ok b0 ->
      builder_ok (foldl (fun b' c' => run_call c' b') b0 cs)).
    { induction cs as [|c cs IH]; intros b0 Hb0; simpl; [done|]. by apply IH, run_call_ok. }
    apply Hcs, builder_new_ok.
Qed.

Lemma run_calls_ok cs : builder_ok (run_calls cs).
Proof.
  unfold run_calls. assert (H0 : builder_ok (builder_new (T := T) (V := V)))
    by apply builder_new_ok. revert H0. generalize (builder_new (T := T) (V := V)).
  induction cs as [|c cs IH]; intros b Hb; simpl; [done|]. by apply IH, run_call_ok.
Qed.

Lemma sorted_ids (l : list (Z * _Registration (V := V))) :
  StronglySorted key_le l ->
  Forall (fun p : Z * _Registration => sd_serializer_id (descriptor p.2) = p.1) l ->
  StronglySorted Z.le (sd_serializer_id <$> ((fun p : Z * _Registration => descriptor p.2) <$> l)).
Proof.
  induction 1 as [|p l Hl IH Hp]; intros Hk; simpl; [constructor|].
  apply Forall_cons in Hk as [Hkp Hkl]. constructor; [by apply IH|].
  apply Forall_fmap, Forall_fmap, Forall_forall. intros q Hq. simpl.
  pose proof (proj1 (Forall_forall _ _) Hp _ Hq) as L. unfold key_le in L.
  rewrite Hkp, (proj1 (Forall_forall _ _) Hkl _ Hq). done.
Qed.

(** Registry integrity: whatever calls of [register], [bind] and [include]
    (of registries built the same way) a builder received, including calls that
    raised half-way, the registry it builds has distinct IDs and names, each
    registration stored under its own ID, descriptors listed by increasing ID,
    and every bound type's serializer is registered and writes its manifest:
    [serialize] never fails for want of a registration ([KeyError]) and never
    with a manifest its descriptor does not list. *)
Theorem built_registry_sound cs value :
  let r := build (run_calls cs) in
  NoDup (_registrations r).*1 /\ NoDup (sd_name <$> _descriptors r) /\
  StronglySorted Z.le (sd_serializer_id <$> _descriptors r) /\
  serialize type_of r value <> Err KeyError /\
  (forall p, serialize type_of r value = Ok p -> exists d,
     registry_descriptor r (sp_serializer_id p) = Ok d /\ d ∈ _descriptors r /\
     sp_manifest p ∈ sd_writable_manifests d).
Proof.
  intros r. pose proof (run_calls_ok cs) as Hb. destruct Hb as [Hk Hd Hn Hnd Ht Hbs].
  assert (Hperm : _descriptors r ≡ₚ
    (fun p : Z * _Registration => descriptor p.2) <$> _registrations r).
  { subst r; simpl. by rewrite merge_sort_Permutation. }
  assert (Hbind : forall b, binding_for r (type_of value) = Ok b ->
    exists reg, dict_get (_registrations r) (sb_serializer_id b) = Some reg /\
      sb_manifest b ∈ sd_writable_manifests (descriptor reg)).
  { unfold binding_for; simpl. intros b. destruct (dict_get _ _) as [x|] eqn:E; [|done].
    intros [= <-]. apply dict_get_elem in E.
    by apply (proj1 (Forall_forall _ _) Hbs) in E as [_ ?]. }
  split_and!; [done| | | |].
  - rewrite Hperm, <- list_fmap_compose. rewrite Hn, <- list_fmap_compose in Hnd. done.
  - simpl. apply sorted_ids; [apply (StronglySorted_merge_sort key_le)|].
    by rewrite merge_sort_Permutation.
  - unfold serialize. destruct (binding_for r _) as [b|e] eqn:E; cbn [mbind result_bind].
    + destruct (Hbind b eq_refl) as (reg & Hreg & _). rewrite Hreg. unfold _serialize.
      rewrite Hreg. unfold registry_uint, raise_unless. destruct (_ && _); cbn [mbind result_bind]; [|done].
      by destruct (s_serialize _ _ _ _) as [[|]|].
    + unfold binding_for in E. destruct (dict_get _ _); congruence.
  - intros p Hp. unfold serialize in Hp. apply bind_ok in Hp as (b & E & Hp).
    destruct (Hbind b E) as (reg & Hreg & Hm). rewrite Hreg in Hp. unfold _serialize in Hp.
    rewrite Hreg in Hp. inv_run. destruct (s_serialize _ _ _ _) as [[|]|]; inv_run.
    cbn [sp_serializer_id sp_manifest]. exists (descriptor reg). unfold registry_descriptor. rewrite Hreg. split_and!; try done.
    rewrite Hperm. apply dict_get_elem in Hreg.
    by apply (list_elem_of_fmap_2 (fun p : Z * _Registration => descriptor p.2)) in Hreg.
Qed.
End delivery.

(** * Two peers that share one serializer *)
Module Peers.
Import Examples.
#[local] Existing Instance ascii_unicode.

Definition echo : Serializer (V := bytes) :=
  mkSerializer (fun v _ _ => Ok (Some v)) (fun p _ _ => Ok p).

Definition peer : SerializerRegistry (T := unit) (V := bytes) :=
  build (run_calls [CallRegister work_descriptor echo; CallBind tt 1 work]).

Definition outcome : SerializerNegotiation :=
  mkNegotiation [mkRoute 3 1 [work]; mkRoute 4 1 [work]] [mkNegotiated 1 0].

Lemma peer_ok : registry_ok peer.
Proof. eexists; split; [apply run_calls_ok|reflexivity]. Qed.

Lemma peer_descriptors : Forall descriptor_ok (_descriptors peer).
Proof. apply Forall_singleton, work_descriptor_ok. Qed.

Lemma peer_negotiation :
  negotiate_serializers 3 (_descriptors peer) 4 (_descriptors peer) = Ok outcome.
Proof. vm_compute. reflexivity. Qed.

Lemma negotiation_symmetric_witness :
  negotiate_serializers 3 (_descriptors peer) 4 (_descriptors peer) =
  negotiate_serializers 4 (_descriptors peer) 3 (_descriptors peer).
Proof. apply negotiation_symmetric; [by_compute|by_compute|apply peer_descriptors..]. Defined.

Lemma negotiation_exact_witness :
  StronglySorted route_le (sn_routes outcome) /\ protocol_minor_for outcome 1 = Ok 0.
Proof.
  split; [|reflexivity].
  apply (negotiation_exact _ _ _ _ _ peer_descriptors peer_descriptors peer_negotiation).
Defined.

Lemma negotiated_payload_readable_witness : exists minor reg,
  protocol_minor_for outcome 1 = Ok minor /\ dict_get (_registrations peer) 1 = Some reg.
Proof.
  destruct (negotiated_payload_readable (fun _ => tt) peer peer 3 4 outcome
    (mkRoute 3 1 [work]) [7] peer_ok peer_ok peer_descriptors peer_descriptors
    peer_negotiation ltac:(left) eq_refl) as (minor & reg & H1 & H2 & _).
  exists minor, reg. split; [exact H1|exact H2].
Defined.
End Peers.
