(* ===== verification/WorkerPool.v ===== *)
(** The worker pool: [movie/dispatch/worker_pool.py].

    [WorkQueue] and the lock-protected blocks of [WorkerPoolDispatcherImpl] are
    functions of the queue and pool records.  They are composed twice: as the
    methods the source defines ([_publish], [_take_available], run without
    interference), and as [step], the interleaving of any number of publishing
    threads, of the pool's workers and of one lifecycle thread ([start] and
    [stop] hold [_lifecycle_lock]), where a thread advances one lock-protected
    block at a time.  Thread creation, joining and deadlines are the lifecycle
    thread's nondeterministic choices. *)

From stdpp Require Import base list numbers gmap.
From S2P Require Import Prelude.

Section worker_pool.
Context {Task : Type}.

Record WorkQueue := mkQueue {
  tasks : list Task;
  system_tasks : list Task;
  q_capacity : Z;
  q_system_capacity : Z;
  ready : bool;
}.

Definition WorkQueue_new (capacity system_capacity : Z) : WorkQueue :=
  mkQueue [] [] capacity system_capacity false.

Definition is_nil {A} (l : list A) : bool := match l with [] => true | _ => false end.

(** [take_system]: an owner that leaves both deques empty clears [ready]. *)
Definition take_system (owner : bool) (q : WorkQueue) : WorkQueue * option Task :=
  match system_tasks q with
  | task :: rest =>
      (mkQueue (tasks q) rest (q_capacity q) (q_system_capacity q)
         (if owner && is_nil rest && is_nil (tasks q) then false else ready q), Some task)
  | [] =>
      (mkQueue (tasks q) [] (q_capacity q) (q_system_capacity q)
         (if owner && is_nil (tasks q) then false else ready q), None)
  end.

Definition take_ordinary (owner : bool) (q : WorkQueue) : WorkQueue * option Task :=
  match tasks q with
  | task :: rest =>
      (mkQueue rest (system_tasks q) (q_capacity q) (q_system_capacity q)
         (if owner && is_nil (system_tasks q) && is_nil rest then false else ready q), Some task)
  | [] =>
      (mkQueue [] (system_tasks q) (q_capacity q) (q_system_capacity q)
         (if owner && is_nil (system_tasks q) then false else ready q), None)
  end.

Definition detach (q : WorkQueue) : WorkQueue * (list Task * list Task) :=
  (mkQueue [] [] (q_capacity q) (q_system_capacity q) false, (tasks q, system_tasks q)).

Definition wake (q : WorkQueue) : WorkQueue :=
  mkQueue (tasks q) (system_tasks q) (q_capacity q) (q_system_capacity q) true.

Inductive DispatcherState := NEW | STARTING | RUNNING | STOPPING | STOPPED.

#[global] Instance DispatcherState_eq_dec : EqDecision DispatcherState.
Proof. solve_decision. Defined.

Record pool := mkPool {
  queues : list WorkQueue;
  state : DispatcherState;
  system_count : Z;
  system_available : bool;
  idle_workers : gset nat;
  idle_available : bool;
  abort : bool;
}.

Definition set_queue (p : pool) (i : nat) (q : WorkQueue) : pool :=
  mkPool (<[i := q]> (queues p)) (state p) (system_count p) (system_available p)
    (idle_workers p) (idle_available p) (abort p).
Definition set_system (p : pool) (count : Z) (available : bool) : pool :=
  mkPool (queues p) (state p) count available (idle_workers p) (idle_available p) (abort p).
Definition set_idle (p : pool) (idle : gset nat) (available : bool) : pool :=
  mkPool (queues p) (state p) (system_count p) (system_available p) idle available (abort p).
Definition set_abort (p : pool) : pool :=
  mkPool (queues p) (state p) (system_count p) (system_available p)
    (idle_workers p) (idle_available p) true.

(** [_set_state] holds every queue lock while it writes. *)
Definition _set_state (p : pool) (s : DispatcherState) : pool :=
  mkPool (queues p) s (system_count p) (system_available p)
    (idle_workers p) (idle_available p) (abort p).

(** Capacities of the queues: [divmod] and one more for the first ones. *)
Definition split_capacity (total workers index : Z) : Z :=
  total / workers + (if index <? total mod workers then 1 else 0).

(** [WorkerPoolDispatcherImpl.__init__]. *)
Definition pool_new (workers shutdown_timeout queue_capacity system_queue_capacity : Z) :
    result pool :=
  raise_unless ((0 <? workers) && (0 <? shutdown_timeout) && (0 <? queue_capacity)
                && (0 <? system_queue_capacity)) ValueError ≫= fun _ =>
  Ok (mkPool
        ((fun index => WorkQueue_new (split_capacity queue_capacity workers (Z.of_nat index))
                         (split_capacity system_queue_capacity workers (Z.of_nat index)))
           <$> seq 0 (Z.to_nat workers))
        NEW 0 false ∅ false false).

(** * Publishing *)

Inductive publish_outcome :=
  | PublishRaised (e : exn)
  | PublishFull
  | Published.

(** The body of [_publish]'s loop for one queue, under the queue's lock (and
    [_system_lock] nested in it). *)
Definition publish_locked (system : bool) (task : Task) (i : nat) (p : pool) :
    pool * publish_outcome :=
  match queues p !! i with
  | None => (p, PublishRaised KeyError)
  | Some q =>
      if negb (bool_decide (state p = RUNNING)) then (p, PublishRaised RuntimeError)
      else if negb system && (q_capacity q <=? Z.of_nat (length (tasks q)))
      then (p, PublishFull)
      else if system && (q_system_capacity q <=? Z.of_nat (length (system_tasks q)))
      then (p, PublishFull)
      else
        let was_empty := is_nil (tasks q) && is_nil (system_tasks q) in
        let q' := mkQueue (if system then tasks q else tasks q ++ [task])
                    (if system then system_tasks q ++ [task] else system_tasks q)
                    (q_capacity q) (q_system_capacity q)
                    (if was_empty then true else ready q) in
        let p' := set_queue p i q' in
        (if system then set_system p' (system_count p' + 1) true else p', Published)
  end.

(** [_publish] from a given first worker: [offset]s [0 .. fuel-1] remain. *)
Fixpoint publish_from (system : bool) (task : Task) (start : nat) (offsets : list nat)
    (p : pool) : pool * result unit :=
  match offsets with
  | [] => (p, Err DispatcherCapacityExceeded)
  | offset :: rest =>
      match publish_locked system task ((start + offset) mod length (queues p)) p with
      | (p', Published) => (p', Ok tt)
      | (p', PublishRaised e) => (p', Err e)
      | (p', PublishFull) => publish_from system task start rest p'
      end
  end.

(** [_choose_worker]: [next] is the thread-local placement, [busy] the workers'
    flags, [popped] the element [set.pop] takes. *)
Definition _choose_worker (next : option nat) (ident : Z) (busy : nat -> bool) (popped : nat)
    (p : pool) : pool * nat * nat :=
  let n := length (queues p) in
  let start := match next with
               | Some s => s
               | None => Z.to_nat ((Z.shiftr ident 4 * 0x9E3779B1) mod Z.of_nat n)
               end in
  let alternate := ((start + 1) mod n)%nat in
  let '(p', start') :=
    if busy start && negb (busy alternate) then (p, alternate)
    else if busy start && idle_available p then
      if bool_decide (popped ∈ idle_workers p) then
        let idle := idle_workers p ∖ {[popped]} in
        (set_idle p idle (if bool_decide (idle = ∅) then false else idle_available p), popped)
      else (p, start)
    else (p, start) in
  (p', start', ((start' + 1) mod n)%nat).

Definition _publish (system : bool) (task : Task) (next : option nat) (ident : Z)
    (busy : nat -> bool) (popped : nat) (p : pool) : pool * result unit :=
  let '(p', start, _) := _choose_worker next ident busy popped p in
  publish_from system task start (seq 0 (length (queues p'))) p'.

Definition dispatch := _publish false.
Definition dispatch_system := _publish true.

(** * Taking *)

(** [_queues[i].take_*(owner=...)]. *)
Definition take_system_at (owner : bool) (i : nat) (p : pool) : pool * option Task :=
  match queues p !! i with
  | None => (p, None)
  | Some q => let '(q', r) := take_system owner q in (set_queue p i q', r)
  end.
Definition take_ordinary_at (owner : bool) (i : nat) (p : pool) : pool * option Task :=
  match queues p !! i with
  | None => (p, None)
  | Some q => let '(q', r) := take_ordinary owner q in (set_queue p i q', r)
  end.

(** The [_system_lock] block after a successful [take_system]. *)
Definition system_taken (p : pool) : pool :=
  let count := system_count p - 1 in
  set_system p count (if count =? 0 then false else system_available p).

Fixpoint scan_system (worker_index : nat) (offsets : list nat) (p : pool) :
    pool * option Task :=
  match offsets with
  | [] => (p, None)
  | offset :: rest =>
      match take_system_at (offset =? 0)%nat ((worker_index + offset) mod length (queues p)) p with
      | (p', Some task) => (system_taken p', Some task)
      | (p', None) => scan_system worker_index rest p'
      end
  end.

Fixpoint scan_ordinary (worker_index : nat) (offsets : list nat) (p : pool) :
    pool * option Task :=
  match offsets with
  | [] => (p, None)
  | offset :: rest =>
      match take_ordinary_at (offset =? 0)%nat
              ((worker_index + offset) mod length (queues p)) p with
      | (p', Some task) => (p', Some task)
      | (p', None) => scan_ordinary worker_index rest p'
      end
  end.

(** [_take_available]; its own queue is offset 0 of the second scan. *)
Definition _take_available (worker_index : nat) (p : pool) : pool * option Task :=
  let offsets := seq 0 (length (queues p)) in
  match (if system_available p then scan_system worker_index offsets p else (p, None)) with
  | (p', Some task) => (p', Some task)
  | (p', None) => scan_ordinary worker_index offsets p'
  end.

Definition _mark_idle (worker_index : nat) (p : pool) : pool :=
  set_idle p (idle_workers p ∪ {[worker_index]}) true.
Definition _mark_active (worker_index : nat) (p : pool) : pool :=
  let idle := idle_workers p ∖ {[worker_index]} in
  set_idle p idle (if bool_decide (idle = ∅) then false else idle_available p).

Definition stopping (p : pool) : bool :=
  bool_decide (state p = STOPPING) || bool_decide (state p = STOPPED).

(** * Threads *)

Inductive worker :=
  | WNew                                      (* thread not started *)
  | WTop                                      (* loop head of [next_task] *)
  | WScanSystem (marked : bool) (offset : nat)
  | WTaken (marked : bool) (task : Task)      (* before [_system_count -= 1] *)
  | WScanOrdinary (marked : bool) (offset : nat)
  | WNone (marked : bool)                     (* [_take_available] returned None *)
  | WWait                                     (* [own_queue.ready.wait()] *)
  | WRun (task : Task)
  | WExit.

Inductive publisher :=
  | PNew (system : bool) (task : Task)
  | PScan (system : bool) (task : Task) (start offset : nat)
  | PDone (r : result unit).

(** The thread inside [start] or [stop], if any. *)
Inductive lifecycle :=
  | LFree
  | LStart (next : nat)                       (* [worker.start()] of the next worker *)
  | LWake (next : nat) (after : lifecycle)    (* inside [_wake_all] *)
  | LJoin
  | LFailedJoin                               (* after a failed [start] *)
  | LDetach (next : nat).

Record config := mkConfig {
  the_pool : pool;
  workers : list worker;
  publishers : list publisher;
  controller : lifecycle;
}.

Inductive event :=
  | Accepted (task : Task)
  | Ran (task : Task)
  | Abandoned (ts : list Task).

(** A worker that has (or has not) found a task. *)
Definition found (marked : bool) (i : nat) (p : pool) : pool :=
  if marked then _mark_active i p else p.

Inductive worker_step (n i : nat) : pool -> worker -> pool -> worker -> list event -> Prop :=
  | ws_abort p :
      abort p = true -> worker_step n i p WTop p WExit []
  | ws_begin p marked t :
      (marked = false /\ t = WTop /\ abort p = false \/
       marked = true /\ t = WNone false /\ stopping p = false) ->
      let p' := if marked then _mark_idle i p else p in
      worker_step n i p t p'
        (if system_available p' then WScanSystem marked 0 else WScanOrdinary marked 0) []
  | ws_system_hit p marked offset p' task :
      (offset < n)%nat ->
      take_system_at (offset =? 0)%nat ((i + offset) mod n) p = (p', Some task) ->
      worker_step n i p (WScanSystem marked offset) p' (WTaken marked task) []
  | ws_system_miss p marked offset p' :
      (offset < n)%nat ->
      take_system_at (offset =? 0)%nat ((i + offset) mod n) p = (p', None) ->
      worker_step n i p (WScanSystem marked offset) p' (WScanSystem marked (S offset)) []
  | ws_system_end p marked offset :
      (n <= offset)%nat ->
      worker_step n i p (WScanSystem marked offset) p (WScanOrdinary marked 0) []
  | ws_taken p marked task :
      worker_step n i p (WTaken marked task) (found marked i (system_taken p)) (WRun task) []
  | ws_ordinary_hit p marked offset p' task :
      (offset < n)%nat ->
      take_ordinary_at (offset =? 0)%nat ((i + offset) mod n) p = (p', Some task) ->
      worker_step n i p (WScanOrdinary marked offset) (found marked i p') (WRun task) []
  | ws_ordinary_miss p marked offset p' :
      (offset < n)%nat ->
      take_ordinary_at (offset =? 0)%nat ((i + offset) mod n) p = (p', None) ->
      worker_step n i p (WScanOrdinary marked offset) p' (WScanOrdinary marked (S offset)) []
  | ws_ordinary_end p marked offset :
      (n <= offset)%nat ->
      worker_step n i p (WScanOrdinary marked offset) p (WNone marked) []
  | ws_stopped p marked :
      stopping p = true ->
      worker_step n i p (WNone marked) (found marked i p) WExit []
  | ws_wait p :
      stopping p = false -> worker_step n i p (WNone true) p WWait []
  | ws_woken p q :
      queues p !! i = Some q -> ready q = true ->
      worker_step n i p WWait (_mark_active i p) WTop []
  | ws_run p task :
      worker_step n i p (WRun task) p WTop [Ran task].

Inductive step : config -> list event -> config -> Prop :=
  | step_worker c i w p' w' es :
      workers c !! i = Some w ->
      worker_step (length (queues (the_pool c))) i (the_pool c) w p' w' es ->
      step c es (mkConfig p' (<[i := w']> (workers c)) (publishers c) (controller c))
  | step_call c system task :
      step c [] (mkConfig (the_pool c) (workers c) (publishers c ++ [PNew system task])
                   (controller c))
  | step_choose c k system task next ident busy popped p' start next' :
      publishers c !! k = Some (PNew system task) ->
      match next with Some s => (s < length (queues (the_pool c)))%nat | None => True end ->
      _choose_worker next ident busy popped (the_pool c) = (p', start, next') ->
      step c [] (mkConfig p' (workers c) (<[k := PScan system task start 0]> (publishers c))
                   (controller c))
  | step_publish c k system task start offset p' out :
      publishers c !! k = Some (PScan system task start offset) ->
      (offset < length (queues (the_pool c)))%nat ->
      publish_locked system task ((start + offset) mod length (queues (the_pool c)))
        (the_pool c) = (p', out) ->
      step c (match out with Published => [Accepted task] | _ => [] end)
        (mkConfig p' (workers c)
           (<[k := match out with
                   | Published => PDone (Ok tt)
                   | PublishRaised e => PDone (Err e)
                   | PublishFull => PScan system task start (S offset)
                   end]> (publishers c)) (controller c))
  | step_publish_full c k system task start offset :
      publishers c !! k = Some (PScan system task start offset) ->
      (length (queues (the_pool c)) <= offset)%nat ->
      step c [] (mkConfig (the_pool c) (workers c)
                   (<[k := PDone (Err DispatcherCapacityExceeded)]> (publishers c)) (controller c))
  (* start *)
  | step_start c :
      controller c = LFree -> state (the_pool c) = NEW ->
      step c [] (mkConfig (_set_state (the_pool c) STARTING) (workers c) (publishers c) (LStart 0))
  | step_start_worker c k :
      controller c = LStart k -> workers c !! k = Some WNew ->
      step c [] (mkConfig (the_pool c) (<[k := WTop]> (workers c)) (publishers c) (LStart (S k)))
  | step_start_failed c k :
      controller c = LStart k ->
      step c [] (mkConfig (_set_state (set_abort (the_pool c)) STOPPING) (workers c)
                   (publishers c) (LWake 0 LFailedJoin))
  | step_failed_stopped c :
      controller c = LFailedJoin ->
      step c [] (mkConfig (_set_state (the_pool c) STOPPED) (workers c) (publishers c) LFree)
  | step_started c :
      controller c = LStart (length (workers c)) ->
      step c [] (mkConfig (_set_state (the_pool c) RUNNING) (workers c) (publishers c) LFree)
  (* stop *)
  | step_stop_new c :
      controller c = LFree -> state (the_pool c) = NEW ->
      step c [] (mkConfig (_set_state (the_pool c) STOPPED) (workers c) (publishers c) LFree)
  | step_stop c :
      controller c = LFree -> state (the_pool c) = RUNNING ->
      step c [] (mkConfig (_set_state (the_pool c) STOPPING) (workers c) (publishers c)
                   (LWake 0 LJoin))
  | step_stop_again c :
      controller c = LFree -> state (the_pool c) = STOPPING ->
      step c [] (mkConfig (the_pool c) (workers c) (publishers c) LJoin)
  | step_wake c k after q :
      controller c = LWake k after -> queues (the_pool c) !! k = Some q ->
      step c [] (mkConfig (set_queue (the_pool c) k (wake q)) (workers c) (publishers c)
                   (LWake (S k) after))
  | step_woken c k after :
      controller c = LWake k after -> queues (the_pool c) !! k = None ->
      step c [] (mkConfig (the_pool c) (workers c) (publishers c) after)
  | step_timeout c :
      controller c = LJoin ->
      step c [] (mkConfig (set_abort (the_pool c)) (workers c) (publishers c) (LWake 0 LFree))
  | step_joined c :
      controller c = LJoin -> Forall (fun w => w = WExit \/ w = WNew) (workers c) ->
      step c [] (mkConfig (the_pool c) (workers c) (publishers c) (LDetach 0))
  | step_detach c k q q' ts ss :
      controller c = LDetach k -> queues (the_pool c) !! k = Some q ->
      detach q = (q', (ts, ss)) ->
      step c [Abandoned (ts ++ ss)]
        (mkConfig (set_queue (the_pool c) k q') (workers c) (publishers c) (LDetach (S k)))
  | step_detached c k :
      controller c = LDetach k -> queues (the_pool c) !! k = None ->
      step c [] (mkConfig (_set_state (set_system (the_pool c) 0 false) STOPPED) (workers c)
                   (publishers c) LFree).

(** [execution n es c]: a pool created with [n] workers reaches [c]. *)
Inductive execution (n cap syscap : Z) : list event -> config -> Prop :=
  | exec_init timeout p :
      pool_new n timeout cap syscap = Ok p ->
      execution n cap syscap [] (mkConfig p (replicate (length (queues p)) WNew) [] LFree)
  | exec_step es e c c' :
      execution n cap syscap es c -> step c e c' -> execution n cap syscap (es ++ e) c'.
End worker_pool.
