(* ===== verification/WorkerPoolInv.v ===== *)
(** The worker pool's invariant, for every interleaving of publishers, workers
    and the lifecycle thread:

    - a queue that holds a task has its [ready] event set;
    - no queue exceeds its capacity, and the capacities add up to the
      configured totals;
    - [_system_count] counts the queued lifecycle tasks and those just taken,
      and [_system_available] says whether it is positive;
    - tasks are conserved: what was accepted is queued, held by a worker, run
      or abandoned by a stop. *)

From stdpp Require Import base list numbers gmap.
From S2P Require Import Prelude WorkerPool.

Section invariant.
Context {Task : Type}.
Implicit Types (q : WorkQueue (Task := Task)) (p : pool (Task := Task)).
Implicit Types (w : worker (Task := Task)) (c : config (Task := Task)).

Definition q_empty q : Prop := tasks q = [] /\ system_tasks q = [].

Record queue_ok q : Prop := {
  qo_ready : q_empty q \/ ready q = true;
  qo_capacity : Z.of_nat (length (tasks q)) <= q_capacity q;
  qo_system_capacity : Z.of_nat (length (system_tasks q)) <= q_system_capacity q;
}.

Definition capacities p : list (Z * Z) :=
  (fun q => (q_capacity q, q_system_capacity q)) <$> queues p.

Definition queued_system p : nat :=
  sum_list_with (fun q => length (system_tasks q)) (queues p).
Definition queued p : list Task := flat_map (fun q => tasks q ++ system_tasks q) (queues p).

Definition taken w : nat := match w with WTaken _ _ => 1 | _ => 0 end.
Definition held w : list Task := match w with WTaken _ t | WRun t => [t] | _ => [] end.

(** * The blocks *)

(** What no block changes. *)
Record framed p p' : Prop := {
  fr_state : state p' = state p;
  fr_abort : abort p' = abort p;
  fr_capacities : capacities p' = capacities p;
}.

Lemma framed_refl p : framed p p.
Proof. by constructor. Qed.

Lemma framed_trans p1 p2 p3 : framed p1 p2 -> framed p2 p3 -> framed p1 p3.
Proof. intros [] []. constructor; congruence. Qed.

Lemma framed_length p p' : framed p p' -> length (queues p') = length (queues p).
Proof.
  intros [_ _ H]. apply (f_equal length) in H. unfold capacities in H.
  by rewrite !length_fmap in H.
Qed.

(** A block that replaces queue [i], moving [out] out of it. *)
Record moves p p' (out : list Task) (nsys : nat) : Prop := {
  mv_frame : framed p p';
  mv_ok : Forall queue_ok (queues p) -> Forall queue_ok (queues p');
  mv_items : out ++ queued p' ≡ₚ queued p;
  mv_system : (nsys + queued_system p' = queued_system p)%nat;
}.

Lemma set_queue_moves p i q q' out nsys :
  queues p !! i = Some q ->
  (q_capacity q', q_system_capacity q') = (q_capacity q, q_system_capacity q) ->
  (queue_ok q -> queue_ok q') ->
  out ++ tasks q' ++ system_tasks q' ≡ₚ tasks q ++ system_tasks q ->
  (nsys + length (system_tasks q') = length (system_tasks q))%nat ->
  moves p (set_queue p i q') out nsys.
Proof.
  intros Hi Hc Hok Hitems Hsys. constructor.
  - constructor; try done. unfold capacities; simpl. rewrite list_fmap_insert.
    apply list_insert_id. by rewrite list_lookup_fmap, Hi, Hc.
  - intros Hall. simpl. apply Forall_insert; [done|]. apply Hok.
    by eapply Forall_lookup_1 in Hi.
  - unfold queued; simpl.
    pose proof (flat_map_insert (fun q => tasks q ++ system_tasks q) _ _ _ q' Hi) as P.
    simpl in P. rewrite <- Hitems in P.
    apply (Permutation_app_inv_r (tasks q' ++ system_tasks q')).
    rewrite <- P. rewrite <- !(assoc_L (++)).
    rewrite (Permutation_app_comm out). rewrite <- !(assoc_L (++)). f_equiv.
    rewrite (assoc_L (++) (tasks q')). apply Permutation_app_comm.
  - unfold queued_system; simpl.
    pose proof (sum_insert (fun q => length (system_tasks q)) _ _ _ q' Hi) as S.
    simpl in S. lia.
Qed.

Lemma ready_after_miss (owner : bool) (ts : list Task) k1 k2 (r : bool) :
  ts = [] \/ r = true ->
  q_empty (mkQueue ts [] k1 k2 (if owner && is_nil ts then false else r)) \/
  ready (mkQueue ts [] k1 k2 (if owner && is_nil ts then false else r)) = true.
Proof. unfold q_empty; simpl. destruct ts; [auto|]. rewrite andb_false_r. naive_solver. Qed.

Lemma ready_after_miss' (owner : bool) (ss : list Task) k1 k2 (r : bool) :
  ss = [] \/ r = true ->
  q_empty (mkQueue [] ss k1 k2 (if owner && is_nil ss then false else r)) \/
  ready (mkQueue [] ss k1 k2 (if owner && is_nil ss then false else r)) = true.
Proof. unfold q_empty; simpl. destruct ss; [auto|]. rewrite andb_false_r. naive_solver. Qed.

Lemma take_system_moves owner i p p' r :
  take_system_at owner i p = (p', r) ->
  moves p p' (option_list r) (match r with Some _ => 1 | None => 0 end).
Proof.
  unfold take_system_at. destruct (queues p !! i) as [q|] eqn:Hi.
  - unfold take_system. destruct (system_tasks q) as [|t rest] eqn:Hs; intros [= <- <-];
      (apply (set_queue_moves _ _ q); [done|done| | |]); simpl; try done; try lia.
    + intros [Hr Hc Hsc]. constructor; simpl; [|done|rewrite Hs in Hsc; done].
      apply ready_after_miss. destruct Hr as [[? _]|?]; auto.
    + by rewrite Hs.
    + by rewrite Hs.
    + intros [Hr Hc Hsc]. rewrite Hs in Hsc. constructor; simpl; [|done|simpl in Hsc; lia].
      destruct Hr as [[_ E]|Hr]; [congruence|].
      destruct owner, rest, (tasks q) eqn:Ht; simpl; unfold q_empty; simpl; auto.
    + rewrite Hs. apply Permutation_middle.
    + by rewrite Hs.
  - intros [= <- <-]. constructor; auto using framed_refl.
Qed.

Lemma take_ordinary_moves owner i p p' r :
  take_ordinary_at owner i p = (p', r) -> moves p p' (option_list r) 0.
Proof.
  unfold take_ordinary_at. destruct (queues p !! i) as [q|] eqn:Hi.
  - unfold take_ordinary. destruct (tasks q) as [|t rest] eqn:Hs; intros [= <- <-];
      (apply (set_queue_moves _ _ q); [done|done| | |]); simpl; try done; try lia.
    + intros [Hr Hc Hsc]. constructor; simpl; [|rewrite Hs in Hc; done|done].
      apply ready_after_miss'. destruct Hr as [[_ ?]|?]; auto.
    + by rewrite Hs.
    + intros [Hr Hc Hsc]. rewrite Hs in Hc. constructor; simpl; [|simpl in Hc; lia|done].
      destruct Hr as [[E _]|Hr]; [congruence|].
      destruct owner, rest, (system_tasks q) eqn:Ht; simpl; unfold q_empty; simpl; auto.
    + by rewrite Hs.
  - intros [= <- <-]. constructor; auto using framed_refl.
Qed.

Lemma set_idle_moves p idle avail : moves p (set_idle p idle avail) [] 0.
Proof. constructor; try done. Qed.

Lemma found_idle marked i p : exists idle avail, found marked i p = set_idle p idle avail.
Proof.
  unfold found, _mark_active. destruct marked; [by eexists _, _|].
  exists (idle_workers p), (idle_available p). by destruct p.
Qed.

(** The counters of a pool whose threads hold [k] tasks not yet counted out. *)
Definition counted p (k : nat) : Prop :=
  system_count p = Z.of_nat (queued_system p + k) /\
  system_available p = (0 <? system_count p).

Lemma moves_counted p p' out (nsys k : nat) :
  moves p p' out nsys -> system_count p' = system_count p ->
  system_available p' = system_available p -> counted p k -> counted p' (nsys + k).
Proof. intros [_ _ _ Hs] Hc Ha [H1 H2]. unfold counted. rewrite Hc, Ha, H2, H1. split; [lia|done]. Qed.

Lemma system_taken_counted p k : counted p (S k) -> counted (system_taken p) k.
Proof.
  intros [H1 H2]. split; simpl.
  - change (queued_system (system_taken p)) with (queued_system p). lia.
  - rewrite H2. destruct (system_count p - 1 =? 0) eqn:E; lia.
Qed.

Definition ran (es : list (event (Task := Task))) : list Task :=
  flat_map (fun e => match e with Ran t => [t] | _ => [] end) es.
Definition accepted (es : list (event (Task := Task))) : list Task :=
  flat_map (fun e => match e with Accepted t => [t] | _ => [] end) es.
Definition abandoned (es : list (event (Task := Task))) : list Task :=
  flat_map (fun e => match e with Abandoned ts => ts | _ => [] end) es.

(** The effect of one worker step. *)
Record worker_effect p w p' w' (es : list (event (Task := Task))) : Prop := {
  we_frame : framed p p';
  we_ok : Forall queue_ok (queues p) -> Forall queue_ok (queues p');
  we_counted : forall k, counted p (taken w + k) -> counted p' (taken w' + k);
  we_items : ran es ++ held w' ++ queued p' ≡ₚ held w ++ queued p;
  we_events : accepted es = [] /\ abandoned es = [];
  we_old : w <> WNew /\ w <> WExit /\ w' <> WNew;
  we_exit : w' = WExit -> stopping p = true \/ abort p = true;
}.

Lemma moves_effect p p' out nsys w w' :
  moves p p' out nsys -> system_count p' = system_count p ->
  system_available p' = system_available p -> taken w' = (nsys + taken w)%nat ->
  held w' ≡ₚ held w ++ out ->
  w <> WNew /\ w <> WExit /\ w' <> WNew ->
  (w' = WExit -> stopping p = true \/ abort p = true) ->
  worker_effect p w p' w' [].
Proof.
  intros Hm Hc Ha Ht Hh Hold Hexit. pose proof Hm as [Hf Hok Hi Hs]. constructor; try done.
  - intros k Hk. rewrite Ht, <- Nat.add_assoc. by eapply moves_counted.
  - simpl. rewrite Hh, <- (assoc_L (++)). by rewrite Hi.
Qed.

Lemma take_system_counters owner i p p' r :
  take_system_at owner i p = (p', r) ->
  system_count p' = system_count p /\ system_available p' = system_available p.
Proof.
  unfold take_system_at. destruct (queues p !! i); [|by intros [= <- _]].
  destruct (take_system _ _). by intros [= <- _].
Qed.

Lemma take_ordinary_counters owner i p p' r :
  take_ordinary_at owner i p = (p', r) ->
  system_count p' = system_count p /\ system_available p' = system_available p.
Proof.
  unfold take_ordinary_at. destruct (queues p !! i); [|by intros [= <- _]].
  destruct (take_ordinary _ _). by intros [= <- _].
Qed.

Lemma moves_idle p p' out nsys idle avail :
  moves p p' out nsys -> moves p (set_idle p' idle avail) out nsys.
Proof. intros [[] Ho Hi Hs]. constructor; try done. Qed.

Lemma worker_step_effect n i p w p' w' es :
  worker_step n i p w p' w' es -> worker_effect p w p' w' es.
Proof.
  destruct 1 as [p Ha|p marked t Ht p'|p marked offset p' task Ho Ht|p marked offset p' Ho Ht
    |p marked offset Ho|p marked task|p marked offset p' task Ho Ht|p marked offset p' Ho Ht
    |p marked offset Ho|p marked Hs|p Hs|p q Hq Hr|p task].
  - eapply (moves_effect _ _ [] 0); auto using set_idle_moves. constructor; auto using framed_refl.
  - assert (Hm : moves p p' [] 0 /\ system_count p' = system_count p).
    { subst p'. destruct marked; (split; [|done]); [apply set_idle_moves|].
      constructor; auto using framed_refl. }
    destruct Hm as [Hm Hc].
    destruct Ht as [(-> & -> & _)|(-> & -> & _)]; destruct (system_available p') eqn:Ea;
      eapply (moves_effect _ _ [] 0); eauto; done.
  - destruct (take_system_counters _ _ _ _ _ Ht) as [Hc Ha].
    apply take_system_moves in Ht. by eapply moves_effect.
  - destruct (take_system_counters _ _ _ _ _ Ht) as [Hc Ha].
    apply take_system_moves in Ht. by eapply moves_effect.
  - eapply (moves_effect _ _ [] 0); try done; constructor; auto using framed_refl.
  - destruct (found_idle marked i (system_taken p)) as (idle & avail & ->). constructor; try done.
    intros k Hk. by apply system_taken_counted.
  - destruct (take_ordinary_counters _ _ _ _ _ Ht) as [Hc Ha].
    destruct (found_idle marked i p') as (idle & avail & ->).
    apply take_ordinary_moves, (moves_idle _ _ _ _ idle avail) in Ht.
    by eapply (moves_effect _ _ [task] 0).
  - destruct (take_ordinary_counters _ _ _ _ _ Ht) as [Hc Ha].
    apply take_ordinary_moves in Ht. by eapply moves_effect.
  - eapply (moves_effect _ _ [] 0); try done; constructor; auto using framed_refl.
  - destruct (found_idle marked i p) as (idle & avail & ->).
    eapply (moves_effect _ _ [] 0); auto using set_idle_moves.
  - eapply (moves_effect _ _ [] 0); try done; constructor; auto using framed_refl.
  - eapply (moves_effect _ _ [] 0); try done; apply set_idle_moves.
  - constructor; try done; by constructor.
Qed.

(** * Publishing *)

Record publish_effect p p' (task : Task) (out : publish_outcome) : Prop := {
  pe_frame : framed p p';
  pe_ok : Forall queue_ok (queues p) -> Forall queue_ok (queues p');
  pe_counted : forall k, counted p k -> counted p' k;
  pe_items : queued p' ≡ₚ match out with Published => [task] | _ => [] end ++ queued p;
  pe_running : out = Published -> state p = RUNNING;
  pe_same : out <> Published -> p' = p;
}.

Lemma publish_refused p task out : out <> Published -> publish_effect p p task out.
Proof. intros H. constructor; auto using framed_refl; [by destruct out|done]. Qed.

Lemma counted_push p i q q' k :
  queues p !! i = Some q -> length (system_tasks q') = S (length (system_tasks q)) ->
  counted p k -> counted (set_system (set_queue p i q') (system_count p + 1) true) k.
Proof.
  intros Hi Hl [H1 H2]. unfold counted, queued_system in *; simpl.
  pose proof (sum_insert (fun q => length (system_tasks q)) _ _ _ q' Hi) as S.
  simpl in S. rewrite Hl in S. split; lia.
Qed.

Lemma counted_same p i q q' k :
  queues p !! i = Some q -> system_tasks q' = system_tasks q ->
  counted p k -> counted (set_queue p i q') k.
Proof.
  intros Hi Hl [H1 H2]. unfold counted, queued_system in *; simpl.
  pose proof (sum_insert (fun q => length (system_tasks q)) _ _ _ q' Hi) as S.
  simpl in S. rewrite Hl in S. split; [lia|done].
Qed.

Lemma set_queue_framed p i q q' :
  queues p !! i = Some q ->
  (q_capacity q', q_system_capacity q') = (q_capacity q, q_system_capacity q) ->
  framed p (set_queue p i q').
Proof.
  intros Hi Hc. constructor; try done. unfold capacities; simpl. rewrite list_fmap_insert.
  apply list_insert_id. by rewrite list_lookup_fmap, Hi, Hc.
Qed.

Lemma queued_insert p i q q' ts :
  queues p !! i = Some q ->
  tasks q' ++ system_tasks q' ≡ₚ ts ++ tasks q ++ system_tasks q ->
  queued (set_queue p i q') ≡ₚ ts ++ queued p.
Proof.
  intros Hi Hts. unfold queued; simpl.
  pose proof (flat_map_insert (fun q => tasks q ++ system_tasks q) _ _ _ q' Hi) as P.
  simpl in P. rewrite Hts in P.
  apply (Permutation_app_inv_r (tasks q ++ system_tasks q)). rewrite P.
  rewrite (Permutation_app_comm ts), <- !(assoc_L (++)).
  rewrite (Permutation_app_comm ts). rewrite <- !(assoc_L (++)). done.
Qed.

Lemma publish_locked_effect system task i p p' out :
  publish_locked system task i p = (p', out) -> publish_effect p p' task out.
Proof.
  unfold publish_locked. destruct (queues p !! i) as [q|] eqn:Hi;
    [|intros [= <- <-]; by apply publish_refused].
  case_bool_decide as Hrun; [|intros [= <- <-]; by apply publish_refused].
  destruct (negb system && _) eqn:H1; [intros [= <- <-]; by apply publish_refused|].
  destruct (system && _) eqn:H2; [intros [= <- <-]; by apply publish_refused|].
  simpl. set (q' := mkQueue _ _ _ _ _). intros [= <- <-].
  assert (Hok : queue_ok q -> queue_ok q').
  { intros [Hr Hc Hs]. subst q'. constructor; simpl.
    - right. destruct Hr as [[-> ->]| ->]; [done|]. by destruct (is_nil _ && _).
    - destruct system; [done|]. rewrite length_app; simpl in *. lia.
    - destruct system; [|done]. rewrite length_app; simpl in *. lia. }
  assert (Hf : framed p (set_queue p i q')) by (by eapply set_queue_framed).
  assert (Hall : Forall queue_ok (queues p) -> Forall queue_ok (<[i := q']> (queues p))).
  { intros Hall. apply Forall_insert; [done|]. apply Hok. by eapply Forall_lookup_1 in Hi. }
  assert (Hq : queued (set_queue p i q') ≡ₚ [task] ++ queued p).
  { eapply queued_insert; [done|]. subst q'; destruct system; simpl.
    - rewrite (assoc_L (++)). symmetry. apply Permutation_cons_append.
    - rewrite <- (assoc_L (++)). symmetry. apply Permutation_middle. }
  destruct system; constructor; try done.
  - destruct Hf. by constructor.
  - intros k. eapply counted_push; [done|]. simpl. rewrite length_app; simpl. lia.
  - intros k. by eapply counted_same.
Qed.

(** * The invariant *)

Definition initial_capacities (n cap syscap : Z) : list (Z * Z) :=
  (fun index => (split_capacity cap n (Z.of_nat index), split_capacity syscap n (Z.of_nat index)))
    <$> seq 0 (Z.to_nat n).

Definition detaching c : bool := match controller c with LDetach _ => true | _ => false end.

(** Where the lifecycle thread can be in each dispatcher state. *)
Definition life_ok c : Prop :=
  match controller c with
  | LFree => state (the_pool c) <> STARTING
  | LStart k => state (the_pool c) = STARTING /\
      forall j w, (j < k)%nat -> workers c !! j = Some w -> w <> WNew
  | LWake _ after => state (the_pool c) = STOPPING /\
      (after = LJoin \/ after = LFailedJoin \/ after = LFree)
  | LJoin | LFailedJoin => state (the_pool c) = STOPPING
  | LDetach k => state (the_pool c) = STOPPING /\
      Forall (fun w => w = WExit \/ w = WNew) (workers c) /\
      forall j q, (j < k)%nat -> queues (the_pool c) !! j = Some q -> q_empty q
  end.

Record pool_inv (n cap syscap : Z) c : Prop := {
  pi_capacities : capacities (the_pool c) = initial_capacities n cap syscap;
  pi_queues : Forall queue_ok (queues (the_pool c));
  pi_workers : length (workers c) = length (queues (the_pool c));
  pi_counted : detaching c = false ->
    counted (the_pool c) (sum_list_with taken (workers c));
  pi_life : life_ok c;
  pi_exit : forall i, workers c !! i = Some WExit -> stopping (the_pool c) = true;
  pi_abort : abort (the_pool c) = true -> stopping (the_pool c) = true;
  pi_running : state (the_pool c) = RUNNING -> Forall (fun w => w <> WNew) (workers c);
}.

Lemma framed_stopping p p' : framed p p' -> stopping p' = stopping p.
Proof. intros [Hs _ _]. unfold stopping. by rewrite Hs. Qed.

Lemma worker_step_inv n cap syscap c i w p' w' es :
  pool_inv n cap syscap c -> workers c !! i = Some w ->
  worker_effect (the_pool c) w p' w' es ->
  pool_inv n cap syscap (mkConfig p' (<[i := w']> (workers c)) (publishers c) (controller c)).
Proof.
  intros [Ic Iq Iw Ik Il Ie Ia Ir] Hi [Hf Hok Hcnt _ _ (Hn & Hx & Hn') Hexit].
  pose proof (framed_stopping _ _ Hf) as Hst. pose proof (framed_length _ _ Hf) as Hlen.
  destruct Hf as [Fs Fa Fc]. constructor; simpl.
  - congruence.
  - auto.
  - rewrite length_insert. lia.
  - intros Hd. pose proof (sum_insert taken _ _ _ w' Hi) as S.
    specialize (Ik Hd). specialize (Hcnt (sum_list_with taken (workers c) - taken w)%nat).
    pose proof (sum_lookup taken _ _ _ Hi).
    replace (taken w + (sum_list_with taken (workers c) - taken w))%nat
      with (sum_list_with taken (workers c)) in Hcnt by lia.
    replace (sum_list_with taken (<[i:=w']> (workers c)))
      with (taken w' + (sum_list_with taken (workers c) - taken w))%nat by lia. auto.
  - unfold life_ok in *; simpl. destruct (controller c); rewrite ?Fs; try done.
    + destruct Il as [Hs Hj]. split; [done|]. intros j u Hjk Hu.
      apply list_lookup_insert_Some in Hu as [(<- & <- & _)|[_ Hu]]; [done|by eapply Hj].
    + destruct Il as (Hs & Hall & _). eapply Forall_lookup_1 in Hall; [|exact Hi].
      by destruct Hall.
  - intros j Hj. rewrite Hst. apply list_lookup_insert_Some in Hj as [(_ & E & _)|[_ Hj]].
    + destruct (Hexit E); auto.
    + by eapply Ie.
  - rewrite Fa, Hst. done.
  - rewrite Fs. intros Hr. apply Forall_insert; auto.
Qed.

(** Steps that leave the workers alone. *)
Lemma pool_step_inv n cap syscap c p' pubs' ctl' :
  pool_inv n cap syscap c ->
  capacities p' = capacities (the_pool c) ->
  (Forall queue_ok (queues (the_pool c)) -> Forall queue_ok (queues p')) ->
  (detaching (mkConfig p' (workers c) pubs' ctl') = false ->
   counted p' (sum_list_with taken (workers c))) ->
  life_ok (mkConfig p' (workers c) pubs' ctl') ->
  (stopping (the_pool c) = true -> stopping p' = true) ->
  (abort p' = true -> stopping p' = true) ->
  (state p' = RUNNING -> Forall (fun w => w <> WNew) (workers c)) ->
  pool_inv n cap syscap (mkConfig p' (workers c) pubs' ctl').
Proof.
  intros [Ic Iq Iw Ik Il Ie Ia Ir] Hc Hq Hk Hl Hs Ha Hr. constructor; simpl; auto; try congruence.
  - apply (f_equal length) in Hc. unfold capacities in Hc. rewrite !length_fmap in Hc. lia.
  - intros i Hi. apply Hs. by eapply Ie.
Qed.

Lemma publish_step_inv n cap syscap c p' pubs' task out :
  pool_inv n cap syscap c -> publish_effect (the_pool c) p' task out ->
  pool_inv n cap syscap (mkConfig p' (workers c) pubs' (controller c)).
Proof.
  intros Hinv [Hf Hok Hcnt _ Hrun Hsame]. pose proof (framed_stopping _ _ Hf) as Hst.
  pose proof Hf as [Fs Fa Fc]. destruct Hinv as [Ic Iq Iw Ik Il Ie Ia Ir].
  apply pool_step_inv with (c := c); try done; rewrite ?Fs, ?Fa, ?Hst; auto.
  unfold life_ok in *; simpl. destruct (controller c); rewrite ?Fs; try done.
  destruct Il as (Hs & Hall & Hj). split_and!; try done. rewrite Hsame; [done|].
  intros E. rewrite (Hrun E) in Hs. done.
Qed.

Lemma choose_worker_idle next ident busy popped p p' start next' :
  _choose_worker next ident busy popped p = (p', start, next') ->
  exists idle avail, p' = set_idle p idle avail.
Proof.
  unfold _choose_worker. set (s := match next with Some s => s | None => _ end).
  destruct (busy s && negb _); [|destruct (busy s && _); [case_bool_decide|]];
    intros [= <- _ _]; try (by eexists _, _);
    exists (idle_workers p), (idle_available p); by destruct p.
Qed.

Lemma idle_step_inv n cap syscap c idle avail pubs' :
  pool_inv n cap syscap c ->
  pool_inv n cap syscap (mkConfig (set_idle (the_pool c) idle avail) (workers c) pubs'
                           (controller c)).
Proof. intros [Ic Iq Iw Ik Il Ie Ia Ir]. by constructor. Qed.

Lemma set_state_counted p s k : counted p k -> counted (_set_state p s) k.
Proof. done. Qed.

Lemma sum_empty (qs : list (WorkQueue (Task := Task))) :
  Forall q_empty qs -> sum_list_with (fun q => length (system_tasks q)) qs = 0%nat.
Proof. induction 1 as [|q qs [_ E] _ IH]; simpl; [done|]. by rewrite E. Qed.

Lemma queues_all_empty p k :
  (forall j q, (j < k)%nat -> queues p !! j = Some q -> q_empty q) -> queues p !! k = None ->
  queued_system p = 0%nat.
Proof.
  intros Hj Hk%lookup_ge_None. apply sum_empty, Forall_lookup. intros j q Hq.
  eapply (Hj j); [|done]. apply lookup_lt_Some in Hq. lia.
Qed.

Lemma taken_none (ws : list (worker (Task := Task))) :
  Forall (fun w => w = WExit \/ w = WNew) ws -> sum_list_with taken ws = 0%nat.
Proof. induction 1 as [|w ws [-> | ->] _ IH]; simpl; done. Qed.

Lemma wake_queue_ok q : queue_ok q -> queue_ok (wake q).
Proof. intros [_ Hc Hs]. constructor; simpl; auto. Qed.

Lemma stopping_spec p : stopping p = true <-> state p = STOPPING \/ state p = STOPPED.
Proof. unfold stopping. by rewrite orb_true_iff, !bool_decide_eq_true. Qed.

(** A step of the lifecycle thread: what is immediate from the current state. *)
Ltac life_step Hc :=
  unfold life_ok, detaching in *; rewrite Hc in *;
  match goal with Hinv : pool_inv _ _ _ _ |- _ => eapply pool_step_inv; [exact Hinv|..] end;
  try done; simpl; unfold life_ok; simpl;
  try (intros _; apply set_state_counted; by auto); try by auto;
  try (rewrite !stopping_spec in *; simpl; intuition congruence).

Lemma pool_transition_inv n cap syscap c es c' :
  pool_inv n cap syscap c -> step c es c' -> pool_inv n cap syscap c'.
Proof.
  intros Hinv Hstep. pose proof Hinv as [Ic Iq Iw Ik Il Ie Ia Ir].
  destruct Hstep as [c i w p' w' es Hi Hw|c system task|c k system task next ident busy popped
    p' start next' Hk Hn Hc|c k system task start offset p' out Hk Ho Hp
    |c k system task start offset Hk Ho|c Hc Hs|c k Hc Hw|c k Hc|c Hc|c Hc|c Hc Hs|c Hc Hs|c Hc Hs
    |c k after q Hc Hq|c k after Hc Hq|c Hc|c Hc Hall|c k q q' ts ss Hc Hq Hd|c k Hc Hq].
  - by eapply worker_step_inv; [| |eapply worker_step_effect].
  - destruct Hinv. by constructor.
  - destruct (choose_worker_idle _ _ _ _ _ _ _ _ Hc) as (idle & avail & ->).
    by apply idle_step_inv.
  - by eapply publish_step_inv; [|eapply publish_locked_effect].
  - destruct Hinv. by constructor.
  (* start *)
  - life_step Hc. split; [done|]. intros j w Hj. lia.
  - unfold life_ok, detaching in *. rewrite Hc in *. destruct Il as [Hs Hj].
    constructor; simpl; try done.
    + by rewrite length_insert.
    + intros _. specialize (Ik eq_refl). pose proof (sum_insert taken _ _ _ WTop Hw) as S.
      simpl in S. by replace (sum_list_with taken (<[k:=WTop]> (workers c)))
        with (sum_list_with taken (workers c)) by lia.
    + unfold life_ok; simpl. split; [done|]. intros j w Hjk Hw'.
      apply list_lookup_insert_Some in Hw' as [(_ & <- & _)|[? Hw']]; [done|].
      eapply (Hj j); [lia|done].
    + intros j Hj'. apply list_lookup_insert_Some in Hj' as [(_ & E & _)|[_ Hj']]; [done|].
      by eapply Ie.
    + congruence.
  - life_step Hc; auto.
  - life_step Hc.
  - life_step Hc.
    intros _. apply Forall_lookup. intros j w Hw. eapply (proj2 Il); [|done].
    by eapply lookup_lt_Some.
  (* stop *)
  - life_step Hc.
  - life_step Hc; auto.
  - life_step Hc.
  - life_step Hc.
    + unfold capacities; simpl. rewrite list_fmap_insert. apply list_insert_id.
      by rewrite list_lookup_fmap, Hq.
    + intros Hall. simpl. apply Forall_insert; [done|]. apply wake_queue_ok.
      by eapply Forall_lookup_1 in Hq.
    + intros _. eapply counted_same; eauto.
  - life_step Hc.
    destruct Il as [Hs [-> |[-> | ->]]]; simpl; by rewrite Hs.
  - life_step Hc; auto.
  - life_step Hc. split_and!; try done. intros j q Hj. lia.
  - unfold detach in Hd. injection Hd as <- <- <-. life_step Hc.
    + unfold capacities; simpl. rewrite list_fmap_insert. apply list_insert_id.
      by rewrite list_lookup_fmap, Hq.
    + intros Hall. simpl. apply Forall_insert; [done|].
      eapply Forall_lookup_1 in Hq; [|done]. destruct Hq. constructor; simpl; [by left|lia|lia].
    + destruct Il as (Hs & Hall & Hj). split_and!; try done. intros j q0 Hjk Hq0.
      apply list_lookup_insert_Some in Hq0 as [(_ & <- & _)|[? Hq0]]; [done|].
      eapply (Hj j); [lia|done].
  - life_step Hc. intros _. destruct Il as (_ & Hall & Hj). unfold counted; simpl.
    change (queued_system _) with (queued_system (the_pool c)).
    by rewrite (queues_all_empty _ _ Hj Hq), (taken_none _ Hall).
Qed.
End invariant.
