(* ===== verification/WorkerPoolSpec.v ===== *)
(** What the worker pool promises: no task is stranded, lost or run twice, the
    activation queues are bounded by the configured capacities, lifecycle tasks
    come first, and the behaviour of [_publish] and [_take_available] run
    without interference. *)

From stdpp Require Import base list numbers gmap.
From S2P Require Import Prelude WorkerPool WorkerPoolInv.

Section spec.
Context {Task : Type}.
Implicit Types (q : WorkQueue (Task := Task)) (p : pool (Task := Task)).
Implicit Types (w : worker (Task := Task)) (c : config (Task := Task)).

(** * Reachable configurations *)

Lemma split_capacity_nonneg total n i : 0 < n -> 0 <= total -> 0 <= split_capacity total n i.
Proof.
  intros Hn Ht. unfold split_capacity. pose proof (Z.div_pos total n Ht Hn).
  destruct (i <? _); lia.
Qed.

Lemma pool_init_inv n timeout cap syscap p :
  pool_new (Task := Task) n timeout cap syscap = Ok p ->
  pool_inv n cap syscap (mkConfig p (replicate (length (queues p)) WNew) [] LFree) /\
  0 < n /\ 0 < cap /\ 0 < syscap.
Proof.
  unfold pool_new. intros H. inv_run. split; [|done]. constructor; simpl; try done.
  - unfold capacities, initial_capacities; simpl. by rewrite <- list_fmap_compose.
  - apply Forall_fmap, Forall_forall. intros i _. constructor; simpl.
    + left. done.
    + apply split_capacity_nonneg; lia.
    + apply split_capacity_nonneg; lia.
  - by rewrite length_replicate.
  - intros _. unfold counted; simpl. rewrite taken_none.
    + rewrite Nat.add_0_r. unfold queued_system; simpl. rewrite sum_empty; [done|].
      apply Forall_fmap, Forall_forall. done.
    + apply Forall_replicate. auto.
  - intros i Hi. apply lookup_replicate in Hi as [? _]. done.
Qed.

Lemma pool_execution_inv n cap syscap es c :
  execution n cap syscap es c ->
  pool_inv n cap syscap c /\ 0 < n /\ 0 < cap /\ 0 < syscap.
Proof.
  induction 1 as [timeout p Hp|es e c c' Hex [IH Hn] Hstep].
  - by eapply pool_init_inv.
  - split; [|done]. by eapply pool_transition_inv.
Qed.

(** * Conservation *)

Definition held_by (ws : list worker) : list Task := flat_map held ws.

Lemma held_insert (ws : list worker) i w w' :
  ws !! i = Some w -> held_by (<[i := w']> ws) ++ held w ≡ₚ held_by ws ++ held w'.
Proof. apply flat_map_insert. Qed.

Lemma step_conserves c es c' :
  step c es c' ->
  accepted es ++ held_by (workers c) ++ queued (the_pool c) ≡ₚ
  ran es ++ abandoned es ++ held_by (workers c') ++ queued (the_pool c').
Proof.
  destruct 1 as [c i w p' w' es Hi Hw|c system task|c k system task next ident busy popped
    p' start next' Hk Hn Hc|c k system task start offset p' out Hk Ho Hp
    |c k system task start offset Hk Ho|c Hc Hs|c k Hc Hw|c k Hc|c Hc|c Hc|c Hc Hs|c Hc Hs|c Hc Hs
    |c k after q Hc Hq|c k after Hc Hq|c Hc|c Hc Hall|c k q q' ts ss Hc Hq Hd|c k Hc Hq];
    simpl; try done.
  - destruct (worker_step_effect _ _ _ _ _ _ _ Hw) as [_ _ _ Hit [-> ->] _ _]. simpl.
    eapply perm_exchange; [by apply held_insert|done].
  - destruct (choose_worker_idle _ _ _ _ _ _ _ _ Hc) as (idle & avail & ->). done.
  - destruct (publish_locked_effect _ _ _ _ _ _ Hp) as [_ _ _ Hit _ _]. rewrite Hit.
    destruct out; simpl; try done. apply Permutation_middle.
  - pose proof (held_insert _ _ _ WTop Hw) as Hh. simpl in Hh. rewrite !app_nil_r in Hh.
    by rewrite Hh.
  - f_equiv. symmetry. eapply (queued_insert _ _ q _ []); [done|]. done.
  - unfold detach in Hd. injection Hd as <- <- <-. rewrite app_nil_r.
    assert (Hm : (tasks q ++ system_tasks q) ++
      queued (set_queue (the_pool c) k (mkQueue [] [] (q_capacity q) (q_system_capacity q) false))
      ≡ₚ queued (the_pool c)).
    { unfold queued; simpl. pose proof (flat_map_insert (fun q => tasks q ++ system_tasks q)
        _ _ _ (mkQueue [] [] (q_capacity q) (q_system_capacity q) false) Hq) as P.
      simpl in P. rewrite app_nil_r in P. rewrite <- P. apply Permutation_app_comm. }
    rewrite <- Hm. solve_Permutation.
Qed.

Lemma accepted_app es es' : accepted (Task := Task) (es ++ es') = accepted es ++ accepted es'.
Proof. apply flat_map_app. Qed.
Lemma ran_app es es' : ran (Task := Task) (es ++ es') = ran es ++ ran es'.
Proof. apply flat_map_app. Qed.
Lemma abandoned_app es es' : abandoned (Task := Task) (es ++ es') = abandoned es ++ abandoned es'.
Proof. apply flat_map_app. Qed.

(** * Progress *)

Lemma take_system_total owner i p : exists p' r, take_system_at owner i p = (p', r).
Proof. destruct (take_system_at owner i p) as [p' r]. eauto. Qed.

(** A started worker can always advance, unless it waits for its own queue. *)
Lemma worker_enabled n i p w :
  w <> WNew -> w <> WExit -> (w = WWait -> exists q, queues p !! i = Some q /\ ready q = true) ->
  exists p' w' es, worker_step n i p w p' w' es.
Proof.
  intros Hn Hx Hw. destruct w as [| |marked offset|marked task|marked offset|marked| |task|]; try done.
  - destruct (abort p) eqn:Ha; [do 3 eexists; by apply ws_abort|].
    do 3 eexists. apply (ws_begin _ _ _ false). auto.
  - destruct (decide (offset < n)%nat); [|do 3 eexists; apply ws_system_end; lia].
    destruct (take_system_at (offset =? 0)%nat ((i + offset) mod n) p) as [p' [task|]] eqn:E;
      do 3 eexists; [by eapply ws_system_hit|by eapply ws_system_miss].
  - do 3 eexists. apply ws_taken.
  - destruct (decide (offset < n)%nat); [|do 3 eexists; apply ws_ordinary_end; lia].
    destruct (take_ordinary_at (offset =? 0)%nat ((i + offset) mod n) p) as [p' [task|]] eqn:E;
      do 3 eexists; [by eapply ws_ordinary_hit|by eapply ws_ordinary_miss].
  - destruct (stopping p) eqn:Hs; [do 3 eexists; by apply ws_stopped|].
    destruct marked; do 3 eexists; [by apply ws_wait|]. apply (ws_begin _ _ _ true). auto.
  - destruct (Hw eq_refl) as (q & Hq & Hr). do 3 eexists. by eapply ws_woken.
  - do 3 eexists. apply ws_run.
Qed.

(** * Totals *)

Lemma sum_split_step (f : nat -> Z) (k s : nat) (x m : Z) :
  (forall i, f i = x + (if Z.of_nat i <? m then 1 else 0)) -> 0 <= m ->
  foldr Z.add 0 (f <$> seq s k) =
  x * Z.of_nat k + Z.max 0 (Z.min (Z.of_nat (s + k)) m - Z.min (Z.of_nat s) m).
Proof.
  intros Hf Hm. revert s. induction k as [|k IH]; intros s; cbn [seq fmap list_fmap foldr]; [lia|].
  change (list_fmap nat Z f) with (fmap (M := list) f). rewrite IH, Hf. destruct (Z.ltb_spec (Z.of_nat s) m); lia.
Qed.

(** [divmod] splits a capacity without loss. *)
Lemma split_capacity_sum total n :
  0 < n -> 0 <= total ->
  foldr Z.add 0 ((fun i => split_capacity total n (Z.of_nat i)) <$> seq 0 (Z.to_nat n)) = total.
Proof.
  intros Hn Ht. pose proof (Z.mod_pos_bound total n Hn).
  rewrite (sum_split_step _ _ _ (total / n) (total mod n)); [|done|lia].
  pose proof (Z.div_mod total n ltac:(lia)). lia.
Qed.

Lemma sum_bound {A} (f g : A -> Z) (l : list A) :
  Forall (fun x => f x <= g x) l -> foldr Z.add 0 (f <$> l) <= foldr Z.add 0 (g <$> l).
Proof. induction 1; simpl; [done|by apply Z.add_le_mono]. Qed.

(** * Rotations of the queues *)

Definition rotation (start n : nat) : list nat := (fun o => (start + o) mod n)%nat <$> seq 0 n.

Lemma rotation_elem start n j : (j < n)%nat -> j ∈ rotation start n.
Proof.
  intros Hj. unfold rotation. apply list_elem_of_fmap.
  exists ((j + (n - start mod n)) mod n)%nat. split.
  - rewrite Nat.Div0.add_mod_idemp_r.
    pose proof (Nat.mod_upper_bound start n ltac:(lia)).
    rewrite (Nat.div_mod_eq start n) at 1.
    replace (n * (start / n) + start mod n + (j + (n - start mod n)))%nat
      with (j + (start / n + 1) * n)%nat by lia.
    rewrite Nat.Div0.mod_add. by rewrite Nat.mod_small.
  - apply elem_of_seq. pose proof (Nat.mod_upper_bound (j + (n - start mod n)) n ltac:(lia)). lia.
Qed.

Definition system_at p (i : nat) : list Task := default [] (system_tasks <$> queues p !! i).
Definition ordinary_at p (i : nat) : list Task := default [] (tasks <$> queues p !! i).

(** A queue visited without success keeps its tasks. *)
Lemma take_system_miss owner i p p' :
  take_system_at owner i p = (p', None) ->
  length (queues p') = length (queues p) /\ system_at p i = [] /\
  forall j, system_at p' j = system_at p j /\ ordinary_at p' j = ordinary_at p j.
Proof.
  unfold take_system_at, system_at, ordinary_at. destruct (queues p !! i) as [q|] eqn:Hi;
    [|by intros [= <-]].
  unfold take_system. destruct (system_tasks q) eqn:Hs; intros [= <-]; simpl.
  rewrite length_insert, Hs. split_and!; try done. intros j.
  destruct (decide (i = j)) as [<-|]; [|by rewrite list_lookup_insert_ne].
  rewrite list_lookup_insert_eq, Hi by (by eapply lookup_lt_Some). simpl. by rewrite Hs.
Qed.

Lemma take_ordinary_miss owner i p p' :
  take_ordinary_at owner i p = (p', None) ->
  length (queues p') = length (queues p) /\ ordinary_at p i = [] /\
  forall j, system_at p' j = system_at p j /\ ordinary_at p' j = ordinary_at p j.
Proof.
  unfold take_ordinary_at, system_at, ordinary_at. destruct (queues p !! i) as [q|] eqn:Hi;
    [|by intros [= <-]].
  unfold take_ordinary. destruct (tasks q) eqn:Hs; intros [= <-]; simpl.
  rewrite length_insert, Hs. split_and!; try done. intros j.
  destruct (decide (i = j)) as [<-|]; [|by rewrite list_lookup_insert_ne].
  rewrite list_lookup_insert_eq, Hi by (by eapply lookup_lt_Some). simpl. by rewrite Hs.
Qed.

Lemma take_system_hit owner i p p' t :
  take_system_at owner i p = (p', Some t) -> head (system_at p i) = Some t.
Proof.
  unfold take_system_at, system_at. destruct (queues p !! i) as [q|]; [|done].
  unfold take_system. destruct (system_tasks q) eqn:E; intros [= _ <-]; simpl. by rewrite E.
Qed.

Lemma take_ordinary_hit owner i p p' t :
  take_ordinary_at owner i p = (p', Some t) -> head (ordinary_at p i) = Some t.
Proof.
  unfold take_ordinary_at, ordinary_at. destruct (queues p !! i) as [q|]; [|done].
  unfold take_ordinary. destruct (tasks q) eqn:E; intros [= _ <-]; simpl. by rewrite E.
Qed.

Lemma head_app {A} (l k : list A) x : head l = Some x -> head (l ++ k) = Some x.
Proof. by destruct l. Qed.

Lemma scan_system_spec i offsets p p' r :
  scan_system i offsets p = (p', r) ->
  r = head (flat_map (system_at p) ((fun o => (i + o) mod length (queues p))%nat <$> offsets)) /\
  (r = None -> length (queues p') = length (queues p) /\
     forall j, ordinary_at p' j = ordinary_at p j).
Proof.
  revert p. induction offsets as [|o offsets IH]; intros p; simpl.
  { intros [= <- <-]. auto. }
  destruct (take_system_at _ _ p) as [p1 [t|]] eqn:E.
  - intros [= <- <-]. split; [|done]. symmetry. apply head_app. by eapply take_system_hit.
  - apply take_system_miss in E as (Hl & He & Hs). intros H%IH. rewrite Hl in H.
    rewrite He; simpl. destruct H as [-> Hn]. split.
    + f_equal. apply flat_map_ext. intros j. apply Hs.
    + intros Hr. destruct (Hn Hr) as [? Ho]. split; [done|]. intros j. rewrite Ho. apply Hs.
Qed.

Lemma scan_ordinary_spec i offsets p p' r :
  scan_ordinary i offsets p = (p', r) ->
  r = head (flat_map (ordinary_at p) ((fun o => (i + o) mod length (queues p))%nat <$> offsets)).
Proof.
  revert p. induction offsets as [|o offsets IH]; intros p; simpl.
  { by intros [= _ <-]. }
  destruct (take_ordinary_at _ _ p) as [p1 [t|]] eqn:E.
  - intros [= <- <-]. symmetry. apply head_app. by eapply take_ordinary_hit.
  - apply take_ordinary_miss in E as (Hl & He & Hs). intros H%IH. rewrite Hl in H.
    rewrite He, H; simpl. f_equal. apply flat_map_ext. intros j. apply Hs.
Qed.

(** No queued lifecycle task: nothing in any rotation. *)
Lemma no_system_tasks p l : queued_system p = 0%nat -> flat_map (system_at p) l = [].
Proof.
  intros H0. assert (Hj : forall j, system_at p j = []).
  { intros j. unfold system_at. destruct (queues p !! j) as [q|] eqn:Hq; [|done]. simpl.
    pose proof (sum_lookup (fun q => length (system_tasks q)) _ _ _ Hq) as Hs.
    unfold queued_system in H0. simpl in Hs. destruct (system_tasks q); [done|simpl in Hs; lia]. }
  induction l as [|j l IH]; simpl; [done|]. by rewrite Hj.
Qed.

(** * Publishing *)

Definition room (system : bool) q : bool :=
  if system then Z.of_nat (length (system_tasks q)) <? q_system_capacity q
  else Z.of_nat (length (tasks q)) <? q_capacity q.

Definition push (system : bool) (task : Task) q : WorkQueue :=
  mkQueue (if system then tasks q else tasks q ++ [task])
    (if system then system_tasks q ++ [task] else system_tasks q)
    (q_capacity q) (q_system_capacity q)
    (if is_nil (tasks q) && is_nil (system_tasks q) then true else ready q).

Lemma publish_locked_spec system task i p q :
  state p = RUNNING -> queues p !! i = Some q ->
  publish_locked system task i p =
  if room system q then
    (let p' := set_queue p i (push system task q) in
     if system then set_system p' (system_count p' + 1) true else p', Published)
  else (p, PublishFull).
Proof.
  intros Hs Hq. unfold publish_locked, room, push. rewrite Hq, bool_decide_eq_true_2 by done. simpl.
  destruct system; simpl; rewrite Z.leb_antisym; by destruct (_ <? _).
Qed.

Lemma publish_from_spec system task start offsets p :
  state p = RUNNING -> queues p <> [] ->
  let order := (fun o => (start + o) mod length (queues p))%nat <$> offsets in
  (exists i q, i ∈ order /\ queues p !! i = Some q /\ room system q = true /\
     publish_from system task start offsets p =
       (let p' := set_queue p i (push system task q) in
        if system then set_system p' (system_count p' + 1) true else p', Ok tt)) \/
  (forall i q, i ∈ order -> queues p !! i = Some q -> room system q = false) /\
  publish_from system task start offsets p = (p, Err DispatcherCapacityExceeded).
Proof.
  intros Hs Hn order. subst order. induction offsets as [|o offsets IH]; simpl.
  - right. split; [|done]. intros i q Hi. by apply not_elem_of_nil in Hi.
  - assert (Hlen : length (queues p) <> 0%nat) by (by destruct (queues p)).
    destruct (lookup_lt_is_Some_2 (queues p) ((start + o) mod length (queues p))) as [q Hq].
    { by apply Nat.mod_upper_bound. }
    rewrite (publish_locked_spec _ _ _ _ _ Hs Hq). destruct (room system q) eqn:Hr.
    + left. exists ((start + o) mod length (queues p))%nat, q. split_and!; try done. left.
    + destruct IH as [(i & q' & Hi & Hq' & Hr' & E)|[Hfull E]].
      * left. exists i, q'. split_and!; try done. by right.
      * right. split; [|done]. intros i q' [-> |Hi]%elem_of_cons Hq'; [congruence|by eapply Hfull].
Qed.

(** * Claims *)

(** C17.  No stranded task: while the dispatcher runs, a worker whose own queue
    holds a task is alive and never blocked in [ready.wait()]: it can take its
    next step, whatever the other threads do. *)
Theorem pool_no_stranded_task n cap syscap es c i q :
  execution n cap syscap es c -> state (the_pool c) = RUNNING ->
  queues (the_pool c) !! i = Some q -> ~ q_empty q ->
  exists w p' w' es', workers c !! i = Some w /\
    worker_step (length (queues (the_pool c))) i (the_pool c) w p' w' es'.
Proof.
  intros Hex Hs Hq Hne. destruct (pool_execution_inv _ _ _ _ _ Hex) as [[Ic Iq Iw Ik Il Ie Ia Ir] Hn].
  destruct (lookup_lt_is_Some_2 (workers c) i) as [w Hw].
  { rewrite Iw. by eapply lookup_lt_Some. }
  destruct (worker_enabled (length (queues (the_pool c))) i (the_pool c) w)
    as (p' & w' & es' & Hstep).
  - by apply (Forall_lookup_1 _ _ _ _ (Ir Hs) Hw).
  - intros ->. apply Ie, stopping_spec in Hw. intuition congruence.
  - intros _. exists q. split; [done|].
    by destruct (qo_ready _ (Forall_lookup_1 _ _ _ _ Iq Hq)).
  - eauto 7.
Qed.

(** C21.  Conservation: at every moment the tasks accepted by [dispatch] and
    [dispatch_system] are, as a multiset, those that ran, those abandoned by a
    completed stop, those a worker holds and those still queued: no accepted
    task is lost or run twice. *)
Theorem pool_conserves_tasks n cap syscap es c :
  execution n cap syscap es c ->
  accepted es ≡ₚ ran es ++ abandoned es ++ held_by (workers c) ++ queued (the_pool c).
Proof.
  induction 1 as [timeout p Hp|es e c c' Hex IH Hstep].
  - unfold pool_new in Hp. inv_run. simpl. unfold queued; simpl.
    assert (E : forall k, held_by (replicate k WNew) = []) by (induction k; done).
    rewrite E; simpl. induction (seq _ _); simpl; done.
  - rewrite accepted_app, ran_app, abandoned_app, IH. apply step_conserves in Hstep.
    trans (ran es ++ abandoned es ++ (accepted e ++ held_by (workers c) ++ queued (the_pool c)));
      [solve_Permutation|]. rewrite Hstep. solve_Permutation.
Qed.

(** Bounded activation queues: the per-worker capacities add up to the
    configured [queue-capacity] and [system-queue-capacity], so at no moment do
    the queues together hold more ordinary or lifecycle tasks than configured. *)
Theorem pool_bounded n cap syscap es c :
  execution n cap syscap es c ->
  foldr Z.add 0 ((fun q => Z.of_nat (length (tasks q))) <$> queues (the_pool c)) <= cap /\
  foldr Z.add 0 ((fun q => Z.of_nat (length (system_tasks q))) <$> queues (the_pool c)) <= syscap.
Proof.
  intros Hex. destruct (pool_execution_inv _ _ _ _ _ Hex) as [[Ic Iq Iw Ik Il Ie Ia Ir] (Hn & Hcap & Hsys)].
  unfold capacities, initial_capacities in Ic. split.
  - rewrite <- (split_capacity_sum cap n) by lia.
    apply (f_equal (fmap fst)) in Ic. rewrite <- !list_fmap_compose in Ic. simpl in Ic.
    etrans; [apply (sum_bound _ q_capacity)|].
    + eapply Forall_impl; [exact Iq|]. by intros q [].
    + apply Z.eq_le_incl. f_equal. exact Ic.
  - rewrite <- (split_capacity_sum syscap n) by lia.
    apply (f_equal (fmap snd)) in Ic. rewrite <- !list_fmap_compose in Ic. simpl in Ic.
    etrans; [apply (sum_bound _ q_system_capacity)|].
    + eapply Forall_impl; [exact Iq|]. by intros q [].
    + apply Z.eq_le_incl. f_equal. exact Ic.
Qed.

(** Lifecycle first, own queue first: run without interference on a pool
    whose counters are right (which every reachable pool's are), a worker's
    [_take_available] returns the first lifecycle task found going round the
    queues from its own, if any queue holds one, and otherwise the first ordinary
    task in the same order; it returns [None] only if both searches are empty.
    In particular a lifecycle task anywhere precedes every ordinary one. *)
Theorem take_available_order i p :
  counted p 0 ->
  (_take_available i p).2 =
  match head (flat_map (system_at p) (rotation i (length (queues p)))) with
  | Some task => Some task
  | None => head (flat_map (ordinary_at p) (rotation i (length (queues p))))
  end.
Proof.
  intros [Hc Ha]. unfold _take_available, rotation.
  destruct (system_available p) eqn:Eav.
  - destruct (scan_system i _ p) as [p1 r] eqn:Es. apply scan_system_spec in Es as [Hr Hn].
    rewrite <- Hr. destruct r as [t|]; [done|]. destruct (Hn eq_refl) as [Hl Ho].
    destruct (scan_ordinary i _ p1) as [p2 r2] eqn:Eo. apply scan_ordinary_spec in Eo.
    rewrite Hl in Eo. simpl. rewrite Eo. f_equal. by apply flat_map_ext.
  - rewrite no_system_tasks by lia.
    destruct (scan_ordinary i _ p) as [p2 r2] eqn:Eo. apply scan_ordinary_spec in Eo. done.
Qed.

(** Publication: run without interference on a running dispatcher,
    [_publish] appends the task to exactly one queue that has room, waking it if
    it was empty and counting a lifecycle task, whenever any queue of the pool
    has room; it raises [DispatcherCapacityExceeded] exactly when every queue is
    full, and then no queue changes.  [placement], thread and idle hints do not
    matter. *)
Theorem publish_spec system task next ident busy popped p :
  state p = RUNNING -> queues p <> [] ->
  (exists i q, queues p !! i = Some q /\ room system q = true /\
     (_publish system task next ident busy popped p).2 = Ok tt /\
     queues (_publish system task next ident busy popped p).1 =
       <[i := push system task q]> (queues p) /\
     system_count (_publish system task next ident busy popped p).1 =
       system_count p + (if system then 1 else 0)) \/
  (Forall (fun q => room system q = false) (queues p) /\
   (_publish system task next ident busy popped p).2 = Err DispatcherCapacityExceeded /\
   queues (_publish system task next ident busy popped p).1 = queues p).
Proof.
  intros Hs Hn. unfold _publish.
  destruct (_choose_worker next ident busy popped p) as [[p1 start] next'] eqn:Hc.
  destruct (choose_worker_idle _ _ _ _ _ _ _ _ Hc) as (idle & avail & ->).
  destruct (publish_from_spec system task start (seq 0 (length (queues p)))
    (set_idle p idle avail) Hs Hn) as [(i & q & Hi & Hq & Hr & E)|[Hfull E]]; simpl in *; rewrite E.
  - left. exists i, q. destruct system; simpl; split_and!; try done; lia.
  - right. split_and!; try done. apply Forall_lookup. intros i q Hq.
    eapply (Hfull i); [|done]. apply (rotation_elem start). by eapply lookup_lt_Some.
Qed.

(** * A refusal in spite of free capacity

    [_publish] visits the queues one after the other, each under its own lock
    only.  If the one lifecycle task in the pool is taken after the scan passed
    its queue, and another one arrives in a queue the scan has still to visit,
    the scan finds every queue full although the pool never holds more than one
    lifecycle task. *)
Inductive run_within (k : nat) : config -> config -> Prop :=
  | rw_refl c : run_within k c c
  | rw_step c c' es c'' :
      run_within k c c' -> step c' es c'' ->
      (queued_system (the_pool c'') + sum_list_with taken (workers c'') <= k)%nat ->
      run_within k c c''.
End spec.

Module PoolRun.
(** A pool of two workers and capacity one per queue and kind. *)
Definition q0 : WorkQueue (Task := nat) := WorkQueue_new 1 1.
Definition pool0 : pool := mkPool [q0; q0] NEW 0 false ∅ false false.
Definition running : pool := mkPool [q0; q0] RUNNING 0 false ∅ false false.
Definition started : config := mkConfig running [WTop; WTop] [] LFree.

Lemma pool0_new : pool_new 2 10 2 2 = Ok pool0.
Proof. reflexivity. Qed.

(** Extend an execution, or a bounded run, by one computed step. *)
Ltac advance E tac :=
  let E' := fresh in
  eassert (E' : execution 2 2 2 _ _) by (eapply exec_step; [exact E|tac]);
  cbn in E'; clear E; rename E' into E.
Ltac advance_within E tac :=
  let E' := fresh in
  eassert (E' : run_within 1 _ _) by
    (eapply rw_step; [exact E|tac|vm_compute; repeat constructor]);
  cbn in E'; clear E; rename E' into E.
Ltac publish k := eapply (step_publish _ k); [reflexivity|cbn; lia|reflexivity].
Ltac choose k s :=
  eapply (step_choose _ k _ _ (Some s) 0 (fun _ => false) 0); [reflexivity|cbn; lia|reflexivity].

Lemma started_execution : execution 2 2 2 [] started.
Proof.
  pose proof (exec_init 2 2 2 10 pool0 pool0_new) as E. cbn in E.
  advance E ltac:(eapply step_start; reflexivity).
  advance E ltac:(eapply (step_start_worker _ 0); reflexivity).
  advance E ltac:(eapply (step_start_worker _ 1); reflexivity).
  advance E ltac:(eapply step_started; reflexivity).
  exact E.
Qed.

(** Refusal in spite of free capacity: from a freshly started pool of two
    workers with room for two lifecycle tasks, there is an interleaving in which
    [dispatch_system] raises [DispatcherCapacityExceeded] although at no moment
    the pool holds more than one lifecycle task, queued or just taken.  (Task 1
    is queued at worker 0 when the scan for task 2 passes there; it is taken,
    and task 3 arrives at worker 1 before the scan does.) *)
Theorem refused_despite_capacity : exists c,
  execution 2 2 2 [] started /\ run_within 1 started c /\
  publishers c !! 1%nat = Some (PDone (Err DispatcherCapacityExceeded)).
Proof.
  pose proof (rw_refl 1 started) as E.
  advance_within E ltac:(apply (step_call _ true 1%nat)).
  advance_within E ltac:(choose 0%nat 0%nat).
  advance_within E ltac:(publish 0%nat).
  advance_within E ltac:(apply (step_call _ true 2%nat)).
  advance_within E ltac:(choose 1%nat 0%nat).
  advance_within E ltac:(publish 1%nat).
  advance_within E ltac:(eapply (step_worker _ 0); [reflexivity|];
    apply (ws_begin _ _ _ false); left; split_and!; reflexivity).
  advance_within E ltac:(eapply (step_worker _ 0); [reflexivity|];
    eapply ws_system_hit; [cbn; lia|reflexivity]).
  advance_within E ltac:(eapply (step_worker _ 0); [reflexivity|]; apply ws_taken).
  advance_within E ltac:(apply (step_call _ true 3%nat)).
  advance_within E ltac:(choose 2%nat 1%nat).
  advance_within E ltac:(publish 2%nat).
  advance_within E ltac:(publish 1%nat).
  advance_within E ltac:(eapply (step_publish_full _ 1); [reflexivity|cbn; lia]).
  eexists; split_and!; [apply started_execution|exact E|reflexivity].
Qed.

(** * The claims at this pool *)

(** Task 1 has been published to worker 0. *)
Definition published : config :=
  mkConfig (mkPool [mkQueue [] [1%nat] 1 1 true; q0] RUNNING 1 true ∅ false false)
    [WTop; WTop] [PDone (Ok tt)] LFree.

Lemma published_execution : execution 2 2 2 [Accepted 1%nat] published.
Proof.
  pose proof started_execution as E.
  advance E ltac:(apply (step_call _ true 1%nat)).
  advance E ltac:(choose 0%nat 0%nat).
  advance E ltac:(publish 0%nat).
  exact E.
Qed.

Lemma pool_no_stranded_task_witness : exists w p' w' es', workers published !! 0%nat = Some w /\
  worker_step 2 0 (the_pool published) w p' w' es'.
Proof.
  apply (pool_no_stranded_task 2 2 2 _ published 0 (mkQueue [] [1%nat] 1 1 true)
    published_execution); [reflexivity|reflexivity|]. intros [_ H]. discriminate H.
Defined.

Lemma pool_conserves_tasks_witness : [1%nat] ≡ₚ queued (the_pool published).
Proof. apply (pool_conserves_tasks 2 2 2 _ published published_execution). Defined.

Lemma pool_bounded_witness :
  foldr Z.add 0 ((fun q => Z.of_nat (length (system_tasks q))) <$> queues (the_pool published))
  <= 2.
Proof. apply (pool_bounded 2 2 2 _ published published_execution). Defined.

Lemma take_available_order_witness : (_take_available 1 (the_pool published)).2 = Some 1%nat.
Proof. rewrite take_available_order; [reflexivity|]. split; reflexivity. Defined.

Lemma publish_spec_witness :
  exists i q, queues running !! i = Some q /\ room true q = true.
Proof.
  destruct (publish_spec true 5%nat None 0 (fun _ => false) 0 running) as [H|H];
    [reflexivity|discriminate| |].
  - destruct H as (i & q & Hq & Hr & _). exists i, q. split; [exact Hq|exact Hr].
  - destruct H as (H & _). apply Forall_cons in H as [H _]. discriminate H.
Defined.
End PoolRun.
