(* ===== verification/Http.v ===== *)
(** The HTTP/1.1 codec: [movie/http/model.py] and [movie/http/codec.py].

    [bytes] and [str] objects are lists of bytes and of code points, so
    decoding ASCII or Latin-1 is a range check.  [str.lower] is modelled on
    ASCII letters: it is only compared with ASCII names, none of which is the
    lower-case form of a string with other characters. *)

From stdpp Require Import base list numbers strings.
From S2P Require Import Prelude Bytes PyStr Serialization.

(** * Byte-string primitives *)

Definition CR : Z := 13.
Definition LF : Z := 10.
Definition SP : Z := 32.
Definition HT : Z := 9.
Definition COLON : Z := 58.
Definition CRLF : bytes := [CR; LF].
Definition CRLFCRLF : bytes := [CR; LF; CR; LF].

(** [b.split(CRLF)]. *)
Fixpoint split_crlf (b : bytes) : list bytes :=
  match b with
  | [] => [[]]
  | c :: b' =>
      match b' with
      | d :: b'' =>
          if (c =? CR) && (d =? LF) then [] :: split_crlf b''
          else match split_crlf b' with
               | [] => [[c]]
               | piece :: rest => (c :: piece) :: rest
               end
      | [] => [[c]]
      end
  end.

Fixpoint lstrip (p : Z -> bool) (s : list Z) : list Z :=
  match s with
  | [] => []
  | c :: s' => if p c then lstrip p s' else s
  end.
Definition rstrip (p : Z -> bool) (s : list Z) : list Z := reverse (lstrip p (reverse s)).
Definition strip (p : Z -> bool) (s : list Z) : list Z := rstrip p (lstrip p s).

Definition is_blank (c : Z) : bool := (c =? SP) || (c =? HT).

(** [str.isspace] of one character. *)
Definition is_space (c : Z) : bool :=
  in_range 9 13 c || in_range 28 32 c || (c =? 0x85) || (c =? 0xA0) || (c =? 0x1680)
  || in_range 0x2000 0x200A c || (c =? 0x2028) || (c =? 0x2029) || (c =? 0x202F)
  || (c =? 0x205F) || (c =? 0x3000).

Definition lower_char (c : Z) : Z := if in_range 65 90 c then c + 32 else c.
Definition lower (s : pystr) : pystr := lower_char <$> s.

(** [_TOKEN_BYTES]. *)
Definition is_token (c : Z) : bool :=
  bool_decide (c ∈ lit "!#$%&'*+-.^_`|~") || in_range 48 57 c || in_range 65 90 c
  || in_range 97 122 c.

(** * Messages *)

Abbreviation HttpHeaders := (list (pystr * pystr)) (only parsing).

Definition _normalize_headers (headers : HttpHeaders) : result HttpHeaders :=
  raise_unless (forallb (fun h : pystr * pystr => negb (bool_decide (h.1 = []))) headers) ValueError
  ≫= fun _ => Ok headers.

Definition _header_values (headers : HttpHeaders) (name : pystr) : list pystr :=
  let expected := lower name in
  snd <$> filter (fun h : pystr * pystr => lower h.1 = expected) headers.

Definition _connection_close (headers : HttpHeaders) : bool :=
  existsb (fun value =>
    existsb (fun token => bool_decide (lower (strip is_space token) = lit "close"))
      (split_on 44 value)) (_header_values headers (lit "connection")).

Record HttpRequest := mkRequest {
  rq_method : pystr;
  rq_target : pystr;
  rq_headers : HttpHeaders;
  rq_body : bytes;
  rq_version : pystr;
}.

Definition HttpRequest_new (method target : pystr) (headers : HttpHeaders) (body : bytes)
    (version : pystr) : result HttpRequest :=
  raise_unless (negb (bool_decide (method = []))) ValueError ≫= fun _ =>
  raise_unless (negb (bool_decide (target = []))) ValueError ≫= fun _ =>
  raise_unless (bool_decide (version = lit "HTTP/1.1")) ValueError ≫= fun _ =>
  _normalize_headers headers ≫= fun headers' =>
  Ok (mkRequest method target headers' body version).

Record HttpResponse := mkResponse {
  rs_status : Z;
  rs_headers : HttpHeaders;
  rs_body : bytes;
  rs_reason : option pystr;
}.

Definition HttpResponse_new (status : Z) (headers : HttpHeaders) (body : bytes)
    (reason : option pystr) : result HttpResponse :=
  raise_unless ((100 <=? status) && (status <=? 599)) ValueError ≫= fun _ =>
  _normalize_headers headers ≫= fun headers' =>
  Ok (mkResponse status headers' body reason).

(** * The request parser *)

Record HttpRequestParser := mkParser {
  max_request_line_bytes : Z;
  max_header_bytes : Z;
  max_header_count : Z;
  max_body_bytes : Z;
  max_buffer_bytes : Z;
  buffer : bytes;
}.

Definition HttpRequestParser_new (line header count body buf : Z) : result HttpRequestParser :=
  raise_unless ((0 <? line) && (0 <? header) && (0 <? count) && (0 <? body) && (0 <? buf))
    ValueError ≫= fun _ =>
  raise_unless (line <=? header) ValueError ≫= fun _ =>
  raise_unless (header + body <=? buf) ValueError ≫= fun _ =>
  Ok (mkParser line header count body buf []).

Definition set_buffer (p : HttpRequestParser) (b : bytes) : HttpRequestParser :=
  mkParser (max_request_line_bytes p) (max_header_bytes p) (max_header_count p)
    (max_body_bytes p) (max_buffer_bytes p) b.

(** Failing with a status. *)
Definition http_check (c : bool) (status : Z) : result unit :=
  raise_unless c (HttpProtocolError status).

Definition _parse_request_line (line : bytes) : result (pystr * pystr * pystr) :=
  match split_on SP line with
  | [raw_method; raw_target; raw_version] =>
      http_check (negb (bool_decide (raw_method = [])) && negb (bool_decide (raw_target = []))
                  && negb (bool_decide (raw_version = []))) 400 ≫= fun _ =>
      http_check (forallb is_token raw_method) 400 ≫= fun _ =>
      http_check (isascii raw_method && isascii raw_target && isascii raw_version) 400 ≫= fun _ =>
      http_check (forallb (fun c => negb ((c <? 33) || (c =? 127))) raw_target) 400 ≫= fun _ =>
      http_check (bool_decide (raw_version = lit "HTTP/1.1")) 400 ≫= fun _ =>
      Ok (raw_method, raw_target, raw_version)
  | _ => Err (HttpProtocolError 400)
  end.

Definition bad_value_byte (c : Z) : bool := ((c <? 32) && negb (c =? HT)) || (c =? 127).

Definition parse_header_line (line : bytes) : result (pystr * pystr) :=
  match line with
  | [] => Err (HttpProtocolError 400)
  | c :: _ =>
      http_check (negb (is_blank c)) 400 ≫= fun _ =>
      let '(name, separator, raw_value) := partition COLON line in
      http_check (separator && negb (bool_decide (name = [])) && forallb is_token name) 400
      ≫= fun _ =>
      let value := strip is_blank raw_value in
      http_check (negb (existsb bad_value_byte value)) 400 ≫= fun _ =>
      Ok (lower name, value)
  end.

Fixpoint parse_header_lines (lines : list bytes) : result HttpHeaders :=
  match lines with
  | [] => Ok []
  | line :: rest =>
      parse_header_line line ≫= fun h => parse_header_lines rest ≫= fun hs => Ok (h :: hs)
  end.

(** [[value for name, value in headers if name == wanted]]. *)
Definition values_of (wanted : pystr) (headers : HttpHeaders) : list pystr :=
  snd <$> filter (fun h : pystr * pystr => h.1 = wanted) headers.

Definition _parse_headers (p : HttpRequestParser) (lines : list bytes) : result HttpHeaders :=
  http_check (len lines <=? max_header_count p) 431 ≫= fun _ =>
  parse_header_lines lines ≫= fun headers =>
  match values_of (lit "host") headers with
  | [host] => http_check (negb (bool_decide (host = []))) 400 ≫= fun _ => Ok headers
  | _ => Err (HttpProtocolError 400)
  end.

Definition _content_length (p : HttpRequestParser) (headers : HttpHeaders) : result Z :=
  let lengths := values_of (lit "content-length") headers in
  let transfer_encodings := values_of (lit "transfer-encoding") headers in
  match transfer_encodings, lengths with
  | _ :: _, _ :: _ => Err (HttpProtocolError 400)
  | _ :: _, [] => Err (HttpProtocolError 501)
  | [], _ :: _ :: _ => Err (HttpProtocolError 400)
  | [], [] => Ok 0
  | [], [value] =>
      http_check (negb (bool_decide (value = [])) && isascii value && forallb is_digit value) 400
      ≫= fun _ =>
      let stripped := lstrip (fun c => c =? 48) value in
      let normalized := if bool_decide (stripped = []) then lit "0" else stripped in
      http_check (len normalized <=? len (str_of_Z (max_body_bytes p))) 413 ≫= fun _ =>
      let length := int_of_digits normalized in
      http_check (length <=? max_body_bytes p) 413 ≫= fun _ =>
      Ok length
  end.

(** [_parse_one]: [Ok None] when more bytes are needed. *)
Definition _parse_one (p : HttpRequestParser) : result (option (HttpRequest * Z)) :=
  let b := buffer p in
  match find CRLF b with
  | None => http_check (len b <=? max_request_line_bytes p) 414 ≫= fun _ => Ok None
  | Some first_line_end =>
      http_check (Z.of_nat first_line_end <=? max_request_line_bytes p) 414 ≫= fun _ =>
      match find_from CRLFCRLF b first_line_end with
      | None => http_check (len b <=? max_header_bytes p) 431 ≫= fun _ => Ok None
      | Some header_end =>
          let header_bytes := Z.of_nat header_end + 4 in
          http_check (header_bytes <=? max_header_bytes p) 431 ≫= fun _ =>
          match split_crlf (take header_end b) with
          | [] => Err (HttpProtocolError 400)
          | line :: lines =>
              _parse_request_line line ≫= fun '(method, target, version) =>
              _parse_headers p lines ≫= fun headers =>
              _content_length p headers ≫= fun body_bytes =>
              let consumed := header_bytes + body_bytes in
              if len b <? consumed then Ok None
              else
                let body := take (Z.to_nat body_bytes) (drop (Z.to_nat header_bytes) b) in
                HttpRequest_new method target headers body version ≫= fun r =>
                Ok (Some (r, consumed))
          end
      end
  end.

(** The loop of [feed]: the parser, the requests and the error, if any, that
    carries them.  [room] is how many more requests [max_requests] allows. *)
Fixpoint feed_loop (fuel : nat) (room : option nat) (p : HttpRequestParser) :
    option (HttpRequestParser * list HttpRequest * result unit) :=
  match fuel with
  | O => None
  | S fuel' =>
      match room with
      | Some O => Some (p, [], Ok tt)
      | _ =>
          match _parse_one p with
          | Err e => Some (p, [], Err e)
          | Ok None => Some (p, [], Ok tt)
          | Ok (Some (r, consumed)) =>
              match feed_loop fuel' (pred <$> room)
                      (set_buffer p (drop (Z.to_nat consumed) (buffer p))) with
              | None => None
              | Some (p', rs, out) => Some (p', r :: rs, out)
              end
          end
      end
  end.

(** [feed]; every request consumes a byte, so the buffer's length bounds the
    number of iterations. *)
Definition feed (p : HttpRequestParser) (data : bytes) (max_requests : option nat) :
    option (HttpRequestParser * list HttpRequest * result unit) :=
  if max_buffer_bytes p <? len (buffer p) + len data
  then Some (p, [], Err (HttpProtocolError 413))
  else
    let p' := set_buffer p (buffer p ++ data) in
    feed_loop (S (length (buffer p'))) max_requests p'.

Definition finish (p : HttpRequestParser) (max_requests : option nat) :
    option (HttpRequestParser * list HttpRequest * result unit) :=
  match feed p [] max_requests with
  | Some (p', rs, Ok _) =>
      if bool_decide (max_requests = Some (length rs)) then Some (p', rs, Ok tt)
      else match buffer p' with
           | [] => Some (p', rs, Ok tt)
           | _ => Some (p', rs, Err (HttpProtocolError 400))
           end
  | r => r
  end.

(** * Responses *)

Definition _REASONS (status : Z) : pystr :=
  if status =? 100 then lit "Continue"
  else if status =? 200 then lit "OK"
  else if status =? 201 then lit "Created"
  else if status =? 202 then lit "Accepted"
  else if status =? 204 then lit "No Content"
  else if status =? 301 then lit "Moved Permanently"
  else if status =? 302 then lit "Found"
  else if status =? 304 then lit "Not Modified"
  else if status =? 400 then lit "Bad Request"
  else if status =? 404 then lit "Not Found"
  else if status =? 405 then lit "Method Not Allowed"
  else if status =? 408 then lit "Request Timeout"
  else if status =? 413 then lit "Content Too Large"
  else if status =? 414 then lit "URI Too Long"
  else if status =? 431 then lit "Request Header Fields Too Large"
  else if status =? 500 then lit "Internal Server Error"
  else if status =? 501 then lit "Not Implemented"
  else if status =? 503 then lit "Service Unavailable"
  else [].

Definition latin1 (s : pystr) : bool := forallb (fun c => c <? 256) s.

(** One iteration of the header loop of [render_response]. *)
Definition render_header (h : pystr * pystr) : result bytes :=
  let '(name, value) := h in
  let lower_name := lower name in
  if bool_decide (lower_name = lit "content-length") || bool_decide (lower_name = lit "connection")
  then Ok []
  else if bool_decide (lower_name = lit "transfer-encoding")
          || bool_decide (lower_name = lit "trailer")
  then Err ValueError
  else
    raise_unless (isascii name && latin1 value) ValueError ≫= fun _ =>
    raise_unless (negb (bool_decide (name = [])) && forallb is_token name) ValueError ≫= fun _ =>
    raise_unless (negb (existsb bad_value_byte value)) ValueError ≫= fun _ =>
    Ok (name ++ lit ": " ++ value ++ CRLF).

Fixpoint render_headers (hs : HttpHeaders) : result bytes :=
  match hs with
  | [] => Ok []
  | h :: rest =>
      render_header h ≫= fun line => render_headers rest ≫= fun lines => Ok (line ++ lines)
  end.

Definition body_allowed (status : Z) : bool :=
  negb ((status =? 204) || (status =? 205) || (status =? 304)).

Definition render_response (r : HttpResponse) (close head_request : bool) : result bytes :=
  raise_unless (negb ((100 <=? rs_status r) && (rs_status r <? 200))) ValueError ≫= fun _ =>
  let close := close || _connection_close (rs_headers r) in
  let reason := match rs_reason r with Some s => s | None => _REASONS (rs_status r) end in
  raise_unless (negb (bool_decide (CR ∈ reason) || bool_decide (LF ∈ reason))) ValueError
  ≫= fun _ =>
  let status_text := lit "HTTP/1.1 " ++ str_of_Z (rs_status r) ++ [SP] ++ reason in
  raise_unless (latin1 status_text) ValueError ≫= fun _ =>
  raise_unless (negb (existsb bad_value_byte status_text)) ValueError ≫= fun _ =>
  raise_unless (body_allowed (rs_status r) || bool_decide (rs_body r = [])) ValueError ≫= fun _ =>
  let content_length := if body_allowed (rs_status r) then len (rs_body r) else 0 in
  let payload := if head_request || negb (body_allowed (rs_status r)) then [] else rs_body r in
  render_headers (rs_headers r) ≫= fun headers =>
  let framing :=
    if (rs_status r =? 204) || (rs_status r =? 304) then []
    else lit "Content-Length: " ++ str_of_Z content_length ++ CRLF in
  let connection := if close then lit "Connection: close" ++ CRLF else [] in
  Ok (status_text ++ CRLF ++ headers ++ framing ++ connection ++ CRLF ++ payload).
