(* ===== verification/HttpSpec.v ===== *)
(** Theorems on the HTTP codec: the parser terminates, its requests do not
    depend on how the input is cut into chunks, accepted requests are framed by
    their Content-Length alone, requests printed in the canonical form are parsed
    back, and rendered responses are framed as they announce, with no header
    injected through a value. *)

From stdpp Require Import base list numbers strings.
From S2P Require Import Prelude Bytes PyStr Serialization Http.

(** * Searching and splitting *)

(** [find] returns the first occurrence. *)
Lemma find_first pat b i :
  find pat b = Some i -> forall pre post, b = pre ++ pat ++ post -> (i <= length pre)%nat.
Proof.
  revert i. induction b as [|c b IH]; intros i; cbn [find]; destruct (is_prefix _ _) eqn:E.
  1,3: intros [= <-]; lia.
  - done.
  - destruct (find pat b) as [j|]; [|done]. intros [= <-] [|c' pre] post Hb.
    + apply not_true_iff_false in E. destruct E. apply is_prefix_spec. by exists post.
    + injection Hb as -> ->. cbn. specialize (IH j eq_refl pre post eq_refl). lia.
Qed.

(** The first line of [split_crlf] ends where the first CRLF is. *)
Lemma split_first l line lines :
  split_crlf l = line :: lines ->
  (length line <= length l)%nat /\
  forall pre post, l = pre ++ CRLF ++ post -> (length line <= length pre)%nat.
Proof.
  revert line lines. induction l as [|c l IH]; intros line lines; cbn [split_crlf].
  { intros [= <- <-]. split; [done|]. intros [|? pre] post; [|done]. cbn. lia. }
  destruct l as [|d l].
  { intros [= <- <-]. split; [done|]. by intros [|? [|? pre]] post. }
  destruct ((c =? CR) && (d =? LF)) eqn:E.
  { intros [= <- <-]. cbn. split; [lia|]. intros; lia. }
  destruct (split_crlf (d :: l)) as [|piece rest] eqn:Es.
  { intros [= <- <-]. cbn. split; [lia|]. intros [|? pre] post Hl; [|cbn; lia].
    injection Hl as -> -> _. done. }
  intros [= <- <-]. destruct (IH _ _ eq_refl) as [H1 H2]. split; [cbn in *; lia|].
  intros [|c' pre] post Hl.
  - injection Hl as -> -> _. done.
  - injection Hl as -> Hl. specialize (H2 pre post Hl). cbn. lia.
Qed.

(** Lines: no carriage return inside. *)
Definition line_ok (l : bytes) : Prop := Forall (fun c => c <> CR) l.

Lemma find_skip pat l b :
  line_ok l -> find (CR :: pat) (l ++ b) = (fun i => (length l + i)%nat) <$> find (CR :: pat) b.
Proof.
  induction 1 as [|c l Hc Hl IH]; cbn [app length].
  - by destruct (find _ b).
  - cbn [find]. assert (E : is_prefix (CR :: pat) (c :: l ++ b) = false).
    { apply not_true_iff_false. rewrite is_prefix_spec. intros [r [= ? _]]. done. }
    rewrite E, IH. by destruct (find _ b).
Qed.

(** The lines after the first one, each with the separator before it. *)
Definition tail_lines (ls : list bytes) : bytes := flat_map (fun l => CRLF ++ l) ls.

Lemma find_tail ls b :
  Forall (fun l => line_ok l /\ l <> []) ls ->
  find CRLFCRLF (tail_lines ls ++ CRLFCRLF ++ b) = Some (length (tail_lines ls)).
Proof.
  induction 1 as [|l ls [Hl Hne] _ IH]; [exact (find_here CRLFCRLF b)|].
  destruct l as [|c l]; [done|]. apply Forall_cons in Hl as [Hc Hl].
  cbn [tail_lines flat_map]. fold (tail_lines ls). unfold CRLF, CRLFCRLF in *.
  rewrite <- (assoc_L (++)). cbn [app].
  assert (E0 : forall r, is_prefix [CR; LF; CR; LF] (CR :: LF :: c :: r) = false).
  { intros r. apply not_true_iff_false. rewrite is_prefix_spec. by intros [r' [= ? _]]. }
  assert (E1 : forall r, is_prefix [CR; LF; CR; LF] (LF :: r) = false).
  { intros r. apply not_true_iff_false. rewrite is_prefix_spec. by intros [r' [= ? _]]. }
  assert (E2 : forall r, is_prefix [CR; LF; CR; LF] (c :: r) = false).
  { intros r. apply not_true_iff_false. rewrite is_prefix_spec. by intros [r' [= ? _]]. }
  cbn [find]. cbn [app] in IH. rewrite E0, E1, E2, find_skip, IH by done. cbn. f_equal.
  rewrite length_app. lia.
Qed.

Lemma split_line l : line_ok l -> split_crlf l = [l].
Proof.
  induction 1 as [|c l Hc Hl IH]; [done|]. cbn [split_crlf]. destruct l as [|d l]; [done|].
  apply Z.eqb_neq in Hc. rewrite Hc. cbn [andb]. by rewrite IH.
Qed.

Lemma split_line_app l b : line_ok l -> split_crlf (l ++ CRLF ++ b) = l :: split_crlf b.
Proof.
  induction 1 as [|c l Hc Hl IH]; [done|]. cbn [split_crlf app].
  apply Z.eqb_neq in Hc. destruct l as [|d l]; cbn [app CRLF] in *.
  - rewrite Hc. cbn [andb]. by rewrite IH.
  - rewrite Hc. cbn [andb]. by rewrite IH.
Qed.

Lemma split_lines l ls :
  line_ok l -> Forall line_ok ls -> split_crlf (l ++ tail_lines ls) = l :: ls.
Proof.
  intros Hl Hls. revert l Hl. induction Hls as [|k ls Hk Hls IH]; intros l Hl.
  - cbn. rewrite app_nil_r. by apply split_line.
  - cbn [tail_lines flat_map]. fold (tail_lines ls). rewrite <- (assoc_L (++)).
    rewrite split_line_app by done. f_equal. by apply IH.
Qed.

(** * Content-Length *)

Lemma int_lstrip s : int_of_digits (lstrip (fun c => c =? 48) s) = int_of_digits s.
Proof.
  induction s as [|c s IH]; cbn [lstrip]; [done|]. destruct (Z.eqb_spec c 48) as [->|]; [|done].
  rewrite IH, int_of_cons. lia.
Qed.

Lemma lstrip_digits s :
  forallb is_digit s = true -> forallb is_digit (lstrip (fun c => c =? 48) s) = true.
Proof.
  induction s as [|c s IH]; cbn [lstrip forallb]; [done|]. intros H. pose proof H as [_ Hs]%andb_true_iff.
  destruct (c =? 48); auto.
Qed.

(** The declared length, whatever its leading zeros. *)
Definition declared_length (value : pystr) : Z := int_of_digits value.

(** The digit-count guard before [int()] refuses nothing the comparison after it
    would accept. *)
Lemma length_guard maximum value :
  0 <= maximum -> value <> [] -> forallb is_digit value = true ->
  let stripped := lstrip (fun c => c =? 48) value in
  let normalized := if bool_decide (stripped = []) then lit "0" else stripped in
  int_of_digits normalized = declared_length value /\
  (declared_length value <= maximum -> len normalized <= len (str_of_Z maximum)).
Proof.
  intros Hm Hne Hd stripped normalized. unfold declared_length.
  pose proof (int_lstrip value) as Hl. fold stripped in Hl.
  assert (Hint : int_of_digits normalized = int_of_digits value).
  { subst normalized. case_bool_decide as E; [|done]. rewrite <- Hl, E. done. }
  split; [done|]. intros Hle. destruct (str_of_Z_spec maximum Hm) as (Hs & _).
  assert (Hpos : 1 <= len (str_of_Z maximum)).
  { destruct (Z.le_gt_cases 1 (len (str_of_Z maximum))); [done|].
    assert (len (str_of_Z maximum) = 0) as E by (unfold len in *; lia).
    rewrite E in Hs. assert (maximum = 0) as -> by lia. done. }
  subst normalized. case_bool_decide as E; [exact Hpos|].
  pose proof (lstrip_digits value Hd) as Hds. fold stripped in Hds.
  destruct stripped as [|c s] eqn:Es; [done|].
  assert (Hc : c <> 48).
  { intros ->. clear -Es. subst stripped. revert Es. induction value as [|d value IH]; [done|].
    cbn [lstrip]. destruct (Z.eqb_spec d 48); [exact IH|]. congruence. }
  pose proof (int_lower c s Hds Hc).
  destruct (Z.le_gt_cases (len (c :: s)) (len (str_of_Z maximum))) as [|Hgt]; [done|].
  exfalso. assert (10 ^ len (str_of_Z maximum) <= 10 ^ len s).
  { apply Z.pow_le_mono_r; [lia|]. unfold len in *; simpl in *. lia. }
  lia.
Qed.

Lemma http_check_ok c st u : http_check c st = Ok u <-> c = true.
Proof. apply raise_unless_ok. Qed.

(** What [_content_length] accepts: no transfer coding and at most one length,
    in range. *)
Lemma content_length_inv p hs k :
  _content_length p hs = Ok k ->
  values_of (lit "transfer-encoding") hs = [] /\
  (values_of (lit "content-length") hs = [] /\ k = 0 \/
   exists value, values_of (lit "content-length") hs = [value] /\ value <> [] /\
     forallb is_digit value = true /\ k = declared_length value /\ 0 <= k <= max_body_bytes p).
Proof.
  unfold _content_length.
  destruct (values_of (lit "transfer-encoding") hs) as [|te tes];
    destruct (values_of (lit "content-length") hs) as [|value [|v vs]]; try done.
  - intros [= <-]. auto.
  - intros H. inv_run.
    repeat match goal with H : http_check _ _ = _ |- _ => apply http_check_ok in H end. inv_run.
    split; [done|]. right. exists value. split_and!; try done.
    + case_bool_decide as E; [|by rewrite int_lstrip].
      unfold declared_length. by rewrite <- (int_lstrip value), E.
    + pose proof (int_bound value ltac:(done)).
      case_bool_decide; [done|]. rewrite int_lstrip. lia.
Qed.

(** * One request *)

Record parsed (p : HttpRequestParser) (r : HttpRequest) (n : Z)
    (fe he : nat) (line : bytes) (lines : list bytes) (k : Z) : Prop := {
  pr_first : find CRLF (buffer p) = Some fe;
  pr_first_limit : Z.of_nat fe <= max_request_line_bytes p;
  pr_head : find_from CRLFCRLF (buffer p) fe = Some he;
  pr_head_limit : Z.of_nat he + 4 <= max_header_bytes p;
  pr_lines : split_crlf (take he (buffer p)) = line :: lines;
  pr_request_line : _parse_request_line line = Ok (rq_method r, rq_target r, rq_version r);
  pr_headers : _parse_headers p lines = Ok (rq_headers r);
  pr_length : _content_length p (rq_headers r) = Ok k;
  pr_consumed : n = Z.of_nat he + 4 + k;
  pr_complete : n <= len (buffer p);
  pr_body : rq_body r = take (Z.to_nat k) (drop (he + 4) (buffer p));
  pr_new : HttpRequest_new (rq_method r) (rq_target r) (rq_headers r) (rq_body r)
             (rq_version r) = Ok r;
}.

Lemma parse_one_inv p r n :
  _parse_one p = Ok (Some (r, n)) <-> exists fe he line lines k, parsed p r n fe he line lines k.
Proof.
  unfold _parse_one. split.
  - destruct (find CRLF (buffer p)) as [fe|] eqn:Ef; [|by intros H; inv_run].
    intros H. apply bind_ok in H as (? & Hfe & H). apply http_check_ok in Hfe.
    destruct (find_from CRLFCRLF (buffer p) fe) as [he|] eqn:Eh; [|by inv_run].
    apply bind_ok in H as (? & Hhe & H). apply http_check_ok in Hhe.
    destruct (split_crlf _) as [|line lines] eqn:Es; [done|].
    apply bind_ok in H as ([[method target] version] & Hl & H).
    apply bind_ok in H as (hs & Hh & H). apply bind_ok in H as (k & Hk & H).
    destruct (_ <? _) eqn:Ec; [done|]. apply bind_ok in H as (r' & Hr & H).
    apply Ok_inj in H. injection H as -> <-.
    assert (E : r = mkRequest method target hs
      (take (Z.to_nat k) (drop (Z.to_nat (Z.of_nat he + 4)) (buffer p))) version).
    { unfold HttpRequest_new, _normalize_headers in Hr. inv_run. done. }
    exists fe, he, line, lines, k. subst r. constructor; simpl; try done; try lia.
    by replace (Z.to_nat (Z.of_nat he + 4)) with (he + 4)%nat by lia.
  - intros (fe & he & line & lines & k & [-> Hfe -> Hhe -> Hl Hh Hk -> Hc Hb Hn]).
    unfold http_check, raise_unless.
    rewrite (proj2 (Z.leb_le _ _) Hfe), (proj2 (Z.leb_le _ _) Hhe). cbn.
    rewrite Hl; cbn. rewrite Hh; cbn. rewrite Hk; cbn.
    destruct (Z.ltb_spec (len (buffer p)) (Z.of_nat he + 4 + k)); [lia|].
    replace (Z.to_nat (Z.of_nat he + 4)) with (he + 4)%nat by lia. rewrite <- Hb, Hn. done.
Qed.

Lemma parsed_bounds p r n fe he line lines k :
  parsed p r n fe he line lines k -> (fe <= he)%nat /\ (he + 4 <= length (buffer p))%nat /\ 0 <= k.
Proof.
  intros [Hf _ Hh _ _ _ _ Hk _ _ _ _]. apply find_bound in Hf. simpl in Hf.
  apply find_from_bound in Hh; [|lia]. simpl in Hh. apply content_length_inv in Hk as [_ Hk].
  destruct Hk as [[_ ->]|(? & _ & _ & _ & _ & ? & _)]; lia.
Qed.

(** The head of a parsed request: it ends at the first blank line, and its first
    line at the first CRLF. *)
Lemma parsed_front p r n fe he line lines k :
  parsed p r n fe he line lines k ->
  exists front post, buffer p = front ++ CRLFCRLF ++ post /\ length front = he /\
    (forall pre post, buffer p = pre ++ CRLFCRLF ++ post -> (length front <= length pre)%nat) /\
    (length line <= fe)%nat.
Proof.
  intros Hp. pose proof (parsed_bounds _ _ _ _ _ _ _ _ Hp) as (B1 & B2 & _).
  destruct Hp as [Hf _ Hh _ Hs _ _ _ _ _ _ _].
  unfold find_from in Hh. apply fmap_Some in Hh as (j & Hj & Ehe).
  pose proof Hj as (pre & post & Epre & Elen)%find_Some.
  assert (Eb : buffer p = (take fe (buffer p) ++ pre) ++ CRLFCRLF ++ post).
  { rewrite <- (assoc_L (++)), <- Epre. by rewrite take_drop. }
  assert (El : length (take fe (buffer p) ++ pre) = he).
  { rewrite length_app, length_take. lia. }
  exists (take fe (buffer p) ++ pre), post. split_and!; try done.
  - intros pre' post' Eb'. rewrite El.
    assert (fe <= length pre')%nat as Hfe by (by apply (find_first _ _ _ Hf pre' (CRLF ++ post'))).
    assert (j <= length (drop fe pre'))%nat as Hle.
    { apply (find_first _ _ _ Hj _ post'). rewrite Eb', drop_app_le; [done|lia]. }
    rewrite length_drop in Hle. lia.
  - apply split_first in Hs as [S1 S2]. pose proof Hf as (l0 & rest & Ef & El0)%find_Some.
    destruct (decide (fe + 2 <= he)%nat) as [Hlt|Hge].
    + rewrite <- El0. apply (S2 _ (take (he - (fe + 2)) rest)).
      rewrite Ef, !take_app, El0. rewrite take_ge by lia. f_equal. simpl length.
      rewrite take_ge by (simpl; lia). do 2 f_equal. lia.
    + rewrite length_take in S1. destruct (decide (he = fe)) as [->|]; [lia|].
      assert (he = S fe) as -> by lia. exfalso.
      assert (buffer p !! S fe = Some LF) as H1.
      { rewrite Ef, lookup_app_r, El0 by lia. by replace (S fe - fe)%nat with 1%nat by lia. }
      rewrite Eb, lookup_app_r, El, Nat.sub_diag in H1 by lia. done.
Qed.

Lemma parsed_headers p r n fe he line lines k :
  parsed p r n fe he line lines k ->
  len lines <= max_header_count p /\ parse_header_lines lines = Ok (rq_headers r) /\
  exists host, values_of (lit "host") (rq_headers r) = [host] /\ host <> [].
Proof.
  intros Hp. pose proof (pr_headers _ _ _ _ _ _ _ _ Hp) as Hhd.
  unfold _parse_headers in Hhd. apply bind_ok in Hhd as (? & Hcount%http_check_ok & Hhd).
  apply bind_ok in Hhd as (hs & Hlines & Hhd).
  destruct (values_of (lit "host") hs) as [|host [|]] eqn:E; try done.
  apply bind_ok in Hhd as (? & Hhost%http_check_ok & [= <-]%Ok_inj). split; [lia|].
  split; [done|]. exists host. split; [done|]. intros ->. done.
Qed.

Lemma request_line_parts line m t v :
  _parse_request_line line = Ok (m, t, v) -> split_on SP line = [m; t; v].
Proof.
  unfold _parse_request_line. destruct (split_on SP line) as [|a [|b [|c [|]]]]; try done.
  intros H. inv_run. done.
Qed.

(** A request that is complete does not change when more bytes arrive. *)
Lemma parse_one_more p r n x :
  _parse_one p = Ok (Some (r, n)) -> _parse_one (set_buffer p (buffer p ++ x)) = Ok (Some (r, n)).
Proof.
  rewrite !parse_one_inv. intros (fe & he & line & lines & k & Hp).
  pose proof (parsed_bounds _ _ _ _ _ _ _ _ Hp) as (B1 & B2 & B3).
  destruct Hp as [Hf Hfe Hh Hhe Hs Hl Hhd Hk -> Hc Hb Hn].
  exists fe, he, line, lines, k. constructor; simpl; try done.
  - by apply find_app.
  - apply find_from_app; [lia|done].
  - by rewrite take_app_le by lia.
  - unfold len in *. rewrite length_app. lia.
  - rewrite Hb, drop_app_le by lia. symmetry. apply take_app_le. rewrite length_drop.
    unfold len in Hc. lia.
Qed.

(** Every request consumes its head. *)
Lemma parse_one_progress p r n :
  _parse_one p = Ok (Some (r, n)) -> 4 <= n <= len (buffer p).
Proof.
  rewrite parse_one_inv. intros (fe & he & line & lines & k & Hp).
  pose proof (parsed_bounds _ _ _ _ _ _ _ _ Hp) as (B1 & B2 & B3).
  destruct Hp as [_ _ _ _ _ _ _ _ -> Hc _ _]. lia.
Qed.

(** * The loop of [feed] *)

Lemma feed_loop_total fuel room p :
  (length (buffer p) < fuel)%nat -> exists out, feed_loop fuel room p = Some out.
Proof.
  revert room p. induction fuel as [|fuel IH]; intros room p Hf; [lia|]. cbn [feed_loop].
  assert (Hmain : exists out,
    match _parse_one p with
    | Err e => Some (p, [], Err e)
    | Ok None => Some (p, [], Ok tt)
    | Ok (Some (r, consumed)) =>
        match feed_loop fuel (pred <$> room)
                (set_buffer p (drop (Z.to_nat consumed) (buffer p))) with
        | None => None
        | Some (p', rs, out) => Some (p', r :: rs, out)
        end
    end = Some out).
  { destruct (_parse_one p) as [[[r n]|]|e] eqn:E; [|eauto..].
    apply parse_one_progress in E. unfold len in E.
    destruct (IH (pred <$> room) (set_buffer p (drop (Z.to_nat n) (buffer p)))) as ([[p' rs] out] & ->).
    - simpl. rewrite length_drop. lia.
    - eauto. }
  destruct room as [[|m]|]; [eauto|exact Hmain|exact Hmain].
Qed.

Lemma feed_loop_fuel fuel fuel' room p out :
  (fuel <= fuel')%nat -> feed_loop fuel room p = Some out -> feed_loop fuel' room p = Some out.
Proof.
  revert fuel' room p out. induction fuel as [|fuel IH]; intros [|fuel'] room p out Hle; cbn [feed_loop];
    try done; [lia|].
  assert (Hrec : forall r consumed out,
    match feed_loop fuel (pred <$> room)
            (set_buffer p (drop (Z.to_nat consumed) (buffer p))) with
    | None => None
    | Some (p', rs, o) => Some (p', r :: rs, o)
    end = Some out ->
    match feed_loop fuel' (pred <$> room)
            (set_buffer p (drop (Z.to_nat consumed) (buffer p))) with
    | None => None
    | Some (p', rs, o) => Some (p', r :: rs, o)
    end = Some out).
  { intros r consumed o. destruct (feed_loop fuel _ _) as [[[p' rs] o']|] eqn:E; [|done].
    by rewrite (IH fuel' _ _ _ ltac:(lia) E). }
  destruct room as [[|m]|]; [done| |];
    destruct (_parse_one p) as [[[r n]|]|e]; try done; apply Hrec.
Qed.

Definition prepend (rs : list HttpRequest)
    (o : option (HttpRequestParser * list HttpRequest * result unit)) :
    option (HttpRequestParser * list HttpRequest * result unit) :=
  match o with Some (p, rs', out) => Some (p, rs ++ rs', out) | None => None end.

Lemma buffer_set p b : buffer (set_buffer p b) = b.
Proof. done. Qed.
Lemma set_buffer_twice p b b' : set_buffer (set_buffer p b) b' = set_buffer p b'.
Proof. done. Qed.

Lemma feed_loop_split fuel fuel' p p1 rs1 x :
  feed_loop fuel None p = Some (p1, rs1, Ok tt) ->
  (length (buffer p) + length x < fuel')%nat ->
  feed_loop fuel' None (set_buffer p (buffer p ++ x)) =
    prepend rs1 (feed_loop fuel' None (set_buffer p1 (buffer p1 ++ x))) /\
  max_buffer_bytes p1 = max_buffer_bytes p /\ (length (buffer p1) <= length (buffer p))%nat.
Proof.
  revert fuel' p p1 rs1. induction fuel as [|fuel IH]; intros fuel' p p1 rs1 Hl Hf; [done|].
  cbn [feed_loop] in Hl. destruct (_parse_one p) as [[[r n]|]|e] eqn:E; [| |done].
  - destruct fuel' as [|fuel']; [lia|].
    pose proof (parse_one_progress _ _ _ E) as Hn. unfold len in Hn.
    destruct (feed_loop fuel _ _) as [[[p' rs] out]|] eqn:El; [|done]. injection Hl as -> <- ->.
    cbn [fmap option_fmap option_map] in El.
    cbn [feed_loop]. rewrite (parse_one_more _ _ _ x E). cbn [fmap option_fmap option_map].
    rewrite buffer_set, set_buffer_twice. rewrite drop_app_le by lia.
    destruct (IH fuel' _ _ _ El) as (Hs & Hmax & Hlen).
    { simpl. rewrite length_drop. lia. }
    rewrite buffer_set, set_buffer_twice in Hs. simpl in Hmax, Hlen. rewrite length_drop in Hlen.
    rewrite Hs.
    split; [|split; [done|lia]].
    destruct (feed_loop_total fuel' None (set_buffer p1 (buffer p1 ++ x))) as ([[p2 rs2] o2] & E2).
    { simpl. rewrite length_app. lia. }
    assert (E3 : feed_loop (S fuel') None (set_buffer p1 (buffer p1 ++ x)) = Some (p2, rs2, o2))
      by (eapply feed_loop_fuel; [|exact E2]; lia).
    cbn [feed_loop fmap option_fmap option_map] in E3. by rewrite E2, E3.
  - injection Hl as <- <-. split; [|done]. by destruct (feed_loop fuel' None _) as [[[? ?] ?]|].
Qed.

Lemma feed_loop_shrinks fuel room p p' rs out :
  feed_loop fuel room p = Some (p', rs, out) ->
  (length (buffer p') <= length (buffer p))%nat /\ max_buffer_bytes p' = max_buffer_bytes p.
Proof.
  revert room p rs. induction fuel as [|fuel IH]; intros room p rs; cbn [feed_loop]; [done|].
  assert (Hrec : forall r consumed,
    match feed_loop fuel (pred <$> room)
            (set_buffer p (drop (Z.to_nat consumed) (buffer p))) with
    | None => None
    | Some (p0, rs0, o) => Some (p0, r :: rs0, o)
    end = Some (p', rs, out) ->
    (length (buffer p') <= length (buffer p))%nat /\ max_buffer_bytes p' = max_buffer_bytes p).
  { intros r consumed. destruct (feed_loop fuel _ _) as [[[p0 rs0] o]|] eqn:E; [|done].
    intros [= <- _ <-]. apply IH in E as [Hb Hm]. simpl in Hb, Hm. rewrite length_drop in Hb.
    split; [lia|done]. }
  destruct room as [[|m]|]; [by intros [= <- _ _]| |];
    destruct (_parse_one p) as [[[r n]|]|e]; try (by intros [= <- _ _]); apply Hrec.
Qed.

(** * Printing requests *)

Definition print_header (h : pystr * pystr) : bytes := h.1 ++ [COLON; SP] ++ h.2.
Definition first_line (r : HttpRequest) : bytes :=
  join [SP] [rq_method r; rq_target r; rq_version r].
Definition print_request (r : HttpRequest) : bytes :=
  first_line r ++ tail_lines (print_header <$> rq_headers r) ++ CRLFCRLF ++ rq_body r.

(** Canonical header: token name in lower case, trimmed printable value. *)
Record header_ok (h : pystr * pystr) : Prop := {
  ho_name : h.1 <> [] /\ forallb is_token h.1 = true /\ lower h.1 = h.1;
  ho_value : existsb bad_value_byte h.2 = false /\ strip is_blank h.2 = h.2;
}.

(** Requests the parser is meant to accept, within the limits of [p]. *)
Record request_ok (p : HttpRequestParser) (r : HttpRequest) : Prop := {
  ro_method : rq_method r <> [] /\ forallb is_token (rq_method r) = true;
  ro_target : rq_target r <> [] /\ Forall (fun c => 33 <= c < 127) (rq_target r);
  ro_version : rq_version r = lit "HTTP/1.1";
  ro_headers : Forall header_ok (rq_headers r);
  ro_host : exists host, values_of (lit "host") (rq_headers r) = [host] /\ host <> [];
  ro_length : _content_length p (rq_headers r) = Ok (len (rq_body r));
  ro_count : len (rq_headers r) <= max_header_count p;
  ro_line_limit : len (first_line r) <= max_request_line_bytes p;
  ro_head_limit :
    len (first_line r ++ tail_lines (print_header <$> rq_headers r)) + 4 <= max_header_bytes p;
}.

Lemma token_range c : is_token c = true -> 33 <= c < 127 /\ c <> COLON.
Proof.
  unfold is_token, in_range, COLON. rewrite !orb_true_iff, bool_decide_eq_true.
  intros [[[H|H]|H]|H].
  - change (lit "!#$%&'*+-.^_`|~") with [33; 35; 36; 37; 38; 39; 42; 43; 45; 46; 94; 95; 96; 124; 126] in H.
    rewrite !elem_of_cons in H. destruct_or!; subst; try lia. by apply not_elem_of_nil in H.
  - lia.
  - lia.
  - lia.
Qed.

Lemma tokens_range s : forallb is_token s = true -> Forall (fun c => 33 <= c < 127 /\ c <> COLON) s.
Proof.
  intros H. rewrite forallb_forall in H. apply Forall_forall. intros c Hc.
  apply token_range, H. by apply list_elem_of_In.
Qed.

Lemma partition_colon n rest :
  Forall (fun c => 33 <= c < 127 /\ c <> COLON) n ->
  partition COLON (n ++ COLON :: rest) = (n, true, rest).
Proof.
  induction 1 as [|c n [_ Hc] _ IH]; cbn [partition app].
  - by rewrite Z.eqb_refl.
  - apply Z.eqb_neq in Hc. by rewrite Hc, IH.
Qed.

Lemma parse_print_header h : header_ok h -> parse_header_line (print_header h) = Ok h.
Proof.
  intros [(Hne & Ht & Hl) (Hv & Hs)]. destruct h as [name value]. unfold print_header. simpl in *.
  pose proof (tokens_range _ Ht) as Hr. unfold parse_header_line.
  destruct name as [|c name]; [done|]. cbn [app].
  assert (Hb : is_blank c = false).
  { apply Forall_cons in Hr as [[? _] _]. unfold is_blank, SP, HT. lia. }
  rewrite Hb. pose proof (partition_colon (c :: name) (SP :: value) Hr) as Hp.
  cbn [app] in Hp. rewrite Hp.
  change (http_check (negb false) 400) with (Ok tt : result unit). cbn [mbind result_bind].
  rewrite Ht. rewrite bool_decide_eq_false_2 by done.
  change (http_check (true && negb false && true) 400) with (Ok tt : result unit).
  cbn [mbind result_bind].
  change (strip is_blank (SP :: value)) with (strip is_blank value). rewrite Hs, Hv.
  by rewrite Hl.
Qed.

Lemma parse_print_headers hs :
  Forall header_ok hs -> parse_header_lines (print_header <$> hs) = Ok hs.
Proof.
  induction 1 as [|h hs Hh _ IH]; [done|]. cbn [fmap list_fmap parse_header_lines].
  rewrite parse_print_header by done. cbn [mbind result_bind].
  change (list_fmap _ _ print_header hs) with (print_header <$> hs). by rewrite IH.
Qed.

Lemma range_line s : Forall (fun c => 33 <= c < 127 /\ c <> COLON) s -> line_ok s.
Proof. intros H. eapply Forall_impl; [exact H|]. unfold CR. intros c. simpl. lia. Qed.

Lemma value_line v : existsb bad_value_byte v = false -> line_ok v.
Proof.
  intros H. apply Forall_forall. intros c Hc ->. apply not_true_iff_false in H. apply H.
  apply existsb_exists. exists CR. split; [by apply list_elem_of_In|done].
Qed.

Lemma print_header_line h : header_ok h -> line_ok (print_header h) /\ print_header h <> [].
Proof.
  intros [(Hne & Ht & _) (Hv & _)]. unfold print_header. split; [|by destruct h.1].
  apply Forall_app. split; [by apply range_line, tokens_range|]. cbn.
  repeat (constructor; [done|]). by apply value_line.
Qed.

Lemma target_line t : Forall (fun c => 33 <= c < 127) t -> line_ok t.
Proof. intros H. eapply Forall_impl; [exact H|]. unfold CR. intros c. simpl. lia. Qed.

Lemma range_no_space s : Forall (fun c => 33 <= c < 127) s -> SP ∉ s.
Proof. intros H Hin. eapply Forall_forall in H; [|exact Hin]. unfold SP in H. simpl in H. lia. Qed.

Lemma tokens_visible s : forallb is_token s = true -> Forall (fun c => 33 <= c < 127) s.
Proof. intros H. eapply Forall_impl; [by apply tokens_range|]. intros c. simpl. tauto. Qed.

Lemma version_visible : Forall (fun c => 33 <= c < 127) (lit "HTTP/1.1").
Proof. by_compute. Qed.

Lemma visible_ascii s : Forall (fun c => 33 <= c < 127) s -> isascii s = true.
Proof.
  induction 1 as [|c s Hc _ IH]; [done|]. unfold isascii in *. cbn [forallb]. rewrite IH.
  simpl in Hc. rewrite (proj2 (Z.ltb_lt _ _)) by lia. done.
Qed.

Lemma first_line_ok p r : request_ok p r -> line_ok (first_line r).
Proof.
  intros H. unfold first_line. cbn [join]. destruct H as [[_ Hm] [_ Ht] Hv _ _ _ _ _ _].
  rewrite Hv. repeat (apply Forall_app; split); try (by repeat constructor).
  - by apply target_line, tokens_visible.
  - by apply target_line.
Qed.

Lemma parse_first_line p r :
  request_ok p r ->
  _parse_request_line (first_line r) = Ok (rq_method r, rq_target r, rq_version r).
Proof.
  intros [[Hmn Hm] [Htn Ht] Hv _ _ _ _ _ _]. unfold _parse_request_line, first_line.
  pose proof (tokens_visible _ Hm) as Hmv.
  rewrite split_on_join; [|done|].
  2: { rewrite Hv. repeat constructor; apply range_no_space; try done. apply version_visible. }
  assert (Hvn : rq_version r <> []) by (rewrite Hv; discriminate).
  rewrite (bool_decide_eq_false_2 _ Hmn), (bool_decide_eq_false_2 _ Htn), (bool_decide_eq_false_2 _ Hvn).
  change (http_check (negb false && negb false && negb false) 400) with (Ok tt : result unit).
  cbn [mbind result_bind]. rewrite Hm. cbn [http_check raise_unless mbind result_bind].
  rewrite (visible_ascii _ Hmv), (visible_ascii _ Ht), Hv, (visible_ascii _ version_visible).
  cbn [http_check raise_unless andb mbind result_bind].
  assert (Hall : forallb (fun c => negb ((c <? 33) || (c =? 127))) (rq_target r) = true).
  { apply forallb_forall. intros c Hc. apply list_elem_of_In in Hc.
    eapply Forall_forall in Ht; [|exact Hc]. simpl in Ht. lia. }
  rewrite Hall. cbn [http_check raise_unless mbind result_bind].
  by rewrite bool_decide_eq_true_2.
Qed.

Lemma crlf_starts ls b : exists r, tail_lines ls ++ CRLFCRLF ++ b = CRLF ++ r.
Proof.
  destruct ls as [|l ls]; [by exists (CRLF ++ b)|]. cbn [tail_lines flat_map].
  exists (l ++ tail_lines ls ++ CRLFCRLF ++ b). by rewrite <- !(assoc_L (++)).
Qed.

Lemma parse_print_one p r rest :
  request_ok p r -> buffer p = print_request r ++ rest ->
  _parse_one p = Ok (Some (r, len (print_request r))).
Proof.
  intros H Hb. pose proof (first_line_ok _ _ H) as Hfl. pose proof (parse_first_line _ _ H) as Hpl.
  destruct H as [[Hmn Hm] [Htn Ht] Hv Hh (host & Hhost & Hhn) Hk Hcount Hll Hhl].
  set (ls := print_header <$> rq_headers r) in *.
  assert (Hls : Forall (fun l => line_ok l /\ l <> []) ls).
  { subst ls. apply Forall_fmap. eapply Forall_impl; [exact Hh|]. apply print_header_line. }
  assert (Hbuf : buffer p = first_line r ++ tail_lines ls ++ CRLFCRLF ++ rq_body r ++ rest).
  { rewrite Hb. unfold print_request. fold ls. by rewrite <- !(assoc_L (++)). }
  assert (Hlen : len (print_request r) =
    len (first_line r ++ tail_lines ls) + 4 + len (rq_body r)).
  { unfold print_request, len. fold ls. rewrite !length_app. simpl. lia. }
  apply parse_one_inv. exists (length (first_line r)), (length (first_line r ++ tail_lines ls)),
    (first_line r), ls, (len (rq_body r)). constructor; try done.
  - rewrite Hbuf. destruct (crlf_starts ls (rq_body r ++ rest)) as [x ->].
    unfold CRLF at 1. rewrite find_skip by done.
    change (find [CR; LF] (CRLF ++ x)) with (find CRLF (CRLF ++ x)). rewrite find_here. cbn.
    f_equal. lia.
  - unfold find_from. rewrite Hbuf, drop_app_length, find_tail by done. by rewrite length_app.
  - rewrite Hbuf, (assoc_L (++)), take_app_length. apply split_lines; [done|].
    eapply Forall_impl; [exact Hls|]. naive_solver.
  - unfold _parse_headers. assert (Hcl : len ls <= max_header_count p).
    { unfold len in *. subst ls. by rewrite length_fmap. }
    unfold http_check at 1, raise_unless at 1. rewrite (proj2 (Z.leb_le _ _) Hcl).
    cbn [mbind result_bind]. subst ls. rewrite parse_print_headers by done.
    cbn [mbind result_bind]. rewrite Hhost. by rewrite bool_decide_eq_false_2.
  - rewrite Hb. unfold len. rewrite length_app. lia.
  - rewrite Hbuf, (assoc_L (++)). unfold len. rewrite Nat2Z.id.
    replace (length (first_line r ++ tail_lines ls) + 4)%nat
      with (length ((first_line r ++ tail_lines ls) ++ CRLFCRLF)) by (rewrite length_app; done).
    rewrite (assoc_L (++)), drop_app_length, take_app_length. done.
  - unfold HttpRequest_new, _normalize_headers.
    rewrite (bool_decide_eq_false_2 _ Hmn), (bool_decide_eq_false_2 _ Htn).
    rewrite bool_decide_eq_true_2 by done. cbn [negb raise_unless mbind result_bind].
    rewrite (proj2 (forallb_forall _ _)).
    + cbn. by destruct r.
    + intros h Hin. apply list_elem_of_In in Hin. eapply Forall_forall in Hh; [|exact Hin].
      destruct Hh as [(Hn & _) _]. by rewrite bool_decide_eq_false_2.
Qed.

(** A pipeline of printed requests is parsed request by request. *)
Lemma request_ok_buffer p r b : request_ok p r -> request_ok (set_buffer p b) r.
Proof. intros []. by constructor. Qed.

Lemma feed_loop_print p rs fuel :
  0 <= max_request_line_bytes p -> Forall (request_ok p) rs ->
  (length (flat_map print_request rs) < fuel)%nat ->
  feed_loop fuel None (set_buffer p (flat_map print_request rs)) = Some (set_buffer p [], rs, Ok tt).
Proof.
  intros Hline Hrs. revert fuel. induction Hrs as [|r rs Hr _ IH]; intros [|fuel] Hf; try lia.
  - cbn [feed_loop flat_map]. unfold _parse_one. rewrite buffer_set.
    change (find CRLF []) with (None : option nat). unfold http_check, raise_unless.
    rewrite (proj2 (Z.leb_le _ _)) by (unfold len; simpl; lia). done.
  - cbn [feed_loop]. set (b := flat_map print_request (r :: rs)) in *.
    pose proof (request_ok_buffer _ _ b Hr) as Hrb.
    assert (Hparse : _parse_one (set_buffer p b) = Ok (Some (r, len (print_request r))))
      by (by apply (parse_print_one _ _ (flat_map print_request rs))).
    pose proof (parse_one_progress _ _ _ Hparse) as Hn.
    rewrite Hparse. cbn [fmap option_fmap option_map].
    rewrite buffer_set, set_buffer_twice. subst b. cbn [flat_map] in *.
    unfold len in *. rewrite Nat2Z.id, drop_app_length, IH; [done|].
    rewrite length_app in Hf. lia.
Qed.

(** * Responses *)

(** The header fields of a response that are sent as given. *)
Definition kept (h : pystr * pystr) : Prop :=
  lower h.1 <> lit "content-length" /\ lower h.1 <> lit "connection".
#[global] Instance kept_dec h : Decision (kept h).
Proof. unfold kept. apply _. Defined.

Definition expected_lines (r : HttpResponse) (close : bool) : list bytes :=
  (print_header <$> filter kept (rs_headers r)) ++
  (if (rs_status r =? 204) || (rs_status r =? 304) then []
   else [lit "Content-Length: " ++
         str_of_Z (if body_allowed (rs_status r) then len (rs_body r) else 0)]) ++
  (if close || _connection_close (rs_headers r) then [lit "Connection: close"] else []).

Definition status_text (r : HttpResponse) : bytes :=
  lit "HTTP/1.1 " ++ str_of_Z (rs_status r) ++ [SP] ++
  match rs_reason r with Some s => s | None => _REASONS (rs_status r) end.

Definition end_lines (ls : list bytes) : bytes := flat_map (fun l => l ++ CRLF) ls.

Lemma end_tail ls b : CRLF ++ end_lines ls ++ b = tail_lines ls ++ CRLF ++ b.
Proof.
  induction ls as [|l ls IH]; [done|]. cbn [end_lines tail_lines flat_map].
  fold (end_lines ls). fold (tail_lines ls). rewrite <- !(assoc_L (++)). by rewrite IH.
Qed.

Lemma render_header_inv h out :
  render_header h = Ok out ->
  (~ kept h /\ out = []) \/
  (kept h /\ out = print_header h ++ CRLF /\ line_ok (print_header h) /\ print_header h <> []).
Proof.
  destruct h as [name value]. unfold render_header, kept, print_header. cbn [fst snd].
  destruct (bool_decide (_ = lit "content-length")) eqn:E1;
    [apply bool_decide_eq_true in E1; intros [= <-]; naive_solver|].
  destruct (bool_decide (_ = lit "connection")) eqn:E2;
    [apply bool_decide_eq_true in E2; intros [= <-]; naive_solver|].
  apply bool_decide_eq_false in E1, E2. cbn [orb].
  destruct (_ || _); [done|]. intros H. inv_run.
  right. split; [done|]. split; [|split].
  - by rewrite <- !(assoc_L (++)).
  - apply Forall_app. split; [by apply range_line, tokens_range|]. apply Forall_app.
    split; [by repeat constructor|by apply value_line].
  - by destruct name.
Qed.

Lemma render_headers_inv hs out :
  render_headers hs = Ok out ->
  out = end_lines (print_header <$> filter kept hs) /\
  Forall (fun l => line_ok l /\ l <> []) (print_header <$> filter kept hs).
Proof.
  revert out. induction hs as [|h hs IH]; intros out; cbn [render_headers].
  - intros [= <-]. rewrite filter_nil. by split.
  - intros H. apply bind_ok in H as (line & Hl & H). apply bind_ok in H as (lines & Hls & H).
    apply Ok_inj in H as <-. destruct (IH _ Hls) as [-> Hok].
    apply render_header_inv in Hl as [[Hk ->]|(Hk & -> & Hln & Hne)].
    + by rewrite filter_cons_False.
    + rewrite filter_cons_True by done. split; [done|]. by constructor.
Qed.

Lemma digits_line s : forallb is_digit s = true -> line_ok s.
Proof.
  intros H. rewrite forallb_forall in H. apply Forall_forall. intros c Hc.
  apply list_elem_of_In, H, is_digit_spec in Hc. unfold CR. lia.
Qed.

Lemma expected_lines_ok r close :
  Forall (fun l => line_ok l /\ l <> []) (print_header <$> filter kept (rs_headers r)) ->
  Forall (fun l => line_ok l /\ l <> []) (expected_lines r close).
Proof.
  intros H. unfold expected_lines. apply Forall_app. split; [done|]. apply Forall_app. split.
  - destruct (_ || _); [done|]. apply Forall_singleton. split; [|discriminate].
    apply Forall_app. split; [by_compute|]. apply digits_line, str_of_Z_spec.
    destruct (body_allowed _); unfold len; lia.
  - destruct (_ || _); [|done]. apply Forall_singleton. split; [by_compute|discriminate].
Qed.

(** * Claims *)

(** C22.  Termination and bounded memory: [feed] always returns (the length of
    the buffer bounds the iterations of its loop), whatever the bytes and the
    limit on requests, and never leaves more buffered than [max_buffer_bytes]. *)
Theorem feed_terminates p data max_requests :
  len (buffer p) <= max_buffer_bytes p ->
  exists p' rs out, feed p data max_requests = Some (p', rs, out) /\
    len (buffer p') <= max_buffer_bytes p.
Proof.
  intros Hp. unfold feed. destruct (Z.ltb_spec (max_buffer_bytes p) (len (buffer p) + len data)).
  - by exists p, [], (Err (HttpProtocolError 413)).
  - destruct (feed_loop_total (S (length (buffer (set_buffer p (buffer p ++ data))))) max_requests
      (set_buffer p (buffer p ++ data))) as ([[p' rs] out] & E); [lia|].
    exists p', rs, out. split; [exact E|]. apply feed_loop_shrinks in E as [E _]. simpl in E.
    rewrite length_app in E. unfold len in *. lia.
Qed.

(** C23.  Chunking does not matter, for a parser fed without [max_requests] and
    chunks that fit the buffer together ([buffer + d1 + d2 <= max_buffer_bytes];
    a longer pair is refused as one chunk with status 413): if a first chunk was
    accepted, feeding it together with the next one gives the same requests, the
    same final parser and the same error, if any, as feeding them one after the
    other. *)
Theorem feed_chunks p p1 rs1 d1 d2 :
  feed p d1 None = Some (p1, rs1, Ok tt) ->
  len (buffer p) + len d1 + len d2 <= max_buffer_bytes p ->
  feed p (d1 ++ d2) None = prepend rs1 (feed p1 d2 None).
Proof.
  unfold feed. intros H1 Hfit.
  destruct (Z.ltb_spec (max_buffer_bytes p) (len (buffer p) + len d1)) as [|_]; [done|].
  assert (Hfit2 : (max_buffer_bytes p <? len (buffer p) + len (d1 ++ d2)) = false).
  { apply Z.ltb_ge. unfold len in *. rewrite length_app. lia. }
  rewrite Hfit2. set (q := set_buffer p (buffer p ++ d1)) in *.
  destruct (feed_loop_split _ (S (length (buffer p ++ d1 ++ d2))) q p1 rs1 d2 H1)
    as (Hs & Hm & Hl).
  { subst q. simpl. rewrite !length_app. lia. }
  assert (Hq : length (buffer q) = (length (buffer p) + length d1)%nat)
    by (subst q; simpl; apply length_app).
  rewrite Hm. change (max_buffer_bytes q) with (max_buffer_bytes p).
  assert (Hfit1 : (max_buffer_bytes p <? len (buffer p1) + len d2) = false).
  { apply Z.ltb_ge. unfold len in *. lia. }
  rewrite Hfit1. subst q. rewrite buffer_set, set_buffer_twice, <- (assoc_L (++)) in Hs.
  cbv zeta. rewrite (buffer_set p (buffer p ++ d1 ++ d2)), Hs. f_equal.
  destruct (feed_loop_total (S (length (buffer (set_buffer p1 (buffer p1 ++ d2))))) None
    (set_buffer p1 (buffer p1 ++ d2))) as (o & Eo); [lia|].
  rewrite Eo. eapply feed_loop_fuel; [|exact Eo]. simpl. rewrite !length_app. lia.
Qed.

(** C24.  Framing: an accepted request consumes a head that ends at the first
    blank line of the buffer and then exactly the body its single Content-Length
    declares (or nothing without one); it never has a Transfer-Encoding, so no
    other framing is possible.  The head's first line is the request line, made
    of the request's method, target and version, the others are its headers, in
    order; the request line, the head, the number of headers and the body are
    within their limits, and there is exactly one nonempty Host. *)
Theorem accepted_request_framed p r n :
  _parse_one p = Ok (Some (r, n)) ->
  exists front line lines rest,
    buffer p = (front ++ CRLFCRLF) ++ rq_body r ++ rest /\
    n = len (front ++ CRLFCRLF) + len (rq_body r) /\
    (forall pre post, buffer p = pre ++ CRLFCRLF ++ post -> (length front <= length pre)%nat) /\
    split_crlf front = line :: lines /\
    split_on SP line = [rq_method r; rq_target r; rq_version r] /\
    parse_header_lines lines = Ok (rq_headers r) /\
    len line <= max_request_line_bytes p /\ len lines <= max_header_count p /\
    len (front ++ CRLFCRLF) <= max_header_bytes p /\
    values_of (lit "transfer-encoding") (rq_headers r) = [] /\
    (values_of (lit "content-length") (rq_headers r) = [] /\ rq_body r = [] \/
     exists value, values_of (lit "content-length") (rq_headers r) = [value] /\
       forallb is_digit value = true /\ declared_length value = len (rq_body r) /\
       len (rq_body r) <= max_body_bytes p) /\
    exists host, values_of (lit "host") (rq_headers r) = [host] /\ host <> [].
Proof.
  rewrite parse_one_inv. intros (fe & he & line & lines & k & Hp).
  destruct (parsed_front _ _ _ _ _ _ _ _ Hp) as (front & post & Eb & El & Hmin & Hline).
  destruct (parsed_headers _ _ _ _ _ _ _ _ Hp) as (Hcount & Hlines & Hhost).
  pose proof (parsed_bounds _ _ _ _ _ _ _ _ Hp) as (B1 & B2 & B3).
  destruct Hp as [Hf Hfe Hh Hhe Hs Hl Hhd Hk -> Hc Hb Hn].
  assert (Hhead : len (front ++ CRLFCRLF) = Z.of_nat he + 4).
  { unfold len. rewrite length_app, El. simpl. lia. }
  assert (Edrop : drop (he + 4) (buffer p) = post).
  { rewrite Eb, (assoc_L (++)). apply drop_app_length'. rewrite length_app, El. done. }
  assert (Hbody : len (rq_body r) = k).
  { rewrite Hb. unfold len in *. rewrite length_take, length_drop. lia. }
  assert (Hfront : take he (buffer p) = front) by (rewrite Eb; by apply take_app_length').
  rewrite Hfront in Hs. exists front, line, lines, (drop (Z.to_nat k) post).
  rewrite Hhead, Hbody. split_and!; try done; try lia.
  - rewrite Hb, Edrop, take_drop, Eb. by rewrite <- (assoc_L (++)).
  - by apply request_line_parts.
  - unfold len. lia.
  - by apply content_length_inv in Hk as [? _].
  - apply content_length_inv in Hk as [_ [[E ->]|(v & E & _ & Hd & -> & Hr)]].
    + left. split; [done|]. by destruct (rq_body r).
    + right. exists v. split_and!; try done. lia.
Qed.

(** C25.  Completeness on pipelined input: a sequence of requests in canonical
    form (token method and header names, printable values without outer blanks,
    one Host, a Content-Length that fits), printed one after the other, is
    parsed back to exactly these requests, with nothing left in the buffer. *)
Theorem feed_print_requests p rs :
  buffer p = [] -> 0 <= max_request_line_bytes p -> Forall (request_ok p) rs ->
  len (flat_map print_request rs) <= max_buffer_bytes p ->
  feed p (flat_map print_request rs) None = Some (p, rs, Ok tt).
Proof.
  intros Hb Hline Hrs Hfit. unfold feed. rewrite Hb.
  rewrite (proj2 (Z.ltb_ge _ _)) by (unfold len in *; simpl; lia). cbv zeta.
  rewrite buffer_set. cbn [app]. rewrite feed_loop_print by (done || lia).
  rewrite <- Hb. by destruct p.
Qed.

(** Response framing: a rendered response is its status line, exactly the
    header lines of [expected_lines] (the given headers except Content-Length and
    Connection, the computed Content-Length unless 204 or 304, and Connection:
    close), a blank line and the payload.  The first blank line of the output is
    that one and splitting the head at line ends gives back these lines, so no
    header value or reason can inject a header or end the head early. *)
Theorem response_framed r close head_request out :
  render_response r close head_request = Ok out ->
  let head := status_text r ++ tail_lines (expected_lines r close) in
  let payload := if head_request || negb (body_allowed (rs_status r)) then [] else rs_body r in
  out = head ++ CRLFCRLF ++ payload /\
  find CRLFCRLF out = Some (length head) /\
  split_crlf (take (length head) out) = status_text r :: expected_lines r close.
Proof.
  unfold render_response. intros H. fold (status_text r) in H.
  repeat (apply bind_ok in H as (? & ? & H)). apply Ok_inj in H.
  match goal with R : render_headers _ = Ok _ |- _ => apply render_headers_inv in R as [-> Hok] end.
  pose proof (expected_lines_ok r close Hok) as Hls.
  assert (Hst : line_ok (status_text r)).
  { match goal with R : raise_unless (negb (existsb _ _)) _ = _ |- _ =>
      apply raise_unless_ok, negb_true_iff in R; by apply value_line end. }
  cbv zeta. set (payload := if head_request || _ then [] else _) in *.
  assert (E : out = (status_text r ++ tail_lines (expected_lines r close)) ++ CRLFCRLF ++ payload).
  { rewrite <- H. generalize (status_text r). intros st.
    rewrite <- (assoc_L (++) st). f_equal. change CRLFCRLF with (CRLF ++ CRLF).
    rewrite <- (assoc_L (++) CRLF CRLF), <- end_tail. f_equal. unfold expected_lines, end_lines.
    rewrite !flat_map_app, <- !(assoc_L (++)). f_equal.
    destruct ((rs_status r =? 204) || (rs_status r =? 304)),
      (close || _connection_close (rs_headers r));
      cbn [flat_map]; by rewrite ?app_nil_r, <- ?(assoc_L (++)). }
  split; [exact E|]. rewrite E. split.
  - rewrite <- (assoc_L (++)). unfold CRLFCRLF at 1. rewrite find_skip by done.
    change [CR; LF; CR; LF] with CRLFCRLF. rewrite find_tail by done. by rewrite length_app.
  - rewrite take_app_length. apply split_lines; [done|].
    eapply Forall_impl; [exact Hls|]. naive_solver.
Qed.

(** The limit on the request line depends on where the input is cut: a
    request whose line has exactly [max_request_line_bytes] bytes is accepted
    when it arrives in one chunk, but refused with 414 when the first chunk ends
    between the carriage return and the line feed. *)
Theorem exact_line_refused_when_cut p r :
  buffer p = [] -> request_ok p r -> len (print_request r) <= max_buffer_bytes p ->
  len (first_line r) = max_request_line_bytes p ->
  feed p (print_request r) None = Some (p, [r], Ok tt) /\
  exists p', feed p (first_line r ++ [CR]) None = Some (p', [], Err (HttpProtocolError 414)).
Proof.
  intros Hb Hr Hfit Hexact. split.
  - unfold feed. rewrite Hb. rewrite (proj2 (Z.ltb_ge _ _)) by (unfold len in *; simpl; lia).
    cbv zeta. rewrite buffer_set. cbn [app].
    pose proof (feed_loop_print p [r] (S (length (print_request r)))) as E.
    cbn [flat_map] in E. rewrite app_nil_r in E. rewrite E.
    + rewrite <- Hb. by destruct p.
    + unfold len in *. lia.
    + by apply Forall_singleton.
    + lia.
  - exists (set_buffer p (first_line r ++ [CR])). unfold feed. rewrite Hb.
    assert (Hshort : len (first_line r ++ [CR]) <= len (print_request r)).
    { unfold print_request, len. rewrite !length_app. simpl. lia. }
    rewrite (proj2 (Z.ltb_ge _ _)) by (unfold len in *; simpl; lia). cbv zeta.
    rewrite buffer_set. cbn [app feed_loop]. unfold _parse_one. rewrite buffer_set.
    unfold CRLF. rewrite find_skip by (by eapply first_line_ok). cbn [find fmap option_fmap option_map].
    change (is_prefix [CR; LF] [CR]) with false. change (is_prefix [CR; LF] []) with false.
    cbn [fmap option_fmap option_map]. unfold http_check, raise_unless.
    rewrite (proj2 (Z.leb_gt _ _)); [done|].
    unfold len in *. rewrite length_app. simpl. lia.
Qed.

(** * A small exchange *)
Module HttpRun.
(** Limits at which the request line below is exactly as long as allowed. *)
Definition p0 : HttpRequestParser := mkParser 14 64 10 16 128 [].
Definition r0 : HttpRequest :=
  mkRequest (lit "GET") (lit "/") [(lit "host", lit "a"); (lit "content-length", lit "2")]
    [104; 105] (lit "HTTP/1.1").

Lemma p0_new : HttpRequestParser_new 14 64 10 16 128 = Ok p0.
Proof. reflexivity. Qed.

Lemma r0_ok : request_ok p0 r0.
Proof.
  constructor.
  - split; [discriminate|reflexivity].
  - split; [discriminate|by_compute].
  - reflexivity.
  - repeat constructor; cbn; try discriminate; reflexivity.
  - exists (lit "a"). split; [vm_compute; reflexivity|discriminate].
  - vm_compute. reflexivity.
  - vm_compute. discriminate.
  - vm_compute. discriminate.
  - vm_compute. discriminate.
Qed.

Lemma feed_terminates_witness : exists p' rs out,
  feed p0 (print_request r0) None = Some (p', rs, out) /\ len (buffer p') <= 128.
Proof. apply (feed_terminates p0 (print_request r0) None). vm_compute. discriminate. Defined.

Definition cut : nat := 20.

Lemma feed_chunks_witness :
  feed p0 (take cut (print_request r0) ++ drop cut (print_request r0)) None =
  prepend [] (feed (set_buffer p0 (take cut (print_request r0)))
                (drop cut (print_request r0)) None).
Proof.
  apply (feed_chunks p0 (set_buffer p0 (take cut (print_request r0))) []
    (take cut (print_request r0)) (drop cut (print_request r0))).
  - vm_compute. reflexivity.
  - vm_compute. discriminate.
Defined.

(** Two requests in one buffer: the first is framed by the first blank line. *)
Lemma accepted_request_framed_witness : exists front line lines rest,
  print_request r0 ++ print_request r0 = (front ++ CRLFCRLF) ++ rq_body r0 ++ rest /\
  split_crlf front = line :: lines /\ len line <= 14 /\ len lines <= 10.
Proof.
  destruct (accepted_request_framed (set_buffer p0 (print_request r0 ++ print_request r0)) r0
    (len (print_request r0))) as (front & line & lines & rest & E & _ & _ & Es & _ & _ & H1 & H2 & _).
  - vm_compute. reflexivity.
  - exists front, line, lines, rest. exact (conj E (conj Es (conj H1 H2))).
Defined.

Lemma feed_print_requests_witness :
  feed p0 (flat_map print_request [r0; r0]) None = Some (p0, [r0; r0], Ok tt).
Proof.
  apply feed_print_requests.
  - reflexivity.
  - vm_compute. discriminate.
  - apply Forall_cons; split; [exact r0_ok|]. apply Forall_singleton. exact r0_ok.
  - vm_compute. discriminate.
Defined.

Definition ok_response : HttpResponse :=
  mkResponse 200 [(lit "X-Trace", lit "7")] [104; 105] None.

Definition rendered : bytes :=
  match render_response ok_response false false with Ok out => out | Err _ => [] end.

Lemma response_framed_witness :
  find CRLFCRLF rendered =
  Some (length (status_text ok_response ++ tail_lines (expected_lines ok_response false))).
Proof.
  apply (response_framed ok_response false false rendered). vm_compute. reflexivity.
Defined.

Lemma exact_line_refused_when_cut_witness : exists p',
  feed p0 (first_line r0 ++ [CR]) None = Some (p', [], Err (HttpProtocolError 414)).
Proof.
  apply (exact_line_refused_when_cut p0 r0).
  - reflexivity.
  - exact r0_ok.
  - vm_compute. discriminate.
  - vm_compute. reflexivity.
Defined.
End HttpRun.
