(* ===== verification/DeadLetter.v ===== *)
(** The dead-letter broker: [movie/actor/dead_letter.py].

    [DeadLetterBroker] keeps the last [capacity] events with their sequence
    numbers; a [DeadLetterSubscription] is a cursor into them.  Every method
    holds the broker's lock from its first to its last access, so an execution
    is a sequence of calls ([call], [run]).  The broker refines an unbounded log
    of everything published: a subscription is a position in that log which is
    moved forward, and the loss counted, when the window has passed it. *)

From stdpp Require Import base list numbers gmap.
From S2P Require Import Prelude.

Module DeadLetterReason.
Inductive t :=
  | NO_ASSOCIATION | STALE_INCARNATION | ACTOR_NOT_FOUND | ACTOR_STOPPING
  | MAILBOX_FULL | DESERIALIZATION_REJECTED.
End DeadLetterReason.

Module RemoteAdmissionResult.
Inductive t := ACCEPTED | ACTOR_NOT_FOUND | ACTOR_STOPPING | MAILBOX_FULL.
End RemoteAdmissionResult.

Definition admission_dead_letter_reason (r : RemoteAdmissionResult.t) :
    result DeadLetterReason.t :=
  match r with
  | RemoteAdmissionResult.ACTOR_NOT_FOUND => Ok DeadLetterReason.ACTOR_NOT_FOUND
  | RemoteAdmissionResult.ACTOR_STOPPING => Ok DeadLetterReason.ACTOR_STOPPING
  | RemoteAdmissionResult.MAILBOX_FULL => Ok DeadLetterReason.MAILBOX_FULL
  | RemoteAdmissionResult.ACCEPTED => Err ValueError
  end.

Section broker.
Context {E : Type}.

Record subscription := mkSubscription {
  cursor : nat;
  dropped : nat;
  sub_closed : bool;
}.

Record broker := mkBroker {
  capacity : nat;
  max_subscriptions : nat;
  entries : list (nat * E);
  next_sequence : nat;
  subscriptions : gset nat;
  closed : bool;
}.

Definition broker_new (capacity max_subscriptions : Z) : result broker :=
  raise_unless ((0 <? capacity) && (0 <? max_subscriptions)) ValueError ≫= fun _ =>
  Ok (mkBroker (Z.to_nat capacity) (Z.to_nat max_subscriptions) [] 0 ∅ false).

(** [deque(maxlen=capacity).append]: the oldest entry falls out. *)
Definition append_bounded {A} (n : nat) (q : list A) (x : A) : list A :=
  drop (length q + 1 - n) (q ++ [x]).

Definition publish (e : E) (b : broker) : broker * bool :=
  if closed b then (b, false)
  else (mkBroker (capacity b) (max_subscriptions b)
          (append_bounded (capacity b) (entries b) (next_sequence b, e))
          (next_sequence b + 1) (subscriptions b) (closed b), true).

(** [id] is the identity of the new subscription object. *)
Definition subscribe (id : nat) (b : broker) : result (broker * subscription) :=
  raise_unless (negb (closed b)) RuntimeError ≫= fun _ =>
  raise_unless (size (subscriptions b) <? max_subscriptions b)%nat RuntimeError ≫= fun _ =>
  Ok (mkBroker (capacity b) (max_subscriptions b) (entries b) (next_sequence b)
        (subscriptions b ∪ {[id]}) (closed b),
      mkSubscription (next_sequence b) 0 false).

Definition close (b : broker) : broker :=
  mkBroker (capacity b) (max_subscriptions b) (entries b) (next_sequence b) (subscriptions b) true.

Definition _advance_cursor (b : broker) (s : subscription) : subscription :=
  match entries b with
  | [] => s
  | (first_sequence, _) :: _ =>
      if (cursor s <? first_sequence)%nat
      then mkSubscription first_sequence (dropped s + (first_sequence - cursor s)) (sub_closed s)
      else s
  end.

Definition _poll (b : broker) (s : subscription) : subscription * option E :=
  if sub_closed s then (s, None)
  else
    let s1 := _advance_cursor b s in
    match entries b with
    | [] => (s1, None)
    | (first_sequence, _) :: _ =>
        match entries b !! (cursor s1 - first_sequence)%nat with
        | None => (s1, None)
        | Some (sequence, e) => (mkSubscription (sequence + 1) (dropped s1) (sub_closed s1), Some e)
        end
    end.

Definition dropped_count (b : broker) (s : subscription) : subscription * nat :=
  let s1 := _advance_cursor b s in (s1, dropped s1).

Definition _unsubscribe (id : nat) (b : broker) (s : subscription) : broker * subscription :=
  if sub_closed s then (b, s)
  else (mkBroker (capacity b) (max_subscriptions b) (entries b) (next_sequence b)
          (subscriptions b ∖ {[id]}) (closed b),
        mkSubscription (cursor s) (dropped s) true).

(** [drain(limit)]: [fuel] bounds the polls of an unlimited drain. *)
Fixpoint drain_loop (fuel : nat) (b : broker) (s : subscription) : subscription * list E :=
  match fuel with
  | O => (s, [])
  | S fuel' =>
      match _poll b s with
      | (s', None) => (s', [])
      | (s', Some e) => let '(s'', es) := drain_loop fuel' b s' in (s'', e :: es)
      end
  end.

Definition drain (limit : option Z) (b : broker) (s : subscription) :
    result (subscription * list E) :=
  match limit with
  | Some n =>
      raise_unless (0 <=? n) ValueError ≫= fun _ => Ok (drain_loop (Z.to_nat n) b s)
  | None => Ok (drain_loop (S (length (entries b))) b s)
  end.

Definition len_entries (b : broker) : Z := Z.of_nat (length (entries b)).

(** * The abstract log *)

(** The entries are the last [capacity] elements of the log, numbered. *)
Definition numbered (log : list E) : list (nat * E) := zip (seq 0 (length log)) log.

Definition window_start (b : broker) (log : list E) : nat := (length log - capacity b)%nat.

Record represents (b : broker) (log : list E) : Prop := {
  rp_capacity : (0 < capacity b)%nat;
  rp_next : next_sequence b = length log;
  rp_entries : entries b = drop (window_start b log) (numbered log);
}.

Lemma numbered_snoc log e : numbered (log ++ [e]) = numbered log ++ [(length log, e)].
Proof.
  unfold numbered. rewrite length_app, seq_app, zip_with_app by (by rewrite length_seq). done.
Qed.

Lemma length_numbered log : length (numbered log) = length log.
Proof. unfold numbered. rewrite length_zip_with, length_seq. lia. Qed.

Lemma lookup_numbered log i : numbered log !! i = (fun e => (i, e)) <$> log !! i.
Proof.
  unfold numbered. rewrite lookup_zip_with. destruct (log !! i) as [e|] eqn:He.
  - apply lookup_lt_Some in He as Hlt. rewrite lookup_seq_lt by done. done.
  - apply lookup_ge_None in He. by rewrite lookup_seq_ge.
Qed.

Lemma publish_represents b log e :
  represents b log -> represents (publish e b).1 (if closed b then log else log ++ [e]).
Proof.
  intros [Hc Hn He]. unfold publish. destruct (closed b); [done|]. constructor; simpl.
  - done.
  - rewrite length_app, Hn. done.
  - unfold append_bounded, window_start in *; simpl. rewrite He, Hn, numbered_snoc.
    rewrite length_drop, length_numbered, length_app; simpl.
    rewrite <- drop_app_le by (rewrite length_numbered; lia). rewrite drop_drop. f_equal. lia.
Qed.

Lemma first_entry b log n e rest :
  represents b log -> entries b = (n, e) :: rest -> n = window_start b log.
Proof.
  intros [_ _ He] Hf. rewrite He in Hf.
  assert (numbered log !! window_start b log = Some (n, e)) as Hl.
  { rewrite <- (Nat.add_0_r (window_start b log)), <- lookup_drop, Hf. done. }
  rewrite lookup_numbered in Hl. by apply fmap_Some in Hl as (? & _ & [= ? _]).
Qed.

Lemma entries_nil b log : represents b log -> entries b = [] -> log = [].
Proof.
  intros [Hc _ He] Hn. rewrite He in Hn. apply (f_equal length) in Hn.
  rewrite length_drop, length_numbered in Hn. unfold window_start in Hn. simpl in Hn.
  destruct log; [done|]. simpl in Hn. lia.
Qed.

(** The position from which a subscription continues. *)
Definition position (b : broker) (log : list E) (s : subscription) : nat :=
  Nat.max (cursor s) (window_start b log).

Lemma advance_spec b log s :
  represents b log -> (cursor s <= length log)%nat ->
  _advance_cursor b s =
  mkSubscription (position b log s) (dropped s + (position b log s - cursor s)) (sub_closed s).
Proof.
  intros Hr Hcur. unfold _advance_cursor, position. destruct (entries b) as [|[n e] rest] eqn:Hf.
  - pose proof (entries_nil _ _ Hr Hf) as ->. unfold window_start. simpl in *.
    replace (cursor s) with 0%nat by lia. destruct s; simpl in *. f_equal; lia.
  - rewrite (first_entry _ _ _ _ _ Hr Hf). destruct (Nat.ltb_spec (cursor s) (window_start b log)).
    + f_equal; lia.
    + replace (Nat.max _ _) with (cursor s) by lia. destruct s; simpl. f_equal. lia.
Qed.

(** [_poll] in terms of the log. *)
Lemma poll_spec b log s :
  represents b log -> (cursor s <= length log)%nat -> sub_closed s = false ->
  _poll b s =
  let skipped := (position b log s - cursor s)%nat in
  match log !! position b log s with
  | Some e => (mkSubscription (position b log s + 1) (dropped s + skipped) false, Some e)
  | None => (mkSubscription (position b log s) (dropped s + skipped) false, None)
  end.
Proof.
  intros Hr Hcur Hcl. unfold _poll. rewrite Hcl, (advance_spec _ _ _ Hr Hcur), Hcl. simpl.
  destruct (entries b) as [|[n e] rest] eqn:Hf.
  - pose proof (entries_nil _ _ Hr Hf) as ->. by rewrite lookup_nil.
  - pose proof (first_entry _ _ _ _ _ Hr Hf) as ->. rewrite <- Hf.
    pose proof (rp_entries _ _ Hr) as He. rewrite He, lookup_drop, lookup_numbered.
    replace (window_start b log + (position b log s - window_start b log))%nat
      with (position b log s) by (unfold position; lia).
    by destruct (log !! position b log s).
Qed.

Lemma position_bound b log s :
  (cursor s <= length log)%nat -> (cursor s <= position b log s <= length log)%nat.
Proof. unfold position, window_start. lia. Qed.

Lemma drain_loop_spec fuel b log s :
  represents b log -> (cursor s <= length log)%nat -> sub_closed s = false ->
  (drain_loop fuel b s).2 = take fuel (drop (position b log s) log).
Proof.
  intros Hr. revert s. induction fuel as [|fuel IH]; intros s Hcur Hcl; [done|]. cbn [drain_loop].
  rewrite (poll_spec _ _ _ Hr Hcur Hcl). cbv zeta.
  destruct (log !! position b log s) as [e|] eqn:He.
  - apply lookup_lt_Some in He as Hlt.
    destruct (drain_loop fuel b _) as [s'' es] eqn:Ed. simpl.
    rewrite (drop_S _ _ _ He). cbn [take]. f_equal.
    specialize (IH (mkSubscription (position b log s + 1)
      (dropped s + (position b log s - cursor s)) false)).
    rewrite Ed in IH. simpl in IH. rewrite IH by (done || lia). f_equal. f_equal.
    unfold position at 1; simpl. unfold position, window_start in *. lia.
  - apply lookup_ge_None in He. by rewrite drop_ge.
Qed.

(** * Runs *)

(** The broker and its subscription objects. *)
Record hub := mkHub {
  the_broker : broker;
  subs : gmap nat subscription;
}.

Inductive call :=
  | Publish (e : E)
  | Subscribe
  | Poll (id : nat)
  | DroppedCount (id : nat)
  | Unsubscribe (id : nat)
  | CloseBroker.

(** A fresh subscription object gets the next unused identity. *)
Definition fresh_id (h : hub) : nat := fresh (dom (subs h)).

(** One call; the event a [poll] returned. *)
Definition exec (h : hub) (c : call) : hub * option E :=
  match c with
  | Publish e => (mkHub (publish e (the_broker h)).1 (subs h), None)
  | Subscribe =>
      match subscribe (fresh_id h) (the_broker h) with
      | Ok (b', s) => (mkHub b' (<[fresh_id h := s]> (subs h)), None)
      | Err _ => (h, None)
      end
  | Poll id =>
      match subs h !! id with
      | None => (h, None)
      | Some s => let '(s', r) := _poll (the_broker h) s in
                  (mkHub (the_broker h) (<[id := s']> (subs h)), r)
      end
  | DroppedCount id =>
      match subs h !! id with
      | None => (h, None)
      | Some s => (mkHub (the_broker h) (<[id := (dropped_count (the_broker h) s).1]> (subs h)), None)
      end
  | Unsubscribe id =>
      match subs h !! id with
      | None => (h, None)
      | Some s => let '(b', s') := _unsubscribe id (the_broker h) s in
                  (mkHub b' (<[id := s']> (subs h)), None)
      end
  | CloseBroker => (mkHub (close (the_broker h)) (subs h), None)
  end.

(** A run records, per subscription, the events delivered to it and the log
    position at which it was opened. *)
Record history := mkHistory {
  log : list E;
  opened : gmap nat nat;
  delivered : gmap nat (list E);
}.

Definition record (h : hub) (c : call) (out : option E) (hist : history) : history :=
  match c with
  | Publish e =>
      mkHistory (if closed (the_broker h) then log hist else log hist ++ [e])
        (opened hist) (delivered hist)
  | Subscribe =>
      match subscribe (fresh_id h) (the_broker h) with
      | Ok _ => mkHistory (log hist) (<[fresh_id h := length (log hist)]> (opened hist))
                  (<[fresh_id h := []]> (delivered hist))
      | Err _ => hist
      end
  | Poll id =>
      match out with
      | Some e => mkHistory (log hist) (opened hist)
                    (<[id := default [] (delivered hist !! id) ++ [e]]> (delivered hist))
      | None => hist
      end
  | _ => hist
  end.

Inductive run (cap max : Z) : hub -> history -> Prop :=
  | run_init b :
      broker_new cap max = Ok b -> run cap max (mkHub b ∅) (mkHistory [] ∅ ∅)
  | run_call h hist c h' out :
      run cap max h hist -> exec h c = (h', out) -> run cap max h' (record h c out hist).

(** * The invariant of runs *)

(** A subscription opened at [start] that received [ds]. *)
Record sub_inv (l : list E) (s : subscription) (start : nat) (ds : list E) : Prop := {
  si_account : cursor s = (start + length ds + dropped s)%nat;
  si_bound : (cursor s <= length l)%nat;
  si_order : sublist ds (drop start (take (cursor s) l));
}.

Record hub_inv (cap : Z) (h : hub) (hist : history) : Prop := {
  hi_capacity : capacity (the_broker h) = Z.to_nat cap;
  hi_represents : represents (the_broker h) (log hist);
  hi_subs : forall id s, subs h !! id = Some s -> exists start ds,
    opened hist !! id = Some start /\ delivered hist !! id = Some ds /\
    sub_inv (log hist) s start ds;
}.

Lemma sub_inv_more l x s start ds : sub_inv l s start ds -> sub_inv (l ++ x) s start ds.
Proof.
  intros [Ha Hb Ho]. constructor; [done|rewrite length_app; lia|]. by rewrite take_app_le.
Qed.

(** Moving the cursor forward and counting the loss. *)
Lemma sub_inv_skip l s start ds pos :
  sub_inv l s start ds -> (cursor s <= pos <= length l)%nat ->
  sub_inv l (mkSubscription pos (dropped s + (pos - cursor s)) (sub_closed s)) start ds.
Proof.
  intros [Ha Hb Ho] Hp. constructor; simpl; [lia|lia|].
  etrans; [exact Ho|].
  replace (take pos l) with (take (cursor s) l ++ take (pos - cursor s) (drop (cursor s) l)).
  - rewrite drop_app_le by (rewrite length_take; lia). by apply sublist_inserts_r.
  - rewrite take_take_drop. f_equal. lia.
Qed.

Lemma sub_inv_deliver l s start ds e cl :
  sub_inv l s start ds -> l !! cursor s = Some e ->
  sub_inv l (mkSubscription (cursor s + 1) (dropped s) cl) start (ds ++ [e]).
Proof.
  intros [Ha Hb Ho] He. apply lookup_lt_Some in He as Hlt. constructor; simpl.
  - rewrite length_app; simpl. lia.
  - lia.
  - replace (cursor s + 1)%nat with (S (cursor s)) by lia. rewrite (take_S_r _ _ _ He).
    rewrite drop_app_le by (rewrite length_take; lia). by apply sublist_app.
Qed.

Lemma poll_inv b l s start ds s' out :
  represents b l -> sub_inv l s start ds -> _poll b s = (s', out) ->
  sub_inv l s' start (ds ++ option_list out).
Proof.
  intros Hr Hs Hp. pose proof (si_bound _ _ _ _ Hs) as Hb.
  destruct (sub_closed s) eqn:Hc.
  { unfold _poll in Hp. rewrite Hc in Hp. injection Hp as <- <-. by rewrite app_nil_r. }
  rewrite (poll_spec _ _ _ Hr Hb Hc) in Hp. cbv zeta in Hp.
  pose proof (sub_inv_skip _ _ _ _ (position b l s) Hs (position_bound _ _ _ Hb)) as Hskip.
  rewrite Hc in Hskip.
  destruct (l !! position b l s) as [e|] eqn:He; injection Hp as <- <-.
  - by apply (sub_inv_deliver _ _ _ _ e false Hskip).
  - by rewrite app_nil_r.
Qed.

Lemma represents_same b b' l :
  capacity b' = capacity b -> entries b' = entries b -> next_sequence b' = next_sequence b ->
  represents b l -> represents b' l.
Proof.
  intros Hc He Hn [H1 H2 H3]. unfold window_start in *.
  constructor; unfold window_start; congruence.
Qed.

Lemma exec_inv cap h hist c h' out :
  hub_inv cap h hist -> exec h c = (h', out) -> hub_inv cap h' (record h c out hist).
Proof.
  intros [Hc Hr Hs] He. destruct c as [e| |id|id|id|]; simpl in *.
  - injection He as <- <-. constructor; simpl.
    + unfold publish. by destruct (closed (the_broker h)).
    + by apply publish_represents.
    + intros id s Hid. destruct (Hs id s Hid) as (start & ds & ? & ? & ?). exists start, ds.
      split_and!; try done. destruct (closed _); [done|]. by apply sub_inv_more.
  - unfold subscribe in *. destruct (negb _); simpl in *; [|injection He as <- <-; by constructor].
    destruct (_ <? _)%nat; simpl in *; injection He as <- <-; [|by constructor].
    constructor; simpl; [done|by eapply represents_same; [..|exact Hr]|].
    intros id s. rewrite lookup_insert_Some. intros [[<- <-]|[Hne Hid]].
    + exists (length (log hist)), []. rewrite !lookup_insert_eq. split_and!; try done.
      rewrite <- (rp_next _ _ Hr). constructor; simpl; [lia|rewrite (rp_next _ _ Hr); lia|].
      apply sublist_nil_l.
    + rewrite !lookup_insert_ne by done. by apply Hs.
  - destruct (subs h !! id) as [s|] eqn:Hid; [|injection He as <- <-; by constructor].
    destruct (_poll _ s) as [s' r] eqn:Hp. injection He as <- <-.
    destruct (Hs id s Hid) as (start & ds & Ho & Hd & Hsi).
    pose proof (poll_inv _ _ _ _ _ _ _ Hr Hsi Hp) as Hsi'.
    destruct r as [e|]; constructor; simpl; try done;
      intros id' s0; rewrite lookup_insert_Some; intros [[<- <-]|[Hne Hid']]; try by apply Hs.
    + exists start, (ds ++ [e]). by rewrite lookup_insert_eq, Hd.
    + rewrite lookup_insert_ne by done. by apply Hs.
    + exists start, ds. rewrite app_nil_r in Hsi'. done.
  - destruct (subs h !! id) as [s|] eqn:Hid; injection He as <- <-; [|by constructor].
    constructor; simpl; try done.
    intros id' s0; rewrite lookup_insert_Some; intros [[<- <-]|[Hne Hid']]; [|by apply Hs].
    destruct (Hs id s Hid) as (start & ds & Ho & Hd & Hsi). exists start, ds. split_and!; try done.
    pose proof (si_bound _ _ _ _ Hsi) as Hb. unfold dropped_count. simpl.
    rewrite (advance_spec _ _ _ Hr Hb). apply sub_inv_skip; [done|by apply position_bound].
  - destruct (subs h !! id) as [s|] eqn:Hid; [|injection He as <- <-; by constructor].
    destruct (_unsubscribe id _ s) as [b' s'] eqn:Hu. injection He as <- <-.
    destruct (Hs id s Hid) as (start & ds & Ho & Hd & [Ha Hb Hord]).
    unfold _unsubscribe in Hu. destruct (sub_closed s); injection Hu as <- <-;
      constructor; simpl; try done; try (by eapply represents_same; [..|exact Hr]);
      intros id' s0; rewrite lookup_insert_Some; intros [[<- <-]|[Hne Hid']]; try (by apply Hs).
    exists start, ds. done.
  - injection He as <- <-. constructor; simpl; try done. by eapply represents_same; [..|exact Hr].
Qed.

Lemma run_inv cap max h hist : run cap max h hist -> hub_inv cap h hist.
Proof.
  induction 1 as [b Hb|h hist c h' out Hrun IH He]; [|by eapply exec_inv].
  unfold broker_new in Hb. inv_run. constructor; simpl; [done| |].
  - constructor; simpl; [lia|done|done].
  - intros id s. by rewrite lookup_empty.
Qed.

(** * Claims *)

(** C26.  A bounded replay window with counted loss: in every run, what a
    subscription has received is a subsequence, in publication order and without
    duplicates, of what was published since it was opened; and its cursor is
    exactly the opening position plus the events received plus the events it
    reports as dropped, so no event is lost uncounted.  The broker never retains
    more than its capacity. *)
Theorem dead_letter_stream cap max h hist id s :
  run cap max h hist -> subs h !! id = Some s ->
  len_entries (the_broker h) <= Z.max 0 cap /\
  exists start ds, opened hist !! id = Some start /\ delivered hist !! id = Some ds /\
    sublist ds (drop start (log hist)) /\
    cursor s = (start + length ds + dropped s)%nat /\ (cursor s <= length (log hist))%nat.
Proof.
  intros Hrun Hid. destruct (run_inv _ _ _ _ Hrun) as [Hc Hr Hs]. split.
  - unfold len_entries. rewrite (rp_entries _ _ Hr), length_drop, length_numbered.
    unfold window_start. rewrite Hc. lia.
  - destruct (Hs id s Hid) as (start & ds & Ho & Hd & [Ha Hb Hord]). exists start, ds.
    split_and!; try done. etrans; [exact Hord|].
    rewrite <- (take_drop (cursor s) (log hist)) at 2.
    rewrite drop_app_le by (rewrite length_take; lia). by apply sublist_inserts_r.
Qed.

(** [drain] without a limit terminates and returns every retained event the
    subscription has not seen, oldest first; with a limit it returns the first
    ones up to the limit, and a negative limit is an error. *)
Theorem drain_returns_window cap max h hist id s limit :
  run cap max h hist -> subs h !! id = Some s -> sub_closed s = false ->
  let unseen := drop (Nat.max (cursor s) (length (log hist) - Z.to_nat cap)) (log hist) in
  match drain limit (the_broker h) s with
  | Ok (_, es) => es = match limit with Some n => take (Z.to_nat n) unseen | None => unseen end
  | Err e => e = ValueError /\ exists n, limit = Some n /\ n < 0
  end.
Proof.
  intros Hrun Hid Hcl unseen. destruct (run_inv _ _ _ _ Hrun) as [Hc Hr Hs].
  destruct (Hs id s Hid) as (start & ds & _ & _ & [_ Hb _]).
  assert (Hd : forall fuel, (drain_loop fuel (the_broker h) s).2 = take fuel unseen).
  { intros fuel. rewrite (drain_loop_spec _ _ _ _ Hr Hb Hcl). unfold position, window_start, unseen.
    by rewrite Hc. }
  unfold drain. destruct limit as [n|].
  - destruct (Z.leb_spec 0 n); simpl.
    + specialize (Hd (Z.to_nat n)). by destruct (drain_loop _ _ _).
    + split; [done|]. exists n. done.
  - specialize (Hd (S (length (entries (the_broker h))))). destruct (drain_loop _ _ _) as [s' es].
    simpl in *. rewrite Hd. apply take_ge. unfold unseen. rewrite length_drop.
    rewrite (rp_entries _ _ Hr), length_drop, length_numbered. unfold window_start. rewrite Hc. lia.
Qed.
End broker.

Module DeadLetterRun.
(** Capacity two: three events after a subscription, so one is lost. *)
Definition b0 : broker (E := nat) := mkBroker 2 1 [] 0 ∅ false.
Definition calls : list (call (E := nat)) := [Subscribe; Publish 1; Publish 2; Publish 3; Poll 0]%nat.

Definition start : history (E := nat) := mkHistory [] ∅ ∅.

Definition run_all (cs : list call) : hub (E := nat) * history :=
  foldl (fun '(h, hist) c => let '(h', out) := exec h c in (h', record h c out hist))
    (mkHub b0 ∅, start) cs.

Lemma run_all_run cs : run 2 1 (run_all cs).1 (run_all cs).2.
Proof.
  unfold run_all.
  assert (H0 : run 2 1 (mkHub b0 ∅, start).1 (mkHub b0 ∅, start).2)
    by (by apply run_init).
  revert H0. generalize (mkHub b0 ∅, start).
  induction cs as [|c cs IH]; intros [h hist] H0; simpl; [done|].
  destruct (exec h c) as [h' out] eqn:E. apply IH. by eapply run_call.
Qed.

Definition s0 : subscription := mkSubscription 2 1 false.

Lemma s0_open : subs (run_all calls).1 !! 0%nat = Some s0.
Proof. vm_compute. reflexivity. Qed.

Lemma dead_letter_stream_witness : exists start ds,
  opened (run_all calls).2 !! 0%nat = Some start /\
  delivered (run_all calls).2 !! 0%nat = Some ds /\
  cursor s0 = (start + length ds + dropped s0)%nat.
Proof.
  destruct (dead_letter_stream 2 1 _ _ 0 s0 (run_all_run calls) s0_open)
    as (_ & start & ds & Ho & Hd & _ & Ha & _).
  exists start, ds. split; [exact Ho|]. split; [exact Hd|exact Ha].
Defined.

Lemma drain_returns_window_witness :
  match drain None (the_broker (run_all calls).1) s0 with
  | Ok (_, es) => es = [3%nat]
  | Err _ => False
  end.
Proof.
  pose proof (drain_returns_window 2 1 _ _ 0 s0 None (run_all_run calls) s0_open eq_refl) as H.
  vm_compute in H. vm_compute. exact H.
Defined.
End DeadLetterRun.
