(* ===== verification/ActorContext.v ===== *)
(** One actor: [LocalActorContext] of [movie/actor/impl/context.py], with
    [ChildrenMixin], the behaviours of [movie/actor/behaviour.py], the directives
    of [movie/actor/supervision.py] and the system messages of
    [movie/actor/system.py].

    The mailbox runs an actor's callbacks one at a time, so the context's methods
    are functions of its state, in a small monad that also records what the
    actor does to others ([action]) and how a method ends: it returns, raises an
    [Exception], or raises another [BaseException].  What the application's
    callbacks do is a parameter ([App]): each receives the value of a counter
    that changes with every callback, so it may answer differently each time, and
    returns the effects it has on its own context and an outcome.  The
    environment's refusals (a full mailbox, a parent that cannot be notified) are
    answers of the same kind.  What a callback sends to mailboxes is not recorded.
    A method is one step: what other threads do to the context meanwhile is among
    the effects of the callbacks and the arrivals of the replay.  Logging is
    assumed to return. *)

From stdpp Require Import base list numbers strings.
From S2P Require Import Prelude Bytes PyStr.

(** How a call ends. *)
Inductive outcome (A : Type) : Type :=
  | Return (a : A)
  | Raise           (* an [Exception] *)
  | RaiseBase.      (* a [BaseException] that is not an [Exception] *)
Arguments Return {A} a.
Arguments Raise {A}.
Arguments RaiseBase {A}.

Inductive ActorState := NEW | STARTING | RUNNING | STOPPING | STOPPED | FAILED.
#[global] Instance ActorState_eq_dec : EqDecision ActorState.
Proof. solve_decision. Defined.

Inductive SupervisorDirective := RESTART | STOP | ESCALATE.

Section actor.
Context {M U : Type}.

(** What may happen to the context during a callback: its own calls, and the
    removal of a child that stopped meanwhile, made by the child's thread. *)
Inductive effect :=
  | Spawn (child : nat) (name : pystr)
  | Suspend
  | Resume
  | Stash (m : M)
  | ChildGone (child : nat).

Definition answer (A : Type) : Type := list effect * outcome A.

(** Behaviours: a factory ([DefferedBehavior]), the application's own ([U]), the
    three constants of [Behaviors], or an object without the required methods.
    A chain of factories is finite. *)
Inductive behavior :=
  | Deferred (factory : nat -> list effect * outcome behavior)
  | User (u : U)
  | SameBehavior
  | StoppedBehavior
  | FailedBehavior
  | NotABehavior.

Inductive sysmsg :=
  | PreStart
  | PostStop
  | Stop
  | Terminate
  | Restart
  | Terminated (ref : nat)
  | Failed (ref : nat)
  | Control (applies : behavior -> bool) (deliver : behavior -> nat -> answer unit).

(** The application and the environment. *)
Record App := {
  app_receive : U -> M -> nat -> answer (option behavior);
  app_on_signal : U -> sysmsg -> nat -> answer unit;
  app_supervise : U -> nat -> nat -> answer SupervisorDirective;
  app_actor_failed : U -> nat -> list effect;
  env_tell_ok : nat -> bool;       (* [mailbox.send] accepts *)
  env_system_ok : nat -> bool;     (* a lifecycle message is accepted *)
  env_mailbox_ok : nat -> bool;    (* [create_mailbox] succeeds *)
  env_suspension : bool;           (* the mailbox supports suspension *)
  env_is_local : nat -> bool;      (* the reference is a [LocalActorRef] *)
  env_arrivals : nat -> list (list M);   (* sent by others between rounds of a replay *)
}.
Context (app : App).

(** What the actor does to the outside. *)
Inductive action :=
  | AReceive (m : M)                        (* the behaviour receives a message *)
  | ATell (m : M)                           (* to its own mailbox *)
  | ASendSystem (target : nat) (msg : sysmsg)
  | ASendSelf (msg : sysmsg)
  | AStopUser                               (* undelivered messages become dead letters *)
  | APostStop                               (* the behaviour is told *)
  | ARemoveFromParent (parent : nat)
  | AClose                                  (* the actor's reference is closed *)
  | AUnregister
  | AStarted (ok : bool)                    (* the start future completes *)
  | AStopped.                               (* the stop future completes *)

Record ctx := mkCtx {
  state : ActorState;
  self : nat;
  parent : option nat;
  children : list (nat * pystr);            (* child and its name, in order *)
  current : behavior;
  initial_behavior : behavior;
  stashed : list M;
  stash_capacity : Z;
  suspended : bool;
  restart_pending : bool;
  started : bool;
  stopped : bool;
  has_mailbox : bool;
  clock : nat;
}.

Definition set_state (c : ctx) (s : ActorState) : ctx :=
  mkCtx s (self c) (parent c) (children c) (current c) (initial_behavior c) (stashed c)
    (stash_capacity c) (suspended c) (restart_pending c) (started c) (stopped c)
    (has_mailbox c) (clock c).
Definition set_children (c : ctx) (k : list (nat * pystr)) : ctx :=
  mkCtx (state c) (self c) (parent c) k (current c) (initial_behavior c) (stashed c)
    (stash_capacity c) (suspended c) (restart_pending c) (started c) (stopped c)
    (has_mailbox c) (clock c).
Definition set_current (c : ctx) (b : behavior) : ctx :=
  mkCtx (state c) (self c) (parent c) (children c) b (initial_behavior c) (stashed c)
    (stash_capacity c) (suspended c) (restart_pending c) (started c) (stopped c)
    (has_mailbox c) (clock c).
Definition set_stashed (c : ctx) (s : list M) : ctx :=
  mkCtx (state c) (self c) (parent c) (children c) (current c) (initial_behavior c) s
    (stash_capacity c) (suspended c) (restart_pending c) (started c) (stopped c)
    (has_mailbox c) (clock c).
Definition set_suspended (c : ctx) (v : bool) : ctx :=
  mkCtx (state c) (self c) (parent c) (children c) (current c) (initial_behavior c) (stashed c)
    (stash_capacity c) v (restart_pending c) (started c) (stopped c) (has_mailbox c) (clock c).
Definition set_restart_pending (c : ctx) (v : bool) : ctx :=
  mkCtx (state c) (self c) (parent c) (children c) (current c) (initial_behavior c) (stashed c)
    (stash_capacity c) (suspended c) v (started c) (stopped c) (has_mailbox c) (clock c).
Definition set_started (c : ctx) : ctx :=
  mkCtx (state c) (self c) (parent c) (children c) (current c) (initial_behavior c) (stashed c)
    (stash_capacity c) (suspended c) (restart_pending c) true (stopped c) (has_mailbox c) (clock c).
Definition set_stopped (c : ctx) : ctx :=
  mkCtx (state c) (self c) (parent c) (children c) (current c) (initial_behavior c) (stashed c)
    (stash_capacity c) (suspended c) (restart_pending c) (started c) true (has_mailbox c) (clock c).
Definition set_mailbox (c : ctx) : ctx :=
  mkCtx (state c) (self c) (parent c) (children c) (current c) (initial_behavior c) (stashed c)
    (stash_capacity c) (suspended c) (restart_pending c) (started c) (stopped c) true (clock c).
Definition tick (c : ctx) : ctx :=
  mkCtx (state c) (self c) (parent c) (children c) (current c) (initial_behavior c) (stashed c)
    (stash_capacity c) (suspended c) (restart_pending c) (started c) (stopped c)
    (has_mailbox c) (S (clock c)).

(** [LocalActorContext.__init__], without the attachment to the parent. *)
Definition ctx_new (self : nat) (parent : option nat) (b : behavior) (stash_capacity : Z) :
    result ctx :=
  raise_unless (0 <? stash_capacity) ValueError ≫= fun _ =>
  Ok (mkCtx NEW self parent [] b b [] stash_capacity false false false false false 0).

(** * The monad of context methods *)

Definition CM (A : Type) : Type := ctx -> ctx * list action * outcome A.

Definition cm_ret {A} (a : A) : CM A := fun c => (c, [], Return a).
Definition cm_raise {A} : CM A := fun c => (c, [], Raise).
Definition cm_bind {A B} (m : CM A) (k : A -> CM B) : CM B := fun c =>
  match m c with
  | (c', acts, Return a) => let '(c'', acts', out) := k a c' in (c'', acts ++ acts', out)
  | (c', acts, Raise) => (c', acts, Raise)
  | (c', acts, RaiseBase) => (c', acts, RaiseBase)
  end.
Definition modify (f : ctx -> ctx) : CM unit := fun c => (f c, [], Return tt).
Definition get : CM ctx := fun c => (c, [], Return c).
Definition emit (a : action) : CM unit := fun c => (c, [a], Return tt).

(** [try: m except Exception: h], and [except BaseException]. *)
Definition catch {A} (m h : CM A) : CM A := fun c =>
  match m c with
  | (c', acts, Raise) => let '(c'', acts', out) := h c' in (c'', acts ++ acts', out)
  | r => r
  end.
Definition catch_all {A} (m h : CM A) : CM A := fun c =>
  match m c with
  | (c', acts, Return a) => (c', acts, Return a)
  | (c', acts, _) => let '(c'', acts', out) := h c' in (c'', acts ++ acts', out)
  end.

(** [try: m finally: h]. *)
Definition try_finally {A} (m : CM A) (h : CM unit) : CM A := fun c =>
  let '(c', acts, out) := m c in
  match h c' with
  | (c'', acts', Return _) => (c'', acts ++ acts', out)
  | (c'', acts', Raise) => (c'', acts ++ acts', Raise)
  | (c'', acts', RaiseBase) => (c'', acts ++ acts', RaiseBase)
  end.
End actor.

Declare Scope cm_scope.
Delimit Scope cm_scope with cm.
Notation "x <- m ;; k" := (cm_bind m (fun x => k))
  (at level 60, m at next level, right associativity) : cm_scope.
Notation "m ;;; k" := (cm_bind m (fun _ => k))
  (at level 60, right associativity) : cm_scope.

Section methods.
Context {M U : Type} (app : App (M := M) (U := U)).
Local Open Scope cm_scope.
Abbreviation ctx := (ctx (M := M) (U := U)).
Abbreviation CM := (CM (M := M) (U := U)).
Abbreviation behavior := (behavior (M := M) (U := U)).
Abbreviation sysmsg := (sysmsg (M := M) (U := U)).
Abbreviation action := (action (M := M) (U := U)).

Definition when_ (b : bool) (m : CM unit) : CM unit := if b then m else cm_ret tt.

(** * Children *)

Definition is_stopping (s : ActorState) : bool :=
  match s with STOPPING | STOPPED => true | _ => false end.

(** [attach_child]: refused while stopping or when the name is taken. *)
Definition attach_child (child : nat) (name : pystr) (c : ctx) : result ctx :=
  raise_unless (negb (is_stopping (state c))) RuntimeError ≫= fun _ =>
  raise_unless (negb (existsb (fun k : nat * pystr => bool_decide (k.2 = name)) (children c))) ValueError
  ≫= fun _ =>
  Ok (set_children c (filter (fun k : nat * pystr => k.1 <> child) (children c) ++ [(child, name)])).

Definition remove_child (child : nat) (c : ctx) : ctx :=
  set_children c (filter (fun k : nat * pystr => k.1 <> child) (children c)).

Definition children_count (c : ctx) : nat := length (children c).

(** * The stash *)

Definition _stash_locked (m : M) (c : ctx) : result ctx :=
  raise_unless (Z.of_nat (length (stashed c)) <? stash_capacity c) RuntimeError ≫= fun _ =>
  Ok (set_stashed c (stashed c ++ [m])).

Definition suspend_user_messages (c : ctx) : result ctx :=
  raise_unless (negb (has_mailbox c && negb (env_suspension app))) RuntimeError ≫= fun _ =>
  Ok (set_suspended c true).
Definition resume_user_messages (c : ctx) : ctx := set_suspended c false.

Definition or_unchanged (c : ctx) (r : result ctx) : ctx :=
  match r with Ok c' => c' | Err _ => c end.

(** The effects of a callback; one that is refused raises inside the callback. *)
Definition apply_effect (c : ctx) (e : effect (M := M)) : ctx :=
  match e with
  | Spawn child name => or_unchanged c (attach_child child name c)
  | Suspend => or_unchanged c (suspend_user_messages c)
  | Resume => resume_user_messages c
  | Stash m => or_unchanged c (_stash_locked m c)
  | ChildGone child => remove_child child c
  end.

(** Run a callback: it sees a fresh value of the counter. *)
Definition callback {A} (f : nat -> answer (M := M) A) : CM A := fun c =>
  let '(effects, out) := f (clock c) in (foldl apply_effect (tick c) effects, [], out).

(** * Behaviours *)

(** Defaults of [AbstractBehavior] for the constants and factories. *)
Definition receive_of (b : behavior) (m : M) : CM (option behavior) :=
  match b with
  | User u => callback (app_receive app u m)
  | NotABehavior => cm_raise
  | _ => cm_ret None
  end.
Definition on_signal_of (b : behavior) (msg : sysmsg) : CM unit :=
  match b with
  | User u => callback (app_on_signal app u msg)
  | NotABehavior => cm_raise
  | _ => cm_ret tt
  end.
Definition supervise_of (b : behavior) (child : nat) : CM SupervisorDirective :=
  match b with
  | User u => callback (app_supervise app u child)
  | NotABehavior => cm_raise
  | _ => cm_ret RESTART
  end.

(** [materialize_behaviour] on the current behaviour. *)
Fixpoint materialize (b : behavior) (c : ctx) :
    ctx * list action * outcome unit :=
  match b with
  | Deferred factory =>
      match factory (clock c) with
      | (effects, Return b') =>
          materialize b' (set_current (foldl apply_effect (tick c) effects) b')
      | (effects, Raise) => (foldl apply_effect (tick c) effects, [], Raise)
      | (effects, RaiseBase) => (foldl apply_effect (tick c) effects, [], RaiseBase)
      end
  | NotABehavior => (c, [], Raise)
  | _ => (c, [], Return tt)
  end.
Definition materialize_behaviour : CM unit := fun c => materialize (current c) c.

(** * Sending *)

(** [tell]: to the own mailbox, which may refuse. *)
Definition tell (m : M) : CM unit :=
  c <- get ;;
  if has_mailbox c then
    modify tick ;;;
    (if env_tell_ok app (clock c) then emit (ATell m) else cm_raise)
  else cm_ret tt.

(** [target.tell_system], which may raise. *)
Definition deliver (a : action) : CM unit :=
  c <- get ;;
  modify tick ;;;
  if env_system_ok app (clock c) then emit a else cm_raise.
Definition _send_system (target : nat) (msg : sysmsg) : CM unit :=
  deliver (ASendSystem target msg).

(** To the own mailbox, once there is one. *)
Definition tell_system (msg : sysmsg) : CM unit :=
  c <- get ;; when_ (has_mailbox c) (deliver (ASendSelf msg)).
Definition send_system (msg : sysmsg) : CM unit :=
  c <- get ;;
  match state c with
  | STOPPED => cm_ret tt
  | _ => tell_system msg
  end.

Definition stop : CM unit := send_system Stop.

(** [stash]: raises when the stash is full. *)
Definition stash (m : M) : CM unit :=
  c <- get ;;
  match _stash_locked m c with
  | Ok c' => modify (fun _ => c')
  | Err _ => cm_raise
  end.

(** [send]: the public entry point for user messages of a system actor. *)
Definition send (m : M) : CM unit :=
  c <- get ;;
  if is_stopping (state c) then cm_ret tt
  else if match state c with
          | NEW | FAILED => true
          | STARTING => restart_pending c
          | _ => false
          end
  then stash m
  else tell m.

Fixpoint stop_each (ks : list (nat * pystr)) : CM unit :=
  match ks with
  | [] => cm_ret tt
  | k :: rest => _send_system k.1 Stop ;;; stop_each rest
  end.
Definition _stop_children : CM unit := c <- get ;; stop_each (children c).

(** * Starting *)

Fixpoint tell_all (ms : list M) : CM unit :=
  match ms with
  | [] => cm_ret tt
  | m :: rest => tell m ;;; tell_all rest
  end.

(** The replay loop of [_finish_start].  Other threads may [send] while a round
    is told to the mailbox: during a restart that fills the stash again.  The
    rounds of such arrivals are those of [env_arrivals], and end with it. *)
Definition arrive (c : ctx) (m : M) : ctx :=
  if restart_pending c then or_unchanged c (_stash_locked m c) else c.
Definition mark_running : CM unit :=
  modify (fun c => set_restart_pending (set_state c RUNNING) false).
Fixpoint replay (arrivals : list (list M)) : CM unit :=
  c <- get ;;
  match stashed c with
  | [] => mark_running
  | pending =>
      modify (fun c => set_stashed c []) ;;;
      tell_all pending ;;;
      match arrivals with
      | [] => mark_running
      | ms :: rest => modify (fun c => foldl arrive c ms) ;;; replay rest
      end
  end.
Definition _finish_start : CM unit :=
  c <- get ;;
  replay (env_arrivals app (clock c)) ;;;
  modify set_started ;;;
  emit (AStarted true).

Definition start : CM unit :=
  c <- get ;;
  match state c with
  | NEW =>
      modify (fun c => set_state c STARTING) ;;;
      (c <- get ;;
       modify tick ;;;
       if env_mailbox_ok app (clock c) then
         modify set_mailbox ;;; tell_system PreStart
       else modify (fun c => set_state c FAILED) ;;; cm_raise)
  | _ => cm_ret tt
  end.

(** * Stopping *)

(** The [finally] block of [_complete_stop]. *)
Definition finish_stop : CM unit :=
  emit AClose ;;; emit AUnregister ;;;
  modify (fun c => set_stashed c []) ;;;
  (c <- get ;; when_ (negb (started c)) (modify set_started ;;; emit (AStarted false))) ;;;
  modify set_stopped ;;; emit AStopped.

Definition _complete_stop : CM unit :=
  c <- get ;;
  match state c with
  | STOPPED => cm_ret tt
  | _ =>
      modify (fun c => set_state c STOPPED) ;;;
      emit AStopUser ;;;
      catch_all (emit APostStop ;;; (c <- get ;; on_signal_of (current c) PostStop)) (cm_ret tt) ;;;
      try_finally
        (c <- get ;;
         match parent c with
         | None => cm_ret tt
         | Some p => emit (ARemoveFromParent p) ;;; _send_system p (Terminated (self c))
         end)
        finish_stop
  end.

Definition abort_start : CM unit :=
  modify (fun c => set_state c FAILED) ;;; _complete_stop.

(** * Restarting *)

Definition _complete_restart : CM unit :=
  modify (fun c => set_suspended c false) ;;;
  modify (fun c => set_current c (initial_behavior c)) ;;;
  catch_all
    (materialize_behaviour ;;;
     (c <- get ;; on_signal_of (current c) PreStart) ;;;
     _finish_start)
    (modify (fun c => set_state c FAILED) ;;;
     modify (fun c => set_current c FailedBehavior) ;;;
     send_system Stop).

Definition _begin_restart : CM unit :=
  modify (fun c => set_state (set_restart_pending c true) STARTING) ;;;
  _stop_children ;;;
  (c <- get ;; when_ (children_count c =? 0)%nat _complete_restart).

(** * Failure and supervision *)

(** The behaviour's [actor_failed], whose exceptions are swallowed. *)
Definition failure_handler (b : behavior) : CM unit :=
  match b with
  | User u => callback (fun t => (app_actor_failed app u t, Return tt))
  | _ => cm_ret tt
  end.

Definition _fail : CM unit :=
  c <- get ;;
  if is_stopping (state c) then cm_ret tt
  else
    modify (fun c => set_state c FAILED) ;;;
    failure_handler (current c) ;;;
    modify (fun c => set_current c FailedBehavior) ;;;
    (c <- get ;; when_ (negb (started c)) (modify set_started ;;; emit (AStarted false))) ;;;
    (match parent c with
     | Some p => catch_all (_send_system p (Failed (self c))) (send_system Stop)
     | None => send_system Stop
     end).

Definition _handle_supervision (child : nat) (directive : SupervisorDirective) : CM unit :=
  match directive with
  | RESTART => when_ (env_is_local app child) (_send_system child Restart)
  | STOP => when_ (env_is_local app child) (_send_system child Stop)
  | ESCALATE =>
      c <- get ;;
      match parent c with
      | Some p => _send_system p (Failed child)
      | None => cm_ret tt
      end
  end.

Definition on_signal (msg : sysmsg) : CM unit :=
  c <- get ;;
  match msg with
  | Failed child =>
      directive <- supervise_of (current c) child ;; _handle_supervision child directive
  | _ => on_signal_of (current c) msg
  end.

(** * Invocation *)

Definition stop_requested : CM unit :=
  c <- get ;;
  when_ (negb (bool_decide (state c = STOPPING)))
    (modify (fun c => set_restart_pending (set_state c STOPPING) false) ;;;
     emit AStopUser ;;; _stop_children) ;;;
  (c <- get ;; when_ (children_count c =? 0)%nat _complete_stop).

Definition _invoke_system (msg : sysmsg) : CM unit :=
  c <- get ;;
  match state c with
  | STOPPED => cm_ret tt
  | _ =>
      catch
        (match msg with
         | PreStart =>
             when_ (bool_decide (state c = STARTING))
               (materialize_behaviour ;;; on_signal PreStart ;;; _finish_start)
         | Stop | Terminate => stop_requested
         | Terminated child =>
             modify (remove_child child) ;;;
             (c <- get ;;
              if bool_decide (state c = STOPPING) && (children_count c =? 0)%nat then _complete_stop
              else if restart_pending c && (children_count c =? 0)%nat then _complete_restart
              else cm_ret tt)
         | Restart => when_ (negb (is_stopping (state c))) _begin_restart
         | Failed _ => on_signal msg
         | Control applies deliver =>
             when_ (applies (current c)) (callback (deliver (current c)))
         | PostStop => on_signal msg
         end)
        _fail
  end.

Definition on_message (m : M) : CM unit :=
  catch
    (c <- get ;;
     emit (AReceive m) ;;;
     (reply <- receive_of (current c) m ;;
      match reply with
      | None | Some SameBehavior => cm_ret tt
      | Some (Deferred factory) =>
          b <- callback factory ;; modify (fun c => set_current c b)
      | Some StoppedBehavior => _invoke_system Stop
      | Some b => modify (fun c => set_current c b)
      end))
    _fail.

Definition _invoke (m : M) : CM unit :=
  c <- get ;;
  match state c with
  | STOPPING | STOPPED => cm_ret tt
  | NEW | STARTING | FAILED => stash m
  | RUNNING => if suspended c then cm_raise else on_message m
  end.

Definition can_process_user_messages (c : ctx) : bool :=
  bool_decide (state c = RUNNING) && negb (suspended c).

(** States in which unprocessed messages go back to the mailbox. *)
Definition keeps_messages (s : ActorState) : bool :=
  match s with STARTING | RUNNING | FAILED => true | _ => false end.

Inductive batch_result {Msg : Type} :=
  | BatchReturned (remaining : list Msg)
  | BatchFailed (remaining : list Msg).     (* [ActorBatchFailed] *)

(** The loop of [invoke_batch] for either kind of message. *)
Fixpoint run_batch {Msg : Type} (system : bool) (invoke : Msg -> CM unit) (ms : list Msg) (c : ctx) :
    ctx * list action * batch_result (Msg := Msg) :=
  match ms with
  | [] => (c, [], BatchReturned [])
  | m :: rest =>
      if negb system && negb (can_process_user_messages c) then
        (c, [], BatchReturned (if keeps_messages (state c) then ms else []))
      else
        match invoke m c with
        | (c1, acts, Return _) =>
            if negb system && negb (can_process_user_messages c1) then
              (c1, acts, BatchReturned (if keeps_messages (state c1) then rest else []))
            else
              let '(c2, acts', r) := run_batch system invoke rest c1 in (c2, acts ++ acts', r)
        | (c1, acts, _) =>
            let '(c2, acts', _) := _fail c1 in (c2, acts ++ acts', BatchFailed rest)
        end
  end.

Definition invoke_batch_user (ms : list M) : ctx -> ctx * list action * batch_result :=
  run_batch false _invoke ms.
Definition invoke_batch_system (ms : list sysmsg) : ctx -> ctx * list action * batch_result :=
  run_batch true _invoke_system ms.

(** [ActorRegistry.spawn] starts a new context; a failed start is cleaned up, and
    the exception is raised again. *)
Definition start_or_abort : CM unit :=
  catch_all start (catch_all abort_start (cm_ret tt) ;;; cm_raise).
End methods.
