(* ===== verification/ActorContextSpec.v ===== *)
(** The lifecycle of one actor, proved of [ActorContext].

    The methods of the context are composed with the combinators of its monad, so
    the properties are relations between the state before a method, the actions
    it makes and the state after it ([StepRel]: reflexive, and transitive when the
    actions are appended), each shown of the primitives and closed under the
    combinators:
    - [steady]: the lifecycle state is not touched and nothing final is done;
    - [lively]: an actor that is not stopping does not stop;
    - [life]: the lifecycle of a context: a stopped actor stays stopped, a
      stopping actor only stops, and the closing actions happen exactly when the
      actor stops;
    - [quiet]: no user message is received;
    - [stash_ok]: the stash stays within its capacity. *)

From stdpp Require Import base list numbers strings.
From S2P Require Import Prelude Bytes PyStr ActorContext.

Section relations.
Context {M U : Type}.
Abbreviation ctx := (ctx (M := M) (U := U)).
Abbreviation action := (action (M := M) (U := U)).
Abbreviation CM := (CM (M := M) (U := U)).

(** * Relations of a method *)

Definition rel := ctx -> list action -> ctx -> Prop.

Class StepRel (R : rel) : Prop := {
  step_refl c : R c [] c;
  step_trans c acts c' acts' c'' : R c acts c' -> R c' acts' c'' -> R c (acts ++ acts') c'';
}.

(** [m] started at [c] keeps [R], however it ends. *)
Definition keeps_at (R : rel) {A} (m : CM A) (c : ctx) : Prop := R c (m c).1.2 (m c).1.1.
Definition keeps (R : rel) {A} (m : CM A) : Prop := forall c, keeps_at R m c.

Section combinators.
Context (R : rel) `{!StepRel R}.

Lemma keeps_at_ret {A} (a : A) c : keeps_at R (cm_ret a) c.
Proof. apply step_refl. Qed.
Lemma keeps_at_raise {A} c : keeps_at R (cm_raise (A := A)) c.
Proof. apply step_refl. Qed.
Lemma keeps_at_get c : keeps_at R get c.
Proof. apply step_refl. Qed.

Lemma keeps_at_bind {A B} (m : CM A) (k : A -> CM B) c :
  keeps_at R m c ->
  (forall c' acts a, m c = (c', acts, Return a) -> keeps_at R (k a) c') ->
  keeps_at R (cm_bind m k) c.
Proof.
  unfold keeps_at, cm_bind. intros H1 H2.
  destruct (m c) as [[c' acts] [a| |]] eqn:E; cbn in *; auto.
  specialize (H2 c' acts a eq_refl). destruct (k a c') as [[c'' acts'] out]; cbn in *.
  by eapply step_trans.
Qed.

Lemma keeps_at_catch {A} (m h : CM A) c :
  keeps_at R m c -> (forall c' acts, m c = (c', acts, Raise) -> keeps_at R h c') ->
  keeps_at R (catch m h) c.
Proof.
  unfold keeps_at, catch. intros H1 H2.
  destruct (m c) as [[c' acts] [a| |]] eqn:E; cbn in *; auto.
  specialize (H2 c' acts eq_refl). destruct (h c') as [[c'' acts'] out]; cbn in *.
  by eapply step_trans.
Qed.

Lemma keeps_at_catch_all {A} (m h : CM A) c :
  keeps_at R m c ->
  (forall c' acts out, m c = (c', acts, out) -> keeps_at R h c') ->
  keeps_at R (catch_all m h) c.
Proof.
  unfold keeps_at, catch_all. intros H1 H2.
  destruct (m c) as [[c' acts] [a| |]] eqn:E; cbn in *; auto;
    specialize (H2 c' acts _ eq_refl); destruct (h c') as [[c'' acts'] out]; cbn in *;
    by eapply step_trans.
Qed.

Lemma keeps_at_finally {A} (m : CM A) h c :
  keeps_at R m c -> (forall c' acts out, m c = (c', acts, out) -> keeps_at R h c') ->
  keeps_at R (try_finally m h) c.
Proof.
  unfold keeps_at, try_finally. intros H1 H2.
  destruct (m c) as [[c' acts] out] eqn:E; cbn in *. specialize (H2 c' acts _ eq_refl).
  destruct (h c') as [[c'' acts'] [a| |]]; cbn in *; by eapply step_trans.
Qed.

Lemma keeps_at_get_bind {A} (k : ctx -> CM A) c :
  keeps_at R (k c) c -> keeps_at R (cm_bind get k) c.
Proof.
  unfold keeps_at, cm_bind, get. destruct (k c c) as [[? ?] ?]; cbn. done.
Qed.

(** Running a method step by step. *)
Lemma bind_get {A} (k : ctx -> CM A) c : cm_bind get k c = k c c.
Proof. unfold cm_bind, get. by destruct (k c c) as [[? ?] ?]. Qed.
Lemma bind_modify {A} f (k : unit -> CM A) c : cm_bind (modify f) k c = k tt (f c).
Proof. unfold cm_bind, modify. by destruct (k tt (f c)) as [[? ?] ?]. Qed.
Lemma bind_emit {A} a (k : unit -> CM A) c :
  cm_bind (emit a) k c = let '(c', acts, out) := k tt c in (c', a :: acts, out).
Proof. done. Qed.
Lemma bind_return {A B} (m : CM A) (k : A -> CM B) c c' acts a :
  m c = (c', acts, Return a) ->
  cm_bind m k c = let '(c'', acts', out) := k a c' in (c'', acts ++ acts', out).
Proof. unfold cm_bind. by intros ->. Qed.
Lemma bind_raise {A B} (m : CM A) (k : A -> CM B) c c' acts :
  m c = (c', acts, Raise) -> cm_bind m k c = (c', acts, Raise).
Proof. unfold cm_bind. by intros ->. Qed.
Lemma bind_return_ctx {A B} (m : CM A) (k : A -> CM B) c c' acts a :
  m c = (c', acts, Return a) -> (cm_bind m k c).1.1 = (k a c').1.1.
Proof. unfold cm_bind. intros ->. by destruct (k a c') as [[? ?] ?]. Qed.
Lemma bind_return_inv {A B} (m : CM A) (k : A -> CM B) c c' acts b :
  cm_bind m k c = (c', acts, Return b) ->
  exists c1 a1 a a2, m c = (c1, a1, Return a) /\ k a c1 = (c', a2, Return b) /\ acts = a1 ++ a2.
Proof.
  unfold cm_bind. destruct (m c) as [[c1 a1] [a| |]]; try done.
  destruct (k a c1) as [[c2 a2] out] eqn:E. intros [= <- <- ->]. eauto 10.
Qed.
Lemma match_not_stopped {A} (s : ActorState) (x y : A) :
  s <> STOPPED -> match s with STOPPED => x | _ => y end = y.
Proof. by destruct s. Qed.

Lemma keeps_bind {A B} (m : CM A) (k : A -> CM B) :
  keeps R m -> (forall a, keeps R (k a)) -> keeps R (cm_bind m k).
Proof. intros H1 H2 c. apply keeps_at_bind; auto. intros. apply H2. Qed.
Lemma keeps_catch {A} (m h : CM A) : keeps R m -> keeps R h -> keeps R (catch m h).
Proof. intros H1 H2 c. apply keeps_at_catch; auto. Qed.
Lemma keeps_catch_all {A} (m h : CM A) : keeps R m -> keeps R h -> keeps R (catch_all m h).
Proof. intros H1 H2 c. apply keeps_at_catch_all; auto. Qed.
Lemma keeps_finally {A} (m : CM A) h : keeps R m -> keeps R h -> keeps R (try_finally m h).
Proof. intros H1 H2 c. apply keeps_at_finally; auto. Qed.
Lemma keeps_ret {A} (a : A) : keeps R (cm_ret a).
Proof. intros c. apply keeps_at_ret. Qed.
Lemma keeps_raise {A} : keeps R (cm_raise (A := A)).
Proof. intros c. apply keeps_at_raise. Qed.
Lemma keeps_get : keeps R get.
Proof. intros c. apply keeps_at_get. Qed.
Lemma keeps_when b m : (b = true -> keeps R m) -> keeps R (when_ b m).
Proof. destruct b; cbn; auto using keeps_ret. Qed.
Lemma keeps_modify f : (forall c, R c [] (f c)) -> keeps R (modify f).
Proof. intros H c. apply H. Qed.
Lemma keeps_emit a : (forall c, R c [a] c) -> keeps R (emit a).
Proof. intros H c. apply H. Qed.

Lemma keeps_weaken {A} (R' : rel) (m : CM A) :
  keeps R' m -> (forall c acts c', R' c acts c' -> R c acts c') -> keeps R m.
Proof. intros H1 H2 c. apply H2, H1. Qed.
End combinators.

(** * The relations *)

Definition is_final (a : action) : bool :=
  match a with APostStop | AClose | AStopped => true | _ => false end.
(** What closes an actor, in order. *)
Definition finals (acts : list action) : list action := List.filter is_final acts.
Definition closing : list action := [APostStop; AClose; AStopped].

(** The messages received, and those told to the own mailbox. *)
Definition received (acts : list action) : list M :=
  omap (fun a => match a with AReceive m => Some m | _ => None end) acts.
Definition told (acts : list action) : list M :=
  omap (fun a => match a with ATell m => Some m | _ => None end) acts.

Definition steady : rel := fun c acts c' =>
  state c' = state c /\ stopped c' = stopped c /\ finals acts = [] /\
  (is_stopping (state c) = true -> incl (children c') (children c)).

Definition lively : rel := fun c acts c' =>
  is_stopping (state c) = false ->
  is_stopping (state c') = false /\ stopped c' = stopped c /\ finals acts = [] /\
  (state c <> NEW -> state c' <> NEW).

Definition life : rel := fun c acts c' =>
  (state c = STOPPED -> state c' = STOPPED) /\
  (is_stopping (state c) = true ->
     is_stopping (state c') = true /\ incl (children c') (children c)) /\
  (state c <> NEW -> state c' <> NEW) /\
  (state c <> STOPPED -> state c' = STOPPED ->
     finals acts = closing /\ children c' = [] /\ stopped c' = true) /\
  (state c = STOPPED \/ state c' <> STOPPED -> finals acts = [] /\ stopped c' = stopped c).

Definition quiet : rel := fun _ acts _ => received acts = [].

Definition stash_ok : rel := fun c _ c' =>
  stash_capacity c' = stash_capacity c /\
  (Z.of_nat (length (stashed c)) <= stash_capacity c ->
   Z.of_nat (length (stashed c')) <= stash_capacity c').

Lemma finals_app a b : finals (a ++ b) = finals a ++ finals b.
Proof. apply List.filter_app. Qed.
Lemma received_app a b : received (a ++ b) = received a ++ received b.
Proof. apply omap_app. Qed.
Lemma told_app a b : told (a ++ b) = told a ++ told b.
Proof. apply omap_app. Qed.

#[export] Instance steady_step : StepRel steady.
Proof.
  split.
  - intros c. repeat split; auto using incl_refl.
  - intros c acts c' acts' c'' (A1 & A2 & A3 & A4) (B1 & B2 & B3 & B4).
    repeat split; try congruence.
    + by rewrite finals_app, A3, B3.
    + intros Hs. eapply incl_tran; [apply B4; by rewrite A1|auto].
Qed.

#[export] Instance lively_step : StepRel lively.
Proof.
  split.
  - intros c Hs. auto.
  - intros c acts c' acts' c'' HA HB Hs.
    destruct (HA Hs) as (A1 & A2 & A3 & A4). destruct (HB A1) as (B1 & B2 & B3 & B4).
    repeat split; try congruence; auto. by rewrite finals_app, A3, B3.
Qed.

#[export] Instance quiet_step : StepRel quiet.
Proof.
  split; [done|]. intros c acts c' acts' c'' H1 H2. red. by rewrite received_app, H1, H2.
Qed.

#[export] Instance stash_ok_step : StepRel stash_ok.
Proof.
  split; [done|]. intros c acts c' acts' c'' (A1 & A2) (B1 & B2). split; [congruence|auto].
Qed.

#[export] Instance life_step : StepRel life.
Proof.
  split.
  - intros c. unfold life. repeat split; auto using incl_refl; tauto.
  - intros c acts c' acts' c'' (A1 & A2 & A3 & A4 & A5) (B1 & B2 & B3 & B4 & B5).
    split_and!.
    + auto.
    + intros Hs. destruct (A2 Hs) as [Hs' Hi]. destruct (B2 Hs') as [? Hi'].
      split; [done|]. eapply incl_tran; eauto.
    + auto.
    + intros H H0. rewrite finals_app.
      destruct (decide (state c' = STOPPED)) as [E|E].
      * destruct (A4 H E) as (-> & Hc & Ht). rewrite E in B2.
        destruct (B2 eq_refl) as [_ Hi]. rewrite Hc in Hi.
        destruct B5 as [-> ->]; [auto|]. by apply incl_l_nil in Hi.
      * destruct (B4 E H0) as (-> & ? & ?). destruct A5 as [-> _]; auto.
    + intros H. rewrite finals_app. destruct (decide (state c = STOPPED)) as [E|E].
      * destruct A5 as [-> A6]; [auto|]. destruct B5 as [-> B6]; [auto|]. split; [done|congruence].
      * destruct H as [H|H]; [done|].
        assert (state c' <> STOPPED) by (intros E'; apply H, B1, E').
        destruct A5 as [-> A6]; [auto|]. destruct B5 as [-> B6]; [auto|]. split; [done|congruence].
Qed.

Lemma steady_lively c acts c' : steady c acts c' -> lively c acts c'.
Proof. intros (A1 & A2 & A3 & _) Hs. rewrite A1. auto. Qed.
Lemma steady_life c acts c' : steady c acts c' -> life c acts c'.
Proof. intros (A1 & A2 & A3 & A4). unfold life. rewrite A1. repeat split; auto; done. Qed.
Lemma lively_life c acts c' : is_stopping (state c) = false -> lively c acts c' -> life c acts c'.
Proof.
  intros Hs (A1 & A2 & A3 & A4)%(fun H : lively c acts c' => H Hs). unfold life.
  destruct (state c), (state c'); try done; repeat split; auto; done.
Qed.
End relations.

(** Walk down a method; what is left are the facts of its primitives. *)
Create HintDb keeps discriminated.
Ltac keeps_step :=
  match goal with
  | |- keeps _ (cm_bind _ _) => apply keeps_bind; [| |intros ?]
  | |- keeps _ (catch _ _) => apply keeps_catch
  | |- keeps _ (catch_all _ _) => apply keeps_catch_all
  | |- keeps _ (try_finally _ _) => apply keeps_finally
  | |- keeps _ (when_ _ _) => apply keeps_when; [|intros ?]
  | |- keeps _ (cm_ret _) => apply keeps_ret
  | |- keeps _ cm_raise => apply keeps_raise
  | |- keeps _ get => apply keeps_get
  | |- keeps _ (if ?b then _ else _) => destruct b
  | |- keeps _ (match ?x with _ => _ end) => destruct x
  | |- keeps _ _ => solve [eauto with keeps]
  | |- StepRel _ => apply _
  | |- keeps _ (modify _) => apply keeps_modify; intros ?
  | |- keeps _ (emit _) => apply keeps_emit; intros ?
  end.
Ltac keeps_tac := repeat keeps_step.

(** * Methods that leave the lifecycle alone *)

Section methods.
Context {M U : Type} (app : App (M := M) (U := U)).
Abbreviation ctx := (ctx (M := M) (U := U)).
Abbreviation action := (action (M := M) (U := U)).
Abbreviation CM := (CM (M := M) (U := U)).
Abbreviation rel := (rel (M := M) (U := U)).

Definition neutral (a : action) : bool :=
  match a with AReceive _ | APostStop | AClose | AStopped => false | _ => true end.
Definition not_receive (a : action) : bool :=
  match a with AReceive _ => false | _ => true end.

(** Relations kept by callbacks. *)
Class Passive (R : rel) : Prop := {
  p_step :: StepRel R;
  n_effect c e : R c [] (apply_effect app c e);
  n_tick c : R c [] (tick c);
  n_current c b : R c [] (set_current c b);
}.

(** Relations kept by everything but a change of the lifecycle state, a final
    action or a receive. *)
Class Neutral (R : rel) : Prop := {
  n_passive :: Passive R;
  n_clear c : R c [] (set_stashed c []);
  n_started c : R c [] (set_started c);
  n_suspended c v : R c [] (set_suspended c v);
  n_emit c a : neutral a = true -> R c [a] c;
}.

(** Relations kept by everything but a receive. *)
Class Free (R : rel) : Prop := {
  f_neutral :: Neutral R;
  f_state c s : R c [] (set_state c s);
  f_pending c v : R c [] (set_restart_pending c v);
  f_stopped c : R c [] (set_stopped c);
  f_mailbox c : R c [] (set_mailbox c);
  f_emit c a : not_receive a = true -> R c [a] c;
}.

Lemma effect_frame (c : ctx) e :
  state (apply_effect app c e) = state c /\ stopped (apply_effect app c e) = stopped c /\
  stash_capacity (apply_effect app c e) = stash_capacity c.
Proof.
  destruct e; cbn; auto; unfold attach_child, suspend_user_messages, _stash_locked, raise_unless;
    repeat case_match; simplify_eq/=; auto.
Qed.
Lemma effect_children (c : ctx) e :
  is_stopping (state c) = true -> incl (children (apply_effect app c e)) (children c).
Proof.
  intros Hs. destruct e; cbn; unfold attach_child, suspend_user_messages, _stash_locked, raise_unless;
    rewrite ?Hs; cbn; repeat case_match; simplify_eq/=; auto using incl_refl.
  intros k [_ H]%list_elem_of_In%list_elem_of_filter. by apply list_elem_of_In.
Qed.

#[export] Instance steady_neutral : Neutral steady.
Proof.
  split; [split|..]; try (intros; repeat split; auto using incl_refl; fail).
  - apply _.
  - intros c e. destruct (effect_frame c e) as (? & ? & _).
    repeat split; auto using effect_children.
  - intros c [] H; try done; repeat split; auto using incl_refl.
Qed.
#[export] Instance lively_neutral : Neutral lively.
Proof.
  split; [split|..]; try (intros; apply steady_lively; by apply steady_neutral). apply _.
Qed.
#[export] Instance life_neutral : Neutral life.
Proof.
  split; [split|..]; try (intros; apply steady_life; by apply steady_neutral). apply _.
Qed.
#[export] Instance quiet_free : Free quiet.
Proof. split; [split; [split|..]|..]; try done; try apply _; by intros c [] H. Qed.
#[export] Instance stash_ok_free : Free stash_ok.
Proof.
  split; [split; [split|..]|..]; try done; try apply _.
  - intros c e. split; [apply effect_frame|].
    destruct e; cbn; unfold attach_child, suspend_user_messages, _stash_locked, raise_unless;
      repeat case_match; simplify_eq/=; auto.
    intros _. rewrite length_app. cbn. lia.
  - intros c. split; cbn; [done|]. lia.
Qed.

Section passive.
Context (R : rel) `{!Passive R}.

Lemma foldl_effects_keep es c : R c [] (foldl (apply_effect app) c es).
Proof.
  revert c. induction es as [|e es IH]; intros c; cbn; [apply step_refl|].
  apply (step_trans (R := R) c [] (apply_effect app c e) []); [apply n_effect|apply IH].
Qed.
Lemma callback_keeps {A} (f : nat -> answer A) : keeps R (callback app f).
Proof.
  intros c. unfold keeps_at, callback. destruct (f (clock c)) as [es out]; cbn.
  apply (step_trans (R := R) c [] (tick c) []); [apply n_tick|apply foldl_effects_keep].
Qed.
Lemma materialize_keeps : keeps R (materialize_behaviour app).
Proof.
  intros c. unfold keeps_at, materialize_behaviour. generalize (current c). intros b.
  revert c. revert b. fix IH 1. intros [factory| | | | |] c; cbn; try apply step_refl.
  pose proof (fun es => step_trans (R := R) c [] (tick c) [] _ (n_tick c)
                         (foldl_effects_keep es (tick c))) as He. cbn in He.
  destruct (factory (clock c)) as [es [b'| |]]; cbn; [|exact (He es)..].
  set (c1 := set_current (foldl (apply_effect app) (tick c) es) b').
  assert (R c [] c1) as H1
    by exact (step_trans (R := R) c [] _ [] c1 (He es) (n_current _ b')).
  pose proof (IH b' c1) as H2. exact (step_trans (R := R) c [] c1 _ _ H1 H2).
Qed.

Hint Resolve callback_keeps materialize_keeps : keeps.
Lemma receive_of_keeps b m : keeps R (receive_of app b m).
Proof. unfold receive_of. keeps_tac. Qed.
Lemma on_signal_of_keeps b msg : keeps R (on_signal_of app b msg).
Proof. unfold on_signal_of. keeps_tac. Qed.
Lemma failure_handler_keeps b : keeps R (failure_handler app b).
Proof. unfold failure_handler. keeps_tac. Qed.
Lemma supervise_of_keeps b child : keeps R (supervise_of app b child).
Proof. unfold supervise_of. keeps_tac. Qed.
End passive.
#[local] Hint Resolve callback_keeps materialize_keeps receive_of_keeps on_signal_of_keeps
  supervise_of_keeps failure_handler_keeps : keeps.
#[local] Hint Extern 1 (Passive _) => apply _ : keeps.

Section neutral.
Context (R : rel) `{!Neutral R}.

Lemma emit_keeps a : neutral a = true -> keeps R (emit a).
Proof. intros H. apply keeps_emit. intros c. by apply n_emit. Qed.
Lemma tick_keeps : keeps R (modify tick).
Proof. apply keeps_modify, n_tick. Qed.
Hint Resolve emit_keeps tick_keeps : keeps.

Lemma stash_keeps m : keeps R (stash m).
Proof.
  intros c. pose proof (n_effect (R := R) c (Stash m)) as H.
  unfold keeps_at, stash, cm_bind, get. cbn in *.
  destruct (_stash_locked m c); cbn in *; [done|apply step_refl].
Qed.
Lemma tell_keeps m : keeps R (tell app m).
Proof. unfold tell. keeps_tac. Qed.
Lemma deliver_keeps a : neutral a = true -> keeps R (deliver app a).
Proof. intros H. unfold deliver. keeps_tac. Qed.
Hint Resolve stash_keeps tell_keeps deliver_keeps : keeps.
Lemma send_to_keeps target msg : keeps R (_send_system app target msg).
Proof. by apply deliver_keeps. Qed.
Hint Resolve send_to_keeps : keeps.
Lemma tell_system_keeps msg : keeps R (tell_system app msg).
Proof. unfold tell_system. keeps_tac. Qed.
Hint Resolve tell_system_keeps : keeps.
Lemma send_system_keeps msg : keeps R (send_system app msg).
Proof. unfold send_system. keeps_tac. Qed.
Lemma stop_each_keeps ks : keeps R (stop_each app ks).
Proof. induction ks; cbn; keeps_tac. Qed.
Hint Resolve send_system_keeps stop_each_keeps : keeps.
Lemma stop_children_keeps : keeps R (_stop_children app).
Proof. unfold _stop_children. keeps_tac. Qed.
Lemma tell_all_keeps ms : keeps R (tell_all app ms).
Proof. induction ms; cbn; keeps_tac. Qed.
Lemma send_keeps m : keeps R (send app m).
Proof. unfold send. keeps_tac. Qed.
Lemma handle_supervision_keeps child d : keeps R (_handle_supervision app child d).
Proof. unfold _handle_supervision. keeps_tac. Qed.
Hint Resolve stop_children_keeps tell_all_keeps handle_supervision_keeps : keeps.
Lemma on_signal_keeps msg : keeps R (on_signal app msg).
Proof. unfold on_signal. keeps_tac. Qed.
Lemma remove_child_keeps child : keeps R (modify (remove_child child)).
Proof. apply keeps_modify. intros c. exact (n_effect (R := R) c (ChildGone child)). Qed.
Lemma set_current_keeps f : keeps R (modify (fun c => set_current c (f c))).
Proof. apply keeps_modify. intros c. apply n_current. Qed.
Lemma clear_keeps : keeps R (modify (fun c => set_stashed c [])).
Proof. apply keeps_modify. intros c. apply n_clear. Qed.
Lemma set_started_keeps : keeps R (modify set_started).
Proof. apply keeps_modify. intros c. apply n_started. Qed.
Lemma set_suspended_keeps v : keeps R (modify (fun c => set_suspended c v)).
Proof. apply keeps_modify. intros c. apply n_suspended. Qed.
Lemma arrive_keeps ms : keeps R (modify (fun c => foldl arrive c ms)).
Proof.
  apply keeps_modify. induction ms as [|m ms IH]; intros c; cbn; [apply step_refl|].
  apply (step_trans (R := R) c [] (arrive c m) []); [|apply IH].
  unfold arrive. destruct (restart_pending c); [|apply step_refl].
  exact (n_effect (R := R) c (Stash m)).
Qed.
Lemma mark_started_keeps ok :
  keeps R (cm_bind get (fun c => when_ (negb (started c))
             (cm_bind (modify set_started) (fun _ => emit (AStarted ok))))).
Proof. pose proof set_started_keeps. keeps_tac. Qed.
End neutral.
#[local] Hint Resolve emit_keeps tick_keeps stash_keeps tell_keeps deliver_keeps send_to_keeps
  tell_system_keeps send_system_keeps stop_each_keeps stop_children_keeps tell_all_keeps send_keeps
  handle_supervision_keeps on_signal_keeps remove_child_keeps set_current_keeps clear_keeps
  set_started_keeps set_suspended_keeps arrive_keeps mark_started_keeps : keeps.
#[local] Hint Extern 1 (Neutral _) => apply _ : keeps.

Section free.
Context (R : rel) `{!Free R}.

Lemma mark_running_free : keeps R mark_running.
Proof.
  apply keeps_modify. intros c.
  exact (step_trans (R := R) c [] (set_state c RUNNING) [] _ (f_state c RUNNING) (f_pending _ false)).
Qed.
Lemma emit_free a : not_receive a = true -> keeps R (emit a).
Proof. intros H. apply keeps_emit. intros c. by apply f_emit. Qed.
Lemma set_state_free s : keeps R (modify (fun c => set_state c s)).
Proof. apply keeps_modify. intros c. apply f_state. Qed.
Hint Resolve mark_running_free emit_free set_state_free : keeps.

Lemma replay_free arrivals : keeps R (replay app arrivals).
Proof.
  induction arrivals; cbn; keeps_tac.
Qed.
Hint Resolve replay_free : keeps.
Lemma finish_start_free : keeps R (_finish_start app).
Proof. unfold _finish_start. keeps_tac. Qed.
Lemma finish_stop_free : keeps R finish_stop.
Proof.
  unfold finish_stop. keeps_tac. apply f_stopped.
Qed.
Hint Resolve finish_start_free finish_stop_free : keeps.
Lemma complete_stop_free : keeps R (_complete_stop app).
Proof. unfold _complete_stop. keeps_tac. Qed.
Lemma complete_restart_free : keeps R (_complete_restart app).
Proof. unfold _complete_restart. keeps_tac. Qed.
Lemma fail_free : keeps R (_fail app).
Proof. unfold _fail. keeps_tac. Qed.
Hint Resolve complete_stop_free complete_restart_free fail_free : keeps.
Lemma begin_restart_free : keeps R (_begin_restart app).
Proof.
  unfold _begin_restart. keeps_tac.
  exact (step_trans (R := R) _ [] _ [] _ (f_pending _ true) (f_state _ STARTING)).
Qed.
Lemma stop_requested_free : keeps R (stop_requested app).
Proof.
  unfold stop_requested. keeps_tac.
  exact (step_trans (R := R) _ [] _ [] _ (f_state _ STOPPING) (f_pending _ false)).
Qed.
Hint Resolve begin_restart_free stop_requested_free : keeps.
Lemma invoke_system_free msg : keeps R (_invoke_system app msg).
Proof. unfold _invoke_system. keeps_tac. Qed.
Lemma abort_start_free : keeps R (abort_start app).
Proof. unfold abort_start. keeps_tac. Qed.
Lemma start_free : keeps R (start app).
Proof. unfold start. keeps_tac. apply f_mailbox. Qed.
End free.

(** * Restarting does not stop *)

Lemma set_state_lively s : is_stopping s = false -> s <> NEW ->
  keeps lively (modify (fun c : ctx => set_state c s)).
Proof. intros Hs Hn. apply keeps_modify. intros c _. auto. Qed.
Lemma mark_running_lively : keeps lively (mark_running : CM unit).
Proof. apply keeps_modify. intros c _. auto. Qed.
#[local] Hint Resolve mark_running_lively : keeps.
Lemma replay_lively arrivals : keeps lively (replay app arrivals).
Proof. induction arrivals; cbn; keeps_tac. Qed.
#[local] Hint Resolve replay_lively : keeps.
Lemma finish_start_lively : keeps lively (_finish_start app).
Proof. unfold _finish_start. keeps_tac. Qed.
#[local] Hint Resolve finish_start_lively : keeps.
Lemma complete_restart_lively : keeps lively (_complete_restart app).
Proof. pose proof (set_state_lively FAILED). unfold _complete_restart. keeps_tac; done. Qed.
#[local] Hint Resolve complete_restart_lively : keeps.
Lemma begin_restart_lively : keeps lively (_begin_restart app).
Proof. unfold _begin_restart. keeps_tac. done. Qed.

(** * Failing and stopping *)

Lemma fail_life : keeps life (_fail app).
Proof.
  intros c. apply keeps_at_get_bind. destruct (is_stopping (state c)) eqn:Hs.
  { apply keeps_at_ret, _. }
  apply lively_life; [done|]. apply keeps_bind; try apply _.
  { by apply (set_state_lively FAILED). }
  intros _. keeps_tac.
Qed.

Lemma steady_closes {A} (m : CM A) c :
  keeps steady m -> state c = STOPPED ->
  state (m c).1.1 = STOPPED /\ finals (m c).1.2 = [] /\ incl (children (m c).1.1) (children c).
Proof.
  intros Hm Hs. destruct (Hm c) as (H1 & _ & H2 & H3). rewrite Hs in *. auto.
Qed.
Lemma finish_stop_closes (c : ctx) :
  state c = STOPPED ->
  exists c' acts, finish_stop c = (c', acts, Return tt) /\ state c' = STOPPED /\
    stopped c' = true /\ children c' = children c /\ finals acts = [AClose; AStopped].
Proof.
  intros Hs. unfold finish_stop, cm_bind, emit, modify, get, when_; cbn.
  destruct (started c); cbn; eauto 10.
Qed.

Lemma finally_closes (m : CM unit) c :
  keeps steady m -> state c = STOPPED ->
  exists c' acts out, try_finally m finish_stop c = (c', acts, out) /\ state c' = STOPPED /\
    stopped c' = true /\ incl (children c') (children c) /\ finals acts = [AClose; AStopped].
Proof.
  intros Hm Hs. destruct (steady_closes m c Hm Hs) as (H1 & H2 & H3).
  unfold try_finally. destruct (m c) as [[c1 a1] out]. cbn [fst snd] in H1, H2, H3.
  destruct (finish_stop_closes c1 H1) as (c2 & a2 & -> & ? & ? & Hk & Hf).
  eexists _, _, _. split; [reflexivity|]. rewrite finals_app, H2, Hf, Hk. auto.
Qed.

Lemma post_stop_closes (m : CM unit) c :
  keeps steady m -> state c = STOPPED ->
  exists c' acts, catch_all (cm_bind (emit APostStop) (fun _ => m)) (cm_ret tt) c
      = (c', acts, Return tt) /\ state c' = STOPPED /\
    incl (children c') (children c) /\ finals acts = [APostStop].
Proof.
  intros Hm Hs. destruct (steady_closes m c Hm Hs) as (H1 & H2 & H3).
  unfold catch_all, cm_bind, emit, cm_ret. destruct (m c) as [[c1 a1] [[]| |]];
    cbn [fst snd] in H1, H2, H3; eexists _, _; (split; [reflexivity|]); rewrite ?app_nil_r;
    (split; [done|]); (split; [done|]); apply (f_equal (cons APostStop)), H2.
Qed.

Lemma complete_stop_closes c :
  state c <> STOPPED ->
  exists c' acts out, _complete_stop app c = (c', acts, out) /\ state c' = STOPPED /\
    stopped c' = true /\ incl (children c') (children c) /\ finals acts = closing.
Proof.
  intros Hs. unfold _complete_stop. rewrite bind_get.
  rewrite (match_not_stopped (state c)) by done.
  rewrite bind_modify, bind_emit.
  destruct (post_stop_closes (cm_bind get (fun c => on_signal_of app (current c) PostStop))
    (set_state c STOPPED)) as (c1 & a1 & E1 & H1 & Hc1 & Hf1); [keeps_tac|done|].
  rewrite (bind_return _ _ _ _ _ _ E1).
  match goal with |- context [try_finally ?m finish_stop] =>
    destruct (finally_closes m c1) as (c2 & a2 & out & E2 & ? & ? & Hc2 & Hf2);
      [keeps_tac|done|] end.
  rewrite E2. cbn. do 3 eexists. split; [reflexivity|].
  repeat split; [done..|by eapply incl_tran|].
  change (finals (a1 ++ a2) = closing). by rewrite finals_app, Hf1, Hf2.
Qed.

Lemma complete_stop_life_at c :
  children c = [] -> keeps_at life (_complete_stop app) c.
Proof.
  intros Hk. destruct (decide (state c = STOPPED)) as [Hs|Hs].
  { unfold keeps_at, _complete_stop. rewrite bind_get, Hs. apply step_refl. }
  unfold keeps_at. destruct (complete_stop_closes c Hs) as (c' & acts & out & -> & Hs' & Ht & Hi & Hf).
  cbn [fst snd]. rewrite Hk in Hi. apply incl_l_nil in Hi.
  unfold life. rewrite Hs', Hi, Ht. split_and!; auto using incl_nil_l; try done; intuition.
Qed.
Lemma no_children (c : ctx) : (children_count c =? 0)%nat = true -> children c = [].
Proof. unfold children_count. by destruct (children c). Qed.

Lemma stop_when_childless_life :
  keeps life (cm_bind get (fun c => when_ (children_count c =? 0)%nat (_complete_stop app))).
Proof.
  intros c. apply keeps_at_get_bind. unfold when_.
  destruct (children_count c =? 0)%nat eqn:E; [|apply keeps_at_ret, _].
  by apply complete_stop_life_at, no_children.
Qed.

Lemma stop_requested_life_at c : state c <> STOPPED -> keeps_at life (stop_requested app) c.
Proof.
  intros Hs. apply keeps_at_get_bind. apply keeps_at_bind; [apply _| |].
  - unfold when_. case_bool_decide; cbn; [apply keeps_at_ret, _|].
    apply keeps_at_bind; [apply _| |intros ???[=]; subst].
    + unfold keeps_at, life; cbn. repeat split; auto using incl_refl; done.
    + apply (keeps_bind life); [|intros _]; keeps_tac.
  - intros c' acts a _. apply stop_when_childless_life.
Qed.

Lemma terminated_life_at c :
  state c <> STOPPED ->
  keeps_at life (cm_bind get (fun c =>
     if bool_decide (state c = STOPPING) && (children_count c =? 0)%nat then _complete_stop app
     else if restart_pending c && (children_count c =? 0)%nat then _complete_restart app
     else cm_ret tt)) c.
Proof.
  intros Hs. apply keeps_at_get_bind. destruct (children_count c =? 0)%nat eqn:E.
  - rewrite !andb_true_r. case_bool_decide; [by apply complete_stop_life_at, no_children|].
    destruct (restart_pending c); [|apply keeps_at_ret, _].
    apply lively_life; [by destruct (state c)|apply complete_restart_lively].
  - rewrite !andb_false_r. apply keeps_at_ret, _.
Qed.

Lemma started_life_at c :
  is_stopping (state c) = false ->
  keeps_at life (cm_bind (materialize_behaviour app) (fun _ =>
     cm_bind (on_signal app PreStart) (fun _ => _finish_start app))) c.
Proof.
  intros Hs. apply lively_life; [done|].
  apply (keeps_bind lively); [|intros _; apply (keeps_bind lively); [|intros _]]; keeps_tac.
Qed.

Lemma invoke_system_life msg : keeps life (_invoke_system app msg).
Proof.
  intros c. apply keeps_at_get_bind. destruct (decide (state c = STOPPED)) as [Hs|Hs].
  { rewrite Hs. apply keeps_at_ret, _. }
  rewrite match_not_stopped by done. apply keeps_at_catch; [apply _| |intros; apply fail_life].
  destruct msg; cbn [when_].
  - unfold when_. case_bool_decide as E; [|apply keeps_at_ret, _]. apply started_life_at. by rewrite E.
  - apply (on_signal_keeps life).
  - by apply stop_requested_life_at.
  - by apply stop_requested_life_at.
  - destruct (is_stopping (state c)) eqn:E; cbn; [apply keeps_at_ret, _|].
    apply lively_life; [done|apply begin_restart_lively].
  - apply keeps_at_bind; [apply _|apply (remove_child_keeps life)|].
    intros c' acts a [=]; subst. by apply terminated_life_at.
  - apply (on_signal_keeps life).
  - unfold when_. destruct (applies _); [apply (callback_keeps life)|apply keeps_at_ret, _].
Qed.

(** * User messages *)

Lemma receive_life m : keeps life (emit (AReceive m) : CM unit).
Proof. apply keeps_emit. intros c. apply steady_life. repeat split; auto using incl_refl. Qed.
Lemma receive_stash_ok m : keeps stash_ok (emit (AReceive m) : CM unit).
Proof. by apply keeps_emit. Qed.
#[local] Hint Resolve receive_life receive_stash_ok invoke_system_life fail_life
  invoke_system_free fail_free : keeps.
#[local] Hint Extern 1 (Free _) => apply _ : keeps.

Lemma on_message_life m : keeps life (on_message app m).
Proof. unfold on_message. keeps_tac. Qed.
Lemma on_message_stash_ok m : keeps stash_ok (on_message app m).
Proof. unfold on_message. keeps_tac. Qed.
#[local] Hint Resolve on_message_life on_message_stash_ok : keeps.
Lemma invoke_life m : keeps life (_invoke app m).
Proof. unfold _invoke. keeps_tac. Qed.
Lemma invoke_stash_ok m : keeps stash_ok (_invoke app m).
Proof. unfold _invoke. keeps_tac. Qed.

(** A method after a first action. *)
Lemma received_bind_emit {A} a (m : CM A) c :
  received (cm_bind (emit a) (fun _ => m) c).1.2 = received [a] ++ received (m c).1.2.
Proof. rewrite bind_emit. destruct (m c) as [[c' acts] out]. apply (received_app [a] acts). Qed.
Lemma received_catch {A} (m h : CM A) c :
  keeps quiet h -> received (catch m h c).1.2 = received (m c).1.2.
Proof.
  intros Hh. unfold catch. destruct (m c) as [[c' acts] [a| |]]; try done.
  pose proof (Hh c') as H. unfold keeps_at, quiet in H. destruct (h c') as [[c'' acts'] out].
  cbn [fst snd] in *. by rewrite received_app, H, app_nil_r.
Qed.

(** [on_message] receives exactly its message. *)
Lemma on_message_received m c : received (on_message app m c).1.2 = [m].
Proof.
  unfold on_message. rewrite received_catch by (apply fail_free, _). rewrite bind_get.
  rewrite received_bind_emit. cbn [received omap list_omap].
  apply (f_equal (cons m)).
  match goal with |- received (?k c).1.2 = [] => assert (keeps quiet k) as H by keeps_tac end.
  apply H.
Qed.

Lemma run_batch_keeps (R : rel) `{!StepRel R} {Msg} system (invoke : Msg -> CM unit) ms c :
  (forall m, keeps R (invoke m)) -> keeps R (_fail app) ->
  R c (run_batch app system invoke ms c).1.2 (run_batch app system invoke ms c).1.1.
Proof.
  intros Hi Hf. revert c. induction ms as [|m ms IH]; intros c; cbn [run_batch]; [apply step_refl|].
  case_match; [apply step_refl|].
  pose proof (Hi m c) as H1. unfold keeps_at in H1.
  destruct (invoke m c) as [[c1 acts] [?| |]]; cbn [fst snd] in H1.
  - case_match; [done|]. specialize (IH c1).
    destruct (run_batch _ _ _ _ c1) as [[c2 acts'] r]. by eapply step_trans.
  - pose proof (Hf c1) as H2. unfold keeps_at in H2.
    destruct (_fail app c1) as [[c2 acts'] r]. by eapply step_trans.
  - pose proof (Hf c1) as H2. unfold keeps_at in H2.
    destruct (_fail app c1) as [[c2 acts'] r]. by eapply step_trans.
Qed.

(** * Runs

    Everything that happens to a context: [start] (with the clean-up of
    [ActorRegistry.spawn]), batches from its mailbox, and the calls of other
    threads. *)

Inductive op :=
  | OStart
  | OUser (ms : list M)
  | OSystem (msgs : list (sysmsg (M := M) (U := U)))
  | OSend (m : M)
  | OStash (m : M)
  | OStop
  | OEffect (e : effect (M := M)).

Definition exec (o : op) (c : ctx) : ctx * list action :=
  match o with
  | OStart => (start_or_abort app c).1
  | OUser ms => (invoke_batch_user app ms c).1
  | OSystem msgs => (invoke_batch_system app msgs c).1
  | OSend m => (send app m c).1
  | OStash m => (stash m c).1
  | OStop => (stop app c).1
  | OEffect e => (apply_effect app c e, [])
  end.

Fixpoint run (ops : list op) (c : ctx) : ctx * list action :=
  match ops with
  | [] => (c, [])
  | o :: ops =>
      let '(c1, a1) := exec o c in
      let '(c2, a2) := run ops c1 in (c2, a1 ++ a2)
  end.

Lemma run_keeps (R : rel) `{!StepRel R} ops (I : ctx -> Prop) c :
  I c -> (forall c o, I c -> R c (exec o c).2 (exec o c).1 /\ I (exec o c).1) ->
  R c (run ops c).2 (run ops c).1 /\ I (run ops c).1.
Proof.
  intros HI Ho. revert c HI. induction ops as [|o ops IH]; intros c HI; cbn [run].
  { split; [apply step_refl|done]. }
  destruct (Ho c o HI) as [H1 H2]. destruct (exec o c) as [c1 a1]; cbn [fst snd] in *.
  destruct (IH c1 H2) as [H3 H4]. destruct (run ops c1) as [c2 a2]; cbn [fst snd] in *.
  split; [by eapply step_trans|done].
Qed.

Lemma exec_stash_ok o c : stash_ok c (exec o c).2 (exec o c).1.
Proof.
  destruct o; cbn [exec].
  - assert (keeps stash_ok (start_or_abort app)) as H; [|apply H].
    pose proof (start_free stash_ok). pose proof (abort_start_free stash_ok).
    unfold start_or_abort. keeps_tac.
  - apply (run_batch_keeps stash_ok); [apply invoke_stash_ok|apply fail_free, _].
  - apply (run_batch_keeps stash_ok); [intros; apply invoke_system_free, _|apply fail_free, _].
  - apply (send_keeps stash_ok).
  - apply (stash_keeps stash_ok).
  - apply (send_system_keeps stash_ok).
  - apply (n_effect (R := stash_ok)).
Qed.

Lemma start_new c : state c = NEW ->
  exists c' acts out, start app c = (c', acts, out) /\ children c' = children c /\
    is_stopping (state c') = false /\ state c' <> NEW /\ finals acts = [] /\ stopped c' = stopped c.
Proof.
  intros Hs. unfold start. rewrite bind_get, Hs, bind_modify, bind_get, bind_modify.
  destruct (env_mailbox_ok _ _); rewrite bind_modify; [|by eexists _, _, _].
  unfold tell_system, deliver. rewrite bind_get. cbn [has_mailbox set_mailbox when_].
  rewrite bind_get, bind_modify. destruct (env_system_ok _ _); by eexists _, _, _.
Qed.

Lemma abort_start_life_at c :
  children c = [] -> is_stopping (state c) = false -> state c <> NEW ->
  keeps_at life (abort_start app) c.
Proof.
  intros Hk Hs Hn. apply keeps_at_bind; [apply _| |intros ??? [=]; subst].
  - apply lively_life; [done|]. by apply (set_state_lively FAILED).
  - by apply complete_stop_life_at.
Qed.

Lemma start_or_abort_life c :
  state c <> NEW \/ children c = [] ->
  life c (exec OStart c).2 (exec OStart c).1 /\ state (exec OStart c).1 <> NEW.
Proof.
  intros Hn. assert (keeps_at life (start_or_abort app) c /\
    (state c = NEW -> state (start_or_abort app c).1.1 <> NEW)) as [H1 H2].
  - unfold keeps_at, start_or_abort.
    destruct (decide (state c = NEW)) as [E|E]; [|].
    + destruct Hn as [Hn|Hn]; [done|].
      destruct (start_new c E) as (c1 & a1 & out & Es & Hk & Hs & Hn' & Hf & Ht).
      assert (life c a1 c1) as HL by (apply lively_life; [by rewrite E|intros _; auto]).
      set (cleanup := cm_bind _ _).
      assert (keeps_at life cleanup c1) as HA.
      { apply keeps_at_bind; [apply _| |intros; apply keeps_at_raise, _].
        apply keeps_at_catch_all; [apply _| |intros; apply keeps_at_ret, _].
        apply abort_start_life_at; congruence. }
      pose proof HA as (_ & _ & HN & _). clearbody cleanup.
      unfold keeps_at, catch_all in *. rewrite Es. destruct out; cbn [fst snd]; [auto|..];
        destruct (cleanup c1) as [[c2 a2] o]; cbn [fst snd] in *;
        (split; [by eapply (step_trans (R := life))|auto]).
    + unfold catch_all, start. rewrite bind_get.
      destruct (state c) eqn:Es; try done; (split; [apply (step_refl (R := life))|done]).
  - split; [exact H1|]. cbn [exec]. destruct (decide (state c = NEW)); [auto|].
    destruct H1 as (_ & _ & H1 & _). auto.
Qed.
Lemma exec_life o c :
  state c <> NEW -> life c (exec o c).2 (exec o c).1 /\ state (exec o c).1 <> NEW.
Proof.
  intros Hn. destruct o; [apply start_or_abort_life; auto|..];
    (match goal with |- life ?c ?a ?c' /\ _ => assert (life c a c') as H;
       [|split; [exact H|destruct H as (_ & _ & H & _); auto]] end); cbn [exec].
  - apply (run_batch_keeps life); [apply invoke_life|apply fail_life].
  - apply (run_batch_keeps life); [apply invoke_system_life|apply fail_life].
  - apply (send_keeps life).
  - apply (stash_keeps life).
  - apply (send_system_keeps life).
  - apply (n_effect (R := life)).
Qed.

(** Once stopping, an actor receives nothing. *)
Definition deaf : rel := fun c acts c' =>
  is_stopping (state c) = true -> is_stopping (state c') = true /\ received acts = [].
#[local] Instance deaf_step : StepRel deaf.
Proof.
  split; [done|]. intros c acts c' acts' c'' HA HB Hs.
  destruct (HA Hs) as [Hs' HA']. destruct (HB Hs') as [? HB']. by rewrite received_app, HA', HB'.
Qed.

Lemma exec_quiet o c : is_stopping (state c) = true -> received (exec o c).2 = [].
Proof.
  intros Hs. destruct o; cbn [exec]; [| |apply (run_batch_keeps quiet)|..].
  - assert (keeps quiet (start_or_abort app)) as H; [|apply H].
    pose proof (start_free quiet). pose proof (abort_start_free quiet).
    unfold start_or_abort. keeps_tac.
  - destruct ms; [done|]. cbn [invoke_batch_user run_batch]. unfold can_process_user_messages.
    by destruct (state c).
  - intros. apply invoke_system_free, _.
  - apply fail_free, _.
  - apply (send_keeps quiet).
  - apply (stash_keeps quiet).
  - apply (send_system_keeps quiet).
  - done.
Qed.

Lemma run_deaf ops c : state c <> NEW -> deaf c (run ops c).2 (run ops c).1.
Proof.
  intros Hn. apply (run_keeps deaf ops (fun c => state c <> NEW)); [done|].
  intros c' o Hn'. destruct (exec_life o c' Hn') as [HL ?]. split; [|done].
  intros Hs. split; [|by apply exec_quiet]. by apply HL.
Qed.
Lemma run_life ops c : state c <> NEW -> life c (run ops c).2 (run ops c).1 /\ state (run ops c).1 <> NEW.
Proof.
  intros Hn. apply (run_keeps life ops (fun c => state c <> NEW)); [done|].
  intros c' o Hn'. by apply exec_life.
Qed.
Lemma run_started_life ops c :
  state c = NEW -> children c = [] ->
  life c (run (OStart :: ops) c).2 (run (OStart :: ops) c).1 /\ state (run (OStart :: ops) c).1 <> NEW.
Proof.
  intros Hs Hk. destruct (start_or_abort_life c) as [H1 H2]; [auto|]. cbn [run].
  destruct (exec OStart c) as [c1 a1]; cbn [fst snd] in *.
  destruct (run_life ops c1 H2) as [H3 H4]. destruct (run ops c1) as [c2 a2]; cbn [fst snd] in *.
  split; [by eapply (step_trans (R := life))|done].
Qed.
Lemma run_stash_ok ops c : stash_ok c (run ops c).2 (run ops c).1.
Proof. apply (run_keeps stash_ok ops (fun _ => True)); [done|]. split; [apply exec_stash_ok|done]. Qed.

(** C15.  The lifecycle of an actor, over every sequence of batches and calls
    after its start, whatever the application and the environment answer: the
    closing actions (PostStop, the closing of the reference, the completion of the
    stop future) happen once each, in this order, exactly when the actor has
    stopped; it stops only without children; the stash stays within its capacity;
    once stopping it receives no message and never runs again, and once stopped
    it stays so and closes nothing again. *)
Theorem actor_lifecycle self parent b cap c0 ops c acts :
  ctx_new self parent b cap = Ok c0 ->
  run (OStart :: ops) c0 = (c, acts) ->
  finals acts = (if decide (state c = STOPPED) then closing else []) /\
  stopped c = bool_decide (state c = STOPPED) /\
  (state c = STOPPED -> children c = []) /\
  Z.of_nat (length (stashed c)) <= cap /\
  forall ops',
    let '(c', acts') := run ops' c in
    (is_stopping (state c) = true -> is_stopping (state c') = true /\ received acts' = []) /\
    (state c = STOPPED -> state c' = STOPPED /\ finals acts' = []).
Proof.
  intros Hn Hr. assert (0 < cap /\ c0 = mkCtx NEW self parent [] b b [] cap
    false false false false false 0) as [Hc ->].
  { unfold ctx_new, raise_unless in Hn. destruct (0 <? cap) eqn:E; simplify_eq/=.
    split; [by apply Z.ltb_lt|done]. }
  match type of Hr with run _ ?x = _ => set (c0 := x) in * end.
  destruct (run_started_life ops c0 eq_refl eq_refl) as [(_ & _ & _ & L4 & L5) HN].
  destruct (run_stash_ok (OStart :: ops) c0) as [Hcap Hst].
  rewrite Hr in *. cbn [fst snd] in *. split_and!.
  - case_decide; [by apply L4|by apply L5; auto].
  - case_bool_decide; [by apply L4|by apply L5; auto].
  - intros. by apply L4.
  - rewrite Hcap in Hst. apply Hst. cbn. lia.
  - intros ops'. pose proof (run_deaf ops' c HN) as HD.
    destruct (run_life ops' c HN) as [(L1 & _ & _ & _ & L5') _].
    destruct (run ops' c) as [c' acts']. cbn [fst snd] in *. split; [exact HD|].
    intros Hs. split; [auto|]. by apply L5'; auto.
Qed.

(** * Batches *)

Lemma invoke_running m c :
  can_process_user_messages c = true -> _invoke app m c = on_message app m c.
Proof.
  unfold can_process_user_messages, _invoke. rewrite bind_get.
  case_bool_decide as E; [|done]. rewrite E. by destruct (suspended c).
Qed.

(** A failed actor does not run. *)
Lemma fail_not_running c : can_process_user_messages (_fail app c).1.1 = false.
Proof.
  unfold can_process_user_messages. rewrite bool_decide_eq_false_2; [done|].
  unfold _fail. rewrite bind_get. destruct (is_stopping (state c)) eqn:Hs.
  { cbn. by destruct (state c). }
  rewrite bind_modify. set (c1 := set_state c FAILED).
  match goal with |- state (?m c1).1.1 <> _ => assert (keeps steady m) as H by keeps_tac end.
  destruct (H c1) as [-> _]. done.
Qed.

Lemma batch_fails m ms c1 a1 c' acts r :
  received a1 = [m] ->
  (let '(c2, acts', _) := _fail app c1 in (c2, a1 ++ acts', BatchFailed ms)) = (c', acts, r) ->
  exists n, received acts = take n (m :: ms) /\ (true = false -> n = 0%nat) /\
    match r with
    | BatchReturned rest =>
        rest = drop n (m :: ms) /\ (rest <> [] -> can_process_user_messages c' = false) \/
        rest = [] /\ keeps_messages (state c') = false
    | BatchFailed rest => rest = drop n (m :: ms) /\ can_process_user_messages c' = false
    end.
Proof.
  intros Hm. pose proof (fail_free quiet c1) as Hq. pose proof (fail_not_running c1) as Hr.
  unfold keeps_at, quiet in Hq. destruct (_fail app c1) as [[c2 a2] o].
  intros [= <- <- <-]. cbn [fst snd] in *. exists 1%nat.
  by rewrite received_app, Hm, Hq.
Qed.

(** The messages received from a batch, and what becomes of the rest. *)
Definition batch_law (ms : list M) (c c' : ctx) (acts : list action)
    (r : batch_result (Msg := M)) : Prop :=
  exists n,
    received acts = take n ms /\
    (can_process_user_messages c = false -> n = 0%nat) /\
    match r with
    | BatchReturned rest =>
        rest = drop n ms /\ (rest <> [] -> can_process_user_messages c' = false) \/
        rest = [] /\ keeps_messages (state c') = false
    | BatchFailed rest => rest = drop n ms /\ can_process_user_messages c' = false
    end.

Lemma batch_lawful ms c c' acts r :
  invoke_batch_user app ms c = (c', acts, r) -> batch_law ms c c' acts r.
Proof.
  unfold invoke_batch_user, batch_law. revert c c' acts r.
  induction ms as [|m ms IH]; intros c c' acts r; cbn [run_batch negb andb].
  { intros [= <- <- <-]. exists 0%nat. by split_and!; [..|left]. }
  destruct (can_process_user_messages c) eqn:Hp; cbn [negb].
  2: { intros [= <- <- <-]. exists 0%nat. cbn [take drop].
       destruct (keeps_messages (state c)) eqn:Hk; split_and!; auto. }
  rewrite (invoke_running m c Hp). pose proof (on_message_received m c) as Hm.
  destruct (on_message app m c) as [[c1 a1] out]; cbn [fst snd] in Hm.
  destruct out as [[]| |].
  - destruct (can_process_user_messages c1) eqn:Hp1; cbn [negb].
    + destruct (run_batch app false (_invoke app) ms c1) as [[c2 a2] r2] eqn:E.
      intros [= <- <- <-]. destruct (IH _ _ _ _ E) as (n & Hn & _ & Hr).
      exists (S n). by rewrite received_app, Hm, Hn.
    + intros [= <- <- <-]. exists 1%nat. cbn [take drop]. rewrite Hm, take_0.
      destruct (keeps_messages (state c1)) eqn:Hk; split_and!; auto; done.
  - apply (batch_fails m ms c1 a1 c' acts r Hm).
  - apply (batch_fails m ms c1 a1 c' acts r Hm).
Qed.

(** The contract between an actor and its mailbox ([invoke_batch] on user
    messages): the messages received are the first [n] of the batch, in order, none
    when the actor cannot process messages; what comes back for the mailbox to
    restore is exactly the rest, and only from an actor that cannot process
    messages now, unless the actor is stopping and gives the rest up; after a
    callback that raised past the actor ([ActorBatchFailed]) the rest comes back
    and the actor does not run. *)
Theorem batch_contract ms c c' acts r :
  invoke_batch_user app ms c = (c', acts, r) -> batch_law ms c c' acts r.
Proof. apply batch_lawful. Qed.

(** * Restarting *)

(** What callbacks do to the stash: they add to it. *)
Definition grows : rel := fun c acts c' =>
  (exists l, stashed c' = stashed c ++ l) /\ told acts = [] /\ has_mailbox c' = has_mailbox c.
#[local] Instance grows_step : StepRel grows.
Proof.
  split.
  - intros c. split_and!; [exists []; by rewrite app_nil_r|done..].
  - intros c acts c' acts' c'' ((l & A1) & A2 & A3) ((l' & B1) & B2 & B3). split_and!.
    + exists (l ++ l'). by rewrite B1, A1, app_assoc.
    + by rewrite told_app, A2, B2.
    + congruence.
Qed.
#[local] Instance grows_passive : Passive grows.
Proof.
  split; try apply _; try (intros c; split_and!; [exists []; by rewrite app_nil_r|done..]).
  - intros c e. unfold grows. destruct e; cbn;
      unfold attach_child, suspend_user_messages, _stash_locked, raise_unless;
      repeat case_match; simplify_eq/=; split_and!; try done; try (exists []; by rewrite app_nil_r).
    eauto.
  - intros c b. split_and!; [exists []; by rewrite app_nil_r|done..].
Qed.

Lemma tell_returns m c c' acts :
  has_mailbox c = true -> tell app m c = (c', acts, Return tt) ->
  told acts = [m] /\ stashed c' = stashed c /\ has_mailbox c' = true.
Proof.
  intros Hm. unfold tell. rewrite bind_get, Hm, bind_modify.
  destruct (env_tell_ok _ _); [|done]. by intros [= <- <-].
Qed.
Lemma tell_all_returns ms c c' acts :
  has_mailbox c = true -> tell_all app ms c = (c', acts, Return tt) ->
  told acts = ms /\ stashed c' = stashed c /\ has_mailbox c' = true.
Proof.
  revert c acts. induction ms as [|m ms IH]; intros c acts Hm; cbn [tell_all].
  { by intros [= <- <-]. }
  intros (c1 & a1 & [] & a2 & E1 & E2 & ->)%bind_return_inv.
  destruct (tell_returns m c c1 a1 Hm E1) as (H1 & H2 & H3).
  destruct (IH c1 a2 H3 E2) as (H4 & H5 & H6). rewrite told_app, H1, H4. split_and!; [done|congruence|done].
Qed.
Lemma arrive_mailbox ms (c : ctx) : has_mailbox (foldl arrive c ms) = has_mailbox c.
Proof.
  revert c. induction ms as [|m ms IH]; intros c; cbn; [done|]. rewrite IH.
  unfold arrive, _stash_locked, raise_unless. by repeat case_match; simplify_eq/=.
Qed.

(** The replay tells the stash in order, then what arrived meanwhile. *)
Lemma replay_returns arrivals c c' acts :
  has_mailbox c = true -> replay app arrivals c = (c', acts, Return tt) ->
  state c' = RUNNING /\ restart_pending c' = false /\ stashed c' = [] /\
  exists l, told acts = stashed c ++ l.
Proof.
  revert c acts. induction arrivals as [|ms arrivals IH]; intros c acts Hm; cbn [replay];
    rewrite bind_get; destruct (stashed c) as [|m pending] eqn:Es.
  - intros [= <- <-]. cbn. eauto.
  - rewrite bind_modify. intros (c1 & a1 & [] & a2 & E1 & E2 & ->)%bind_return_inv.
    apply tell_all_returns in E1; [|done]. destruct E1 as (H1 & H2 & H3).
    injection E2 as <- <-. rewrite app_nil_r. cbn. split_and!; try done. exists []. by rewrite app_nil_r.
  - intros [= <- <-]. cbn. eauto.
  - rewrite bind_modify. intros (c1 & a1 & [] & a2 & E1 & E2 & ->)%bind_return_inv.
    apply tell_all_returns in E1; [|done]. destruct E1 as (H1 & H2 & H3).
    rewrite bind_modify in E2. apply IH in E2; [|by rewrite arrive_mailbox].
    destruct E2 as (? & ? & ? & l & Hl). split_and!; try done.
    rewrite told_app, H1, Hl. eauto.
Qed.

(** What a completed restart leaves. *)
Definition restarted (c c' : ctx) (acts : list action) : Prop :=
  state c' = RUNNING /\ restart_pending c' = false /\ stashed c' = [] /\
  exists l, told acts = stashed c ++ l.
(** What a failure leaves. *)
Definition failed (c' : ctx) : Prop :=
  state c' = FAILED /\ current c' = FailedBehavior.

Definition same_behavior : rel := fun c _ c' => current c' = current c /\ state c' = state c.
#[local] Instance same_behavior_step : StepRel same_behavior.
Proof. split; [done|]. intros c ? c' ? c'' [] []. split; congruence. Qed.
Lemma deliver_same a : keeps same_behavior (deliver app a).
Proof. unfold deliver. keeps_tac; done. Qed.
#[local] Hint Resolve deliver_same : keeps.
Lemma send_system_same msg : keeps same_behavior (send_system app msg).
Proof. unfold send_system, tell_system. keeps_tac. Qed.
Lemma send_to_same target msg : keeps same_behavior (_send_system app target msg).
Proof. apply deliver_same. Qed.
#[local] Hint Resolve send_system_same send_to_same : keeps.

Lemma failure_handler_returns b c :
  exists c' acts, failure_handler app b c = (c', acts, Return tt).
Proof. destruct b; eexists _, _; reflexivity. Qed.
Lemma fail_failed c : is_stopping (state c) = false -> failed (_fail app c).1.1.
Proof.
  intros Hs. unfold _fail. rewrite bind_get, Hs, bind_modify.
  pose proof (failure_handler_keeps steady (current c) (set_state c FAILED)) as (H1 & _).
  destruct (failure_handler_returns (current c) (set_state c FAILED)) as (c1 & a1 & E).
  rewrite (bind_return_ctx _ _ _ _ _ _ E), bind_modify. rewrite E in H1.
  set (c2 := set_current c1 FailedBehavior).
  match goal with |- failed (?k c2).1.1 =>
    assert (keeps same_behavior k) as Hk by (keeps_tac; done) end.
  destruct (Hk c2) as [H2 H3]. split; [by rewrite H3|done].
Qed.

Lemma complete_restart_outcome c :
  has_mailbox c = true ->
  let '(c', acts, out) := _complete_restart app c in
  (out = Return tt /\ restarted c c' acts) \/ failed c'.
Proof.
  intros Hm. unfold _complete_restart. rewrite !bind_modify.
  set (c0 := set_current _ _). set (body := cm_bind (materialize_behaviour app) _).
  unfold catch_all. destruct (body c0) as [[c1 a1] out] eqn:E.
  assert (forall (h : CM unit) (l : list action),
    h = cm_bind (modify (fun c => set_state c FAILED)) (fun _ =>
          cm_bind (modify (fun c => set_current c FailedBehavior)) (fun _ => send_system app Stop)) ->
    let '(c', _, _) := (let '(c'', acts', out) := h c1 in (c'', l ++ acts', out)) in failed c') as HF.
  { intros h l ->. rewrite !bind_modify. destruct (send_system_same Stop
      (set_current (set_state c1 FAILED) FailedBehavior)) as [H1 H2].
    destruct (send_system app Stop _) as [[c3 a3] o]. done. }
  destruct out as [[]| |].
  2,3: specialize (HF _ a1 eq_refl); destruct (cm_bind _ _ c1) as [[c3 a3] o]; by right.
  left. split; [done|].
  apply bind_return_inv in E as (c2 & a2 & [] & a3 & E1 & E2 & ->).
  apply bind_return_inv in E2 as (c3 & a4 & [] & a5 & E2 & E3 & ->).
  destruct (materialize_keeps grows c0) as ((l1 & G1) & G2 & G3).
  assert (keeps grows (cm_bind get (fun c => on_signal_of app (current c) PreStart))) as Hg by keeps_tac.
  destruct (Hg c2) as ((l2 & G4) & G5 & G6). rewrite E1, E2 in *. cbn [fst snd] in *.
  unfold _finish_start in E3. rewrite bind_get in E3.
  apply bind_return_inv in E3 as (c4 & a6 & [] & a7 & E3 & E4 & ->).
  apply replay_returns in E3; [|by rewrite G6, G3].
  destruct E3 as (? & ? & ? & l3 & Hl). rewrite bind_modify in E4. injection E4 as <- <-.
  unfold restarted. cbn. split_and!; try done.
  rewrite !told_app, G2, G5, Hl, G4, G1. cbn. rewrite app_nil_r, <- !app_assoc. eauto.
Qed.

(** An actor that waits for its children to stop before it restarts. *)
Definition waiting (c c' : ctx) (acts : list action) : Prop :=
  restart_pending c' = true /\ children c' <> [] /\ stashed c' = stashed c /\ told acts = [].
Definition restart_result (c c' : ctx) (acts : list action) (out : outcome unit) : Prop :=
  (out = Return tt /\ restarted c c' acts) \/ failed c' \/ waiting c c' acts.

(** Sending leaves all but the counter alone. *)
Definition unchanged : rel := fun c acts c' =>
  told acts = [] /\ stashed c' = stashed c /\ children c' = children c /\
  has_mailbox c' = has_mailbox c /\ restart_pending c' = restart_pending c /\ state c' = state c.
#[local] Instance unchanged_step : StepRel unchanged.
Proof.
  split; [done|]. intros c ? c' ? c'' (A1 & ?) (B1 & ?). split; [by rewrite told_app, A1, B1|].
  intuition congruence.
Qed.
Lemma stop_each_unchanged ks : keeps unchanged (stop_each app ks).
Proof. induction ks; cbn; unfold _send_system, deliver; keeps_tac; done. Qed.

Lemma stop_each_outcome ks c : (stop_each app ks c).2 <> RaiseBase.
Proof.
  revert c. induction ks as [|k ks IH]; intros c; cbn [stop_each]; [done|].
  unfold _send_system, deliver, cm_bind at 1. rewrite bind_get, bind_modify.
  destruct (env_system_ok _ _); cbn; [|done]. specialize (IH (tick c)).
  by destruct (stop_each app ks (tick c)) as [[? ?] ?].
Qed.

Lemma restart_when_childless c0 c a0 :
  unchanged c0 a0 c -> has_mailbox c0 = true -> restart_pending c = true ->
  let '(c', acts, out) := when_ (children_count c =? 0)%nat (_complete_restart app) c in
  restart_result c0 c' (a0 ++ acts) out.
Proof.
  intros (U1 & U2 & U3 & U4 & U5 & U6) Hm Hp.
  destruct (children_count c =? 0)%nat eqn:Hk; cbn [when_].
  - pose proof (complete_restart_outcome c) as H. rewrite U4 in H. specialize (H Hm).
    destruct (_complete_restart app c) as [[c' acts] out]. unfold restart_result.
    destruct H as [[-> (H1 & H2 & H3 & l & H4)]|H]; [left|by right; left].
    split; [done|]. unfold restarted. rewrite told_app, U1, <- U2. eauto.
  - right. right. split_and!; try done.
    + intros E. unfold children_count in Hk. by rewrite E in Hk.
    + by rewrite app_nil_r.
Qed.

Lemma begin_restart_outcome c :
  has_mailbox c = true ->
  let '(c', acts, out) := _begin_restart app c in restart_result c c' acts out \/ out = Raise.
Proof.
  intros Hm. unfold _begin_restart. rewrite bind_modify.
  set (c0 := set_state _ STARTING). unfold _stop_children.
  pose proof (stop_each_unchanged (children c0) c0) as Hu.
  pose proof (stop_each_outcome (children c0) c0) as Ho. unfold keeps_at in Hu.
  destruct (stop_each app (children c0) c0) as [[c1 a1] out] eqn:E. cbn [fst snd] in Hu, Ho.
  assert (cm_bind get (fun c => stop_each app (children c)) c0 = (c1, a1, out)) as E'
    by by rewrite bind_get.
  destruct out as [[]| |]; [|rewrite (bind_raise _ _ _ _ _ E'); by right|done].
  rewrite (bind_return _ _ _ _ _ _ E'), bind_get.
  pose proof (restart_when_childless c0 c1 a1 Hu Hm) as H.
  destruct Hu as (_ & _ & _ & _ & Hp & _). specialize (H Hp).
  destruct (when_ _ _ c1) as [[c2 a2] out]. left. exact H.
Qed.

Lemma terminated_restart_outcome k c :
  has_mailbox c = true -> restart_pending c = true -> is_stopping (state c) = false ->
  let '(c', acts, out) := cm_bind (modify (remove_child k)) (fun _ => cm_bind get (fun c =>
     if bool_decide (state c = STOPPING) && (children_count c =? 0)%nat then _complete_stop app
     else if restart_pending c && (children_count c =? 0)%nat then _complete_restart app
     else cm_ret tt)) c in
  restart_result c c' acts out \/ out = Raise.
Proof.
  intros Hm Hp Hs. rewrite bind_modify, bind_get. set (c0 := remove_child k c).
  rewrite bool_decide_eq_false_2 by (cbn; intros E; by rewrite E in Hs).
  change (restart_pending c0) with (restart_pending c). rewrite Hp. cbn [andb].
  pose proof (restart_when_childless c0 c0 []) as H. unfold when_ in H.
  destruct (if (children_count c0 =? 0)%nat then _ else _) as [[c2 a2] out].
  left. by apply H.
Qed.

Lemma terminated_lively_at k c :
  is_stopping (state c) = false ->
  keeps_at lively (cm_bind (modify (remove_child k)) (fun _ => cm_bind get (fun c =>
     if bool_decide (state c = STOPPING) && (children_count c =? 0)%nat then _complete_stop app
     else if restart_pending c && (children_count c =? 0)%nat then _complete_restart app
     else cm_ret tt))) c.
Proof.
  intros Hs. apply keeps_at_bind; [apply _|apply (remove_child_keeps lively)|].
  intros c' acts a [=]; subst. apply keeps_at_get_bind.
  rewrite bool_decide_eq_false_2 by (cbn; intros E; by rewrite E in Hs).
  cbn [andb]. destruct (_ && _); [apply complete_restart_lively|apply keeps_at_ret, _].
Qed.

(** Restarting, whatever the application answers.  An actor told to restart,
    or one that awaits its children to restart and is told that one has
    terminated, ends in one of three ways: it runs, nothing is left stashed, and
    everything stashed before was told to its mailbox first and in order; or it
    has failed and its behaviour is the failed one; or it still has children to
    wait for, and its stash is untouched. *)
Theorem restart_outcome msg c c' acts out :
  is_stopping (state c) = false -> has_mailbox c = true ->
  msg = Restart \/ (restart_pending c = true /\ exists k, msg = Terminated k) ->
  _invoke_system app msg c = (c', acts, out) ->
  restart_result c c' acts out.
Proof.
  intros Hs Hm Hmsg. unfold _invoke_system. rewrite bind_get.
  rewrite match_not_stopped by (intros E; by rewrite E in Hs).
  set (body := match msg with PreStart => _ | _ => _ end).
  assert (let '(c', acts, out) := body c in restart_result c c' acts out \/ out = Raise) as Hb.
  { subst body. destruct Hmsg as [->|(Hp & k & ->)].
    - rewrite Hs. by apply begin_restart_outcome.
    - by apply terminated_restart_outcome. }
  assert (keeps_at lively body c) as HL.
  { subst body. destruct Hmsg as [->|(Hp & k & ->)].
    - rewrite Hs. apply begin_restart_lively.
    - by apply terminated_lively_at. }
  destruct (HL Hs) as [Hs' _]. clearbody body.
  unfold catch. destruct (body c) as [[c1 a1] o]. cbn [fst snd] in Hs'.
  destruct o as [[]| |]; [|pose proof (fail_failed c1 Hs') as HF|];
    try (intros [= <- <- <-]; destruct Hb; [done|done]).
  destruct (_fail app c1) as [[c2 a2] o]. intros [= <- <- <-]. by right; left.
Qed.

(** * Failing *)

(** The lifecycle messages sent. *)
Definition notices (acts : list action) : list action :=
  List.filter (fun a => match a with ASendSystem _ _ | ASendSelf _ => true | _ => false end) acts.
Lemma notices_app a b : notices (a ++ b) = notices a ++ notices b.
Proof. apply List.filter_app. Qed.

(** Callbacks keep the place of the actor in the hierarchy and send nothing
    by themselves. *)
Definition placed : rel := fun c acts c' =>
  self c' = self c /\ parent c' = parent c /\ notices acts = [] /\ state c' = state c.
#[local] Instance placed_step : StepRel placed.
Proof.
  split; [done|]. intros c ? c' ? c'' (? & ? & A1 & ?) (? & ? & B1 & ?).
  split_and!; [congruence|congruence|by rewrite notices_app, A1, B1|congruence].
Qed.
#[local] Instance placed_passive : Passive placed.
Proof.
  split; try done; try apply _. intros c e. unfold placed. destruct e; cbn;
    unfold attach_child, suspend_user_messages, _stash_locked, raise_unless;
    repeat case_match; simplify_eq/=; done.
Qed.

(** [_fail] tells the parent, when its mailbox accepts. *)
Lemma fail_notifies c p :
  is_stopping (state c) = false -> parent c = Some p -> (forall t, env_system_ok app t = true) ->
  exists c' acts, _fail app c = (c', acts, Return tt) /\
    notices acts = [ASendSystem p (Failed (self c))].
Proof.
  intros Hs Hp Hok. unfold _fail. rewrite bind_get, Hs, bind_modify.
  pose proof (failure_handler_keeps placed (current c) (set_state c FAILED)) as HP.
  destruct (failure_handler_returns (current c) (set_state c FAILED)) as (c1 & a1 & E).
  unfold keeps_at in HP. rewrite E in HP. destruct HP as (H1 & H2 & H3 & _). cbn [fst snd] in *.
  rewrite (bind_return _ _ _ _ _ _ E), bind_modify. set (c2 := set_current c1 FailedBehavior).
  assert (exists c3 a3, cm_bind get (fun c => when_ (negb (started c))
     (cm_bind (modify set_started) (fun _ => emit (AStarted false)))) c2 = (c3, a3, Return tt) /\
     notices a3 = []) as (c3 & a3 & E3 & H6).
  { rewrite bind_get. destruct (started c2); by eexists _, _. }
  rewrite (bind_return _ _ _ _ _ _ E3), Hp.
  unfold catch_all, _send_system, deliver. rewrite bind_get, bind_modify, Hok.
  eexists _, _. split; [reflexivity|]. by rewrite !notices_app, H3, H6.
Qed.

(** A callback that raises is isolated: the message counts as received, the
    actor is failed and does not process the rest of its batch, which goes back to
    the mailbox, and its supervisor is told once, when the supervisor's mailbox
    accepts. *)
Theorem user_failure_isolated u m rest c p c' acts r :
  can_process_user_messages c = true ->
  current c = User u -> (app_receive app u m (clock c)).2 = Raise ->
  parent c = Some p -> (forall t, env_system_ok app t = true) ->
  invoke_batch_user app (m :: rest) c = (c', acts, r) ->
  failed c' /\ r = BatchReturned rest /\ received acts = [m] /\
  notices acts = [ASendSystem p (Failed (self c))].
Proof.
  intros Hc Hu Hr Hp Hok. unfold invoke_batch_user. cbn [run_batch negb andb].
  rewrite Hc. cbn [negb]. rewrite (invoke_running m c Hc).
  pose proof (on_message_received m c) as Hm.
  assert (exists c1 a1, on_message app m c = (c1, a1, Return tt) /\ failed c1 /\
    notices a1 = [ASendSystem p (Failed (self c))]) as (c1 & a1 & E & HF & HN).
  { unfold on_message. unfold catch. rewrite bind_get, bind_emit, Hu.
    pose proof (callback_keeps placed (app_receive app u m) c) as HP. unfold keeps_at in HP.
    assert (exists c1, callback app (app_receive app u m) c = (c1, [], Raise)) as [c1 E].
    { unfold callback. destruct (app_receive app u m (clock c)) as [es o]. cbn in Hr. subst. eauto. }
    rewrite E in HP. destruct HP as (P1 & P2 & _ & P4). cbn [fst] in *.
    rewrite (bind_raise (receive_of app (User u) m) _ _ _ _ E).
    assert (is_stopping (state c1) = false) as Hs.
    { rewrite P4. revert Hc. unfold can_process_user_messages. by destruct (state c). }
    destruct (fail_notifies c1 p Hs) as (c2 & a2 & E2 & HN); [congruence|done|].
    pose proof (fail_failed c1 Hs) as HF. rewrite E2 in *. eexists _, _. split; [reflexivity|].
    rewrite notices_app, HN, P1. done. }
  rewrite E in *. cbn [fst snd] in *. destruct HF as [HF1 HF2].
  unfold can_process_user_messages. rewrite HF1. cbn. by intros [= <- <- <-].
Qed.
End methods.

(** * A concrete actor

    It raises on [0], stops on [1], spawns a child on [2] and suspends on [3]. *)
Module ActorRun.
Definition app : App (M := nat) (U := unit) := {|
  app_receive := fun _ m _ =>
    match m with
    | 0%nat => ([], Raise)
    | 1%nat => ([], Return (Some StoppedBehavior))
    | 2%nat => ([Spawn 7 (lit "child")], Return None)
    | 3%nat => ([Suspend], Return (Some SameBehavior))
    | _ => ([], Return None)
    end;
  app_on_signal := fun _ _ _ => ([], Return tt);
  app_supervise := fun _ _ _ => ([], Return RESTART);
  app_actor_failed := fun _ _ => [];
  env_tell_ok := fun _ => true;
  env_system_ok := fun _ => true;
  env_mailbox_ok := fun _ => true;
  env_suspension := true;
  env_is_local := fun _ => true;
  env_arrivals := fun _ => [[8%nat]];
|}.

Definition initial : behavior (M := nat) (U := unit) := Deferred (fun _ => ([], Return (User tt))).
Definition fresh := mkCtx (M := nat) NEW 5 (Some 1%nat) [] initial initial [] 4
  false false false false false 0.
Definition running : ctx := (run app [OStart; OSystem [PreStart]] fresh).1.

(** A life: two messages, a child, a stop that waits for the child. *)
Definition ops : list (op (M := nat) (U := unit)) :=
  [OSystem [PreStart]; OUser [4; 2; 1; 9]%nat; OSystem [Terminated 7]].

Lemma actor_lifecycle_witness :
  finals (run app (OStart :: ops) fresh).2 = closing /\
  state (run app (OStart :: ops) fresh).1 = STOPPED.
Proof.
  split; [|by vm_compute].
  destruct (run app (OStart :: ops) fresh) as [c acts] eqn:E.
  destruct (actor_lifecycle app 5 (Some 1%nat) initial 4 fresh ops c acts eq_refl E) as [H _].
  cbn [snd]. rewrite H. clear H. assert (c = (run app (OStart :: ops) fresh).1) as -> by by rewrite E.
  by vm_compute.
Defined.

(** The batch stops at the message that suspends the actor. *)
Lemma batch_contract_witness :
  exists n, received (invoke_batch_user app [4; 3; 9]%nat running).1.2 = take n [4; 3; 9]%nat /\ n = 2%nat.
Proof.
  destruct (invoke_batch_user app [4; 3; 9]%nat running) as [[c acts] r] eqn:E.
  destruct (batch_contract app _ _ _ _ _ E) as (n & H & _). exists n. cbn [fst snd]. split; [done|].
  assert (received acts = [4; 3]%nat) as H1.
  { change acts with (c, acts, r).1.2. rewrite <- E. by vm_compute. }
  rewrite H1 in H. destruct n as [|[|[|]]]; [done|done|done|]. cbn in H. by destruct n.
Defined.

(** Two stashed messages are told before the one that arrives meanwhile. *)
Definition stashing : ctx := set_stashed running [10; 11]%nat.
Lemma restart_outcome_witness :
  restart_result stashing (_invoke_system app Restart stashing).1.1
    (_invoke_system app Restart stashing).1.2 (_invoke_system app Restart stashing).2 /\
  told (_invoke_system app Restart stashing).1.2 = [10; 11; 8]%nat.
Proof.
  split; [|by vm_compute]. apply (restart_outcome app Restart stashing); [by vm_compute..|auto|].
  by vm_compute.
Defined.

Lemma user_failure_isolated_witness :
  notices (invoke_batch_user app [0; 4]%nat running).1.2 = [ASendSystem 1 (Failed 5)].
Proof.
  destruct (invoke_batch_user app [0; 4]%nat running) as [[c acts] r] eqn:E.
  exact (proj2 (proj2 (proj2 (user_failure_isolated app tt 0%nat [4%nat] running 1%nat c acts r
    eq_refl eq_refl eq_refl eq_refl (fun _ => eq_refl) E)))).
Defined.
End ActorRun.
