(* ===== verification/ActorPath.v ===== *)
(** Actor paths: [movie/actor/path.py].

    [Address], [ActorPath] with its two classes, and the parsers.  Of the standard
    library the code uses [ipaddress.IPv6Address] (the canonical text of an
    address, [IPv6.canonical] below) and [uuid.UUID] (the suffix of a child's
    name, which the parsers refuse); the definitions take both as arguments, so
    the theorems hold for any such functions. *)

From stdpp Require Import base list numbers strings.
From S2P Require Import Prelude Bytes PyStr.

(** * Character classes *)

Definition is_alpha (c : Z) : bool := in_range 65 90 c || in_range 97 122 c.
Definition is_alnum (c : Z) : bool := is_alpha c || is_digit c.

(** [_PROTOCOL]: a letter, then letters, digits, [+], [.] and [-]. *)
Definition is_protocol (s : pystr) : bool :=
  match s with
  | [] => false
  | c :: rest =>
      is_alpha c && forallb (fun c => is_alnum c || (c =? 43) || (c =? 46) || (c =? 45)) rest
  end.

(** [_REMOTE_NAME]: 1 to 255 unreserved characters. *)
Definition _is_remote_name (s : pystr) : bool :=
  isascii s && (1 <=? len s) && (len s <=? 255) && forallb is_unreserved s.

(** [_HOST]: letters, digits, [.] and [-], with a letter or digit at both ends. *)
Definition is_host (s : pystr) : bool :=
  match head s, last s with
  | Some a, Some z =>
      is_alnum a && is_alnum z && forallb (fun c => is_alnum c || (c =? 46) || (c =? 45)) s
  | _, _ => false
  end.

(** [str(n)] of any integer. *)
Definition str_int (n : Z) : pystr := if n <? 0 then 45 :: str_of_Z (- n) else str_of_Z n.

(** [name.rsplit("#", 1)] when the separator occurs. *)
Definition rpartition (sep : Z) (s : pystr) : option (pystr * pystr) :=
  let '(after, found, before) := partition sep (reverse s) in
  if found then Some (reverse before, reverse after) else None.

Section paths.
Context (IPv6Address : pystr -> option pystr) (UUID : pystr -> option Z).

Definition _parse_port (value : pystr) : result Z :=
  raise_unless (negb (bool_decide (value = [])) && isascii value && forallb is_digit value)
    ValueError ≫= fun _ =>
  let port := int_of_digits value in
  raise_unless ((1 <=? port) && (port <=? 65535)) ValueError ≫= fun _ =>
  Ok port.

Definition _parse_endpoint (endpoint : pystr) : result (pystr * option Z) :=
  raise_unless (negb (bool_decide (endpoint = [])) && isascii endpoint) ValueError ≫= fun _ =>
  if starts_with (lit "[") endpoint then
    match find (lit "]") endpoint with
    | None => Err ValueError
    | Some closing =>
        let host := take (closing - 1) (drop 1 endpoint) in
        match IPv6Address host with
        | None => Err ValueError
        | Some canonical_host =>
            raise_unless (bool_decide (canonical_host = host)) ValueError ≫= fun _ =>
            match drop (S closing) endpoint with
            | [] => Ok (host, None)
            | c :: port_text =>
                raise_unless (c =? 58) ValueError ≫= fun _ =>
                _parse_port port_text ≫= fun port => Ok (host, Some port)
            end
        end
    end
  else
    raise_unless (Z.of_nat (length (filter (fun c => c = 58) endpoint)) <=? 1) ValueError
    ≫= fun _ =>
    let '(host, separator, port_text) := partition 58 endpoint in
    raise_unless (is_host host) ValueError ≫= fun _ =>
    if separator then _parse_port port_text ≫= fun port => Ok (host, Some port)
    else Ok (host, None).

(** * Addresses *)

Record Address := mkAddress {
  protocol : pystr;
  system : pystr;
  host : option pystr;
  port : option Z;
}.

(** The text of an endpoint: IPv6 hosts are bracketed. *)
Definition bracketed (h : pystr) : pystr :=
  if bool_decide (58 ∈ h) then lit "[" ++ h ++ lit "]" else h.

Definition Address_new (protocol system : pystr) (host : option pystr) (port : option Z) :
    result Address :=
  raise_unless (is_protocol protocol) ValueError ≫= fun _ =>
  raise_unless (_is_remote_name system) ValueError ≫= fun _ =>
  match host, port with
  | None, Some _ => Err ValueError
  | None, None => Ok (mkAddress protocol system None None)
  | Some _, None => Err ValueError
  | Some h, Some p =>
      _parse_endpoint (bracketed h ++ lit ":" ++ str_int p) ≫= fun '(h', p') =>
      raise_unless (bool_decide (h' = h /\ p' = Some p)) ValueError ≫= fun _ =>
      Ok (mkAddress protocol system (Some h) (Some p))
  end.

Definition address_str (a : Address) : pystr :=
  protocol a ++ lit "://" ++ system a ++
  match host a with
  | None => []
  | Some h => lit "@" ++ bracketed h ++
      match port a with None => [] | Some p => lit ":" ++ str_int p end
  end.

(** * Paths *)

Inductive ActorPath :=
  | RootActorPath (a : Address)
  | ChildActorPath (name : pystr) (parent : ActorPath) (uid : option Z).

Fixpoint address (p : ActorPath) : Address :=
  match p with
  | RootActorPath a => a
  | ChildActorPath _ parent _ => address parent
  end.

Definition name (p : ActorPath) : pystr :=
  match p with RootActorPath _ => lit "/" | ChildActorPath n _ _ => n end.

Fixpoint elements (p : ActorPath) : list pystr :=
  match p with
  | RootActorPath _ => [lit "/"]
  | ChildActorPath n parent _ => elements parent ++ [n]
  end.

Definition remote_path (p : ActorPath) : pystr := lit "/" ++ join (lit "/") (tail (elements p)).
Definition canonical (p : ActorPath) : pystr := address_str (address p) ++ remote_path p.

Definition is_remote_resolvable (p : ActorPath) : bool :=
  bool_decide (protocol (address p) = lit "movie") && _is_remote_name (system (address p))
  && (1 <? len (elements p)) && forallb _is_remote_name (tail (elements p)).

(** [__eq__]. *)
Definition path_eqb (p q : ActorPath) : bool := bool_decide (canonical p = canonical q).

Definition split_name_and_uid (name : pystr) : result (pystr * option Z) :=
  match rpartition 35 name with
  | None => Ok (name, None)
  | Some (plain_name, uid) =>
      match UUID uid with Some u => Ok (plain_name, Some u) | None => Err ValueError end
  end.

Definition ChildActorPath_new (name : pystr) (parent : ActorPath) (uid : option Z) :
    result ActorPath :=
  raise_unless (negb (bool_decide (35 ∈ name))) ValueError ≫= fun _ =>
  raise_unless (negb (bool_decide (47 ∈ name))) ValueError ≫= fun _ =>
  Ok (ChildActorPath name parent uid).

Definition child (p : ActorPath) (child : pystr) : result ActorPath :=
  split_name_and_uid child ≫= fun '(name, uid) => ChildActorPath_new name p uid.

Fixpoint add_children (p : ActorPath) (names : list pystr) : result ActorPath :=
  match names with
  | [] => Ok p
  | n :: rest => child p n ≫= fun p' => add_children p' rest
  end.

(** * Parsing *)

Definition parse_actor_path (value : pystr) : result ActorPath :=
  raise_unless (isascii value && negb (bool_decide (35 ∈ value)) && negb (bool_decide (63 ∈ value))
                && negb (bool_decide (37 ∈ value))) ValueError ≫= fun _ =>
  match find (lit "://") value with
  | None => Err ValueError
  | Some i =>
      let protocol := take i value in
      let '(authority, found, remote_path) := partition 47 (drop (i + 3) value) in
      raise_unless found ValueError ≫= fun _ =>
      raise_unless (bool_decide (protocol = lit "movie") && negb (bool_decide (authority = [])))
        ValueError ≫= fun _ =>
      let '(system, separator, endpoint) := partition 64 authority in
      raise_unless (_is_remote_name system) ValueError ≫= fun _ =>
      (if separator
       then _parse_endpoint endpoint ≫= fun '(h, p) => Ok (Some h, p)
       else Ok (None, None)) ≫= fun '(host, port) =>
      if bool_decide (remote_path = [])
      then Address_new protocol system host port ≫= fun a => Ok (RootActorPath a)
      else
        let elements := split_on 47 remote_path in
        raise_unless (forallb _is_remote_name elements) ValueError ≫= fun _ =>
        Address_new protocol system host port ≫= fun a =>
        add_children (RootActorPath a) elements ≫= fun path =>
        raise_unless (bool_decide (canonical path = value)) ValueError ≫= fun _ =>
        Ok path
  end.

Definition is_remote_actor_path (value : pystr) : bool :=
  starts_with (lit "/") value && negb (starts_with (lit "//") value)
  && forallb _is_remote_name (split_on 47 (drop 1 value)).
End paths.

(** * [str(ipaddress.IPv6Address(text))], or [None] where the constructor raises *)

Module IPv6.
Definition hex_value (c : Z) : option Z :=
  if in_range 48 57 c then Some (c - 48)
  else if in_range 97 102 c then Some (c - 87)
  else if in_range 65 70 c then Some (c - 55)
  else None.
Fixpoint hex_of (acc : Z) (s : pystr) : option Z :=
  match s with
  | [] => Some acc
  | c :: rest => match hex_value c with Some v => hex_of (acc * 16 + v) rest | None => None end
  end.
(** A group of up to four hexadecimal digits. *)
Definition hextet (s : pystr) : option Z :=
  if bool_decide (s = []) || (4 <? len s) then None else hex_of 0 s.

(** A dotted quad as two groups: no leading zeros. *)
Definition octet (s : pystr) : option Z :=
  if negb (bool_decide (s = [])) && isascii s && forallb is_digit s && (len s <=? 3)
     && (bool_decide (s = lit "0") || negb (bool_decide (head s = Some 48)))
     && (int_of_digits s <=? 255)
  then Some (int_of_digits s) else None.
Definition dotted (s : pystr) : option (list Z) :=
  match split_on 46 s with
  | [a; b; c; d] =>
      a ← octet a; b ← octet b; c ← octet c; d ← octet d;
      Some [a * 256 + b; c * 256 + d]
  | _ => None
  end.

(** The groups of one side of [::]. *)
Definition groups (parts : list pystr) : option (list Z) :=
  match last parts with
  | Some p =>
      if bool_decide (46 ∈ p) then
        lo ← mapM hextet (take (length parts - 1) parts); hi ← dotted p; Some (lo ++ hi)
      else mapM hextet parts
  | None => Some []
  end.

(** Eight groups: written out, or with [::] for one or more zero groups. *)
Definition parse (s : pystr) : option (list Z) :=
  match find (lit "::") s with
  | None =>
      gs ← groups (split_on 58 s); if bool_decide (length gs = 8%nat) then Some gs else None
  | Some i =>
      let part s := if bool_decide (s = []) then Some [] else groups (split_on 58 s) in
      hi ← part (take i s); lo ← part (drop (i + 2) s);
      if bool_decide (46 ∈ take i s) then None
      else if (length hi + length lo <? 8)%nat
      then Some (hi ++ replicate (8 - (length hi + length lo)) 0 ++ lo)
      else None
  end.

(** Lower-case hexadecimal without leading zeros, at most four digits. *)
Definition hex_digit (v : Z) : Z := if v <? 10 then v + 48 else v + 87.
Definition hex_str (v : Z) : pystr :=
  hex_digit <$>
    (if v <? 16 then [v] else if v <? 256 then [v / 16; v mod 16]
     else if v <? 4096 then [v / 256; (v / 16) mod 16; v mod 16]
     else [v / 4096; (v / 256) mod 16; (v / 16) mod 16; v mod 16]).

(** The first longest run of zero groups, as start and length. *)
Fixpoint zero_run (gs : list Z) : nat :=
  match gs with 0 :: rest => S (zero_run rest) | _ => 0%nat end.
Fixpoint longest (at_ : nat) (gs : list Z) : nat * nat :=
  match gs with
  | [] => (0, 0)%nat
  | _ :: rest =>
      let here := zero_run gs in
      let later := longest (S at_) rest in
      if (later.2 <=? here)%nat then (at_, here) else later
  end.
Definition text (gs : list Z) : pystr :=
  let '(start, n) := longest 0 gs in
  if (n <=? 1)%nat then join (lit ":") (hex_str <$> gs)
  else join (lit ":") (hex_str <$> take start gs) ++ lit "::"
       ++ join (lit ":") (hex_str <$> drop (start + n) gs).

(** IPv4-mapped addresses are printed with a dotted quad. *)
Definition print (gs : list Z) : pystr :=
  match gs with
  | [0; 0; 0; 0; 0; 65535; a; b] =>
      lit "::ffff:" ++ join (lit ".") (str_of_Z <$> [a / 256; a mod 256; b / 256; b mod 256])
  | _ => text gs
  end.

(** A scope follows [%]. *)
Definition canonical (s : pystr) : option pystr :=
  if bool_decide (47 ∈ s) then None
  else
    let '(addr, scoped, scope) := partition 37 s in
    if scoped && (bool_decide (scope = []) || bool_decide (37 ∈ scope)) then None
    else gs ← parse addr; Some (print gs ++ (if scoped then 37 :: scope else [])).
End IPv6.

Example ipv6_compresses : IPv6.canonical (lit "2001:0DB8:0:0:1:0:0:1") = Some (lit "2001:db8::1:0:0:1").
Proof. by vm_compute. Qed.
Example ipv6_mapped : IPv6.canonical (lit "::ffff:7f00:1") = Some (lit "::ffff:127.0.0.1").
Proof. by vm_compute. Qed.
Example ipv6_short : IPv6.canonical (lit "1:2:3") = None.
Proof. by vm_compute. Qed.
