(* ===== verification/ActorPathSpec.v ===== *)
(** Theorems on actor paths: the canonical text of a path is parsed back to the
    path, whatever the standard library says of IPv6 addresses, and the canonical
    text of the root is not checked. *)

From stdpp Require Import base list numbers strings.
From S2P Require Import Prelude Bytes PyStr ActorPath.

(** * Text *)

Lemma partition_found sep l r : sep ∉ l -> partition sep (l ++ sep :: r) = (l, true, r).
Proof.
  induction l as [|c l IH]; intros Hl; cbn [partition app].
  - by rewrite Z.eqb_refl.
  - apply not_elem_of_cons in Hl as [Hc Hl]. rewrite IH by done.
    destruct (Z.eqb_spec c sep); [congruence|done].
Qed.
Lemma partition_missing sep l : sep ∉ l -> partition sep l = (l, false, []).
Proof.
  induction l as [|c l IH]; intros Hl; cbn [partition]; [done|].
  apply not_elem_of_cons in Hl as [Hc Hl]. rewrite IH by done.
  destruct (Z.eqb_spec c sep); [congruence|done].
Qed.
Lemma find_skip_char d pat l b :
  d ∉ l -> find (d :: pat) (l ++ b) = (fun i => (length l + i)%nat) <$> find (d :: pat) b.
Proof.
  induction l as [|c l IH]; intros Hl; cbn [app length].
  - by destruct (find _ b).
  - apply not_elem_of_cons in Hl as [Hc Hl]. cbn [find].
    assert (is_prefix (d :: pat) (c :: l ++ b) = false) as ->.
    { apply not_true_iff_false. rewrite is_prefix_spec. intros [r [= ? _]]. done. }
    rewrite IH by done. by destruct (find _ b).
Qed.

(** Characters of a path: ASCII, and none of [#], [?], [%] and [/]. *)
Definition path_char (c : Z) : bool :=
  (c <? 128) && negb (c =? 35) && negb (c =? 63) && negb (c =? 37) && negb (c =? 47).

Lemma path_char_spec c : path_char c = true <-> c < 128 /\ c <> 35 /\ c <> 63 /\ c <> 37 /\ c <> 47.
Proof.
  unfold path_char. rewrite !andb_true_iff, !negb_true_iff, !Z.eqb_neq. lia.
Qed.
Lemma unreserved_spec c :
  is_unreserved c = true <->
  97 <= c <= 122 \/ 65 <= c <= 90 \/ 48 <= c <= 57 \/ c = 46 \/ c = 95 \/ c = 126 \/ c = 45.
Proof.
  unfold is_unreserved, in_range. rewrite !orb_true_iff, !andb_true_iff. lia.
Qed.
Lemma remote_name_chars s :
  _is_remote_name s = true -> s <> [] /\ Forall (fun c => is_unreserved c = true) s.
Proof.
  unfold _is_remote_name. rewrite !andb_true_iff. intros [[[_ H] _] Hf]. split.
  - intros ->. done.
  - apply Forall_forall. intros c Hc. rewrite forallb_forall in Hf. by apply Hf, list_elem_of_In.
Qed.
Lemma remote_name_path_chars s : _is_remote_name s = true -> forallb path_char s = true.
Proof.
  intros [_ H]%remote_name_chars. apply forallb_forall. intros c Hc%list_elem_of_In.
  rewrite Forall_forall in H. apply path_char_spec. specialize (H c Hc). apply unreserved_spec in H. lia.
Qed.
Lemma remote_name_without s c :
  _is_remote_name s = true -> is_unreserved c = false -> c ∉ s.
Proof.
  intros [_ H]%remote_name_chars Hc Hin. rewrite Forall_forall in H. by rewrite (H c Hin) in Hc.
Qed.

Definition text_char (c : Z) : bool := path_char c || (c =? 47).
Lemma text_char_spec c : text_char c = true <-> c < 128 /\ c <> 35 /\ c <> 63 /\ c <> 37.
Proof. unfold text_char. rewrite orb_true_iff, path_char_spec, Z.eqb_eq. lia. Qed.
Lemma text_accepted s :
  forallb text_char s = true ->
  isascii s && negb (bool_decide (35 ∈ s)) && negb (bool_decide (63 ∈ s))
  && negb (bool_decide (37 ∈ s)) = true.
Proof.
  intros H. rewrite forallb_forall in H.
  assert (forall c, c ∈ s -> c < 128 /\ c <> 35 /\ c <> 63 /\ c <> 37) as H'.
  { intros c Hc. by apply text_char_spec, H, list_elem_of_In. }
  rewrite !andb_true_iff, !negb_true_iff, !bool_decide_eq_false. split_and!.
  - apply forallb_forall. intros c Hc%list_elem_of_In. apply Z.ltb_lt. by apply H'.
  - intros Hc%H'. lia.
  - intros Hc%H'. lia.
  - intros Hc%H'. lia.
Qed.
Lemma path_text s : forallb path_char s = true -> forallb text_char s = true.
Proof.
  intros H. apply forallb_forall. intros c Hc. unfold text_char.
  rewrite forallb_forall in H. by rewrite (H c Hc).
Qed.
Lemma path_chars_no_slash s : forallb path_char s = true -> 47 ∉ s.
Proof. intros H Hc. rewrite forallb_forall in H. apply list_elem_of_In, H in Hc. by vm_compute in Hc. Qed.
Lemma forallb_join f sep parts :
  forallb f sep = true -> Forall (fun s => forallb f s = true) parts -> forallb f (join sep parts) = true.
Proof.
  intros Hs. induction 1 as [|p ps Hp _ IH]; [done|]. cbn [join].
  destruct ps; [done|]. by rewrite !forallb_app, Hp, Hs, IH.
Qed.
Lemma str_int_chars n : forallb path_char (str_int n) = true.
Proof.
  assert (forall m, 0 <= m -> forallb path_char (str_of_Z m) = true) as H.
  { intros m Hm. destruct (str_of_Z_spec m Hm) as (_ & Hd & _).
    apply forallb_forall. intros c Hc. rewrite forallb_forall in Hd.
    apply Hd, is_digit_spec in Hc. apply path_char_spec. lia. }
  unfold str_int. destruct (Z.ltb_spec n 0); [cbn [forallb]|]; rewrite H by lia; done.
Qed.

(** * Children *)

Section paths.
Context (IPv6Address : pystr -> option pystr) (UUID : pystr -> option Z).

(** The path below an address with the given names. *)
Definition path_of (a : Address) (names : list pystr) : ActorPath :=
  foldl (fun p n => ChildActorPath n p None) (RootActorPath a) names.

Lemma path_of_elements a names : tail (elements (path_of a names)) = names.
Proof.
  assert (forall p, elements (foldl (fun p n => ChildActorPath n p None) p names)
                    = elements p ++ names) as H.
  { induction names as [|n names IH]; intros p; cbn [foldl]; [by rewrite app_nil_r|].
    rewrite IH. cbn [elements]. by rewrite <- app_assoc. }
  unfold path_of. by rewrite H.
Qed.
Lemma path_of_address a names : address (path_of a names) = a.
Proof.
  assert (forall p, address (foldl (fun p n => ChildActorPath n p None) p names) = address p) as H.
  { induction names as [|n names IH]; intros p; cbn [foldl]; [done|]. by rewrite IH. }
  apply H.
Qed.

Lemma child_remote_name p n :
  _is_remote_name n = true -> child UUID p n = Ok (ChildActorPath n p None).
Proof.
  intros Hn. assert (35 ∉ n) as H35 by by apply remote_name_without.
  assert (47 ∉ n) as H47 by by apply remote_name_without.
  unfold child, split_name_and_uid, rpartition.
  rewrite partition_missing by by rewrite elem_of_reverse.
  cbn. unfold ChildActorPath_new. by rewrite !bool_decide_eq_false_2.
Qed.
Lemma add_children_remote names p :
  Forall (fun n => _is_remote_name n = true) names ->
  add_children UUID p names = Ok (foldl (fun p n => ChildActorPath n p None) p names).
Proof.
  intros H. revert p. induction H as [|n names Hn _ IH]; intros p; cbn [add_children foldl]; [done|].
  rewrite child_remote_name by done. cbn. apply IH.
Qed.

(** * Addresses *)

Definition authority (a : Address) : pystr :=
  system a ++ match host a with
              | None => []
              | Some h => 64 :: bracketed h ++
                  match port a with None => [] | Some p => lit ":" ++ str_int p end
              end.
(** Hosts that may stand in a path: all but scoped IPv6 addresses. *)
Definition host_ok (a : Address) : Prop :=
  match host a with None => True | Some h => forallb path_char h = true end.

Lemma bracketed_chars h : forallb path_char h = true -> forallb path_char (bracketed h) = true.
Proof.
  intros H. unfold bracketed. case_bool_decide; [|done]. by rewrite !forallb_app, H.
Qed.
Lemma authority_chars a :
  _is_remote_name (system a) = true -> host_ok a -> forallb path_char (authority a) = true.
Proof.
  intros Hs Hh. unfold authority, host_ok in *. rewrite forallb_app, remote_name_path_chars by done.
  destruct (host a) as [h|]; [|done]. cbn [forallb andb]. rewrite forallb_app, bracketed_chars by done.
  destruct (port a); [|done]. by rewrite forallb_app, str_int_chars.
Qed.

Lemma address_inv pr sy h p a :
  Address_new IPv6Address pr sy h p = Ok a ->
  a = mkAddress pr sy h p /\ _is_remote_name sy = true /\
  match h, p with
  | Some h, Some p => _parse_endpoint IPv6Address (bracketed h ++ lit ":" ++ str_int p) = Ok (h, Some p)
  | None, None => True
  | _, _ => False
  end.
Proof.
  unfold Address_new, raise_unless. destruct (is_protocol pr); [cbn|done].
  destruct (_is_remote_name sy) eqn:Hs; [cbn|done].
  destruct h as [h|], p as [p|]; try done; [|by intros [= <-]].
  destruct (_parse_endpoint _ _) as [[h' p']|] eqn:E; [cbn|done].
  case_bool_decide as Hc; [cbn|done]. destruct Hc as [-> ->]. by intros [= <-].
Qed.

(** * The round trip *)

(** The paths of the runtime: an accepted address of a [movie] system, and remote
    names. *)
Definition valid (p : ActorPath) : Prop :=
  exists sy h po a names, Address_new IPv6Address (lit "movie") sy h po = Ok a /\ host_ok a /\
    Forall (fun n => _is_remote_name n = true) names /\ p = path_of a names.

Lemma canonical_text a names :
  protocol a = lit "movie" ->
  canonical (path_of a names) = lit "movie://" ++ authority a ++ 47 :: join (lit "/") names.
Proof.
  intros Hp. unfold canonical, remote_path, address_str, authority.
  rewrite path_of_elements, path_of_address, Hp. rewrite <- !app_assoc. cbn.
  by destruct (host a).
Qed.

Lemma parse_authority sy h po a :
  Address_new IPv6Address (lit "movie") sy h po = Ok a ->
  exists endpoint separator, partition 64 (authority a) = (sy, separator, endpoint) /\
    (if separator then _parse_endpoint IPv6Address endpoint ≫= fun '(h, p) => Ok (Some h, p)
     else Ok (None, None)) = Ok (h, po).
Proof.
  intros (-> & Hs & He)%address_inv. unfold authority. cbn.
  assert (64 ∉ sy) as H64 by by apply remote_name_without.
  destruct h as [h|], po as [po|]; try done.
  - rewrite partition_found by done. eexists _, _. split; [done|]. cbn in He. cbn. by rewrite He.
  - rewrite app_nil_r, partition_missing by done. by eexists _, _.
Qed.

Lemma authority_nonempty a : _is_remote_name (system a) = true -> authority a <> [].
Proof. intros [Hn _]%remote_name_chars. unfold authority. by destruct (system a). Qed.

Lemma parse_canonical sy h po a names :
  Address_new IPv6Address (lit "movie") sy h po = Ok a -> host_ok a ->
  Forall (fun n => _is_remote_name n = true) names ->
  parse_actor_path IPv6Address UUID (canonical (path_of a names)) = Ok (path_of a names).
Proof.
  intros Ha Hh Hn. pose proof (address_inv _ _ _ _ _ Ha) as (Ea & Hs & _).
  assert (system a = sy /\ protocol a = lit "movie") as [Hsy Hpr] by by rewrite Ea.
  assert (forallb path_char (authority a) = true) as Hc by (apply authority_chars; by rewrite ?Hsy).
  assert (Forall (fun s => forallb text_char s = true) names) as Ht.
  { eapply Forall_impl; [exact Hn|]. intros n Hnn. by apply path_text, remote_name_path_chars. }
  unfold parse_actor_path. set (value := canonical _).
  assert (value = lit "movie" ++ lit "://" ++ authority a ++ 47 :: join (lit "/") names) as Ev
    by by unfold value; rewrite canonical_text.
  rewrite text_accepted.
  2: { rewrite Ev, !forallb_app. cbn [forallb]. rewrite (path_text _ Hc), forallb_join by done. done. }
  cbn [raise_unless mbind result_bind].
  assert (find (lit "://") value = Some 5%nat) as ->.
  { rewrite Ev. pose proof (find_here (lit "://") (authority a ++ 47 :: join (lit "/") names)) as Hf.
    assert (58 ∉ lit "movie") as H58 by (apply (bool_decide_unpack _); by vm_compute).
    etransitivity; [exact (find_skip_char 58 (lit "//") (lit "movie") _ H58)|].
    change (58 :: lit "//") with (lit "://"). by rewrite Hf. }
  assert (take 5 value = lit "movie") as -> by by rewrite Ev.
  assert (drop (5 + 3) value = authority a ++ 47 :: join (lit "/") names) as -> by by rewrite Ev.
  rewrite partition_found by by apply path_chars_no_slash. cbn [raise_unless mbind result_bind].
  rewrite (bool_decide_eq_true_2 (lit "movie" = lit "movie")) by done.
  rewrite (bool_decide_eq_false_2 (authority a = [])) by (apply authority_nonempty; by rewrite Hsy). cbn [negb andb].
  destruct (parse_authority _ _ _ _ Ha) as (endpoint & separator & -> & Hend).
  rewrite Hs. cbn [raise_unless mbind result_bind] in *. rewrite Hend. cbn [mbind result_bind]. rewrite !Ha.
  destruct names as [|n names].
  - done.
  - rewrite (bool_decide_eq_false_2 (join (lit "/") (n :: names) = [])).
    2: { apply Forall_cons in Hn as [[Hne _]%remote_name_chars _].
         destruct n; [done|]. by destruct names. }
    rewrite split_on_join; [|done|].
    2: { eapply Forall_impl; [exact Hn|]. intros m Hm. by apply remote_name_without. }
    assert (forallb _is_remote_name (n :: names) = true) as ->.
    { apply forallb_forall. intros m Hm%list_elem_of_In. rewrite Forall_forall in Hn. auto. }
    cbn [raise_unless mbind result_bind]. rewrite add_children_remote by done.
    cbn [mbind result_bind]. by rewrite bool_decide_eq_true_2.
Qed.

Lemma remote_path_accepted a names :
  names <> [] -> Forall (fun n => _is_remote_name n = true) names ->
  is_remote_actor_path (remote_path (path_of a names)) = true.
Proof.
  intros Hne Hn. unfold is_remote_actor_path, remote_path. rewrite path_of_elements.
  assert (split_on 47 (join [47] names) = names) as Hsp.
  { apply split_on_join; [done|]. eapply Forall_impl; [exact Hn|].
    intros m Hm. by apply remote_name_without. }
  change (drop 1 (lit "/" ++ join (lit "/") names)) with (join [47] names). rewrite Hsp.
  assert (forallb _is_remote_name names = true) as ->.
  { apply forallb_forall. intros m Hm%list_elem_of_In. rewrite Forall_forall in Hn. auto. }
  rewrite andb_true_r. destruct names as [|n names]; [done|].
  apply Forall_cons in Hn as [Hn _]. pose proof (remote_name_chars n Hn) as [Hnn _].
  destruct n as [|c n]; [done|].
  assert (c <> 47) as Hc.
  { intros ->. apply (remote_name_without _ 47) in Hn; [|done]. by apply Hn; left. }
  assert (exists r, join (lit "/") ((c :: n) :: names) = c :: r) as [r ->] by (destruct names; eauto).
  unfold starts_with. apply andb_true_iff. split; [by apply bool_decide_eq_true|].
  apply negb_true_iff, bool_decide_eq_false. by intros [=].
Qed.

(** ** What the parser accepts *)

Lemma partition_inv sep l before found after :
  partition sep l = (before, found, after) ->
  (sep ∉ before) /\ (forall c, c ∈ before -> c ∈ l) /\ (forall c, c ∈ after -> c ∈ l).
Proof.
  revert before found after. induction l as [|c l IH]; intros before found after; cbn [partition].
  { intros [= <- <- <-]. split_and!; try done. apply not_elem_of_nil. }
  destruct (Z.eqb_spec c sep) as [->|Hne].
  - intros [= <- <- <-]. split_and!; [apply not_elem_of_nil|by intros x ?%elem_of_nil|by right].
  - destruct (partition sep l) as [[before' found'] after']. intros [= <- <- <-].
    destruct (IH _ _ _ eq_refl) as (H1 & H2 & H3). split_and!.
    + rewrite not_elem_of_cons. by split; [congruence|].
    + intros x [->|Hx]%elem_of_cons; [by left|right; auto].
    + intros x Hx. right. auto.
Qed.

Lemma endpoint_host endpoint h po :
  _parse_endpoint IPv6Address endpoint = Ok (h, po) -> forall c, c ∈ h -> c ∈ endpoint.
Proof.
  unfold _parse_endpoint. intros H c Hc. apply bind_ok in H as (_ & _ & H).
  destruct (starts_with (lit "[") endpoint).
  - destruct (find (lit "]") endpoint) as [closing|]; [|done].
    set (host := take (closing - 1) (drop 1 endpoint)) in *.
    assert (h = host) as ->.
    { destruct (IPv6Address host); [|done]. apply bind_ok in H as (_ & _ & H).
      destruct (drop (S closing) endpoint); [by injection H|].
      apply bind_ok in H as (_ & _ & H). apply bind_ok in H as (port & _ & H). by injection H. }
    apply elem_of_take in Hc as (i & Hc & _). rewrite lookup_drop in Hc. by eapply list_elem_of_lookup_2.
  - apply bind_ok in H as (_ & _ & H). destruct (partition 58 endpoint) as [[host sep] port_text] eqn:E.
    apply partition_inv in E as (_ & E & _). apply bind_ok in H as (_ & _ & H). apply E.
    destruct sep; [apply bind_ok in H as (port & _ & H)|]; injection H as -> _; done.
Qed.

Lemma text_chars value :
  isascii value && negb (bool_decide (35 ∈ value)) && negb (bool_decide (63 ∈ value))
    && negb (bool_decide (37 ∈ value)) = true ->
  forall c, c ∈ value -> text_char c = true.
Proof.
  rewrite !andb_true_iff, !negb_true_iff, !bool_decide_eq_false. intros [[[Ha H35] H63] H37] c Hc.
  apply text_char_spec. unfold isascii in Ha. rewrite forallb_forall in Ha.
  pose proof (Ha c (proj1 (list_elem_of_In _ _) Hc)). split_and!; [lia|..]; by intros ->.
Qed.

(** Only the runtime's paths are parsed, and below the root only their own text. *)
Lemma parse_valid value p :
  parse_actor_path IPv6Address UUID value = Ok p ->
  valid p /\ (tail (elements p) <> [] -> canonical p = value).
Proof.
  unfold parse_actor_path. intros H. apply bind_ok in H as (_ & Htext%raise_unless_ok & H).
  pose proof (text_chars _ Htext) as Hchars.
  destruct (find (lit "://") value) as [i|]; [|done].
  destruct (partition 47 (drop (i + 3) value)) as [[authority found] remote] eqn:Ea.
  apply partition_inv in Ea as (H47 & Hin & _).
  apply bind_ok in H as (_ & _ & H). apply bind_ok in H as (_ & Hpr%raise_unless_ok & H).
  apply andb_true_iff in Hpr as [Hpr%bool_decide_eq_true _]. rewrite Hpr in H.
  destruct (partition 64 authority) as [[system separator] endpoint] eqn:Es.
  apply partition_inv in Es as (_ & _ & Hend).
  apply bind_ok in H as (_ & _ & H). apply bind_ok in H as ([h po] & Hhost & H).
  assert (Hok : forall a, Address_new IPv6Address (lit "movie") system h po = Ok a -> host_ok a).
  { intros a (-> & _)%address_inv. unfold host_ok. cbn. destruct h as [h|]; [|done].
    apply forallb_forall. intros c Hc%list_elem_of_In.
    destruct separator; [|done]. apply bind_ok in Hhost as ([h' p'] & Hp & Hx). injection Hx as -> _.
    assert (c ∈ authority) as Hc' by (by apply Hend, (endpoint_host _ _ _ Hp)).
    assert (text_char c = true) as Ht.
    { apply Hchars. apply Hin in Hc'. rewrite <- (take_drop (i + 3) value), elem_of_app. by right. }
    apply text_char_spec in Ht. apply path_char_spec.
    split_and!; try lia. by intros ->. }
  case_bool_decide.
  - apply bind_ok in H as (a & Ha & H). injection H as <-. split; [|done].
    exists system, h, po, a, []. split_and!; auto.
  - apply bind_ok in H as (_ & Hn%raise_unless_ok & H). apply bind_ok in H as (a & Ha & H).
    assert (Forall (fun n => _is_remote_name n = true) (split_on 47 remote)) as Hnames.
    { apply Forall_forall. intros n Hin'%list_elem_of_In. rewrite forallb_forall in Hn. auto. }
    rewrite add_children_remote in H by done. cbn [mbind result_bind] in H.
    apply bind_ok in H as (_ & Hc%raise_unless_ok%bool_decide_eq_true & H). injection H as <-.
    split; [|done]. exists system, h, po, a, (split_on 47 remote). split_and!; auto.
Qed.

(** C27.  Actor paths round-trip, for the paths that have a remote text: [valid]
    ones, with an accepted address of protocol [movie], remote names as elements,
    no uid and no host with a scope ([%]).  The canonical text of such a path is
    accepted by the parser and parsed back to the same path, so two such paths
    are equal exactly when their texts are, and below the root the part after the
    authority is a remote actor path.  Conversely whatever the parser returns is
    such a path, and below the root the text it was given is its canonical one.
    This holds whatever the standard library takes for an IPv6 address. *)
Theorem actor_path_roundtrip p :
  (valid p ->
   parse_actor_path IPv6Address UUID (canonical p) = Ok p /\
   (forall q, valid q -> path_eqb p q = true -> p = q) /\
   (tail (elements p) <> [] -> is_remote_actor_path (remote_path p) = true)) /\
  (forall value, parse_actor_path IPv6Address UUID value = Ok p ->
   valid p /\ (tail (elements p) <> [] -> value = canonical p)).
Proof.
  split.
  - intros (sy & h & po & a & names & Ha & Hh & Hn & ->).
    pose proof (parse_canonical _ _ _ _ _ Ha Hh Hn) as Hp. split_and!; [done| |].
    + intros q (sy' & h' & po' & a' & names' & Ha' & Hh' & Hn' & ->) E%bool_decide_eq_true.
      pose proof (parse_canonical _ _ _ _ _ Ha' Hh' Hn') as Hq. rewrite E, Hq in Hp. by injection Hp.
    + rewrite path_of_elements. intros. by apply remote_path_accepted.
  - intros value [Hv Hc]%parse_valid. split; [done|]. intros Ht. symmetry. auto.
Qed.
End paths.

(** * Concrete paths *)
Module PathRun.
Definition no_uuid (_ : pystr) : option Z := None.
Definition parse := parse_actor_path IPv6.canonical no_uuid.
Definition worker : ActorPath :=
  path_of (mkAddress (lit "movie") (lit "test-system") (Some (lit "2001:db8::1")) (Some 443))
    [lit "user"; lit "worker"].

Lemma actor_path_roundtrip_witness : parse (lit "movie://test-system@[2001:db8::1]:443/user/worker") = Ok worker.
Proof.
  assert (valid IPv6.canonical worker) as Hv.
  { exists (lit "test-system"), (Some (lit "2001:db8::1")), (Some 443), (address worker),
      [lit "user"; lit "worker"].
    split_and!; [by vm_compute|by vm_compute|by repeat constructor|reflexivity]. }
  exact (proj1 (proj1 (actor_path_roundtrip IPv6.canonical no_uuid worker) Hv)).
Defined.

(** The canonical text of a root path is not checked: a port with leading
    zeros is refused below the root and accepted, as another text, at the root. *)
Theorem root_path_not_canonical :
  (exists p, parse (lit "movie://test-system@host:0080/") = Ok p /\
    canonical p = lit "movie://test-system@host:80/") /\
  parse (lit "movie://test-system@host:0080/user") = Err ValueError.
Proof. split; [eexists; split|]; by vm_compute. Qed.
End PathRun.
