(* ===== verification/ActorRegistry.v ===== *)
(** The actors of a system: [ActorRegistry] of [movie/actor/impl/system.py], with
    [LocalActorRef]'s identity ([movie/actor/impl/ref.py],
    [movie/actor/identity.py]) and [resolve_actor].

    The registry's two dictionaries are finite maps.  A context is registered
    under its reference, and [context.ref is ref] compares references, which differ
    in their UID.  Random UIDs are a stream, from which [_new_ref] takes the first
    that is free.  [spawn] attaches the new context to its parent, whose context is
    passed and returned. *)

From stdpp Require Import base list numbers strings gmap.
From S2P Require Import Prelude Bytes PyStr ActorContext ActorContextSpec ActorPath.

Record LocalActorRef := mkRef {
  incarnation_uid : Z;
  ref_uid : nat;
  ref_path : ActorPath;
}.
#[global] Instance Address_eq_dec : EqDecision Address.
Proof. solve_decision. Defined.
#[global] Instance ActorPath_eq_dec : EqDecision ActorPath.
Proof. solve_decision. Defined.
#[global] Instance LocalActorRef_eq_dec : EqDecision LocalActorRef.
Proof. solve_decision. Defined.

(** [ActorIdentity.__post_init__]: both UIDs are nonzero. *)
Definition ActorIdentity_new (incarnation : Z) (uid : nat) : result (Z * nat) :=
  raise_unless (negb (incarnation =? 0)) ValueError ≫= fun _ =>
  raise_unless (negb (uid =? 0)%nat) ValueError ≫= fun _ =>
  Ok (incarnation, uid).
Definition ref_identity (r : LocalActorRef) : Z * nat := (incarnation_uid r, ref_uid r).

Record ActorRegistry := mkRegistry {
  actors : gmap nat LocalActorRef;
  paths : gmap pystr nat;
  root_guardian : option nat;
}.
Definition registry_new : ActorRegistry := mkRegistry ∅ ∅ None.

Section registry.
Context {M U : Type} (IPv6Address : pystr -> option pystr) (UUID : pystr -> option Z).
(** The system's name, incarnation, capacity and stash capacity. *)
Context (system_name : pystr) (incarnation : Z) (max_actors stash_capacity : Z).
Abbreviation ctx := (ctx (M := M) (U := U)).
Abbreviation behavior := (behavior (M := M) (U := U)).

(** [_new_ref]: the first UID of the stream that is not taken. *)
Fixpoint _new_ref (r : ActorRegistry) (uids : list nat) (path : ActorPath) : option LocalActorRef :=
  match uids with
  | [] => None
  | uid :: rest =>
      if bool_decide (actors r !! uid = None) then Some (mkRef incarnation uid path)
      else _new_ref r rest path
  end.

(** [self._actors[ref.id] = context], and the path if it is resolvable. *)
Definition register_ref (r : ActorRegistry) (ref : LocalActorRef) : ActorRegistry :=
  mkRegistry (<[ref_uid ref := ref]> (actors r))
    (if is_remote_resolvable (ref_path ref)
     then <[remote_path (ref_path ref) := ref_uid ref]> (paths r) else paths r)
    (root_guardian r).

(** [create_root_guardian] up to [context.start].  Its two locked blocks are one step: the
    system calls it first when it starts, and until the second block has run there is no
    root guardian under which anything else could be registered. *)
Definition create_root_guardian (r : ActorRegistry) (uids : list nat) (b : behavior) :
    ActorRegistry * result (LocalActorRef * ctx) :=
  if max_actors <=? Z.of_nat (size (actors r)) then (r, Err RuntimeError)
  else
    match Address_new IPv6Address (lit "movie") system_name None None with
    | Err e => (r, Err e)
    | Ok a =>
        match _new_ref r uids (RootActorPath a) with
        | None => (r, Err RuntimeError)
        | Some ref =>
            match ctx_new (ref_uid ref) None b stash_capacity with
            | Err e => (r, Err e)
            | Ok c =>
                let r' := register_ref r ref in
                (mkRegistry (actors r') (paths r') (Some (ref_uid ref)), Ok (ref, c))
            end
        end
    end.

(** [spawn], up to [context.start]: the new context is attached to its parent
    before the path is checked. *)
Definition spawn (r : ActorRegistry) (uids : list nat) (b : behavior) (name : pystr)
    (parent_ref : LocalActorRef) (parent : ctx) :
    ActorRegistry * ctx * result (LocalActorRef * ctx) :=
  if max_actors <=? Z.of_nat (size (actors r)) then (r, parent, Err RuntimeError)
  else
    match child UUID (ref_path parent_ref) name with
    | Err e => (r, parent, Err e)
    | Ok path =>
        match _new_ref r uids path with
        | None => (r, parent, Err RuntimeError)
        | Some ref =>
            match ctx_new (ref_uid ref) (Some (ref_uid parent_ref)) b stash_capacity with
            | Err e => (r, parent, Err e)
            | Ok c =>
                match attach_child (ref_uid ref) (ActorPath.name path) parent with
                | Err e => (r, parent, Err e)
                | Ok parent' =>
                    if is_remote_resolvable path && bool_decide (is_Some (paths r !! remote_path path))
                    then (r, parent', Err ValueError)
                    else (register_ref r ref, parent', Ok (ref, c))
                end
            end
        end
    end.

Definition clear (_ : ActorRegistry) : ActorRegistry := registry_new.

Definition belongs_to (ref : LocalActorRef) : bool := incarnation_uid ref =? incarnation.

Definition get (r : ActorRegistry) (ref : LocalActorRef) : option LocalActorRef :=
  if belongs_to ref then
    match actors r !! ref_uid ref with
    | Some ref' => if bool_decide (ref' = ref) then Some ref' else None
    | None => None
    end
  else None.
Definition get_by_uid (r : ActorRegistry) (uid : nat) : option LocalActorRef := actors r !! uid.

(** [_canonical_path] of a path and of a text. *)
Definition _canonical_path (p : ActorPath) : option pystr :=
  if is_remote_resolvable p && bool_decide (protocol (address p) = lit "movie")
     && bool_decide (system (address p) = system_name)
  then Some (remote_path p) else None.
Definition canonical_text_path (text : pystr) : option pystr :=
  if is_remote_actor_path text then Some text
  else match parse_actor_path IPv6Address UUID text with
       | Ok p => _canonical_path p
       | Err _ => None
       end.

Definition lookup_path (r : ActorRegistry) (canonical : option pystr) : option LocalActorRef :=
  rp ← canonical; uid ← paths r !! rp; actors r !! uid.
Definition get_by_path (r : ActorRegistry) (p : ActorPath) : option LocalActorRef :=
  lookup_path r (_canonical_path p).
Definition get_by_path_text (r : ActorRegistry) (text : pystr) : option LocalActorRef :=
  lookup_path r (canonical_text_path text).

Definition resolve_identity (r : ActorRegistry) (identity : Z * nat) : option LocalActorRef :=
  if identity.1 =? incarnation then
    match actors r !! identity.2 with
    | Some ref => if bool_decide (ref_identity ref = identity) then Some ref else None
    | None => None
    end
  else None.

(** [ActorSystemImpl.resolve_actor], with the path as a text. *)
Definition resolve_actor (r : ActorRegistry) (identity : Z * nat) (text : pystr) :
    option LocalActorRef :=
  match resolve_identity r identity with
  | None => None
  | Some by_identity =>
      if bool_decide (get_by_path_text r text = Some by_identity) then Some by_identity else None
  end.

Definition unregister (r : ActorRegistry) (ref : LocalActorRef) : ActorRegistry :=
  match get r ref with
  | None => r
  | Some _ =>
      mkRegistry (delete (ref_uid ref) (actors r))
        (if bool_decide (paths r !! remote_path (ref_path ref) = Some (ref_uid ref))
         then delete (remote_path (ref_path ref)) (paths r) else paths r)
        (root_guardian r)
  end.

Definition actor_count (r : ActorRegistry) : Z := Z.of_nat (size (actors r)).
End registry.

(** * The registry's invariant *)

Section invariant.
Context {M U : Type} (IPv6Address : pystr -> option pystr) (UUID : pystr -> option Z).
Context (system_name : pystr) (incarnation : Z) (max_actors stash_capacity : Z).
Abbreviation ctx := (ctx (M := M) (U := U)).
Abbreviation behavior := (behavior (M := M) (U := U)).

Record reg_ok (r : ActorRegistry) : Prop := {
  ok_ref u ref : actors r !! u = Some ref -> ref_uid ref = u /\ incarnation_uid ref = incarnation;
  ok_path rp u : paths r !! rp = Some u ->
    exists ref, actors r !! u = Some ref /\ is_remote_resolvable (ref_path ref) = true /\
      remote_path (ref_path ref) = rp;
  ok_actor u ref : actors r !! u = Some ref -> is_remote_resolvable (ref_path ref) = true ->
    paths r !! remote_path (ref_path ref) = Some u;
  ok_size : Z.of_nat (size (actors r)) <= max_actors;
}.

Lemma new_ok : 0 <= max_actors -> reg_ok registry_new.
Proof. by split; cbn; intros; simplify_map_eq. Qed.

Lemma new_ref_spec r uids path ref :
  _new_ref incarnation r uids path = Some ref ->
  actors r !! ref_uid ref = None /\ incarnation_uid ref = incarnation /\ ref_path ref = path.
Proof.
  induction uids as [|u uids IH]; cbn; [done|]. case_bool_decide; [|auto]. by intros [= <-].
Qed.

Lemma register_ok r ref :
  reg_ok r -> actors r !! ref_uid ref = None -> incarnation_uid ref = incarnation ->
  Z.of_nat (size (actors r)) < max_actors ->
  (is_remote_resolvable (ref_path ref) = true -> paths r !! remote_path (ref_path ref) = None) ->
  reg_ok (register_ref r ref).
Proof.
  intros Hr Hu Hi Hs Hp. split; cbn [register_ref actors paths].
  - intros u ref' [[<- <-]|[_ H]]%lookup_insert_Some; [done|by apply Hr].
  - intros rp u. destruct (is_remote_resolvable (ref_path ref)) eqn:E.
    + intros [[<- <-]|[_ H]]%lookup_insert_Some; [exists ref; by rewrite lookup_insert_eq|].
      destruct (ok_path r Hr rp u H) as (ref' & ? & ?). exists ref'.
      rewrite lookup_insert_ne; [done|]. congruence.
    + intros H. destruct (ok_path r Hr rp u H) as (ref' & ? & ?). exists ref'.
      rewrite lookup_insert_ne; [done|]. congruence.
  - intros u ref' [[<- <-]|[Hne H]]%lookup_insert_Some Hres.
    + rewrite Hres. by rewrite lookup_insert_eq.
    + pose proof (ok_actor r Hr u ref' H Hres) as Hpr.
      destruct (is_remote_resolvable (ref_path ref)) eqn:E; [|done].
      rewrite lookup_insert_ne; [done|]. intros Eq. rewrite Eq in Hp. by rewrite Hp in Hpr.
  - rewrite map_size_insert_None by done. lia.
Qed.

Lemma get_spec r ref ref' :
  get incarnation r ref = Some ref' -> ref' = ref /\ actors r !! ref_uid ref = Some ref.
Proof.
  unfold get. destruct (belongs_to _ ref); [|done].
  destruct (actors r !! ref_uid ref) eqn:E; [|done]. case_bool_decide; [|done]. by intros [= <-]; subst.
Qed.

Lemma unregister_ok r ref : reg_ok r -> reg_ok (unregister incarnation r ref).
Proof.
  intros Hr. unfold unregister. destruct (get _ r ref) eqn:E; [|done].
  apply get_spec in E as [_ Hu].
  assert (forall rp u, paths r !! rp = Some u -> u = ref_uid ref -> rp = remote_path (ref_path ref)) as Hrp.
  { intros rp u H ->. destruct (ok_path r Hr rp _ H) as (ref' & ? & _ & <-). congruence. }
  split; cbn [actors paths].
  - intros u ref' [_ H]%lookup_delete_Some. by apply Hr.
  - intros rp u. case_bool_decide as Hd.
    + intros [Hne H]%lookup_delete_Some. destruct (ok_path r Hr rp u H) as (ref' & ? & ?).
      exists ref'. rewrite lookup_delete_ne; [done|]. intros Eq. by apply Hne, symmetry, (Hrp rp u).
    + intros H. destruct (ok_path r Hr rp u H) as (ref' & ? & ?).
      exists ref'. rewrite lookup_delete_ne; [done|]. intros Eq. apply Hd. subst u.
      by rewrite (Hrp rp _ H eq_refl) in H.
  - intros u ref' [Hne H]%lookup_delete_Some Hres. pose proof (ok_actor r Hr u ref' H Hres) as Hp.
    case_bool_decide as Hd; [|done]. rewrite lookup_delete_ne; [done|].
    intros Eq. rewrite Eq in Hd. congruence.
  - pose proof (ok_size r Hr). rewrite map_size_delete, Hu. cbn. lia.
Qed.

Lemma spawn_ok r uids b name pref (parent : ctx) :
  reg_ok r -> reg_ok (spawn UUID incarnation max_actors stash_capacity r uids b name pref parent).1.1.
Proof.
  intros Hr. unfold spawn. destruct (Z.leb_spec max_actors (Z.of_nat (size (actors r)))); [done|].
  destruct (child _ _ _) as [path|]; [|done].
  destruct (_new_ref _ _ _ _) as [ref|] eqn:E; [|done].
  destruct (ctx_new _ _ _ _); [|done]. destruct (attach_child _ _ _); [|done].
  apply new_ref_spec in E as (Hu & Hi & Hp).
  destruct (is_remote_resolvable path) eqn:Hres; cbn [andb].
  - case_bool_decide as Hd; [done|]. apply register_ok; try done.
    intros _. rewrite Hp. by apply eq_None_not_Some.
  - apply register_ok; try done. by rewrite Hp, Hres.
Qed.

Lemma root_ok r uids (b : behavior) :
  reg_ok r -> reg_ok (create_root_guardian IPv6Address system_name incarnation max_actors stash_capacity r uids b).1.
Proof.
  intros Hr. unfold create_root_guardian.
  destruct (Z.leb_spec max_actors (Z.of_nat (size (actors r)))); [done|].
  destruct (Address_new _ _ _ _ _) as [a|]; [|done].
  destruct (_new_ref _ _ _ _) as [ref|] eqn:E; [|done].
  destruct (ctx_new _ _ _ _); [|done]. apply new_ref_spec in E as (Hu & Hi & Hp).
  assert (is_remote_resolvable (ref_path ref) = false) as Hres.
  { rewrite Hp. unfold is_remote_resolvable. cbn. by rewrite andb_false_r. }
  destruct (register_ok r ref Hr Hu Hi) as [R1 R2 R3 R4]; [done|by rewrite Hres|].
  split; [apply R1|apply R2|apply R3|apply R4].
Qed.

(** * Runs *)

Inductive reg_op :=
  | RRoot (uids : list nat) (b : behavior)
  | RSpawn (uids : list nat) (b : behavior) (name : pystr) (parent_ref : LocalActorRef) (parent : ctx)
  | RUnregister (ref : LocalActorRef)
  | RClear.
Definition reg_exec (r : ActorRegistry) (o : reg_op) : ActorRegistry :=
  match o with
  | RRoot uids b =>
      (create_root_guardian IPv6Address system_name incarnation max_actors stash_capacity r uids b).1
  | RSpawn uids b name pref parent =>
      (spawn UUID incarnation max_actors stash_capacity r uids b name pref parent).1.1
  | RUnregister ref => unregister incarnation r ref
  | RClear => clear r
  end.

Lemma reg_run_ok ops : 0 <= max_actors -> reg_ok (foldl reg_exec registry_new ops).
Proof.
  intros Hm. pose proof (new_ok Hm) as Hr. revert Hr. generalize registry_new.
  induction ops as [|o ops IH]; intros r Hr; cbn [foldl]; [done|]. apply IH.
  destruct o; cbn [reg_exec]; [by apply root_ok|by apply spawn_ok|by apply unregister_ok|by apply new_ok].
Qed.

(** C28.  The registry resolves exactly the registered actors, after any sequence
    of spawns, refused ones included, and removals: it stays within its capacity;
    every registered actor is found by its identity and, if its path is remotely
    resolvable in this system, by that path; what is found by a path is a
    registered actor with that very path, so two registered actors never share a
    resolvable path; and an identity of another incarnation or of an actor no
    longer registered resolves to nothing. *)
Theorem registry_resolves ops r :
  0 <= max_actors -> foldl reg_exec registry_new ops = r ->
  actor_count r <= max_actors /\
  (forall ref, actors r !! ref_uid ref = Some ref ->
     resolve_identity incarnation r (ref_identity ref) = Some ref /\
     (is_remote_resolvable (ref_path ref) = true -> system (address (ref_path ref)) = system_name ->
      get_by_path system_name r (ref_path ref) = Some ref)) /\
  (forall p ref, get_by_path system_name r p = Some ref ->
     actors r !! ref_uid ref = Some ref /\ remote_path (ref_path ref) = remote_path p) /\
  (forall identity ref, resolve_identity incarnation r identity = Some ref ->
     identity = (incarnation, ref_uid ref) /\ actors r !! ref_uid ref = Some ref).
Proof.
  intros Hm <-. set (r := foldl _ _ _). pose proof (reg_run_ok ops Hm : reg_ok r) as Hr. split_and!.
  - apply Hr.
  - intros ref Hu. destruct (ok_ref r Hr _ _ Hu) as [_ Hi]. split.
    + unfold resolve_identity, ref_identity; cbn. by rewrite Hi, Z.eqb_refl, Hu, bool_decide_eq_true_2 by by rewrite <- Hi.
    + intros Hres Hsys. unfold get_by_path, lookup_path, _canonical_path.
      rewrite Hres, (bool_decide_eq_true_2 _ Hsys).
      assert (protocol (address (ref_path ref)) = lit "movie") as Hp.
      { unfold is_remote_resolvable in Hres. rewrite !andb_true_iff in Hres. by apply (bool_decide_eq_true_1 _), Hres. }
      rewrite (bool_decide_eq_true_2 _ Hp). cbn [andb mbind option_bind].
      by rewrite (ok_actor r Hr _ _ Hu Hres).
  - intros p ref. unfold get_by_path, lookup_path, _canonical_path. case_match; [|done].
    cbn [mbind option_bind]. destruct (paths r !! remote_path p) as [u|] eqn:E; [cbn|done]. intros Hu.
    destruct (ok_path r Hr _ _ E) as (ref' & Hu' & _ & Hp). assert (ref' = ref) as -> by congruence.
    split; [|done]. by rewrite (proj1 (ok_ref r Hr _ _ Hu)).
  - intros [i u] ref. unfold resolve_identity; cbn. destruct (Z.eqb_spec i incarnation) as [->|]; [|done].
    destruct (actors r !! u) as [ref'|] eqn:E; [|done]. case_bool_decide; [|done].
    intros [= ->]. destruct (ok_ref r Hr _ _ E) as [<- _]. done.
Qed.
End invariant.

(** * A concrete system *)
Module RegistryRun.
Definition no_uuid (_ : pystr) : option Z := None.
Definition spawn_in (r : ActorRegistry) (uids : list nat) (name : string) pref parent :=
  spawn (M := nat) (U := unit) no_uuid 77 100 10 r uids ActorRun.initial (lit name) pref parent.

Definition root_path : ActorPath := RootActorPath (mkAddress (lit "movie") (lit "sys") None None).
Definition root_ref : LocalActorRef := mkRef 77 1 root_path.
Definition worker_ref : LocalActorRef := mkRef 77 2 (ChildActorPath (lit "worker") root_path None).
Definition exec := reg_exec (M := nat) (U := unit) IPv6.canonical no_uuid (lit "sys") 77 100 10.

(** The root guardian, once it runs. *)
Definition root_ctx := (ActorContextSpec.run ActorRun.app [OStart; OSystem [PreStart]]
  (mkCtx NEW 1 None [] ActorRun.initial ActorRun.initial [] 10 false false false false false 0)).1.
Definition history := [RRoot [1%nat] ActorRun.initial; RSpawn [1; 2]%nat ActorRun.initial (lit "worker") root_ref root_ctx].
Definition registry : ActorRegistry := foldl exec registry_new history.

Lemma registry_resolves_witness :
  get_by_path (lit "sys") registry (ref_path worker_ref) = Some worker_ref /\
  resolve_identity 77 registry (ref_identity worker_ref) = Some worker_ref.
Proof.
  destruct (registry_resolves (M := nat) (U := unit) IPv6.canonical no_uuid (lit "sys") 77 100 10
    history registry ltac:(lia) eq_refl) as (_ & H & _).
  destruct (H worker_ref) as [H1 H2]; [by vm_compute|]. split; [|done].
  apply H2; by vm_compute.
Defined.

(** The parent after it spawned the worker, and after the worker, which is
    stopping, removed itself from its parent. *)
Definition parent1 := (spawn_in (exec registry_new (RRoot [1%nat] ActorRun.initial)) [1; 2]%nat
  "worker" root_ref root_ctx).1.2.
Definition parent2 := remove_child 2 parent1.

(** A refused spawn leaks its actor: between the removal of a stopping child
    from its parent and from the registry, a new child with the same name is
    refused because of the path, but it stays among the parent's children, is not
    registered and is never started; the parent, once told to stop, waits for it
    and does not stop. *)
Theorem refused_spawn_leaks_child :
  children parent2 = [] /\
  let '(r, parent3, out) := spawn_in registry [3%nat] "worker" root_ref parent2 in
  out = Err ValueError /\ r = registry /\
  children parent3 = [(3%nat, lit "worker")] /\ actors r !! 3%nat = None /\
  let '(parent4, acts, _) := invoke_batch_system ActorRun.app [Stop; Terminated 2; Stop] parent3 in
  state parent4 = STOPPING /\ children parent4 = [(3%nat, lit "worker")] /\ finals acts = [].
Proof. by vm_compute. Qed.
End RegistryRun.
