(* ===== verification/ActorMailbox.v ===== *)
(** An actor and its mailbox.

    What the mailbox relies on is an interface, [BatchActor]: an actor runs a
    batch, of which it consumes a prefix, returns a suffix, and gives up what is
    in between only when it has stopped taking user messages.  For any such actor a
    run of [invoke_batch] is a step of the mailbox as [Mailbox] models it, without
    the behaviour that [foreign] allows; [LocalActorContext] is such an actor. *)

From stdpp Require Import base list numbers strings.
From S2P Require Import Prelude Bytes PyStr Mailbox ActorContext ActorContextSpec.

(** * The interface *)

(** The result of a batch: the actor, what it consumed, whether it called
    [stop_user_messages], and what [invoke_batch] returned or raised. *)
Definition invocation (A Msg : Type) : Type := A * list Msg * bool * batch_result (Msg := Msg).

Definition rest_of {Msg} (r : batch_result (Msg := Msg)) : list Msg :=
  match r with BatchReturned rest | BatchFailed rest => rest end.
Definition is_failure {Msg} (r : batch_result (Msg := Msg)) : bool :=
  match r with BatchReturned _ => false | BatchFailed _ => true end.

Class BatchActor (A User System : Type) := {
  actor_ready : A -> bool;       (* started, and not stopping *)
  actor_can : A -> bool;         (* [can_process_user_messages] *)
  actor_user : list User -> A -> invocation A User;
  actor_system : list System -> A -> invocation A System;
}.

Definition lawful {A User System Msg} `{BatchActor A User System} (ms : list Msg)
    (inv : invocation A Msg) : Prop :=
  let '(a', got, stop, r) := inv in
  exists given_up, ms = got ++ given_up ++ rest_of r /\ (given_up <> [] -> stop = true) /\
    (is_failure r = true -> actor_can a' = false).

Class LawfulBatchActor (A User System : Type) `{BatchActor A User System} : Prop := {
  user_lawful ms a : actor_ready a = true -> lawful ms (actor_user ms a);
  system_lawful ms a : lawful ms (actor_system ms a);
}.

(** * The mailbox runs any such actor *)

Section mailbox.
Context {A User System : Type} `{LawfulBatchActor A User System}.
Abbreviation config := (config (M := User + System)).

Definition after_invoke {Msg} (err system : bool) (inj : Msg -> User + System)
    (r : batch_result (Msg := Msg)) : thread :=
  match r with
  | BatchReturned rest => WRestore err false system (inj <$> rest)
  | BatchFailed rest => WRestore true true system (inj <$> rest)
  end.

Lemma invoke_step {Msg} (cfg : config) i err system (inj : Msg -> User + System) ms a'
    (got : list Msg) stop (r : batch_result (Msg := Msg)) :
  threads cfg !! i = Some (WInvoke err system (inj <$> ms)) ->
  lawful ms (a', got, stop, r) ->
  step false cfg (Consumed (negb system) (inj <$> got) :: if stop : bool then [Dropped] else [])
    (mkConfig (if stop then (stop_user_messages (box cfg)).1 else box cfg) (actor_can a')
       (activations cfg) (<[i := after_invoke err system inj r]> (threads cfg))).
Proof.
  intros Hi (given & -> & Hg & Hf).
  eapply (step_invoke _ _ _ _ _ _ (inj <$> got) (inj <$> given) (inj <$> rest_of r)
    _ (match r with BatchReturned rest => InvokeReturned (inj <$> rest)
                  | BatchFailed rest => InvokeFailed (inj <$> rest) end)); [exact Hi|..].
  - by rewrite !fmap_app.
  - intros Hne. apply Hg. by intros ->.
  - destruct r; cbn; [by left|]. right. left. split_and!; [done|done|]. left. by apply Hf.
Qed.
End mailbox.

(** * [LocalActorContext] is such an actor *)

Section context.
Context {M U : Type} (app : App (M := M) (U := U)).
Abbreviation ctx := (ctx (M := M) (U := U)).
Abbreviation action := (action (M := M) (U := U)).
Abbreviation CM := (CM (M := M) (U := U)).
Abbreviation sysmsg := (sysmsg (M := M) (U := U)).

(** Whether [stop_user_messages] was called. *)
Definition stops (acts : list action) : bool :=
  existsb (fun a => match a with AStopUser => true | _ => false end) acts.

Lemma stops_app a b : stops (a ++ b) = stops a || stops b.
Proof. apply existsb_app. Qed.

(** An actor that starts to stop says so. *)
Definition stop_told : ActorContextSpec.rel := fun (c : ctx) (acts : list action) c' =>
  is_stopping (state c) = false -> is_stopping (state c') = true -> stops acts = true.
#[local] Instance stop_told_step : StepRel stop_told.
Proof.
  split; [intros c; unfold stop_told; congruence|]. intros c acts c' acts' c'' HA HB Hs Hs''.
  rewrite stops_app. destruct (is_stopping (state c')) eqn:E.
  - by rewrite (HA Hs E).
  - by rewrite (HB E Hs''), orb_true_r.
Qed.
Lemma lively_told c acts c' : lively c acts c' -> stop_told c acts c'.
Proof. intros HL Hs Hs'. destruct (HL Hs) as [H _]. congruence. Qed.
Lemma steady_told c acts c' : steady c acts c' -> stop_told c acts c'.
Proof. intros H. by apply lively_told, steady_lively. Qed.
#[local] Instance stop_told_neutral : Neutral app stop_told.
Proof. split; [split|..]; try (intros; apply steady_told; by apply steady_neutral). apply _. Qed.

(** Methods whose first action is the announcement. *)
Lemma told_first (m : CM unit) (f : ctx -> ctx) c :
  keeps_at stop_told (cm_bind (modify f) (fun _ => cm_bind (emit AStopUser) (fun _ => m))) c.
Proof.
  intros _ _. unfold keeps_at. rewrite bind_modify, bind_emit. by destruct (m (f c)) as [[? ?] ?].
Qed.

Lemma complete_stop_told : keeps stop_told (_complete_stop app).
Proof.
  intros c. unfold _complete_stop. apply keeps_at_get_bind.
  destruct (decide (state c = STOPPED)) as [E|E].
  - rewrite E. apply keeps_at_ret, _.
  - rewrite match_not_stopped by done. apply told_first.
Qed.
Lemma fail_told : keeps stop_told (_fail app).
Proof.
  intros c. apply keeps_at_get_bind. destruct (is_stopping (state c)) eqn:Hs.
  { apply keeps_at_ret, _. }
  intros _ Hs'. pose proof (fail_failed app c Hs) as [HF _].
  unfold _fail in HF. rewrite bind_get, Hs in HF. by rewrite HF in Hs'.
Qed.
Lemma stop_requested_told : keeps stop_told (stop_requested app).
Proof.
  intros c. apply keeps_at_get_bind. apply keeps_at_bind; [apply _| |].
  - unfold when_. case_bool_decide; [apply keeps_at_ret, _|]. apply told_first.
  - intros c' acts a _. apply keeps_at_get_bind. unfold when_.
    destruct (_ =? _)%nat; [apply complete_stop_told|apply keeps_at_ret, _].
Qed.

#[local] Hint Resolve callback_keeps materialize_keeps receive_of_keeps : keeps.
#[local] Hint Extern 1 (Passive _ _) => apply _ : keeps.
Lemma lively_keeps_told {A} (m : CM A) : keeps lively m -> keeps stop_told m.
Proof. intros H c. apply lively_told, H. Qed.

Lemma invoke_system_told msg : keeps stop_told (_invoke_system app msg).
Proof.
  pose proof (lively_keeps_told _ (finish_start_lively app)).
  pose proof (lively_keeps_told _ (complete_restart_lively app)).
  pose proof (lively_keeps_told _ (begin_restart_lively app)).
  pose proof complete_stop_told. pose proof stop_requested_told. pose proof fail_told.
  pose proof (on_signal_keeps app stop_told). pose proof (remove_child_keeps app stop_told).
  unfold _invoke_system. keeps_tac.
Qed.
Lemma on_message_told m : keeps stop_told (on_message app m).
Proof.
  pose proof invoke_system_told. pose proof fail_told.
  pose proof (set_current_keeps app stop_told).
  unfold on_message. keeps_tac. intros Hs Hs'. congruence.
Qed.
Lemma invoke_told m : keeps stop_told (_invoke app m).
Proof.
  pose proof on_message_told. pose proof (stash_keeps app stop_told). unfold _invoke. keeps_tac.
Qed.

(** [LocalActorContext] through the interface. *)
Definition with_stop {Msg} (got : list Msg) (x : ctx * list action * batch_result (Msg := Msg)) :
    invocation ctx Msg :=
  let '(c', acts, r) := x in (c', got, stops acts, r).
Definition handled {Msg} (ms : list Msg) (r : batch_result (Msg := Msg)) : list Msg :=
  take (length ms - length (rest_of r)) ms.
#[global] Instance context_actor : BatchActor ctx M sysmsg := {
  actor_ready c := keeps_messages (state c);
  actor_can := can_process_user_messages;
  actor_user ms c :=
    let x := invoke_batch_user app ms c in with_stop (received x.1.2) x;
  actor_system ms c :=
    let x := invoke_batch_system app ms c in with_stop (handled ms x.2) x;
}.

Lemma user_batch_lawful ms c :
  keeps_messages (state c) = true -> lawful (System := sysmsg) ms (actor_user ms c).
Proof.
  intros Hk. cbn [actor_user context_actor].
  pose proof (run_batch_keeps app stop_told false (_invoke app) ms c invoke_told fail_told) as HT.
  pose proof (run_batch_keeps app life false (_invoke app) ms c (invoke_life app) (fail_life app)) as HL.
  fold (invoke_batch_user app ms c) in HT, HL.
  destruct (invoke_batch_user app ms c) as [[c' acts] r] eqn:E.
  destruct (batch_lawful app ms c c' acts r E) as (n & Hn & _ & Hr).
  unfold with_stop, lawful. cbn [fst snd] in *. rewrite Hn.
  destruct r as [rest|rest]; cbn [rest_of is_failure].
  - destruct Hr as [[-> _]|[-> Hs]].
    + exists []. cbn. by rewrite take_drop.
    + exists (drop n ms). rewrite app_nil_r, take_drop. split_and!; try done.
      intros _. destruct HL as (_ & _ & HN & _). apply HT; [by destruct (state c)|].
      assert (state c' <> NEW) by (apply HN; by destruct (state c)). by destruct (state c').
  - destruct Hr as [-> Hc]. exists []. cbn. by rewrite take_drop.
Qed.

(** A lifecycle batch is handled up to a message whose handling raised. *)
Lemma system_batch_prefix msgs c c' acts r :
  invoke_batch_system app msgs c = (c', acts, r) ->
  exists done_, msgs = done_ ++ rest_of r /\
    (is_failure r = true -> can_process_user_messages c' = false).
Proof.
  unfold invoke_batch_system. revert c c' acts r.
  induction msgs as [|m msgs IH]; intros c c' acts r; cbn [run_batch negb andb].
  { intros [= <- <- <-]. by exists []. }
  destruct (_invoke_system app m c) as [[c1 a1] out]. pose proof (fail_not_running app c1) as Hf.
  destruct out as [[]| |].
  - destruct (run_batch app true (_invoke_system app) msgs c1) as [[c2 a2] r2] eqn:E.
    intros [= <- <- <-]. destruct (IH _ _ _ _ E) as (d & -> & ?). by exists (m :: d).
  - destruct (_fail app c1) as [[c2 a2] o]. intros [= <- <- <-]. by exists [m].
  - destruct (_fail app c1) as [[c2 a2] o]. intros [= <- <- <-]. by exists [m].
Qed.

Lemma system_batch_lawful ms c : lawful (User := M) ms (actor_system ms c).
Proof.
  cbn [actor_system context_actor].
  destruct (invoke_batch_system app ms c) as [[c' acts] r] eqn:E.
  destruct (system_batch_prefix ms c c' acts r E) as (d & -> & Hf).
  unfold with_stop, lawful, handled. cbn [fst snd]. exists [].
  rewrite length_app, Nat.add_sub, take_app_length. done.
Qed.

#[global] Instance context_lawful : LawfulBatchActor ctx M sysmsg.
Proof. split; [apply user_batch_lawful|apply system_batch_lawful]. Qed.

(** Actor and mailbox fit together: when a worker runs a batch of user
    messages of an actor that has started and is not stopping, what [invoke_batch]
    of [LocalActorContext] does is a step of the mailbox model without foreign
    behaviour, as the claims on the mailbox assume: the messages consumed are those the
    behaviour received, the rest is in the worker's hands to be restored, it is
    given up only together with the queued messages, and the mailbox sees whether
    the actor can process user messages. *)
Theorem actor_refines_mailbox_step (cfg : config (M := M + sysmsg)) i err ms c c' acts r :
  threads cfg !! i = Some (WInvoke err false (inl <$> ms)) ->
  keeps_messages (state c) = true ->
  invoke_batch_user app ms c = (c', acts, r) ->
  step false cfg
    (Consumed true (inl <$> received acts) :: if stops acts then [Dropped] else [])
    (mkConfig (if stops acts then (stop_user_messages (box cfg)).1 else box cfg)
       (can_process_user_messages c') (activations cfg)
       (<[i := after_invoke err false inl r]> (threads cfg))).
Proof.
  intros Hi Hk E. pose proof (user_lawful ms c Hk) as HL.
  cbn [actor_user context_actor] in HL. rewrite E in HL.
  exact (invoke_step cfg i err false inl ms c' (received acts) (stops acts) r Hi HL).
Qed.
End context.

(** * A concrete run: the batch [4; 1; 9] stops the actor at its second message *)
Module ActorMailboxRun.
Definition app := ActorRun.app.
Definition batch : list nat := [4; 1; 9]%nat.
Definition cfg : config (M := nat + sysmsg (M := nat) (U := unit)) :=
  mkConfig (mkMailbox 4 3 [] [] 3 true true false true false 0) true 0
    [WInvoke false false (inl <$> batch)].
Lemma actor_refines_mailbox_step_witness :
  step false cfg [Consumed true (inl <$> [4; 1]%nat); Dropped]
    (mkConfig (stop_user_messages (box cfg)).1 false 0 [WRestore false false false []]).
Proof.
  pose (x := invoke_batch_user app batch ActorRun.running).
  assert (received x.1.2 = [4; 1]%nat) as H1 by by vm_compute.
  assert (stops x.1.2 = true) as H2 by by vm_compute.
  assert (can_process_user_messages x.1.1 = false) as H3 by by vm_compute.
  assert (x.2 = BatchReturned []) as H4 by by vm_compute.
  assert (x = (x.1.1, x.1.2, x.2)) as Hx by by destruct x as [[? ?] ?].
  pose proof (actor_refines_mailbox_step app cfg 0 false batch ActorRun.running _ _ _
    eq_refl eq_refl Hx) as H.
  rewrite H1, H2, H3, H4 in H. exact H.
Defined.
End ActorMailboxRun.
