(* ===== verification/Extension.v ===== *)
(** The extensions of an actor system: [ExtensionRegistry] of
    [movie/actor/extension.py].

    An extension is created and started once, by the first thread that asks for it;
    other threads wait, and a thread that would close a cycle of waits is refused.
    Threads are interleaved at the granularity of the registry's lock; a thread is
    the stack of extensions it is initialising (a factory or [start] may ask for
    other extensions) and what it is about to do.  Extension IDs are numbers, and
    the owner of an initialisation is the index of its thread.  What factories,
    [start] and [stop] do is nondeterministic.  Timeouts are not modelled. *)

From stdpp Require Import base list numbers gmap.
From S2P Require Import Prelude.

Inductive _RegistryState := INACTIVE | ACTIVE | PREPARING | STOPPING | STOPPED.
#[global] Instance RegistryState_eq_dec : EqDecision _RegistryState.
Proof. solve_decision. Defined.

(** [instances] is a dict: its keys in insertion order. *)
Record ExtensionRegistry := mkRegistry {
  state : _RegistryState;
  instances : list nat;
  configured : gset nat;
  initializing : gmap nat nat;
  waiting_for : gmap nat nat;
  started : list nat;
  prepared : gset nat;
  stopped : gset nat;
  failed : gset nat;
}.

Definition registry_new : ExtensionRegistry := mkRegistry INACTIVE [] ∅ ∅ ∅ [] ∅ ∅ ∅.

Definition set_state (r : ExtensionRegistry) (s : _RegistryState) : ExtensionRegistry :=
  mkRegistry s (instances r) (configured r) (initializing r) (waiting_for r) (started r)
    (prepared r) (stopped r) (failed r).
Definition set_initializing (r : ExtensionRegistry) (i : gmap nat nat) : ExtensionRegistry :=
  mkRegistry (state r) (instances r) (configured r) i (waiting_for r) (started r)
    (prepared r) (stopped r) (failed r).
Definition set_waiting (r : ExtensionRegistry) (w : gmap nat nat) : ExtensionRegistry :=
  mkRegistry (state r) (instances r) (configured r) (initializing r) w (started r)
    (prepared r) (stopped r) (failed r).
Definition set_instances (r : ExtensionRegistry) (l : list nat) : ExtensionRegistry :=
  mkRegistry (state r) l (configured r) (initializing r) (waiting_for r) (started r)
    (prepared r) (stopped r) (failed r).

(** [self._instances[key] = extension]: a known key keeps its place. *)
Definition add_key (k : nat) (l : list nat) : list nat :=
  if bool_decide (k ∈ l) then l else l ++ [k].
Definition remove_key (k : nat) (l : list nat) : list nat := filter (fun x => x <> k) l.

Definition activate (r : ExtensionRegistry) : result ExtensionRegistry :=
  raise_unless (bool_decide (state r = INACTIVE)) RuntimeError ≫= fun _ =>
  Ok (set_state r ACTIVE).

(** * Lookup *)

(** The search for a cycle: from [x] along the waits, until [owner] is met ([true]) or a
    thread that does not wait. *)
Fixpoint chase (fuel : nat) (owner : nat) (w : gmap nat nat) (x : nat) : option bool :=
  match fuel with
  | O => None
  | S fuel' =>
      match w !! x with
      | None => Some false
      | Some y => if (y =? owner)%nat then Some true else chase fuel' owner w y
      end
  end.
Definition finds_cycle (owner : nat) (w : gmap nat nat) (x : nat) : option bool :=
  chase (S (size w)) owner w x.

Inductive lookup :=
  | LRaised                       (* [RuntimeError] *)
  | LCycle                        (* [RuntimeError]: a dependency cycle *)
  | LFound
  | LWait
  | LBegin (create : bool)        (* the caller initialises the extension *)
  | LDiverges.                    (* the search for a cycle does not end *)

(** One round of the loop of [get], up to [wait] or [break]. *)
Definition get_locked (owner k : nat) (r : ExtensionRegistry) : ExtensionRegistry * lookup :=
  if bool_decide (state r = STOPPING \/ state r = STOPPED) then (r, LRaised)
  else if bool_decide (k ∈ failed r) then (r, LRaised)
  else if bool_decide (k ∈ instances r) && bool_decide (state r = INACTIVE \/ k ∈ started r)
  then (r, LFound)
  else if negb (bool_decide (state r = ACTIVE)) then (r, LRaised)
  else match initializing r !! k with
       | Some initializing_owner =>
           if (initializing_owner =? owner)%nat then (r, LRaised)
           else
             let w := <[owner := initializing_owner]> (waiting_for r) in
             match finds_cycle owner w initializing_owner with
             | None => (set_waiting r w, LDiverges)
             | Some true => (set_waiting r (delete owner w), LCycle)
             | Some false => (set_waiting r w, LWait)
             end
       | None =>
           (set_initializing r (<[k := owner]> (initializing r)),
            LBegin (bool_decide (k ∉ instances r)))
       end.

(** After [wait], in the [finally] block. *)
Definition stop_waiting (owner : nat) (r : ExtensionRegistry) : ExtensionRegistry :=
  set_waiting r (delete owner (waiting_for r)).

(** The blocks of [get] after the factory returned, after a failure (of a created
    extension or not, whose clean-up succeeded or not), and after [start]. *)
Definition created_locked (k : nat) (r : ExtensionRegistry) : ExtensionRegistry * bool :=
  (set_instances r (add_key k (instances r)), bool_decide (state r = ACTIVE)).
Definition failed_locked (k : nat) (created cleanup_succeeded : bool) (r : ExtensionRegistry) :
    ExtensionRegistry :=
  let known := bool_decide (k ∈ instances r) in
  let init := delete k (initializing r) in
  if cleanup_succeeded && negb (bool_decide (k ∈ configured r)) && Bool.eqb known created
  then mkRegistry (state r) (remove_key k (instances r)) (configured r) init (waiting_for r)
         (started r) (prepared r) (stopped r) (failed r)
  else mkRegistry (state r) (instances r) (configured r) init (waiting_for r)
         (started r) (prepared r) (stopped r) ({[k]} ∪ failed r).
Definition started_locked (k : nat) (r : ExtensionRegistry) : ExtensionRegistry :=
  mkRegistry (state r) (add_key k (instances r)) (configured r) (delete k (initializing r))
    (waiting_for r) (started r ++ [k]) (prepared r) (stopped r) (failed r).

Definition find (k : nat) (r : ExtensionRegistry) : bool := bool_decide (k ∈ instances r).

(** * Configuration before activation *)

Definition configure_locked (owner k : nat) (r : ExtensionRegistry) : ExtensionRegistry * lookup :=
  if negb (bool_decide (state r = INACTIVE)) then (r, LRaised)
  else if bool_decide (k ∈ instances r) then (r, LFound)
  else if bool_decide (is_Some (initializing r !! k)) then (r, LRaised)
  else (set_initializing r (<[k := owner]> (initializing r)), LBegin true).
Definition configured_locked (k : nat) (r : ExtensionRegistry) : ExtensionRegistry :=
  mkRegistry (state r) (add_key k (instances r)) ({[k]} ∪ configured r) (delete k (initializing r))
    (waiting_for r) (started r) (prepared r) (stopped r) (failed r).
Definition configure_failed_locked (k : nat) (r : ExtensionRegistry) : ExtensionRegistry :=
  set_initializing r (delete k (initializing r)).

(** * Shutdown *)

(** The started extensions, then the other instances, each once. *)
Definition _lifecycle_order_locked (r : ExtensionRegistry) : list nat :=
  foldl (fun l k => add_key k l) [] (started r ++ instances r).

Definition begin_prepare (r : ExtensionRegistry) : ExtensionRegistry :=
  if bool_decide (state r = STOPPING \/ state r = STOPPED) then r else set_state r PREPARING.
Definition mark_prepared (k : nat) (r : ExtensionRegistry) : ExtensionRegistry :=
  mkRegistry (state r) (instances r) (configured r) (initializing r) (waiting_for r) (started r)
    ({[k]} ∪ prepared r) (stopped r) (failed r).
Definition begin_stop (r : ExtensionRegistry) : ExtensionRegistry :=
  if bool_decide (state r = STOPPED) then r else set_state r STOPPING.

(** The next extension to stop: the last in lifecycle order that has not stopped. *)
Definition next_to_stop (r : ExtensionRegistry) : option nat :=
  head (filter (fun k => k ∉ stopped r) (reverse (_lifecycle_order_locked r))).
Definition stopped_locked (k : nat) (r : ExtensionRegistry) : ExtensionRegistry :=
  if bool_decide (k ∈ configured r)
  then mkRegistry (state r) (instances r) (configured r) (initializing r) (waiting_for r)
         (started r) (prepared r ∖ {[k]}) ({[k]} ∪ stopped r) (failed r ∖ {[k]})
  else mkRegistry (state r) (remove_key k (instances r)) (configured r) (initializing r)
         (waiting_for r) (remove_key k (started r)) (prepared r ∖ {[k]}) (stopped r)
         (failed r ∖ {[k]}).
Definition finish_stop (r : ExtensionRegistry) : ExtensionRegistry :=
  mkRegistry STOPPED (instances r) (configured r) (initializing r) (waiting_for r) (started r)
    ∅ (stopped r) (failed r).

(** The loop of [stop_all] once nothing is initialising; [stop_ok] tells whose [stop]
    returns.  The result has the extensions stopped, in order, and whether the loop
    ended. *)
Fixpoint stop_loop (fuel : nat) (stop_ok : nat -> bool) (r : ExtensionRegistry) :
    ExtensionRegistry * list nat * result bool :=
  match fuel with
  | O => (r, [], Ok false)
  | S fuel' =>
      match next_to_stop r with
      | None => (finish_stop r, [], Ok true)
      | Some k =>
          if stop_ok k then
            let '(r', ks, out) := stop_loop fuel' stop_ok (stopped_locked k r) in (r', k :: ks, out)
          else (r, [], Err RuntimeError)
      end
  end.
Definition stop_all (stop_ok : nat -> bool) (r : ExtensionRegistry) :
    ExtensionRegistry * list nat * result bool :=
  if bool_decide (state r = STOPPED) then (r, [], Ok true)
  else stop_loop (S (length (_lifecycle_order_locked r))) stop_ok (begin_stop r).

(** * Threads *)

(** What a thread is doing with an extension it initialises. *)
Inductive phase := Creating | Starting | Cleaning (created : bool) | Configuring.
(** [Trying k] is at the lock of [get]; [Sleeping k] is in [wait]. *)
Inductive activity := Running | Trying (k : nat) | Sleeping (k : nat).
Record thread := mkThread { frames : list (nat * phase); act : activity }.
Record config := mkConfig { reg : ExtensionRegistry; threads : list thread }.

(** Where a thread goes after a lookup of [k]. *)
Definition after_lookup (k : nat) (fs : list (nat * phase)) (first : phase) (l : lookup) : thread :=
  match l with
  | LRaised | LCycle | LFound => mkThread fs Running
  | LWait => mkThread fs (Sleeping k)
  | LBegin create => mkThread ((k, if create : bool then first else Starting) :: fs) Running
  | LDiverges => mkThread fs (Trying k)
  end.

Inductive thread_step (i : nat) : ExtensionRegistry -> thread -> ExtensionRegistry -> thread -> Prop :=
  | step_call r fs k : thread_step i r (mkThread fs Running) r (mkThread fs (Trying k))
  | step_try r fs k r' l :
      get_locked i k r = (r', l) ->
      thread_step i r (mkThread fs (Trying k)) r' (after_lookup k fs Creating l)
  | step_wake r fs k r' l :
      get_locked i k (stop_waiting i r) = (r', l) ->
      thread_step i r (mkThread fs (Sleeping k)) r' (after_lookup k fs Creating l)
  | step_created r fs k r' active :
      created_locked k r = (r', active) ->
      thread_step i r (mkThread ((k, Creating) :: fs) Running) r'
        (mkThread ((k, if active : bool then Starting else Cleaning true) :: fs) Running)
  | step_create_failed r fs k :
      thread_step i r (mkThread ((k, Creating) :: fs) Running) r
        (mkThread ((k, Cleaning false) :: fs) Running)
  | step_started r fs k :
      thread_step i r (mkThread ((k, Starting) :: fs) Running) (started_locked k r)
        (mkThread fs Running)
  | step_start_failed r fs k :
      thread_step i r (mkThread ((k, Starting) :: fs) Running) r
        (mkThread ((k, Cleaning true) :: fs) Running)
  | step_cleaned r fs k created cleanup :
      (created = false -> cleanup = true) ->
      thread_step i r (mkThread ((k, Cleaning created) :: fs) Running)
        (failed_locked k created cleanup r) (mkThread fs Running)
  | step_configure r fs k r' l :
      configure_locked i k r = (r', l) ->
      thread_step i r (mkThread fs Running) r' (after_lookup k fs Configuring l)
  | step_configured r fs k :
      thread_step i r (mkThread ((k, Configuring) :: fs) Running) (configured_locked k r)
        (mkThread fs Running)
  | step_configure_failed r fs k :
      thread_step i r (mkThread ((k, Configuring) :: fs) Running) (configure_failed_locked k r)
        (mkThread fs Running).

(** The calls of the actor system. *)
Inductive lifecycle_step : ExtensionRegistry -> ExtensionRegistry -> Prop :=
  | step_activate r r' : activate r = Ok r' -> lifecycle_step r r'
  | step_prepare r : lifecycle_step r (begin_prepare r)
  | step_prepared r k : lifecycle_step r (mark_prepared k r)
  | step_stop r : lifecycle_step r (begin_stop r)
  | step_stopped r k :
      state r = STOPPING -> initializing r = ∅ -> next_to_stop r = Some k ->
      lifecycle_step r (stopped_locked k r)
  | step_finish r :
      state r = STOPPING -> initializing r = ∅ -> next_to_stop r = None ->
      lifecycle_step r (finish_stop r).

Inductive step : config -> config -> Prop :=
  | step_thread c i t r' t' :
      threads c !! i = Some t -> thread_step i (reg c) t r' t' ->
      step c (mkConfig r' (<[i := t']> (threads c)))
  | step_lifecycle c r' :
      lifecycle_step (reg c) r' -> step c (mkConfig r' (threads c)).

Definition initial (n : nat) : config := mkConfig registry_new (replicate n (mkThread [] Running)).
Definition reachable (n : nat) : config -> Prop := rtc step (initial n).
