(* ===== verification/ExtensionSpec.v ===== *)
(** Theorems on the extension registry: threads never wait for each other in a
    circle, the search for such circles terminates, an extension is initialised by
    one thread at a time and started once, extensions are stopped in the reverse order
    of their start, and a circle may be reported that is not there. *)

From stdpp Require Import base list numbers gmap relations.
From S2P Require Import Prelude Extension.

(** * Chains of waits *)

(** From [x] a thread that does not wait is reached after [n] waits. *)
Inductive ends (w : gmap nat nat) : nat -> nat -> Prop :=
  | ends_out x : w !! x = None -> ends w 0 x
  | ends_wait n x y : w !! x = Some y -> ends w n y -> ends w (S n) x.

Definition acyclic (w : gmap nat nat) : Prop := forall x, exists n, ends w n x.

Lemma ends_unique w n m x : ends w n x -> ends w m x -> n = m.
Proof.
  intros H. revert m. induction H as [x E|n x y E _ IH]; intros m H'; inversion H'; simplify_eq.
  - done.
  - f_equal. by apply IH.
Qed.

(** The threads on a chain are distinct, so a chain is no longer than the waits. *)
Lemma ends_path w n x :
  ends w n x ->
  exists p, length p = n /\ NoDup p /\ Forall (fun z => z ∈ dom w /\ exists k, (k <= n)%nat /\ ends w k z) p.
Proof.
  induction 1 as [x E|n x y E Hy (p & Hl & Hd & Hf)].
  - exists []. split_and!; constructor.
  - exists (x :: p). assert (ends w (S n) x) as Hx by by econstructor. split_and!.
    + cbn. by rewrite Hl.
    + constructor; [|done]. intros Hin. rewrite Forall_forall in Hf.
      destruct (Hf x Hin) as (_ & k & Hk & He). pose proof (ends_unique _ _ _ _ Hx He). lia.
    + constructor; [split; [by apply elem_of_dom|eauto]|].
      eapply Forall_impl; [exact Hf|]. intros z (? & k & ? & ?). eauto with lia.
Qed.
Lemma ends_bound w n x : ends w n x -> (n <= size w)%nat.
Proof.
  intros (p & <- & Hd & Hf)%ends_path. rewrite <- size_dom.
  assert (list_to_set p ⊆ dom w) as Hs.
  { intros z Hz%elem_of_list_to_set. rewrite Forall_forall in Hf. by apply Hf. }
  apply subseteq_size in Hs. by rewrite size_list_to_set in Hs.
Qed.

Lemma acyclic_delete w t : acyclic w -> acyclic (delete t w).
Proof.
  intros Ha x. destruct (Ha x) as [n H]. induction H as [x E|n x y E _ [m IH]].
  - exists 0%nat. constructor. destruct (decide (x = t)) as [->|]; simplify_map_eq; done.
  - destruct (decide (x = t)) as [->|].
    + exists 0%nat. constructor. by simplify_map_eq.
    + exists (S m). econstructor; [|done]. by simplify_map_eq.
Qed.

(** The search decides whether the new wait of [t] closes a circle. *)
Lemma chase_decides w t u n fuel x :
  x <> t -> ends w n x -> (n < fuel)%nat ->
  chase fuel t (<[t := u]> w) x = Some true \/
  (chase fuel t (<[t := u]> w) x = Some false /\ exists m, ends (<[t := u]> w) m x).
Proof.
  intros Hx H. revert fuel Hx. induction H as [x E|n x y E _ IH]; intros [|fuel] Hx Hf; try lia.
  - right. cbn [chase]. rewrite lookup_insert_ne, E by done. split; [done|].
    exists 0%nat. constructor. by rewrite lookup_insert_ne.
  - cbn [chase]. rewrite lookup_insert_ne, E by done.
    destruct (Nat.eqb_spec y t) as [->|Hy]; [by left|].
    destruct (IH fuel Hy) as [?|[? [m ?]]]; [lia|by left|]. right. split; [done|].
    exists (S m). econstructor; [|done]. by rewrite lookup_insert_ne.
Qed.

Lemma acyclic_insert w t u :
  acyclic w -> w !! t = None -> (exists m, ends (<[t := u]> w) m u) -> acyclic (<[t := u]> w).
Proof.
  intros Ha Ht [m Hu] x. destruct (Ha x) as [n H]. induction H as [x E|n x y E _ [k IH]].
  - destruct (decide (x = t)) as [->|].
    + exists (S m). econstructor; [|done]. by simplify_map_eq.
    + exists 0%nat. constructor. by rewrite lookup_insert_ne.
  - exists (S k). econstructor; [|done]. rewrite lookup_insert_ne; [done|]. congruence.
Qed.

Lemma finds_cycle_decides w t u :
  acyclic w -> w !! t = None -> u <> t ->
  finds_cycle t (<[t := u]> w) u = Some true \/
  (finds_cycle t (<[t := u]> w) u = Some false /\ acyclic (<[t := u]> w)).
Proof.
  intros Ha Ht Hu. destruct (Ha u) as [n Hn]. pose proof (ends_bound _ _ _ Hn) as Hb.
  destruct (chase_decides w t u n (S (size (<[t := u]> w))) u Hu Hn) as [H|[H1 H2]].
  - rewrite map_size_insert_None by done. lia.
  - by left.
  - right. split; [done|]. by apply acyclic_insert.
Qed.

(** * The invariant *)

Definition sleeps (t : thread) : bool := match act t with Sleeping _ => true | _ => false end.

Record registry_inv (c : config) : Prop := {
  inv_acyclic : acyclic (waiting_for (reg c));
  inv_waits i u : waiting_for (reg c) !! i = Some u ->
    exists t, threads c !! i = Some t /\ sleeps t = true;
  inv_sleeps i t : threads c !! i = Some t -> sleeps t = true -> is_Some (waiting_for (reg c) !! i);
  inv_owner i t k : threads c !! i = Some t -> k ∈ (frames t).*1 ->
    initializing (reg c) !! k = Some i;
  inv_frames i t : threads c !! i = Some t -> NoDup (frames t).*1;
  inv_started_nodup : NoDup (started (reg c));
  inv_started k : k ∈ started (reg c) ->
    k ∈ instances (reg c) /\ initializing (reg c) !! k = None;
}.

Lemma initial_inv n : registry_inv (initial n).
Proof.
  split; cbn; try done.
  - intros x. exists 0%nat. by constructor.
  - by intros i t [-> _]%lookup_replicate.
  - intros i t k [-> _]%lookup_replicate Hk. by apply elem_of_nil in Hk.
  - intros i t [-> _]%lookup_replicate. constructor.
  - constructor.
Qed.

(** One thread moves. *)
Lemma update_inv c i t t' r' :
  registry_inv c -> threads c !! i = Some t ->
  acyclic (waiting_for r') ->
  (forall j u, waiting_for r' !! j = Some u ->
     j = i /\ sleeps t' = true \/ j <> i /\ waiting_for (reg c) !! j = Some u) ->
  (sleeps t' = true -> is_Some (waiting_for r' !! i)) ->
  (forall j u, j <> i -> waiting_for (reg c) !! j = Some u -> waiting_for r' !! j = Some u) ->
  (forall k, k ∈ (frames t').*1 -> initializing r' !! k = Some i) ->
  NoDup (frames t').*1 ->
  (forall k j, j <> i -> initializing (reg c) !! k = Some j -> initializing r' !! k = Some j) ->
  NoDup (started r') ->
  (forall k, k ∈ started r' -> k ∈ instances r' /\ initializing r' !! k = None) ->
  registry_inv (mkConfig r' (<[i := t']> (threads c))).
Proof.
  intros [I1 I2 I2' I3 I4 I5 I6] Hi Ha Hw Hw1 Hw2 Hf Hn Ho Hs1 Hs2.
  assert (<[i := t']> (threads c) !! i = Some t') as Hi'
    by (apply list_lookup_insert_eq; by eapply lookup_lt_Some).
  split; cbn; try done.
  - intros j u [[-> ?]|[? ?]]%Hw; [eauto|]. rewrite list_lookup_insert_ne by done. eauto.
  - intros j t0 Hj Hs. destruct (decide (j = i)) as [->|Hne]; [simplify_eq; auto|].
    rewrite list_lookup_insert_ne in Hj by done. destruct (I2' j t0 Hj Hs). eauto.
  - intros j t0 k Hj Hk. destruct (decide (j = i)) as [->|Hne].
    + rewrite Hi' in Hj. simplify_eq. auto.
    + rewrite list_lookup_insert_ne in Hj by done. eauto.
  - intros j t0 Hj. destruct (decide (j = i)) as [->|Hne]; [by simplify_eq|].
    rewrite list_lookup_insert_ne in Hj by done. eauto.
Qed.

(** Adding and removing keys. *)
Lemma add_key_in k x l : x ∈ add_key k l <-> x = k \/ x ∈ l.
Proof.
  unfold add_key. case_bool_decide; [|rewrite elem_of_app, list_elem_of_singleton; tauto].
  split; [by right|]. intros [->|]; done.
Qed.
Lemma remove_key_in k x l : x ∈ remove_key k l <-> x <> k /\ x ∈ l.
Proof. unfold remove_key. rewrite list_elem_of_filter. done. Qed.

Lemma awake_no_wait c i t :
  registry_inv c -> threads c !! i = Some t -> sleeps t = false -> waiting_for (reg c) !! i = None.
Proof.
  intros Hc Hi Hs. destruct (waiting_for (reg c) !! i) as [u|] eqn:E; [|done].
  destruct (inv_waits c Hc i u E) as (t' & ? & ?). simplify_eq. congruence.
Qed.
Lemma stop_waiting_awake i r : waiting_for r !! i = None -> stop_waiting i r = r.
Proof. intros H. unfold stop_waiting, set_waiting. rewrite delete_id by done. by destruct r. Qed.

Section lookup.
Context (c : config) (i : nat) (t : thread).
Hypothesis Hc : registry_inv c.
Hypothesis Hi : threads c !! i = Some t.
Abbreviation r0 := (stop_waiting i (reg c)).

(** The waits of the others. *)
Lemma others_wait j u : waiting_for r0 !! j = Some u -> j <> i /\ waiting_for (reg c) !! j = Some u.
Proof. cbn. intros [? ?]%lookup_delete_Some. auto. Qed.

(** A thread that only moves on. *)
Lemma idle_inv t' :
  (frames t').*1 = (frames t).*1 -> sleeps t' = false -> registry_inv (mkConfig r0 (<[i := t']> (threads c))).
Proof.
  intros Hf Hs. eapply update_inv; [exact Hc|exact Hi|..]; rewrite ?Hf, ?Hs; try done.
  - apply acyclic_delete, Hc.
  - intros j u H%others_wait. by right.
  - cbn. intros j u Hj H. by rewrite lookup_delete_ne.
  - intros k. by apply Hc.
  - by apply (inv_frames c Hc i).
  - apply Hc.
  - apply Hc.
Qed.

Lemma begin_inv k first :
  initializing (reg c) !! k = None -> k ∉ started (reg c) ->
  registry_inv (mkConfig (set_initializing r0 (<[k := i]> (initializing r0)))
    (<[i := mkThread ((k, first) :: frames t) Running]> (threads c))).
Proof.
  intros Hk Hs. eapply update_inv; [exact Hc|exact Hi|..]; cbn.
  - apply acyclic_delete, Hc.
  - intros j u H%others_wait. by right.
  - done.
  - intros j u Hj H. by rewrite lookup_delete_ne.
  - intros k' [->|Hk']%elem_of_cons; [by simplify_map_eq|].
    pose proof (inv_owner c Hc i t k' Hi Hk'). rewrite lookup_insert_ne; congruence.
  - apply NoDup_cons. split; [|by apply (inv_frames c Hc i)].
    intros Hin. pose proof (inv_owner c Hc i t k Hi Hin). congruence.
  - intros k' j Hj H. rewrite lookup_insert_ne; congruence.
  - apply Hc.
  - intros k' Hk'. destruct (inv_started c Hc k' Hk'). split; [done|].
    rewrite lookup_insert_ne; [done|]. by intros ->.
Qed.

Lemma get_step_inv k r' l :
  get_locked i k r0 = (r', l) ->
  registry_inv (mkConfig r' (<[i := after_lookup k (frames t) Creating l]> (threads c))) /\ l <> LDiverges.
Proof.
  unfold get_locked. case_bool_decide; [intros [= <- <-]; split; [by apply idle_inv|done]|].
  case_bool_decide; [intros [= <- <-]; split; [by apply idle_inv|done]|].
  destruct (bool_decide (k ∈ instances r0) && _) eqn:Hex;
    [intros [= <- <-]; split; [by apply idle_inv|done]|].
  destruct (negb _); [intros [= <- <-]; split; [by apply idle_inv|done]|].
  destruct (initializing r0 !! k) as [u|] eqn:Hk.
  - destruct (Nat.eqb_spec u i) as [->|Hu]; [intros [= <- <-]; split; [by apply idle_inv|done]|].
    destruct (finds_cycle_decides (waiting_for r0) i u) as [->|[-> Ha]];
      [apply acyclic_delete, Hc|cbn; by simplify_map_eq|done|..].
    + intros [= <- <-]. split; [|done].
      match goal with |- registry_inv (mkConfig ?x _) => assert (x = r0) as -> end.
      { unfold stop_waiting, set_waiting. cbn. by rewrite delete_insert_eq, delete_delete_eq. }
      by apply idle_inv.
    + intros [= <- <-]. split; [|done].
      eapply update_inv; [exact Hc|exact Hi|..]; cbn; try done; try apply Hc.
      * intros j v [[<- <-]|[Hj Hjv]]%lookup_insert_Some; [by left|right].
        apply lookup_delete_Some in Hjv as [_ Hjv]. auto.
      * intros _. by rewrite lookup_insert_eq.
      * intros j v Hj Hjv. by rewrite lookup_insert_ne, lookup_delete_ne.
      * intros k'. by apply Hc.
      * by apply (inv_frames c Hc i).
  - intros [= <- <-]. split; [|done]. cbn in *. apply begin_inv; [done|].
    intros Hs. destruct (inv_started c Hc k Hs) as [Hin _].
    rewrite (bool_decide_eq_true_2 _ Hin) in Hex. cbn in Hex.
    apply bool_decide_eq_false in Hex. tauto.
Qed.
End lookup.

Section frame.
Context (c : config) (i k : nat) (ph : phase) (fs : list (nat * phase)).
Hypothesis Hc : registry_inv c.
Hypothesis Hi : threads c !! i = Some (mkThread ((k, ph) :: fs) Running).

Lemma frame_owner : initializing (reg c) !! k = Some i.
Proof. by apply (inv_owner c Hc i _ k Hi), elem_of_cons; left. Qed.
Lemma frame_not_started : k ∉ started (reg c).
Proof. intros H. destruct (inv_started c Hc k H) as [_ H']. by rewrite frame_owner in H'. Qed.
Lemma awake_waits j u :
  waiting_for (reg c) !! j = Some u -> j <> i /\ waiting_for (reg c) !! j = Some u.
Proof.
  intros H. split; [|done]. intros ->. pose proof (awake_no_wait c i _ Hc Hi eq_refl). congruence.
Qed.

(** The initialisation of [k] goes on in another phase. *)
Lemma phase_inv ph' r' :
  waiting_for r' = waiting_for (reg c) -> initializing r' = initializing (reg c) ->
  started r' = started (reg c) -> (forall x, x ∈ instances (reg c) -> x ∈ instances r') ->
  registry_inv (mkConfig r' (<[i := mkThread ((k, ph') :: fs) Running]> (threads c))).
Proof.
  intros Hw Hn Hs Hin. eapply update_inv; [exact Hc|exact Hi|..]; rewrite ?Hw, ?Hn, ?Hs.
  - apply Hc.
  - intros j u H%awake_waits. by right.
  - done.
  - done.
  - intros k'. exact (inv_owner c Hc i _ k' Hi).
  - exact (inv_frames c Hc i _ Hi).
  - done.
  - apply Hc.
  - intros k' H. destruct (inv_started c Hc k' H). auto.
Qed.

(** It ends. *)
Lemma finish_inv r' :
  waiting_for r' = waiting_for (reg c) -> initializing r' = delete k (initializing (reg c)) ->
  NoDup (started r') -> (forall x, x ∈ started r' -> x = k \/ x ∈ started (reg c)) ->
  (forall x, x ∈ started r' -> x ∈ instances r') ->
  registry_inv (mkConfig r' (<[i := mkThread fs Running]> (threads c))).
Proof.
  intros Hw Hn Hs Hk Hin. pose proof (inv_frames c Hc i _ Hi) as Hf. apply NoDup_cons in Hf as [Hf Hf'].
  eapply update_inv; [exact Hc|exact Hi|..]; rewrite ?Hw, ?Hn; cbn.
  - apply Hc.
  - intros j u H%awake_waits. by right.
  - done.
  - done.
  - intros k' H. rewrite lookup_delete_ne; [|by intros <-].
    apply (inv_owner c Hc i _ k' Hi), elem_of_cons. by right.
  - done.
  - intros k' j Hj H. rewrite lookup_delete_ne; [done|]. intros <-. pose proof frame_owner. congruence.
  - done.
  - intros k' H. split; [auto|]. destruct (decide (k = k')) as [<-|Hne]; [by simplify_map_eq|].
    rewrite lookup_delete_ne by done. destruct (Hk k' H) as [?|H']; [congruence|].
    by apply (inv_started c Hc).
Qed.

Lemma failed_inv created cleanup :
  registry_inv (mkConfig (failed_locked k created cleanup (reg c)) (<[i := mkThread fs Running]> (threads c))).
Proof.
  pose proof frame_not_started as Hns. unfold failed_locked.
  destruct (cleanup && _ && _); apply finish_inv; cbn; try done; try apply Hc; auto.
  intros x Hx. apply remove_key_in. split; [by intros ->|]. by apply (inv_started c Hc).
Qed.
Lemma started_inv :
  registry_inv (mkConfig (started_locked k (reg c)) (<[i := mkThread fs Running]> (threads c))).
Proof.
  apply finish_inv; cbn; try done.
  - apply NoDup_app. split_and!; [apply Hc| |apply NoDup_singleton].
    intros x Hx ->%list_elem_of_singleton. by apply frame_not_started.
  - intros x [Hx| ->%list_elem_of_singleton]%elem_of_app; auto.
  - intros x [Hx| ->%list_elem_of_singleton]%elem_of_app; apply add_key_in; [right|by left].
    by apply (inv_started c Hc).
Qed.
Lemma configured_inv :
  registry_inv (mkConfig (configured_locked k (reg c)) (<[i := mkThread fs Running]> (threads c))).
Proof.
  apply finish_inv; cbn; try done; [apply Hc|auto|].
  intros x Hx. apply add_key_in. right. by apply (inv_started c Hc).
Qed.
End frame.

Lemma thread_step_inv c i t r' t' :
  registry_inv c -> threads c !! i = Some t -> thread_step i (reg c) t r' t' ->
  registry_inv (mkConfig r' (<[i := t']> (threads c))).
Proof.
  intros Hc Hi Hstep.
  assert (sleeps t = false -> stop_waiting i (reg c) = reg c) as Hr.
  { intros Hs. apply stop_waiting_awake. by eapply awake_no_wait. }
  inversion Hstep; subst.
  - rewrite <- Hr by done. by eapply idle_inv.
  - rewrite <- Hr in H by done. by eapply (get_step_inv c i _ Hc Hi).
  - by eapply (get_step_inv c i _ Hc Hi).
  - unfold created_locked in H. injection H as <- <-. eapply phase_inv; try done.
    cbn. intros x Hx. apply add_key_in. by right.
  - by eapply phase_inv.
  - by eapply started_inv.
  - by eapply phase_inv.
  - by eapply failed_inv.
  - rewrite <- Hr in H by done. unfold configure_locked in H.
    destruct (negb _); [injection H as <- <-; by eapply idle_inv|].
    case_bool_decide as Hk; [injection H as <- <-; by eapply idle_inv|].
    case_bool_decide as Hn; [injection H as <- <-; by eapply idle_inv|].
    injection H as <- <-. eapply (begin_inv c i _ Hc Hi).
    + by apply eq_None_not_Some.
    + intros Hs. by apply Hk, (inv_started c Hc).
  - by eapply configured_inv.
  - eapply (finish_inv c i k Configuring fs Hc Hi); cbn; try done; [apply Hc|auto|].
    intros x Hx. by apply (inv_started c Hc).
Qed.

(** * Calls of the actor system *)

Lemma reg_change_inv c r' :
  registry_inv c -> waiting_for r' = waiting_for (reg c) ->
  initializing r' = initializing (reg c) -> NoDup (started r') ->
  (forall k, k ∈ started r' -> k ∈ started (reg c) /\ k ∈ instances r') ->
  registry_inv (mkConfig r' (threads c)).
Proof.
  intros [I1 I2 I2' I3 I4 I5 I6] Hw Hi Hs Hk. split; cbn; rewrite ?Hw, ?Hi; try done.
  intros k [H1 H2]%Hk. by destruct (I6 k H1).
Qed.

Lemma lifecycle_step_inv c r' :
  registry_inv c -> lifecycle_step (reg c) r' -> registry_inv (mkConfig r' (threads c)).
Proof.
  intros Hc Hstep.
  assert (forall s, registry_inv (mkConfig (set_state (reg c) s) (threads c))) as Hst.
  { intros s. apply reg_change_inv; cbn; try done; [apply Hc|].
    intros k Hk. split; [done|by apply (inv_started c Hc)]. }
  assert (registry_inv (mkConfig (reg c) (threads c))) as Hsame by by destruct c.
  inversion Hstep; subst.
  - unfold activate, raise_unless in H. case_bool_decide; simplify_eq/=. apply Hst.
  - unfold begin_prepare. case_bool_decide; auto.
  - apply reg_change_inv; cbn; try done; [apply Hc|].
    intros x Hx. split; [done|by apply (inv_started c Hc)].
  - unfold begin_stop. case_bool_decide; auto.
  - unfold stopped_locked. case_bool_decide; apply reg_change_inv; cbn; try done; try apply Hc.
    + intros x Hx. split; [done|by apply (inv_started c Hc)].
    + apply NoDup_filter, Hc.
    + intros x [Hx1 Hx2]%remove_key_in. split; [done|]. apply remove_key_in.
      split; [done|by apply (inv_started c Hc)].
  - apply reg_change_inv; cbn; try done; [apply Hc|].
    intros x Hx. split; [done|by apply (inv_started c Hc)].
Qed.

Lemma reachable_inv n c : reachable n c -> registry_inv c.
Proof.
  intros Hr. unfold reachable in Hr. remember (initial n) as c0 eqn:E.
  assert (registry_inv c0) as H0 by (subst; apply initial_inv). clear E.
  induction Hr as [|c0 c1 c2 Hstep _ IH]; [done|]. apply IH.
  destruct Hstep; [by eapply thread_step_inv|by apply lifecycle_step_inv].
Qed.

(** * Claims *)

Definition waits (c : config) (i j : nat) : Prop := waiting_for (reg c) !! i = Some j.

Lemma ends_reaches c n i :
  ends (waiting_for (reg c)) n i -> exists j, rtc (waits c) i j /\ waiting_for (reg c) !! j = None.
Proof.
  induction 1 as [x E|n x y E _ (j & Hj & Hn)]; [by exists x|].
  exists j. split; [|done]. by eapply rtc_l.
Qed.

(** C29.  The extension registry under concurrent lookups, in every interleaving:
    from every thread that waits for an extension the chain of waits leads to a thread that
    does not wait, so lookups never deadlock among themselves; the search for
    circles terminates; an extension is initialised by at most one thread, once per
    thread; and a started extension is in the list once and not initialised
    again. *)
Theorem extension_registry_safe n c :
  reachable n c ->
  (forall i t k, threads c !! i = Some t -> act t = Sleeping k ->
     exists j, rtc (waits c) i j /\ forall t', threads c !! j = Some t' -> sleeps t' = false) /\
  (forall i t k, threads c !! i = Some t -> sleeps t = false ->
     (get_locked i k (reg c)).2 <> LDiverges) /\
  (forall i j t u k, threads c !! i = Some t -> threads c !! j = Some u ->
     k ∈ (frames t).*1 -> k ∈ (frames u).*1 -> i = j /\ NoDup (frames t).*1) /\
  NoDup (started (reg c)) /\
  (forall k i t, k ∈ started (reg c) -> threads c !! i = Some t -> k ∉ (frames t).*1).
Proof.
  intros Hc%reachable_inv. split_and!.
  - intros i t k Hi Hs. destruct (inv_acyclic c Hc i) as [m Hm].
    destruct (ends_reaches c m i Hm) as (j & Hj & Hn). exists j. split; [done|].
    intros t' Ht'. destruct (sleeps t') eqn:E; [|done].
    destruct (inv_sleeps c Hc j t' Ht' E). congruence.
  - intros i t k Hi Hs.
    pose proof (stop_waiting_awake i (reg c) (awake_no_wait c i t Hc Hi Hs)) as Hr.
    destruct (get_locked i k (reg c)) as [r' l] eqn:E. rewrite <- Hr in E.
    by apply (get_step_inv c i t Hc Hi k r' l E).
  - intros i j t u k Hi Hj Ht Hu. pose proof (inv_owner c Hc i t k Hi Ht).
    pose proof (inv_owner c Hc j u k Hj Hu). split; [congruence|]. by apply (inv_frames c Hc i).
  - apply Hc.
  - intros k i t Hk Hi Ht. destruct (inv_started c Hc k Hk) as [_ Hn].
    by rewrite (inv_owner c Hc i t k Hi Ht) in Hn.
Qed.

(** * Order of shutdown *)

(** What is still to be stopped, in order. *)
Definition stop_order (r : ExtensionRegistry) : list nat :=
  filter (fun k => k ∉ stopped r) (reverse (_lifecycle_order_locked r)).
Definition dict_ok (r : ExtensionRegistry) : Prop := NoDup (instances r) /\ NoDup (started r).

(** Filters that agree on the list. *)
Lemma filter_ext_in (P Q : nat -> Prop) `{!forall x, Decision (P x), !forall x, Decision (Q x)} (l : list nat) :
  (forall x, x ∈ l -> P x <-> Q x) -> filter P l = filter Q l.
Proof.
  induction l as [|x l IH]; intros Hl; [done|]. rewrite !filter_cons, IH by (intros; apply Hl; by right).
  assert (P x <-> Q x) by (apply Hl; by left). do 2 case_decide; tauto.
Qed.
Lemma filter_all (P : nat -> Prop) `{!forall x, Decision (P x)} (l : list nat) :
  (forall x, x ∈ l -> P x) -> filter P l = l.
Proof.
  induction l as [|x l IH]; intros Hl; [done|].
  rewrite filter_cons_True by (apply Hl; by left). f_equal. apply IH. intros. apply Hl. by right.
Qed.

Lemma add_keys_spec xs acc :
  NoDup xs -> foldl (fun l k => add_key k l) acc xs = acc ++ filter (fun k => k ∉ acc) xs.
Proof.
  intros Hx. revert acc. induction Hx as [|x xs Hx _ IH]; intros acc; cbn [foldl].
  { by rewrite app_nil_r. }
  rewrite IH. unfold add_key. case_bool_decide as Ha.
  - rewrite filter_cons_False by tauto. done.
  - rewrite filter_cons_True by done. rewrite <- app_assoc. cbn. do 2 f_equal.
    apply filter_ext_in. intros k Hk. rewrite not_elem_of_app, list_elem_of_singleton.
    split; [tauto|]. intros. split; [done|]. by intros ->.
Qed.
Lemma lifecycle_order_spec r :
  dict_ok r -> _lifecycle_order_locked r = started r ++ filter (fun k => k ∉ started r) (instances r).
Proof.
  intros [Hi Hs]. unfold _lifecycle_order_locked. rewrite foldl_app.
  rewrite (add_keys_spec (started r) []) by done. cbn [app].
  assert (filter (fun k => k ∉ []) (started r) = started r) as ->.
  { apply filter_all. intros k _. apply not_elem_of_nil. }
  by rewrite add_keys_spec.
Qed.

Lemma lifecycle_nodup r : dict_ok r -> NoDup (_lifecycle_order_locked r).
Proof.
  intros Hr. rewrite lifecycle_order_spec by done. destruct Hr as [Hi Hs].
  apply NoDup_app. split_and!; [done| |by apply NoDup_filter].
  intros x Hx [? _]%list_elem_of_filter. done.
Qed.

(** Stopping the next extension leaves the others, in order. *)
Lemma stopped_next r k ks :
  dict_ok r -> stop_order r = k :: ks ->
  dict_ok (stopped_locked k r) /\ stop_order (stopped_locked k r) = ks.
Proof.
  intros Hr Ho. pose proof (lifecycle_nodup r Hr) as Hn. pose proof Hr as [Hi Hs].
  assert ((k ∉ ks) /\ forall x, x ∈ ks -> x <> k) as [Hk Hk'].
  { assert (NoDup (k :: ks)) as Hd by (rewrite <- Ho; apply NoDup_filter; by rewrite reverse_Permutation).
    apply NoDup_cons in Hd as [? _]. split; [done|]. by intros x Hx ->. }
  assert (filter (fun x => x <> k) (stop_order r) = ks) as Hf.
  { rewrite Ho, filter_cons_False by tauto. by apply filter_all. }
  unfold stopped_locked. case_bool_decide.
  - split; [done|]. rewrite <- Hf. unfold stop_order. cbn [stopped].
    rewrite list_filter_filter.
    apply list_filter_iff. intros x. cbn. rewrite not_elem_of_union, not_elem_of_singleton. tauto.
  - split; [split; by apply NoDup_filter|]. rewrite <- Hf. unfold stop_order. cbn [stopped].
    set (r' := mkRegistry _ _ _ _ _ _ _ _ _).
    assert (_lifecycle_order_locked r' = remove_key k (_lifecycle_order_locked r)) as ->.
    { rewrite !lifecycle_order_spec; [|done|split; by apply NoDup_filter]. cbn [started instances r'].
      unfold remove_key. rewrite filter_app. f_equal. rewrite !list_filter_filter.
      apply filter_ext_in. intros x _. rewrite list_elem_of_filter. tauto. }
    unfold remove_key. rewrite <- filter_reverse, !list_filter_filter.
    apply list_filter_iff. tauto.
Qed.

(** The longest prefix whose [stop] returns. *)
Fixpoint take_ok (ok : nat -> bool) (l : list nat) : list nat :=
  match l with
  | [] => []
  | k :: l' => if ok k then k :: take_ok ok l' else []
  end.

Lemma stop_loop_spec fuel ok r :
  dict_ok r -> (length (stop_order r) < fuel)%nat ->
  let '(r', ks, out) := stop_loop fuel ok r in
  ks = take_ok ok (stop_order r) /\
  (out = if forallb ok (stop_order r) then Ok true else Err RuntimeError) /\
  (out = Ok true -> state r' = STOPPED) /\
  stop_order r' = drop (length ks) (stop_order r).
Proof.
  revert r. induction fuel as [|fuel IH]; intros r Hr Hf; [lia|].
  cbn [stop_loop]. unfold next_to_stop. fold (stop_order r).
  destruct (stop_order r) as [|k ks] eqn:Ho; cbn [head].
  - by split_and!.
  - destruct (ok k) eqn:Hok; cbn [take_ok forallb andb]; rewrite Hok; [|by rewrite Ho].
    destruct (stopped_next r k ks Hr Ho) as [Hr' Ho']. cbn in Hf.
    specialize (IH (stopped_locked k r) Hr'). rewrite Ho' in IH.
    destruct (stop_loop fuel ok (stopped_locked k r)) as [[r' ks'] out].
    destruct IH as (-> & ? & ? & ?); [lia|]. done.
Qed.

(** Extensions are stopped in the reverse order of their start, those never
    started first, each once; [stop_all] ends: it stops all of them and the registry
    is stopped, or raises at the first whose [stop] raises, and a later call goes on
    from there. *)
Theorem extensions_stop_in_reverse ok r r' ks out :
  dict_ok r -> state r <> STOPPED -> stop_all ok r = (r', ks, out) ->
  stop_order r =
    filter (fun k => k ∉ stopped r)
      (reverse (filter (fun k => k ∉ started r) (instances r)) ++ reverse (started r)) /\
  ks = take_ok ok (stop_order r) /\
  (out = if forallb ok (stop_order r) then Ok true else Err RuntimeError) /\
  (out = Ok true -> state r' = STOPPED) /\
  stop_order r' = drop (length ks) (stop_order r).
Proof.
  intros Hr Hs Ha. split.
  { unfold stop_order. rewrite lifecycle_order_spec by done.
    by rewrite reverse_app, filter_app, <- filter_app. }
  unfold stop_all in Ha. rewrite bool_decide_eq_false_2 in Ha by done.
  unfold begin_stop in Ha. rewrite bool_decide_eq_false_2 in Ha by done.
  pose proof (stop_loop_spec (S (length (_lifecycle_order_locked r))) ok (set_state r STOPPING) Hr) as H.
  rewrite Ha in H. apply H. change (stop_order (set_state r STOPPING)) with (stop_order r).
  unfold stop_order. pose proof (length_filter (fun k => k ∉ stopped r) (reverse (_lifecycle_order_locked r))).
  rewrite length_reverse in *. lia.
Qed.

(** * A concrete run

    Thread 1 initialises extension 1; thread 0 initialises extension 2, whose
    factory asks for extension 1, and waits; thread 1 finishes, and asks for
    extension 2 before thread 0 has woken up. *)
Module ExtensionRun.
Definition act_on (i : nat) (t : thread) (r : ExtensionRegistry) (c : config) : config :=
  mkConfig r (<[i := t]> (threads c)).
Definition active : ExtensionRegistry := set_state registry_new ACTIVE.
Definition c1 : config := mkConfig active [mkThread [] Running; mkThread [] Running].
Definition r2 := set_initializing active {[ 1 := 1 ]}%nat.
Definition c2 : config := mkConfig r2 [mkThread [] Running; mkThread [(1, Creating)%nat] Running].
Definition r3 := set_initializing active {[ 1 := 1; 2 := 0 ]}%nat.
Definition c3 : config :=
  mkConfig r3 [mkThread [(2, Creating)%nat] Running; mkThread [(1, Creating)%nat] Running].
Definition r4 := set_waiting r3 {[ 0 := 1 ]}%nat.
Definition c4 : config :=
  mkConfig r4 [mkThread [(2, Creating)%nat] (Sleeping 1); mkThread [(1, Creating)%nat] Running].
Definition r5 := mkRegistry ACTIVE [1%nat] ∅ {[ 2 := 0 ]}%nat {[ 0 := 1 ]}%nat [1%nat] ∅ ∅ ∅.
Definition c5 : config :=
  mkConfig r5 [mkThread [(2, Creating)%nat] (Sleeping 1); mkThread [] (Trying 2)].

Lemma thread_steps c c' i t t1 r2 t2 :
  threads c !! i = Some t -> thread_step i (reg c) t (reg c) t1 -> thread_step i (reg c) t1 r2 t2 ->
  c' = mkConfig r2 (<[i := t2]> (threads c)) -> rtc step c c'.
Proof.
  intros Hi H1 H2 ->. eapply rtc_l; [by eapply step_thread|]. eapply rtc_l; [|apply rtc_refl].
  rewrite <- (list_insert_insert_eq (threads c) i t2 t1).
  eapply (step_thread (mkConfig (reg c) _)); [|exact H2].
  apply list_lookup_insert_eq. by eapply lookup_lt_Some.
Qed.

Lemma c5_reachable : reachable 2 c5.
Proof.
  unfold reachable. eapply rtc_l; [apply step_lifecycle, step_activate; reflexivity|].
  change (rtc step c1 c5). trans c2.
  { eapply (thread_steps c1 c2 1); [reflexivity|apply (step_call _ _ _ 1)|by eapply step_try|reflexivity]. }
  trans c3.
  { eapply (thread_steps c2 c3 0); [reflexivity|apply (step_call _ _ _ 2)|by eapply step_try|reflexivity]. }
  trans c4.
  { eapply (thread_steps c3 c4 0); [reflexivity|apply (step_call _ _ _ 1)|by eapply step_try|reflexivity]. }
  eapply rtc_l; [eapply (step_thread _ 1); [reflexivity|by apply (step_created _ _ _ 1)]|].
  eapply rtc_l; [eapply (step_thread _ 1); [reflexivity|apply (step_started _ _ _ 1)]|].
  eapply rtc_l; [eapply (step_thread _ 1); [reflexivity|apply (step_call _ _ _ 2)]|].
  apply rtc_refl.
Qed.

Lemma extension_registry_safe_witness :
  exists j, rtc (waits c5) 0%nat j /\ forall t', threads c5 !! j = Some t' -> sleeps t' = false.
Proof.
  exact (proj1 (extension_registry_safe 2 c5 c5_reachable) 0%nat
    (mkThread [(2, Creating)%nat] (Sleeping 1)) 1%nat eq_refl eq_refl).
Defined.

(** Three extensions, the second configured, the last never started. *)
Definition running_registry : ExtensionRegistry :=
  mkRegistry ACTIVE [2; 1; 3]%nat {[ 2%nat ]} ∅ ∅ [1; 2]%nat ∅ ∅ ∅.
Lemma extensions_stop_in_reverse_witness :
  (stop_all (fun _ => true) running_registry).1.2 = [3; 2; 1]%nat.
Proof.
  destruct (stop_all (fun _ => true) running_registry) as [[r' ks] out] eqn:E.
  destruct (extensions_stop_in_reverse (fun _ => true) running_registry r' ks out) as (_ & -> & _);
    [split; apply (bool_decide_unpack _); by vm_compute|done|done|]. by vm_compute.
Defined.

(** A dependency cycle is reported where there is none: in a reachable state
    thread 1 initialises nothing, extension 1, for which thread 0 waits, is started,
    and thread 0 finds it as soon as it wakes up; but the wait of thread 0 is still
    recorded, and the lookup of extension 2 by thread 1, which should wait, is refused
    as a cross-thread dependency cycle. *)
Theorem cycle_reported_without_cycle :
  reachable 2 c5 /\ threads c5 !! 1%nat = Some (mkThread [] (Trying 2)) /\
  1%nat ∈ started (reg c5) /\ (get_locked 0 1 (stop_waiting 0 (reg c5))).2 = LFound /\
  (get_locked 1 2 (reg c5)).2 = LCycle.
Proof. split; [apply c5_reachable|]. split_and!; try by vm_compute. by left. Qed.
End ExtensionRun.
