(* ===== verification/Effects.v ===== *)
(** Methods that mutate an object and may raise.

    A Python method keeps what it changed when it raises, so a method is a function
    from a state to an outcome and the state it leaves ([Eff]).  [E] is the type of what
    it can raise.  [catch] is [try/except], [finally] is [try/finally]: what the
    cleanup raises replaces what the body raised. *)

From stdpp Require Import base list.
From S2P Require Import Prelude.

Inductive outcome (E A : Type) : Type :=
  | Ret (a : A)
  | Raise (e : E).
Arguments Ret {E A} a.
Arguments Raise {E A} e.

Definition Eff (S E A : Type) : Type := S -> outcome E A * S.

Section eff.
Context {S E : Type}.

Definition ret {A} (a : A) : Eff S E A := fun s => (Ret a, s).
Definition raise {A} (e : E) : Eff S E A := fun s => (Raise e, s).
Definition bind {A B} (m : Eff S E A) (k : A -> Eff S E B) : Eff S E B :=
  fun s => match m s with (Ret a, s') => k a s' | (Raise e, s') => (Raise e, s') end.
Definition get : Eff S E S := fun s => (Ret s, s).
Definition modify (f : S -> S) : Eff S E unit := fun s => (Ret tt, f s).
Definition catch {A} (m : Eff S E A) (h : E -> Eff S E A) : Eff S E A :=
  fun s => match m s with (Ret a, s') => (Ret a, s') | (Raise e, s') => h e s' end.
Definition finally {A} (m : Eff S E A) (f : Eff S E unit) : Eff S E A :=
  fun s =>
    let '(o, s') := m s in
    match f s' with (Ret _, s'') => (o, s'') | (Raise e, s'') => (Raise e, s'') end.
(** [if c: m]. *)
Definition when (c : bool) (m : Eff S E unit) : Eff S E unit := if c then m else ret tt.
(** [for x in xs: body(x)]. *)
Fixpoint for_each {A} (xs : list A) (body : A -> Eff S E unit) : Eff S E unit :=
  match xs with
  | [] => ret tt
  | x :: rest => bind (body x) (fun _ => for_each rest body)
  end.

Lemma bind_ret_inv {A B} (m : Eff S E A) (k : A -> Eff S E B) s b s' :
  bind m k s = (Ret b, s') <-> exists a s1, m s = (Ret a, s1) /\ k a s1 = (Ret b, s').
Proof.
  unfold bind. destruct (m s) as [[a|e] s1]; split.
  - eauto.
  - by intros (? & ? & [= -> ->] & ?).
  - done.
  - by intros (? & ? & ? & _).
Qed.

Lemma bind_raise_inv {A B} (m : Eff S E A) (k : A -> Eff S E B) s e s' :
  bind m k s = (Raise e, s') <->
  m s = (Raise e, s') \/ exists a s1, m s = (Ret a, s1) /\ k a s1 = (Raise e, s').
Proof.
  unfold bind. destruct (m s) as [[a|e'] s1]; split.
  - eauto.
  - by intros [?|(? & ? & [= -> ->] & ?)].
  - intros [= -> ->]. by left.
  - by intros [[= -> ->]|(? & ? & ? & _)].
Qed.
End eff.

(** * Methods that only move a state forward

    [Preserves R m]: every run of [m], whatever its outcome, relates its first and last
    state by the preorder [R]. *)
Section preserves.
Context {S E : Type} (R : S -> S -> Prop) `{!PreOrder R}.

Definition Preserves {A} (m : Eff S E A) : Prop := forall s, R s (m s).2.

Lemma preserves_ret {A} (a : A) : Preserves (ret a).
Proof. intros s. reflexivity. Qed.
Lemma preserves_raise {A} e : Preserves (raise e : Eff S E A).
Proof. intros s. reflexivity. Qed.
Lemma preserves_get : Preserves get.
Proof. intros s. reflexivity. Qed.
Lemma preserves_bind {A B} (m : Eff S E A) (k : A -> Eff S E B) :
  Preserves m -> (forall a, Preserves (k a)) -> Preserves (bind m k).
Proof.
  intros Hm Hk s. unfold bind. specialize (Hm s). destruct (m s) as [[a|e] s1]; [|done].
  etrans; [exact Hm|apply Hk].
Qed.
Lemma preserves_catch {A} (m : Eff S E A) h :
  Preserves m -> (forall e, Preserves (h e)) -> Preserves (catch m h).
Proof.
  intros Hm Hk s. unfold catch. specialize (Hm s). destruct (m s) as [[a|e] s1]; [done|].
  etrans; [exact Hm|apply Hk].
Qed.
Lemma preserves_finally {A} (m : Eff S E A) f :
  Preserves m -> Preserves f -> Preserves (finally m f).
Proof.
  intros Hm Hk s. unfold finally. specialize (Hm s). destruct (m s) as [o s1].
  specialize (Hk s1). destruct (f s1) as [[u|e] s2]; by etrans.
Qed.
Lemma preserves_when c (m : Eff S E unit) : Preserves m -> Preserves (when c m).
Proof. intros Hm. destruct c; [done|apply preserves_ret]. Qed.
End preserves.

Create HintDb preserves.
#[export] Hint Resolve preserves_ret preserves_raise preserves_get : preserves.
#[export] Hint Extern 0 (PreOrder _) => apply _ : preserves.

(** Follow the structure of a method. *)
Ltac preserves :=
  repeat first
    [ solve [eauto with preserves]
    | apply preserves_bind; [apply _| |intros]
    | apply preserves_catch; [apply _| |intros]
    | apply preserves_finally; [apply _| |]
    | apply preserves_when; [apply _|]
    | progress cbv zeta
    | case_match ].

Declare Scope eff_scope.
Delimit Scope eff_scope with eff.
Notation "x <-- m ;; k" := (bind m (fun x => k))
  (at level 60, m at next level, right associativity) : eff_scope.
Notation "m ;;; k" := (bind m (fun _ => k))
  (at level 60, right associativity) : eff_scope.
