(* ===== verification/Transport.v ===== *)
(** Values of the transport interface and the remoting configuration:
    [movie/remoting/transport.py] and [movie/remoting/config.py].

    Each dataclass is a record with its validating constructor ([*_new]).  The
    connection itself is an interface of the association's model; times are integers
    (ticks of the clock), so that the test for a finite float has no counterpart.  Of
    [ipaddress] the code asks whether a host is an unspecified address and the
    canonical text of an IPv6 host: two arguments, for any of which the theorems
    hold. *)

From stdpp Require Import base list numbers strings gmap.
From S2P Require Import Prelude Bytes PyStr Serialization Wire Dict Registry ActorPath.

(** [transport._uint]. *)
Definition transport_uint (value maximum minimum : Z) : result unit :=
  raise_unless ((minimum <=? value) && (value <=? maximum)) TransportProtocolError.

Record Endpoint := mkEndpoint { ep_host : pystr; ep_port : Z }.

#[global] Instance Endpoint_eq_dec : EqDecision Endpoint.
Proof. solve_decision. Defined.

Definition Endpoint_new (host : pystr) (port : Z) : result Endpoint :=
  raise_unless (negb (bool_decide (0 ∈ host))) TransportProtocolError ≫= fun _ =>
  transport_uint port MAX_U16 0 ≫= fun _ => Ok (mkEndpoint host port).

Record TransportLimits := mkTransportLimits {
  tl_maximum_record_bytes : Z;
  tl_outbound_message_limit : Z;
  tl_outbound_byte_limit : Z;
  tl_inbound_message_limit : Z;
  tl_inbound_byte_limit : Z;
}.

Definition TransportLimits_new (maximum_record_bytes outbound_message_limit
    outbound_byte_limit inbound_message_limit inbound_byte_limit : Z) : result TransportLimits :=
  transport_uint maximum_record_bytes MAX_U32 COMMON_HEADER_SIZE ≫= fun _ =>
  transport_uint outbound_message_limit MAX_U32 0 ≫= fun _ =>
  transport_uint outbound_byte_limit MAX_U64 0 ≫= fun _ =>
  transport_uint inbound_message_limit MAX_U32 0 ≫= fun _ =>
  transport_uint inbound_byte_limit MAX_U64 0 ≫= fun _ =>
  Ok (mkTransportLimits maximum_record_bytes outbound_message_limit outbound_byte_limit
        inbound_message_limit inbound_byte_limit).

Record LogicalChannel := mkChannel { ch_kind : StreamKind; ch_lane_id : Z }.

#[global] Instance LogicalChannel_eq_dec : EqDecision LogicalChannel.
Proof. solve_decision. Defined.

Definition LogicalChannel_new (kind : StreamKind) (lane_id : Z) : result LogicalChannel :=
  transport_uint lane_id MAX_U16 0 ≫= fun _ =>
  match kind with
  | CONTROL | MULTIPLEXED =>
      raise_unless (lane_id =? CONTROL_LANE_ID) TransportProtocolError
  | DELIVERY_LANE =>
      raise_unless (negb (lane_id =? CONTROL_LANE_ID)) TransportProtocolError
  end ≫= fun _ => Ok (mkChannel kind lane_id).

Record TransportRecord := mkRecord { tr_channel : LogicalChannel; tr_payload : bytes }.

(** * Configuration *)

Definition _default_limits : result TransportLimits :=
  TransportLimits_new (2 ^ 20) 1024 (16 * 2 ^ 20) 1024 (16 * 2 ^ 20).

Section config.
Context (ip_unspecified : pystr -> bool) (IPv6Address : pystr -> option pystr).
Context `{Unicode} {T V : Type}.

Definition _validate_remote_name (value : pystr) : result unit :=
  raise_unless (_is_remote_name value) ProtocolValidationError.

Definition _validate_host (host : pystr) : result unit :=
  raise_unless (negb (bool_decide (host = [])) && isascii host) ProtocolValidationError
  ≫= fun _ =>
  raise_unless (negb (ip_unspecified host)) ProtocolValidationError ≫= fun _ =>
  if bool_decide (58 ∈ host) then
    match IPv6Address host with
    | None => Err ProtocolValidationError
    | Some canonical => raise_unless (bool_decide (canonical = host)) ProtocolValidationError
    end
  else raise_unless (is_host host) ProtocolValidationError.

Record RemotingConfig := mkConfig {
  rc_local : Endpoint;
  rc_peers : list (pystr * Endpoint);
  rc_serializers : SerializerRegistry (T := T) (V := V);
  rc_limits : TransportLimits;
  rc_lane_count : Z;
  rc_association_timeout : Z;
  rc_pending_association_limit : Z;
  rc_association_history_limit : Z;
  rc_health_event_capacity : Z;
  rc_health_event_max_subscriptions : Z;
}.

(** The loop over [peers.items()], with the names and endpoints seen so far. *)
Fixpoint check_peers (local : Endpoint) (items copied : list (pystr * Endpoint)) :
    result (list (pystr * Endpoint)) :=
  match items with
  | [] => Ok copied
  | (system_name, endpoint) :: rest =>
      _validate_remote_name system_name ≫= fun _ =>
      raise_unless (negb (dict_has copied system_name)) ProtocolValidationError ≫= fun _ =>
      _validate_host (ep_host endpoint) ≫= fun _ =>
      raise_unless (negb (ep_port endpoint =? 0)) ProtocolValidationError ≫= fun _ =>
      raise_unless (negb (bool_decide (endpoint ∈ copied.*2))) ProtocolValidationError ≫= fun _ =>
      raise_unless (negb (negb (ep_port local =? 0) && bool_decide (endpoint = local)))
        ProtocolValidationError ≫= fun _ =>
      check_peers local rest (copied ++ [(system_name, endpoint)])
  end.

(** [RemotingConfig.__post_init__]. *)
Definition RemotingConfig_check (c : RemotingConfig) : result RemotingConfig :=
  let l := rc_limits c in
  _validate_host (ep_host (rc_local c)) ≫= fun _ =>
  raise_unless
    (forallb (fun v => 0 <? v)
       [tl_maximum_record_bytes l; tl_outbound_message_limit l; tl_outbound_byte_limit l;
        tl_inbound_message_limit l; tl_inbound_byte_limit l]) ProtocolValidationError ≫= fun _ =>
  raise_unless (MINIMUM_GOAWAY_FRAME_BYTES <=? tl_maximum_record_bytes l)
    ProtocolValidationError ≫= fun _ =>
  raise_unless ((1 <=? rc_lane_count c) && (rc_lane_count c <=? MAX_U16))
    ProtocolValidationError ≫= fun _ =>
  raise_unless
    (forallb (fun v => 0 <? v)
       [rc_pending_association_limit c; rc_association_history_limit c;
        rc_health_event_capacity c; rc_health_event_max_subscriptions c])
    ProtocolValidationError ≫= fun _ =>
  raise_unless (0 <? rc_association_timeout c) ProtocolValidationError ≫= fun _ =>
  check_peers (rc_local c) (rc_peers c) [] ≫= fun _ => Ok c.

(** [config.peers.get(name)]. *)
Definition peers_get (c : RemotingConfig) (name : pystr) : option Endpoint :=
  dict_get (rc_peers c) name.
End config.
Arguments RemotingConfig : clear implicits.
