(* ===== verification/Association.v ===== *)
(** The association of two actor systems: [movie/remoting/association.py].

    An [Association] drives one connection: the HELLO handshake, the lanes on which
    user messages travel, the resolution requests in flight, and its own closing.
    Its fields are grouped in records ([Lifecycle], [Peer], [Negotiated], [Requests],
    [Metrics]); its methods are [Eff] functions on the association and the world [W]
    around it.  What it asks of the connection and of the remoting runtime is the class
  XX  A [_PendingResolve] is shared by the caller that
    waits and the thread that answers: [objects] is the store of these objects and
    [_pending] maps correlation IDs to them.

    A method runs here from one wait to the next: [resolve] is split where it waits
    for its answer, and the loop of an active association is one iteration.  Texts of
    exceptions are the argument [str_exn].  Not modelled: threads' names, the deadlines of
    the cleanup and the polling of [_flush_outbound], and snapshots. *)

From stdpp Require Import base list numbers strings gmap.
From S2P Require Import Prelude Bytes PyStr Serialization Wire Registry DeadLetter ActorPath.
From S2P Require Import Transport Effects.

Local Open Scope eff_scope.

Definition _ACTIVE_RECEIVE_BATCH : nat := 128.

Inductive AssociationState := HANDSHAKING | ACTIVE | CLOSING | CLOSED.

#[global] Instance AssociationState_eq_dec : EqDecision AssociationState.
Proof. solve_decision. Defined.

#[global] Instance Limits_eq_dec : EqDecision Limits.
Proof. solve_decision. Defined.
#[global] Instance HelloAccept_eq_dec : EqDecision HelloAccept.
Proof. solve_decision. Defined.

(** [movie/actor/identity.py]. *)
Record ActorIdentity := mkIdentity { system_incarnation_uid : UUID; actor_uid : UUID }.

#[global] Instance ActorIdentity_eq_dec : EqDecision ActorIdentity.
Proof. solve_decision. Defined.

Definition ActorIdentity_new (system actor : UUID) : result ActorIdentity :=
  raise_unless (negb (system =? 0)) ValueError ≫= fun _ =>
  raise_unless (negb (actor =? 0)) ValueError ≫= fun _ =>
  Ok (mkIdentity system actor).

(** [AssociationMetrics], also used for the increments of a call. *)
Record Metrics := mkMetrics {
  accepted : Z; rejected : Z; dead_letter : Z; serialization : Z; deserialization : Z;
  sequence : Z }.

Definition no_metrics : Metrics := mkMetrics 0 0 0 0 0 0.
Definition metrics_add (m d : Metrics) : Metrics :=
  mkMetrics (accepted m + accepted d) (rejected m + rejected d) (dead_letter m + dead_letter d)
    (serialization m + serialization d) (deserialization m + deserialization d)
    (sequence m + sequence d).

(** What an association can raise: its two private exceptions, or any other. *)
Inductive failure :=
  | HandshakeFailure (reason : ReasonCode) (detail : pystr) (reply : bool)
  | ProtocolFailure (reason : ReasonCode) (detail : pystr)
  | Raised (e : exn).

(** [except WireCodecError]. *)
Definition is_wire_codec_error (e : exn) : bool :=
  match e with
  | InvalidPreambleError | MalformedFrameError | FrameTooLargeError | UnsupportedFrameError
  | UnsupportedFeatureError | UnsupportedHeaderVersionError | WrongStreamError => true
  | _ => false
  end.

Record Lifecycle := mkLifecycle {
  state : AssociationState;
  close_reason : option ReasonCode;
  close_detail : option pystr;
  handshake_error : option pystr;
  stop_requested : bool;
  closed_notified : bool }.

Record Peer := mkPeer {
  peer_system_name : pystr;
  peer_incarnation_uid : UUID;
  peer_endpoint : Endpoint }.

(** The fields [_prepare_negotiated] sets together. *)
Record Negotiated := mkNegotiatedFields {
  accept : HelloAccept;
  ng_lane_count : Z;
  ng_outbound_message_limit : Z;
  ng_outbound_byte_limit : Z;
  ng_inbound_message_limit : Z;
  ng_inbound_byte_limit : Z;
  send_routes : gmap Z SerializerRoute;
  receive_routes : gmap Z SerializerRoute }.

Record _PendingResolve := mkPendingResolve {
  pr_path : pystr;
  pr_completed : bool;
  pr_response : option ResolveResponse;
  pr_error : bool }.

Record Requests := mkRequests {
  objects : gmap nat _PendingResolve;
  _pending : gmap Z nat;
  _inbound_requests : gset Z;
  _next_correlation_id : Z }.

Record Association := mkAssociation {
  a_life : Lifecycle;
  a_peer : option Peer;
  a_negotiated : option Negotiated;
  a_serializer_minors : gmap Z Z;
  a_outbound_sequences : list Z;
  a_inbound_sequences : list Z;
  a_sequence_violations_by_lane : list Z;
  a_deferred_records : list TransportRecord;
  a_deferred_bytes : Z;
  a_requests : Requests;
  a_metrics : Metrics }.

(** [Association.__init__]; [correlation] is [secrets.randbits(64) or 1]. *)
Definition Association_new (correlation : Z) : Association :=
  mkAssociation (mkLifecycle HANDSHAKING None None None false false) None None ∅ [] [] [] [] 0
    (mkRequests ∅ ∅ ∅ correlation) no_metrics.

(** * Field updates *)

Definition with_life (f : Lifecycle -> Lifecycle) (a : Association) : Association :=
  mkAssociation (f (a_life a)) (a_peer a) (a_negotiated a) (a_serializer_minors a)
    (a_outbound_sequences a) (a_inbound_sequences a) (a_sequence_violations_by_lane a)
    (a_deferred_records a) (a_deferred_bytes a) (a_requests a) (a_metrics a).
Definition with_peer (p : Peer) (a : Association) : Association :=
  mkAssociation (a_life a) (Some p) (a_negotiated a) (a_serializer_minors a)
    (a_outbound_sequences a) (a_inbound_sequences a) (a_sequence_violations_by_lane a)
    (a_deferred_records a) (a_deferred_bytes a) (a_requests a) (a_metrics a).
Definition with_minors (m : gmap Z Z) (a : Association) : Association :=
  mkAssociation (a_life a) (a_peer a) (a_negotiated a) m
    (a_outbound_sequences a) (a_inbound_sequences a) (a_sequence_violations_by_lane a)
    (a_deferred_records a) (a_deferred_bytes a) (a_requests a) (a_metrics a).
(** [_prepare_negotiated] also resets the sequences of all lanes. *)
Definition with_negotiated (n : Negotiated) (a : Association) : Association :=
  let zeros := replicate (Z.to_nat (ng_lane_count n)) 0 in
  mkAssociation (a_life a) (a_peer a) (Some n) (a_serializer_minors a) zeros zeros zeros
    (a_deferred_records a) (a_deferred_bytes a) (a_requests a) (a_metrics a).
Definition with_outbound (xs : list Z) (a : Association) : Association :=
  mkAssociation (a_life a) (a_peer a) (a_negotiated a) (a_serializer_minors a) xs
    (a_inbound_sequences a) (a_sequence_violations_by_lane a) (a_deferred_records a)
    (a_deferred_bytes a) (a_requests a) (a_metrics a).
Definition with_inbound (xs : list Z) (a : Association) : Association :=
  mkAssociation (a_life a) (a_peer a) (a_negotiated a) (a_serializer_minors a)
    (a_outbound_sequences a) xs (a_sequence_violations_by_lane a) (a_deferred_records a)
    (a_deferred_bytes a) (a_requests a) (a_metrics a).
Definition with_violations (xs : list Z) (a : Association) : Association :=
  mkAssociation (a_life a) (a_peer a) (a_negotiated a) (a_serializer_minors a)
    (a_outbound_sequences a) (a_inbound_sequences a) xs (a_deferred_records a)
    (a_deferred_bytes a) (a_requests a) (a_metrics a).
Definition with_deferred (rs : list TransportRecord) (n : Z) (a : Association) : Association :=
  mkAssociation (a_life a) (a_peer a) (a_negotiated a) (a_serializer_minors a)
    (a_outbound_sequences a) (a_inbound_sequences a) (a_sequence_violations_by_lane a) rs n
    (a_requests a) (a_metrics a).
Definition with_requests (f : Requests -> Requests) (a : Association) : Association :=
  mkAssociation (a_life a) (a_peer a) (a_negotiated a) (a_serializer_minors a)
    (a_outbound_sequences a) (a_inbound_sequences a) (a_sequence_violations_by_lane a)
    (a_deferred_records a) (a_deferred_bytes a) (f (a_requests a)) (a_metrics a).
Definition with_metrics (f : Metrics -> Metrics) (a : Association) : Association :=
  mkAssociation (a_life a) (a_peer a) (a_negotiated a) (a_serializer_minors a)
    (a_outbound_sequences a) (a_inbound_sequences a) (a_sequence_violations_by_lane a)
    (a_deferred_records a) (a_deferred_bytes a) (a_requests a) (f (a_metrics a)).

(** * Closing: the parts of the methods that run under [_condition] *)

Definition _transition_to_closing_locked (detail : pystr) (l : Lifecycle) : Lifecycle :=
  mkLifecycle CLOSING (close_reason l) (close_detail l)
    (match state l, handshake_error l with
     | HANDSHAKING, None => Some detail
     | _, e => e
     end) (stop_requested l) (closed_notified l).

Definition request_stop (l : Lifecycle) : Lifecycle :=
  mkLifecycle (state l) (close_reason l) (close_detail l) (handshake_error l) true
    (closed_notified l).

Definition is_closing (s : AssociationState) : bool :=
  match s with CLOSING | CLOSED => true | _ => false end.

(** [request_close] under the lock: whether the caller goes on. *)
Definition request_close_locked (reason : ReasonCode) (detail : pystr) (l : Lifecycle) :
    bool * Lifecycle :=
  if is_closing (state l) then (false, l)
  else (true, _transition_to_closing_locked detail
                (mkLifecycle (state l) (Some reason) (Some detail) (handshake_error l)
                   (stop_requested l) (closed_notified l))).

Definition set_close_reason_locked (reason : option ReasonCode) (detail : pystr)
    (l : Lifecycle) : Lifecycle :=
  let l1 := match close_detail l with
            | None => mkLifecycle (state l) reason (Some detail) (handshake_error l)
                        (stop_requested l) (closed_notified l)
            | Some _ => l
            end in
  if bool_decide (state l1 = CLOSED) then l1 else _transition_to_closing_locked detail l1.

(** [_run] once the runtime has accepted the association. *)
Definition become_active_locked (l : Lifecycle) : bool * Lifecycle :=
  if bool_decide (state l = HANDSHAKING)
  then (true, mkLifecycle ACTIVE (close_reason l) (close_detail l) (handshake_error l)
                (stop_requested l) (closed_notified l))
  else (false, l).

(** The three locked parts of [_mark_closed]. *)
Definition mark_notified_locked (l : Lifecycle) : bool * Lifecycle :=
  if closed_notified l then (false, l)
  else (true, mkLifecycle (state l) (close_reason l) (close_detail l) (handshake_error l)
                (stop_requested l) true).
Definition fail_request (r : _PendingResolve) : _PendingResolve :=
  mkPendingResolve (pr_path r) true (pr_response r) true.
Definition fail_pending_locked (r : Requests) : Requests :=
  mkRequests
    (foldr (fun obj objs => alter fail_request obj objs) (objects r) (map_to_list (_pending r)).*2)
    ∅ (_inbound_requests r) (_next_correlation_id r).
Definition mark_closed_locked (l : Lifecycle) : Lifecycle :=
  mkLifecycle CLOSED (close_reason l) (close_detail l)
    (match state l, handshake_error l with
     | HANDSHAKING, None =>
         Some (match close_detail l with
               | None | Some [] => lit "association closed during handshake"
               | Some detail => detail
               end)
     | _, e => e
     end) (stop_requested l) (closed_notified l).

(** [wait_active] when its wait ends: still handshaking (timed out), active, or the
    error it raises. *)
Definition wait_active_result (l : Lifecycle) : result unit :=
  match state l with
  | ACTIVE => Ok tt
  | _ => Err HandshakeError
  end.

(** * The world around an association *)

(** How a record is handed to the connection: [send], [send_terminal], or
    [send_active] (where a connection lacks it, [send_prevalidated] with the limits). *)
Inductive send_mode := Send | SendTerminal | SendActive (message_limit byte_limit : Z).

(** The calls an association makes.  [_send_if_current] is given what
    [_send_payload_locked] passes on.  [connection_cleanup] is the end of [_run]: flush if
    there is a close reason, then close the connection or leave that to the runtime. *)
Class Environment (W V : Type) := {
  monotonic : W -> Z;
  connection_send : send_mode -> TransportRecord -> W -> result unit * W;
  connection_receive : W -> result TransportRecord * W;
  connection_receive_many : nat -> W -> result (list TransportRecord) * W;
  connection_activate : TransportLimits -> W -> result unit * W;
  connection_is_open : W -> bool;
  connection_cleanup : bool -> W -> W;
  _retain_handshake_candidate : pystr -> UUID -> bytes * bytes -> W -> result bool * W;
  _activate_association : pystr -> UUID -> bytes * bytes -> W -> result bool * W;
  _association_activated : W -> W;
  _association_closed : W -> W;
  _send_if_current : pystr -> UUID -> send_mode -> TransportRecord -> W -> result unit * W;
  _admit_remote_message : ActorIdentity -> V -> UserMessage -> W ->
    RemoteAdmissionResult.t * W;
  _resolve_local_path : pystr -> W -> result (RemoteAdmissionResult.t * option (UUID * pystr));
  _publish_remoting_dead_letter : ActorIdentity -> DeadLetterReason.t -> Z -> Z -> W -> W;
  _record_metrics : Metrics -> W -> W;
}.

(** What the constructor is given, and the runtime's own data. *)
Record Setup (T V : Type) := mkSetup {
  association_uid : UUID;
  initiator : bool;
  expected_system_name : option pystr;
  expected_endpoint : option Endpoint;
  handshake_timeout : Z;
  rt_system_name : pystr;
  rt_incarnation_uid : UUID;
  rt_endpoint : Endpoint;
  rt_config : RemotingConfig T V }.
Arguments association_uid {T V}. Arguments initiator {T V}.
Arguments expected_system_name {T V}. Arguments expected_endpoint {T V}.
Arguments handshake_timeout {T V}. Arguments rt_system_name {T V}.
Arguments rt_incarnation_uid {T V}. Arguments rt_endpoint {T V}. Arguments rt_config {T V}.

(** [type(frame).__name__]. *)
Definition frame_class (f : Frame) : pystr :=
  match f with
  | FHello _ => lit "Hello"
  | FHelloAccept _ => lit "HelloAccept"
  | FGoAway _ => lit "GoAway"
  | FHelloReject _ => lit "HelloReject"
  | FResolveRequest _ => lit "ResolveRequest"
  | FResolveResponse _ => lit "ResolveResponse"
  | FResolveRejected _ => lit "ResolveRejected"
  | FUserMessage _ => lit "UserMessage"
  | FRecipientUnavailable _ => lit "RecipientUnavailable"
  | FDeserializationRejected _ => lit "DeserializationRejected"
  end.

(** Names of [RemoteAdmissionResult] members. *)
Definition admission_name (r : RemoteAdmissionResult.t) : pystr :=
  match r with
  | RemoteAdmissionResult.ACCEPTED => lit "ACCEPTED"
  | RemoteAdmissionResult.ACTOR_NOT_FOUND => lit "ACTOR_NOT_FOUND"
  | RemoteAdmissionResult.ACTOR_STOPPING => lit "ACTOR_STOPPING"
  | RemoteAdmissionResult.MAILBOX_FULL => lit "MAILBOX_FULL"
  end.

Section association.
Context `{Unicode} {T V W : Type} `{EqDecision T} (type_of : V -> T).
Context `{Environment W V} (str_exn : exn -> pystr).

Abbreviation M := (Eff (Association * W) failure).

Definition lift {A} (r : result A) : M A :=
  match r with Ok a => ret a | Err e => raise (Raised e) end.
Definition this : M Association := fun s => (Ret s.1, s).
Definition update (f : Association -> Association) : M unit := modify (fun s => (f s.1, s.2)).
(** [with self._condition]: a critical section on the lifecycle. *)
Definition locked (f : Lifecycle -> bool * Lifecycle) : M bool :=
  fun s => let '(b, l) := f (a_life s.1) in (Ret b, (with_life (fun _ => l) s.1, s.2)).
(** A call of the environment. *)
Definition call {A} (op : W -> result A * W) : M A :=
  fun s => let '(r, w) := op s.2 in
           (match r with Ok a => Ret a | Err e => Raise (Raised e) end, (s.1, w)).
Definition notify (op : W -> W) : M unit := modify (fun s => (s.1, op s.2)).
(** [assert x is not None]. *)
Definition assert_some {A} (x : option A) : M A :=
  match x with Some a => ret a | None => raise (Raised AssertionError) end.
(** [try: m except Exception: pass]. *)
Definition best_effort (m : M unit) : M unit := catch m (fun _ => ret tt).

Definition _maximum_frame_bytes (a : Association) : Z :=
  match a_negotiated a with
  | Some n => maximum_frame_bytes (ha_limits (accept n))
  | None => BOOTSTRAP_MAX_FRAME_BYTES
  end.

(** [_increment_many]; [cumulative] also counts for the runtime. *)
Definition _increment_many (cumulative : bool) (d : Metrics) : M unit :=
  update (with_metrics (fun m => metrics_add m d)) ;;;
  when cumulative (notify (_record_metrics d)).

Definition one_accepted (n : Z) : Metrics := mkMetrics n 0 0 0 0 0.
Definition one_rejected : Metrics := mkMetrics 0 1 0 0 0 0.

Definition _increment_sequence_violation (lane_id : Z) : M unit :=
  update (fun a =>
    with_metrics (fun m => metrics_add m (mkMetrics 0 0 0 0 0 1))
      (with_violations (alter (fun n => n + 1) (Z.to_nat lane_id)
                          (a_sequence_violations_by_lane a)) a)) ;;;
  notify (_record_metrics (mkMetrics 0 0 0 0 0 1)).

(** * Sending *)

Definition _send_payload_locked (r : TransportRecord) : M unit :=
  a <-- this ;;
  n <-- assert_some (a_negotiated a) ;;
  call (connection_send
          (SendActive (ng_outbound_message_limit n) (ng_outbound_byte_limit n)) r).

Definition _send_frame (frame : Frame) (bootstrap enforce_effective : bool) : M unit :=
  a <-- this ;;
  let stream_kind := match frame with FUserMessage _ => DELIVERY_LANE | _ => CONTROL end in
  let maximum := if bootstrap then BOOTSTRAP_MAX_FRAME_BYTES else _maximum_frame_bytes a in
  payload <-- lift (encode_frame frame maximum (Some stream_kind)) ;;
  let lane_id := match frame with FUserMessage m => um_lane_id m | _ => CONTROL_LANE_ID end in
  channel <-- lift (LogicalChannel_new stream_kind lane_id) ;;
  let record := mkRecord channel payload in
  if enforce_effective && bool_decide (is_Some (a_negotiated a))
  then _send_payload_locked record
  else call (connection_send Send record).

Definition _send_bootstrap_best_effort (frame : Frame) : M unit :=
  best_effort (_send_frame frame true false).
Definition _send_control_best_effort (frame : Frame) : M unit :=
  best_effort (_send_frame frame false true).
Definition _send_advisory_best_effort (frame : Frame) : M unit :=
  _send_control_best_effort frame.

(** The body of both attempts of [_send_terminal_best_effort]. *)
Definition send_terminal (frame : Frame) : M unit :=
  a <-- this ;;
  payload <-- lift (encode_frame frame (_maximum_frame_bytes a) (Some CONTROL)) ;;
  channel <-- lift (LogicalChannel_new CONTROL CONTROL_LANE_ID) ;;
  call (connection_send SendTerminal (mkRecord channel payload)).

(** [GoAway(reason, detail)], where a frame too large is sent again without detail. *)
Definition GoAway (reason : ReasonCode) (detail : pystr) : Frame :=
  FGoAway (mkReasonFrame reason detail 0).
Definition _send_terminal_best_effort (reason : ReasonCode) (detail : pystr) : M unit :=
  catch (send_terminal (GoAway reason detail)) (fun f =>
    match f with
    | Raised FrameTooLargeError =>
        if bool_decide (detail = []) then ret tt
        else best_effort (send_terminal (GoAway reason []))
    | _ => ret tt
    end).

Definition request_close (reason : ReasonCode) (detail : pystr) (notify_peer : bool) : M unit :=
  go_on <-- locked (request_close_locked reason detail) ;;
  when go_on
    (when notify_peer (_send_terminal_best_effort reason detail) ;;;
     update (with_life request_stop)).

Definition _set_close_reason (reason : option ReasonCode) (detail : pystr) : M unit :=
  update (with_life (fun l => request_stop (set_close_reason_locked reason detail l))).

Definition _mark_closed : M unit :=
  go_on <-- locked mark_notified_locked ;;
  when go_on
    (update (with_requests fail_pending_locked) ;;;
     update (with_life mark_closed_locked) ;;;
     notify _association_closed).

Definition _require_active (expected_peer_uid : option UUID) : M unit :=
  a <-- this ;;
  if negb (bool_decide (state (a_life a) = ACTIVE)) then raise (Raised NoAssociationError)
  else match expected_peer_uid with
       | Some uid =>
           if bool_decide (peer_incarnation_uid <$> a_peer a = Some uid) then ret tt
           else raise (Raised NoAssociationError)
       | None => ret tt
       end.

(** * Handshake *)

Definition _local_hello (self : Setup T V) (role : AssociationRole) : Hello :=
  let config := rt_config self in
  let l := rc_limits config in
  mkHello PROTOCOL_MAJOR PROTOCOL_MINOR role (rt_system_name self) (rt_incarnation_uid self)
    (association_uid self) (ep_host (rt_endpoint self)) (ep_port (rt_endpoint self))
    (mkLimits (tl_maximum_record_bytes l) (rc_lane_count config)
       (tl_outbound_message_limit l) (tl_outbound_byte_limit l)
       (tl_inbound_message_limit l) (tl_inbound_byte_limit l))
    (_descriptors (rc_serializers config)) [] 0.

(** What [_receive_handshake_frame] makes of an exception of the transport or codec. *)
Definition receive_failure (e : exn) : failure :=
  match e with
  | TimeoutError => HandshakeFailure PROTOCOL_VIOLATION (lit "handshake timed out") true
  | UnsupportedFrameError => HandshakeFailure UNSUPPORTED_FRAME (str_exn e) true
  | UnsupportedHeaderVersionError => HandshakeFailure INCOMPATIBLE_VERSION (str_exn e) true
  | _ => if is_wire_codec_error e then HandshakeFailure PROTOCOL_VIOLATION (str_exn e) true
         else Raised e
  end.
Definition as_receive_failure (f : failure) : failure :=
  match f with Raised e => receive_failure e | _ => f end.

Definition _defer_delivery_record (r : TransportRecord) : M unit :=
  a <-- this ;;
  n <-- assert_some (a_negotiated a) ;;
  if (ng_inbound_message_limit n <=? len (a_deferred_records a))
     || (ng_inbound_byte_limit n <? a_deferred_bytes a + len (tr_payload r))
  then raise (Raised TransportFlowControlError)
  else update (with_deferred (a_deferred_records a ++ [r])
                 (a_deferred_bytes a + len (tr_payload r))).

(** The loop repeats only after a delivery record was deferred, so that it ends
    ([receive_handshake_frame_terminates]); [None] is out of fuel. *)
Fixpoint _receive_handshake_frame (fuel : nat) (deadline : Z) (defer_delivery : bool) :
    M (option Frame) :=
  match fuel with
  | O => ret None
  | S fuel =>
      s <-- get ;;
      if deadline - monotonic s.2 <=? 0
      then raise (HandshakeFailure PROTOCOL_VIOLATION (lit "handshake timed out") true)
      else
        rf <-- catch
          (record <-- call connection_receive ;;
           frame <-- lift (decode_frame (tr_payload record) BOOTSTRAP_MAX_FRAME_BYTES
                             (Some (ch_kind (tr_channel record)))) ;;
           ret (record, frame))
          (fun f => raise (as_receive_failure f)) ;;
        match rf.2 with
        | FUserMessage _ =>
            if defer_delivery
            then _defer_delivery_record rf.1 ;;;
                 _receive_handshake_frame fuel deadline defer_delivery
            else ret (Some rf.2)
        | frame => ret (Some frame)
        end
  end.

Definition unexpected_frame (expected : pystr) (frame : Frame) : failure :=
  HandshakeFailure PROTOCOL_VIOLATION
    (lit "expected " ++ expected ++ lit ", got " ++ frame_class frame) true.

(** A frame is received at once when nothing is deferred, so one round is enough. *)
Definition _receive_hello (deadline : Z) : M Hello :=
  frame <-- _receive_handshake_frame 1 deadline false ;;
  match frame with
  | Some (FHelloReject r) => raise (HandshakeFailure (rf_reason r) (rf_detail r) false)
  | Some (FHello h) => ret h
  | Some f => raise (unexpected_frame (lit "HELLO") f)
  | None => raise (Raised RuntimeError)
  end.

Definition expected_role (local_role : AssociationRole) : AssociationRole :=
  match local_role with INITIATOR => RESPONDER | RESPONDER => INITIATOR end.

Definition system_mismatch {A} (detail : pystr) : M A :=
  raise (HandshakeFailure SYSTEM_NAME_MISMATCH detail true).
Definition hello_violation {A} (detail : pystr) : M A :=
  raise (HandshakeFailure PROTOCOL_VIOLATION detail true).

Definition limits_positive (l : Limits) : bool :=
  forallb (fun v => 0 <? v)
    [maximum_frame_bytes l; lane_count l; outbound_message_limit l; outbound_byte_limit l;
     inbound_message_limit l; inbound_byte_limit l].

(** The test on the advertised name and endpoint. *)
Definition peer_allowed (self : Setup T V) (name : pystr) (endpoint : Endpoint) : bool :=
  bool_decide (peers_get (rt_config self) name = Some endpoint)
  && match expected_system_name self with
     | Some n => bool_decide (name = n) | None => true end
  && match expected_endpoint self with
     | Some e => bool_decide (endpoint = e) | None => true end.

Definition _validate_peer_hello (self : Setup T V) (hello : Hello)
    (local_role : AssociationRole) : M unit :=
  if negb (hl_protocol_major hello =? PROTOCOL_MAJOR)
  then raise (HandshakeFailure INCOMPATIBLE_VERSION
         (lit "protocol major " ++ str_int (hl_protocol_major hello) ++
          lit " is incompatible with " ++ str_int PROTOCOL_MAJOR) true)
  else if negb (bool_decide (hl_role hello = expected_role local_role))
  then hello_violation (lit "peer HELLO has the wrong association role")
  else if negb (hl_association_uid hello =? association_uid self)
  then hello_violation (lit "peer HELLO association UID does not match the transport")
  else if hl_system_incarnation_uid hello =? rt_incarnation_uid self
  then hello_violation (lit "peer and local incarnation UIDs must differ")
  else if negb (limits_positive (hl_limits hello))
  then hello_violation (lit "peer HELLO limits must be positive")
  else if maximum_frame_bytes (hl_limits hello) <? MINIMUM_GOAWAY_FRAME_BYTES
  then hello_violation (lit "peer maximum frame bytes cannot encode the minimum GOAWAY frame")
  else match Endpoint_new (hl_endpoint_host hello) (hl_endpoint_port hello) with
       | Err _ => system_mismatch (lit "peer advertised an invalid endpoint")
       | Ok endpoint =>
           if peer_allowed self (hl_system_name hello) endpoint
           then update (with_peer (mkPeer (hl_system_name hello)
                          (hl_system_incarnation_uid hello) endpoint))
           else system_mismatch
             (lit "peer actor-system name or advertised endpoint is not allowlisted")
       end.

(** The dict comprehension over the negotiated serializers. *)
Definition minors_of (n : SerializerNegotiation) : gmap Z Z :=
  list_to_map ((fun s => (ns_serializer_id s, ns_protocol_minor s))
                 <$> reverse (sn_serializers n)).

(** The value both sides build from the two HELLOs. *)
Definition accept_value (self : Setup T V) (local peer : Hello)
    (routes : list SerializerRoute) (capabilities : list pystr) : HelloAccept :=
  let '(i, r) := if initiator self then (local, peer) else (peer, local) in
  let li := hl_limits i in let lr := hl_limits r in
  let ll := hl_limits local in let lp := hl_limits peer in
  mkHelloAccept (association_uid self)
    (Z.min (hl_protocol_minor local) (hl_protocol_minor peer))
    (mkLimits (Z.min (maximum_frame_bytes ll) (maximum_frame_bytes lp))
       (Z.min (lane_count ll) (lane_count lp))
       (Z.min (outbound_message_limit li) (inbound_message_limit lr))
       (Z.min (outbound_byte_limit li) (inbound_byte_limit lr))
       (Z.min (outbound_message_limit lr) (inbound_message_limit li))
       (Z.min (outbound_byte_limit lr) (inbound_byte_limit li)))
    routes capabilities 0.

Definition _derive_accept (self : Setup T V) (local peer : Hello) : M HelloAccept :=
  serializers <--
    (match negotiate_serializers (hl_system_incarnation_uid local) (hl_serializers local)
             (hl_system_incarnation_uid peer) (hl_serializers peer) with
     | Err SerializerNegotiationError =>
         raise (HandshakeFailure PROTOCOL_VIOLATION (str_exn SerializerNegotiationError) true)
     | r => lift r
     end) ;;
  update (with_minors (minors_of serializers)) ;;;
  capabilities <-- lift (negotiate_capabilities (hl_capabilities local) (hl_capabilities peer)) ;;
  ret (accept_value self local peer (sn_routes serializers) capabilities).

(** A dict built from the routes of one origin: a later route replaces an earlier one. *)
Definition routes_of (origin : UUID) (routes : list SerializerRoute) : gmap Z SerializerRoute :=
  list_to_map ((fun r => (sr_serializer_id r, r))
    <$> reverse (filter (fun r => sr_origin_incarnation_uid r = origin) routes)).

(** The limits of the accept value are the initiator's. *)
Definition negotiated (self : Setup T V) (peer_uid : UUID) (a : HelloAccept) : Negotiated :=
  let l := ha_limits a in
  if initiator self then
    mkNegotiatedFields a (lane_count l) (outbound_message_limit l) (outbound_byte_limit l)
      (inbound_message_limit l) (inbound_byte_limit l)
      (routes_of (rt_incarnation_uid self) (ha_serializer_routes a))
      (routes_of peer_uid (ha_serializer_routes a))
  else
    mkNegotiatedFields a (lane_count l) (inbound_message_limit l) (inbound_byte_limit l)
      (outbound_message_limit l) (outbound_byte_limit l)
      (routes_of (rt_incarnation_uid self) (ha_serializer_routes a))
      (routes_of peer_uid (ha_serializer_routes a)).

Definition _prepare_negotiated (self : Setup T V) (accept : HelloAccept) : M unit :=
  a <-- this ;;
  p <-- assert_some (a_peer a) ;;
  update (with_negotiated (negotiated self (peer_incarnation_uid p) accept)).

Definition _activate_transport (accept : HelloAccept) : M unit :=
  a <-- this ;;
  n <-- assert_some (a_negotiated a) ;;
  limits <-- lift (TransportLimits_new (maximum_frame_bytes (ha_limits accept))
                     (ng_outbound_message_limit n) (ng_outbound_byte_limit n)
                     (ng_inbound_message_limit n) (ng_inbound_byte_limit n)) ;;
  call (connection_activate limits).

(** [initiator_rank]. *)
Definition initiator_rank (self : Setup T V) (peer_uid : UUID) : bytes * bytes :=
  (be_pack 16 (if initiator self then rt_incarnation_uid self else peer_uid),
   be_pack 16 (association_uid self)).

Definition duplicate_retained : failure :=
  HandshakeFailure DUPLICATE_ASSOCIATION
    (lit "a canonical duplicate association was retained") true.

(** Fuel for the second frame: one round more than may be deferred. *)
Definition receive_fuel (a : Association) : nat :=
  match a_negotiated a with
  | Some n => S (Z.to_nat (ng_inbound_message_limit n) - length (a_deferred_records a))
  | None => 1
  end.

Definition _handshake (self : Setup T V) : M unit :=
  s <-- get ;;
  let deadline := monotonic s.2 + handshake_timeout self in
  let role := if initiator self then INITIATOR else RESPONDER in
  let local_hello := _local_hello self role in
  when (initiator self) (_send_frame (FHello local_hello) true false) ;;;
  peer_hello <-- _receive_hello deadline ;;
  _validate_peer_hello self peer_hello role ;;;
  let peer_uid := hl_system_incarnation_uid peer_hello in
  retained <-- call (_retain_handshake_candidate (hl_system_name peer_hello) peer_uid
                       (initiator_rank self peer_uid)) ;;
  (if retained then ret tt else raise duplicate_retained) ;;;
  when (negb (initiator self)) (_send_frame (FHello local_hello) true false) ;;;
  accept <-- _derive_accept self local_hello peer_hello ;;
  _prepare_negotiated self accept ;;;
  _send_frame (FHelloAccept accept) true false ;;;
  a <-- this ;;
  peer_accept <-- _receive_handshake_frame (receive_fuel a) deadline true ;;
  match peer_accept with
  | Some (FHelloReject r) => raise (HandshakeFailure (rf_reason r) (rf_detail r) false)
  | Some (FHelloAccept pa) =>
      if bool_decide (pa = accept) then _activate_transport accept
      else raise (HandshakeFailure PROTOCOL_VIOLATION
                    (lit "peer HELLO_ACCEPT is not the canonical negotiated value") true)
  | Some f => raise (unexpected_frame (lit "HELLO_ACCEPT") f)
  | None => raise (Raised RuntimeError)
  end.

(** * User messages *)

(** [int.from_bytes(system.bytes + actor.bytes, "big") % lane_count]. *)
Definition lane_of (recipient : ActorIdentity) (lanes : Z) : Z :=
  be_unpack (be_pack 16 (system_incarnation_uid recipient) ++ be_pack 16 (actor_uid recipient))
  `mod` lanes.

(** The first [try] of [send_user_message]. *)
Definition serialize_message (self : Setup T V) (a : Association) (message : V) :
    result SerializedPayload :=
  let registry := rc_serializers (rt_config self) in
  binding_for registry (type_of message) ≫= fun binding =>
  match a_negotiated a ≫= fun n => send_routes n !! sb_serializer_id binding with
  | None => Err UnsupportedManifestError
  | Some route =>
      if bool_decide (sb_manifest binding ∈ sr_manifests route)
      then match a_serializer_minors a !! sb_serializer_id binding with
           | None => Err KeyError
           | Some minor => serialize_for_route type_of registry message route minor
           end
      else Err UnsupportedManifestError
  end.

(** What [send_user_message] makes of an exception of [_send_if_current]. *)
Definition admission_failure (f : failure) : M unit :=
  match f with
  | Raised TransportCapacityError | Raised RemotingCapacityError =>
      _increment_many true one_rejected ;;; raise (Raised RemotingCapacityError)
  | Raised TransportClosedError =>
      _increment_many false one_rejected ;;; raise (Raised NoAssociationError)
  | _ => raise f
  end.

(** The second [try]: a frame that is too large counts as rejected. *)
Definition encode_message (f : UserMessage) (maximum : Z) : M bytes :=
  catch (lift (encode_frame (FUserMessage f) maximum (Some DELIVERY_LANE))) (fun e =>
    match e with
    | Raised FrameTooLargeError => _increment_many true one_rejected ;;; raise e
    | _ => raise e
    end).

(** The third [try]: the runtime takes the record if this association is current. *)
Definition hand_over (p : Peer) (n : Negotiated) (recipient : ActorIdentity) (lane_id : Z)
    (payload : bytes) : M unit :=
  catch
    (channel <-- lift (LogicalChannel_new DELIVERY_LANE lane_id) ;;
     call (_send_if_current (peer_system_name p) (system_incarnation_uid recipient)
             (SendActive (ng_outbound_message_limit n) (ng_outbound_byte_limit n))
             (mkRecord channel payload)))
    admission_failure.

(** The block under [_send_lock]. *)
Definition send_on_lane (self : Setup T V) (recipient : ActorIdentity)
    (serialized : SerializedPayload) : M unit :=
  _require_active (Some (system_incarnation_uid recipient)) ;;;
  a <-- this ;;
  n <-- assert_some (a_negotiated a) ;;
  let lane_id := lane_of recipient (ng_lane_count n) in
  match a_outbound_sequences a !! Z.to_nat lane_id with
  | None => raise (Raised IndexError)
  | Some lane_sequence =>
      if MAX_U64 <? lane_sequence then
        _increment_many true one_rejected ;;;
        request_close PROTOCOL_VIOLATION
          (lit "delivery lane " ++ str_int lane_id ++ lit " sequence is exhausted") true ;;;
        raise (Raised RemotingCapacityError)
      else
        let frame :=
          mkUserMessage (association_uid self) lane_id lane_sequence (rt_incarnation_uid self)
            (system_incarnation_uid recipient) (actor_uid recipient)
            (sp_serializer_id serialized) (sp_manifest serialized) (sp_payload serialized) 0 in
        payload <-- encode_message frame (_maximum_frame_bytes a) ;;
        p <-- assert_some (a_peer a) ;;
        hand_over p n recipient lane_id payload ;;;
        update (with_outbound
                  (<[Z.to_nat lane_id := lane_sequence + 1]> (a_outbound_sequences a))) ;;;
        _increment_many true (one_accepted 1)
  end.

Definition send_user_message (self : Setup T V) (recipient : ActorIdentity) (message : V) :
    M unit :=
  a <-- this ;;
  serialized <-- catch (lift (serialize_message self a message)) (fun f =>
    _increment_many true (mkMetrics 0 1 0 1 0 0) ;;; raise f) ;;
  send_on_lane self recipient serialized.

(** A message ready for admission. *)
Definition prepared_message : Type := ActorIdentity * V * UserMessage.

Definition frame_rejected {A} (detail : pystr) : M A :=
  raise (ProtocolFailure PROTOCOL_VIOLATION detail).

(** The identity and lane tests of [_prepare_user_message]. *)
Definition addressed_here (self : Setup T V) (n : Negotiated) (p : Peer) (frame : UserMessage)
    (channel : LogicalChannel) : bool :=
  (um_association_uid frame =? association_uid self)
  && (um_lane_id frame <? ng_lane_count n)
  && negb (bool_decide (ch_kind channel = DELIVERY_LANE)
           && negb (ch_lane_id channel =? um_lane_id frame))
  && (um_sender_incarnation_uid frame =? peer_incarnation_uid p)
  && (um_recipient_incarnation_uid frame =? rt_incarnation_uid self).

Definition deserialization_reason (e : exn) : ReasonCode :=
  match e with
  | UnknownSerializerError => UNKNOWN_SERIALIZER
  | UnsupportedManifestError => UNSUPPORTED_MANIFEST
  | _ => MALFORMED_PAYLOAD
  end.

(** The [except] clause around [deserialize]. *)
Definition reject_payload (self : Setup T V) (identity : ActorIdentity) (frame : UserMessage)
    (e : exn) : M (option prepared_message) :=
  match e with
  | UnknownSerializerError | UnsupportedManifestError | DeserializationError =>
      _increment_many true (mkMetrics 0 1 1 0 1 0) ;;;
      notify (_publish_remoting_dead_letter identity DeadLetterReason.DESERIALIZATION_REJECTED
                (um_lane_id frame) (um_lane_sequence frame)) ;;;
      _send_advisory_best_effort (FDeserializationRejected
        (mkAdvisory (association_uid self) (um_lane_id frame) (um_lane_sequence frame)
           (um_recipient_actor_uid frame) (deserialization_reason e) (str_exn e) 0)) ;;;
      ret None
  | _ => raise (Raised e)
  end.

Definition _prepare_user_message (self : Setup T V) (frame : UserMessage)
    (channel : LogicalChannel) : M (option prepared_message) :=
  a <-- this ;;
  n <-- assert_some (a_negotiated a) ;;
  p <-- assert_some (a_peer a) ;;
  if negb (addressed_here self n p frame channel)
  then frame_rejected (lit "user-message association, lane, or incarnation is invalid")
  else match a_inbound_sequences a !! Z.to_nat (um_lane_id frame) with
  | None => raise (Raised IndexError)
  | Some expected =>
      if negb (um_lane_sequence frame =? expected) then
        _increment_sequence_violation (um_lane_id frame) ;;;
        frame_rejected (lit "delivery lane " ++ str_int (um_lane_id frame) ++
          lit " expected sequence " ++ str_int expected ++ lit ", got " ++
          str_int (um_lane_sequence frame))
      else match receive_routes n !! um_serializer_id frame with
      | None => frame_rejected (lit "user-message serializer route was not negotiated")
      | Some route =>
          if negb (bool_decide (um_manifest frame ∈ sr_manifests route))
          then frame_rejected (lit "user-message serializer route was not negotiated")
          else
            update (with_inbound (<[Z.to_nat (um_lane_id frame) := expected + 1]>
                                    (a_inbound_sequences a))) ;;;
            identity <-- lift (ActorIdentity_new (rt_incarnation_uid self)
                                 (um_recipient_actor_uid frame)) ;;
            minor <-- lift (match a_serializer_minors a !! um_serializer_id frame with
                            | Some minor => Ok minor | None => Err KeyError end) ;;
            match deserialize (rc_serializers (rt_config self)) (um_serializer_id frame)
                    (um_manifest frame) (um_payload frame) (Some minor) with
            | Ok message => ret (Some (identity, message, frame))
            | Err e => reject_payload self identity frame e
            end
      end
  end.

Definition admission_reason (r : RemoteAdmissionResult.t) : result ReasonCode :=
  match r with
  | RemoteAdmissionResult.ACTOR_NOT_FOUND => Ok ACTOR_NOT_FOUND
  | RemoteAdmissionResult.ACTOR_STOPPING => Ok ACTOR_STOPPING
  | RemoteAdmissionResult.MAILBOX_FULL => Ok MAILBOX_FULL
  | RemoteAdmissionResult.ACCEPTED => Err KeyError
  end.

(** The loop of [_admit_prepared_user_messages], counting the accepted. *)
Fixpoint admit_loop (self : Setup T V) (prepared : list prepared_message) (n : Z) : M Z :=
  match prepared with
  | [] => ret n
  | (identity, message, frame) :: rest =>
      admission <-- call (fun w => let '(r, w') := _admit_remote_message identity message frame w in
                                   (Ok r, w')) ;;
      match admission with
      | RemoteAdmissionResult.ACCEPTED => admit_loop self rest (n + 1)
      | _ =>
          _increment_many true (mkMetrics 0 1 1 0 0 0) ;;;
          reason <-- lift (admission_reason admission) ;;
          _send_advisory_best_effort (FRecipientUnavailable
            (mkAdvisory (association_uid self) (um_lane_id frame) (um_lane_sequence frame)
               (um_recipient_actor_uid frame) reason (admission_name admission) 0)) ;;;
          admit_loop self rest n
      end
  end.
Definition _admit_prepared_user_messages (self : Setup T V)
    (prepared : list prepared_message) : M unit :=
  n <-- admit_loop self prepared 0 ;;
  when (negb (n =? 0)) (_increment_many true (one_accepted n)).

(** The [for] of [_handle_user_messages]: what is prepared survives an exception. *)
Fixpoint prepare_loop (self : Setup T V) (frames : list (UserMessage * LogicalChannel)) :
    Eff (list prepared_message * (Association * W)) failure unit :=
  match frames with
  | [] => ret tt
  | (frame, channel) :: rest => fun st =>
      match _prepare_user_message self frame channel st.2 with
      | (Raise f, s) => (Raise f, (st.1, s))
      | (Ret message, s) => prepare_loop self rest (st.1 ++ option_list message, s)
      end
  end.
Definition _handle_user_messages (self : Setup T V)
    (frames : list (UserMessage * LogicalChannel)) : M unit :=
  fun s =>
    let '(o, (prepared, s1)) := prepare_loop self frames ([], s) in
    finally (fun s => (o, s)) (_admit_prepared_user_messages self prepared) s1.

Definition unavailable_reason (r : ReasonCode) : result DeadLetterReason.t :=
  match r with
  | ACTOR_NOT_FOUND => Ok DeadLetterReason.ACTOR_NOT_FOUND
  | ACTOR_STOPPING => Ok DeadLetterReason.ACTOR_STOPPING
  | MAILBOX_FULL => Ok DeadLetterReason.MAILBOX_FULL
  | _ => Err KeyError
  end.

(** [unavailable] tells [RecipientUnavailable] from [DeserializationRejected]. *)
Definition _handle_advisory (self : Setup T V) (unavailable : bool) (frame : Advisory) : M unit :=
  a <-- this ;;
  n <-- assert_some (a_negotiated a) ;;
  p <-- assert_some (a_peer a) ;;
  if negb (av_association_uid frame =? association_uid self)
     || (ng_lane_count n <=? av_lane_id frame)
  then frame_rejected (lit "advisory association or lane does not match the active association")
  else
    identity <-- lift (ActorIdentity_new (peer_incarnation_uid p) (av_recipient_actor_uid frame)) ;;
    reason <-- lift (if unavailable then unavailable_reason (av_reason frame)
                     else Ok DeadLetterReason.DESERIALIZATION_REJECTED) ;;
    _increment_many true (mkMetrics 0 0 1 0 0 0) ;;;
    notify (_publish_remoting_dead_letter identity reason (av_lane_id frame)
              (av_lane_sequence frame)).

(** * Resolution requests *)

Definition _handle_resolve_request (self : Setup T V) (frame : ResolveRequest) : M unit :=
  a <-- this ;;
  let id := rq_correlation_id frame in
  if bool_decide (id ∈ _inbound_requests (a_requests a))
  then frame_rejected (lit "peer reused a live correlation ID")
  else
    update (with_requests (fun r =>
      mkRequests (objects r) (_pending r) ({[id]} ∪ _inbound_requests r)
        (_next_correlation_id r))) ;;;
    finally
      (response <--
         (if negb (bool_decide (rq_system_name frame = rt_system_name self))
          then ret (FResolveRejected (mkReasonFrame SYSTEM_NAME_MISMATCH
                      (lit "resolution actor-system name does not match") id))
          else
            s <-- get ;;
            found <-- lift (_resolve_local_path (rq_actor_path frame) s.2) ;;
            match found with
            | (RemoteAdmissionResult.ACCEPTED, actor) =>
                actor <-- assert_some actor ;;
                ret (FResolveResponse (mkResolveResponse id (rt_incarnation_uid self)
                       actor.1 actor.2))
            | (r, _) =>
                let reason := match r with
                              | RemoteAdmissionResult.ACTOR_NOT_FOUND => ACTOR_NOT_FOUND
                              | RemoteAdmissionResult.ACTOR_STOPPING => ACTOR_STOPPING
                              | _ => INVALID_PATH
                              end in
                ret (FResolveRejected (mkReasonFrame reason (admission_name r) id))
            end) ;;
       _send_frame response false true)
      (update (with_requests (fun r =>
         mkRequests (objects r) (_pending r) (_inbound_requests r ∖ {[id]})
           (_next_correlation_id r)))).

(** Completing the object a correlation ID stands for. *)
Definition complete_request (obj : nat) (response : option ResolveResponse) (r : Requests) :
    Requests :=
  mkRequests
    (alter (fun o => match response with
                     | Some f => mkPendingResolve (pr_path o) true (Some f) (pr_error o)
                     | None => fail_request o
                     end) obj (objects r))
    (_pending r) (_inbound_requests r) (_next_correlation_id r).
Definition pop_pending (id : Z) (r : Requests) : Requests :=
  mkRequests (objects r) (delete id (_pending r)) (_inbound_requests r) (_next_correlation_id r).

Definition mismatched_response {A} : M A :=
  frame_rejected (lit "resolution response identity or path does not match its request").

(** [frame] is a response, or [None] for a [ResolveRejected]. *)
Definition _handle_resolve_result (id : Z) (frame : option ResolveResponse) : M unit :=
  a <-- this ;;
  let r := a_requests a in
  match _pending r !! id with
  | None => frame_rejected (lit "peer responded with an unknown correlation ID")
  | Some obj =>
      update (with_requests (pop_pending id)) ;;;
      match frame with
      | None => update (with_requests (complete_request obj None))
      | Some f =>
          if bool_decide (Some (rp_system_incarnation_uid f) = peer_incarnation_uid <$> a_peer a)
             && bool_decide (Some (rp_actor_path f) = pr_path <$> objects r !! obj)
          then update (with_requests (complete_request obj (Some f)))
          else update (with_requests (complete_request obj None)) ;;; mismatched_response
      end
  end.

Definition advance_correlation (candidate : Z) : Z :=
  if candidate =? MAX_U64 then 1 else candidate + 1.

(** [_new_correlation_id_locked]; the source's [range(MAX_U64)] is the fuel. *)
Fixpoint _new_correlation_id_locked (fuel : nat) (candidate : Z) (live : gset Z) :
    option (Z * Z) :=
  match fuel with
  | O => None
  | S fuel =>
      let next := advance_correlation candidate in
      if negb (candidate =? 0) && negb (bool_decide (candidate ∈ live))
      then Some (candidate, next)
      else _new_correlation_id_locked fuel next live
  end.

(** The search cannot need more rounds than there are live IDs, zero and one more. *)
Definition correlation_fuel (live : gset Z) : nat := S (S (size live)).

(** A new request object under a fresh correlation ID. *)
Definition new_object (r : Requests) : nat := fresh (dom (objects r)).
Definition register_request (actor_path : pystr) (id next : Z) (r : Requests) : Requests :=
  mkRequests (<[new_object r := mkPendingResolve actor_path false None false]> (objects r))
    (<[id := new_object r]> (_pending r)) (_inbound_requests r) next.

(** [resolve] up to its wait: the correlation ID and the object waited for. *)
Definition resolve_begin (actor_path : pystr) : M (Z * nat) :=
  _require_active None ;;;
  a <-- this ;;
  n <-- assert_some (a_negotiated a) ;;
  let r := a_requests a in
  if ng_outbound_message_limit n <=? Z.of_nat (size (_pending r))
  then raise (Raised RemotingCapacityError)
  else match _new_correlation_id_locked (correlation_fuel (dom (_pending r)))
               (_next_correlation_id r) (dom (_pending r)) with
  | None => raise (Raised RemotingCapacityError)
  | Some (id, next) =>
      update (with_requests (register_request actor_path id next)) ;;;
      catch
        (p <-- lift (match a_peer a with Some p => Ok p | None => Err NoAssociationError end) ;;
         _send_frame (FResolveRequest (mkResolveRequest id (peer_system_name p) actor_path))
           false true)
        (fun f => update (with_requests (pop_pending id)) ;;; raise f) ;;;
      ret (id, new_object r)
  end.

(** [resolve] after a wait that timed out: whether it has to wait on. *)
Definition resolve_timed_out (id : Z) (obj : nat) : M unit :=
  a <-- this ;;
  let found := _pending (a_requests a) !! id in
  update (with_requests (pop_pending id)) ;;;
  if bool_decide (found = Some obj) then
    request_close PROTOCOL_VIOLATION (lit "resolution timed out with a live correlation ID") true ;;;
    raise (Raised ResolutionError)
  else ret tt.

(** [resolve] once its object is completed. *)
Definition resolve_end (obj : nat) : M ResolveResponse :=
  a <-- this ;;
  o <-- lift (match objects (a_requests a) !! obj with Some o => Ok o | None => Err KeyError end) ;;
  if pr_error o then raise (Raised ResolutionError) else assert_some (pr_response o).

(** * The active association *)

(** The local variable [pending_users] of one iteration, beside the state. *)
Abbreviation B := (Eff (list (UserMessage * LogicalChannel) * (Association * W)) failure).

Definition outer {A} (m : M A) : B A :=
  fun st => let '(o, s) := m st.2 in (o, (st.1, s)).

(** [flush_users]: the list is cleared only if handling it did not raise. *)
Definition flush_users (self : Setup T V) : B unit :=
  st <-- get ;;
  when (negb (bool_decide (st.1 = [])))
    (outer (_handle_user_messages self st.1) ;;; modify (fun st => ([], st.2))).

(** The loop over the records of a batch; [true] when a GOAWAY ended it. *)
Fixpoint process_records (self : Setup T V) (records : list TransportRecord) : B bool :=
  match records with
  | [] => ret false
  | record :: rest =>
      st <-- get ;;
      frame <-- outer (lift (decode_frame (tr_payload record) (_maximum_frame_bytes st.2.1)
                               (Some (ch_kind (tr_channel record))))) ;;
      match frame with
      | FUserMessage m =>
          modify (fun st => (st.1 ++ [(m, tr_channel record)], st.2)) ;;;
          process_records self rest
      | _ =>
          flush_users self ;;;
          match frame with
          | FResolveRequest f => outer (_handle_resolve_request self f) ;;; process_records self rest
          | FResolveResponse f =>
              outer (_handle_resolve_result (rp_correlation_id f) (Some f)) ;;;
              process_records self rest
          | FResolveRejected f =>
              outer (_handle_resolve_result (rf_correlation_id f) None) ;;;
              process_records self rest
          | FRecipientUnavailable f =>
              outer (_handle_advisory self true f) ;;; process_records self rest
          | FDeserializationRejected f =>
              outer (_handle_advisory self false f) ;;; process_records self rest
          | FGoAway f => outer (_set_close_reason (Some (rf_reason f)) (rf_detail f)) ;;; ret true
          | _ => outer (frame_rejected
                          (frame_class frame ++ lit " is not valid on an active association"))
          end
      end
  end.

Definition active_batch (self : Setup T V) (records : list TransportRecord) : M bool :=
  fun s =>
    let '(o, (_, s')) := finally (process_records self records) (flush_users self) ([], s) in
    (o, s').

(** Up to a batch of deferred records, or else of received ones; [None] is a timeout. *)
Definition next_records : M (option (list TransportRecord)) :=
  a <-- this ;;
  if bool_decide (a_deferred_records a = []) then
    catch (records <-- call (connection_receive_many _ACTIVE_RECEIVE_BATCH) ;; ret (Some records))
      (fun f => match f with Raised TimeoutError => ret None | _ => raise f end)
  else
    let records := take _ACTIVE_RECEIVE_BATCH (a_deferred_records a) in
    update (with_deferred (drop _ACTIVE_RECEIVE_BATCH (a_deferred_records a))
              (a_deferred_bytes a - foldr (fun r n => len (tr_payload r) + n) 0 records)) ;;;
    ret (Some records).

(** One iteration of [_active_loop]: [true] when the loop ends. *)
Definition active_iteration (self : Setup T V) : M bool :=
  a <-- this ;;
  if stop_requested (a_life a) then ret true
  else
    records <-- next_records ;;
    match records with
    | None => ret false
    | Some records => active_batch self records
    end.

(** [None] when [fuel] iterations did not end the loop. *)
Fixpoint _active_loop (self : Setup T V) (fuel : nat) : M (option unit) :=
  match fuel with
  | O => ret None
  | S fuel =>
      ended <-- active_iteration self ;;
      if (ended : bool) then ret (Some tt) else _active_loop self fuel
  end.

(** * The thread of an association *)

(** The [except] clauses of [_run]. *)
Definition run_failure (f : failure) : M unit :=
  let terminal reason detail :=
    _send_terminal_best_effort reason detail ;;; _set_close_reason (Some reason) detail in
  match f with
  | HandshakeFailure reason detail reply =>
      a <-- this ;;
      when reply
        (if bool_decide (reason = DUPLICATE_ASSOCIATION) && bool_decide (is_Some (a_negotiated a))
         then _send_terminal_best_effort reason detail
         else _send_bootstrap_best_effort (FHelloReject (mkReasonFrame reason detail 0))) ;;;
      _set_close_reason (Some reason) detail
  | ProtocolFailure reason detail => terminal reason detail
  | Raised TransportFlowControlError =>
      terminal FLOW_CONTROL_VIOLATION (str_exn TransportFlowControlError)
  | Raised UnsupportedFrameError => terminal UNSUPPORTED_FRAME (str_exn UnsupportedFrameError)
  | Raised TransportProtocolError =>
      terminal PROTOCOL_VIOLATION (str_exn TransportProtocolError)
  | Raised TransportClosedError => _set_close_reason None (str_exn TransportClosedError)
  | Raised TimeoutError => _set_close_reason None (str_exn TimeoutError)
  | Raised e =>
      if is_wire_codec_error e || bool_decide (e = ProtocolValidationError)
      then terminal PROTOCOL_VIOLATION (str_exn e)
      else _set_close_reason (Some PROTOCOL_VIOLATION) (str_exn e)
  end.

(** The body of the [try] of [_run]: [None] while the active loop runs. *)
Definition run_body (self : Setup T V) (fuel : nat) : M (option unit) :=
  _handshake self ;;;
  s <-- get ;;
  (if connection_is_open s.2 then ret tt
   else raise (HandshakeFailure PROTOCOL_VIOLATION
                 (lit "transport failed before association activation") false)) ;;;
  a <-- this ;;
  p <-- assert_some (a_peer a) ;;
  activated <-- call (_activate_association (peer_system_name p) (peer_incarnation_uid p)
                        (initiator_rank self (peer_incarnation_uid p))) ;;
  (if activated then ret tt else raise duplicate_retained) ;;;
  go_on <-- locked become_active_locked ;;
  if (go_on : bool) then notify _association_activated ;;; _active_loop self fuel else ret (Some tt).

(** The [finally] clause of [_run], without its deadlines. *)
Definition run_finally : M unit :=
  update (with_life request_stop) ;;;
  a <-- this ;;
  notify (connection_cleanup (bool_decide (is_Some (close_reason (a_life a))))) ;;;
  _mark_closed.

(** [_run]: [None] while it runs. *)
Definition _run (self : Setup T V) (fuel : nat) : M (option unit) :=
  ended <-- catch (run_body self fuel) (fun f => run_failure f ;;; ret (Some tt)) ;;
  match ended with
  | None => ret None
  | Some _ => run_finally ;;; ret (Some tt)
  end.
End association.
