(* ===== verification/AssociationRules.v ===== *)
(** Rules for following the methods of an association: a preorder on its state that
    every primitive step respects is respected by every method built from them. *)

From stdpp Require Import base list numbers strings gmap.
From S2P Require Import Prelude Bytes PyStr Serialization Wire Registry DeadLetter Transport.
From S2P Require Import Effects Association.

Section rules.
Context {W : Type} (R : Association * W -> Association * W -> Prop) `{!PreOrder R}.

Lemma preserves_this : Preserves R (this (W := W)).
Proof. intros s. reflexivity. Qed.
Lemma preserves_lift {A} (r : result A) : Preserves R (lift (W := W) r).
Proof. destruct r; intros s; reflexivity. Qed.
Lemma preserves_assert {A} (x : option A) : Preserves R (assert_some (W := W) x).
Proof. destruct x; intros s; reflexivity. Qed.
Lemma preserves_update f :
  (forall a w, R (a, w) (f a, w)) -> Preserves R (update (W := W) f).
Proof. intros Hf [a w]. apply Hf. Qed.
Lemma preserves_call {A} (op : W -> result A * W) :
  (forall a w, R (a, w) (a, (op w).2)) -> Preserves R (call op).
Proof. intros Hf [a w]. unfold call. cbn. specialize (Hf a w). by destruct (op w) as [[] w']. Qed.
Lemma preserves_notify (op : W -> W) :
  (forall a w, R (a, w) (a, op w)) -> Preserves R (notify op).
Proof. intros Hf [a w]. apply Hf. Qed.
End rules.

#[export] Hint Resolve preserves_this preserves_lift preserves_assert : preserves.
