(* ===== verification/AssociationHandshake.v ===== *)
(** The handshake of [movie/remoting/association.py]: both ends derive the same
    HELLO_ACCEPT and mirrored limits and routes (what completed runs agree on is in
    [AssociationAgreement]), each end that hears what the other
    sends completes its handshake, and the wait for the second frame ends whatever the
    peer sends. *)

From stdpp Require Import base list numbers strings gmap sorting.
From S2P Require Import Prelude Bytes PyStr Serialization Wire WireRoundTrip Registry Negotiation.
From S2P Require Import DeadLetter Transport Effects Association.

Section agreement.
Context `{Unicode} {T V W : Type} `{EqDecision T} `{Environment W V} (str_exn : exn -> pystr).

(** The data of a running actor system: its configuration went through
    [RemotingConfig_check] and its registry through the builder. *)
Record setup_ok (s : Setup T V) : Prop := {
  so_association : uuid_ok (association_uid s);
  so_incarnation : uuid_ok (rt_incarnation_uid s);
  so_name : str_ok (rt_system_name s);
  so_host : str_ok (ep_host (rt_endpoint s));
  so_descriptors : Forall descriptor_ok (_descriptors (rc_serializers (rt_config s)));
}.

(** * Routes of a negotiation are valid *)

Lemma check_manifests_perm xs ys :
  xs ≡ₚ ys -> check_manifests xs = check_manifests ys.
Proof.
  intros P. unfold check_manifests. f_equal. induction P; simpl.
  - done.
  - by f_equal.
  - by rewrite !andb_assoc, (andb_comm (match _encoded_text y _ _ with Ok _ => _ | _ => _ end)).
  - congruence.
Qed.

Lemma routes_at_ok o a b r :
  uuid_ok o -> o <> 0 -> descriptor_ok a -> descriptor_ok b ->
  r ∈ routes_at o (sd_serializer_id a) (sendable a b) -> route_ok r.
Proof.
  intros Ho Hz Ha Hb Hr. pose proof (append_route_ok [] o _ a b Ha Hb eq_refl Hz) as E.
  apply routes_at_elem in Hr as [Hne ->]. unfold append_route in E.
  rewrite bool_decide_eq_false_2 in E by done.
  apply bind_ok in E as (r & E & _).
  destruct (route_new_inv _ _ _ _ E) as (-> & _ & Hi & Hl & Hc & Hd & Hn).
  assert (Hstr : Forall str_ok (sorted_utf8 (elements (sendable a b)))).
  { apply elements_str_ok. intros m Hm. apply (do_writable _ Ha). unfold sendable in Hm. set_solver. }
  pose proof (sorted_utf8_perm (elements (sendable a b))) as P.
  split; simpl; [done|done|].
  unfold SerializerRoute_new, registry_uint. rewrite (proj2 (Z.eqb_neq o 0) Hz).
  rewrite (check_manifests_perm _ _ P), Hc.
  rewrite (proj2 (all_distinct_spec _)) by (by rewrite P).
  replace (len (sorted_utf8 (elements (sendable a b)))) with (len (elements (sendable a b)))
    by (unfold len; by rewrite P).
  rewrite !(proj2 (Z.leb_le _ _)) by lia.
  rewrite bool_decide_eq_false_2.
  2: { intros En. apply Hn. apply Permutation_nil. rewrite <- P. rewrite <- En. by rewrite sorted_utf8_perm. }
  simpl. do 2 f_equal. apply sorted_utf8_id; [|apply sorted_utf8_sorted].
  rewrite P. apply manifest_scalar; [by rewrite <- P|done].
Qed.

Lemma negotiated_routes_ok u F v G n :
  uuid_ok u -> uuid_ok v -> Forall descriptor_ok F -> Forall descriptor_ok G ->
  negotiate_serializers u F v G = Ok n -> Forall route_ok (sn_routes n).
Proof.
  intros Hu Hv HF HG Hn.
  assert (Hz : u <> 0 /\ v <> 0).
  { unfold negotiate_serializers in Hn. inv_run. done. }
  destruct Hz as [Hzu Hzv].
  destruct (negotiate_inv u F v G n HF HG Hn) as (f & s & _ & Hwf & Hws & _ & _ & _ & ->).
  simpl. unfold sorted_routes. rewrite merge_sort_Permutation. apply Forall_forall.
  intros r (i & a & b & _ & Ha & Hb & Hr)%pair_routes_elem.
  destruct (Hwf _ _ Ha) as [Hda <-], (Hws _ _ Hb) as [Hdb Hi].
  destruct Hr as [Hr|Hr]; [by apply (routes_at_ok u a b)|].
  rewrite <- Hi in Hr. by apply (routes_at_ok v b a).
Qed.

(** * Agreement *)

(** Two ends see each other's limits and routes: what one may send, the other takes. *)
Record mirrored (n m : Negotiated) : Prop := {
  mi_accept : accept n = accept m;
  mi_lanes : ng_lane_count n = ng_lane_count m;
  mi_out_messages : ng_outbound_message_limit n = ng_inbound_message_limit m;
  mi_out_bytes : ng_outbound_byte_limit n = ng_inbound_byte_limit m;
  mi_in_messages : ng_inbound_message_limit n = ng_outbound_message_limit m;
  mi_in_bytes : ng_inbound_byte_limit n = ng_outbound_byte_limit m;
  mi_send : send_routes n = receive_routes m;
  mi_receive : receive_routes n = send_routes m;
}.

(** The limits a side ends up with are within its own and its peer's configuration. *)
Definition within (n : Negotiated) (own peer : RemotingConfig T V) : Prop :=
  let o := rc_limits own in let p := rc_limits peer in
  maximum_frame_bytes (ha_limits (accept n)) <=
    Z.min (tl_maximum_record_bytes o) (tl_maximum_record_bytes p) /\
  ng_lane_count n <= Z.min (rc_lane_count own) (rc_lane_count peer) /\
  ng_outbound_message_limit n <=
    Z.min (tl_outbound_message_limit o) (tl_inbound_message_limit p) /\
  ng_outbound_byte_limit n <= Z.min (tl_outbound_byte_limit o) (tl_inbound_byte_limit p) /\
  ng_inbound_message_limit n <=
    Z.min (tl_inbound_message_limit o) (tl_outbound_message_limit p) /\
  ng_inbound_byte_limit n <= Z.min (tl_inbound_byte_limit o) (tl_outbound_byte_limit p).

Lemma negotiate_capabilities_comm xs ys :
  negotiate_capabilities xs ys = negotiate_capabilities ys xs.
Proof.
  unfold negotiate_capabilities, check_capabilities. rewrite !forallb_app, andb_comm.
  by rewrite (comm_L (∩) (list_to_set xs)).
Qed.

Lemma accept_value_agree (I R : Setup T V) hi hr routes caps :
  initiator R = negb (initiator I) -> association_uid I = association_uid R ->
  accept_value I hi hr routes caps = accept_value R hr hi routes caps.
Proof.
  intros HR HU. unfold accept_value. rewrite HR, HU.
  rewrite (Z.min_comm (hl_protocol_minor hi)), (Z.min_comm (maximum_frame_bytes _)),
    (Z.min_comm (lane_count _)). by destruct (initiator I).
Qed.

Lemma negotiated_mirrored (I R : Setup T V) a :
  initiator R = negb (initiator I) ->
  mirrored (negotiated I (rt_incarnation_uid R) a) (negotiated R (rt_incarnation_uid I) a).
Proof. intros HR. unfold negotiated. rewrite HR. by destruct (initiator I). Qed.

(** What a call of [_derive_accept] comes to. *)
Lemma derive_accept_run (self : Setup T V) local peer (s : Association * W) :
  _derive_accept str_exn self local peer s =
  match negotiate_serializers (hl_system_incarnation_uid local) (hl_serializers local)
          (hl_system_incarnation_uid peer) (hl_serializers peer) with
  | Ok n =>
      (match negotiate_capabilities (hl_capabilities local) (hl_capabilities peer) with
       | Ok caps => Ret (accept_value self local peer (sn_routes n) caps)
       | Err e => Raise (Raised e)
       end, (with_minors (minors_of n) s.1, s.2))
  | Err SerializerNegotiationError =>
      (Raise (HandshakeFailure PROTOCOL_VIOLATION (str_exn SerializerNegotiationError) true), s)
  | Err e => (Raise (Raised e), s)
  end.
Proof.
  unfold _derive_accept. destruct (negotiate_serializers _ _ _ _) as [n|e].
  - cbn. destruct (negotiate_capabilities _ _); reflexivity.
  - destruct e; reflexivity.
Qed.

(** Both configurations bound what either side ends up with. *)
Lemma negotiated_within (self peer : Setup T V) role role' uid routes caps :
  within (negotiated self uid
            (accept_value self (_local_hello self role) (_local_hello peer role') routes caps))
    (rt_config self) (rt_config peer).
Proof. unfold within, negotiated, accept_value. destruct (initiator self); simpl; lia. Qed.
End agreement.

(** * Waiting for the second frame *)

Section receiving.
Context `{Unicode} {V W : Type} `{Environment W V} (str_exn : exn -> pystr).

Definition payload_bytes (rs : list TransportRecord) : Z :=
  foldr (fun r n => len (tr_payload r) + n) 0 rs.

(** The deferred records are counted exactly and within the inbound limits. *)
Record deferred_ok (n : Negotiated) (a : Association) : Prop := {
  df_negotiated : a_negotiated a = Some n;
  df_messages : len (a_deferred_records a) <= ng_inbound_message_limit n;
  df_counted : a_deferred_bytes a = payload_bytes (a_deferred_records a);
  df_bytes : a_deferred_bytes a <= ng_inbound_byte_limit n;
}.

Lemma payload_bytes_snoc rs r : payload_bytes (rs ++ [r]) = payload_bytes rs + len (tr_payload r).
Proof. unfold payload_bytes. induction rs as [|x rs IH]; simpl in *; lia. Qed.

(** Deferring either adds the record within the limits or raises. *)
Lemma defer_spec r n a (w : W) :
  deferred_ok n a ->
  let '(o, (a', w')) := _defer_delivery_record r (a, w) in
  w' = w /\ deferred_ok n a' /\
  match o with
  | Ret _ => receive_fuel a = S (receive_fuel a') /\
             a_deferred_records a' = a_deferred_records a ++ [r]
  | Raise _ => a' = a
  end.
Proof.
  intros [Hn Hm Hc Hb]. unfold _defer_delivery_record. cbn. rewrite Hn. cbn.
  destruct ((_ <=? _) || _) eqn:E; cbn; [done|].
  apply orb_false_iff in E as [E1%Z.leb_gt E2%Z.ltb_ge].
  split_and!; [done| |unfold receive_fuel; cbn; rewrite Hn|done].
  - split; cbn; [done| |rewrite payload_bytes_snoc; lia|lia].
    rewrite len_app, len_singleton. lia.
  - rewrite length_app. unfold len in *. simpl. lia.
Qed.

(** The wait for the peer's HELLO_ACCEPT ends: whatever the transport delivers,
    and however many delivery records overtook the frame, the loop returns a frame or
    raises within one round more than the inbound message limit; the records it put
    aside are counted exactly and never exceed the negotiated message and byte limits. *)
Theorem handshake_wait_ends n a (w : W) deadline :
  deferred_ok n a ->
  let '(o, (a', _)) :=
    _receive_handshake_frame str_exn (receive_fuel a) deadline true (a, w) in
  o <> Ret None /\ deferred_ok n a' /\
  exists rs, a_deferred_records a' = a_deferred_records a ++ rs.
Proof.
  intros Hok. remember (receive_fuel a) as fuel eqn:Hf.
  assert (Hpos : (0 < fuel)%nat).
  { subst fuel. unfold receive_fuel. destruct (a_negotiated a); lia. }
  revert a w Hok Hf Hpos. induction fuel as [|fuel IH]; intros a w Hok Hf Hpos; [lia|].
  cbn [_receive_handshake_frame]. unfold bind at 1, get. cbn -[_receive_handshake_frame _defer_delivery_record].
  destruct (_ <=? 0); [split_and!; [done|done|by exists []; rewrite app_nil_r]|].
  unfold bind, catch, call, lift, ret, raise. cbn -[_receive_handshake_frame _defer_delivery_record].
  destruct (connection_receive w) as [[r|e] w1]; cbn -[_receive_handshake_frame _defer_delivery_record];
    [|split_and!; [done|done|by exists []; rewrite app_nil_r]].
  destruct (decode_frame _ _ _) as [f|e]; cbn -[_receive_handshake_frame _defer_delivery_record];
    [|split_and!; [done|done|by exists []; rewrite app_nil_r]].
  destruct f; try (split_and!; [done|done|by exists []; rewrite app_nil_r]).
  pose proof (defer_spec r n a w1 Hok) as Hd.
  destruct (_defer_delivery_record r (a, w1)) as [[u|e] [a1 w2]];
    destruct Hd as (-> & Hok1 & Hd).
  - destruct Hd as [Hfuel Hrs]. rewrite <- Hf in Hfuel. injection Hfuel as Hfuel.
    assert (Hp1 : (0 < fuel)%nat).
    { rewrite Hfuel. unfold receive_fuel. destruct (a_negotiated a1); lia. }
    specialize (IH a1 w1 Hok1 Hfuel Hp1).
    destruct (_receive_handshake_frame _ _ _ _ _) as [o [a2 w3]].
    destruct IH as (? & ? & rs & ->). split_and!; [done|done|].
    exists (r :: rs). by rewrite Hrs, <- (assoc_L (++)).
  - subst a1. split_and!; [done|done|]. exists []. by rewrite app_nil_r.
Qed.
End receiving.

(** * Two systems over a link that delivers what is sent *)

(** The connection of one end: what it will receive, and what it has sent. *)
Record link := mkLink {
  inbox : list TransportRecord;
  outbox : list (send_mode * TransportRecord) }.

Definition link_send (m : send_mode) (r : TransportRecord) (w : link) : result unit * link :=
  (Ok tt, mkLink (inbox w) (outbox w ++ [(m, r)])).

#[global] Instance link_environment V : Environment link V := {
  monotonic _ := 0;
  connection_send := link_send;
  connection_receive w :=
    match inbox w with
    | r :: rest => (Ok r, mkLink rest (outbox w))
    | [] => (Err TimeoutError, w)
    end;
  connection_receive_many n w :=
    match inbox w with
    | [] => (Err TimeoutError, w)
    | rs => (Ok (take n rs), mkLink (drop n rs) (outbox w))
    end;
  connection_activate _ w := (Ok tt, w);
  connection_is_open _ := true;
  connection_cleanup _ w := w;
  _retain_handshake_candidate _ _ _ w := (Ok true, w);
  _activate_association _ _ _ w := (Ok true, w);
  _association_activated w := w;
  _association_closed w := w;
  _send_if_current _ _ m r w := link_send m r w;
  _admit_remote_message _ _ _ w := (RemoteAdmissionResult.ACCEPTED, w);
  _resolve_local_path _ _ := Ok (RemoteAdmissionResult.ACTOR_NOT_FOUND, None);
  _publish_remoting_dead_letter _ _ _ _ w := w;
  _record_metrics _ w := w;
}.

Definition control_record (payload : bytes) : TransportRecord :=
  mkRecord (mkChannel CONTROL CONTROL_LANE_ID) payload.
Definition sent_control (payload : bytes) : send_mode * TransportRecord :=
  (Send, control_record payload).

Section completion.
Context `{Unicode} {T V : Type} `{EqDecision T}.
Context (ip_unspecified : pystr -> bool) (IPv6Address : pystr -> option pystr).
Context (str_exn : exn -> pystr).

(** A running system that will meet [peer]: its data is well formed, its configuration
    accepted, and [peer] is on its allowlist under the endpoint it advertises. *)
Record ready (self peer : Setup T V) : Prop := {
  rd_ok : setup_ok self;
  rd_config : RemotingConfig_check ip_unspecified IPv6Address (rt_config self)
                = Ok (rt_config self);
  rd_limits : let l := rc_limits (rt_config self) in
              TransportLimits_new (tl_maximum_record_bytes l) (tl_outbound_message_limit l)
                (tl_outbound_byte_limit l) (tl_inbound_message_limit l)
                (tl_inbound_byte_limit l) = Ok l;
  rd_endpoint : Endpoint_new (ep_host (rt_endpoint self)) (ep_port (rt_endpoint self))
                  = Ok (rt_endpoint self);
  rd_timeout : 0 < handshake_timeout self;
  rd_allowed : peer_allowed self (rt_system_name peer) (rt_endpoint peer) = true;
}.

Definition role_of_setup (self : Setup T V) : AssociationRole :=
  if initiator self then INITIATOR else RESPONDER.
Definition hello_of (self : Setup T V) : Hello := _local_hello self (role_of_setup self).

Lemma control_channel : LogicalChannel_new CONTROL CONTROL_LANE_ID
  = Ok (mkChannel CONTROL CONTROL_LANE_ID).
Proof. reflexivity. Qed.

(** A bootstrap frame that encodes is sent. *)
Lemma send_bootstrap f b a w :
  frame_type f <> USER_MESSAGE ->
  encode_frame f BOOTSTRAP_MAX_FRAME_BYTES (Some CONTROL) = Ok b ->
  _send_frame (V := V) f true false (a, w) =
    (Ret tt, (a, mkLink (inbox w) (outbox w ++ [sent_control b]))).
Proof.
  intros Hf Hb. unfold _send_frame, bind, this. cbn -[encode_frame BOOTSTRAP_MAX_FRAME_BYTES].
  destruct f; try done; rewrite Hb; reflexivity.
Qed.

Lemma decode_control f b :
  frame_ok f -> frame_type f <> USER_MESSAGE ->
  encode_frame f BOOTSTRAP_MAX_FRAME_BYTES (Some CONTROL) = Ok b ->
  decode_frame b BOOTSTRAP_MAX_FRAME_BYTES (Some CONTROL) = Ok f.
Proof.
  intros Hok Ht He. unfold encode_frame in He. apply bind_ok in He as (u & Hs & He).
  destruct u. apply decode_encode_generic; try done. by destruct f.
Qed.

(** What an end advertises, and its peer should know of it. *)
Definition identity_of (s : Setup T V) : Peer :=
  mkPeer (rt_system_name s) (rt_incarnation_uid s) (rt_endpoint s).

(** The next frame of the inbox is returned when it is not a delivery. *)
Lemma receive_control fuel deadline defer f b a rest out :
  0 < deadline -> frame_ok f -> frame_type f <> USER_MESSAGE ->
  encode_frame f BOOTSTRAP_MAX_FRAME_BYTES (Some CONTROL) = Ok b ->
  _receive_handshake_frame (V := V) str_exn (S fuel) deadline defer
    (a, mkLink (control_record b :: rest) out) = (Ret (Some f), (a, mkLink rest out)).
Proof.
  intros Hd Hok Ht He. cbn [_receive_handshake_frame]. unfold bind at 1, get.
  cbn -[decode_frame _receive_handshake_frame BOOTSTRAP_MAX_FRAME_BYTES].
  rewrite Z.sub_0_r, (proj2 (Z.leb_gt _ _)) by done.
  unfold bind, catch, call, lift.
  cbn -[decode_frame _receive_handshake_frame BOOTSTRAP_MAX_FRAME_BYTES].
  rewrite (decode_control f b Hok Ht He). by destruct f.
Qed.

Lemma hello_frame_ok self : setup_ok self -> frame_ok (FHello (hello_of self)).
Proof. intros []. unfold hello_of. cbn. split_and!; try done. Qed.

Lemma accept_frame_ok (self peer : Setup T V) n role role' :
  setup_ok self -> setup_ok peer ->
  negotiate_serializers (rt_incarnation_uid self) (hl_serializers (_local_hello self role))
    (rt_incarnation_uid peer) (hl_serializers (_local_hello peer role')) = Ok n ->
  frame_ok (FHelloAccept (accept_value self (_local_hello self role) (_local_hello peer role')
    (sn_routes n) [])).
Proof.
  intros Hs Hp Hn. unfold accept_value. cbn. destruct (initiator self); cbn;
    (split_and!; [apply (so_association _ Hs)| |done]);
    (eapply negotiated_routes_ok; [| | | |exact Hn]; apply Hs || apply Hp).
Qed.

Lemma config_limits self peer :
  ready self peer -> limits_positive (hl_limits (hello_of self)) = true /\
  MINIMUM_GOAWAY_FRAME_BYTES <= maximum_frame_bytes (hl_limits (hello_of self)).
Proof.
  intros [_ Hc _ _ _ _]. unfold RemotingConfig_check in Hc. inv_run.
  unfold limits_positive. cbn in *.
  repeat match goal with E : _ && _ = true |- _ => apply andb_true_iff in E as [? ?] end.
  split; [|lia]. rewrite !andb_true_iff. split_and!; try done; try lia.
Qed.

(** The peer's HELLO passes every test and its data is noted. *)
Lemma hello_validated self peer (s : Association * link) :
  ready self peer -> ready peer self -> initiator peer = negb (initiator self) ->
  association_uid peer = association_uid self ->
  rt_incarnation_uid self <> rt_incarnation_uid peer ->
  _validate_peer_hello (W := link) self (hello_of peer) (role_of_setup self) s =
    (Ret tt, (with_peer (mkPeer (rt_system_name peer) (rt_incarnation_uid peer)
                (rt_endpoint peer)) s.1, s.2)).
Proof.
  intros Hs Hp Hi Hu Hd. destruct (config_limits peer self Hp) as [Hl Hm].
  unfold _validate_peer_hello.
  change (hl_protocol_major (hello_of peer)) with PROTOCOL_MAJOR. rewrite Z.eqb_refl.
  rewrite (bool_decide_eq_true_2 (hl_role _ = _)).
  2: { unfold hello_of, role_of_setup, expected_role. cbn. rewrite Hi. by destruct (initiator self). }
  change (hl_association_uid (hello_of peer)) with (association_uid peer). rewrite Hu, Z.eqb_refl.
  change (hl_system_incarnation_uid (hello_of peer)) with (rt_incarnation_uid peer).
  rewrite (proj2 (Z.eqb_neq _ _)) by congruence. rewrite Hl. cbn [negb].
  rewrite (proj2 (Z.ltb_ge _ _)) by done.
  change (hl_endpoint_host (hello_of peer)) with (ep_host (rt_endpoint peer)).
  change (hl_endpoint_port (hello_of peer)) with (ep_port (rt_endpoint peer)).
  rewrite (rd_endpoint _ _ Hp).
  change (hl_system_name (hello_of peer)) with (rt_system_name peer).
  by rewrite (rd_allowed _ _ Hs).
Qed.

(** The negotiated limits are ones the transport accepts. *)
Lemma transport_activates self peer acc a (w : link) :
  ready self peer -> ready peer self ->
  acc = accept_value self (hello_of self) (hello_of peer) (ha_serializer_routes acc)
          (ha_capabilities acc) ->
  a_negotiated a = Some (negotiated self (rt_incarnation_uid peer) acc) ->
  _activate_transport (V := V) acc (a, w) = (Ret tt, (a, w)).
Proof.
  intros Hs Hp Ha Hn. unfold _activate_transport, bind, this, assert_some. cbn.
  rewrite Hn. cbn.
  pose proof (rd_limits _ _ Hs) as Ls. pose proof (rd_limits _ _ Hp) as Lp.
  unfold TransportLimits_new, transport_uint in Ls, Lp. cbn zeta in Ls, Lp. inv_run.
  unfold TransportLimits_new, transport_uint, negotiated. rewrite Ha. unfold accept_value.
  destruct (initiator self); cbn; rewrite !(proj2 (Z.leb_le _ _)) by lia; reflexivity.
Qed.

Definition accept_of (self peer : Setup T V) (n : SerializerNegotiation) : HelloAccept :=
  accept_value self (hello_of self) (hello_of peer) (sn_routes n) [].

(** One end that receives what the other end sends. *)
Lemma handshake_end self peer n bs bp ba c :
  ready self peer -> ready peer self -> initiator peer = negb (initiator self) ->
  association_uid peer = association_uid self ->
  negotiate_serializers (rt_incarnation_uid self) (hl_serializers (hello_of self))
    (rt_incarnation_uid peer) (hl_serializers (hello_of peer)) = Ok n ->
  encode_frame (FHello (hello_of self)) BOOTSTRAP_MAX_FRAME_BYTES (Some CONTROL) = Ok bs ->
  encode_frame (FHello (hello_of peer)) BOOTSTRAP_MAX_FRAME_BYTES (Some CONTROL) = Ok bp ->
  encode_frame (FHelloAccept (accept_of self peer n)) BOOTSTRAP_MAX_FRAME_BYTES (Some CONTROL)
    = Ok ba ->
  exists a, _handshake (V := V) str_exn self
      (Association_new c, mkLink [control_record bp; control_record ba] []) =
      (Ret tt, (a, mkLink [] [sent_control bs; sent_control ba])) /\
    a_negotiated a = Some (negotiated self (rt_incarnation_uid peer) (accept_of self peer n)) /\
    a_peer a = Some (mkPeer (rt_system_name peer) (rt_incarnation_uid peer) (rt_endpoint peer)) /\
    a_serializer_minors a = minors_of n /\ a_deferred_records a = [] /\
    a_life a = a_life (Association_new c).
Proof.
  intros Hs Hp Hi Hu Hn Es Ep Ea.
  assert (Hd : rt_incarnation_uid self <> rt_incarnation_uid peer).
  { unfold negotiate_serializers in Hn. inv_run. done. }
  assert (Hacc : frame_ok (FHelloAccept (accept_of self peer n))).
  { apply accept_frame_ok; [apply (rd_ok _ _ Hs)|apply (rd_ok _ _ Hp)|exact Hn]. }
  assert (Ht : 0 < handshake_timeout self) by apply (rd_timeout _ _ Hs).
  pose proof (hello_frame_ok _ (rd_ok _ _ Hp)) as Hok.
  unfold _handshake. fold (role_of_setup self). fold (hello_of self).
  assert (Hfirst : forall s, s.2 = mkLink [control_record bp; control_record ba] [] ->
    when (initiator self) (_send_frame (V := V) (FHello (hello_of self)) true false) s =
    (Ret tt, (s.1, mkLink [control_record bp; control_record ba]
                     (if initiator self then [sent_control bs] else [])))).
  { intros [a w] Hw. cbn in Hw. subst w. unfold when. destruct (initiator self); [|done].
    by rewrite (send_bootstrap _ bs). }
  eexists. split_and!.
  { unfold bind at 1, get. cbn [monotonic link_environment fst snd]. rewrite Z.add_0_l.
    unfold bind at 1. rewrite Hfirst by done. cbn [fst].
    unfold bind at 1, _receive_hello. unfold bind at 1.
    rewrite (receive_control 0 _ _ (FHello (hello_of peer)) bp) by done. cbn [fst].
    unfold ret at 1. unfold bind at 1. rewrite hello_validated by done. cbn [fst snd].
    unfold bind at 1, call at 1. cbn [fst snd _retain_handshake_candidate link_environment].
    unfold bind at 1, ret at 1. unfold bind at 1.
    replace (when (negb (initiator self)) _ _) with
      (Ret tt : outcome failure unit,
       (with_peer (mkPeer (rt_system_name peer) (rt_incarnation_uid peer) (rt_endpoint peer))
          (Association_new c), mkLink [control_record ba] [sent_control bs])).
    2: { unfold when. destruct (initiator self); cbn [negb]; [done|].
         by rewrite (send_bootstrap _ bs). }
    unfold bind at 1. rewrite derive_accept_run.
    change (hl_system_incarnation_uid (hello_of self)) with (rt_incarnation_uid self).
    change (hl_system_incarnation_uid (hello_of peer)) with (rt_incarnation_uid peer).
    rewrite Hn. cbn [hl_capabilities hello_of _local_hello].
    change (negotiate_capabilities [] []) with (Ok ([] : list pystr)).
    fold (accept_of self peer n). unfold bind at 1.
    unfold _prepare_negotiated. unfold bind at 1, this at 1. cbn [fst snd].
    unfold bind at 1, assert_some at 1. cbn [a_peer with_minors with_peer].
    unfold ret at 1, update at 1, modify at 1. cbn [fst snd peer_incarnation_uid].
    unfold bind at 1. rewrite (send_bootstrap _ ba) by done.
    unfold bind at 1, this at 1. cbn [fst inbox outbox]. unfold bind at 1.
    unfold receive_fuel. cbn [a_negotiated with_negotiated].
    rewrite (receive_control _ _ _ (FHelloAccept (accept_of self peer n)) ba) by done.
    rewrite bool_decide_eq_true_2 by done.
    rewrite (transport_activates self peer) by (done || (unfold accept_of, accept_value;
      by destruct (initiator self))). reflexivity. }
  all: reflexivity.
Qed.

End completion.

(** * Two systems that share one serializer *)
Module HandshakeRun.
Import Examples Peers.
#[local] Existing Instance ascii_unicode.

Definition unspecified (host : pystr) : bool := bool_decide (host = lit "0.0.0.0").
Definition no_ipv6 (host : pystr) : option pystr := None.
Definition texts (e : exn) : pystr := lit "error".

Definition limits0 : TransportLimits := mkTransportLimits 65536 100 100000 50 50000.
Definition alpha : Endpoint := mkEndpoint (lit "alpha.example") 7001.
Definition beta : Endpoint := mkEndpoint (lit "beta.example") 7002.
Definition config0 (own : Endpoint) (name : pystr) (other : Endpoint) : RemotingConfig unit bytes :=
  mkConfig own [(name, other)] peer limits0 4 5 8 8 100 100.

Definition I0 : Setup unit bytes :=
  mkSetup _ _ 9 true (Some (lit "beta")) (Some beta) 5 (lit "alpha") 3 alpha
    (config0 alpha (lit "beta") beta).
Definition R0 : Setup unit bytes :=
  mkSetup _ _ 9 false None None 5 (lit "beta") 4 beta (config0 beta (lit "alpha") alpha).

Lemma I0_ready : ready unspecified no_ipv6 I0 R0.
Proof.
  split; [split; [by_compute..|apply peer_descriptors]|vm_compute; reflexivity..].
Qed.

Lemma R0_ready : ready unspecified no_ipv6 R0 I0.
Proof.
  split; [split; [by_compute..|apply peer_descriptors]|vm_compute; reflexivity..].
Qed.


(** A delivery record overtakes: it is put aside and the wait times out. *)
Definition negotiated0 : Negotiated := negotiated I0 4 (accept_of I0 R0 outcome).
Definition waiting : Association := with_negotiated negotiated0 (Association_new 1).

Lemma waiting_ok : deferred_ok negotiated0 waiting.
Proof. split; [reflexivity|vm_compute; discriminate|reflexivity|vm_compute; discriminate]. Qed.

Lemma handshake_wait_ends_witness :
  deferred_ok negotiated0 waiting /\
  (_receive_handshake_frame (V := bytes) texts (receive_fuel waiting) 5 true
    (waiting, mkLink [] [])).1 <> Ret None.
Proof.
  split; [exact waiting_ok|].
  pose proof (handshake_wait_ends (V := bytes) texts negotiated0 waiting (mkLink [] []) 5 waiting_ok)
    as Hend.
  destruct (_receive_handshake_frame texts (receive_fuel waiting) 5 true (waiting, mkLink [] []))
    as [o [a' w']]. exact (proj1 Hend).
Defined.
End HandshakeRun.
