(* ===== verification/AssociationAgreement.v ===== *)
(** What a completed handshake of [movie/remoting/association.py] establishes, over any
    connection, clock and runtime.

    [traced] records, around any [Environment], the records that crossed the connection.
    [concluded] is what one end knows after [_handshake] returned, whatever it was sent;
    two ends that heard each other agree. *)

From stdpp Require Import base list numbers strings gmap.
From S2P Require Import Prelude Bytes PyStr Serialization Wire WireRoundTrip Registry Negotiation.
From S2P Require Import DeadLetter Transport Effects Association AssociationHandshake.

(** * Recording the connection *)

Record exchange := mkExchange { received : list TransportRecord; sent : list TransportRecord }.

Definition note_received (rs : list TransportRecord) (t : exchange) : exchange :=
  mkExchange (received t ++ rs) (sent t).
Definition note_sent (r : TransportRecord) (t : exchange) : exchange :=
  mkExchange (received t) (sent t ++ [r]).

(** An operation of the environment, and what is noted when it succeeds. *)
Definition noting {W A} (note : A -> exchange -> exchange) (op : W -> result A * W) (w : W * exchange) :
    result A * (W * exchange) :=
  let '(r, w1) := op w.1 in
  (r, (w1, match r with Ok a => note a w.2 | Err _ => w.2 end)).
Definition quietly {W A} (op : W -> result A * W) : W * exchange -> result A * (W * exchange) :=
  noting (fun _ t => t) op.

Definition traced {W V} (E : Environment W V) : Environment (W * exchange) V := {|
  monotonic w := monotonic w.1;
  connection_send m r := noting (fun _ => note_sent r) (connection_send m r);
  connection_receive := noting (fun r => note_received [r]) connection_receive;
  connection_receive_many n := noting note_received (connection_receive_many n);
  connection_activate l := quietly (connection_activate l);
  connection_is_open w := connection_is_open w.1;
  connection_cleanup b w := (connection_cleanup b w.1, w.2);
  _retain_handshake_candidate n u k := quietly (_retain_handshake_candidate n u k);
  _activate_association n u k := quietly (_activate_association n u k);
  _association_activated w := (_association_activated w.1, w.2);
  _association_closed w := (_association_closed w.1, w.2);
  _send_if_current n u m r := noting (fun _ => note_sent r) (_send_if_current n u m r);
  _admit_remote_message i v m w :=
    let '(r, w1) := _admit_remote_message i v m w.1 in (r, (w1, w.2));
  _resolve_local_path p w := _resolve_local_path p w.1;
  _publish_remoting_dead_letter i d l n w := (_publish_remoting_dead_letter i d l n w.1, w.2);
  _record_metrics m w := (_record_metrics m w.1, w.2);
|}.

Lemma filter_none {A} (P : A -> Prop) `{forall x, Decision (P x)} xs :
  Forall (fun x => ~ P x) xs -> filter P xs = [].
Proof. induction 1 as [|x xs Hx _ IH]; [done|]. by rewrite filter_cons_False. Qed.

Section agreement.
Context `{Unicode} {T V : Type} `{EqDecision T} (str_exn : exn -> pystr).

Definition decoded (r : TransportRecord) : result Frame :=
  decode_frame (tr_payload r) BOOTSTRAP_MAX_FRAME_BYTES (Some (ch_kind (tr_channel r))).

(** A delivery record, which may overtake the frames of the handshake. *)
Definition is_delivery (r : TransportRecord) : bool :=
  match decoded r with Ok (FUserMessage _) => true | _ => false end.

(** The records heard, deliveries left out. *)
Definition heard (t : exchange) : list TransportRecord :=
  filter (fun r => is_delivery r = false) (received t).

Lemma heard_app rs t :
  heard (note_received rs t) = heard t ++ filter (fun r => is_delivery r = false) rs.
Proof. apply filter_app. Qed.

(** What one end knows once its handshake returned: it heard exactly two records besides
    deliveries, the peer's HELLO and the peer's HELLO_ACCEPT.  The HELLO is of the other
    role of the same association, from another incarnation, and names an allowlisted (and,
    if given, the expected) system at its endpoint: that is the peer it stored.  The
    HELLO_ACCEPT is the value it derived itself from the two HELLOs, its limits, routes and
    minors come from it, and it sent its own HELLO and this value. *)
Record concluded (self : Setup T V) (t : exchange) (a : Association)
    (r1 r2 : TransportRecord) (h : Hello) (n : SerializerNegotiation) (caps : list pystr)
    (bs ba : bytes) : Prop := {
  cc_heard : heard t = [r1; r2];
  cc_hello : decoded r1 = Ok (FHello h);
  cc_major : hl_protocol_major h = PROTOCOL_MAJOR;
  cc_role : hl_role h = expected_role (role_of_setup self);
  cc_association : hl_association_uid h = association_uid self;
  cc_incarnation : hl_system_incarnation_uid h <> rt_incarnation_uid self;
  cc_peer : exists e, Endpoint_new (hl_endpoint_host h) (hl_endpoint_port h) = Ok e /\
    peer_allowed self (hl_system_name h) e = true /\
    a_peer a = Some (mkPeer (hl_system_name h) (hl_system_incarnation_uid h) e);
  cc_serializers : negotiate_serializers (rt_incarnation_uid self) (hl_serializers (hello_of self))
    (hl_system_incarnation_uid h) (hl_serializers h) = Ok n;
  cc_capabilities : negotiate_capabilities [] (hl_capabilities h) = Ok caps;
  cc_accept : decoded r2 = Ok (FHelloAccept
    (accept_value self (hello_of self) h (sn_routes n) caps));
  cc_negotiated : a_negotiated a = Some (negotiated self (hl_system_incarnation_uid h)
    (accept_value self (hello_of self) h (sn_routes n) caps));
  cc_minors : a_serializer_minors a = minors_of n;
  cc_sent : sent t = [control_record bs; control_record ba];
  cc_sent_hello : encode_frame (FHello (hello_of self)) BOOTSTRAP_MAX_FRAME_BYTES (Some CONTROL)
    = Ok bs;
  cc_sent_accept : encode_frame (FHelloAccept
    (accept_value self (hello_of self) h (sn_routes n) caps)) BOOTSTRAP_MAX_FRAME_BYTES
    (Some CONTROL) = Ok ba }.

Section one_end.
Context {W : Type} {E : Environment W V}.
#[local] Instance noted : Environment (W * exchange) V := traced E.

(** A bootstrap frame that was sent has been encoded within the limit. *)
Lemma sent_inv f a w t s' :
  frame_type f <> USER_MESSAGE ->
  _send_frame (V := V) f true false (a, (w, t)) = (Ret tt, s') ->
  exists b w', encode_frame f BOOTSTRAP_MAX_FRAME_BYTES (Some CONTROL) = Ok b /\
    s' = (a, (w', note_sent (control_record b) t)).
Proof.
  intros Hf Hs. unfold _send_frame, bind, this in Hs.
  cbn -[encode_frame BOOTSTRAP_MAX_FRAME_BYTES] in Hs.
  assert (Hk : match f with FUserMessage _ => DELIVERY_LANE | _ => CONTROL end = CONTROL) by by destruct f.
  assert (Hl : match f with FUserMessage m => um_lane_id m | _ => CONTROL_LANE_ID end
    = CONTROL_LANE_ID) by by destruct f.
  rewrite Hk, Hl in Hs. destruct (encode_frame f _ _) as [b|e]; [|done].
  rewrite control_channel in Hs. unfold call, noting in Hs. cbn in Hs. destruct (connection_send _ _ w) as [[[]|e] w1]; [|done].
  injection Hs as <-. by exists b, w1.
Qed.

(** The wait for a frame notes the records it took, deliveries before the frame. *)
Lemma receive_inv fuel deadline defer a w t f s' :
  _receive_handshake_frame (V := V) str_exn fuel deadline defer (a, (w, t)) = (Ret (Some f), s') ->
  (defer = true -> frame_type f <> USER_MESSAGE) /\
  exists a' w' rs r, s' = (a', (w', note_received (rs ++ [r]) t)) /\ decoded r = Ok f /\
    Forall (fun x => is_delivery x = true) rs /\
    a_peer a' = a_peer a /\ a_negotiated a' = a_negotiated a /\
    a_serializer_minors a' = a_serializer_minors a.
Proof.
  revert a w t. induction fuel as [|fuel IH]; intros a w t; [done|].
  cbn [_receive_handshake_frame]. unfold bind at 1, get.
  cbn -[decode_frame _receive_handshake_frame BOOTSTRAP_MAX_FRAME_BYTES _defer_delivery_record].
  destruct (_ <=? 0); [done|]. unfold bind, catch, call, lift, noting.
  cbn -[decode_frame _receive_handshake_frame BOOTSTRAP_MAX_FRAME_BYTES _defer_delivery_record].
  destruct (connection_receive w) as [[r|e] w1];
    cbn -[decode_frame _receive_handshake_frame BOOTSTRAP_MAX_FRAME_BYTES _defer_delivery_record];
    [|done].
  destruct (decode_frame _ _ _) as [g|e] eqn:Ed;
    cbn -[decode_frame _receive_handshake_frame BOOTSTRAP_MAX_FRAME_BYTES _defer_delivery_record];
    [|done].
  assert (Hone : (Ret (Some g), (a, (w1, note_received [r] t))) = (Ret (Some f) : outcome failure _, s') ->
    g = f /\ exists a' w' rs r, s' = (a', (w', note_received (rs ++ [r]) t)) /\ decoded r = Ok f /\
    Forall (fun x => is_delivery x = true) rs /\
    a_peer a' = a_peer a /\ a_negotiated a' = a_negotiated a /\
    a_serializer_minors a' = a_serializer_minors a).
  { intros [= -> <-]. split; [done|]. exists a, w1, [], r. split_and!; done || by constructor. }
  destruct g; try (intros [<- He]%Hone; split; [done|exact He]).
  destruct defer; [|intros [<- He]%Hone; split; [done|exact He]].
  intros Hrun. destruct (_defer_delivery_record _ _) as [[[]|e] [a1 [w2 t1]]] eqn:Er; [|done].
  assert (Hd : w2 = w1 /\ t1 = note_received [r] t /\ a_peer a1 = a_peer a /\
    a_negotiated a1 = a_negotiated a /\ a_serializer_minors a1 = a_serializer_minors a).
  { unfold _defer_delivery_record, bind, this, assert_some in Er. cbn in Er.
    destruct (a_negotiated a) as [n|] eqn:En; [|done]. cbn in Er. destruct (_ || _); [done|].
    injection Er as <- <- <-. by cbn. }
  destruct Hd as (-> & -> & Hp & Hn & Hm).
  destruct (IH _ _ _ Hrun) as (Hf & a' & w' & rs & x & -> & Hx & Hrs & Hp' & Hn' & Hm').
  split; [done|]. exists a', w', (r :: rs), x. split_and!; try done; [| |congruence..].
  - unfold note_received. cbn. by rewrite <- (assoc_L (++)).
  - constructor; [|done]. unfold is_delivery, decoded. by rewrite Ed.
Qed.
(** A HELLO that passed the tests. *)
Lemma validated_inv (self : Setup T V) h a (w : W * exchange) s' :
  _validate_peer_hello self h (role_of_setup self) (a, w) = (Ret tt, s') ->
  hl_protocol_major h = PROTOCOL_MAJOR /\ hl_role h = expected_role (role_of_setup self) /\
  hl_association_uid h = association_uid self /\
  hl_system_incarnation_uid h <> rt_incarnation_uid self /\
  exists e, Endpoint_new (hl_endpoint_host h) (hl_endpoint_port h) = Ok e /\
    peer_allowed self (hl_system_name h) e = true /\
    s' = (with_peer (mkPeer (hl_system_name h) (hl_system_incarnation_uid h) e) a, w).
Proof.
  unfold _validate_peer_hello, hello_violation, system_mismatch. intros Hv.
  repeat match type of Hv with
  | (if ?c then _ else _) _ = _ => destruct c eqn:?; [done|]
  end.
  destruct (Endpoint_new _ _) as [e|]; [|done]. destruct (peer_allowed _ _ _) eqn:?; [|done].
  injection Hv as <-.
  repeat match goal with
  | H : negb _ = false |- _ => apply negb_false_iff in H
  end.
  split_and!; [lia|by eapply bool_decide_eq_true|lia|lia|]. by exists e.
Qed.

Lemma activated_inv acc a w t s' :
  _activate_transport (V := V) acc (a, (w, t)) = (Ret tt, s') -> exists w', s' = (a, (w', t)).
Proof.
  unfold _activate_transport, bind, this, assert_some. cbn.
  destruct (a_negotiated a); [|done]. cbn. destruct (TransportLimits_new _ _ _ _ _); [|done].
  cbn. unfold call, quietly, noting. cbn.
  destruct (connection_activate _ w) as [[[]|] w1]; [|done]. intros [= <-]. by exists w1.
Qed.

(** Nothing but the two frames, each taken where the handshake waits for it. *)
Lemma heard_frames rs1 r1 rs2 r2 h acc :
  Forall (fun x => is_delivery x = true) rs1 -> Forall (fun x => is_delivery x = true) rs2 ->
  decoded r1 = Ok (FHello h) -> decoded r2 = Ok (FHelloAccept acc) ->
  filter (fun r => is_delivery r = false) ((rs1 ++ [r1]) ++ rs2 ++ [r2]) = [r1; r2].
Proof.
  intros H1 H2 E1 E2. rewrite !filter_app.
  rewrite !(filter_none _ rs1), !(filter_none _ rs2)
    by (eapply Forall_impl; [eassumption|]; cbn; intros; congruence).
  rewrite !filter_cons_True; [done|unfold is_delivery; by rewrite ?E1, ?E2..].
Qed.

(** The second half of [_handshake], from the two HELLOs on. *)
Definition exchange_accepts (self : Setup T V) (deadline : Z) (h : Hello) :
    Eff (Association * (W * exchange)) failure unit :=
  (accept <-- _derive_accept str_exn self (hello_of self) h ;;
   _prepare_negotiated self accept ;;;
   _send_frame (FHelloAccept accept) true false ;;;
   a <-- this ;;
   peer_accept <-- _receive_handshake_frame str_exn (receive_fuel a) deadline true ;;
   match peer_accept with
   | Some (FHelloReject r) => raise (HandshakeFailure (rf_reason r) (rf_detail r) false)
   | Some (FHelloAccept pa) =>
       if bool_decide (pa = accept) then _activate_transport accept
       else raise (HandshakeFailure PROTOCOL_VIOLATION
                     (lit "peer HELLO_ACCEPT is not the canonical negotiated value") true)
   | Some f => raise (unexpected_frame (lit "HELLO_ACCEPT") f)
   | None => raise (Raised RuntimeError)
   end)%eff.

Lemma accepts_exchanged (self : Setup T V) deadline h p a w t a' w' t' :
  a_peer a = Some p -> peer_incarnation_uid p = hl_system_incarnation_uid h ->
  exchange_accepts self deadline h (a, (w, t)) = (Ret tt, (a', (w', t'))) ->
  exists n caps ba rs r2,
    let acc := accept_value self (hello_of self) h (sn_routes n) caps in
    negotiate_serializers (rt_incarnation_uid self) (hl_serializers (hello_of self))
      (hl_system_incarnation_uid h) (hl_serializers h) = Ok n /\
    negotiate_capabilities [] (hl_capabilities h) = Ok caps /\
    encode_frame (FHelloAccept acc) BOOTSTRAP_MAX_FRAME_BYTES (Some CONTROL) = Ok ba /\
    decoded r2 = Ok (FHelloAccept acc) /\ Forall (fun x => is_delivery x = true) rs /\
    t' = note_received (rs ++ [r2]) (note_sent (control_record ba) t) /\
    a_peer a' = Some p /\
    a_negotiated a' = Some (negotiated self (hl_system_incarnation_uid h) acc) /\
    a_serializer_minors a' = minors_of n.
Proof.
  intros Hp Hu Hrun. unfold exchange_accepts in Hrun.
  apply bind_ret_inv in Hrun as (acc & s1 & Hs1 & Hrun). rewrite derive_accept_run in Hs1.
  change (hl_system_incarnation_uid (hello_of self)) with (rt_incarnation_uid self) in Hs1.
  destruct (negotiate_serializers _ _ _ _) as [n|[]] eqn:En; try done.
  change (hl_capabilities (hello_of self)) with (@nil pystr) in Hs1.
  destruct (negotiate_capabilities _ _) as [caps|] eqn:Ec; [|done]. injection Hs1 as <- <-.
  apply bind_ret_inv in Hrun as ([] & s2 & Hs2 & Hrun).
  unfold _prepare_negotiated, bind, this, assert_some in Hs2. cbn [fst snd] in Hs2.
  change (a_peer (with_minors _ _)) with (a_peer a) in Hs2. rewrite Hp in Hs2.
  injection Hs2 as <-. rewrite Hu in Hrun.
  apply bind_ret_inv in Hrun as ([] & s3 & Hs3 & Hrun).
  apply sent_inv in Hs3 as (ba & w3 & Ea & ->); [|done].
  apply bind_ret_inv in Hrun as (? & ? & [= <- <-] & Hrun).
  apply bind_ret_inv in Hrun as ([f|] & s4 & Hs4 & Hrun); [|done].
  apply receive_inv in Hs4 as (_ & a4 & w4 & rs & r2 & -> & Hr2 & Hrs & Hp4 & Hn4 & Hm4).
  destruct f as [|pa| | | | | | | |]; try done. case_bool_decide as Hpa; [|done]. subst pa.
  apply activated_inv in Hrun as (w5 & [= -> -> ->]).
  exists n, caps, ba, rs, r2. cbv zeta. rewrite Hp4, Hn4, Hm4. by split_and!.
Qed.

(** The first half: the peer's HELLO was heard and passed. *)
Lemma hellos_exchanged (self : Setup T V) c w a w' t :
  _handshake (V := V) str_exn self (Association_new c, (w, mkExchange [] [])) =
    (Ret tt, (a, (w', t))) ->
  exists deadline a2 w2 rs r1 h bs e,
    encode_frame (FHello (hello_of self)) BOOTSTRAP_MAX_FRAME_BYTES (Some CONTROL) = Ok bs /\
    decoded r1 = Ok (FHello h) /\ Forall (fun x => is_delivery x = true) rs /\
    hl_protocol_major h = PROTOCOL_MAJOR /\ hl_role h = expected_role (role_of_setup self) /\
    hl_association_uid h = association_uid self /\
    hl_system_incarnation_uid h <> rt_incarnation_uid self /\
    Endpoint_new (hl_endpoint_host h) (hl_endpoint_port h) = Ok e /\
    peer_allowed self (hl_system_name h) e = true /\
    a_peer a2 = Some (mkPeer (hl_system_name h) (hl_system_incarnation_uid h) e) /\
    exchange_accepts self deadline h (a2, (w2, mkExchange (rs ++ [r1]) [control_record bs])) =
      (Ret tt, (a, (w', t))).
Proof.
  unfold _handshake. fold (role_of_setup self). fold (hello_of self). intros Hrun.
  apply bind_ret_inv in Hrun as (? & ? & [= <- <-] & Hrun). cbv zeta in Hrun.
  apply bind_ret_inv in Hrun as ([] & s1 & Hs1 & Hrun).
  assert (exists w1 out, s1 = (Association_new c, (w1, mkExchange [] out)) /\
    if initiator self then exists bs, out = [control_record bs] /\
      encode_frame (FHello (hello_of self)) BOOTSTRAP_MAX_FRAME_BYTES (Some CONTROL) = Ok bs
    else out = []) as (w1 & out & -> & Hout).
  { unfold when in Hs1. destruct (initiator self).
    - apply sent_inv in Hs1 as (bs & w1 & He & ->); [|done]. exists w1, [control_record bs].
      split; [done|by exists bs].
    - injection Hs1 as <-. by exists w, []. }
  clear Hs1. apply bind_ret_inv in Hrun as (h & s2 & Hs2 & Hrun).
  unfold _receive_hello in Hs2. apply bind_ret_inv in Hs2 as ([f|] & s2' & Hf & Hs2); [|done].
  apply receive_inv in Hf as (_ & a2 & w2 & rs & r1 & -> & Hr1 & Hrs & _).
  destruct f; try done. injection Hs2 as -> <-.
  apply bind_ret_inv in Hrun as ([] & s3 & Hv & Hrun).
  apply validated_inv in Hv as (Hmajor & Hrole & Huid & Hinc & e & He & Hal & ->).
  apply bind_ret_inv in Hrun as (retained & s4 & Hs4 & Hrun).
  unfold call, noted, traced, quietly, noting in Hs4. cbn -[initiator_rank] in Hs4.
  destruct (_retain_handshake_candidate _ _ _ w2) as [[?|] w4]; [|done]. injection Hs4 as -> <-.
  apply bind_ret_inv in Hrun as ([] & s5 & Hs5 & Hrun).
  destruct retained; [|done]. injection Hs5 as <-.
  apply bind_ret_inv in Hrun as ([] & s6 & Hs6 & Hrun).
  unfold when in Hs6. destruct (initiator self); cbn [negb] in Hs6.
  - injection Hs6 as <-. destruct Hout as (bs & -> & Hb).
    eexists _, _, _, rs, r1, h, bs, e. split_and!; [..|exact Hrun]; done.
  - apply sent_inv in Hs6 as (bs & w6 & Hb & ->); [|done]. subst out.
    eexists _, _, _, rs, r1, h, bs, e. split_and!; [..|exact Hrun]; done.
Qed.

(** A handshake that returns has concluded, whatever the environment did. *)
Lemma handshake_concludes (self : Setup T V) c w a w' t :
  _handshake (V := V) str_exn self (Association_new c, (w, mkExchange [] [])) =
    (Ret tt, (a, (w', t))) ->
  exists r1 r2 h n caps bs ba, concluded self t a r1 r2 h n caps bs ba.
Proof.
  intros (dl & a2 & w2 & rs & r1 & h & bs & e & Hb & Hr1 & Hrs & ? & ? & ? & ? & He & Hal & Hp &
    Hrun)%hellos_exchanged.
  apply (accepts_exchanged _ _ _ _ _ _ _ _ _ _ Hp) in Hrun
    as (n & caps & ba & rs2 & r2 & Hn & Hc & Ha & Hr2 & Hrs2 & -> & Hp' & Hn' & Hm'); [|done].
  exists r1, r2, h, n, caps, bs, ba. split; try done.
  - by eapply heard_frames.
  - exists e. by split_and!.
Qed.
End one_end.

(** * Two ends *)

(** The first two records an honest peer sent are its HELLO and its HELLO_ACCEPT. *)
Lemma heard_hello (self peer : Setup T V) t t' a a' r1 r2 h n caps bs ba r1' r2' h' n' caps' bs' ba' :
  setup_ok peer -> heard t `prefix_of` sent t' ->
  concluded self t a r1 r2 h n caps bs ba ->
  concluded peer t' a' r1' r2' h' n' caps' bs' ba' -> h = hello_of peer.
Proof.
  intros Hok Hpre C C'. destruct Hpre as [k Hk].
  rewrite (cc_heard _ _ _ _ _ _ _ _ _ _ C), (cc_sent _ _ _ _ _ _ _ _ _ _ C') in Hk.
  injection Hk as <- _ _. pose proof (cc_hello _ _ _ _ _ _ _ _ _ _ C) as Hd.
  unfold decoded in Hd. cbn in Hd.
  rewrite (decode_control (FHello (hello_of peer))) in Hd; [congruence|by apply hello_frame_ok|done|].
  apply (cc_sent_hello _ _ _ _ _ _ _ _ _ _ C').
Qed.

(** An end that knows the HELLO of an honest peer knows its identity. *)
Lemma concluded_identity (self peer : Setup T V) t a r1 r2 n caps bs ba :
  Endpoint_new (ep_host (rt_endpoint peer)) (ep_port (rt_endpoint peer)) = Ok (rt_endpoint peer) ->
  concluded self t a r1 r2 (hello_of peer) n caps bs ba ->
  caps = [] /\ a_peer a = Some (identity_of peer) /\
  association_uid peer = association_uid self /\ initiator peer = negb (initiator self).
Proof.
  intros He [_ _ _ Hr Hu _ (e & He' & _ & Hp) _ Hc _ _ _ _ _ _].
  change (negotiate_capabilities [] []) with (Ok ([] : list pystr)) in Hc.
  injection Hc as <-. cbn in He'. rewrite He in He'. injection He' as <-. split_and!; try done.
  unfold hello_of, role_of_setup, expected_role in Hr. cbn in Hr.
  by destruct (initiator peer), (initiator self).
Qed.

(** The two ends of one association after both handshakes. *)
Record associated (self peer : Setup T V) (a b : Association) : Prop := {
  ag_roles : initiator peer = negb (initiator self);
  ag_association : association_uid peer = association_uid self;
  ag_peer : a_peer a = Some (identity_of peer);
  ag_self : a_peer b = Some (identity_of self);
  ag_minors : a_serializer_minors a = a_serializer_minors b;
  ag_negotiated : exists n m, a_negotiated a = Some n /\ a_negotiated b = Some m /\
    mirrored n m /\ within n (rt_config self) (rt_config peer) /\
    within m (rt_config peer) (rt_config self) }.

(** C3.  Agreement of a handshake, over any connection, clock and runtime.  When
    [_handshake] of a new association returns, then, whatever it was sent, the end has heard
    exactly a HELLO and a HELLO_ACCEPT besides deliveries.  The HELLO came from another
    incarnation in the other role of the same association and named a system that is on the
    allowlist with that endpoint (and the expected one, if one was given); this identity is
    what the end stored as its peer.  The HELLO_ACCEPT heard is the very value the end
    derived from the two HELLOs and sent itself.  When the handshake of a second well-formed
    system returns too, and each of the two heard, in order, what the other sent, then they
    are the two roles of one association, each has stored the other's name, incarnation and
    endpoint, they hold the same serializer minors, what one may send (messages, bytes,
    serializer routes) is exactly what the other takes, and no limit exceeds what either
    configuration allows. *)
Theorem handshake_agreement W (E : Environment W V) (self : Setup T V) c w a w1 t :
  _handshake (H0 := traced E) str_exn self (Association_new c, (w, mkExchange [] [])) =
    (Ret tt, (a, (w1, t))) ->
  (exists r1 r2 h n caps bs ba, concluded self t a r1 r2 h n caps bs ba) /\
  forall W' (E' : Environment W' V) (peer : Setup T V) c' (w' : W') a' w1' t',
    _handshake (H0 := traced E') str_exn peer (Association_new c', (w', mkExchange [] [])) =
      (Ret tt, (a', (w1', t'))) ->
    setup_ok self -> setup_ok peer ->
    Endpoint_new (ep_host (rt_endpoint self)) (ep_port (rt_endpoint self)) = Ok (rt_endpoint self) ->
    Endpoint_new (ep_host (rt_endpoint peer)) (ep_port (rt_endpoint peer)) = Ok (rt_endpoint peer) ->
    heard t `prefix_of` sent t' -> heard t' `prefix_of` sent t ->
    associated self peer a a'.
Proof.
  intros Hrun. pose proof (handshake_concludes _ _ _ _ _ _ Hrun) as C. split; [exact C|].
  destruct C as (r1 & r2 & h & n & caps & bs & ba & C).
  intros W' E' peer c' w' a' w1' t' Hrun' Hs Hp Hes Hep H1 H2.
  destruct (handshake_concludes _ _ _ _ _ _ Hrun')
    as (r1' & r2' & h' & n' & caps' & bs' & ba' & C').
  assert (Hh : h = hello_of peer) by exact (heard_hello _ _ _ _ _ _ _ _ _ _ _ _ _ _ _ _ _ _ _ _ Hp H1 C C').
  assert (Hh' : h' = hello_of self) by exact (heard_hello _ _ _ _ _ _ _ _ _ _ _ _ _ _ _ _ _ _ _ _ Hs H2 C' C). subst h h'.
  destruct (concluded_identity _ _ _ _ _ _ _ _ _ _ Hep C) as (-> & Hpeer & Hu & Hi).
  destruct (concluded_identity _ _ _ _ _ _ _ _ _ _ Hes C') as (-> & Hself & _ & _).
  destruct C as [_ _ _ _ _ _ _ Hn _ _ Hng Hm _ _ _], C' as [_ _ _ _ _ _ _ Hn' _ _ Hng' Hm' _ _ _].
  assert (n' = n) as ->.
  { rewrite negotiation_symmetric in Hn' by (apply Hs || apply Hp). cbn in Hn, Hn'. congruence. }
  split; [done..|congruence|]. do 2 eexists. split_and!; [exact Hng|exact Hng'| |apply negotiated_within..].
  rewrite (accept_value_agree self peer) by done. by apply negotiated_mirrored.
Qed.
End agreement.

(** * A run: the two systems of [HandshakeRun] over a link *)
Module AgreementRun.
Import Examples Peers HandshakeRun.
#[local] Existing Instance ascii_unicode.

Definition encoded (f : Frame) : bytes :=
  match encode_frame f BOOTSTRAP_MAX_FRAME_BYTES (Some CONTROL) with Ok b => b | Err _ => [] end.
Definition records (s : Setup unit bytes) : list TransportRecord :=
  [control_record (encoded (FHello (hello_of s)));
   control_record (encoded (FHelloAccept (accept_of I0 R0 outcome)))].

Definition run (self peer : Setup unit bytes) (c : Z) :=
  _handshake (H0 := traced (link_environment bytes)) texts self
    (Association_new c, (mkLink (records peer) [], mkExchange [] [])).
Definition left_by (self peer : Setup unit bytes) (c : Z) : Association := (run self peer c).2.1.

Lemma handshakes_return : exists t t' l l',
  run I0 R0 1 = (Ret tt, (left_by I0 R0 1, (l, t))) /\
  run R0 I0 2 = (Ret tt, (left_by R0 I0 2, (l', t'))) /\
  received t = records R0 /\ sent t = records I0 /\
  received t' = records I0 /\ sent t' = records R0.
Proof. do 4 eexists. split_and!; vm_compute; reflexivity. Qed.

Lemma handshake_agreement_witness : associated I0 R0 (left_by I0 R0 1) (left_by R0 I0 2).
Proof.
  destruct handshakes_return as (t & t' & l & l' & Hi & Hr & Hri & Hsi & Hrr & Hsr).
  refine (proj2 (handshake_agreement texts _ _ I0 1 _ _ l t Hi) _ _ R0 2 _ _ l' t' Hr
    (rd_ok _ _ _ _ I0_ready) (rd_ok _ _ _ _ R0_ready) _ _ _ _).
  1,2: vm_compute; reflexivity.
  - exists []. unfold heard. rewrite Hri, Hsr. vm_compute. reflexivity.
  - exists []. unfold heard. rewrite Hrr, Hsi. vm_compute. reflexivity.
Defined.
End AgreementRun.
