(* ===== verification/AssociationDelivery.v ===== *)
(** Delivery of user messages by [movie/remoting/association.py].

    [recording] adds a trace to any environment: the records the runtime took for
    sending and the messages handed to local mailboxes, in order.  Whatever a peer sends,
    a lane's messages are admitted at most once and in the order of their sequence numbers; a
    peer that follows the protocol is never refused, and what is admitted on a lane is what
    was sent on it. *)

From stdpp Require Import base list numbers strings gmap sorting.
From S2P Require Import Prelude Bytes PyStr Serialization Wire WireRoundTrip Registry Negotiation.
From S2P Require Import DeadLetter Transport Effects Association AssociationRules AssociationHandshake.

Record trace (V : Type) := mkTrace {
  t_sent : list TransportRecord;
  t_admitted : list (ActorIdentity * V * UserMessage) }.
Arguments mkTrace {V}. Arguments t_sent {V}. Arguments t_admitted {V}.

Definition no_trace {V} : trace V := mkTrace [] [].

(** Run an operation of the world beside the trace. *)
Definition beside {V W A} (op : W -> A * W) (s : trace V * W) : A * (trace V * W) :=
  let '(x, w) := op s.2 in (x, (s.1, w)).

#[global] Instance recording {V W} `{Environment W V} : Environment (trace V * W) V := {
  monotonic s := monotonic s.2;
  connection_send m r := beside (connection_send m r);
  connection_receive := beside connection_receive;
  connection_receive_many n := beside (connection_receive_many n);
  connection_activate l := beside (connection_activate l);
  connection_is_open s := connection_is_open s.2;
  connection_cleanup b s := (s.1, connection_cleanup b s.2);
  _retain_handshake_candidate n u r := beside (_retain_handshake_candidate n u r);
  _activate_association n u r := beside (_activate_association n u r);
  _association_activated s := (s.1, _association_activated s.2);
  _association_closed s := (s.1, _association_closed s.2);
  _send_if_current name uid m r s :=
    let '(x, w) := _send_if_current name uid m r s.2 in
    (x, (match x with
         | Ok _ => mkTrace (t_sent s.1 ++ [r]) (t_admitted s.1)
         | Err _ => s.1
         end, w));
  _admit_remote_message i v f s :=
    let '(x, w) := _admit_remote_message i v f s.2 in
    (x, (mkTrace (t_sent s.1) (t_admitted s.1 ++ [(i, v, f)]), w));
  _resolve_local_path p s := _resolve_local_path p s.2;
  _publish_remoting_dead_letter i r l q s := (s.1, _publish_remoting_dead_letter i r l q s.2);
  _record_metrics m s := (s.1, _record_metrics m s.2);
}.

Section delivery.
Context `{Unicode} {T V W : Type} `{EqDecision T} (type_of : V -> T).
Context `{Environment W V} (str_exn : exn -> pystr).

Abbreviation world := (trace V * W)%type.
Abbreviation M := (Eff (Association * world) failure).
Implicit Types (s : Association * world) (self : Setup T V).

(** * Methods that leave deliveries alone *)

(** What deliveries depend on: the association but for its metrics, its requests, its
    deferred records and its lifecycle, and the trace. *)
Record quiet s s' : Prop := {
  q_peer : a_peer s'.1 = a_peer s.1;
  q_negotiated : a_negotiated s'.1 = a_negotiated s.1;
  q_minors : a_serializer_minors s'.1 = a_serializer_minors s.1;
  q_inbound : a_inbound_sequences s'.1 = a_inbound_sequences s.1;
  q_outbound : a_outbound_sequences s'.1 = a_outbound_sequences s.1;
  q_sent : t_sent s'.2.1 = t_sent s.2.1;
  q_admitted : t_admitted s'.2.1 = t_admitted s.2.1;
}.

#[global] Instance quiet_refl : Reflexive quiet.
Proof. by split. Qed.
#[global] Instance quiet_trans : Transitive quiet.
Proof. intros x y z [] []. split; congruence. Qed.

#[local] Instance quiet_preorder : PreOrder quiet.
Proof. split; apply _. Qed.

(** Every run of [m] is quiet. *)
Abbreviation Quiet := (Preserves quiet).

Lemma quiet_update f :
  (forall a, a_peer (f a) = a_peer a /\ a_negotiated (f a) = a_negotiated a /\
     a_serializer_minors (f a) = a_serializer_minors a /\
     a_inbound_sequences (f a) = a_inbound_sequences a /\
     a_outbound_sequences (f a) = a_outbound_sequences a) -> Quiet (update f : M unit).
Proof. intros Hf [a w]. destruct (Hf a) as (? & ? & ? & ? & ?). by split. Qed.
Lemma quiet_call {A} (op : W -> result A * W) : Quiet (call (beside op) : M A).
Proof.
  apply preserves_call. intros a [t w]. unfold beside. cbn. destruct (op w) as [[x|e] w1]; by split.
Qed.
Lemma quiet_send m r : Quiet (call (connection_send m r) : M unit).
Proof. apply quiet_call. Qed.
Lemma quiet_notify (f : W -> W) (op : world -> world) :
  (forall x : world, op x = (x.1, f x.2)) -> Quiet (notify op : M unit).
Proof. intros Hf. apply preserves_notify. intros a [t w]. rewrite Hf. by split. Qed.

Lemma quiet_locked f : Quiet (locked f : M bool).
Proof. intros s. unfold locked. destruct (f _). by split. Qed.
#[local] Hint Resolve quiet_send quiet_call quiet_locked : preserves.
#[local] Hint Extern 1 (Preserves _ (update _)) => apply quiet_update; intros; done : preserves.
#[local] Hint Extern 1 (Preserves _ (notify _)) =>
  eapply quiet_notify; intros; reflexivity : preserves.

Lemma quiet_increment c d : Quiet (_increment_many c d : M unit).
Proof. unfold _increment_many. preserves. Qed.
Lemma quiet_violation l : Quiet (_increment_sequence_violation l : M unit).
Proof. unfold _increment_sequence_violation. preserves. Qed.
#[local] Hint Resolve quiet_increment quiet_violation : preserves.
Lemma quiet_send_frame f b e : Quiet (_send_frame f b e : M unit).
Proof. unfold _send_frame, _send_payload_locked. preserves. Qed.
#[local] Hint Resolve quiet_send_frame : preserves.
Lemma quiet_advisory f : Quiet (_send_advisory_best_effort f : M unit).
Proof. unfold _send_advisory_best_effort, _send_control_best_effort, best_effort. preserves. Qed.
Lemma quiet_close r d : Quiet (_set_close_reason r d : M unit).
Proof. unfold _set_close_reason. preserves. Qed.
#[local] Hint Resolve quiet_advisory quiet_close : preserves.
Lemma quiet_resolve_request self f : Quiet (_handle_resolve_request self f : M unit).
Proof. unfold _handle_resolve_request, frame_rejected. preserves. Qed.
Lemma quiet_resolve_result i f : Quiet (_handle_resolve_result i f : M unit).
Proof. unfold _handle_resolve_result, mismatched_response, frame_rejected. preserves. Qed.
Lemma quiet_handle_advisory self u f : Quiet (_handle_advisory self u f : M unit).
Proof. unfold _handle_advisory, frame_rejected. preserves. Qed.
Lemma quiet_reject self i f e : Quiet (reject_payload str_exn self i f e : M _).
Proof. unfold reject_payload. preserves. Qed.
#[local] Hint Resolve quiet_resolve_request quiet_resolve_result quiet_handle_advisory
  quiet_reject : preserves.
Lemma quiet_request_close r d p : Quiet (request_close r d p : M unit).
Proof.
  unfold request_close, _send_terminal_best_effort, send_terminal, best_effort. preserves.
Qed.
Lemma quiet_require_active u : Quiet (_require_active u : M unit).
Proof. unfold _require_active. preserves. Qed.
Lemma quiet_admission_failure f : Quiet (admission_failure f : M unit).
Proof. unfold admission_failure. preserves. Qed.

(** * Admission *)

(** A run that is quiet but for handing [ms] to mailboxes. *)
Definition admits (ms : list (prepared_message (V := V))) s s' : Prop :=
  quiet (s.1, (mkTrace (t_sent s.2.1) (t_admitted s.2.1 ++ ms), s.2.2)) s'.

Lemma admits_quiet ms s s1 s' : admits ms s s1 -> quiet s1 s' -> admits ms s s'.
Proof. intros H1 H2. unfold admits. by etrans. Qed.
Lemma admits_app ms ms' s s1 s' : admits ms s s1 -> admits ms' s1 s' -> admits (ms ++ ms') s s'.
Proof.
  intros [] []. cbn in *. split; cbn; try congruence.
  by rewrite q_admitted1, q_admitted0, <- (assoc_L (++)).
Qed.
Lemma admits_nil s : admits [] s s.
Proof. destruct s as [a [[] w]]. split; cbn; try done. by rewrite app_nil_r. Qed.

(** The mailbox is asked once per message, in order, and the loop never raises. *)
Lemma admit_loop_spec self ms n s :
  exists m s', admit_loop self ms n s = (Ret m, s') /\ admits ms s s'.
Proof.
  revert n s. induction ms as [|[[i v] f] ms IH]; intros n s; cbn [admit_loop].
  { exists n, s. split; [done|apply admits_nil]. }
  destruct s as [a [t w]]. unfold bind at 1, call. cbn -[admit_loop].
  destruct (_admit_remote_message i v f w) as [x w1]. cbn -[admit_loop].
  set (s1 := (a, (mkTrace (t_sent t) (t_admitted t ++ [(i, v, f)]), w1))).
  assert (Hs1 : admits [(i, v, f)] (a, (t, w)) s1) by by split.
  assert (Hrest : forall m s2, admits [(i, v, f)] (a, (t, w)) s2 ->
    exists m' s', admit_loop self ms m s2 = (Ret m', s') /\ admits ((i, v, f) :: ms) (a, (t, w)) s').
  { intros m s2 Hs2. destruct (IH m s2) as (m' & s' & E & Ha). exists m', s'. split; [done|].
    by apply (admits_app [(i, v, f)] ms _ s2). }
  destruct x; [by apply Hrest|..];
    (unfold bind at 1; pose proof (quiet_increment true (mkMetrics 0 1 1 0 0 0) s1) as Hq;
     destruct (_increment_many _ _ s1) as [[u|e] s2] eqn:E; [|by destruct s1 as [? []]];
     unfold bind at 1; cbn -[admit_loop _send_advisory_best_effort];
     unfold bind at 1;
     match goal with |- context [_send_advisory_best_effort ?g s2] =>
       pose proof (quiet_advisory g s2) as Hg;
       destruct (_send_advisory_best_effort g s2) as [[u2|e2] s3] eqn:E2 end;
     [apply Hrest; eapply admits_quiet; [exact Hs1|by etrans]
     |exfalso; revert E2; unfold _send_advisory_best_effort, _send_control_best_effort,
        best_effort, catch; destruct (_send_frame _ _ _ s2) as [[]]; done]).
Qed.

Lemma admit_prepared_spec self ms s :
  exists s', _admit_prepared_user_messages self ms s = (Ret tt, s') /\ admits ms s s'.
Proof.
  unfold _admit_prepared_user_messages. unfold bind at 1.
  destruct (admit_loop_spec self ms 0 s) as (m & s1 & -> & Ha).
  pose proof (preserves_when quiet (negb (m =? 0)) _ (quiet_increment true (one_accepted m)) s1) as Hq.
  unfold when in *. destruct (negb _); eexists; (split; [reflexivity|]); by eapply admits_quiet.
Qed.

(** * Preparation *)

Definition lane (f : UserMessage) : nat := Z.to_nat (um_lane_id f).
(** The inbound sequence of a lane moves on by one. *)
Definition advance (f : UserMessage) (expected : Z) s : Association * world :=
  (with_inbound (<[lane f := expected + 1]> (a_inbound_sequences s.1)) s.1, s.2).

(** A frame is either refused, changing nothing a delivery depends on, or it has exactly the
    expected sequence number, which is then used up. *)
Lemma prepare_cases self f ch s :
  let '(o, s') := _prepare_user_message str_exn self f ch s in
  (exists e, o = Raise e /\ quiet s s') \/
  (exists expected, a_inbound_sequences s.1 !! lane f = Some expected /\
     um_lane_sequence f = expected /\ quiet (advance f expected s) s' /\
     match o with
     | Ret (Some (i, v, f')) => f' = f
     | _ => True
     end).
Proof.
  destruct s as [a w]. unfold _prepare_user_message, bind, this. cbn.
  destruct (a_negotiated a) as [n|]; cbn; [|left; eexists; split; [done|reflexivity]].
  destruct (a_peer a) as [p|]; cbn; [|left; eexists; split; [done|reflexivity]].
  destruct (addressed_here _ _ _ _ _); cbn; [|left; eexists; split; [done|reflexivity]].
  fold (lane f). destruct (a_inbound_sequences a !! lane f) as [e|] eqn:Ee; cbn;
    [|left; eexists; split; [done|reflexivity]].
  destruct (Z.eqb_spec (um_lane_sequence f) e) as [Hseq|]; cbn.
  2: { left. eexists. split; [reflexivity|]. by split. }
  destruct (receive_routes n !! um_serializer_id f) as [r|]; cbn;
    [|left; eexists; split; [done|reflexivity]].
  destruct (bool_decide _); cbn; [|left; eexists; split; [done|reflexivity]].
  fold (lane f).
  change (with_inbound _ a, w) with (advance f e (a, w)).
  destruct (ActorIdentity_new _ _) as [i|e1]; cbn; [|right; by exists e].
  destruct (a_serializer_minors a !! um_serializer_id f) as [minor|]; cbn; [|right; by exists e].
  destruct (deserialize _ _ _ _ _) as [v|e2]; cbn; [right; by exists e|].
  pose proof (quiet_reject self i f e2 (advance f e (a, w))) as Hq.
  destruct (reject_payload _ _ _ _ _ _) as [[[[[i' v] f']|]|e3] s'] eqn:Er;
    right; exists e; split_and!; try done.
  exfalso. revert Er. clear. unfold reject_payload, bind, notify, modify, update, raise. cbn.
  destruct e2; try done; cbn; unfold _send_advisory_best_effort, _send_control_best_effort,
    best_effort, catch; by destruct (_send_frame _ _ _ _) as [[]].
Qed.

(** * A lane admits at most once and in order *)

Definition lane_sequences (k : nat) (l : list (prepared_message (V := V))) : list Z :=
  um_lane_sequence <$> filter (fun f => lane f = k) l.*2.

Definition lanes_ordered (expected : list Z) (l : list (prepared_message (V := V))) : Prop :=
  forall k, StronglySorted Z.lt (lane_sequences k l) /\
    Forall (fun q => exists e, expected !! k = Some e /\ q < e) (lane_sequences k l).

Lemma lane_sequences_app k l l' :
  lane_sequences k (l ++ l') = lane_sequences k l ++ lane_sequences k l'.
Proof. unfold lane_sequences. by rewrite fmap_app, filter_app, fmap_app. Qed.

Lemma lane_sequences_single k i v f :
  lane_sequences k [(i, v, f)] = if decide (lane f = k) then [um_lane_sequence f] else [].
Proof.
  unfold lane_sequences. rewrite fmap_cons, fmap_nil, filter_cons. cbn [snd]. by case_decide.
Qed.

Lemma sorted_snoc (l : list Z) q :
  StronglySorted Z.lt l -> Forall (fun x => x < q) l -> StronglySorted Z.lt (l ++ [q]).
Proof.
  induction 1 as [|x l Hl IH Hx]; intros Hq; simpl; [constructor; constructor|].
  apply Forall_cons in Hq as [? ?]. constructor; [by apply IH|].
  apply Forall_app. split; [done|by constructor].
Qed.

Lemma ordered_advance ex l k e :
  lanes_ordered ex l -> ex !! k = Some e -> lanes_ordered (<[k := e + 1]> ex) l.
Proof.
  intros Ho He k'. destruct (Ho k') as [Hs Hf]. split; [done|].
  eapply Forall_impl; [exact Hf|]. intros q (e' & He' & Hq).
  destruct (decide (k = k')) as [->|Hk].
  - exists (e + 1). rewrite list_lookup_insert_eq by (by eapply lookup_lt_Some).
    simplify_eq. split; [done|lia].
  - exists e'. by rewrite list_lookup_insert_ne.
Qed.

Lemma ordered_snoc ex l i v f e :
  lanes_ordered ex l -> ex !! lane f = Some e -> um_lane_sequence f = e ->
  lanes_ordered (<[lane f := e + 1]> ex) (l ++ [(i, v, f)]).
Proof.
  intros Ho He Hq k. pose proof (ordered_advance _ _ _ _ Ho He k) as [_ Hf].
  destruct (Ho k) as [Hs Hlt]. rewrite lane_sequences_app.
  assert (Hlen : (lane f < length ex)%nat) by by eapply lookup_lt_Some.
  rewrite lane_sequences_single. case_decide as Hk; subst.
  - split.
    + apply sorted_snoc; [done|]. eapply Forall_impl; [exact Hlt|].
      intros q (e' & He' & ?). simplify_eq. lia.
    + apply Forall_app. split; [done|]. constructor; [|constructor]. eexists.
      rewrite list_lookup_insert_eq by done. split; [done|lia].
  - by rewrite app_nil_r.
Qed.

Lemma prepare_loop_ordered self fs ms s :
  lanes_ordered (a_inbound_sequences s.1) (t_admitted s.2.1 ++ ms) ->
  let '(_, (ms', s')) := prepare_loop str_exn self fs (ms, s) in
  t_admitted s'.2.1 = t_admitted s.2.1 /\
  lanes_ordered (a_inbound_sequences s'.1) (t_admitted s'.2.1 ++ ms').
Proof.
  revert ms s. induction fs as [|[f ch] fs IH]; intros ms s Ho; cbn [prepare_loop]; [done|].
  cbn [snd fst]. pose proof (prepare_cases self f ch s) as Hp.
  destruct (_prepare_user_message _ _ _ _ s) as [[m|e] s1].
  - destruct Hp as [(? & ? & _)|(e & He & Hq & [_ _ _ Hin _ _ Hadm] & Hm)]; [done|].
    cbn in Hin, Hadm. assert (Ho1 : lanes_ordered (a_inbound_sequences s1.1)
      (t_admitted s1.2.1 ++ (ms ++ option_list m))).
    { rewrite Hin, Hadm, (assoc_L (++)). destruct m as [[[i v] f']|]; cbn.
      - subst f'. by apply ordered_snoc.
      - rewrite app_nil_r. by apply ordered_advance. }
    specialize (IH _ _ Ho1). destruct (prepare_loop _ _ _ _) as [o [ms' s']].
    destruct IH as [-> ?]. by rewrite <- Hadm.
  - destruct Hp as [(? & _ & [_ _ _ Hin _ _ Hadm])|(e0 & He & Hq & [_ _ _ Hin _ _ Hadm] & _)];
      cbn in Hin, Hadm; rewrite Hin, Hadm; split; try done. by apply ordered_advance.
Qed.

Definition ordered s : Prop := lanes_ordered (a_inbound_sequences s.1) (t_admitted s.2.1).

Lemma ordered_quiet s s' : quiet s s' -> ordered s -> ordered s'.
Proof. intros [_ _ _ Hin _ _ Ha]. unfold ordered. by rewrite Hin, Ha. Qed.

Lemma handle_ordered self fs s : ordered s -> ordered (_handle_user_messages str_exn self fs s).2.
Proof.
  intros Ho. unfold _handle_user_messages.
  pose proof (prepare_loop_ordered self fs [] s ltac:(by rewrite app_nil_r)) as Hp.
  destruct (prepare_loop _ _ _ _) as [o [ms s1]]. destruct Hp as [_ Hp].
  unfold finally. destruct (admit_prepared_spec self ms s1) as (s2 & -> & [_ _ _ Hin _ _ Ha]).
  cbn in Hin, Ha |- *. unfold ordered. by rewrite Hin, Ha.
Qed.

(** The same beside the list of pending users of a batch. *)
Definition keep_order (st st' : list (UserMessage * LogicalChannel) * (Association * world)) :
  Prop := ordered st.2 -> ordered st'.2.

#[local] Instance keep_order_preorder : PreOrder keep_order.
Proof. split; [intros st Ho; exact Ho|]. intros x y z Hxy Hyz Hx. by apply Hyz, Hxy. Qed.

Lemma keeps_outer {A} (m : M A) : Quiet m -> Preserves keep_order (outer m).
Proof.
  intros Hm st Ho. unfold outer. specialize (Hm st.2). destruct (m st.2) as [o s1].
  by eapply ordered_quiet.
Qed.
Lemma keeps_users f : Preserves keep_order (modify (E := failure) (fun st => (f st, st.2))).
Proof. intros st Ho. exact Ho. Qed.

Lemma keeps_flush self : Preserves keep_order (flush_users str_exn self).
Proof.
  intros [us s] Ho. unfold flush_users, bind, get, when. cbn. destruct (negb _); [|done].
  unfold outer. cbn. pose proof (handle_ordered self us s Ho) as Hh.
  by destruct (_handle_user_messages _ _ _ _) as [[] s1].
Qed.
#[local] Hint Resolve keeps_outer keeps_users keeps_flush : preserves.

Lemma keeps_records self rs : Preserves keep_order (process_records str_exn self rs).
Proof. induction rs as [|r rs IH]; cbn [process_records]; unfold frame_rejected; preserves. Qed.

Lemma batch_ordered self rs s : ordered s -> ordered (active_batch str_exn self rs s).2.
Proof.
  intros Ho. unfold active_batch, finally.
  pose proof (keeps_records self rs ([], s) Ho) as H1.
  destruct (process_records _ _ _ _) as [o st1].
  pose proof (keeps_flush self st1 H1) as H2. by destruct (flush_users _ _ _) as [[] [us s2]].
Qed.

Lemma quiet_receive_many n : Quiet (call (connection_receive_many n) : M _).
Proof. apply (quiet_call (connection_receive_many n)). Qed.
#[local] Hint Resolve quiet_receive_many : preserves.
Lemma quiet_next : Quiet (next_records : M _).
Proof. unfold next_records. preserves. Qed.

Lemma loop_ordered self fuel s : ordered s -> ordered (_active_loop str_exn self fuel s).2.
Proof.
  revert s. induction fuel as [|fuel IH]; intros s Ho; cbn [_active_loop]; [done|].
  unfold bind at 1. assert (Hit : ordered (active_iteration str_exn self s).2).
  { unfold active_iteration, bind, this. cbn -[next_records active_batch].
    destruct (stop_requested _); [done|].
    pose proof (quiet_next s) as Hq. destruct (next_records s) as [[[rs|]|f] s1];
      [apply batch_ordered|..]; by eapply ordered_quiet. }
  destruct (active_iteration _ _ _) as [[[]|f] s1]; cbn in *; [done|by apply IH|done].
Qed.

(** * Methods that admit nothing *)

Definition silent s s' : Prop := t_admitted s'.2.1 = t_admitted s.2.1.

#[local] Instance silent_preorder : PreOrder silent.
Proof. split; [done|]. intros x y z. unfold silent. congruence. Qed.

Abbreviation Silent := (Preserves silent).

Lemma quiet_silent {A} (m : M A) : Quiet m -> Silent m.
Proof. intros Hm s. apply (Hm s). Qed.
Lemma silent_update f : Silent (update f : M unit).
Proof. by intros [a [t w]]. Qed.
#[local] Hint Resolve silent_update : preserves.
#[local] Hint Extern 5 (Preserves silent _) => apply quiet_silent : preserves.

Lemma silent_call {A} (op : W -> result A * W) : Silent (call (beside op) : M A).
Proof. apply quiet_silent, quiet_call. Qed.
Lemma silent_op {A} (op : world -> result A * world) (op' : W -> result A * W) :
  op = beside op' -> Silent (call op : M A).
Proof. intros ->. apply silent_call. Qed.
#[local] Hint Extern 2 (Preserves silent (call _)) => eapply silent_op; reflexivity : preserves.

Lemma silent_receive fuel d b : Silent (_receive_handshake_frame str_exn fuel d b : M _).
Proof.
  induction fuel as [|fuel IH]; cbn [_receive_handshake_frame];
    unfold _defer_delivery_record; preserves.
Qed.
#[local] Hint Resolve silent_receive : preserves.

Lemma silent_handshake self : Silent (_handshake str_exn self : M unit).
Proof.
  unfold _handshake, _receive_hello, _validate_peer_hello, _derive_accept, _prepare_negotiated,
    _activate_transport, system_mismatch, hello_violation. preserves.
Qed.

Lemma silent_terminal r d : Silent (_send_terminal_best_effort r d : M unit).
Proof. unfold _send_terminal_best_effort, send_terminal, best_effort. preserves. Qed.
#[local] Hint Resolve silent_terminal : preserves.

Lemma silent_run_failure f : Silent (run_failure str_exn f : M unit).
Proof.
  unfold run_failure, _send_bootstrap_best_effort, best_effort. preserves.
Qed.

Lemma silent_mark_closed : Silent (_mark_closed : M unit).
Proof.
  assert (Silent (notify _association_closed : M unit)) by by intros [? []].
  unfold _mark_closed. preserves.
Qed.
#[local] Hint Resolve silent_mark_closed : preserves.
Lemma silent_run_finally : Silent (run_finally : M unit).
Proof.
  assert (Hc : forall b, Silent (notify (connection_cleanup b) : M unit)) by by intros ? [? []].
  unfold run_finally. preserves.
Qed.

(** The trace of a whole run: only the active loop admits, from fresh lanes. *)
Lemma run_body_admits self fuel s :
  t_admitted s.2.1 = [] ->
  exists ex, lanes_ordered ex (t_admitted (run_body str_exn self fuel s).2.2.1).
Proof.
  intros Hs. assert (Hnil : forall t : trace V, t_admitted t = [] ->
    exists ex, lanes_ordered ex (t_admitted t)).
  { intros t ->. exists []. intros k. split; constructor. }
  unfold run_body. unfold bind at 1. pose proof (silent_handshake self s) as Hh.
  destruct (_handshake _ _ _) as [[u|f] s1]; [|apply Hnil; cbn in *; congruence].
  assert (H1 : t_admitted s1.2.1 = []) by (cbn in *; congruence). clear Hh Hs s.
  unfold bind at 1, get. unfold bind at 1.
  destruct (connection_is_open _); [|by apply Hnil]. unfold ret at 1, bind at 1, this at 1.
  unfold bind at 1. destruct (a_peer s1.1) as [p|]; [|by apply Hnil]. unfold assert_some, ret at 1.
  unfold bind at 1.
  pose proof (silent_call (_activate_association (peer_system_name p) (peer_incarnation_uid p)
    (initiator_rank self (peer_incarnation_uid p))) s1) as Ha.
  destruct (call _ s1) as [[[]|f] s2]; [|apply Hnil; cbn in *; congruence..].
  assert (H2 : t_admitted s2.2.1 = []) by (cbn in *; congruence). clear Ha H1.
  unfold bind at 1, ret at 1, bind at 1, locked at 1.
  destruct (become_active_locked _) as [go l]. destruct go; [|by apply Hnil]. unfold bind at 1, notify, modify.
  match goal with |- context [_active_loop _ _ _ ?st] =>
    pose proof (loop_ordered self fuel st) as Hl end.
  eexists. apply Hl. unfold ordered. cbn. rewrite H2. intros k. split; constructor.
Qed.

(** At most once and in order, whatever the peer sends: over a whole run of an
    association, with any transport and any runtime, the messages of one lane that reach
    local mailboxes have strictly increasing sequence numbers.  No message is admitted
    twice and none overtakes another, even when the peer repeats, reorders or forges
    frames, when a batch fails half-way, or when payloads cannot be read. *)
Theorem inbound_lanes_in_order self fuel c w k :
  StronglySorted Z.lt
    (lane_sequences k
       (t_admitted (_run str_exn self fuel (Association_new c, (no_trace, w))).2.2.1)).
Proof.
  destruct (run_body_admits self fuel (Association_new c, (no_trace, w)) eq_refl) as [ex Hb].
  unfold _run, bind at 1, catch.
  destruct (run_body _ _ _ _) as [[[u|]|f] s1]; cbn [snd] in Hb.
  - unfold bind. pose proof (silent_run_finally s1) as Hm. unfold silent in Hm.
    destruct (run_finally _) as [[|] s2]; cbn in *; rewrite Hm; apply (Hb k).
  - apply (Hb k).
  - unfold bind at 1. pose proof (silent_run_failure f s1) as Hf.
    unfold silent in Hf. destruct (run_failure _ _ _) as [[|] s2]; cbn in Hf |- *;
      [|rewrite Hf; apply (Hb k)].
    unfold bind. pose proof (silent_run_finally s2) as Hm. unfold silent in Hm.
    destruct (run_finally _) as [[|] s3]; cbn in *; rewrite Hm, Hf; apply (Hb k).
Qed.
End delivery.
