(* ===== verification/AssociationEndToEnd.v ===== *)
(** From the sender's association to the receiver's mailboxes.

    Two ends that completed a handshake, with any runtimes and transports: the sender's
    calls of [send_user_message] put numbered records on lanes; when the receiver's
    transport delivers, lane by lane, a prefix of what was taken for sending, the
    receiver refuses nothing and admits exactly the messages sent, in the order of their
    lane. *)

From stdpp Require Import base list numbers strings gmap sorting.
From S2P Require Import Prelude Bytes PyStr Serialization Wire WireRoundTrip Dict Registry Negotiation.
From S2P Require Import DeadLetter Transport Effects Association AssociationRules AssociationHandshake.
From S2P Require Import AssociationDelivery.

(** * The minors and routes both ends hold *)

Section tables.
Context `{Unicode}.

Lemma routes_of_elem origin routes i r :
  routes_of origin routes !! i = Some r ->
  r ∈ routes /\ sr_origin_incarnation_uid r = origin /\ sr_serializer_id r = i.
Proof.
  unfold routes_of. intros Hr. apply elem_of_list_to_map_2 in Hr.
  apply list_elem_of_fmap in Hr as (r' & [= -> <-] & Hr').
  rewrite elem_of_reverse in Hr'. by apply list_elem_of_filter in Hr' as [? ?].
Qed.

(** The dict of minors agrees with [protocol_minor_for]. *)
Lemma minors_of_spec u F v G n i m :
  Forall descriptor_ok F -> Forall descriptor_ok G ->
  negotiate_serializers u F v G = Ok n ->
  minors_of n !! i = Some m -> protocol_minor_for n i = Ok m.
Proof.
  intros HF HG (f & s & _ & _ & _ & _ & _ & _ & ->)%negotiate_inv; [|done..].
  unfold minors_of, protocol_minor_for. cbn [sn_serializers].
  intros Hm%elem_of_list_to_map_2. apply list_elem_of_fmap in Hm as (x & [= -> ->] & Hx).
  rewrite elem_of_reverse in Hx. apply elem_of_flat_map in Hx as (j & Hj & Hx).
  apply find_minor_spec. unfold pair_minor in Hx.
  destruct (f !! j) as [a|] eqn:Ea; [|by apply not_elem_of_nil in Hx].
  destruct (s !! j) as [b|] eqn:Eb; [|by apply not_elem_of_nil in Hx].
  apply list_elem_of_singleton in Hx as ->. cbn. split; [done|]. by exists a, b.
Qed.
End tables.

(** * Numbered lanes *)

(** Counters that number frames lane by lane. *)
Inductive consumes : list Z -> list UserMessage -> list Z -> Prop :=
  | consumes_nil ex : consumes ex [] ex
  | consumes_cons ex f fs ex' :
      ex !! lane f = Some (um_lane_sequence f) ->
      consumes (<[lane f := um_lane_sequence f + 1]> ex) fs ex' -> consumes ex (f :: fs) ex'.

Definition lane_frames (k : nat) (fs : list UserMessage) : list UserMessage :=
  filter (fun f => lane f = k) fs.

(** Every frame is on a lane and the frames of a lane count up from its counter. *)
Definition contiguous (ex : list Z) (fs : list UserMessage) : Prop :=
  Forall (fun f => (lane f < length ex)%nat) fs /\
  forall k e, ex !! k = Some e ->
    um_lane_sequence <$> lane_frames k fs = seqZ e (len (lane_frames k fs)).

Lemma lane_frames_cons k f fs :
  lane_frames k (f :: fs) = if decide (lane f = k) then f :: lane_frames k fs else lane_frames k fs.
Proof. unfold lane_frames. rewrite filter_cons. by case_decide. Qed.

Lemma seqZ_step e m : 0 <= m -> seqZ e (1 + m) = e :: seqZ (e + 1) m.
Proof.
  intros Hm. rewrite seqZ_cons by lia. f_equal. f_equal; lia.
Qed.

Lemma len_cons {X} (x : X) xs : len (x :: xs) = 1 + len xs.
Proof. unfold len. cbn. lia. Qed.

Lemma consumes_contiguous ex fs ex' : consumes ex fs ex' -> contiguous ex fs.
Proof.
  induction 1 as [|ex f fs ex' Hf _ [IHr IH]].
  { split; [constructor|]. intros k e _. reflexivity. }
  split.
  - constructor; [by eapply lookup_lt_Some|]. by rewrite length_insert in IHr.
  - intros k e He. rewrite lane_frames_cons. case_decide as Hk.
    + subst k. simplify_eq. rewrite len_cons, seqZ_step by apply len_nonneg. cbn. f_equal.
      apply IH. by rewrite list_lookup_insert_eq by (by eapply lookup_lt_Some).
    + apply IH. by rewrite list_lookup_insert_ne.
Qed.

Lemma contiguous_consumes ex fs : contiguous ex fs -> exists ex', consumes ex fs ex'.
Proof.
  revert ex. induction fs as [|f fs IH]; intros ex [Hr Hc]; [eexists; constructor|].
  apply Forall_cons in Hr as [Hf Hr]. destruct (lookup_lt_is_Some_2 ex (lane f) Hf) as [e He].
  pose proof (Hc _ _ He) as Hl. rewrite lane_frames_cons, decide_True in Hl by done.
  rewrite len_cons, seqZ_step in Hl by apply len_nonneg. cbn in Hl. injection Hl as Hq Hl.
  destruct (IH (<[lane f := um_lane_sequence f + 1]> ex)) as [ex' Hex'].
  { split; [by rewrite length_insert|]. intros k e' He'. destruct (decide (lane f = k)) as [<-|Hk].
    - rewrite list_lookup_insert_eq in He' by done. injection He' as <-. by rewrite Hq.
    - rewrite list_lookup_insert_ne in He' by done. specialize (Hc _ _ He').
      by rewrite lane_frames_cons, decide_False in Hc by done. }
  exists ex'. constructor; [|done]. by rewrite He, Hq.
Qed.

Lemma seqZ_prefix e l l' : l `prefix_of` l' -> l' = seqZ e (len l') -> l = seqZ e (len l).
Proof.
  intros [k ->]. rewrite len_app. intros E.
  rewrite seqZ_app in E by apply len_nonneg.
  apply app_inj_1 in E as [? _]; [done|]. rewrite length_seqZ. unfold len. lia.
Qed.

Lemma contiguous_prefix ex fs gs :
  contiguous ex fs -> Forall (fun f => f ∈ fs) gs ->
  (forall k, lane_frames k gs `prefix_of` lane_frames k fs) -> contiguous ex gs.
Proof.
  intros [Hr Hc] Hin Hp. split.
  - eapply Forall_impl; [exact Hin|]. intros f Hf. by eapply Forall_forall in Hr.
  - intros k e He. specialize (Hc _ _ He).
    replace (len (lane_frames k gs)) with (len (um_lane_sequence <$> lane_frames k gs))
      by (unfold len; by rewrite length_fmap).
    apply (seqZ_prefix e _ (um_lane_sequence <$> lane_frames k fs)).
    + destruct (Hp k) as [l ->]. exists (um_lane_sequence <$> l). by rewrite fmap_app.
    + rewrite Hc at 1. f_equal. unfold len. by rewrite length_fmap.
Qed.

Lemma consumes_app ex fs gs ex' :
  consumes ex (fs ++ gs) ex' <-> exists ex1, consumes ex fs ex1 /\ consumes ex1 gs ex'.
Proof.
  split.
  - revert ex. induction fs as [|f fs IH]; intros ex Hc; cbn in Hc.
    + exists ex. split; [constructor|done].
    + inversion Hc as [|? ? ? ? Hf Hc']; subst. destruct (IH _ Hc') as (ex1 & ? & ?).
      exists ex1. split; [by constructor|done].
  - intros (ex1 & H1 & H2). induction H1; cbn; [done|]. constructor; auto.
Qed.

Section end_to_end.
Context `{Unicode} {T V WA WB : Type} `{EqDecision T} (type_of : V -> T).
Context `{EA : Environment WA V} `{EB : Environment WB V} (str_exn : exn -> pystr).
Context (A B : Setup T V) (n : SerializerNegotiation) (na nb : Negotiated) (pa pb : Peer).

Abbreviation regA := (rc_serializers (rt_config A)).
Abbreviation regB := (rc_serializers (rt_config B)).
Abbreviation maximum := (maximum_frame_bytes (ha_limits (accept na))).

(** What a completed handshake between [A] and [B] leaves (see [handshake_completes]). *)
Record agreed : Prop := {
  ag_association : association_uid A = association_uid B;
  ag_okA : setup_ok A;
  ag_okB : setup_ok B;
  ag_registryB : registry_ok regB;
  ag_negotiation : negotiate_serializers (rt_incarnation_uid A) (_descriptors regA)
                     (rt_incarnation_uid B) (_descriptors regB) = Ok n;
  ag_mirrored : mirrored na nb;
  ag_routes : send_routes na = routes_of (rt_incarnation_uid A) (sn_routes n);
  ag_lanes : 0 < ng_lane_count na <= MAX_U16;
  ag_peerA : peer_incarnation_uid pa = rt_incarnation_uid B;
  ag_peerB : peer_incarnation_uid pb = rt_incarnation_uid A;
  (** Serializers return byte strings. *)
  ag_bytes : forall i reg v m minor b, dict_get (_registrations regA) i = Some reg ->
    s_serialize (serializer reg) v m minor = Ok (Some b) -> bytes_ok b;
}.

(** * The sender *)

(** The fields of the sender that a handshake sets and no send changes. *)
Definition sending (a : Association) : Prop :=
  a_negotiated a = Some na /\ a_peer a = Some pa /\ a_serializer_minors a = minors_of n.

(** The record taken for sending a value, and the frame it encodes. *)
Record sent_as (x : ActorIdentity * V) (f : UserMessage) (r : TransportRecord) : Prop := {
  sa_association : um_association_uid f = association_uid A;
  sa_lane : um_lane_id f = lane_of x.1 (ng_lane_count na);
  sa_sender : um_sender_incarnation_uid f = rt_incarnation_uid A;
  sa_system : um_recipient_incarnation_uid f = rt_incarnation_uid B;
  sa_actor : um_recipient_actor_uid f = actor_uid x.1;
  sa_channel : tr_channel r = mkChannel DELIVERY_LANE (um_lane_id f);
  sa_encoded : encode_frame (FUserMessage f) maximum (Some DELIVERY_LANE) = Ok (tr_payload r);
  sa_payload : exists route minor p,
    send_routes na !! um_serializer_id f = Some route /\
    minors_of n !! um_serializer_id f = Some minor /\
    serialize_for_route type_of regA x.2 route minor = Ok p /\
    um_serializer_id f = sp_serializer_id p /\ um_manifest f = sp_manifest p /\
    um_payload f = sp_payload p;
}.

Lemma delivery_channel l c :
  LogicalChannel_new DELIVERY_LANE l = Ok c -> c = mkChannel DELIVERY_LANE l.
Proof. unfold LogicalChannel_new. intros Hc. inv_run. done. Qed.

Lemma serialize_message_inv a v p :
  sending a -> serialize_message type_of A a v = Ok p ->
  exists route minor, send_routes na !! sp_serializer_id p = Some route /\
    minors_of n !! sp_serializer_id p = Some minor /\
    serialize_for_route type_of regA v route minor = Ok p.
Proof.
  intros (Hn & _ & Hm). unfold serialize_message. rewrite Hn, Hm. cbn.
  destruct (binding_for _ _) as [b|] eqn:Eb; cbn; [|done].
  destruct (send_routes na !! _) as [route|] eqn:Er; [|done].
  destruct (bool_decide _); [|done]. destruct (minors_of n !! _) as [minor|] eqn:Em; [|done].
  intros Hp. exists route, minor.
  assert (sp_serializer_id p = sb_serializer_id b) as ->.
  { unfold serialize_for_route in Hp. rewrite Eb in Hp. cbn in Hp.
    destruct (_ || _); [done|]. unfold _serialize in Hp.
    destruct (dict_get _ _); [|done]. apply bind_ok in Hp as (u & _ & Hp).
    destruct (s_serialize _ _ _ _) as [[|]|]; inv_run; done. }
  done.
Qed.

Lemma sending_quiet (s s' : Association * (trace V * WA)) :
  quiet s s' -> sending s.1 -> sending s'.1.
Proof. intros [Hp Hn Hm _ _ _ _] (? & ? & ?). unfold sending. by rewrite Hp, Hn, Hm. Qed.

(** A method that only raises, quietly. *)
Definition fails {X} (s : Association * (trace V * WA))
    (r : outcome failure X * (Association * (trace V * WA))) : Prop :=
  (exists f, r.1 = Raise f) /\ quiet s r.2.

Lemma fails_after {X} (m : Eff (Association * (trace V * WA)) failure unit) f s :
  Preserves quiet m -> fails (X := X) s (bind m (fun _ => raise f) s).
Proof.
  intros Hm. unfold bind, fails. specialize (Hm s). destruct (m s) as [[u|e] s1]; split; eauto.
Qed.

Lemma encode_message_cases f s :
  (exists b, encode_message (W := trace V * WA) f maximum s = (Ret b, s) /\
     encode_frame (FUserMessage f) maximum (Some DELIVERY_LANE) = Ok b) \/
  exists e s', encode_message f maximum s = (Raise e, s') /\ quiet s s'.
Proof.
  unfold encode_message, catch. destruct (encode_frame _ _ _) as [b|e]; cbn [lift].
  { left. by exists b. }
  right. pose proof (fails_after (X := bytes) (_increment_many true one_rejected) (Raised FrameTooLargeError) s
    (quiet_increment _ _)) as [[f' Hf] Hq].
  destruct e; try (eexists _, s; split; [reflexivity|reflexivity]).
  destruct (bind _ _ s) as [o s'] eqn:E. cbn in Hf, Hq. subst o. exists f', s'. split; [|done].
  exact E.
Qed.

(** Handing over either takes the record or leaves no trace. *)
Lemma hand_over_cases x l b (s : Association * (trace V * WA)) :
  let '(o, s') := hand_over pa na x l b s in
  match o with
  | Ret _ => exists t w, s' = (s.1, (t, w)) /\
      t = mkTrace (t_sent s.2.1 ++ [mkRecord (mkChannel DELIVERY_LANE l) b]) (t_admitted s.2.1)
  | Raise _ => quiet s s'
  end.
Proof.
  unfold hand_over, catch, bind at 1.
  destruct (LogicalChannel_new DELIVERY_LANE l) as [c|e] eqn:Ec; cbn [lift].
  2: { unfold raise. pose proof (quiet_admission_failure (Raised e) s) as Hq.
       destruct (admission_failure (Raised e) s) as [[u|f] s'] eqn:E; [|done].
       exfalso. revert E. clear. unfold admission_failure. unfold bind, raise.
       destruct e; try done; destruct (_increment_many _ _ _) as [[]]; done. }
  apply delivery_channel in Ec as ->. unfold ret at 1. destruct s as [a [t w]].
  unfold call. cbn -[admission_failure].
  destruct (_send_if_current _ _ _ _ w) as [[u|e] w1]; cbn -[admission_failure]; [eauto|].
  pose proof (quiet_admission_failure (Raised e) (a, (t, w1))) as Hq.
  assert (Hq0 : quiet (a, (t, w)) (a, (t, w1))) by by split.
  destruct (admission_failure (Raised e) (a, (t, w1))) as [[u|f] s'] eqn:E; [|by etrans].
  exfalso. revert E. clear. unfold admission_failure. unfold bind, raise.
  destruct e; try done; destruct (_increment_many _ _ _) as [[]]; done.
Qed.

(** What one send does: nothing that matters when it raises, else one record with the
    next number of the recipient's lane. *)
Definition send_effect (x : ActorIdentity * V) (s : Association * (trace V * WA))
    (r : outcome failure unit * (Association * (trace V * WA))) : Prop :=
  fails s r \/
  r.1 = Ret tt /\ sending r.2.1 /\
  exists q f rec, a_outbound_sequences s.1 !! lane f = Some q /\ um_lane_sequence f = q /\
    sent_as x f rec /\
    a_outbound_sequences r.2.1 = <[lane f := q + 1]> (a_outbound_sequences s.1) /\
    t_sent r.2.2.1 = t_sent s.2.1 ++ [rec].

Lemma fails_here (f : failure) s : fails (X := unit) s (raise f s).
Proof. split; [by exists f|reflexivity]. Qed.

Lemma send_on_lane_spec x p (s : Association * (trace V * WA)) :
  agreed -> sending s.1 -> serialize_message type_of A s.1 x.2 = Ok p ->
  send_effect x s (send_on_lane A x.1 p s).
Proof.
  intros Hag Hs Hser. unfold send_on_lane, bind at 1.
  pose proof (quiet_require_active (Some (system_incarnation_uid x.1)) s) as Hq0.
  destruct (_require_active _ s) as [[u|f] s1] eqn:Ereq; [|left; split; [by exists f|done]].
  assert (Hreq : s1 = s /\ peer_incarnation_uid pa = system_incarnation_uid x.1).
  { revert Ereq. unfold _require_active, bind, this.
    destruct (bool_decide (state _ = _)); cbn [negb]; [|done]. destruct Hs as (_ & Hp & _).
    rewrite Hp. case_bool_decide as Hx; [|done]. intros [= _ <-]. by injection Hx. }
  destruct Hreq as [-> Hpeer]. rewrite (ag_peerA Hag) in Hpeer. clear Ereq Hq0.
  pose proof Hs as (Hn & Hp & Hm).
  unfold bind at 1, this, bind at 1. rewrite Hn. cbn [assert_some]. unfold ret at 1.
  cbv zeta. set (l := lane_of x.1 (ng_lane_count na)).
  destruct (a_outbound_sequences s.1 !! Z.to_nat l) as [q|] eqn:Eq; [|left; apply fails_here].
  destruct (MAX_U64 <? q).
  { left. unfold bind at 1. pose proof (quiet_increment true one_rejected s) as Hq1.
    destruct (_increment_many _ _ s) as [[u'|f] s1]; [|split; [by exists f|done]].
    match goal with |- context [bind ?m (fun _ => raise ?e) s1] =>
      destruct (fails_after (X := unit) m e s1 (quiet_request_close _ _ _)) as [? Hq2] end.
    split; [done|]. by etrans. }
  set (f := mkUserMessage _ _ _ _ _ _ _ _ _ _).
  replace (_maximum_frame_bytes s.1) with maximum by (unfold _maximum_frame_bytes; by rewrite Hn).
  unfold bind at 1. destruct (encode_message_cases f s) as [(b & Eb & Hb)|(e & s1 & Eb & Hq)];
    rewrite Eb; [|left; split; [by exists e|done]].
  unfold bind at 1. rewrite Hp. cbn [assert_some]. unfold ret at 1, bind at 1.
  pose proof (hand_over_cases x.1 l b s) as Hh.
  destruct (hand_over _ _ _ _ _ s) as [[u'|e] s1]; [|left; split; [by exists e|done]].
  destruct Hh as (t & w & -> & ->). right.
  destruct (serialize_message_inv _ _ _ Hs Hser) as (route & minor & Hroute & Hminor & Hsr).
  split_and!; [reflexivity|done|].
  exists q, f, (mkRecord (mkChannel DELIVERY_LANE l) b). split_and!; try done.
  split; try done. exists route, minor, p. by split_and!.
Qed.

Lemma send_spec x (s : Association * (trace V * WA)) :
  agreed -> sending s.1 -> send_effect x s (send_user_message type_of A x.1 x.2 s).
Proof.
  intros Hag Hs. unfold send_user_message, bind at 1, this, bind at 1, catch at 1.
  destruct (serialize_message type_of A s.1 x.2) as [p|e] eqn:Ep.
  - cbn [lift]. unfold ret at 1. by apply send_on_lane_spec.
  - left. cbn [lift]. unfold raise at 1.
    destruct (fails_after (X := SerializedPayload) (_increment_many true (mkMetrics 0 1 0 1 0 0))
      (Raised e) s (quiet_increment _ _)) as [[f Hf] Hq].
    destruct (bind _ _ s) as [o s1]. cbn in Hf, Hq. subst o. split; [by exists f|done].
Qed.

(** Several sends; the caller survives what they raise.  The sends that returned. *)
Fixpoint run_sends (xs : list (ActorIdentity * V)) (s : Association * (trace V * WA)) :
    list (ActorIdentity * V) * (Association * (trace V * WA)) :=
  match xs with
  | [] => ([], s)
  | x :: xs =>
      let '(o, s1) := send_user_message type_of A x.1 x.2 s in
      let '(accepted, s2) := run_sends xs s1 in
      (match o with Ret _ => x :: accepted | Raise _ => accepted end, s2)
  end.

(** The records of accepted sends, with the frames they encode. *)
Lemma run_sends_spec xs s ys s' :
  agreed -> sending s.1 -> run_sends xs s = (ys, s') ->
  exists frs : list (UserMessage * TransportRecord),
    Forall2 (fun y fr => sent_as y fr.1 fr.2) ys frs /\
    t_sent s'.2.1 = t_sent s.2.1 ++ frs.*2 /\
    consumes (a_outbound_sequences s.1) frs.*1 (a_outbound_sequences s'.1).
Proof.
  intros Hag. revert s ys. induction xs as [|x xs IH]; intros s ys Hs; cbn [run_sends].
  { intros [= <- <-]. exists []. split_and!; [constructor|by rewrite app_nil_r|constructor]. }
  pose proof (send_spec x s Hag Hs) as Hx.
  destruct (send_user_message _ _ _ _ s) as [o s1]. destruct (run_sends xs s1) as [acc s2] eqn:E.
  intros [= <- <-]. destruct Hx as [[[e He] Hq]|(He & Hs1 & q & f & r & Hl & <- & Hsa & Hout & Ht)];
    cbn in He; subst o; cbn [fst snd] in *.
  - destruct (IH _ _ (sending_quiet _ _ Hq Hs) E) as (frs & Hf & Hts & Hc).
    exists frs. destruct Hq as [_ _ _ _ Ho Hsn _]. rewrite <- Ho, <- Hsn. done.
  - destruct (IH _ _ Hs1 E) as (frs & Hf & Hts & Hc). exists ((f, r) :: frs). split_and!.
    + by constructor.
    + cbn. by rewrite Hts, Ht, <- (assoc_L (++)).
    + cbn. constructor; [done|]. by rewrite <- Hout.
Qed.

(** * What was sent is what the receiver reads *)

Definition identity_ok (i : ActorIdentity) : Prop := uuid_ok (actor_uid i) /\ actor_uid i <> 0.

Lemma sent_route x f r :
  agreed -> sent_as x f r -> exists route, receive_routes nb !! um_serializer_id f = Some route /\
    route ∈ sn_routes n /\ sr_origin_incarnation_uid route = rt_incarnation_uid A /\
    sr_serializer_id route = um_serializer_id f /\ um_manifest f ∈ sr_manifests route /\
    route_ok route.
Proof.
  intros Hag [_ _ _ _ _ _ _ (route & minor & p & Hr & _ & Hs & Hi & Hm & _)].
  exists route. rewrite <- (mi_send _ _ (ag_mirrored Hag)).
  pose proof Hr as Hr'. rewrite (ag_routes Hag) in Hr'. apply routes_of_elem in Hr' as (Hin & Ho & Hid).
  apply serialize_inv in Hs as [_ Hman]. rewrite Hm. split_and!; try done.
  eapply Forall_forall; [|exact Hin].
  eapply negotiated_routes_ok; [| | | |apply (ag_negotiation Hag)];
    apply (ag_okA Hag) || apply (ag_okB Hag).
Qed.

Lemma sent_payload_bytes x f r : agreed -> sent_as x f r -> bytes_ok (um_payload f).
Proof.
  intros Hag [_ _ _ _ _ _ _ (route & minor & p & _ & _ & Hs & _ & _ & ->)].
  unfold serialize_for_route in Hs. apply bind_ok in Hs as (b & _ & Hs).
  destruct (_ || _); [done|]. unfold _serialize in Hs.
  destruct (dict_get _ _) as [reg|] eqn:Ereg; [|done]. apply bind_ok in Hs as (u & _ & Hs).
  destruct (s_serialize _ _ _ _) as [[pl|]|] eqn:Es; inv_run. cbn. by eapply (ag_bytes Hag).
Qed.

Lemma sent_frame_ok x f r :
  agreed -> identity_ok x.1 -> sent_as x f r -> frame_ok (FUserMessage f).
Proof.
  intros Hag [Hu _] Hs. pose proof (sent_payload_bytes _ _ _ Hag Hs) as Hb.
  destruct (sent_route _ _ _ Hag Hs) as (route & _ & _ & _ & _ & Hm & Hro).
  destruct Hs as [E1 _ E2 E3 E4 _ _ _]. cbn. rewrite E1, E2, E3, E4.
  split_and!; try (apply (ag_okA Hag)); try (apply (ag_okB Hag)); try done.
  exact (proj1 (Forall_forall _ _) (ro_manifests _ Hro) _ Hm).
Qed.

Lemma sent_decodes x f r :
  agreed -> identity_ok x.1 -> sent_as x f r ->
  decode_frame (tr_payload r) maximum (Some (ch_kind (tr_channel r))) = Ok (FUserMessage f).
Proof.
  intros Hag Hi Hs. pose proof (sent_frame_ok _ _ _ Hag Hi Hs) as Hok.
  rewrite (sa_channel _ _ _ Hs). cbn [ch_kind]. pose proof (sa_encoded _ _ _ Hs) as He.
  unfold encode_frame in He. apply bind_ok in He as (u & Hv & He). by apply decode_encode_user.
Qed.

(** * The receiver *)

Abbreviation stateB := (Association * (trace V * WB))%type.

Definition receiving (b : Association) : Prop :=
  a_negotiated b = Some nb /\ a_peer b = Some pb /\ a_serializer_minors b = minors_of n.

(** The message a frame is turned into, unless its payload cannot be read. *)
Definition deliver (f : UserMessage) : option (prepared_message (V := V)) :=
  minor ← minors_of n !! um_serializer_id f;
  match deserialize regB (um_serializer_id f) (um_manifest f) (um_payload f) (Some minor) with
  | Ok v => Some (mkIdentity (rt_incarnation_uid B) (um_recipient_actor_uid f), v, f)
  | Err _ => None
  end.

Lemma lane_of_bound x lanes : 0 < lanes -> 0 <= lane_of x lanes < lanes.
Proof. intros Hl. unfold lane_of. by apply Z.mod_pos_bound. Qed.

Lemma sent_addressed x f r :
  agreed -> sent_as x f r -> addressed_here B nb pb f (tr_channel r) = true.
Proof.
  intros Hag [Ha Hl Hse Hsy _ Hc _ _]. unfold addressed_here.
  rewrite Hc, Ha, Hse, Hsy, (ag_association Hag), (ag_peerB Hag), !Z.eqb_refl.
  cbn [ch_kind ch_lane_id negb]. rewrite andb_false_r. cbn [negb].
  rewrite <- (mi_lanes _ _ (ag_mirrored Hag)), Hl.
  pose proof (lane_of_bound x.1 (ng_lane_count na) ltac:(apply (ag_lanes Hag))).
  by rewrite (proj2 (Z.ltb_lt _ _)) by lia.
Qed.

(** Only a serializer's own failure can keep a sent message from its mailbox. *)
Lemma sent_readable x f r minor :
  agreed -> sent_as x f r -> minors_of n !! um_serializer_id f = Some minor ->
  match deserialize regB (um_serializer_id f) (um_manifest f) (um_payload f) (Some minor) with
  | Ok _ => True | Err e => e = DeserializationError end.
Proof.
  intros Hag Hs Hm. destruct (sent_route _ _ _ Hag Hs) as (route & _ & Hin & Ho & Hid & Hman & _).
  destruct (negotiated_readable regA regB (rt_incarnation_uid A) (rt_incarnation_uid B) n route
    (ag_registryB Hag) (so_descriptors _ (ag_okA Hag)) (so_descriptors _ (ag_okB Hag))
    (ag_negotiation Hag) Hin Ho) as (minor' & reg & Hm' & _ & Hd).
  rewrite Hid in Hm', Hd.
  apply (minors_of_spec _ _ _ _ _ _ _ (so_descriptors _ (ag_okA Hag))
    (so_descriptors _ (ag_okB Hag)) (ag_negotiation Hag)) in Hm.
  assert (minor' = minor) as -> by congruence. rewrite Hd by done.
  by destruct (s_deserialize _ _ _ _).
Qed.

Lemma reject_unreadable i f (s : stateB) :
  exists s', reject_payload str_exn B i f DeserializationError s = (Ret None, s') /\ quiet s s'.
Proof.
  pose proof (quiet_reject str_exn B i f DeserializationError s) as Hq.
  destruct (reject_payload _ _ _ _ _ s) as [o s'] eqn:E. exists s'. split; [|done].
  f_equal. revert E. clear. unfold reject_payload, bind, notify, modify, update, ret. cbn.
  unfold _send_advisory_best_effort, _send_control_best_effort, best_effort, catch.
  by destruct (_send_frame _ _ _ _) as [[]]; intros [= <- _].
Qed.

Lemma prepare_sent x f r (s : stateB) :
  agreed -> identity_ok x.1 -> sent_as x f r -> receiving s.1 ->
  a_inbound_sequences s.1 !! lane f = Some (um_lane_sequence f) ->
  exists s', _prepare_user_message str_exn B f (tr_channel r) s = (Ret (deliver f), s') /\
    quiet (advance f (um_lane_sequence f) s) s'.
Proof.
  intros Hag [_ Hnz] Hs (Hn & Hp & Hm) Hq. unfold _prepare_user_message, bind at 1, this.
  unfold bind at 1. rewrite Hn. cbn [assert_some]. unfold ret at 1, bind at 1. rewrite Hp.
  cbn [assert_some]. unfold ret at 1. rewrite (sent_addressed _ _ _ Hag Hs). cbn [negb].
  fold (lane f). rewrite Hq, Z.eqb_refl. cbn [negb].
  destruct (sent_route _ _ _ Hag Hs) as (route & -> & _ & _ & _ & Hman & _).
  rewrite bool_decide_eq_true_2 by done. cbn [negb].
  pose proof (sa_payload _ _ _ Hs) as (_ & minor & _ & _ & Hminor & _).
  unfold bind at 1, update, modify, bind at 1, ActorIdentity_new, raise_unless.
  rewrite (proj2 (Z.eqb_neq (rt_incarnation_uid B) 0)).
  2: { pose proof (ag_negotiation Hag) as Hneg. unfold negotiate_serializers in Hneg. inv_run. done. }
  rewrite (proj2 (Z.eqb_neq (um_recipient_actor_uid f) 0)) by (by rewrite (sa_actor _ _ _ Hs)).
  cbn [negb mbind result_bind lift]. unfold ret at 1, bind at 1. rewrite Hm, Hminor.
  cbn [lift]. unfold ret at 1. unfold deliver. rewrite Hminor. cbn [mbind option_bind].
  pose proof (sent_readable _ _ _ _ Hag Hs Hminor) as Hd.
  destruct (deserialize _ _ _ _ _) as [v|e]; [|subst e].
  - eexists. split; [reflexivity|]. reflexivity.
  - apply reject_unreadable.
Qed.

Lemma receiving_quiet (s s' : stateB) : quiet s s' -> receiving s.1 -> receiving s'.1.
Proof. intros [Hp Hn Hm _ _ _ _] (? & ? & ?). unfold receiving. by rewrite Hp, Hn, Hm. Qed.

(** Frames of a batch, each the encoding of something sent. *)
Definition sent_frame (f : UserMessage) (r : TransportRecord) : Prop :=
  exists x, identity_ok x.1 /\ sent_as x f r.

Lemma sent_frame_unique f f' r : agreed -> sent_frame f r -> sent_frame f' r -> f = f'.
Proof.
  intros Hag (x & Hx & Hf) (y & Hy & Hf').
  pose proof (sent_decodes _ _ _ Hag Hx Hf). pose proof (sent_decodes _ _ _ Hag Hy Hf'). congruence.
Qed.

Lemma sent_frame_lane f r :
  sent_frame f r -> Z.to_nat (ch_lane_id (tr_channel r)) = lane f.
Proof. intros (x & _ & Hs). by rewrite (sa_channel _ _ _ Hs). Qed.

Abbreviation users fs rs := (zip fs (tr_channel <$> rs)).

Lemma prepare_loop_sent fs rs ms (s : stateB) ex :
  agreed -> Forall2 sent_frame fs rs -> receiving s.1 -> consumes (a_inbound_sequences s.1) fs ex ->
  exists s', prepare_loop str_exn B (users fs rs) (ms, s) = (Ret tt, (ms ++ omap deliver fs, s')) /\
    quiet (with_inbound ex s.1, s.2) s'.
Proof.
  intros Hag Hfs. revert ms s. induction Hfs as [|f r fs rs (x & Hx & Hf) _ IH]; intros ms s Hr Hc.
  - inversion Hc; subst. exists s. cbn. rewrite app_nil_r. split; [done|]. by destruct s as [[] ?].
  - inversion Hc as [|? ? ? ? Hq Hc']; subst. cbn [fmap list_fmap zip zip_with prepare_loop snd fst].
    destruct (prepare_sent x f r s Hag Hx Hf Hr Hq) as (s1 & -> & Hs1).
    assert (Hr1 : receiving s1.1) by by apply (receiving_quiet _ _ Hs1).
    destruct (IH (ms ++ option_list (deliver f)) s1 Hr1) as (s' & Hloop & Hs').
    { by rewrite (q_inbound _ _ Hs1). }
    exists s'. rewrite Hloop. split.
    + rewrite <- (assoc_L (++)). cbn [omap list_omap]. by destruct (deliver f).
    + etrans; [|exact Hs']. destruct Hs1. cbn in *. by split.
Qed.

Lemma records_sent fs rs us (s : stateB) :
  agreed -> Forall2 sent_frame fs rs -> receiving s.1 ->
  process_records str_exn B rs (us, s) = (Ret false, (us ++ users fs rs, s)).
Proof.
  intros Hag Hfs Hr. revert us. induction Hfs as [|f r fs rs (x & Hx & Hf) _ IH]; intros us.
  { cbn. by rewrite app_nil_r. }
  cbn [process_records]. unfold bind at 1, get. cbn [snd fst].
  replace (_maximum_frame_bytes s.1) with maximum.
  2: { unfold _maximum_frame_bytes. destruct Hr as [-> _]. by rewrite (mi_accept _ _ (ag_mirrored Hag)). }
  rewrite (sent_decodes _ _ _ Hag Hx Hf). unfold bind at 1, outer. cbn [lift]. unfold ret at 1.
  cbn [snd fst]. unfold bind at 1, modify. cbn [snd fst]. rewrite IH.
  by rewrite <- (assoc_L (++)).
Qed.

(** A batch of sent records is handled whole. *)
Lemma batch_sent fs rs (s : stateB) ex :
  agreed -> Forall2 sent_frame fs rs -> receiving s.1 -> consumes (a_inbound_sequences s.1) fs ex ->
  exists s', active_batch str_exn B rs s = (Ret false, s') /\ receiving s'.1 /\
    a_inbound_sequences s'.1 = ex /\ t_admitted s'.2.1 = t_admitted s.2.1 ++ omap deliver fs.
Proof.
  intros Hag Hfs Hr Hc. unfold active_batch, finally. rewrite (records_sent fs) by done.
  unfold flush_users, bind at 1, get. cbn [fst snd app]. case_bool_decide as Hnil.
  { assert (fs = []) as ->. { destruct Hfs; [done|]. cbn in Hnil. done. }
    inversion Hc; subst. exists s. cbn. rewrite app_nil_r. done. }
  cbn [negb when]. unfold bind, outer. cbn [fst snd].
  unfold _handle_user_messages.
  destruct (prepare_loop_sent fs rs [] s ex Hag Hfs Hr Hc) as (s1 & -> & Hq). cbn [app].
  unfold finally. destruct (admit_prepared_spec B (omap deliver fs) s1) as (s2 & -> & Ha).
  exists s2. unfold modify. split; [reflexivity|]. unfold receiving.
  destruct Hq as [Hp Hn Hm Hi _ _ Hadm], Ha as [Hp' Hn' Hm' Hi' _ _ Hadm']. cbn in *.
  rewrite Hp', Hn', Hm', Hi', Hadm', Hp, Hn, Hm, Hi, Hadm. done.
Qed.

(** The batches of the receive loop, one after the other. *)
Fixpoint run_batches (batches : list (list TransportRecord)) : Eff stateB failure unit :=
  match batches with
  | [] => ret tt
  | rs :: rest => bind (active_batch str_exn B rs) (fun _ => run_batches rest)
  end.

Lemma batches_sent batches fs (s : stateB) ex :
  agreed -> Forall2 sent_frame fs (concat batches) -> receiving s.1 ->
  consumes (a_inbound_sequences s.1) fs ex ->
  exists s', run_batches batches s = (Ret tt, s') /\
    t_admitted s'.2.1 = t_admitted s.2.1 ++ omap deliver fs.
Proof.
  intros Hag. revert fs s. induction batches as [|rs rest IH]; intros fs s Hfs Hr Hc; cbn in *.
  { inversion Hfs; subst. exists s. cbn. by rewrite app_nil_r. }
  apply Forall2_app_inv_r in Hfs as (fs1 & fs2 & H1 & H2 & ->).
  apply consumes_app in Hc as (ex1 & Hc1 & Hc2).
  destruct (batch_sent fs1 rs s ex1 Hag H1 Hr Hc1) as (s1 & E & Hr1 & Hi1 & Ha1).
  unfold bind at 1. rewrite E. destruct (IH fs2 s1 H2 Hr1) as (s' & E' & Ha').
  { by rewrite Hi1. }
  exists s'. split; [exact E'|]. by rewrite Ha', Ha1, omap_app, (assoc_L (++)).
Qed.

Definition lane_records (k : nat) (rs : list TransportRecord) : list TransportRecord :=
  filter (fun r => Z.to_nat (ch_lane_id (tr_channel r)) = k) rs.

Lemma frames_of_records rs frs :
  agreed -> Forall2 sent_frame frs.*1 frs.*2 -> Forall (fun r => r ∈ frs.*2) rs ->
  exists gs : list UserMessage, Forall2 sent_frame gs rs /\ Forall (fun f => f ∈ frs.*1) gs.
Proof.
  intros Hag Hf. induction 1 as [|r rs Hr _ (gs & Hg & Hin)]; [by exists []|].
  apply list_elem_of_lookup in Hr as [i Hi].
  destruct (Forall2_lookup_r _ _ _ _ _ Hf Hi) as (f & Hi' & Hs).
  exists (f :: gs). split; constructor; try done. by eapply list_elem_of_lookup_2.
Qed.

Lemma lane_prefix gs rs frs k :
  agreed -> Forall2 sent_frame frs.*1 frs.*2 -> Forall2 sent_frame gs rs ->
  lane_records k rs `prefix_of` lane_records k frs.*2 ->
  lane_frames k gs `prefix_of` lane_frames k frs.*1.
Proof.
  intros Hag Hf Hg [rest Hp].
  assert (Hlane : forall f r, sent_frame f r ->
    lane f = k <-> Z.to_nat (ch_lane_id (tr_channel r)) = k).
  { intros f r Hs. by rewrite (sent_frame_lane _ _ Hs). }
  pose proof (Forall2_filter _ _ _ _ _ Hlane Hf) as Hfk.
  pose proof (Forall2_filter _ _ _ _ _ Hlane Hg) as Hgk.
  fold (lane_frames k frs.*1) (lane_records k frs.*2) in Hfk.
  fold (lane_frames k gs) (lane_records k rs) in Hgk.
  rewrite Hp in Hfk. apply Forall2_app_inv_r in Hfk as (l1 & l2 & H1 & _ & ->).
  exists l2. f_equal. clear -Hag H1 Hgk. revert l1 H1.
  induction Hgk as [|g r gs' rs' Hgr _ IH]; intros l1 H1; inversion H1; subst; [done|].
  f_equal; [by eapply sent_frame_unique|by apply IH].
Qed.

Lemma run_sends_accepted (P : ActorIdentity * V -> Prop) xs s ys s' :
  Forall P xs -> run_sends xs s = (ys, s') -> Forall P ys.
Proof.
  intros Hxs. revert s ys. induction Hxs as [|x xs Hx _ IH]; intros s ys; cbn [run_sends].
  { intros [= <- _]. constructor. }
  destruct (send_user_message _ _ _ _ s) as [o s1]. destruct (run_sends xs s1) as [acc s2] eqn:E.
  intros [= <- <-]. destruct o; [constructor; [done|]|]; by eapply IH.
Qed.

(** C2.  End-to-end delivery: [A] and [B] completed a handshake and their lanes
    are fresh on both sides.  [A] sends any values to actors of [B]; [ys] are the sends that
    returned.  Each of them put one record on the lane of its recipient, with the
    lane's next number.  If [B]'s transport delivers, in whatever batches and interleaving of
    lanes, on each lane a prefix of what was taken for sending, then [B] raises no error and
    hands to its mailboxes exactly the messages of these frames, in the order they were
    sent on their lane: each sent message at most once, none out of order, none skipped but
    those its serializer could not read. *)
Theorem lane_delivery xs ys a b wa wb s1 batches :
  agreed -> sending a -> receiving b -> a_inbound_sequences b = a_outbound_sequences a ->
  Forall (fun x => identity_ok x.1) xs ->
  run_sends xs (a, (no_trace, wa)) = (ys, s1) ->
  Forall (fun r => r ∈ t_sent s1.2.1) (concat batches) ->
  (forall k, lane_records k (concat batches) `prefix_of` lane_records k (t_sent s1.2.1)) ->
  exists (frs : list (UserMessage * TransportRecord)) (gs : list UserMessage) s2,
    Forall2 (fun y fr => sent_as y fr.1 fr.2) ys frs /\ t_sent s1.2.1 = frs.*2 /\
    contiguous (a_outbound_sequences a) frs.*1 /\
    run_batches batches (b, (no_trace, wb)) = (Ret tt, s2) /\
    t_admitted s2.2.1 = omap deliver gs /\
    forall k, lane_frames k gs `prefix_of` lane_frames k frs.*1 /\
      length (lane_frames k gs) = length (lane_records k (concat batches)).
Proof.
  intros Hag Ha Hb Hseq Hid Hrun Hin Hpre.
  destruct (run_sends_spec xs (a, (no_trace, wa)) ys s1 Hag Ha Hrun) as (frs & Hfr & Ht & Hc).
  pose proof (run_sends_accepted _ _ _ _ _ Hid Hrun) as Hys. cbn in Ht, Hc.
  assert (Hf : Forall2 sent_frame frs.*1 frs.*2).
  { clear -Hfr Hys. induction Hfr as [|y [f r] ys frs Hs _ IH]; cbn; [constructor|].
    apply Forall_cons in Hys as [? ?]. constructor; [by exists y|by apply IH]. }
  rewrite Ht in Hin, Hpre.
  destruct (frames_of_records _ _ Hag Hf Hin) as (gs & Hg & Hgin).
  assert (Hlanes : forall k, lane_frames k gs `prefix_of` lane_frames k frs.*1).
  { intros k. by eapply lane_prefix. }
  apply consumes_contiguous in Hc.
  destruct (contiguous_consumes _ _ (contiguous_prefix _ _ _ Hc Hgin Hlanes)) as [ex Hex].
  rewrite <- Hseq in Hex.
  destruct (batches_sent batches gs (b, (no_trace, wb)) ex Hag Hg Hb Hex) as (s2 & E & Hadm).
  exists frs, gs, s2. split_and!; try done. intros k. split; [done|].
  assert (Hlane : forall f r, sent_frame f r ->
    lane f = k <-> Z.to_nat (ch_lane_id (tr_channel r)) = k).
  { intros f r Hs. by rewrite (sent_frame_lane _ _ Hs). }
  apply (Forall2_length _ _ _ (Forall2_filter _ _ _ _ _ Hlane Hg)).
Qed.
End end_to_end.

(** * Two systems exchanging one-byte messages *)
Module DeliveryRun.
Import Examples HandshakeRun.
#[local] Existing Instance ascii_unicode.

Definition byte_serializer : Serializer (V := nat) :=
  mkSerializer (fun v _ _ => Ok (Some [Z.of_nat v `mod` 256]))
    (fun p _ _ => match p with [x] => Ok (Z.to_nat x) | _ => Err ValueError end).
Definition registry0 : SerializerRegistry (T := unit) (V := nat) :=
  build (run_calls [CallRegister work_descriptor byte_serializer; CallBind tt 1 work]).
Definition system (initiator : bool) (own other : Endpoint) (name peer : pystr) (uid : Z) :
    Setup unit nat :=
  mkSetup _ _ 9 initiator None None 5 name uid own
    (mkConfig own [(peer, other)] registry0 limits0 4 5 8 8 100 100).
Definition A0 : Setup unit nat := system true alpha beta (lit "alpha") (lit "beta") 3.
Definition B0 : Setup unit nat := system false beta alpha (lit "beta") (lit "alpha") 4.

Definition n0 : SerializerNegotiation :=
  mkNegotiation [mkRoute 3 1 [work]; mkRoute 4 1 [work]] [mkNegotiated 1 0].
Definition acc0 : HelloAccept := accept_of A0 B0 n0.
Definition na0 : Negotiated := negotiated A0 4 acc0.
Definition nb0 : Negotiated := negotiated B0 3 acc0.
Definition pa0 : Peer := mkPeer (lit "beta") 4 beta.
Definition pb0 : Peer := mkPeer (lit "alpha") 3 alpha.

Lemma registry0_descriptors : Forall descriptor_ok (_descriptors registry0).
Proof. apply Forall_singleton, work_descriptor_ok. Qed.

Lemma agreed0 : agreed A0 B0 n0 na0 nb0 pa0 pb0.
Proof.
  split; try reflexivity.
  - split; [by_compute..|apply registry0_descriptors].
  - split; [by_compute..|apply registry0_descriptors].
  - eexists; split; [apply run_calls_ok|reflexivity].
  - apply (negotiated_mirrored A0 B0); reflexivity.
  - split; [reflexivity|vm_compute; discriminate].
  - intros i reg v m minor b Hreg Hs. apply dict_get_elem in Hreg.
    apply list_elem_of_singleton in Hreg. injection Hreg as -> ->. injection Hs as <-.
    constructor; [|constructor]. apply Z.mod_pos_bound. lia.
Qed.

(** After the handshake, with the association active. *)
Definition start (n : Negotiated) (p : Peer) : Association :=
  with_life (fun l => (become_active_locked l).2)
    (with_negotiated n (with_minors (minors_of n0) (with_peer p (Association_new 1)))).
Definition sends : list (ActorIdentity * nat) :=
  [(mkIdentity 4 77, 5%nat); (mkIdentity 4 78, 6%nat); (mkIdentity 9 1, 7%nat); (mkIdentity 4 77, 8%nat)].
Definition after := run_sends (WA := link) (fun _ => tt) A0 sends (start na0 pa0, (no_trace, mkLink [] [])).

Lemma sends_ok : Forall (fun x => identity_ok x.1) sends.
Proof. repeat constructor; by_compute. Qed.

(** The third send names another incarnation and is refused; the others arrive. *)
Lemma lane_delivery_witness : exists s2,
  after.1 = [(mkIdentity 4 77, 5%nat); (mkIdentity 4 78, 6%nat); (mkIdentity 4 77, 8%nat)] /\
  run_batches (WB := link) texts B0 [t_sent after.2.2.1]
    (start nb0 pb0, (no_trace, mkLink [] [])) = (Ret tt, s2).
Proof.
  destruct (lane_delivery (WA := link) (WB := link) (fun _ => tt) texts A0 B0 n0 na0 nb0 pa0 pb0
    sends after.1 (start na0 pa0) (start nb0 pb0) (mkLink [] []) (mkLink [] []) after.2
    [t_sent after.2.2.1] agreed0) as (frs & gs & s2 & _ & _ & _ & Hrun & _).
  - split_and!; reflexivity.
  - split_and!; reflexivity.
  - reflexivity.
  - apply sends_ok.
  - exact (surjective_pairing after).
  - cbn [concat]. rewrite app_nil_r. apply Forall_forall. intros r Hr. exact Hr.
  - intros k. cbn [concat]. rewrite app_nil_r. reflexivity.
  - exists s2. split; [vm_compute; reflexivity|exact Hrun].
Defined.

(** * A batch that fails before a control frame is handled twice

    The first message has the expected number, the second does not: one violation.  When
    the batch ends there it is counted once.  When a control frame follows, the loop flushes
    before handling that frame and the cleanup flushes the same list again: the first
    message, already used up, is counted as a second violation and blamed in the reason for
    closing. *)
Definition user_record (q : Z) : TransportRecord :=
  mkRecord (mkChannel DELIVERY_LANE 1)
    (match encode_frame (FUserMessage (mkUserMessage 9 1 q 3 4 77 1 work [5] 0))
             65536 (Some DELIVERY_LANE) with Ok b => b | Err _ => [] end).
Definition advisory_record : TransportRecord :=
  mkRecord (mkChannel CONTROL CONTROL_LANE_ID)
    (match encode_frame (FRecipientUnavailable (mkAdvisory 9 1 0 5 ACTOR_NOT_FOUND [] 0))
             65536 (Some CONTROL) with Ok b => b | Err _ => [] end).
Definition violations (rs : list TransportRecord) : outcome failure bool * Z :=
  let '(o, (b, _)) := active_batch (W := link) (V := nat) texts B0 rs
                        (start nb0 pb0, mkLink [] []) in (o, sequence (a_metrics b)).

Theorem violation_counted_twice :
  violations [user_record 0; user_record 5] =
    (Raise (ProtocolFailure PROTOCOL_VIOLATION
       (lit "delivery lane 1 expected sequence 1, got 5")), 1) /\
  violations [user_record 0; user_record 5; advisory_record] =
    (Raise (ProtocolFailure PROTOCOL_VIOLATION
       (lit "delivery lane 1 expected sequence 1, got 0")), 2).
Proof. split; vm_compute; reflexivity. Qed.
End DeliveryRun.
