(* ===== verification/AssociationLifecycle.v ===== *)
(** How an association closes and how resolution requests settle.

    Any number of threads run methods of an [Association] at once; what they share is read
    and written under its locks.  [life_step] and [request_step] are these critical
    sections, in any order: the sections of [request_close], [_set_close_reason],
    [_run] and [_mark_closed], and of [resolve], [_handle_resolve_result] and
    [_mark_closed]. *)

From stdpp Require Import base list numbers strings gmap relations.
From S2P Require Import Prelude Bytes PyStr Serialization Wire Registry DeadLetter Transport.
From S2P Require Import WireRoundTrip Effects Association AssociationRules AssociationHandshake.

(** * Closing *)

(** The sections that open or close an association. *)
Inductive close_step : Lifecycle -> Lifecycle -> Prop :=
  | LRequestClose reason detail l : close_step l (request_close_locked reason detail l).2
  | LStop l : is_closing (state l) = true -> close_step l (request_stop l)
  | LSetReason reason detail l : close_step l (set_close_reason_locked reason detail l)
  | LActive l : close_step l (become_active_locked l).2.

(** Besides these, the sections of [_mark_closed]: only the thread that notified goes on. *)
Inductive life_step : Lifecycle -> Lifecycle -> Prop :=
  | LClose l l' : close_step l l' -> life_step l l'
  | LNotified l : life_step l (mark_notified_locked l).2
  | LClosed l : closed_notified l = true -> life_step l (mark_closed_locked l).

Definition rank (s : AssociationState) : nat :=
  match s with HANDSHAKING => 0 | ACTIVE => 1 | CLOSING => 2 | CLOSED => 3 end.

(** What any later state keeps of an earlier one. *)
Record life_le (l l' : Lifecycle) : Prop := {
  ll_state : (rank (state l) <= rank (state l'))%nat;
  ll_reason : close_detail l <> None ->
    close_detail l' = close_detail l /\ close_reason l' = close_reason l;
  ll_error : state l <> HANDSHAKING -> handshake_error l' = handshake_error l;
  ll_stop : stop_requested l = true -> stop_requested l' = true;
  ll_notified : closed_notified l = true -> closed_notified l' = true;
}.

(** A reason is recorded exactly from the moment the association closes, its thread is
    asked to stop only then, and an association that is open has no handshake error. *)
Record life_inv (l : Lifecycle) : Prop := {
  li_reason : close_detail l <> None -> is_closing (state l) = true;
  li_closing : state l = CLOSING -> close_detail l <> None;
  li_error : is_closing (state l) = false -> handshake_error l = None;
  li_notified : state l = CLOSED -> closed_notified l = true;
  li_stop : stop_requested l = true -> is_closing (state l) = true;
}.

Lemma handshaking_rank l l' :
  life_le l l' -> state l <> HANDSHAKING -> state l' <> HANDSHAKING.
Proof. intros [Hr _ _ _ _] Hs Hs'. rewrite Hs' in Hr. destruct (state l); cbn in Hr; try lia. done. Qed.

#[global] Instance life_le_refl : Reflexive life_le.
Proof. intros l. by split. Qed.
#[global] Instance life_le_trans : Transitive life_le.
Proof.
  intros x y z Hxy Hyz. pose proof (handshaking_rank _ _ Hxy) as Hh.
  destruct Hxy as [S1 R1 E1 T1 N1], Hyz as [S2 R2 E2 T2 N2]. split.
  - lia.
  - intros Hx. destruct (R1 Hx) as [D1 Q1]. rewrite <- D1, <- Q1. apply R2. by rewrite D1.
  - intros Hx. rewrite <- (E1 Hx). by apply E2, Hh.
  - auto.
  - auto.
Qed.

Lemma life_step_ok l l' : life_step l l' -> life_inv l -> life_le l l' /\ life_inv l'.
Proof.
  intros Hstep Hinv. assert (Hsame : life_le l l /\ life_inv l) by by split.
  destruct Hinv as [Hr Hc He Hn Hst].
  destruct Hstep as [? ? [reason detail l|l Hcl|reason detail l|l]|l|l Hno];
    destruct l as [st re de er sr no]; cbn in *.
  - unfold request_close_locked. cbn. destruct st; cbn; try done;
      (destruct de; [by specialize (Hr ltac:(done))|]); rewrite (He eq_refl);
      split; split; cbn; try done; lia.
  - split; split; cbn; try done.
  - unfold set_close_reason_locked. cbn.
    destruct st; cbn; (destruct de as [d|]; cbn; [try (by specialize (Hr ltac:(done)))|]);
      try (rewrite (He eq_refl)); split; split; cbn; try done; try lia; naive_solver.
  - unfold become_active_locked. cbn. destruct st; cbn; try done.
    (destruct de; [by specialize (Hr ltac:(done))|]). rewrite (He eq_refl).
    split; split; cbn; try done; lia.
  - unfold mark_notified_locked. cbn. destruct no; [done|]. split; split; cbn; try done; naive_solver.
  - subst no. destruct st; cbn; split; split; cbn; try done; try lia; naive_solver.
Qed.

Lemma life_steps_ok l l' : rtc life_step l l' -> life_inv l -> life_le l l' /\ life_inv l'.
Proof.
  induction 1 as [l|l l1 l' Hs _ IH]; intros Hi; [by split|].
  destruct (life_step_ok _ _ Hs Hi) as [H1 Hi1]. destruct (IH Hi1) as [H2 Hi2].
  split; [by etrans|done].
Qed.

Lemma close_life l l' : rtc close_step l l' -> rtc life_step l l'.
Proof. apply rtc_subrel. apply LClose. Qed.

Lemma close_steps_ok l l' :
  rtc close_step l l' -> life_inv l ->
  life_le l l' /\ life_inv l' /\ closed_notified l' = closed_notified l.
Proof.
  intros Hs Hi. destruct (life_steps_ok _ _ (close_life _ _ Hs) Hi) as [H1 H2]. split_and!; try done.
  clear -Hs. induction Hs as [|l l1 l' Hstep _ ->]; [done|].
  destruct Hstep as [reason detail l|l _|reason detail l|l]; destruct l as [[] ? [] ? ? ?]; done.
Qed.

Lemma life_new c : life_inv (a_life (Association_new c)).
Proof. split; done. Qed.

(** * Methods are sequences of critical sections *)

Section methods.
Context `{Unicode} {T V W : Type} `{EqDecision T} (type_of : V -> T).
Context `{Environment W V} (str_exn : exn -> pystr).
Abbreviation M := (Eff (Association * W) failure).
Implicit Types (s : Association * W) (self : Setup T V).

Definition lives s s' : Prop :=
  life_inv (a_life s.1) -> rtc close_step (a_life s.1) (a_life s'.1).

#[local] Instance lives_preorder : PreOrder lives.
Proof.
  split; [by intros s _|]. intros x y z Hxy Hyz Hi. pose proof (Hxy Hi) as H1.
  destruct (close_steps_ok _ _ H1 Hi) as (_ & Hi1 & _). etrans; [exact H1|by apply Hyz].
Qed.

Lemma lives_same s s' : a_life s'.1 = a_life s.1 -> lives s s'.
Proof. intros E _. by rewrite E. Qed.

Lemma lives_update f : (forall a, a_life (f a) = a_life a) -> Preserves lives (update f : M unit).
Proof. intros Hf. apply preserves_update. intros a w. apply lives_same, Hf. Qed.
Lemma lives_call {A} (op : W -> result A * W) : Preserves lives (call op : M A).
Proof. apply preserves_call. intros a w. by apply lives_same. Qed.
Lemma lives_notify op : Preserves lives (notify op : M unit).
Proof. apply preserves_notify. intros a w. by apply lives_same. Qed.
Lemma lives_locked f : (forall l, close_step l (f l).2) -> Preserves lives (locked f : M bool).
Proof.
  intros Hf [a w] _. unfold locked. cbn. specialize (Hf (a_life a)).
  destruct (f (a_life a)) as [b l]. by apply rtc_once.
Qed.
#[local] Hint Resolve lives_call lives_notify : preserves.
#[local] Hint Extern 1 (Preserves lives (update _)) => apply lives_update; intros; done : preserves.
#[local] Hint Extern 1 (Preserves lives (locked _)) => apply lives_locked; constructor : preserves.

Lemma set_reason_closing r d l : is_closing (state (set_close_reason_locked r d l)) = true.
Proof. by destruct l as [[] ? [] ? ? ?]. Qed.
Lemma lives_close r d : Preserves lives (_set_close_reason r d : M unit).
Proof.
  intros [a w] Hi. cbn. etrans; [apply rtc_once, (LSetReason r d)|]. apply rtc_once, LStop.
  apply set_reason_closing.
Qed.
#[local] Hint Resolve lives_close : preserves.

Lemma lives_terminal r d : Preserves lives (_send_terminal_best_effort r d : M unit).
Proof. unfold _send_terminal_best_effort, send_terminal, best_effort. preserves. Qed.
#[local] Hint Resolve lives_terminal : preserves.

(** [request_close] asks the thread to stop only after the association started to close. *)
Lemma lives_request_close r d p : Preserves lives (request_close r d p : M unit).
Proof.
  intros [a w] Hi. unfold request_close, bind at 1, locked. cbn [fst snd] in *.
  destruct (request_close_locked r d (a_life a)) as [go l] eqn:E.
  assert (Hstep : close_step (a_life a) l) by (pose proof (LRequestClose r d (a_life a)) as L; by rewrite E in L).
  destruct go; cbn [when]; [|exact (rtc_once _ _ Hstep)].
  assert (Hcl : is_closing (state l) = true).
  { unfold request_close_locked in E. destruct (is_closing _); [done|]. by injection E as <-. }
  set (s1 := (with_life (fun _ => l) a, w)).
  destruct (close_steps_ok _ _ (rtc_once _ _ Hstep) Hi) as (_ & Hi1 & _).
  pose proof (preserves_when lives p _ (lives_terminal r d) s1 Hi1) as Ht.
  unfold bind at 1. destruct (when p _ s1) as [[u|f] s2]; cbn [snd] in *; (etrans; [exact (rtc_once _ _ Hstep)|]);
    [|exact Ht].
  etrans; [exact Ht|]. apply rtc_once, LStop.
  destruct (close_steps_ok _ _ Ht Hi1) as ([Hr _ _ _ _] & _ & _). cbn in Hr.
  destruct (state l); try done; cbn in Hr; destruct (state (a_life s2.1)); cbn in *; try lia; done.
Qed.
#[local] Hint Resolve lives_request_close : preserves.

Lemma lives_increment c d : Preserves lives (_increment_many c d : M unit).
Proof. unfold _increment_many. preserves. Qed.
Lemma lives_violation l : Preserves lives (_increment_sequence_violation l : M unit).
Proof. unfold _increment_sequence_violation. preserves. Qed.
Lemma lives_send_frame f b e : Preserves lives (_send_frame f b e : M unit).
Proof. unfold _send_frame, _send_payload_locked. preserves. Qed.
#[local] Hint Resolve lives_increment lives_violation lives_send_frame : preserves.
Lemma lives_advisory f : Preserves lives (_send_advisory_best_effort f : M unit).
Proof. unfold _send_advisory_best_effort, _send_control_best_effort, best_effort. preserves. Qed.
#[local] Hint Resolve lives_advisory : preserves.
Lemma lives_require u : Preserves lives (_require_active u : M unit).
Proof. unfold _require_active. preserves. Qed.
#[local] Hint Resolve lives_require : preserves.

Lemma lives_send_user self r v : Preserves lives (send_user_message type_of self r v : M unit).
Proof.
  unfold send_user_message, send_on_lane, encode_message, hand_over, admission_failure. preserves.
Qed.
Lemma lives_resolve_begin p : Preserves lives (resolve_begin p : M _).
Proof. unfold resolve_begin. preserves. Qed.
Lemma lives_resolve_timed_out i o : Preserves lives (resolve_timed_out i o : M unit).
Proof. unfold resolve_timed_out. preserves. Qed.

(** The handshake leaves the lifecycle alone. *)
Definition same_life s s' : Prop := a_life s'.1 = a_life s.1.
#[local] Instance same_life_preorder : PreOrder same_life.
Proof. split; [done|]. intros x y z. unfold same_life. congruence. Qed.
Lemma same_life_update f : (forall a, a_life (f a) = a_life a) -> Preserves same_life (update f : M unit).
Proof. intros Hf [a w]. apply Hf. Qed.
Lemma same_life_call {A} (op : W -> result A * W) : Preserves same_life (call op : M A).
Proof. by apply preserves_call. Qed.
#[local] Hint Resolve same_life_call : preserves.
#[local] Hint Extern 1 (Preserves same_life (update _)) =>
  apply same_life_update; intros; done : preserves.
Lemma same_life_send f b e : Preserves same_life (_send_frame f b e : M unit).
Proof. unfold _send_frame, _send_payload_locked. preserves. Qed.
Lemma same_life_receive fuel d b :
  Preserves same_life (_receive_handshake_frame str_exn fuel d b : M _).
Proof.
  induction fuel as [|fuel IH]; cbn [_receive_handshake_frame];
    unfold _defer_delivery_record; preserves.
Qed.
#[local] Hint Resolve same_life_send same_life_receive : preserves.
Lemma handshake_same_life self : Preserves same_life (_handshake str_exn self : M unit).
Proof.
  unfold _handshake, _receive_hello, _validate_peer_hello, _derive_accept, _prepare_negotiated,
    _activate_transport, system_mismatch, hello_violation. preserves.
Qed.
Lemma lives_handshake self : Preserves lives (_handshake str_exn self : M unit).
Proof. intros s. apply lives_same. apply (handshake_same_life self s). Qed.
Lemma lives_prepare self f c : Preserves lives (_prepare_user_message str_exn self f c : M _).
Proof. unfold _prepare_user_message, frame_rejected, reject_payload. preserves. Qed.
Lemma lives_admit self ms : Preserves lives (_admit_prepared_user_messages self ms : M unit).
Proof.
  assert (Hloop : forall n, Preserves lives (admit_loop self ms n : M Z)).
  { induction ms as [|[[i v] f] ms IH]; intros n; cbn [admit_loop]; preserves. }
  unfold _admit_prepared_user_messages. preserves.
Qed.

Lemma lives_prepare_loop self fs ms s : lives s (prepare_loop str_exn self fs (ms, s)).2.2.
Proof.
  revert ms s. induction fs as [|[f c] fs IH]; intros ms s; cbn [prepare_loop]; [reflexivity|].
  cbn [fst snd]. pose proof (lives_prepare self f c s) as Hp.
  destruct (_prepare_user_message _ _ _ _ s) as [[m|e] s1]; [|exact Hp]. etrans; [exact Hp|apply IH].
Qed.
Lemma lives_handle self fs : Preserves lives (_handle_user_messages str_exn self fs : M unit).
Proof.
  intros s. unfold _handle_user_messages. pose proof (lives_prepare_loop self fs [] s) as Hp.
  destruct (prepare_loop _ _ _ _) as [o [ms s1]]. etrans; [exact Hp|].
  apply (preserves_finally lives); [by intros x|apply lives_admit].
Qed.

(** The same beside the pending users of a batch. *)
Definition lives_batch (st st' : list (UserMessage * LogicalChannel) * (Association * W)) : Prop :=
  lives st.2 st'.2.
#[local] Instance lives_batch_preorder : PreOrder lives_batch.
Proof. split; [intros st; unfold lives_batch; reflexivity|]. intros x y z. unfold lives_batch. apply transitivity. Qed.

Lemma lives_outer {A} (m : M A) : Preserves lives m -> Preserves lives_batch (outer m).
Proof. intros Hm st. unfold outer, lives_batch. specialize (Hm st.2). by destruct (m st.2). Qed.
Lemma lives_users f : Preserves lives_batch (modify (E := failure) (fun st => (f st, st.2))).
Proof. intros st. unfold lives_batch. reflexivity. Qed.
#[local] Hint Resolve lives_outer lives_users lives_handle : preserves.
Lemma lives_flush self : Preserves lives_batch (flush_users str_exn self).
Proof. unfold flush_users. preserves. Qed.
#[local] Hint Resolve lives_flush : preserves.
Lemma lives_resolve_request self f : Preserves lives (_handle_resolve_request self f : M unit).
Proof. unfold _handle_resolve_request, frame_rejected. preserves. Qed.
Lemma lives_resolve_result i f : Preserves lives (_handle_resolve_result i f : M unit).
Proof. unfold _handle_resolve_result, mismatched_response, frame_rejected. preserves. Qed.
Lemma lives_handle_advisory self u f : Preserves lives (_handle_advisory self u f : M unit).
Proof. unfold _handle_advisory, frame_rejected. preserves. Qed.
#[local] Hint Resolve lives_resolve_request lives_resolve_result lives_handle_advisory : preserves.
Lemma lives_records self rs : Preserves lives_batch (process_records str_exn self rs).
Proof. induction rs as [|r rs IH]; cbn [process_records]; unfold frame_rejected; preserves. Qed.

Lemma lives_active_batch self rs : Preserves lives (active_batch str_exn self rs : M bool).
Proof.
  intros s. unfold active_batch.
  pose proof (preserves_finally lives_batch _ _ (lives_records self rs) (lives_flush self) ([], s)) as Hf.
  by destruct (finally _ _ ([], s)) as [o [us s']].
Qed.
#[local] Hint Resolve lives_active_batch : preserves.
Lemma lives_iteration self : Preserves lives (active_iteration str_exn self : M bool).
Proof. unfold active_iteration, next_records. preserves. Qed.
#[local] Hint Resolve lives_iteration : preserves.
Lemma lives_loop self fuel : Preserves lives (_active_loop str_exn self fuel : M _).
Proof. induction fuel as [|fuel IH]; cbn [_active_loop]; preserves. Qed.
#[local] Hint Resolve lives_handshake lives_loop : preserves.
Lemma lives_run_body self fuel : Preserves lives (run_body str_exn self fuel : M _).
Proof. unfold run_body. preserves. Qed.
Lemma lives_run_failure f : Preserves lives (run_failure str_exn f : M unit).
Proof. unfold run_failure, _send_bootstrap_best_effort, best_effort. preserves. Qed.

(** * The end of the thread *)

Definition closing s : Prop := is_closing (state (a_life s.1)) = true.

Lemma closing_lives s s' : lives s s' -> life_inv (a_life s.1) -> closing s -> closing s'.
Proof.
  intros Hl Hi Hc. destruct (close_steps_ok _ _ (Hl Hi) Hi) as ([Hr _ _ _ _] & _ & _).
  unfold closing in *. destruct (state (a_life s.1)), (state (a_life s'.1)); cbn in *; try done; lia.
Qed.

(** A batch ends the loop only after a GOAWAY was noted. *)
Lemma records_closing self rs st st' :
  process_records str_exn self rs st = (Ret true, st') -> closing st'.2.
Proof.
  revert st. induction rs as [|r rs IH]; intros st; cbn [process_records]; [done|].
  intros (st0 & st1 & [= <- <-] & E)%bind_ret_inv.
  apply bind_ret_inv in E as (f & st2 & _ & E).
  destruct f; try (apply bind_ret_inv in E as (u & st3 & _ & E));
    try exact (IH _ E); try (apply bind_ret_inv in E as (u' & st4 & E' & E); try exact (IH _ E));
    try discriminate E.
  injection E as <-. unfold outer, _set_close_reason, update, modify in E'. injection E' as _ <-.
  unfold closing. cbn [fst snd a_life with_life state request_stop]. apply set_reason_closing.
Qed.

Lemma batch_closing self rs s s' :
  life_inv (a_life s.1) -> active_batch str_exn self rs s = (Ret true, s') -> closing s'.
Proof.
  intros Hi. unfold active_batch, finally. pose proof (lives_records self rs ([], s)) as Hl.
  destruct (process_records _ _ _ _) as [o st1] eqn:E.
  pose proof (lives_flush self st1) as Hf. destruct (flush_users _ _ st1) as [[u|f] [us s2]]; [|done].
  intros [= -> <-]. apply records_closing in E.
  destruct (close_steps_ok _ _ (Hl Hi) Hi) as (_ & Hi1 & _).
  exact (closing_lives _ _ Hf Hi1 E).
Qed.

Lemma iteration_closing self s s' :
  life_inv (a_life s.1) -> active_iteration str_exn self s = (Ret true, s') -> closing s'.
Proof.
  intros Hi. unfold active_iteration, bind at 1, this.
  destruct (stop_requested (a_life s.1)) eqn:Est.
  { intros [= <-]. by apply (li_stop _ Hi). }
  intros ([rs|] & s1 & En & E)%bind_ret_inv; [|done].
  assert (Hn : Preserves lives (next_records : M _)) by (unfold next_records; preserves).
  specialize (Hn s). rewrite En in Hn. destruct (close_steps_ok _ _ (Hn Hi) Hi) as (_ & Hi1 & _).
  by eapply batch_closing.
Qed.

Lemma loop_closing self fuel s s' :
  life_inv (a_life s.1) -> _active_loop str_exn self fuel s = (Ret (Some tt), s') -> closing s'.
Proof.
  revert s. induction fuel as [|fuel IH]; intros s Hi; cbn [_active_loop]; [done|].
  intros ([] & s1 & E1 & E)%bind_ret_inv.
  - injection E as <-. by eapply iteration_closing.
  - pose proof (lives_iteration self s) as Hl. rewrite E1 in Hl.
    destruct (close_steps_ok _ _ (Hl Hi) Hi) as (_ & Hi1 & _). by eapply IH.
Qed.

Lemma body_closing self fuel s s' :
  life_inv (a_life s.1) -> state (a_life s.1) <> ACTIVE -> run_body str_exn self fuel s = (Ret (Some tt), s') -> closing s'.
Proof.
  intros Hi Hna. unfold run_body. intros (u & s1 & E1 & E)%bind_ret_inv.
  pose proof (handshake_same_life self s) as Hh. rewrite E1 in Hh. unfold same_life in Hh.
  cbn in Hh. rewrite <- Hh in Hi, Hna. rename Hi into Hi1. clear Hh E1 s.
  apply bind_ret_inv in E as (s0 & s2 & [= <- <-] & E).
  apply bind_ret_inv in E as (u1 & s2 & E2 & E). destruct (connection_is_open _); [|done].
  injection E2 as _ <-. apply bind_ret_inv in E as (a & s2 & [= <- <-] & E).
  apply bind_ret_inv in E as (p & s2 & E2 & E). destruct (a_peer _); [|done]. injection E2 as _ <-.
  apply bind_ret_inv in E as (act & s2 & E2 & E).
  assert (Hs2 : a_life s2.1 = a_life s1.1).
  { unfold call in E2. destruct (_activate_association _ _ _ _) as [[] ?]; [|done]. by injection E2 as _ <-. }
  apply bind_ret_inv in E as (u2 & s3 & E3 & E). destruct act; [|done]. injection E3 as _ <-.
  apply bind_ret_inv in E as (go & s3 & E3 & E).
  unfold locked in E3. rewrite Hs2 in E3.
  destruct (become_active_locked (a_life s1.1)) as [g l] eqn:Eb. injection E3 as <- <-.
  assert (Hstep : close_step (a_life s1.1) l)
    by (pose proof (LActive (a_life s1.1)) as L; by rewrite Eb in L).
  destruct (close_steps_ok _ _ (rtc_once _ _ Hstep) Hi1) as (_ & Hi3 & _). destruct g.
  - apply bind_ret_inv in E as (u3 & s4 & E4 & E). unfold notify, modify in E4. injection E4 as _ <-.
    by eapply loop_closing in E.
  - injection E as <-. unfold closing. cbn. unfold become_active_locked in Eb.
    case_bool_decide; [done|]. injection Eb as <-.
    by destruct (state (a_life s1.1)).
Qed.

Lemma best_effort_ret (m : M unit) s : exists s', best_effort m s = (Ret tt, s').
Proof. unfold best_effort, catch. destruct (m s) as [[[]|f] s']; eauto. Qed.
Lemma terminal_ret r d s : exists s', (_send_terminal_best_effort r d : M unit) s = (Ret tt, s').
Proof.
  unfold _send_terminal_best_effort, catch. destruct (send_terminal _ s) as [[[]|f] s1]; [eauto|].
  destruct f as [| |e]; eauto. destruct e; eauto. case_bool_decide; [eauto|apply best_effort_ret].
Qed.

Lemma close_closing r d s :
  exists s', (_set_close_reason r d : M unit) s = (Ret tt, s') /\ closing s'.
Proof. eexists. split; [reflexivity|]. apply set_reason_closing. Qed.

(** Whatever was raised, the association is closing afterwards. *)
Lemma run_failure_closing f s :
  exists s', (run_failure str_exn f : M unit) s = (Ret tt, s') /\ closing s'.
Proof.
  assert (Hterm : forall r d, exists s',
    bind (_send_terminal_best_effort r d) (fun _ => _set_close_reason (Some r) d) s =
      (Ret tt, s') /\ closing s').
  { intros r d. unfold bind. destruct (terminal_ret r d s) as [s1 ->]. apply close_closing. }
  unfold run_failure. destruct f as [r d reply|r d|e].
  - unfold bind at 1, this. unfold bind.
    assert (exists s1, when reply (if bool_decide (r = DUPLICATE_ASSOCIATION) && bool_decide
        (is_Some (a_negotiated s.1)) then _send_terminal_best_effort r d
      else _send_bootstrap_best_effort (FHelloReject (mkReasonFrame r d 0))) s = (Ret tt, s1))
      as [s1 ->].
    { destruct reply; cbn [when]; [|by eexists]. destruct (_ && _); [apply terminal_ret|apply best_effort_ret]. }
    apply close_closing.
  - apply Hterm.
  - destruct e; try apply Hterm; try apply close_closing;
      (destruct (_ || _); [apply Hterm|apply close_closing]).
Qed.

(** What the thread does last. *)
Lemma mark_closed_closes s :
  life_inv (a_life s.1) -> closed_notified (a_life s.1) = false ->
  exists s', (_mark_closed : M unit) s = (Ret tt, s') /\
    state (a_life s'.1) = CLOSED /\ close_detail (a_life s'.1) = close_detail (a_life s.1) /\
    _pending (a_requests s'.1) = ∅ /\ rtc life_step (a_life s.1) (a_life s'.1).
Proof.
  intros Hi Hn. destruct s as [a w]. cbn in *. unfold _mark_closed, bind at 1, locked. cbn [fst snd].
  pose proof (LNotified (a_life a)) as L1. unfold mark_notified_locked in *. rewrite Hn in *.
  eexists. split; [reflexivity|]. cbn. split_and!; try done.
  etrans; [exact (rtc_once _ _ L1)|]. apply rtc_once. by apply LClosed.
Qed.

(** An association's thread always leaves it closed: when [_run] ends, however the
    handshake, the peer, the transport or a message failed, the association is CLOSED, a
    reason is recorded, waiting resolutions are failed (none is pending), and it got there
    through the critical sections of [life_step] alone, so that the reason is the first
    one given. *)
Theorem association_run_closes self fuel c w a' w' :
  _run str_exn self fuel (Association_new c, w) = (Ret (Some tt), (a', w')) ->
  state (a_life a') = CLOSED /\ close_detail (a_life a') <> None /\
  _pending (a_requests a') = ∅ /\ rtc life_step (a_life (Association_new c)) (a_life a').
Proof.
  set (s0 := (Association_new c, w)). pose proof (life_new c) as Hi0.
  assert (Hbody : forall s1, lives s0 s1 -> closing s1 ->
    (run_finally ;;; ret (Some tt) : M _)%eff s1 =
      (Ret (Some tt), (a', w')) ->
    state (a_life a') = CLOSED /\ close_detail (a_life a') <> None /\
    _pending (a_requests a') = ∅ /\ rtc life_step (a_life (Association_new c)) (a_life a')).
  { intros s1 Hl Hc. pose proof (Hl Hi0) as H1. cbn in H1.
    assert (H2 : rtc close_step (a_life (Association_new c)) (request_stop (a_life s1.1))).
    { etrans; [exact H1|]. apply rtc_once. by apply LStop. }
    destruct (close_steps_ok _ _ H2 Hi0) as (_ & Hi2 & Hn2).
    unfold run_finally, notify, update, modify, this, bind, ret.
    cbn [fst snd].
    match goal with |- context [_mark_closed (with_life _ _, ?w2)] =>
      destruct (mark_closed_closes (with_life request_stop s1.1, w2) Hi2 Hn2)
        as (s2 & Em & Hst & Hd & Hp & Hr) end.
    cbn [fst snd] in Em |- *. rewrite Em.
    intros [= ->]. cbn [fst snd] in *. split_and!; try done.
    - rewrite Hd. cbn. destruct (close_steps_ok _ _ H1 Hi0) as (_ & Hi1 & Hn1).
      unfold closing in Hc. destruct (state (a_life s1.1)) eqn:Es; try done.
      + by apply (li_closing _ Hi1).
      + pose proof (li_notified _ Hi1 Es) as Hx. by rewrite Hn1 in Hx.
    - etrans; [by apply close_life|exact Hr]. }
  unfold _run. intros (ended & s1 & E & E2)%bind_ret_inv. unfold catch in E.
  destruct (run_body str_exn self fuel s0) as [o sb] eqn:Eb.
  pose proof (lives_run_body self fuel s0) as Hlb. rewrite Eb in Hlb.
  destruct o as [[[]|]|f].
  - injection E as <- <-. eapply Hbody; [exact Hlb| |exact E2].
    exact (body_closing self fuel s0 _ Hi0 ltac:(discriminate) Eb).
  - injection E as <- <-. done.
  - apply bind_ret_inv in E as (u & s2 & E & E3). injection E3 as <- <-.
    destruct (run_failure_closing f sb) as (s2' & E' & Hc). rewrite E' in E. injection E as _ <-.
    pose proof (lives_run_failure f sb) as Hf. rewrite E' in Hf.
    eapply Hbody; [|exact Hc|exact E2]. etrans; [exact Hlb|exact Hf].
Qed.
End methods.

(** An association only moves forward, and its first reason for closing stays:
    along any interleaving of the critical sections of its threads, the state goes from
    HANDSHAKING over ACTIVE and CLOSING to CLOSED and never back; a recorded reason is
    never replaced; a reason is recorded exactly from the moment it closes; an association
    that became active never gets a handshake error, and one that is open has none. *)
Theorem association_moves_forward c l l' :
  rtc life_step (a_life (Association_new c)) l -> rtc life_step l l' ->
  life_inv l /\ life_le l l' /\
  (wait_active_result l = Ok tt -> handshake_error l' = None).
Proof.
  intros H1 H2. destruct (life_steps_ok _ _ H1 (life_new c)) as [_ Hi].
  destruct (life_steps_ok _ _ H2 Hi) as [Hle _]. split_and!; [done|done|].
  unfold wait_active_result. destruct (state l) eqn:E; try done. intros _.
  rewrite (ll_error _ _ Hle) by (by rewrite E). apply (li_error _ Hi). by rewrite E.
Qed.

(** * Concrete runs *)
Module LifecycleRun.
Import HandshakeRun Examples.
#[local] Existing Instance ascii_unicode.

(** No HELLO arrives: the handshake times out and the association closes. *)
Definition silent_peer := _run (V := bytes) texts I0 1 (Association_new 1, mkLink [] []).

Lemma association_run_closes_witness :
  state (a_life silent_peer.2.1) = CLOSED /\ close_detail (a_life silent_peer.2.1) <> None.
Proof.
  assert (E : silent_peer.1 = Ret (Some tt)) by (vm_compute; reflexivity).
  assert (Hrun : silent_peer = (Ret (Some tt), (silent_peer.2.1, silent_peer.2.2))).
  { rewrite <- E. rewrite <- (surjective_pairing silent_peer.2). apply surjective_pairing. }
  destruct (association_run_closes (V := bytes) texts I0 1 1 (mkLink [] []) silent_peer.2.1
    silent_peer.2.2 Hrun) as (H1 & H2 & _). split; [exact H1|exact H2].
Defined.

Lemma association_moves_forward_witness :
  handshake_error (request_close_locked NORMAL_SHUTDOWN (lit "bye")
    (become_active_locked (a_life (Association_new 1))).2).2 = None.
Proof.
  apply (association_moves_forward 1 (become_active_locked (a_life (Association_new 1))).2).
  - apply rtc_once, LClose, LActive.
  - apply rtc_once, LClose, LRequestClose.
  - reflexivity.
Defined.
End LifecycleRun.
