(* ===== verification/AssociationRequests.v ===== *)
(** Resolution requests of an association.

    [resolve] registers a request under a fresh correlation ID and waits for its object;
    the receive thread answers it, the caller may time out, and closing fails what is left.
    [request_step] is any interleaving of these critical sections, on the requests and what
    the threads hold ([Calls]). *)

From stdpp Require Import base list numbers strings gmap relations.
From S2P Require Import Prelude Bytes PyStr Serialization Wire Registry DeadLetter Transport.
From S2P Require Import Effects Association.

(** * Correlation IDs *)

(** The candidates of the search. *)
Fixpoint candidate_at (k : nat) (c : Z) : Z :=
  match k with O => c | S k => candidate_at k (advance_correlation c) end.

Lemma candidate_closed k c :
  1 <= c <= MAX_U64 -> candidate_at k c = (c - 1 + Z.of_nat k) `mod` MAX_U64 + 1.
Proof.
  revert c. induction k as [|k IH]; intros c Hc; cbn [candidate_at].
  - rewrite Z.add_0_r, Z.mod_small by lia. lia.
  - unfold advance_correlation. destruct (Z.eqb_spec c MAX_U64) as [->|].
    + rewrite IH by (unfold MAX_U64; lia). f_equal.
      replace (MAX_U64 - 1 + Z.of_nat (S k)) with (1 - 1 + Z.of_nat k + 1 * MAX_U64) by lia.
      by rewrite Z_mod_plus_full.
    + rewrite IH by lia. do 2 f_equal. lia.
Qed.

Lemma candidate_range k c : 1 <= c <= MAX_U64 -> 1 <= candidate_at k c <= MAX_U64.
Proof.
  intros Hc. rewrite candidate_closed by done.
  pose proof (Z.mod_pos_bound (c - 1 + Z.of_nat k) MAX_U64 ltac:(unfold MAX_U64; lia)). lia.
Qed.

Lemma candidate_inj i j c :
  1 <= c <= MAX_U64 -> Z.of_nat i < MAX_U64 -> Z.of_nat j < MAX_U64 ->
  candidate_at i c = candidate_at j c -> i = j.
Proof.
  intros Hc Hi Hj. rewrite !candidate_closed by done. intros E%Z.add_cancel_r.
  assert (Hd : (Z.of_nat i - Z.of_nat j) `mod` MAX_U64 = 0).
  { replace (Z.of_nat i - Z.of_nat j) with ((c - 1 + Z.of_nat i) - (c - 1 + Z.of_nat j)) by lia.
    by rewrite Zminus_mod, E, Z.sub_diag. }
  apply Z.mod_divide in Hd as [q Hq]; [|unfold MAX_U64; lia].
  assert (q = 0) by (unfold MAX_U64 in *; nia). lia.
Qed.

(** A search that fails has refused every candidate. *)
Lemma search_refused fuel c live k :
  _new_correlation_id_locked fuel c live = None -> (k < fuel)%nat ->
  candidate_at k c = 0 \/ candidate_at k c ∈ live.
Proof.
  revert c k. induction fuel as [|fuel IH]; intros c k; [lia|]. cbn [_new_correlation_id_locked].
  destruct (negb (c =? 0) && negb _) eqn:E; [done|]. intros Hn Hk. destruct k as [|k]; cbn.
  - apply andb_false_iff in E as [E|E]; [left; lia|right].
    by apply negb_false_iff, bool_decide_eq_true in E.
  - apply IH; [done|lia].
Qed.

Lemma search_found fuel c live id next :
  0 <= c <= MAX_U64 -> _new_correlation_id_locked fuel c live = Some (id, next) ->
  1 <= id <= MAX_U64 /\ id ∉ live /\ 1 <= next <= MAX_U64.
Proof.
  revert c. induction fuel as [|fuel IH]; intros c Hc; cbn [_new_correlation_id_locked]; [done|].
  assert (Hn : 1 <= advance_correlation c <= MAX_U64).
  { unfold advance_correlation. destruct (Z.eqb_spec c MAX_U64); unfold MAX_U64 in *; lia. }
  destruct (negb (c =? 0) && negb _) eqn:E.
  - intros [= <- <-]. apply andb_true_iff in E as [E1 E2].
    apply negb_true_iff, bool_decide_eq_false in E2. split_and!; try done; lia.
  - apply IH. lia.
Qed.

Lemma search_more fuel fuel' c live x :
  (fuel <= fuel')%nat -> _new_correlation_id_locked fuel c live = Some x ->
  _new_correlation_id_locked fuel' c live = Some x.
Proof.
  revert fuel' c. induction fuel as [|fuel IH]; intros fuel' c Hf; [done|].
  destruct fuel' as [|fuel']; [lia|]. cbn [_new_correlation_id_locked].
  destruct (_ && _); [done|]. apply IH. lia.
Qed.

(** Distinct candidates cannot all be live. *)
Lemma search_succeeds c live :
  1 <= c <= MAX_U64 -> Z.of_nat (S (size live)) < MAX_U64 ->
  _new_correlation_id_locked (S (size live)) c live <> None.
Proof.
  intros Hc Hl Hn. set (cs := (fun k => candidate_at k c) <$> seq 0 (S (size live))).
  assert (Hd : NoDup cs).
  { unfold cs. apply (NoDup_fmap_2_strong _ _); [|apply NoDup_seq].
    intros i j Hi%elem_of_seq Hj%elem_of_seq. apply candidate_inj; lia. }
  assert (Hin : list_to_set cs ⊆ live).
  { intros x Hx. apply elem_of_list_to_set, list_elem_of_fmap in Hx as (k & -> & Hk).
    apply elem_of_seq in Hk. destruct (search_refused _ _ _ k Hn ltac:(lia)) as [Hz|]; [|done].
    pose proof (candidate_range k c Hc). lia. }
  pose proof (subseteq_size _ _ Hin) as Hs. rewrite size_list_to_set in Hs by done.
  unfold cs in Hs. rewrite length_fmap, length_seq in Hs. lia.
Qed.

(** The search for a correlation ID succeeds whenever fewer than [MAX_U64] - 1
    IDs are live: it returns an ID between 1 and [MAX_U64] that is not live, within two
    rounds more than there are live IDs; more rounds, up to the source's [MAX_U64], give the
    same ID. *)
Theorem correlation_id_found c live fuel :
  0 <= c <= MAX_U64 -> Z.of_nat (S (size live)) < MAX_U64 ->
  (correlation_fuel live <= fuel)%nat ->
  exists id next,
    _new_correlation_id_locked fuel c live = Some (id, next) /\
    _new_correlation_id_locked (correlation_fuel live) c live = Some (id, next) /\
    1 <= id <= MAX_U64 /\ id ∉ live /\ 1 <= next <= MAX_U64.
Proof.
  intros Hc Hl Hf.
  assert (Hx : exists x, _new_correlation_id_locked (correlation_fuel live) c live = Some x).
  { destruct (_new_correlation_id_locked (correlation_fuel live) c live) as [x|] eqn:E; [by exists x|].
    exfalso. destruct (decide (c = 0)) as [->|].
    - apply (search_succeeds 1 live); [unfold MAX_U64; lia|done|exact E].
    - apply (search_succeeds c live); [lia|done|].
      destruct (_new_correlation_id_locked (S (size live)) c live) as [x|] eqn:E'; [|done].
      apply (search_more _ (correlation_fuel live)) in E'; [congruence|unfold correlation_fuel; lia]. }
  destruct Hx as [[id next] Hx]. destruct (search_found _ _ _ _ _ Hc Hx) as (? & ? & ?).
  exists id, next. split; [by eapply search_more|]. do 2 (split; [done|]). by split.
Qed.

Lemma correlation_id_found_witness :
  exists id next, _new_correlation_id_locked 9 MAX_U64 {[MAX_U64; 1]} = Some (id, next) /\
    1 <= id <= MAX_U64 /\ id ∉ ({[MAX_U64; 1]} : gset Z).
Proof.
  destruct (correlation_id_found MAX_U64 {[MAX_U64; 1]} 9) as (id & next & H & _ & ? & ? & _).
  - unfold MAX_U64. lia.
  - by vm_compute.
  - by vm_compute; lia.
  - by exists id, next.
Defined.

(** * Interleavings *)

(** The requests with what the threads hold: [held] are the objects
    [_handle_resolve_result] has taken out of [_pending] and not completed yet, [callers]
    gives each call of [resolve] that has not returned, by its object, the ID it
    registered, [lost] are the objects that another call took out of [_pending], and
    [handed] the IDs handed out so far. *)
Record Calls := mkCalls {
  requests : Requests;
  held : gset nat;
  callers : gmap nat Z;
  lost : gset nat;
  handed : list Z }.

Definition calls_start (c : Z) : Calls := mkCalls (a_requests (Association_new c)) ∅ ∅ ∅ [].

(** What a call with the object [obj] loses for others when it pops its ID. *)
Definition popped_other (obj : nat) (id : Z) (r : Requests) : gset nat :=
  match _pending r !! id with
  | Some x => if bool_decide (x = obj) then ∅ else {[x]}
  | None => ∅
  end.

(** One critical section or one completion.  A call that cannot send its request pops its
    ID and raises; one whose wait timed out pops its ID and raises only if its own request
    was still there, and else waits on; a call whose object is completed returns. *)
Inductive request_step : Calls -> Calls -> Prop :=
| request_registered path id next r h c l ids :
    _new_correlation_id_locked (correlation_fuel (dom (_pending r)))
      (_next_correlation_id r) (dom (_pending r)) = Some (id, next) ->
    request_step (mkCalls r h c l ids)
      (mkCalls (register_request path id next r) h (<[new_object r := id]> c) l (id :: ids))
| request_taken id obj r h c l ids :
    _pending r !! id = Some obj ->
    request_step (mkCalls r h c l ids) (mkCalls (pop_pending id r) ({[obj]} ∪ h) c l ids)
| request_completed obj response r h c l ids :
    obj ∈ h ->
    request_step (mkCalls r h c l ids)
      (mkCalls (complete_request obj response r) (h ∖ {[obj]}) c l ids)
| request_send_failed obj id r h c l ids :
    c !! obj = Some id ->
    request_step (mkCalls r h c l ids)
      (mkCalls (pop_pending id r) h (delete obj c) (popped_other obj id r ∪ l) ids)
| request_timed_out obj id r h c l ids :
    c !! obj = Some id ->
    request_step (mkCalls r h c l ids)
      (mkCalls (pop_pending id r) h
         (if bool_decide (_pending r !! id = Some obj) then delete obj c else c)
         (popped_other obj id r ∪ l) ids)
| request_returned obj id o r h c l ids :
    c !! obj = Some id -> objects r !! obj = Some o -> pr_completed o = true ->
    request_step (mkCalls r h c l ids) (mkCalls r h (delete obj c) l ids)
| requests_failed r h c l ids :
    request_step (mkCalls r h c l ids) (mkCalls (fail_pending_locked r) h c l ids).

Definition waiting (o : _PendingResolve) : Prop :=
  pr_completed o = false /\ pr_response o = None /\ pr_error o = false.
Definition settled (o : _PendingResolve) : Prop :=
  pr_completed o = true /\ (pr_error o = true <-> pr_response o = None).

(** Whoever still has an object to complete finds it waiting and is alone with it. *)
Record requests_ok (s : Requests * gset nat) : Prop := {
  ro_next : 0 <= _next_correlation_id s.1 <= MAX_U64;
  ro_ids : forall id obj, _pending s.1 !! id = Some obj -> 1 <= id <= MAX_U64;
  ro_once : forall id id' obj,
    _pending s.1 !! id = Some obj -> _pending s.1 !! id' = Some obj -> id = id';
  ro_waiting : forall id obj, _pending s.1 !! id = Some obj ->
    exists o, objects s.1 !! obj = Some o /\ waiting o;
  ro_held : forall obj, obj ∈ s.2 -> exists o, objects s.1 !! obj = Some o /\ waiting o;
  ro_apart : forall id obj, _pending s.1 !! id = Some obj -> obj ∉ s.2;
  ro_objects : forall obj o, objects s.1 !! obj = Some o -> waiting o \/ settled o }.

(** Somebody will still complete the object of a call that waits: it is under the ID of
    that call in [_pending], or held, or settled, unless it was [lost]; and as long as no
    ID has been handed out twice, none is. *)
Definition answerable (s : Calls) (obj : nat) (id : Z) : Prop :=
  exists o, objects (requests s) !! obj = Some o /\
    (settled o \/ _pending (requests s) !! id = Some obj \/ obj ∈ held s \/ obj ∈ lost s).

Record calls_ok (s : Calls) : Prop := {
  co_requests : requests_ok (requests s, held s);
  co_pending : forall id obj, _pending (requests s) !! id = Some obj -> callers s !! obj = Some id;
  co_answerable : forall obj id, callers s !! obj = Some id -> answerable s obj id;
  co_handed : forall obj id, callers s !! obj = Some id -> id ∈ handed s;
  co_apart : NoDup (handed s) -> forall obj obj' id,
    callers s !! obj = Some id -> callers s !! obj' = Some id -> obj = obj';
  co_lost : NoDup (handed s) -> lost s = ∅ }.

Lemma new_object_fresh r : objects r !! new_object r = None.
Proof. apply not_elem_of_dom. exact (is_fresh (dom (objects r))). Qed.

Lemma fail_request_settles o : waiting o -> settled (fail_request o).
Proof. intros (? & Hr & ?). by split; cbn; rewrite ?Hr. Qed.

(** What failing the pending requests does to one object. *)
Lemma fail_objects ids (objs : gmap nat _PendingResolve) obj :
  foldr (fun x m => alter fail_request x m) objs ids !! obj =
  (if bool_decide (obj ∈ ids) then fail_request else id) <$> objs !! obj.
Proof.
  induction ids as [|x ids IH]; cbn [foldr].
  { rewrite bool_decide_eq_false_2 by set_solver. by rewrite map_fmap_id || (symmetry; apply option_fmap_id). }
  destruct (decide (x = obj)) as [->|Hx].
  - rewrite lookup_alter_eq, IH, (bool_decide_eq_true_2 (obj ∈ obj :: ids)) by set_solver.
    rewrite <- option_fmap_compose. destruct (objs !! obj); [|done]. cbn. by destruct (bool_decide _).
  - rewrite lookup_alter_ne, IH by done. f_equal.
    destruct (decide (obj ∈ ids)).
    + by rewrite !bool_decide_eq_true_2 by set_solver.
    + by rewrite !bool_decide_eq_false_2 by set_solver.
Qed.

Lemma failed_object r obj :
  objects (fail_pending_locked r) !! obj =
  (if bool_decide (obj ∈ (map_to_list (_pending r)).*2) then fail_request else id)
    <$> objects r !! obj.
Proof. apply fail_objects. Qed.

Lemma pending_values r obj :
  obj ∈ (map_to_list (_pending r)).*2 <-> exists id, _pending r !! id = Some obj.
Proof.
  rewrite list_elem_of_fmap. split.
  - intros ([id o] & -> & H%elem_of_map_to_list). by exists id.
  - intros (id & H%elem_of_map_to_list). by exists (id, obj).
Qed.

Lemma requests_start c : 0 <= c <= MAX_U64 -> calls_ok (calls_start c).
Proof.
  intros Hc. split; [split|..]; cbn; try done; intros *; rewrite ?lookup_empty; try done;
    set_solver.
Qed.

(** The steps that only take requests out of [_pending]. *)
Lemma popped_pending id r id' obj :
  _pending (pop_pending id r) !! id' = Some obj -> id' <> id /\ _pending r !! id' = Some obj.
Proof. cbn. intros H%lookup_delete_Some. destruct H. by split. Qed.

Lemma request_register_ok path id next r held :
  _new_correlation_id_locked (correlation_fuel (dom (_pending r)))
    (_next_correlation_id r) (dom (_pending r)) = Some (id, next) ->
  requests_ok (r, held) -> requests_ok (register_request path id next r, held).
Proof.
  intros Hs [Hn Hi Ho Hw Hh Ha Hob]. cbn [fst snd] in *.
  destruct (search_found _ _ _ _ _ Hn Hs) as (Hid & Hfree & Hnext). clear Hs.
  pose proof (new_object_fresh r) as Hf.
  assert (Hp : forall i, _pending r !! i <> Some (new_object r)).
  { intros i E. destruct (Hw _ _ E) as (o & E' & _). congruence. }
  assert (Hnh : new_object r ∉ held).
  { intros E. destruct (Hh _ E) as (o & E' & _). congruence. }
  split; cbn; [lia|..].
  - intros i obj. rewrite lookup_insert_Some. intros [[<- _]|[_ E]]; [done|by eapply Hi].
  - intros i i' obj. rewrite !lookup_insert_Some.
    intros [[<- <-]|[? E]] [[<- E']|[? E']]; try done; [by apply Hp in E'|subst; by apply Hp in E|].
    by eapply Ho.
  - intros i obj. rewrite lookup_insert_Some. intros [[<- <-]|[_ E]].
    + rewrite lookup_insert_eq. by eexists.
    + destruct (Hw _ _ E) as (o & E' & ?). exists o. split; [|done].
      rewrite lookup_insert_ne; [done|congruence].
  - intros obj E. destruct (Hh _ E) as (o & E' & ?). exists o. split; [|done].
    rewrite lookup_insert_ne; [done|congruence].
  - intros i obj. rewrite lookup_insert_Some. intros [[<- <-]|[_ E]]; [done|by eapply Ha].
  - intros obj o. rewrite lookup_insert_Some. intros [[<- <-]|[_ E]]; [by left|by eapply Hob].
Qed.

Lemma request_pop_ok id r held held' :
  requests_ok (r, held) ->
  (forall obj, obj ∈ held' -> obj ∈ held \/ _pending r !! id = Some obj) ->
  requests_ok (pop_pending id r, held').
Proof.
  intros [Hn Hi Ho Hw Hh Ha Hob] Hheld. cbn in *. split; cbn -[pop_pending]; try done.
  - intros i obj [_ E]%popped_pending. by eapply Hi.
  - intros i i' obj [_ E]%popped_pending [_ E']%popped_pending. by eapply Ho.
  - intros i obj [_ E]%popped_pending. by apply (Hw i).
  - intros obj [E|E]%Hheld; [by apply Hh|by apply (Hw id)].
  - intros i obj [Hne E]%popped_pending [E'|E']%Hheld; [by apply (Ha i obj)|].
    by apply Hne, (Ho _ _ obj).
Qed.

Lemma request_complete_ok obj response r held :
  obj ∈ held -> requests_ok (r, held) ->
  requests_ok (complete_request obj response r, held ∖ {[obj]}).
Proof.
  intros Hin [Hn Hi Ho Hw Hh Ha Hob]. cbn in *. split; cbn; try done.
  - intros i x E. destruct (Hw _ _ E) as (o & E' & ?). exists o. split; [|done].
    rewrite lookup_alter_ne; [done|]. intros ->. by apply (Ha i x).
  - intros x [Hx Hne]%elem_of_difference. destruct (Hh x Hx) as (o & E' & ?). exists o.
    split; [|done]. rewrite lookup_alter_ne; [done|set_solver].
  - intros i x E. pose proof (Ha i x E). set_solver.
  - intros x o. rewrite lookup_alter_Some.
    intros [(-> & o' & E & ->)|[_ E]]; [|by eapply Hob]. right.
    destruct (Hh x Hin) as (o & E' & Hwait). simplify_eq.
    destruct response; [|by apply fail_request_settles]. destruct Hwait as (_ & _ & He).
    split; cbn; [done|]. by rewrite He.
Qed.

Lemma request_fail_ok r held : requests_ok (r, held) -> requests_ok (fail_pending_locked r, held).
Proof.
  intros [Hn Hi Ho Hw Hh Ha Hob]. cbn in *.
  split; cbn -[fail_pending_locked]; try done; intros *; rewrite ?failed_object;
    try (cbn; by rewrite lookup_empty).
  - intros Hx. destruct (Hh _ Hx) as (o & E & ?). exists o. split; [|done].
    rewrite bool_decide_eq_false_2, E; [done|].
    intros (i & Ei)%pending_values. by apply (Ha i obj).
  - intros E. apply fmap_Some in E as (o' & E & ->).
    case_bool_decide as Hb; [|by eapply Hob]. right.
    apply pending_values in Hb as (i & Ei). destruct (Hw _ _ Ei) as (o & E' & ?).
    simplify_eq. by apply fail_request_settles.
Qed.

(** * Every call is answered *)

Lemma call_registered_ok path id next r h c l ids :
  _new_correlation_id_locked (correlation_fuel (dom (_pending r)))
    (_next_correlation_id r) (dom (_pending r)) = Some (id, next) ->
  calls_ok (mkCalls r h c l ids) ->
  calls_ok (mkCalls (register_request path id next r) h (<[new_object r := id]> c) l (id :: ids)).
Proof.
  intros Hs [Hr Hp Ha Hh Hd Hl]. cbn [requests held callers lost handed] in *.
  destruct (search_found _ _ _ _ _ (ro_next _ Hr) Hs) as (_ & Hfree & _).
  assert (Hnew : c !! new_object r = None).
  { destruct (c !! new_object r) as [i|] eqn:E; [|done].
    destruct (Ha _ _ E) as (o & E' & _). cbn in E'. by rewrite new_object_fresh in E'. }
  split; cbn.
  - by apply request_register_ok.
  - intros i x. rewrite lookup_insert_Some. intros [[<- <-]|[Hi E]]; [by rewrite lookup_insert_eq|].
    rewrite lookup_insert_ne; [by apply Hp|]. intros <-. apply Hp in E. congruence.
  - intros x i. rewrite lookup_insert_Some. unfold answerable. cbn. intros [[<- <-]|[Hx E]].
    + rewrite lookup_insert_eq. eexists. split; [done|]. right; left. by rewrite lookup_insert_eq.
    + destruct (Ha _ _ E) as (o & E' & Hw). exists o. cbn in E'. rewrite lookup_insert_ne by done.
      split; [done|]. destruct Hw as [?|[Ep|?]]; [by left| |by right; right].
      right; left. rewrite lookup_insert_ne; [done|]. intros <-. by apply Hfree; eapply elem_of_dom_2.
  - intros x i. rewrite lookup_insert_Some. intros [[_ <-]|[_ E%Hh]]; set_solver.
  - intros [Hni Hnd]%NoDup_cons x y i. rewrite !lookup_insert_Some.
    intros [[<- <-]|[_ E]] [[<- E']|[_ E']]; try done; [by apply Hh in E'| |by eapply Hd].
    subst. by apply Hh in E.
  - intros [_ Hnd]%NoDup_cons. by apply Hl.
Qed.

Lemma call_popped_ok obj id r h c c' l ids :
  calls_ok (mkCalls r h c l ids) -> c !! obj = Some id ->
  c' = delete obj c \/ c' = c /\ _pending r !! id <> Some obj ->
  calls_ok (mkCalls (pop_pending id r) h c' (popped_other obj id r ∪ l) ids).
Proof.
  intros [Hr Hp Ha Hh Hd Hl] Ec Hc'. cbn in *.
  assert (Hsub : forall x i, c' !! x = Some i -> c !! x = Some i).
  { intros x i. destruct Hc' as [->|[-> _]]; [|done]. by intros [_ ?]%lookup_delete_Some. }
  split; cbn -[pop_pending].
  - eapply request_pop_ok; [exact Hr|]. by left.
  - intros i x [Hne E]%popped_pending. apply Hp in E.
    destruct Hc' as [->|[-> _]]; [|done]. rewrite lookup_delete_ne; [done|congruence].
  - intros x i E. pose proof (Hsub _ _ E) as Ei. destruct (Ha _ _ Ei) as (o & E' & Hw).
    exists o. cbn in *. split; [done|]. destruct Hw as [?|[Ep|[?|?]]]; [by left| |set_solver..].
    destruct (decide (i = id)) as [->|]; [|right; left; by rewrite lookup_delete_ne].
    right; right; right. unfold popped_other. rewrite Ep, bool_decide_eq_false_2; [set_solver|].
    intros ->. destruct Hc' as [->|[-> ?]]; [by rewrite lookup_delete_eq in E|done].
  - intros x i E%Hsub. by eapply Hh.
  - intros Hnd x y i E%Hsub E'%Hsub. by eapply Hd.
  - intros Hnd. rewrite (Hl Hnd). unfold popped_other.
    destruct (_pending r !! id) as [x|] eqn:E; [|set_solver].
    rewrite bool_decide_eq_true_2; [set_solver|]. apply (Hd Hnd _ _ id); [by apply Hp|done].
Qed.

Lemma call_returned_ok obj r h c l ids o :
  objects r !! obj = Some o -> pr_completed o = true ->
  calls_ok (mkCalls r h c l ids) -> calls_ok (mkCalls r h (delete obj c) l ids).
Proof.
  intros Eo Hc [Hr Hp Ha Hh Hd Hl]. cbn in *. split; cbn; try done.
  - intros i x E. rewrite lookup_delete_ne; [by apply Hp|]. intros <-.
    destruct (ro_waiting _ Hr _ _ E) as (o' & E' & Hw & _). cbn in E'. congruence.
  - intros x i [_ E]%lookup_delete_Some. exact (Ha _ _ E).
  - intros x i [_ E]%lookup_delete_Some. by eapply Hh.
  - intros Hnd x y i [_ E]%lookup_delete_Some [_ E']%lookup_delete_Some. by eapply Hd.
Qed.

(** The steps of the threads that answer leave the calls as they are. *)
Lemma call_kept_ok s r' h' :
  calls_ok s -> requests_ok (r', h') ->
  (forall id obj, _pending r' !! id = Some obj -> _pending (requests s) !! id = Some obj) ->
  (forall obj id, answerable s obj id ->
     answerable (mkCalls r' h' (callers s) (lost s) (handed s)) obj id) ->
  calls_ok (mkCalls r' h' (callers s) (lost s) (handed s)).
Proof. intros [] Hr Hsub Hans. split; cbn; eauto. Qed.

Lemma call_taken_ok id obj r h c l ids :
  _pending r !! id = Some obj -> calls_ok (mkCalls r h c l ids) ->
  calls_ok (mkCalls (pop_pending id r) ({[obj]} ∪ h) c l ids).
Proof.
  intros E Hok. apply (call_kept_ok _ _ _ Hok); cbn -[pop_pending].
  - eapply request_pop_ok; [apply Hok|]. set_solver.
  - by intros i x [_ ?]%popped_pending.
  - intros x i (o & E' & Hw). exists o. cbn in *. split; [done|].
    destruct Hw as [?|[Ep|[?|?]]]; [by left| |set_solver..].
    destruct (decide (i = id)) as [->|]; [|right; left; by rewrite lookup_delete_ne].
    simplify_eq. set_solver.
Qed.

Lemma call_completed_ok obj response r h c l ids :
  obj ∈ h -> calls_ok (mkCalls r h c l ids) ->
  calls_ok (mkCalls (complete_request obj response r) (h ∖ {[obj]}) c l ids).
Proof.
  intros Hin Hok. pose proof (request_complete_ok obj response r h Hin (co_requests _ Hok)) as Hr.
  apply (call_kept_ok _ _ _ Hok); cbn -[complete_request]; [done|done|].
  intros x i (o & E & Hw). cbn in E, Hw. unfold answerable. cbn.
  destruct (decide (x = obj)) as [->|Hx].
  - destruct (ro_held _ (co_requests _ Hok) obj Hin) as (o' & E' & ? & ? & He). cbn in E'. simplify_eq.
    rewrite lookup_alter_eq, E. eexists. split; [done|]. left.
    destruct response; [split; cbn; [done|by rewrite He]|by apply fail_request_settles].
  - rewrite lookup_alter_ne by done. exists o. split; [done|]. set_solver.
Qed.

Lemma call_failed_ok r h c l ids :
  calls_ok (mkCalls r h c l ids) -> calls_ok (mkCalls (fail_pending_locked r) h c l ids).
Proof.
  intros Hok. apply (call_kept_ok _ _ _ Hok); cbn -[fail_pending_locked].
  - apply request_fail_ok, Hok.
  - intros i x. cbn. by rewrite lookup_empty.
  - intros x i (o & E & Hw). cbn in E, Hw. unfold answerable. cbn -[fail_pending_locked].
    rewrite failed_object, E. eexists. split; [done|].
    case_bool_decide as Hb.
    + left. apply pending_values in Hb as (j & Ej).
      destruct (ro_waiting _ (co_requests _ Hok) _ _ Ej) as (o' & E' & ?). cbn in E'. simplify_eq.
      by apply fail_request_settles.
    + destruct Hw as [?|[Ep|?]]; [by left| |by right; right].
      exfalso. apply Hb, pending_values. by exists i.
Qed.

Lemma request_step_ok s s' : request_step s s' -> calls_ok s -> calls_ok s'.
Proof.
  intros []; eauto using call_registered_ok, call_taken_ok, call_completed_ok, call_failed_ok,
    call_returned_ok.
  - intros Hok. eapply call_popped_ok; [done..|by left].
  - intros Hok. eapply call_popped_ok; [done..|]. case_bool_decide; [by left|by right].
Qed.

(** A completed object is not touched again. *)
Lemma request_step_frozen s s' obj o :
  request_step s s' -> calls_ok s ->
  objects (requests s) !! obj = Some o -> pr_completed o = true ->
  objects (requests s') !! obj = Some o.
Proof.
  intros Hs Hok E Hc. pose proof (co_requests _ Hok) as Hr.
  destruct Hs as [path id next r|id x r|x response r ? ? ? ? Hin| | | |r];
    cbn -[fail_pending_locked] in *; try done.
  - rewrite lookup_insert_ne; [done|]. intros <-. by rewrite new_object_fresh in E.
  - rewrite lookup_alter_ne; [done|]. intros <-.
    destruct (ro_held _ Hr x Hin) as (o' & E' & Hw & _). cbn in E'. congruence.
  - rewrite failed_object, E, bool_decide_eq_false_2; [done|].
    intros (i & Ei)%pending_values.
    destruct (ro_waiting _ Hr _ _ Ei) as (o' & E' & Hw & _). cbn in E'. congruence.
Qed.

Lemma requests_reach s s' : rtc request_step s s' -> calls_ok s ->
  calls_ok s' /\
  forall obj o, objects (requests s) !! obj = Some o -> pr_completed o = true ->
    objects (requests s') !! obj = Some o.
Proof.
  induction 1 as [s|s m s' Hs _ IH]; intros Hok; [done|].
  destruct (IH (request_step_ok _ _ Hs Hok)) as [? Hf]. split; [done|].
  intros obj o E Hc. apply Hf; [|done]. by eapply request_step_frozen.
Qed.

(** C35.  However calls of [resolve], the receive thread, failed sends, timeouts
    and the closing of the association interleave, a resolution is settled at most once and
    no call is forgotten: the objects still in [_pending] are distinct, unsettled and
    registered under IDs between 1 and [MAX_U64]; a completed object holds either a response
    or an error, never both and never neither, and no later step changes it.  The object of
    every call that has not returned is settled, or it is in [_pending] under the ID of that
    call, where an answer and the closing find it, or the receive thread holds it to complete
    it; the one exception are objects that another call popped under the same ID, which there
    are none of as long as no ID has been handed out twice.  Closing empties [_pending] and
    settles with an error every request that was in it, so that then only held objects (and
    such lost ones) are not settled. *)
Theorem resolutions_settle_once c s s' :
  1 <= c <= MAX_U64 ->
  rtc request_step (calls_start c) s -> rtc request_step s s' ->
  requests_ok (requests s', held s') /\
  (forall obj o, objects (requests s) !! obj = Some o -> pr_completed o = true ->
     settled o /\ objects (requests s') !! obj = Some o) /\
  (forall obj id, callers s' !! obj = Some id -> answerable s' obj id) /\
  (NoDup (handed s') -> lost s' = ∅) /\
  let closed := fail_pending_locked (requests s') in
  (forall id obj, _pending (requests s') !! id = Some obj ->
     exists o, objects closed !! obj = Some o /\ settled o /\ pr_error o = true) /\
  (forall obj id, callers s' !! obj = Some id ->
     exists o, objects closed !! obj = Some o /\
       (settled o \/ obj ∈ held s' \/ obj ∈ lost s')) /\
  _pending closed = ∅.
Proof.
  intros Hc Hs Hs'.
  destruct (requests_reach _ _ Hs) as [Hok _]; [apply requests_start; lia|].
  destruct (requests_reach _ _ Hs' Hok) as [Hok' Hf].
  pose proof (co_requests _ Hok) as Hr. pose proof (co_requests _ Hok') as Hr'.
  cbv zeta. split_and!; [done| |apply Hok'|apply Hok'| | |done].
  - intros obj o E Hd. split; [|by apply Hf].
    destruct (ro_objects _ Hr obj o E) as [[Hw _]|]; [congruence|done].
  - intros id obj E. destruct (ro_waiting _ Hr' _ _ E) as (o & E' & Hw).
    exists (fail_request o). split; [|split; [by apply fail_request_settles|done]].
    cbn in E'. rewrite failed_object, bool_decide_eq_true_2, E'; [done|].
    apply pending_values. by exists id.
  - intros obj id E. destruct s' as [r h cs l ids].
    destruct (co_answerable _ (call_failed_ok _ _ _ _ _ Hok') obj id E) as (o & E' & Hw).
    exists o. split; [exact E'|]. destruct Hw as [?|[Ep|?]]; [by left| |by right].
    cbn in Ep. by rewrite lookup_empty in Ep.
Qed.

Module RequestsRun.

Definition start : Requests := a_requests (Association_new 7).
Definition one : Requests := register_request (lit "/user/a") 7 8 start.
Definition two : Requests := register_request (lit "/user/b") 8 9 one.

(** Two calls register; the receive thread takes the first out. *)
Definition taken : Calls :=
  mkCalls (pop_pending 7 two) ({[0%nat]} ∪ ∅) (<[1%nat := 8]> (<[0%nat := 7]> ∅)) ∅ [8; 7].

Lemma taken_reached : rtc request_step (calls_start 7) taken.
Proof.
  eapply rtc_l; [apply (request_registered (lit "/user/a") 7 8); vm_compute; reflexivity|].
  eapply rtc_l; [apply (request_registered (lit "/user/b") 8 9); vm_compute; reflexivity|].
  apply rtc_once, (request_taken 7 0). vm_compute. reflexivity.
Qed.

(** Both calls wait, none is lost; the answer completes the first, closing fails the second. *)
Lemma resolutions_settle_once_witness :
  (exists o, objects (fail_pending_locked (pop_pending 7 two)) !! 1%nat = Some o /\ pr_error o = true)
  /\ answerable taken 0 7 /\ answerable taken 1 8 /\ (NoDup [8; 7] -> lost taken = ∅)
  /\ requests_ok (complete_request 0 None (pop_pending 7 two), ({[0%nat]} ∪ ∅) ∖ {[0%nat]}).
Proof.
  assert (Hc : 1 <= 7 <= MAX_U64) by (unfold MAX_U64; lia).
  destruct (resolutions_settle_once 7 _ _ Hc taken_reached (rtc_refl _ _))
    as (_ & _ & Ha & Hl & Hp & _ & _).
  split; [|split; [|split; [|split; [exact Hl|]]]].
  2,3: apply Ha; vm_compute; reflexivity.
  - destruct (Hp 8 1%nat) as (o & Ho & _ & He); [vm_compute; reflexivity|].
    exists o. split; [exact Ho|exact He].
  - refine (proj1 (resolutions_settle_once 7 _
      (mkCalls (complete_request 0 None (pop_pending 7 two)) _ _ _ _) Hc taken_reached _)).
    apply rtc_once, request_completed. set_solver.
Defined.

End RequestsRun.
