(* ===== verification/Sha256.v ===== *)
(** SHA-256 as [hashlib.sha256] computes it (FIPS 180-4), on byte strings.

    The persistence layer derives the slice of an entity and the fingerprint of an
    operation from it.  Words are 32-bit integers kept in [Z], with the wrap-around of
    addition written out.  The round constants and the initial hash value are the
    fractional parts of roots of the first primes, computed here by integer roots.  The two published test vectors at
    the end check the whole computation. *)

From stdpp Require Import base list numbers.
From S2P Require Import Prelude Bytes.

Definition w32 (x : Z) : Z := x mod 2 ^ 32.
Definition add32 (x y : Z) : Z := w32 (x + y).
Definition shr (n x : Z) : Z := Z.shiftr x n.
Definition rotr (n x : Z) : Z := Z.lor (Z.shiftr x n) (w32 (Z.shiftl x (32 - n))).

Definition choose (x y z : Z) : Z := Z.lxor (Z.land x y) (Z.land (2 ^ 32 - 1 - x) z).
Definition majority (x y z : Z) : Z :=
  Z.lxor (Z.land x y) (Z.lxor (Z.land x z) (Z.land y z)).
Definition big_sigma0 (x : Z) : Z := Z.lxor (rotr 2 x) (Z.lxor (rotr 13 x) (rotr 22 x)).
Definition big_sigma1 (x : Z) : Z := Z.lxor (rotr 6 x) (Z.lxor (rotr 11 x) (rotr 25 x)).
Definition small_sigma0 (x : Z) : Z := Z.lxor (rotr 7 x) (Z.lxor (rotr 18 x) (shr 3 x)).
Definition small_sigma1 (x : Z) : Z := Z.lxor (rotr 17 x) (Z.lxor (rotr 19 x) (shr 10 x)).

(** The largest [r < 2 ^ n] with [r ^ e <= v], bit by bit. *)
Fixpoint int_root (e v : Z) (n : nat) (r : Z) : Z :=
  match n with
  | O => r
  | S n => let r' := r + 2 ^ Z.of_nat n in
           int_root e v n (if r' ^ e <=? v then r' else r)
  end.

Definition is_prime (n : nat) : bool :=
  forallb (fun d => negb (Nat.eqb (n mod d) 0)) (seq 2 (n - 2)).
(** The first 64 primes; the largest of them is 311. *)
Definition primes : list Z := Z.of_nat <$> filter (fun n => is_prime n = true) (seq 2 310).

Definition root_fraction (e p : Z) : Z := w32 (int_root e (p * 2 ^ (32 * e)) 40 0).
Definition round_constants : list Z := Eval vm_compute in root_fraction 3 <$> primes.
Definition initial_hash : list Z := Eval vm_compute in root_fraction 2 <$> take 8 primes.

(** Padding: a one bit, zeros, and the bit length in eight bytes, up to a multiple of
    64 bytes. *)
Definition pad (m : bytes) : bytes :=
  m ++ [0x80] ++ replicate (Z.to_nat ((55 - len m) mod 64)) 0 ++ be_pack 8 (8 * len m).

Fixpoint chunks {A} (fuel n : nat) (xs : list A) : list (list A) :=
  match fuel, xs with
  | O, _ | _, [] => []
  | S fuel, _ => take n xs :: chunks fuel n (drop n xs)
  end.

(** The message schedule, newest word first. *)
Fixpoint extend (n : nat) (ws : list Z) : list Z :=
  match n with
  | O => ws
  | S n =>
      let word i := nth i ws 0 in
      extend n (add32 (add32 (small_sigma1 (word 1%nat)) (word 6%nat))
                      (add32 (small_sigma0 (word 14%nat)) (word 15%nat)) :: ws)
  end.

Definition round (h : list Z) (kw : Z * Z) : list Z :=
  match h with
  | [a; b; c; d; e; f; g; i] =>
      let t1 := add32 (add32 i (big_sigma1 e)) (add32 (choose e f g) (add32 kw.1 kw.2)) in
      let t2 := add32 (big_sigma0 a) (majority a b c) in
      [add32 t1 t2; a; b; c; add32 d t1; e; f; g]
  | _ => h
  end.

Definition compress (h : list Z) (block : bytes) : list Z :=
  let words := be_unpack <$> chunks 16 4 block in
  let schedule := reverse (extend 48 (reverse words)) in
  zip_with add32 h (foldl round h (zip round_constants schedule)).

Definition sha256 (m : bytes) : bytes :=
  let padded := pad m in
  foldl compress initial_hash (chunks (length padded) 64 padded) ≫= be_pack 4.

(** * Length and range of a digest *)

Lemma length_round h kw : length (round h kw) = length h.
Proof. by do 9 (destruct h as [|? h]; [done|]). Qed.

Lemma length_rounds h kws : length (foldl round h kws) = length h.
Proof. revert h. induction kws as [|kw kws IH]; intros h; simpl; [done|]. by rewrite IH, length_round. Qed.

Lemma length_compress h block : length (compress h block) = length h.
Proof.
  unfold compress. cbv zeta. rewrite length_zip_with, length_rounds. lia.
Qed.

Lemma length_packed ws : length (ws ≫= be_pack 4) = (4 * length ws)%nat.
Proof.
  induction ws as [|w ws IH]; [done|].
  change ((w :: ws) ≫= be_pack 4) with (be_pack 4 w ++ (ws ≫= be_pack 4)).
  rewrite length_app, length_be_pack, IH. simpl. lia.
Qed.

Lemma packed_ok ws : bytes_ok (ws ≫= be_pack 4).
Proof.
  induction ws as [|w ws IH]; [constructor|].
  change ((w :: ws) ≫= be_pack 4) with (be_pack 4 w ++ (ws ≫= be_pack 4)).
  apply Forall_app. split; [apply be_pack_ok|done].
Qed.

Lemma length_sha256 m : length (sha256 m) = 32%nat.
Proof.
  unfold sha256. cbv zeta. rewrite length_packed.
  assert (forall bs h, length (foldl compress h bs) = length h) as ->; [|done].
  induction bs as [|b bs IH]; intros h; simpl; [done|]. by rewrite IH, length_compress.
Qed.

Lemma sha256_ok m : bytes_ok (sha256 m).
Proof. apply packed_ok. Qed.

#[global] Arguments sha256 : simpl never.

(** * Published test vectors *)

Example sha256_abc :
  be_unpack (sha256 [97; 98; 99]) =
  0xba7816bf8f01cfea414140de5dae2223b00361a396177a9cb410ff61f20015ad.
Proof. by vm_compute. Qed.

Example sha256_empty :
  be_unpack (sha256 []) =
  0xe3b0c44298fc1c149afbf4c8996fb92427ae41e4649b934ca495991b7852b855.
Proof. by vm_compute. Qed.
