(* ===== verification/Json.v ===== *)
(** Of the [json] module what the cluster protocol uses: [json.dumps] with [ensure_ascii],
    [sort_keys] and no spaces, and [json.loads] with its hooks for objects and constants.

    Strings are lists of code points.  A float is kept as its text: no message has one.
    Integers of more than 4300 digits are refused both ways, as [int] and [str] refuse
    them.  The interpreter bounds how deep arrays and objects may nest: [depth] is what is
    left of its recursion limit. *)

From stdpp Require Import base list numbers strings sorting.
From S2P Require Import Prelude Bytes PyStr ActorPath.

Inductive json :=
  | JNull
  | JBool (b : bool)
  | JInt (n : Z)
  | JFloat (text : pystr)
  | JStr (s : pystr)
  | JList (l : list json)
  | JObj (items : list (pystr * json)).

(** * Writing *)

(** [\uXXXX]. *)
Definition hex4 (c : Z) : pystr :=
  [hex_digit (c / 4096); hex_digit (c / 256 mod 16); hex_digit (c / 16 mod 16); hex_digit (c mod 16)].
Definition u_escape (c : Z) : pystr := 92 :: 117 :: hex4 c.
Definition escape_char (c : Z) : pystr :=
  if c =? 34 then [92; 34] else if c =? 92 then [92; 92]
  else if c =? 10 then [92; 110] else if c =? 13 then [92; 114] else if c =? 9 then [92; 116]
  else if c =? 12 then [92; 102] else if c =? 8 then [92; 98]
  else if in_range 32 126 c then [c]
  else if c <? 0x10000 then u_escape c
  else let n := c - 0x10000 in u_escape (0xD800 + n / 1024) ++ u_escape (0xDC00 + n mod 1024).
Definition quote (s : pystr) : pystr := 34 :: (s ≫= escape_char) ++ [34].

(** [repr(n)], within the limit of [sys.int_info.default_max_str_digits]. *)
Definition int_digits_limit : Z := 4300.
Definition int_repr (n : Z) : result pystr :=
  raise_unless (len (str_of_Z (Z.abs n)) <=? int_digits_limit) ValueError ≫= fun _ => Ok (str_int n).

Definition item_le {A} (p q : pystr * A) : Prop := bytes_le p.1 q.1.
#[global] Instance item_le_dec {A} : RelDecision (@item_le A).
Proof. intros p q. unfold item_le. apply _. Defined.
Definition sorted_items {A} (items : list (pystr * A)) : list (pystr * A) := merge_sort item_le items.

Definition item_text (p : pystr * pystr) : pystr := quote p.1 ++ 58 :: p.2.
Fixpoint dumps (v : json) : result pystr :=
  match v with
  | JNull => Ok (lit "null")
  | JBool b => Ok (if b then lit "true" else lit "false")
  | JInt n => int_repr n
  | JFloat text => Ok text
  | JStr s => Ok (quote s)
  | JList l =>
      (fix go l := match l with
        | [] => Ok []
        | x :: l' => dumps x ≫= fun t => go l' ≫= fun ts => Ok (t :: ts)
        end) l ≫= fun ts =>
      Ok (91 :: join [44] ts ++ [93])
  | JObj items =>
      (fix go l := match l with
        | [] => Ok []
        | (k, x) :: l' => dumps x ≫= fun t => go l' ≫= fun ts => Ok ((k, t) :: ts)
        end) items ≫= fun ts =>
      Ok (123 :: join [44] (item_text <$> sorted_items ts) ++ [125])
  end.

(** * Reading *)

Definition is_space (c : Z) : bool := (c =? 32) || (c =? 9) || (c =? 10) || (c =? 13).
Fixpoint skip_space (s : pystr) : pystr :=
  match s with
  | c :: s' => if is_space c then skip_space s' else s
  | [] => []
  end.

Definition unhex (c : Z) : option Z :=
  if in_range 48 57 c then Some (c - 48)
  else if in_range 97 102 c then Some (c - 87)
  else if in_range 65 70 c then Some (c - 55) else None.
Definition unhex4 (a b c d : Z) : option Z :=
  match unhex a, unhex b, unhex c, unhex d with
  | Some a, Some b, Some c, Some d => Some (a * 4096 + b * 256 + c * 16 + d)
  | _, _, _, _ => None
  end.
(** A low surrogate that follows a high one. *)
Definition low_surrogate (s : pystr) : option Z :=
  match s with
  | 92 :: 117 :: a :: b :: c :: d :: _ =>
      match unhex4 a b c d with
      | Some n => if in_range 0xDC00 0xDFFF n then Some n else None
      | None => None
      end
  | _ => None
  end.
Definition simple_escape (c : Z) : option Z :=
  if c =? 34 then Some 34 else if c =? 92 then Some 92 else if c =? 47 then Some 47
  else if c =? 98 then Some 8 else if c =? 102 then Some 12 else if c =? 110 then Some 10
  else if c =? 114 then Some 13 else if c =? 116 then Some 9 else None.

(** [scanstring], after the opening quote. *)
Definition push (c : Z) (r : result (pystr * pystr)) : result (pystr * pystr) :=
  r ≫= fun '(t, rest) => Ok (c :: t, rest).
Fixpoint scanstring (s : pystr) : result (pystr * pystr) :=
  match s with
  | [] => Err JSONDecodeError
  | c :: rest =>
      if c =? 34 then Ok ([], rest)
      else if c =? 92 then
        match rest with
        | [] => Err JSONDecodeError
        | e :: rest1 =>
            if e =? 117 then
              match rest1 with
              | h1 :: h2 :: h3 :: h4 :: rest2 =>
                  match unhex4 h1 h2 h3 h4 with
                  | None => Err JSONDecodeError
                  | Some n =>
                      if in_range 0xD800 0xDBFF n then
                        match low_surrogate rest2, rest2 with
                        | Some m, _ :: _ :: _ :: _ :: _ :: _ :: rest3 =>
                            push (0x10000 + (n - 0xD800) * 1024 + (m - 0xDC00)) (scanstring rest3)
                        | _, _ => push n (scanstring rest2)
                        end
                      else push n (scanstring rest2)
                  end
              | _ => Err JSONDecodeError
              end
            else match simple_escape e with
                 | Some n => push n (scanstring rest1)
                 | None => Err JSONDecodeError
                 end
        end
      else if c <? 32 then Err JSONDecodeError else push c (scanstring rest)
  end.

(** The text after the character [c]. *)
Definition expect (c : Z) (s : pystr) : option pystr :=
  match s with d :: rest => if d =? c then Some rest else None | [] => None end.

(** [_match_number]. *)
Fixpoint span (p : Z -> bool) (s : pystr) : pystr * pystr :=
  match s with
  | c :: s' => if p c then let '(a, b) := span p s' in (c :: a, b) else ([], s)
  | [] => ([], [])
  end.
Definition scan_integer (s : pystr) : option (pystr * pystr) :=
  match s with
  | c :: rest =>
      if c =? 48 then Some ([48], rest)
      else if in_range 49 57 c then let '(a, b) := span is_digit rest in Some (c :: a, b) else None
  | [] => None
  end.
Definition scan_fraction (s : pystr) : pystr * pystr :=
  match expect 46 s with
  | Some rest => match span is_digit rest with ([], _) => ([], s) | (a, b) => (46 :: a, b) end
  | None => ([], s)
  end.
Definition scan_exponent (s : pystr) : pystr * pystr :=
  match s with
  | e :: rest =>
      if (e =? 101) || (e =? 69) then
        let '(sign, rest') := match rest with
          | c :: r => if (c =? 43) || (c =? 45) then ([c], r) else ([], rest)
          | [] => ([], rest)
          end in
        match span is_digit rest' with ([], _) => ([], s) | (a, b) => (e :: sign ++ a, b) end
      else ([], s)
  | [] => ([], s)
  end.
Definition match_number (s : pystr) : result (json * pystr) :=
  let '(sign, s1) := match expect 45 s with Some r => ([45], r) | None => ([], s) end in
  match scan_integer s1 with
  | None => Err JSONDecodeError
  | Some (digits, s2) =>
      let '(fraction, s3) := scan_fraction s2 in
      let '(exponent, s4) := scan_exponent s3 in
      match fraction ++ exponent with
      | [] =>
          raise_unless (len digits <=? int_digits_limit) ValueError ≫= fun _ =>
          let n := int_of_digits digits in Ok (JInt (match sign with [] => n | _ => - n end), s4)
      | tail => Ok (JFloat (sign ++ digits ++ tail), s4)
      end
  end.

(** What follows a fixed word. *)
Definition after (word s : pystr) : option pystr :=
  if is_prefix word s then Some (drop (length word) s) else None.

Section loads.
(** The hooks. *)
Context (object_pairs_hook : list (pystr * json) -> result json).
Context (parse_constant : pystr -> result json).

Definition constant (s : pystr) : result (json * pystr) :=
  let try word k otherwise := match after word s with Some r => k r | None => otherwise end in
  try (lit "null") (fun r => Ok (JNull, r))
  (try (lit "true") (fun r => Ok (JBool true, r))
  (try (lit "false") (fun r => Ok (JBool false, r))
  (try (lit "NaN") (fun r => parse_constant (lit "NaN") ≫= fun v => Ok (v, r))
  (try (lit "Infinity") (fun r => parse_constant (lit "Infinity") ≫= fun v => Ok (v, r))
  (try (lit "-Infinity") (fun r => parse_constant (lit "-Infinity") ≫= fun v => Ok (v, r))
  (match_number s)))))).

(** [scan_once], and the loops of an array and of an object after their first bracket. *)
Fixpoint scan_once (depth fuel : nat) (s : pystr) {struct fuel} : result (json * pystr) :=
  match fuel with
  | O => Err OutOfFuel
  | S fuel =>
      match expect 34 s, expect 91 s, expect 123 s with
      | Some rest, _, _ => scanstring rest ≫= fun '(t, r) => Ok (JStr t, r)
      | None, Some rest, _ =>
          match depth with
          | O => Err RecursionError
          | S depth =>
              match expect 93 (skip_space rest) with
              | Some r => Ok (JList [], r)
              | None => array_items depth fuel (skip_space rest) ≫= fun '(l, r) => Ok (JList l, r)
              end
          end
      | None, None, Some rest =>
          match depth with
          | O => Err RecursionError
          | S depth =>
              match expect 125 (skip_space rest) with
              | Some r => object_pairs_hook [] ≫= fun v => Ok (v, r)
              | None =>
                  object_items depth fuel (skip_space rest) ≫= fun '(l, r) =>
                  object_pairs_hook l ≫= fun v => Ok (v, r)
              end
          end
      | None, None, None => constant s
      end
  end
with array_items (depth fuel : nat) (s : pystr) {struct fuel} : result (list json * pystr) :=
  match fuel with
  | O => Err OutOfFuel
  | S fuel =>
      scan_once depth fuel s ≫= fun '(v, r) =>
      match expect 93 (skip_space r), expect 44 (skip_space r) with
      | Some r', _ => Ok ([v], r')
      | None, Some r' => array_items depth fuel (skip_space r') ≫= fun '(l, r'') => Ok (v :: l, r'')
      | None, None => Err JSONDecodeError
      end
  end
with object_items (depth fuel : nat) (s : pystr) {struct fuel} : result (list (pystr * json) * pystr) :=
  match fuel with
  | O => Err OutOfFuel
  | S fuel =>
      match expect 34 s with
      | None => Err JSONDecodeError
      | Some rest =>
          scanstring rest ≫= fun '(k, r) =>
          match expect 58 (skip_space r) with
          | None => Err JSONDecodeError
          | Some r1 =>
              scan_once depth fuel (skip_space r1) ≫= fun '(v, r2) =>
              match expect 125 (skip_space r2), expect 44 (skip_space r2) with
              | Some r3, _ => Ok ([(k, v)], r3)
              | None, Some r3 => object_items depth fuel (skip_space r3) ≫= fun '(l, r4) => Ok ((k, v) :: l, r4)
              | None, None => Err JSONDecodeError
              end
          end
      end
  end.

(** [json.loads]. *)
Definition loads (depth : nat) (s : pystr) : result json :=
  match expect 0xFEFF s with
  | Some _ => Err JSONDecodeError
  | None =>
      scan_once depth (S (2 * length s)) (skip_space s) ≫= fun '(v, r) =>
      match skip_space r with [] => Ok v | _ => Err JSONDecodeError end
  end.
End loads.
