(* ===== verification/JsonRoundTrip.v ===== *)
(** [json.loads] reads what [json.dumps] wrote, and returns on every input.

    [plain] values are those the round trip is about, [norm] what it makes of their objects.
    [loads_errors] shows that the fuel of [loads] is enough for every text. *)

From stdpp Require Import base list numbers strings sorting.
From S2P Require Import Prelude Bytes PyStr ActorPath Json.

(** * Values that are written and read back *)

Lemma json_ind' (P : json -> Prop) :
  P JNull -> (forall b, P (JBool b)) -> (forall n, P (JInt n)) -> (forall t, P (JFloat t)) ->
  (forall s, P (JStr s)) -> (forall l, Forall P l -> P (JList l)) ->
  (forall items, Forall (fun p => P p.2) items -> P (JObj items)) -> forall v, P v.
Proof.
  intros H1 H2 H3 H4 H5 H6 H7. fix IH 1.
  intros [|b|n|t|s|l|items]; [exact H1|apply H2|apply H3|apply H4|apply H5|apply H6|apply H7].
  - induction l as [|x l IHl]; constructor; [apply IH|exact IHl].
  - induction items as [|[k x] l IHl]; constructor; [apply IH|exact IHl].
Qed.

Definition ascii (s : pystr) : Prop := Forall (fun c => 0 <= c < 128) s.
#[global] Instance ascii_dec s : Decision (ascii s).
Proof. unfold ascii. apply _. Defined.

(** No floats, ASCII strings, distinct keys, nested at most so deep. *)
Inductive plain : nat -> json -> Prop :=
  | plain_null d : plain d JNull
  | plain_bool d b : plain d (JBool b)
  | plain_int d n : plain d (JInt n)
  | plain_str d s : ascii s -> plain d (JStr s)
  | plain_list d l : Forall (plain d) l -> plain (S d) (JList l)
  | plain_obj d items :
      NoDup items.*1 -> Forall (fun p => ascii p.1) items ->
      Forall (fun p => plain d p.2) items -> plain (S d) (JObj items).

(** Objects as they are read: sorted by their keys. *)
Fixpoint norm (v : json) : json :=
  match v with
  | JList l => JList (norm <$> l)
  | JObj items => JObj (sorted_items ((fun p => (p.1, norm p.2)) <$> items))
  | _ => v
  end.

(** ** Strings *)

Lemma escape_ascii :
  Forall (fun c => forall r, scanstring (escape_char c ++ r) = push c (scanstring r)) (seqZ 0 128).
Proof. unfold seqZ. cbn [seq Z.to_nat]. repeat constructor. Qed.

Lemma scan_quoted s rest : ascii s -> scanstring ((s ≫= escape_char) ++ 34 :: rest) = Ok (s, rest).
Proof.
  induction 1 as [|c s Hc _ IH]; [done|]. cbn [mbind list_bind]. rewrite <- app_assoc.
  pose proof escape_ascii as He. rewrite Forall_forall in He. rewrite He by (apply elem_of_seqZ; lia).
  by rewrite IH.
Qed.

(** ** Numbers *)

(** What may follow a value. *)
Definition stops (rest : pystr) : Prop :=
  match rest with [] => True | c :: _ => c = 44 \/ c = 93 \/ c = 125 end.

Lemma str_of_Z_head n : 0 < n -> exists c t, str_of_Z n = c :: t /\ c <> 48.
Proof.
  intros Hn. unfold str_of_Z.
  assert (H : forall fuel n, 0 < n -> fuel <> O -> n < 10 ^ Z.of_nat fuel ->
    exists c t, str_aux fuel n = c :: t /\ c <> 48).
  { clear. induction fuel as [|fuel IH]; intros n Hn Hf Hb; [done|]. cbn [str_aux].
    destruct (Z.ltb_spec n 10); [exists (n + 48), []; split; [done|lia]|].
    rewrite Nat2Z.inj_succ, Z.pow_succ_r in Hb by lia.
    destruct (IH (n / 10)) as (c & t & -> & Hc).
    - apply Z.div_str_pos. lia.
    - intros ->. cbn in Hb. lia.
    - apply Z.div_lt_upper_bound; lia.
    - by exists c, (t ++ [n mod 10 + 48]). }
  apply H; [done|done|]. pose proof (Z.log2_spec n ltac:(lia)) as [_ Hl].
  rewrite Nat2Z.inj_succ, Z2Nat.id by apply Z.log2_nonneg.
  eapply Z.lt_le_trans; [exact Hl|]. apply Z.pow_le_mono_l. lia.
Qed.

Lemma span_digits s rest :
  forallb is_digit s = true -> stops rest -> span is_digit (s ++ rest) = (s, rest).
Proof.
  intros Hs Hr. induction s as [|c s IH]; cbn [app span].
  - destruct rest as [|c rest]; [done|]. cbn [span]. destruct Hr as [->|[->| ->]]; done.
  - cbn [forallb] in Hs. apply andb_true_iff in Hs as [-> Hs]. by rewrite IH.
Qed.

Lemma scan_integer_str n rest :
  0 <= n -> stops rest -> scan_integer (str_of_Z n ++ rest) = Some (str_of_Z n, rest).
Proof.
  intros Hn Hr. destruct (Z.eq_dec n 0) as [->|Hn0]; [done|].
  destruct (str_of_Z_spec n Hn) as (_ & Hd & _).
  destruct (str_of_Z_head n ltac:(lia)) as (c & t & E & Hc). rewrite E in *. cbn [app forallb] in *.
  apply andb_true_iff in Hd as [Hc'%is_digit_spec Hd]. cbn [scan_integer].
  assert (Hin : in_range 49 57 c = true).
  { unfold in_range. apply andb_true_iff. split; apply Z.leb_le; lia. }
  destruct (Z.eqb_spec c 48); [done|]. rewrite Hin. by rewrite span_digits.
Qed.

Lemma number_str n rest :
  len (str_of_Z (Z.abs n)) <= int_digits_limit -> stops rest ->
  match_number (str_int n ++ rest) = Ok (JInt n, rest).
Proof.
  intros Hl Hr.
  assert (Hfe : scan_fraction rest = ([], rest) /\ scan_exponent rest = ([], rest)).
  { destruct rest as [|c rest]; [done|]. by destruct Hr as [->|[->| ->]]. }
  destruct Hfe as [Hf He]. unfold match_number, str_int. destruct (Z.ltb_spec n 0) as [Hn|Hn].
  - rewrite Z.abs_neq in Hl by lia. cbn [app expect Z.eqb Pos.eqb]. rewrite scan_integer_str by (done || lia). rewrite Hf, He. cbn [app].
    rewrite (proj2 (Z.leb_le _ _) Hl). cbn [raise_unless mbind result_bind].
    destruct (str_of_Z_spec (- n) ltac:(lia)) as (_ & _ & ->). by rewrite Z.opp_involutive.
  - rewrite Z.abs_eq in Hl by lia.
    assert (Hs : expect 45 (str_of_Z n ++ rest) = None).
    { destruct (str_of_Z_spec n Hn) as (_ & Hd & _). destruct (str_of_Z n) as [|c t].
      - destruct rest as [|c rest]; [done|]. by destruct Hr as [->|[->| ->]].
      - cbn in *. apply andb_true_iff in Hd as [Hc%is_digit_spec _]. destruct (Z.eqb_spec c 45); [lia|done]. }
    rewrite Hs, scan_integer_str by done. rewrite Hf, He. cbn [app].
    rewrite (proj2 (Z.leb_le _ _) Hl). cbn [raise_unless mbind result_bind]. by destruct (str_of_Z_spec n Hn) as (_ & _ & ->).
Qed.

(** ** Objects are sorted *)

#[local] Instance item_le_total {C} : Total (@item_le C).
Proof. intros p q. apply (total bytes_le). Qed.
#[local] Instance item_le_trans {C} : Transitive (@item_le C).
Proof. intros p q r. apply (transitivity (R := bytes_le)). Qed.

Lemma sorted_items_perm {C} (l : list (pystr * C)) : sorted_items l ≡ₚ l.
Proof. apply merge_sort_Permutation. Qed.

Lemma keys_inj {C} (l : list (pystr * C)) p q : NoDup l.*1 -> p ∈ l -> q ∈ l -> p.1 = q.1 -> p = q.
Proof.
  intros Hd Hp Hq E. apply list_elem_of_lookup in Hp as [i Hi], Hq as [j Hj].
  assert (i = j) as ->; [|congruence].
  apply (NoDup_lookup _ i j p.1 Hd); rewrite list_lookup_fmap, ?Hi, ?Hj; cbn; by rewrite ?E.
Qed.

(** Sorting looks at the keys only. *)
Lemma sorted_items_fmap {C D} (f : C -> D) (l : list (pystr * C)) :
  NoDup l.*1 ->
  sorted_items ((fun p => (p.1, f p.2)) <$> l) = (fun p => (p.1, f p.2)) <$> sorted_items l.
Proof.
  intros Hd.
  assert (Hk : NoDup ((fun p => (p.1, f p.2)) <$> l).*1) by by rewrite <- list_fmap_compose.
  apply (StronglySorted_unique_strong item_le).
  - intros p q Hp Hq H1 H2. rewrite sorted_items_perm in Hp. rewrite sorted_items_perm in Hq.
    apply (keys_inj _ _ _ Hk Hp Hq). by apply (anti_symm bytes_le).
  - apply StronglySorted_merge_sort; apply _.
  - apply (StronglySorted_fmap _ item_le); [done|]. apply StronglySorted_merge_sort; apply _.
  - by rewrite !sorted_items_perm.
Qed.

(** ** Writing, case by case *)

Lemma dumps_list l t :
  dumps (JList l) = Ok t ->
  exists ts, Forall2 (fun x t => dumps x = Ok t) l ts /\ t = 91 :: join [44] ts ++ [93].
Proof.
  cbn [dumps]. intros H. apply bind_ok in H as (ts & H & [= <-]). exists ts. split; [|done].
  revert ts H. induction l as [|x l IH]; intros ts H; [by injection H as <-|].
  apply bind_ok in H as (t1 & H1 & H). apply bind_ok in H as (ts' & H2 & [= <-]). auto.
Qed.

(** The items of an object, each with its value and its text. *)
Lemma dumps_object items t :
  dumps (JObj items) = Ok t ->
  exists zs : list (pystr * (json * pystr)),
    items = (fun z => (z.1, z.2.1)) <$> zs /\ Forall (fun z => dumps z.2.1 = Ok z.2.2) zs /\
    t = 123 :: join [44] (item_text <$> sorted_items ((fun z => (z.1, z.2.2)) <$> zs)) ++ [125].
Proof.
  cbn [dumps]. intros H. apply bind_ok in H as (ts & H & [= <-]).
  enough (exists zs : list (pystr * (json * pystr)), items = (fun z => (z.1, z.2.1)) <$> zs /\
    Forall (fun z => dumps z.2.1 = Ok z.2.2) zs /\ ts = (fun z => (z.1, z.2.2)) <$> zs)
    as (zs & ? & ? & ->) by by exists zs.
  revert ts H. induction items as [|[k x] items IH]; intros ts H; [injection H as <-; by exists []|].
  apply bind_ok in H as (t1 & H1 & H). apply bind_ok in H as (ts' & H2 & [= <-]).
  destruct (IH _ H2) as (zs & -> & Hz & ->). exists ((k, (x, t1)) :: zs). auto.
Qed.

(** The first character of a value. *)
Definition value_start (c : Z) : bool :=
  is_digit c || existsb (Z.eqb c) [45; 34; 91; 123; 110; 116; 102].
Lemma dumps_start d v t : plain d v -> dumps v = Ok t -> exists c t', t = c :: t' /\ value_start c = true.
Proof.
  destruct v as [|b|n|text|s|l|items]; intros Hp H.
  - injection H as <-. eauto.
  - injection H as <-. destruct b; eauto.
  - cbn in H. unfold int_repr in H. apply bind_ok in H as (u & _ & [= <-]). unfold str_int.
    destruct (Z.ltb_spec n 0); [eauto|]. destruct (Z.eq_dec n 0) as [->|]; [eauto|].
    destruct (str_of_Z_head n ltac:(lia)) as (c & t & E & _).
    destruct (str_of_Z_spec n ltac:(lia)) as (_ & Hd & _). rewrite E in *. exists c, t. split; [done|].
    cbn in Hd. apply andb_true_iff in Hd as [Hd _]. unfold value_start. by rewrite Hd.
  - by inversion Hp.
  - injection H as <-. eauto.
  - apply dumps_list in H as (ts & _ & ->). eauto.
  - apply dumps_object in H as (zs & _ & _ & ->). eauto.
Qed.

Lemma start_facts c rest :
  value_start c = true -> skip_space (c :: rest) = c :: rest /\ expect 93 (c :: rest) = None /\
    expect 125 (c :: rest) = None.
Proof.
  unfold value_start. intros H. cbn [skip_space expect].
  assert (Hc : c <> 32 /\ c <> 9 /\ c <> 10 /\ c <> 13 /\ c <> 93 /\ c <> 125).
  { apply orb_true_iff in H as [H%is_digit_spec|H]; [lia|]. cbn in H.
    rewrite !orb_true_iff, !Z.eqb_eq in H. lia. }
  assert (is_space c = false) as ->. { unfold is_space. rewrite !orb_false_iff, !Z.eqb_neq. lia. }
  rewrite !(proj2 (Z.eqb_neq _ _)) by lia. done.
Qed.

(** ** Reading back *)

Section reading.
Context (object_pairs_hook : list (pystr * json) -> result json).
Context (parse_constant : pystr -> result json).
Context (Hhook : forall l, NoDup l.*1 -> object_pairs_hook l = Ok (JObj l)).

Abbreviation scan := (scan_once object_pairs_hook parse_constant).

Definition reads (depth : nat) (v : json) (t : pystr) : Prop :=
  forall fuel rest, (2 * length t < fuel)%nat -> stops rest -> scan depth fuel (t ++ rest) = Ok (norm v, rest).
Definition begins (t : pystr) : Prop := exists c t', t = c :: t' /\ value_start c = true.

Lemma skip_begins t rest : begins t -> skip_space (t ++ rest) = t ++ rest.
Proof. intros (c & t' & -> & Hc). cbn [app]. by destruct (start_facts c (t' ++ rest) Hc) as (-> & _). Qed.

Lemma join_cons sep x xs : xs <> [] -> join sep (x :: xs) = x ++ sep ++ join sep xs.
Proof. by destruct xs. Qed.
Lemma join_begins t ts : begins t -> begins (join [44] (t :: ts)).
Proof.
  intros (c & t' & -> & Hc). destruct ts; [by exists c, t'|]. rewrite join_cons by done.
  by exists c, (t' ++ [44] ++ join [44] (l :: ts)).
Qed.

Lemma array_items_read d l ts fuel rest :
  Forall2 (fun v t => reads d v t /\ begins t) l ts -> l <> [] ->
  (2 * length (join [44%Z] ts) + 1 < fuel)%nat ->
  array_items object_pairs_hook parse_constant d fuel (join [44] ts ++ 93 :: rest) = Ok (norm <$> l, rest).
Proof.
  intros H. revert fuel. induction H as [|v t l ts [Hv Ht] H IH]; intros fuel Hl Hf; [done|].
  destruct fuel as [|fuel]; [lia|]. cbn [array_items].
  destruct H as [|v' t' l ts H' H].
  - cbn [join] in *. rewrite Hv by (lia || (cbn; auto)). done.
  - rewrite join_cons in * by done. rewrite !length_app in Hf. rewrite <- !app_assoc. cbn [app length] in *.
    rewrite Hv by (lia || (cbn; auto)). cbn [mbind result_bind]. cbn [skip_space is_space Z.eqb Pos.eqb orb expect].
    rewrite skip_begins by (apply join_begins, H'). rewrite IH by (done || lia). done.
Qed.

Lemma object_items_read d (zs : list (pystr * (json * pystr))) fuel rest :
  Forall (fun z => ascii z.1 /\ reads d z.2.1 z.2.2 /\ begins z.2.2) zs -> zs <> [] ->
  (2 * length (join [44%Z] ((fun z => item_text (z.1, z.2.2)) <$> zs)) + 1 < fuel)%nat ->
  object_items object_pairs_hook parse_constant d fuel
    (join [44] ((fun z => item_text (z.1, z.2.2)) <$> zs) ++ 125 :: rest) =
  Ok ((fun z => (z.1, norm z.2.1)) <$> zs, rest).
Proof.
  intros H. revert fuel. induction H as [|[k [v t]] zs (Hk & Hv & Ht) H IH]; intros fuel Hl Hf; [done|].
  destruct fuel as [|fuel]; [lia|]. cbn [fmap list_fmap fst snd] in *.
  assert (Hitem : forall more, item_text (k, t) ++ more = 34 :: (k ≫= escape_char) ++ 34 :: 58 :: t ++ more).
  { intros more. unfold item_text, quote. cbn [fst snd app]. by rewrite <- !app_assoc. }
  assert (Hlen : (length (item_text (k, t)) >= 3 + length t)%nat).
  { unfold item_text, quote. cbn. rewrite !length_app. cbn. lia. }
  destruct zs as [|z zs].
  - cbn [join fmap list_fmap] in *. rewrite Hitem. cbn [object_items expect Z.eqb Pos.eqb].
    rewrite scan_quoted by done. cbn [mbind result_bind skip_space is_space Z.eqb Pos.eqb orb expect].
    rewrite skip_begins by done. rewrite Hv by (lia || (cbn; auto)). done.
  - set (more := (fun z0 => item_text (z0.1, z0.2.2)) <$> z :: zs) in *.
    assert (Hmore : more <> []) by done.
    rewrite join_cons in * by done. rewrite !length_app in Hf. rewrite <- !app_assoc, Hitem.
    cbn [object_items expect Z.eqb Pos.eqb app length] in *.
    rewrite scan_quoted by done. cbn [mbind result_bind skip_space is_space Z.eqb Pos.eqb orb expect].
    rewrite skip_begins by done. rewrite Hv by (lia || (cbn; auto)).
    cbn [mbind result_bind skip_space is_space Z.eqb Pos.eqb orb expect].
    assert (Hskip : skip_space (join [44] more ++ 125 :: rest) = join [44] more ++ 125 :: rest).
    { assert (exists r, join [44] more = 34 :: r) as [r ->].
      { unfold more. destruct z as [k' [v' t']]. cbn [fmap list_fmap]. destruct (_ <$> zs); cbn; eauto. }
      done. }
    rewrite Hskip. rewrite IH by (done || lia). done.
Qed.

(** Digits begin no word. *)
Lemma constant_number s :
  (exists c s', s = c :: s' /\ is_digit c = true) \/
  (exists c s', s = 45 :: c :: s' /\ is_digit c = true) ->
  constant parse_constant s = match_number s.
Proof.
  intros Hs.
  assert (H : forall w, w ∈ [lit "null"; lit "true"; lit "false"; lit "NaN"; lit "Infinity"; lit "-Infinity"] ->
    after w s = None).
  { intros w Hw. unfold after. destruct (is_prefix w s) eqn:E; [|done].
    apply is_prefix_spec in E as [r E].
    repeat (apply elem_of_cons in Hw as [->|Hw]; [exfalso|]); [..|by apply not_elem_of_nil in Hw];
      (destruct Hs as [(c & s' & -> & Hc)|(c & s' & -> & Hc)]; cbn in E; simplify_eq; done). }
  unfold constant. by rewrite !H by (repeat (left || right)).
Qed.

Lemma int_text n : exists c t, str_int n = c :: t /\
  (is_digit c = true \/ c = 45 /\ exists c' t', t = c' :: t' /\ is_digit c' = true).
Proof.
  assert (H : forall m, 0 <= m -> exists c t, str_of_Z m = c :: t /\ is_digit c = true).
  { intros m Hm. destruct (Z.eq_dec m 0) as [->|]; [by eexists _, _|].
    destruct (str_of_Z_head m ltac:(lia)) as (c & t & E & _).
    destruct (str_of_Z_spec m Hm) as (_ & Hd & _). rewrite E in *. exists c, t. split; [done|].
    cbn in Hd. by apply andb_true_iff in Hd as [? _]. }
  unfold str_int. destruct (Z.ltb_spec n 0).
  - destruct (H (- n) ltac:(lia)) as (c & t & -> & Hc). eexists 45, _. split; [done|]. right. eauto.
  - destruct (H n ltac:(lia)) as (c & t & -> & Hc). eauto.
Qed.

Lemma scan_int d fuel n rest :
  len (str_of_Z (Z.abs n)) <= int_digits_limit -> stops rest -> fuel <> O ->
  scan d fuel (str_int n ++ rest) = Ok (JInt n, rest).
Proof.
  intros Hl Hr Hf. destruct fuel as [|fuel]; [done|]. destruct (int_text n) as (c & t & E & Hc).
  assert (Hd : c = 45 \/ is_digit c = true) by tauto.
  assert (Hne : expect 34 (str_int n ++ rest) = None /\ expect 91 (str_int n ++ rest) = None /\
    expect 123 (str_int n ++ rest) = None).
  { rewrite E. cbn. rewrite is_digit_spec in Hd. rewrite !(proj2 (Z.eqb_neq _ _)) by lia. done. }
  destruct Hne as (H1 & H2 & H3). cbn [scan_once]. rewrite H1, H2, H3.
  rewrite constant_number; [by apply number_str|].
  destruct Hc as [Hc|[-> (c' & t' & -> & Hc)]]; rewrite E; [left|right]; cbn; eauto.
Qed.

(** The texts of the values of a list are read in turn. *)
Lemma list_reads d l ts :
  Forall (plain d) l -> Forall (fun v => forall d t, plain d v -> dumps v = Ok t -> reads d v t) l ->
  Forall2 (fun x t => dumps x = Ok t) l ts -> Forall2 (fun v t => reads d v t /\ begins t) l ts.
Proof.
  intros Hp IH H. induction H as [|x t l ts Hx H IHl]; [constructor|].
  apply Forall_cons in Hp as [Hx' Hp], IH as [IHx IH]. constructor; [|auto].
  split; [by apply IHx|by eapply dumps_start].
Qed.

Lemma scan_dumps d v t : plain d v -> dumps v = Ok t -> reads d v t.
Proof.
  revert d t. induction v as [|b|n|text|s|l IH|items IH] using json_ind'; intros d t Hp H.
  - injection H as <-. intros fuel rest Hf _. destruct fuel; [lia|]. done.
  - injection H as <-. intros fuel rest Hf _. destruct fuel; [lia|]. by destruct b.
  - cbn in H. unfold int_repr in H. apply bind_ok in H as (u & Hu%raise_unless_ok%Z.leb_le & [= <-]).
    intros fuel rest Hf Hr. apply scan_int; [done..|lia].
  - by inversion Hp.
  - injection H as <-. inversion Hp as [| | |? ? Hs| |]; subst. intros fuel rest Hf _.
    destruct fuel; [lia|]. unfold quote. cbn [app scan_once expect Z.eqb Pos.eqb]. rewrite <- app_assoc. cbn [app].
    by rewrite scan_quoted.
  - apply dumps_list in H as (ts & Hts & ->). inversion Hp as [| | | |d' ? Hl|]; subst.
    intros fuel rest Hf _. destruct fuel as [|fuel]; [cbn in Hf; lia|].
    cbn [app scan_once expect Z.eqb Pos.eqb]. rewrite <- app_assoc. cbn [app].
    pose proof (list_reads _ _ _ Hl IH Hts) as Hr.
    destruct Hr as [|x t l ts [Hx Hbeg] Hr]; [done|].
    pose proof (join_begins t ts Hbeg) as Hj. rewrite skip_begins by done.
    assert (expect 93 (join [44] (t :: ts) ++ 93 :: rest) = None) as ->.
    { destruct Hj as (c & t' & -> & Hc). cbn [app]. apply (start_facts c _ Hc). }
    rewrite (array_items_read _ (x :: l)); [done| |done|].
    + by constructor.
    + cbn [length] in Hf. rewrite length_app in Hf. cbn [length] in Hf. lia.
  - apply dumps_object in H as (zs & -> & Hz & ->). inversion Hp as [| | | | |d' ? Hd Hk Hv]; subst.
    intros fuel rest Hf _. destruct fuel as [|fuel]; [cbn in Hf; lia|].
    assert (Hdz : NoDup zs.*1) by by rewrite <- list_fmap_compose in Hd.
    assert (Htext : item_text <$> sorted_items ((fun z => (z.1, z.2.2)) <$> zs) =
      (fun z => item_text (z.1, z.2.2)) <$> sorted_items zs).
    { rewrite (sorted_items_fmap snd zs Hdz), <- list_fmap_compose. done. }
    assert (Hnorm : norm (JObj ((fun z => (z.1, z.2.1)) <$> zs)) =
      JObj ((fun z => (z.1, norm z.2.1)) <$> sorted_items zs)).
    { cbn [norm]. f_equal. rewrite <- list_fmap_compose.
      exact (sorted_items_fmap (fun z => norm z.1) zs Hdz). }
    rewrite Hnorm. rewrite Htext in Hf |- *. clear Hnorm Htext.
    assert (Hall : Forall (fun z => ascii z.1 /\ reads d' z.2.1 z.2.2 /\ begins z.2.2) (sorted_items zs)).
    { rewrite sorted_items_perm. rewrite Forall_fmap in Hk, Hv, IH.
      rewrite Forall_forall in Hz, Hk, Hv, IH |- *. intros z Hin. split; [by apply (Hk z)|].
      split; [by apply (IH z); [|apply (Hv z)|apply (Hz z)]|]. eapply dumps_start; [by apply (Hv z)|by apply (Hz z)]. }
    assert (Hkeys : NoDup ((fun z => (z.1, norm z.2.1)) <$> sorted_items zs).*1).
    { rewrite <- list_fmap_compose. change (fst ∘ _) with (fst : pystr * (json * pystr) -> pystr).
      by rewrite sorted_items_perm. }
    cbn [app scan_once expect Z.eqb Pos.eqb]. rewrite <- app_assoc. cbn [app].
    destruct (decide (sorted_items zs = [])) as [E|Hne]; [rewrite E; cbn; by rewrite Hhook by apply NoDup_nil_2|].
    assert (Hq : exists r, join [44] ((fun z => item_text (z.1, z.2.2)) <$> sorted_items zs) = 34 :: r).
    { destruct (sorted_items zs) as [|[k [v t]] l]; [done|]. cbn [fmap list_fmap]. destruct (_ <$> l); cbn; eauto. }
    assert (Hskip : skip_space (join [44] ((fun z => item_text (z.1, z.2.2)) <$> sorted_items zs) ++ 125 :: rest) =
      join [44] ((fun z => item_text (z.1, z.2.2)) <$> sorted_items zs) ++ 125 :: rest).
    { destruct Hq as [r ->]. done. }
    rewrite Hskip. replace (expect 125 _) with (@None pystr) by (destruct Hq as [r ->]; done).
    rewrite object_items_read; [|done|done|].
    + cbn [mbind result_bind]. by rewrite Hhook.
    + cbn [length] in Hf. rewrite length_app in Hf. cbn [length] in Hf. lia.
Qed.

(** [loads] reads what [dumps] wrote. *)
Lemma loads_dumps d v t :
  plain d v -> dumps v = Ok t -> loads object_pairs_hook parse_constant d t = Ok (norm v).
Proof.
  intros Hp H. destruct (dumps_start d v t Hp H) as (c & t' & E & Hc). unfold loads.
  assert (expect 0xFEFF t = None) as ->.
  { rewrite E. cbn [expect]. destruct (Z.eqb_spec c 0xFEFF) as [->|]; [|done]. by vm_compute in Hc. }
  pose proof (skip_begins t [] ltac:(by exists c, t')) as Hs. rewrite app_nil_r in Hs. rewrite Hs.
  pose proof (scan_dumps d v t Hp H (S (2 * length t)) [] ltac:(lia) I) as Hr. rewrite app_nil_r in Hr.
  by rewrite Hr.
Qed.
End reading.

(** ** Every text is read *)

(** What makes [int] refuse a number: a run of more digits than it accepts. *)
Definition long_integer (s : pystr) : Prop :=
  exists before digits behind, s = before ++ digits ++ behind /\
    forallb is_digit digits = true /\ int_digits_limit < len digits.
(** The brackets that may open a level of nesting. *)
Definition openings (s : pystr) : nat := length (filter (fun c => c = 91 \/ c = 123) s).

Lemma openings_app s t : openings (s ++ t) = (openings s + openings t)%nat.
Proof. unfold openings. by rewrite filter_app, length_app. Qed.

Section total.
(** The errors of the hooks. *)
Context (G : exn -> Prop).

(** The errors reading [s] with [d] levels left may end with: JSON's own, those of the hooks,
    that of [int] on a number with too many digits, and that of too many levels. *)
Definition read_error (d : nat) (s : pystr) (e : exn) : Prop :=
  e = JSONDecodeError \/ G e \/ e = ValueError /\ long_integer s \/ e = RecursionError /\ (d < openings s)%nat.

Lemma read_error_suffix d s t e : s `suffix_of` t -> read_error d s e -> read_error d t e.
Proof.
  intros [p ->] [?|[?|[[-> (x & y & z & -> & ?)]|[-> ?]]]]; unfold read_error; [auto..| |].
  - right; right; left. split; [done|]. exists (p ++ x), y, z. by rewrite <- (assoc_L (++)).
  - right; right; right. split; [done|]. rewrite openings_app. lia.
Qed.
Lemma read_error_open d s c e : c = 91 \/ c = 123 -> read_error d s e -> read_error (S d) (c :: s) e.
Proof.
  intros Hc H. assert (openings (c :: s) = S (openings s)) as Ho.
  { unfold openings. by rewrite filter_cons_True. }
  assert (s `suffix_of` c :: s) as Hs by (by exists [c]).
  destruct (read_error_suffix d s _ e Hs H) as [?|[?|[?|[-> _]]]]; unfold read_error; auto.
  destruct H as [?|[?|[[? _]|[_ ?]]]]; auto; [done|]. right; right; right. split; [done|]. lia.
Qed.
Lemma read_error_decode d s : read_error d s JSONDecodeError.
Proof. by left. Qed.

(** A reader that consumes something or fails with one of them. *)
Definition consumes {A} (d : nat) (s : pystr) (r : result (A * pystr)) : Prop :=
  match r with
  | Ok (_, rest) => rest `suffix_of` s /\ (length rest < length s)%nat
  | Err e => read_error d s e
  end.

Lemma consumes_bind {A B} d s t (r : result (A * pystr)) (k : A * pystr -> result (B * pystr)) :
  consumes d t r -> t `suffix_of` s ->
  (forall a rest, rest `suffix_of` t -> (length rest < length t)%nat -> consumes d s (k (a, rest))) ->
  consumes d s (r ≫= k).
Proof.
  intros Hr Ht Hk. destruct r as [[a rest]|e]; [|by apply (read_error_suffix d t)].
  destruct Hr. by apply Hk.
Qed.
Lemma consumes_ok {A} d s t (a : A) rest :
  rest `suffix_of` t -> t `suffix_of` s -> (length rest < length s)%nat -> consumes d s (Ok (a, rest)).
Proof. intros H1 H2 H3. split; [by etrans|done]. Qed.

Lemma suffix_length_le (s t : pystr) : s `suffix_of` t -> (length s <= length t)%nat.
Proof. intros [p ->]. rewrite length_app. lia. Qed.

Lemma skip_space_suffix s : skip_space s `suffix_of` s.
Proof.
  induction s as [|c s IH]; [done|]. cbn. case_match; [|done]. etrans; [exact IH|]. by exists [c].
Qed.
Lemma expect_cons c s r : expect c s = Some r -> s = c :: r.
Proof. destruct s as [|d s]; [done|]. cbn. destruct (Z.eqb_spec d c) as [->|]; [|done]. by intros [= ->]. Qed.
Lemma expect_skip c s r : expect c (skip_space s) = Some r -> r `suffix_of` s /\ (length r < length s)%nat.
Proof.
  intros E%expect_cons. pose proof (skip_space_suffix s) as H. rewrite E in H. split.
  - etrans; [|exact H]. by exists [c].
  - apply suffix_length_le in H. cbn in H. lia.
Qed.
Lemma span_app p s : s = (span p s).1 ++ (span p s).2 /\ forallb p (span p s).1 = true.
Proof.
  induction s as [|c s [IH1 IH2]]; [done|]. cbn. destruct (p c) eqn:E; [|done].
  destruct (span p s) as [a b]. cbn in *. by rewrite E, <- IH1.
Qed.

Lemma scanstring_consumes d s : consumes d s (scanstring s).
Proof.
  induction s as [s IH] using (induction_ltof1 _ length). unfold ltof in IH.
  assert (Hpush : forall c r, r `suffix_of` s -> (length r < length s)%nat -> consumes d s (push c (scanstring r))).
  { intros c r Hs Hr. unfold push. apply (consumes_bind d s r); [by apply IH|done|].
    intros t rest H1 H2. eapply consumes_ok; [exact H1|done|lia]. }
  assert (Hdrop : forall n, drop n s `suffix_of` s) by (intros n; exists (take n s); by rewrite take_drop).
  destruct s as [|c s]; [by left|]. cbn [scanstring] in *. repeat case_match; subst;
    first [by left
          |apply Hpush; [first [by apply (Hdrop 1%nat)|by apply (Hdrop 2%nat)|by apply (Hdrop 6%nat)|by apply (Hdrop 12%nat)]
                        |cbn; lia]
          |split; [by apply (Hdrop 1%nat)|cbn; lia]].
Qed.

Lemma scan_integer_spec s digits rest :
  scan_integer s = Some (digits, rest) ->
  s = digits ++ rest /\ forallb is_digit digits = true /\ digits <> [].
Proof.
  destruct s as [|c s]; [done|]. cbn. destruct (Z.eqb_spec c 48) as [->|]; [by intros [= <- <-]|].
  destruct (in_range 49 57 c) eqn:E; [|done]. destruct (span_app is_digit s) as [H1 H2].
  destruct (span is_digit s) as [a b]. intros [= <- <-]. cbn in *. split_and!; [by rewrite <- H1| |done].
  rewrite H2, andb_true_r. unfold is_digit, in_range in *. lia.
Qed.
Lemma scan_fraction_suffix s : (scan_fraction s).2 `suffix_of` s.
Proof.
  unfold scan_fraction. destruct (expect 46 s) as [r|] eqn:E; [|done]. apply expect_cons in E as ->.
  destruct (span_app is_digit r) as [H _]. destruct (span is_digit r) as [[|x a] b]; [done|]. cbn in *.
  rewrite H. by exists (46 :: x :: a).
Qed.
Lemma scan_exponent_suffix s : (scan_exponent s).2 `suffix_of` s.
Proof.
  unfold scan_exponent. destruct s as [|e r]; [done|]. destruct (_ || _); [|done].
  destruct (match r with [] => _ | _ => _ end) as [sg r'] eqn:Er.
  assert (r' `suffix_of` r) as Hr'.
  { destruct r as [|c r0]; [by injection Er as <- <-|]. destruct (_ || _); injection Er as <- <-; [by exists [c]|done]. }
  destruct (span_app is_digit r') as [H _]. destruct (span is_digit r') as [[|x a] b]; [done|]. cbn in *.
  etrans; [|by exists [e]; reflexivity]. etrans; [|exact Hr']. rewrite H. by exists (x :: a).
Qed.

Lemma number_consumes d s : consumes d s (match_number s).
Proof.
  unfold match_number.
  destruct (match expect 45 s with Some r => _ | None => _ end) as [sign s1] eqn:E1.
  assert (H1 : s1 `suffix_of` s).
  { destruct (expect 45 s) as [r|] eqn:E; injection E1 as <- <-; [|done].
    apply expect_cons in E as ->. by exists [45]. }
  destruct (scan_integer s1) as [[digits s2]|] eqn:E2; [|by left].
  apply scan_integer_spec in E2 as (E2 & Hd & Hne).
  pose proof (scan_fraction_suffix s2) as H3. destruct (scan_fraction s2) as [fraction s3].
  pose proof (scan_exponent_suffix s3) as H4. destruct (scan_exponent s3) as [exponent s4]. cbn in H3, H4.
  assert (Hs : s4 `suffix_of` s /\ (length s4 < length s)%nat).
  { assert (s4 `suffix_of` s2) as H42 by (by etrans).
    split.
    - etrans; [exact H42|]. etrans; [|exact H1]. rewrite E2. by exists digits.
    - apply suffix_length_le in H42, H1. rewrite E2, length_app in H1. destruct digits; [done|]. cbn in H1. lia. }
  destruct (fraction ++ exponent); [|done].
  unfold raise_unless. destruct (Z.leb_spec (len digits) int_digits_limit); [done|].
  right; right; left. split; [done|]. destruct H1 as [pre ->]. exists pre, digits, s2. by rewrite <- E2.
Qed.

Context (object_pairs_hook : list (pystr * json) -> result json).
Context (parse_constant : pystr -> result json).
Context (Hhook : forall l e, object_pairs_hook l = Err e -> G e).
Context (Hconst : forall s e, parse_constant s = Err e -> G e).

Lemma hook_consumes {A} d s (v : result A) rest :
  (forall e, v = Err e -> G e) -> rest `suffix_of` s -> (length rest < length s)%nat ->
  consumes d s (v ≫= fun v => Ok (v, rest)).
Proof. intros Hv Hr Hl. destruct v; [done|]. right; left. by apply Hv. Qed.

Lemma constant_consumes d s : consumes d s (constant parse_constant s).
Proof.
  unfold constant.
  assert (Hafter : forall w r, after w s = Some r -> w <> [] -> r `suffix_of` s /\ (length r < length s)%nat).
  { intros w r. unfold after. destruct (is_prefix w s) eqn:E; [|done]. intros [= <-] Hw.
    apply is_prefix_spec in E as [r ->]. rewrite drop_app_length, length_app. split; [by exists w|].
    destruct w; [done|]. cbn. lia. }
  repeat (match goal with |- consumes d s (match after ?w s with _ => _ end) =>
    destruct (after w s) as [r|] eqn:?; [first [eapply Hafter; [eassumption|done]|
      apply hook_consumes; [apply Hconst|eapply Hafter; [eassumption|done]..]]|] end).
  apply number_consumes.
Qed.

Abbreviation scan := (scan_once object_pairs_hook parse_constant).
Abbreviation arr := (array_items object_pairs_hook parse_constant).
Abbreviation obj := (object_items object_pairs_hook parse_constant).

Lemma scan_step d fuel s :
  scan d (S fuel) s =
  match expect 34 s, expect 91 s, expect 123 s with
  | Some rest, _, _ => scanstring rest ≫= fun '(t, r) => Ok (JStr t, r)
  | None, Some rest, _ =>
      match d with
      | O => Err RecursionError
      | S d =>
          match expect 93 (skip_space rest) with
          | Some r => Ok (JList [], r)
          | None => arr d fuel (skip_space rest) ≫= fun '(l, r) => Ok (JList l, r)
          end
      end
  | None, None, Some rest =>
      match d with
      | O => Err RecursionError
      | S d =>
          match expect 125 (skip_space rest) with
          | Some r => object_pairs_hook [] ≫= fun v => Ok (v, r)
          | None =>
              obj d fuel (skip_space rest) ≫= fun '(l, r) => object_pairs_hook l ≫= fun v => Ok (v, r)
          end
      end
  | None, None, None => constant parse_constant s
  end.
Proof. reflexivity. Qed.
Lemma array_step d fuel s :
  arr d (S fuel) s =
  scan d fuel s ≫= fun '(v, r) =>
  match expect 93 (skip_space r), expect 44 (skip_space r) with
  | Some r', _ => Ok ([v], r')
  | None, Some r' => arr d fuel (skip_space r') ≫= fun '(l, r'') => Ok (v :: l, r'')
  | None, None => Err JSONDecodeError
  end.
Proof. reflexivity. Qed.
Lemma object_step d fuel s :
  obj d (S fuel) s =
  match expect 34 s with
  | None => Err JSONDecodeError
  | Some rest =>
      scanstring rest ≫= fun '(k, r) =>
      match expect 58 (skip_space r) with
      | None => Err JSONDecodeError
      | Some r1 =>
          scan d fuel (skip_space r1) ≫= fun '(v, r2) =>
          match expect 125 (skip_space r2), expect 44 (skip_space r2) with
          | Some r3, _ => Ok ([(k, v)], r3)
          | None, Some r3 => obj d fuel (skip_space r3) ≫= fun '(l, r4) => Ok ((k, v) :: l, r4)
          | None, None => Err JSONDecodeError
          end
      end
  end.
Proof. reflexivity. Qed.

(** A level of nesting: what is read behind the opening bracket. *)
Lemma consumes_open {A B} d s c (t : pystr) (r : result (A * pystr)) (k : A * pystr -> result (B * pystr)) :
  c = 91 \/ c = 123 -> s = c :: t -> consumes d (skip_space t) r ->
  (forall a rest, rest `suffix_of` s -> (length rest < length s)%nat -> consumes (S d) s (k (a, rest))) ->
  consumes (S d) s (r ≫= k).
Proof.
  intros Hc -> Hr Hk. pose proof (skip_space_suffix t) as Ht. destruct r as [[a rest]|e]; cbn [mbind result_bind].
  - destruct Hr as [H1 H2]. apply Hk.
    + etrans; [exact H1|]. etrans; [exact Ht|]. by exists [c].
    + apply suffix_length_le in Ht. cbn. lia.
  - apply (read_error_open d t); [done|]. by apply (read_error_suffix d (skip_space t)).
Qed.

(** Enough fuel for any text. *)
Lemma scan_consumes fuel :
  (forall d s, (2 * length s < fuel)%nat -> consumes d s (scan d fuel s)) /\
  (forall d s, (2 * length s + 1 < fuel)%nat -> consumes d s (arr d fuel s)) /\
  (forall d s, (2 * length s + 1 < fuel)%nat -> consumes d s (obj d fuel s)).
Proof.
  induction fuel as [|fuel (IHs & IHa & IHo)]; [split_and!; intros; lia|]. split_and!; intros d s Hf.
  - rewrite scan_step. destruct (expect 34 s) as [r|] eqn:E1.
    { apply expect_cons in E1 as ->. assert (r `suffix_of` 34 :: r) as Hr by (by exists [34]).
      apply (consumes_bind d _ r); [apply scanstring_consumes|done|].
      intros t rest H1 H2. eapply consumes_ok; [exact H1|done|cbn; lia]. }
    destruct (expect 91 s) as [r|] eqn:E2; [|destruct (expect 123 s) as [r|] eqn:E3].
    + apply expect_cons in E2 as ->. pose proof (suffix_length_le _ _ (skip_space_suffix r)).
      destruct d as [|d].
      { right; right; right. split; [done|]. unfold openings. rewrite filter_cons_True by auto. cbn. lia. }
      destruct (expect 93 (skip_space r)) as [r'|] eqn:E.
      { apply expect_skip in E as [H1 H2]. eapply consumes_ok; [exact H1|by exists [91]|cbn; lia]. }
      apply (consumes_open d _ 91 r); [auto|done|apply IHa; cbn in Hf; lia|].
      intros l rest H1 H2. by split.
    + apply expect_cons in E3 as ->. pose proof (suffix_length_le _ _ (skip_space_suffix r)).
      destruct d as [|d].
      { right; right; right. split; [done|]. unfold openings. rewrite filter_cons_True by auto. cbn. lia. }
      destruct (expect 125 (skip_space r)) as [r'|] eqn:E.
      { apply expect_skip in E as [H1 H2]. apply hook_consumes; [apply Hhook| |cbn; lia].
        etrans; [exact H1|]. by exists [123]. }
      apply (consumes_open d _ 123 r); [auto|done|apply IHo; cbn in Hf; lia|].
      intros l rest H1 H2. apply hook_consumes; [apply Hhook|done|done].
    + apply constant_consumes.
  - rewrite array_step. apply (consumes_bind d s s); [apply IHs; lia|done|]. intros v r H1 H2.
    destruct (expect 93 (skip_space r)) as [r'|] eqn:E1.
    { apply expect_skip in E1 as [H3 H4]. eapply consumes_ok; [exact H3|done|lia]. }
    destruct (expect 44 (skip_space r)) as [r'|] eqn:E2; [|by left].
    apply expect_skip in E2 as [H3 H4]. pose proof (skip_space_suffix r') as H5.
    pose proof (suffix_length_le _ _ H5).
    apply (consumes_bind d s (skip_space r')); [apply IHa; lia|by do 2 (etrans; [eassumption|])|].
    intros l r'' H6 H7. eapply consumes_ok; [exact H6|by do 2 (etrans; [eassumption|])|lia].
  - rewrite object_step. destruct (expect 34 s) as [r|] eqn:E; [|by left].
    apply expect_cons in E as ->. assert (r `suffix_of` 34 :: r) as H0 by (by exists [34]). cbn in Hf.
    apply (consumes_bind d _ r); [apply scanstring_consumes|done|]. intros k r0 H1 H2.
    destruct (expect 58 (skip_space r0)) as [r1|] eqn:E1; [|by left].
    apply expect_skip in E1 as [H3 H4]. pose proof (skip_space_suffix r1) as H5.
    pose proof (suffix_length_le _ _ H5).
    assert (skip_space r1 `suffix_of` 34 :: r) as H6 by (by do 3 (etrans; [eassumption|])).
    apply (consumes_bind d _ (skip_space r1)); [apply IHs; lia|done|]. intros v r2 H7 H8.
    destruct (expect 125 (skip_space r2)) as [r3|] eqn:E3.
    { apply expect_skip in E3 as [H9 H10]. eapply consumes_ok; [exact H9|by etrans|cbn; lia]. }
    destruct (expect 44 (skip_space r2)) as [r3|] eqn:E4; [|by left].
    apply expect_skip in E4 as [H9 H10]. pose proof (skip_space_suffix r3) as Hsk.
    pose proof (suffix_length_le _ _ Hsk).
    assert (skip_space r3 `suffix_of` 34 :: r) as Hr3 by (by do 3 (etrans; [eassumption|])).
    apply (consumes_bind d _ (skip_space r3)); [apply IHo; lia|done|].
    intros l r4 H13 H14. eapply consumes_ok; [exact H13|done|cbn; lia].
Qed.

(** [loads] ends, and only in these ways. *)
Lemma loads_errors d s e : loads object_pairs_hook parse_constant d s = Err e -> read_error d s e.
Proof.
  unfold loads. destruct (expect _ s); [by intros [= <-]; left|].
  destruct (scan_consumes (S (2 * length s))) as (H & _ & _). pose proof (skip_space_suffix s) as Hs.
  pose proof (suffix_length_le _ _ Hs). specialize (H d (skip_space s) ltac:(lia)).
  destruct (scan_once _ _ _ _ _) as [[v r]|e']; cbn [mbind result_bind].
  - case_match; [done|]. by intros [= <-]; left.
  - intros [= <-]. by apply (read_error_suffix d (skip_space s)).
Qed.
End total.

(** ** The text is ASCII, and how long it is *)

Lemma escape_char_ascii :
  Forall (fun c => ascii (escape_char c) /\ (length (escape_char c) <= 6)%nat /\
                   (is_unreserved c = true -> escape_char c = [c])) (seqZ 0 128).
Proof. apply (bool_decide_unpack _). vm_compute. exact I. Qed.
Lemma escape_char_facts c :
  0 <= c < 128 -> ascii (escape_char c) /\ (length (escape_char c) <= 6)%nat /\
                  (is_unreserved c = true -> escape_char c = [c]).
Proof. intros Hc. pose proof escape_char_ascii as H. rewrite Forall_forall in H. apply H, elem_of_seqZ. lia. Qed.

Lemma quote_ascii s : ascii s -> ascii (quote s).
Proof.
  intros Hs. unfold quote. apply Forall_cons_2; [lia|]. apply Forall_app_2; [|by repeat constructor].
  apply Forall_bind. eapply Forall_impl; [exact Hs|]. intros c Hc. by apply escape_char_facts.
Qed.
Lemma quote_length s : ascii s -> len (quote s) <= 2 + 6 * len s.
Proof.
  intros Hs. unfold quote, len. rewrite length_cons, length_app. cbn [length].
  induction Hs as [|c s Hc _ IH]; [cbn; lia|]. cbn [mbind list_bind]. rewrite length_app.
  destruct (escape_char_facts c Hc) as (_ & Hl & _). cbn [length]. change (list_bind Z Z escape_char s) with (s ≫= escape_char). lia.
Qed.
Lemma quote_unreserved s : ascii s -> forallb is_unreserved s = true -> len (quote s) = 2 + len s.
Proof.
  intros Hs Hu.
  assert (E : s ≫= escape_char = s).
  { induction Hs as [|c s Hc _ IH]; [done|]. cbn [forallb] in Hu. apply andb_true_iff in Hu as [Huc Hu].
    cbn [mbind list_bind]. destruct (escape_char_facts c Hc) as (_ & _ & ->); [|done]. by rewrite IH. }
  unfold quote, len. rewrite E, length_cons, length_app. cbn. lia.
Qed.

Lemma join_ascii sep ts : ascii sep -> Forall ascii ts -> ascii (join sep ts).
Proof.
  intros Hs. induction 1 as [|t ts Ht Hts IH]; [constructor|]. destruct ts; [done|].
  rewrite join_cons by done. apply Forall_app_2; [done|]. by apply Forall_app_2.
Qed.
Lemma str_int_ascii n : ascii (str_int n).
Proof.
  assert (H : forall m, 0 <= m -> ascii (str_of_Z m)).
  { intros m Hm. destruct (str_of_Z_spec m Hm) as (_ & Hd & _). apply Forall_forall. intros c Hc.
    rewrite forallb_forall in Hd. specialize (Hd c (proj1 (list_elem_of_In _ _) Hc)).
    apply is_digit_spec in Hd. lia. }
  unfold str_int. destruct (Z.ltb_spec n 0); [apply Forall_cons_2; [lia|]|]; apply H; lia.
Qed.

Lemma dumps_ascii d v t : plain d v -> dumps v = Ok t -> ascii t.
Proof.
  revert d t. induction v as [|b|n|text|s|l IH|items IH] using json_ind'; intros d t Hp H.
  - injection H as <-. apply (bool_decide_unpack _). done.
  - injection H as <-. destruct b; apply (bool_decide_unpack _); done.
  - cbn in H. unfold int_repr in H. apply bind_ok in H as (u & _ & [= <-]). apply str_int_ascii.
  - by inversion Hp.
  - injection H as <-. inversion Hp; subst. by apply quote_ascii.
  - apply dumps_list in H as (ts & Hts & ->). inversion Hp as [| | | |d' ? Hl|]; subst.
    apply Forall_cons_2; [lia|]. apply Forall_app_2; [|by repeat constructor].
    apply join_ascii; [by repeat constructor|].
    clear Hp. induction Hts as [|x t l ts Hx Hts IHt]; [constructor|].
    apply Forall_cons in IH as [IHx IH], Hl as [Hx' Hl]. constructor; [by eapply IHx|auto].
  - apply dumps_object in H as (zs & -> & Hz & ->). inversion Hp as [| | | | |d' ? Hd Hk Hv]; subst.
    apply Forall_cons_2; [lia|]. apply Forall_app_2; [|by repeat constructor].
    apply join_ascii; [by repeat constructor|]. rewrite sorted_items_perm. apply Forall_fmap, Forall_fmap.
    rewrite Forall_fmap in Hk, Hv, IH. rewrite Forall_forall in Hz, Hk, Hv, IH |- *.
    intros z Hin. unfold item_text, compose. cbn [fst snd]. apply Forall_app_2; [by apply quote_ascii, (Hk z)|].
    apply Forall_cons_2; [lia|]. by eapply (IH z); [|apply (Hv z)|apply (Hz z)].
Qed.

(** A bound on the length of the text. *)
Definition total {A} (f : A -> Z) (l : list A) : Z := foldr (fun x n => f x + n) 0 l.
Fixpoint weight (v : json) : Z :=
  match v with
  | JNull => 4
  | JBool _ => 5
  | JInt n => len (str_int n)
  | JFloat t => len t
  | JStr s => len (quote s)
  | JList l => 2 + total (fun x => weight x + 1) l
  | JObj items => 2 + total (fun p => len (quote p.1) + 2 + weight p.2) items
  end.

Lemma total_perm {A} (f : A -> Z) l l' : l ≡ₚ l' -> total f l = total f l'.
Proof. unfold total. induction 1; cbn [foldr]; lia. Qed.
Lemma total_fmap {A B} (f : B -> Z) (g : A -> B) l : total f (g <$> l) = total (fun x => f (g x)) l.
Proof. unfold total. induction l as [|x l IH]; [done|]. cbn [fmap list_fmap foldr]. by rewrite <- IH. Qed.
Lemma total_le {A} (f g : A -> Z) l : Forall (fun x => f x <= g x) l -> total f l <= total g l.
Proof. unfold total. induction 1; cbn [foldr]; lia. Qed.
Lemma join_length ts : len (join [44] ts) <= total (fun t => len t + 1) ts.
Proof.
  induction ts as [|t ts IH]; [done|]. destruct ts as [|t' ts]; [cbn; lia|].
  rewrite join_cons by done. unfold len in *. rewrite !length_app. cbn [length total foldr] in *.
  change (foldr _ 0 ts) with (total (fun t => Z.of_nat (length t) + 1) ts) in *. lia.
Qed.

Lemma dumps_length v t : dumps v = Ok t -> len t <= weight v.
Proof.
  revert t. induction v as [|b|n|text|s|l IH|items IH] using json_ind'; intros t H.
  - by injection H as <-.
  - injection H as <-. by destruct b.
  - cbn in H. unfold int_repr in H. by apply bind_ok in H as (u & _ & [= <-]).
  - by injection H as <-.
  - by injection H as <-.
  - apply dumps_list in H as (ts & Hts & ->). cbn [weight].
    pose proof (join_length ts) as Hj. unfold len in *. rewrite length_cons, length_app. cbn [length].
    enough (total (fun t => Z.of_nat (length t) + 1) ts <= total (fun x => weight x + 1) l) by lia.
    clear Hj. induction Hts as [|x t l ts Hx Hts IHt]; [done|]. apply Forall_cons in IH as [IHx IH].
    specialize (IHx t Hx). specialize (IHt IH). unfold total, len in *. cbn [foldr] in *. lia.
  - apply dumps_object in H as (zs & -> & Hz & ->). cbn [weight].
    pose proof (join_length (item_text <$> sorted_items ((fun z => (z.1, z.2.2)) <$> zs))) as Hj.
    rewrite total_fmap, (total_perm _ _ _ (sorted_items_perm _)), total_fmap in Hj.
    rewrite total_fmap. cbn [fst snd] in *. unfold len at 1. rewrite length_cons, length_app. cbn [length].
    assert (Hle : total (fun z => len (item_text (z.1, z.2.2)) + 1) zs <=
      total (fun z => len (quote z.1) + 2 + weight z.2.1) zs).
    { apply total_le. rewrite Forall_fmap in IH. rewrite Forall_forall in IH, Hz |- *. intros z Hin.
      specialize (IH z Hin z.2.2 (Hz z Hin)). unfold item_text, len in *. cbn in *.
      rewrite length_app. cbn. lia. }
    unfold len in Hj at 1. lia.
Qed.

(** ** Writing succeeds unless an integer is too long *)

Definition short_int (n : Z) : Prop := len (str_of_Z (Z.abs n)) <= int_digits_limit.
Inductive short : json -> Prop :=
  | short_null : short JNull
  | short_bool b : short (JBool b)
  | short_number n : short_int n -> short (JInt n)
  | short_float t : short (JFloat t)
  | short_str s : short (JStr s)
  | short_list l : Forall short l -> short (JList l)
  | short_obj items : Forall (fun p => short p.2) items -> short (JObj items).

Lemma dumps_returns v : short v -> exists t, dumps v = Ok t.
Proof.
  induction v as [|b|n|text|s|l IH|items IH] using json_ind'; intros Hs; try (by eexists).
  - inversion Hs as [| |? Hn| | | |]; subst. cbn. unfold int_repr. rewrite (proj2 (Z.leb_le _ _) Hn). by eexists.
  - inversion Hs as [| | | | |? Hl|]; subst. clear Hs. cbn [dumps].
    match goal with |- context [?go l ≫= _] => assert (H : exists ts, go l = Ok ts) end.
    { induction IH as [|x l IHx IH IHl]; [by eexists|]. apply Forall_cons in Hl as [Hx Hl].
      destruct (IHx Hx) as [t ->]. destruct (IHl Hl) as [ts Hts]. cbn [mbind result_bind]. rewrite Hts. by eexists. }
    destruct H as [ts ->]. by eexists.
  - inversion Hs as [| | | | | |? Hl]; subst. clear Hs. cbn [dumps].
    match goal with |- context [?go items ≫= _] => assert (H : exists ts, go items = Ok ts) end.
    { induction IH as [|[k x] l IHx IH IHl]; [by eexists|]. apply Forall_cons in Hl as [Hx Hl].
      cbn [snd] in *. destruct (IHx Hx) as [t ->]. destruct (IHl Hl) as [ts Hts]. cbn [mbind result_bind].
      rewrite Hts. by eexists. }
    destruct H as [ts ->]. by eexists.
Qed.
