(* ===== verification/Cluster.v ===== *)
(** Values of cluster membership: [movie/cluster/model.py], [movie/cluster/config.py]
    and the control messages of [movie/cluster/_protocol.py].

    Each dataclass is a record with its validating constructor.  Times are integers, and
    [float_hex] is [float.hex]; of [ipaddress] the code asks two questions, which are
    arguments here as in [Transport].  A UUID is its 128-bit integer, so that UUIDs are
    ordered as their bytes are. *)

From stdpp Require Import base list numbers strings gmap sorting.
From S2P Require Import Prelude Bytes PyStr Dict Serialization Wire ActorPath Transport Sha256.

(** * [model.py] *)

Inductive MemberStatus := JOINING | UP | LEAVING | LEFT.
Inductive Reachability := REACHABLE | UNREACHABLE.

#[global] Instance MemberStatus_eq_dec : EqDecision MemberStatus.
Proof. solve_decision. Defined.
#[global] Instance Reachability_eq_dec : EqDecision Reachability.
Proof. solve_decision. Defined.

Record MemberIdentity := mkMemberIdentity {
  mi_system_name : pystr;
  mi_incarnation_uid : UUID }.

#[global] Instance MemberIdentity_eq_dec : EqDecision MemberIdentity.
Proof. solve_decision. Defined.

(** [model._validate_name]. *)
Definition _validate_name (value : pystr) : result unit :=
  raise_unless (_is_remote_name value) ValueError.

Definition MemberIdentity_new (system_name : pystr) (incarnation_uid : UUID) :
    result MemberIdentity :=
  _validate_name system_name ≫= fun _ =>
  raise_unless (negb (incarnation_uid =? 0)) ValueError ≫= fun _ =>
  Ok (mkMemberIdentity system_name incarnation_uid).

Record ClusterMember := mkMember {
  cm_identity : MemberIdentity;
  cm_endpoint : Endpoint;
  cm_status : MemberStatus;
  cm_reachability : Reachability }.

#[global] Instance ClusterMember_eq_dec : EqDecision ClusterMember.
Proof. solve_decision. Defined.

Definition ClusterMember_new (identity : MemberIdentity) (endpoint : Endpoint)
    (status : MemberStatus) (reachability : Reachability) : result ClusterMember :=
  raise_unless (0 <? ep_port endpoint) ValueError ≫= fun _ =>
  Ok (mkMember identity endpoint status reachability).

(** [replace(member, status=...)] and [replace(member, reachability=...)]. *)
Definition with_status (s : MemberStatus) (m : ClusterMember) : ClusterMember :=
  mkMember (cm_identity m) (cm_endpoint m) s (cm_reachability m).
Definition with_reachability (r : Reachability) (m : ClusterMember) : ClusterMember :=
  mkMember (cm_identity m) (cm_endpoint m) (cm_status m) r.

(** The sort key [(system_name, incarnation_uid.bytes)]. *)
Definition identity_leb (i j : MemberIdentity) : bool :=
  if decide (mi_system_name i = mi_system_name j)
  then mi_incarnation_uid i <=? mi_incarnation_uid j
  else bytes_leb (mi_system_name i) (mi_system_name j).
Definition member_le (m n : ClusterMember) : Prop :=
  identity_leb (cm_identity m) (cm_identity n) = true.

#[global] Instance member_le_dec : RelDecision member_le.
Proof. intros m n. unfold member_le. apply _. Defined.

Definition sorted_members (ms : list ClusterMember) : list ClusterMember :=
  merge_sort member_le ms.

Record MembershipSnapshot := mkSnapshot {
  ms_cluster_name : pystr;
  ms_revision : Z;
  ms_self_identity : MemberIdentity;
  ms_members : list ClusterMember }.

(** The loop of [MembershipSnapshot.__post_init__], with the sets it fills. *)
Fixpoint check_members (ms : list ClusterMember) (identities : list MemberIdentity)
    (active_names : list pystr) : result (list MemberIdentity) :=
  match ms with
  | [] => Ok identities
  | m :: rest =>
      let i := cm_identity m in
      raise_unless (negb (bool_decide (i ∈ identities))) ValueError ≫= fun _ =>
      if bool_decide (cm_status m = LEFT)
      then check_members rest (i :: identities) active_names
      else
        raise_unless (negb (bool_decide (mi_system_name i ∈ active_names))) ValueError ≫= fun _ =>
        check_members rest (i :: identities) (mi_system_name i :: active_names)
  end.

Definition MembershipSnapshot_new (cluster_name : pystr) (revision : Z)
    (self_identity : MemberIdentity) (members : list ClusterMember) :
    result MembershipSnapshot :=
  _validate_name cluster_name ≫= fun _ =>
  raise_unless (0 <=? revision) ValueError ≫= fun _ =>
  check_members members [] [] ≫= fun identities =>
  raise_unless (bool_decide (self_identity ∈ identities)) ValueError ≫= fun _ =>
  Ok (mkSnapshot cluster_name revision self_identity (sorted_members members)).

(** * [config.py] *)

Record SeedContact := mkSeed { seed_system_name : pystr; seed_endpoint : Endpoint }.

Definition SeedContact_new (system_name : pystr) (endpoint : Endpoint) : result SeedContact :=
  _validate_name system_name ≫= fun _ =>
  raise_unless (0 <? ep_port endpoint) ValueError ≫= fun _ => Ok (mkSeed system_name endpoint).

Record ClusterConfig := mkClusterConfig {
  cc_name : pystr;
  cc_seed : SeedContact;
  heartbeat_interval : Z;
  unreachable_timeout : Z;
  join_timeout : Z;
  reassociation_timeout : Z;
  member_limit : Z;
  retired_identity_limit : Z;
  control_queue_capacity : Z;
  event_capacity : Z;
  event_max_subscriptions : Z;
  cc_serializer_id : Z }.

(** [ClusterConfig.__post_init__]. *)
Definition ClusterConfig_check (c : ClusterConfig) : result ClusterConfig :=
  _validate_name (cc_name c) ≫= fun _ =>
  raise_unless
    (forallb (fun v => 0 <? v)
       [heartbeat_interval c; unreachable_timeout c; join_timeout c; reassociation_timeout c])
    ValueError ≫= fun _ =>
  raise_unless (heartbeat_interval c <? unreachable_timeout c) ValueError ≫= fun _ =>
  raise_unless
    (forallb (fun v => 0 <? v)
       [member_limit c; retired_identity_limit c; control_queue_capacity c; event_capacity c;
        event_max_subscriptions c]) ValueError ≫= fun _ =>
  raise_unless (member_limit c <=? 256) ValueError ≫= fun _ =>
  raise_unless ((1 <=? cc_serializer_id c) && (cc_serializer_id c <=? MAX_U32)) ValueError
  ≫= fun _ => Ok c.

(** [_compatibility_fingerprint].  The host of the seed need not be ASCII: [encode] may raise.
    [float_hex] is [float.hex] of a time. *)
Definition fingerprint_fields (float_hex : Z -> pystr) (c : ClusterConfig) : list pystr :=
  [lit "movie-cluster-v1"; cc_name c; seed_system_name (cc_seed c);
   ep_host (seed_endpoint (cc_seed c)); str_int (ep_port (seed_endpoint (cc_seed c)));
   float_hex (heartbeat_interval c); float_hex (unreachable_timeout c);
   str_int (member_limit c); str_int (retired_identity_limit c); str_int (cc_serializer_id c)].
Definition _compatibility_fingerprint (float_hex : Z -> pystr) (c : ClusterConfig) : result pystr :=
  let text := join [0] (fingerprint_fields float_hex c) in
  raise_unless (isascii text) UnicodeEncodeError ≫= fun _ => Ok (hexdigest (sha256 text)).

(** * [_protocol.py] *)

Definition _MAX_MEMBERS : Z := 256.

Definition status_value (s : MemberStatus) : pystr :=
  match s with
  | JOINING => lit "joining" | UP => lit "up" | LEAVING => lit "leaving" | LEFT => lit "left"
  end.
Definition reachability_value (r : Reachability) : pystr :=
  match r with REACHABLE => lit "reachable" | UNREACHABLE => lit "unreachable" end.

(** [MemberStatus(value)] and [Reachability(value)]. *)
Definition status_of (v : pystr) : result MemberStatus :=
  if bool_decide (v = lit "joining") then Ok JOINING
  else if bool_decide (v = lit "up") then Ok UP
  else if bool_decide (v = lit "leaving") then Ok LEAVING
  else if bool_decide (v = lit "left") then Ok LEFT else Err ValueError.
Definition reachability_of (v : pystr) : result Reachability :=
  if bool_decide (v = lit "reachable") then Ok REACHABLE
  else if bool_decide (v = lit "unreachable") then Ok UNREACHABLE else Err ValueError.

Record _WireMember := mkWireMember {
  wm_system_name : pystr;
  wm_incarnation_uid : UUID;
  wm_host : pystr;
  wm_port : Z;
  wm_status : pystr;
  wm_reachability : pystr }.

#[global] Instance WireMember_eq_dec : EqDecision _WireMember.
Proof. solve_decision. Defined.

Record _JoinRequest := mkJoinRequest {
  jr_cluster_name : pystr;
  jr_config_fingerprint : pystr;
  jr_source_system_name : pystr;
  jr_source_incarnation_uid : UUID;
  jr_source_host : pystr;
  jr_source_port : Z;
  jr_source_control_actor_uid : UUID;
  jr_target_incarnation_uid : UUID;
  jr_request_id : UUID }.

Record _JoinAccepted := mkJoinAccepted {
  ja_cluster_name : pystr;
  ja_source_system_name : pystr;
  ja_source_incarnation_uid : UUID;
  ja_target_incarnation_uid : UUID;
  ja_request_id : UUID;
  ja_membership_token : UUID;
  ja_revision : Z;
  ja_members : list _WireMember }.

Record _JoinConfirm := mkJoinConfirm {
  jc_cluster_name : pystr;
  jc_source_system_name : pystr;
  jc_source_incarnation_uid : UUID;
  jc_target_incarnation_uid : UUID;
  jc_request_id : UUID;
  jc_membership_token : UUID }.

Record _Heartbeat := mkHeartbeat {
  hb_cluster_name : pystr;
  hb_source_system_name : pystr;
  hb_source_incarnation_uid : UUID;
  hb_target_incarnation_uid : UUID;
  hb_membership_token : UUID;
  hb_sequence : Z }.

Record _HeartbeatAck := mkHeartbeatAck {
  hk_cluster_name : pystr;
  hk_source_system_name : pystr;
  hk_source_incarnation_uid : UUID;
  hk_target_incarnation_uid : UUID;
  hk_membership_token : UUID;
  hk_sequence : Z;
  hk_revision : Z;
  hk_members : list _WireMember }.

Record _MembershipUpdate := mkMembershipUpdate {
  mu_cluster_name : pystr;
  mu_source_system_name : pystr;
  mu_source_incarnation_uid : UUID;
  mu_target_incarnation_uid : UUID;
  mu_membership_token : UUID;
  mu_revision : Z;
  mu_members : list _WireMember }.

Record _Leave := mkLeave {
  lv_cluster_name : pystr;
  lv_source_system_name : pystr;
  lv_source_incarnation_uid : UUID;
  lv_target_incarnation_uid : UUID;
  lv_membership_token : UUID;
  lv_request_id : UUID }.

Record _LeaveAck := mkLeaveAck {
  la_cluster_name : pystr;
  la_source_system_name : pystr;
  la_source_incarnation_uid : UUID;
  la_target_incarnation_uid : UUID;
  la_request_id : UUID;
  la_revision : Z;
  la_members : list _WireMember }.

(** The message types of the protocol. *)
Inductive control :=
  | JoinRequest (m : _JoinRequest)
  | JoinAccepted (m : _JoinAccepted)
  | JoinConfirm (m : _JoinConfirm)
  | Heartbeat (m : _Heartbeat)
  | HeartbeatAck (m : _HeartbeatAck)
  | MembershipUpdate (m : _MembershipUpdate)
  | Leave (m : _Leave)
  | LeaveAck (m : _LeaveAck).

Section validation.
Context (ip_unspecified : pystr -> bool) (IPv6Address : pystr -> option pystr).

(** [_protocol._validate_name], [_validate_uuid], [_validate_port], [_validate_nonnegative]. *)
Definition wire_name (value : pystr) : result unit :=
  raise_unless (_is_remote_name value) ProtocolValidationError.
Definition wire_uuid (value : UUID) : result unit :=
  raise_unless (negb (value =? 0)) ProtocolValidationError.
Definition wire_port (value : Z) : result unit :=
  raise_unless ((1 <=? value) && (value <=? 65535)) ProtocolValidationError.
Definition wire_nonnegative (value : Z) : result unit :=
  raise_unless (0 <=? value) ProtocolValidationError.

(** [_protocol._validate_host]. *)
Definition wire_host (value : pystr) : result unit :=
  raise_unless (negb (bool_decide (value = [])) && (len value <=? 255) && isascii value)
    ProtocolValidationError ≫= fun _ =>
  raise_unless (negb (ip_unspecified value)) ProtocolValidationError ≫= fun _ =>
  if bool_decide (58 ∈ value) then
    match IPv6Address value with
    | None => Err ProtocolValidationError
    | Some canonical => raise_unless (bool_decide (canonical = value)) ProtocolValidationError
    end
  else raise_unless (is_host value) ProtocolValidationError.

(** [_validate_choice] with [_STATUSES] and [_REACHABILITIES]. *)
Definition wire_choice (choices : list pystr) (value : pystr) : result unit :=
  raise_unless (bool_decide (value ∈ choices)) ProtocolValidationError.
Definition _STATUSES : list pystr := [lit "joining"; lit "up"; lit "leaving"; lit "left"].
Definition _REACHABILITIES : list pystr := [lit "reachable"; lit "unreachable"].

(** [_WireMember.__post_init__]. *)
Definition WireMember_check (m : _WireMember) : result unit :=
  wire_name (wm_system_name m) ≫= fun _ =>
  wire_uuid (wm_incarnation_uid m) ≫= fun _ =>
  wire_host (wm_host m) ≫= fun _ =>
  wire_port (wm_port m) ≫= fun _ =>
  wire_choice _STATUSES (wm_status m) ≫= fun _ =>
  wire_choice _REACHABILITIES (wm_reachability m).

Definition wire_identity (m : _WireMember) : pystr * UUID :=
  (wm_system_name m, wm_incarnation_uid m).
Definition active_names (ms : list _WireMember) : list pystr :=
  wm_system_name <$> filter (fun m => wm_status m <> lit "left") ms.

(** [_validate_members]; its elements were checked when they were made. *)
Definition _validate_members (ms : list _WireMember) : result unit :=
  raise_unless (len ms <=? _MAX_MEMBERS) ProtocolValidationError ≫= fun _ =>
  raise_unless (all_distinct (wire_identity <$> ms)) ProtocolValidationError ≫= fun _ =>
  raise_unless (all_distinct (active_names ms)) ProtocolValidationError.

(** [_FINGERPRINT]: 64 lowercase hexadecimal digits. *)
Definition is_hex (c : Z) : bool := is_digit c || in_range 97 102 c.
Definition is_fingerprint (s : pystr) : bool := (len s =? 64) && forallb is_hex s.

(** The fields every message but a join request begins with. *)
Definition check_addressing (cluster_name source_system_name : pystr)
    (source_incarnation_uid target_incarnation_uid : UUID) : result unit :=
  wire_name cluster_name ≫= fun _ =>
  wire_name source_system_name ≫= fun _ =>
  wire_uuid source_incarnation_uid ≫= fun _ =>
  wire_uuid target_incarnation_uid.

(** The [__post_init__] of each message. *)
Definition control_check (c : control) : result unit :=
  match c with
  | JoinRequest m =>
      wire_name (jr_cluster_name m) ≫= fun _ =>
      raise_unless (is_fingerprint (jr_config_fingerprint m)) ProtocolValidationError ≫= fun _ =>
      wire_name (jr_source_system_name m) ≫= fun _ =>
      wire_uuid (jr_source_incarnation_uid m) ≫= fun _ =>
      wire_host (jr_source_host m) ≫= fun _ =>
      wire_port (jr_source_port m) ≫= fun _ =>
      wire_uuid (jr_source_control_actor_uid m) ≫= fun _ =>
      wire_uuid (jr_target_incarnation_uid m) ≫= fun _ =>
      wire_uuid (jr_request_id m)
  | JoinAccepted m =>
      check_addressing (ja_cluster_name m) (ja_source_system_name m)
        (ja_source_incarnation_uid m) (ja_target_incarnation_uid m) ≫= fun _ =>
      wire_uuid (ja_request_id m) ≫= fun _ =>
      wire_uuid (ja_membership_token m) ≫= fun _ =>
      wire_nonnegative (ja_revision m) ≫= fun _ =>
      _validate_members (ja_members m)
  | JoinConfirm m =>
      check_addressing (jc_cluster_name m) (jc_source_system_name m)
        (jc_source_incarnation_uid m) (jc_target_incarnation_uid m) ≫= fun _ =>
      wire_uuid (jc_request_id m) ≫= fun _ =>
      wire_uuid (jc_membership_token m)
  | Heartbeat m =>
      check_addressing (hb_cluster_name m) (hb_source_system_name m)
        (hb_source_incarnation_uid m) (hb_target_incarnation_uid m) ≫= fun _ =>
      wire_uuid (hb_membership_token m) ≫= fun _ =>
      wire_nonnegative (hb_sequence m)
  | HeartbeatAck m =>
      check_addressing (hk_cluster_name m) (hk_source_system_name m)
        (hk_source_incarnation_uid m) (hk_target_incarnation_uid m) ≫= fun _ =>
      wire_uuid (hk_membership_token m) ≫= fun _ =>
      wire_nonnegative (hk_sequence m) ≫= fun _ =>
      wire_nonnegative (hk_revision m) ≫= fun _ =>
      _validate_members (hk_members m)
  | MembershipUpdate m =>
      check_addressing (mu_cluster_name m) (mu_source_system_name m)
        (mu_source_incarnation_uid m) (mu_target_incarnation_uid m) ≫= fun _ =>
      wire_uuid (mu_membership_token m) ≫= fun _ =>
      wire_nonnegative (mu_revision m) ≫= fun _ =>
      _validate_members (mu_members m)
  | Leave m =>
      check_addressing (lv_cluster_name m) (lv_source_system_name m)
        (lv_source_incarnation_uid m) (lv_target_incarnation_uid m) ≫= fun _ =>
      wire_uuid (lv_membership_token m) ≫= fun _ =>
      wire_uuid (lv_request_id m)
  | LeaveAck m =>
      check_addressing (la_cluster_name m) (la_source_system_name m)
        (la_source_incarnation_uid m) (la_target_incarnation_uid m) ≫= fun _ =>
      wire_uuid (la_request_id m) ≫= fun _ =>
      wire_nonnegative (la_revision m) ≫= fun _ =>
      _validate_members (la_members m)
  end.
End validation.

(** * Facts about these values *)

Lemma status_roundtrip s : status_of (status_value s) = Ok s.
Proof. by destruct s. Qed.
Lemma reachability_roundtrip r : reachability_of (reachability_value r) = Ok r.
Proof. by destruct r. Qed.

Lemma identity_leb_total i j : identity_leb i j = true \/ identity_leb j i = true.
Proof.
  unfold identity_leb. destruct (decide (mi_system_name i = mi_system_name j)) as [E|E].
  - rewrite decide_True by congruence. lia.
  - rewrite decide_False by congruence. apply (total bytes_le).
Qed.

Lemma identity_leb_trans i j k :
  identity_leb i j = true -> identity_leb j k = true -> identity_leb i k = true.
Proof.
  unfold identity_leb.
  destruct (decide (mi_system_name i = mi_system_name j)) as [E|E],
    (decide (mi_system_name j = mi_system_name k)) as [E'|E'].
  - rewrite decide_True by congruence. lia.
  - rewrite decide_False by congruence. by rewrite E.
  - rewrite decide_False by congruence. by rewrite E'.
  - intros H1 H2. pose proof (bytes_le_trans _ _ _ H1 H2) as H3.
    case_decide as E3; [|exact H3]. exfalso. apply E. rewrite E3 in *.
    by apply (anti_symm bytes_le).
Qed.

#[global] Instance member_le_total : Total member_le.
Proof. intros m n. apply identity_leb_total. Qed.
#[global] Instance member_le_trans : Transitive member_le.
Proof. intros m n p. apply identity_leb_trans. Qed.

Lemma sorted_members_perm ms : sorted_members ms ≡ₚ ms.
Proof. apply merge_sort_Permutation. Qed.

(** What the loop over the members accepts. *)
Definition active_members (ms : list ClusterMember) : list ClusterMember :=
  filter (fun m => cm_status m <> LEFT) ms.
Definition name_of (m : ClusterMember) : pystr := mi_system_name (cm_identity m).

Lemma check_members_ok ms js ns :
  NoDup ((cm_identity <$> ms) ++ js) -> NoDup ((name_of <$> active_members ms) ++ ns) ->
  exists out, check_members ms js ns = Ok out /\ forall i, i ∈ out <-> i ∈ cm_identity <$> ms \/ i ∈ js.
Proof.
  revert js ns. induction ms as [|m ms IH]; intros js ns Hi Hn; cbn [check_members].
  { exists js. split; [done|]. intros i. set_solver. }
  cbn [fmap list_fmap app] in Hi. apply NoDup_cons in Hi as [Hm Hi].
  pose proof Hm as [Hm1 Hm2]%not_elem_of_app.
  rewrite (bool_decide_eq_false_2 (cm_identity m ∈ js)) by done. cbn [negb raise_unless mbind result_bind].
  assert (Hi' : NoDup ((cm_identity <$> ms) ++ cm_identity m :: js)).
  { rewrite <- Permutation_middle. by apply NoDup_cons. }
  unfold active_members in Hn. rewrite filter_cons in Hn. case_bool_decide as Hs.
  - rewrite decide_False in Hn by auto.
    destruct (IH (cm_identity m :: js) ns Hi' Hn) as (out & -> & Ho). exists out.
    split; [done|]. intros i. rewrite Ho, fmap_cons, !elem_of_cons. tauto.
  - rewrite decide_True in Hn by auto. cbn [fmap list_fmap app] in Hn. pose proof Hn as Hn2.
    apply NoDup_cons in Hn as [[Hx1 Hx2]%not_elem_of_app Hn].
    rewrite (bool_decide_eq_false_2 (mi_system_name _ ∈ ns)) by exact Hx2. cbn [negb raise_unless mbind result_bind].
    destruct (IH (cm_identity m :: js) (name_of m :: ns) Hi') as (out & Ho1 & Ho).
    { rewrite <- Permutation_middle. exact Hn2. }
    exists out. split; [exact Ho1|]. intros i. rewrite Ho, fmap_cons, !elem_of_cons. tauto.
Qed.
