(* ===== verification/ClusterCodec.v ===== *)
(** The serializer of the cluster's control messages: [movie/cluster/_protocol.py].

    A message becomes a JSON object with sorted keys in UTF-8, under a manifest that names its
    type.  Reading is strict: the exact keys, canonical UUIDs, no duplicates, no constants
    that JSON does not have, at most one MiB. *)

From stdpp Require Import base list numbers strings sorting.
From S2P Require Import Prelude Bytes PyStr Dict Serialization Wire ActorPath Json Cluster.

Definition _MAX_PAYLOAD_BYTES : Z := Z.shiftl 1 20.

Inductive control_type :=
  | T_JoinRequest | T_JoinAccepted | T_JoinConfirm | T_Heartbeat | T_HeartbeatAck
  | T_MembershipUpdate | T_Leave | T_LeaveAck.
#[global] Instance message_type_eq_dec : EqDecision control_type.
Proof. solve_decision. Defined.

Definition type_of (c : control) : control_type :=
  match c with
  | JoinRequest _ => T_JoinRequest | JoinAccepted _ => T_JoinAccepted | JoinConfirm _ => T_JoinConfirm
  | Heartbeat _ => T_Heartbeat | HeartbeatAck _ => T_HeartbeatAck
  | MembershipUpdate _ => T_MembershipUpdate | Leave _ => T_Leave | LeaveAck _ => T_LeaveAck
  end.
Definition _MANIFESTS (t : control_type) : pystr :=
  match t with
  | T_JoinRequest => lit "movie-cluster/join-request/v1"
  | T_JoinAccepted => lit "movie-cluster/join-accepted/v1"
  | T_JoinConfirm => lit "movie-cluster/join-confirm/v1"
  | T_Heartbeat => lit "movie-cluster/heartbeat/v1"
  | T_HeartbeatAck => lit "movie-cluster/heartbeat-ack/v1"
  | T_MembershipUpdate => lit "movie-cluster/membership-update/v1"
  | T_Leave => lit "movie-cluster/leave/v1"
  | T_LeaveAck => lit "movie-cluster/leave-ack/v1"
  end.
Definition message_types : list control_type :=
  [T_JoinRequest; T_JoinAccepted; T_JoinConfirm; T_Heartbeat; T_HeartbeatAck; T_MembershipUpdate;
   T_Leave; T_LeaveAck].
Definition _TYPES_BY_MANIFEST (manifest : pystr) : option control_type :=
  head (filter (fun t => _MANIFESTS t = manifest) message_types).

Definition _MEMBER_KEYS : list pystr :=
  [lit "system_name"; lit "incarnation_uid"; lit "host"; lit "port"; lit "status"; lit "reachability"].
Definition addressing_keys : list pystr :=
  [lit "cluster_name"; lit "source_system_name"; lit "source_incarnation_uid"; lit "target_incarnation_uid"].
Definition _MESSAGE_KEYS (t : control_type) : list pystr :=
  match t with
  | T_JoinRequest =>
      [lit "cluster_name"; lit "config_fingerprint"; lit "source_system_name"; lit "source_incarnation_uid";
       lit "source_host"; lit "source_port"; lit "source_control_actor_uid"; lit "target_incarnation_uid";
       lit "request_id"]
  | T_JoinAccepted =>
      addressing_keys ++ [lit "request_id"; lit "membership_token"; lit "revision"; lit "members"]
  | T_JoinConfirm => addressing_keys ++ [lit "request_id"; lit "membership_token"]
  | T_Heartbeat => addressing_keys ++ [lit "membership_token"; lit "sequence"]
  | T_HeartbeatAck =>
      addressing_keys ++ [lit "membership_token"; lit "sequence"; lit "revision"; lit "members"]
  | T_MembershipUpdate => addressing_keys ++ [lit "membership_token"; lit "revision"; lit "members"]
  | T_Leave => addressing_keys ++ [lit "membership_token"; lit "request_id"]
  | T_LeaveAck => addressing_keys ++ [lit "request_id"; lit "revision"; lit "members"]
  end.

(** * UUIDs *)

(** [str(uuid)]. *)
Definition uuid_str (u : UUID) : pystr :=
  let h := hexdigest (be_pack 16 u) in
  take 8 h ++ 45 :: take 4 (drop 8 h) ++ 45 :: take 4 (drop 12 h) ++ 45 :: take 4 (drop 16 h)
  ++ 45 :: drop 20 h.
(** [UUID(text)]: the hyphens are dropped, 32 hexadecimal digits must be left.  Of the other
    spellings it accepts (braces, [urn:uuid:], underscores) none prints as itself, which
    [_uuid_from_json] asks for. *)
Fixpoint hex_value (acc : Z) (s : pystr) : option Z :=
  match s with
  | [] => Some acc
  | c :: s' => match unhex c with Some d => hex_value (acc * 16 + d) s' | None => None end
  end.
Definition UUID_parse (text : pystr) : option UUID :=
  let h := filter (fun c => c <> 45) text in
  if len h =? 32 then hex_value 0 h else None.

(** * Writing *)

Definition _member_to_json (m : _WireMember) : json :=
  JObj [(lit "system_name", JStr (wm_system_name m));
        (lit "incarnation_uid", JStr (uuid_str (wm_incarnation_uid m)));
        (lit "host", JStr (wm_host m));
        (lit "port", JInt (wm_port m));
        (lit "status", JStr (wm_status m));
        (lit "reachability", JStr (wm_reachability m))].

(** The fields every message but a join request begins with. *)
Definition addressing (cluster_name source_system_name : pystr)
    (source_incarnation_uid target_incarnation_uid : UUID) : list (pystr * json) :=
  [(lit "cluster_name", JStr cluster_name);
   (lit "source_system_name", JStr source_system_name);
   (lit "source_incarnation_uid", JStr (uuid_str source_incarnation_uid));
   (lit "target_incarnation_uid", JStr (uuid_str target_incarnation_uid))].
Definition uuid_item (k : string) (u : UUID) : pystr * json := (lit k, JStr (uuid_str u)).
Definition members_item (ms : list _WireMember) : pystr * json :=
  (lit "members", JList (_member_to_json <$> ms)).

Definition _message_to_json (c : control) : json :=
  JObj match c with
  | JoinRequest m =>
      [(lit "cluster_name", JStr (jr_cluster_name m));
       (lit "config_fingerprint", JStr (jr_config_fingerprint m));
       (lit "source_system_name", JStr (jr_source_system_name m));
       uuid_item "source_incarnation_uid" (jr_source_incarnation_uid m);
       (lit "source_host", JStr (jr_source_host m));
       (lit "source_port", JInt (jr_source_port m));
       uuid_item "source_control_actor_uid" (jr_source_control_actor_uid m);
       uuid_item "target_incarnation_uid" (jr_target_incarnation_uid m);
       uuid_item "request_id" (jr_request_id m)]
  | JoinAccepted m =>
      addressing (ja_cluster_name m) (ja_source_system_name m) (ja_source_incarnation_uid m)
        (ja_target_incarnation_uid m) ++
      [uuid_item "request_id" (ja_request_id m); uuid_item "membership_token" (ja_membership_token m);
       (lit "revision", JInt (ja_revision m)); members_item (ja_members m)]
  | JoinConfirm m =>
      addressing (jc_cluster_name m) (jc_source_system_name m) (jc_source_incarnation_uid m)
        (jc_target_incarnation_uid m) ++
      [uuid_item "request_id" (jc_request_id m); uuid_item "membership_token" (jc_membership_token m)]
  | Heartbeat m =>
      addressing (hb_cluster_name m) (hb_source_system_name m) (hb_source_incarnation_uid m)
        (hb_target_incarnation_uid m) ++
      [uuid_item "membership_token" (hb_membership_token m); (lit "sequence", JInt (hb_sequence m))]
  | HeartbeatAck m =>
      addressing (hk_cluster_name m) (hk_source_system_name m) (hk_source_incarnation_uid m)
        (hk_target_incarnation_uid m) ++
      [uuid_item "membership_token" (hk_membership_token m); (lit "sequence", JInt (hk_sequence m));
       (lit "revision", JInt (hk_revision m)); members_item (hk_members m)]
  | MembershipUpdate m =>
      addressing (mu_cluster_name m) (mu_source_system_name m) (mu_source_incarnation_uid m)
        (mu_target_incarnation_uid m) ++
      [uuid_item "membership_token" (mu_membership_token m);
       (lit "revision", JInt (mu_revision m)); members_item (mu_members m)]
  | Leave m =>
      addressing (lv_cluster_name m) (lv_source_system_name m) (lv_source_incarnation_uid m)
        (lv_target_incarnation_uid m) ++
      [uuid_item "membership_token" (lv_membership_token m); uuid_item "request_id" (lv_request_id m)]
  | LeaveAck m =>
      addressing (la_cluster_name m) (la_source_system_name m) (la_source_incarnation_uid m)
        (la_target_incarnation_uid m) ++
      [uuid_item "request_id" (la_request_id m);
       (lit "revision", JInt (la_revision m)); members_item (la_members m)]
  end.

(** * Reading *)

(** [_object_without_duplicates]: the loop, with the dictionary it fills. *)
Fixpoint object_loop (pairs acc : list (pystr * json)) : result json :=
  match pairs with
  | [] => Ok (JObj acc)
  | (k, v) :: rest =>
      if dict_has acc k then Err ProtocolValidationError else object_loop rest (dict_set acc k v)
  end.
Definition _object_without_duplicates (pairs : list (pystr * json)) : result json := object_loop pairs [].
Definition _reject_json_constant (text : pystr) : result json := Err ProtocolValidationError.

(** [set(value) != expected_keys]. *)
Definition same_keys (ks expected : list pystr) : bool :=
  forallb (fun k => bool_decide (k ∈ expected)) ks && forallb (fun k => bool_decide (k ∈ ks)) expected.
Definition _require_object (v : json) (expected : list pystr) : result (list (pystr * json)) :=
  match v with
  | JObj items =>
      raise_unless (same_keys items.*1 expected) ProtocolValidationError ≫= fun _ => Ok items
  | _ => Err ProtocolValidationError
  end.
(** [item[key]]. *)
Definition getitem (items : list (pystr * json)) (k : string) : result json :=
  match dict_get items (lit k) with Some v => Ok v | None => Err KeyError end.

(** What a field must be: the checks of the dataclasses begin with the type. *)
Definition as_str (v : json) : result pystr :=
  match v with JStr s => Ok s | _ => Err ProtocolValidationError end.
Definition as_int (v : json) : result Z :=
  match v with JInt n => Ok n | _ => Err ProtocolValidationError end.
Definition str_at (items : list (pystr * json)) (k : string) : result pystr := getitem items k ≫= as_str.
Definition int_at (items : list (pystr * json)) (k : string) : result Z := getitem items k ≫= as_int.

Definition _uuid_from_json (v : json) : result UUID :=
  match v with
  | JStr s =>
      match UUID_parse s with
      | None => Err ProtocolValidationError
      | Some u =>
          raise_unless (bool_decide (uuid_str u = s)) ProtocolValidationError ≫= fun _ =>
          wire_uuid u ≫= fun _ => Ok u
      end
  | _ => Err ProtocolValidationError
  end.
Definition uuid_at (items : list (pystr * json)) (k : string) : result UUID := getitem items k ≫= _uuid_from_json.

Section codec.
Context (ip_unspecified : pystr -> bool) (IPv6Address : pystr -> option pystr).

Definition _member_from_json (v : json) : result _WireMember :=
  items ← _require_object v _MEMBER_KEYS;
  name ← str_at items "system_name";
  uid ← uuid_at items "incarnation_uid";
  host ← str_at items "host";
  port ← int_at items "port";
  status ← str_at items "status";
  reachability ← str_at items "reachability";
  let m := mkWireMember name uid host port status reachability in
  _ ← WireMember_check ip_unspecified IPv6Address m;
  Ok m.

Fixpoint members_loop (l : list json) : result (list _WireMember) :=
  match l with
  | [] => Ok []
  | v :: l' => m ← _member_from_json v; ms ← members_loop l'; Ok (m :: ms)
  end.
Definition _members_from_json (v : json) : result (list _WireMember) :=
  match v with
  | JList l =>
      _ ← raise_unless (len l <=? _MAX_MEMBERS) ProtocolValidationError;
      members_loop l
  | _ => Err ProtocolValidationError
  end.
Definition members_at (items : list (pystr * json)) : result (list _WireMember) :=
  getitem items "members" ≫= _members_from_json.

(** A message checks itself when it is made. *)
Definition checked (c : control) : result control :=
  _ ← control_check ip_unspecified IPv6Address c; Ok c.

Definition read_message (items : list (pystr * json)) (t : control_type) : result control :=
  match t with
  | T_JoinRequest =>
      cluster ← str_at items "cluster_name";
      print ← str_at items "config_fingerprint";
      name ← str_at items "source_system_name";
      uid ← uuid_at items "source_incarnation_uid";
      host ← str_at items "source_host";
      port ← int_at items "source_port";
      control_uid ← uuid_at items "source_control_actor_uid";
      target ← uuid_at items "target_incarnation_uid";
      request ← uuid_at items "request_id";
      checked (JoinRequest (mkJoinRequest cluster print name uid host port control_uid target request))
  | _ =>
      cluster ← str_at items "cluster_name";
      name ← str_at items "source_system_name";
      uid ← uuid_at items "source_incarnation_uid";
      target ← uuid_at items "target_incarnation_uid";
      match t with
      | T_JoinRequest => Err ProtocolValidationError
      | T_JoinAccepted =>
          request ← uuid_at items "request_id";
          token ← uuid_at items "membership_token";
          revision ← int_at items "revision";
          members ← members_at items;
          checked (JoinAccepted (mkJoinAccepted cluster name uid target request token revision members))
      | T_JoinConfirm =>
          request ← uuid_at items "request_id";
          token ← uuid_at items "membership_token";
          checked (JoinConfirm (mkJoinConfirm cluster name uid target request token))
      | T_Heartbeat =>
          token ← uuid_at items "membership_token";
          sequence ← int_at items "sequence";
          checked (Heartbeat (mkHeartbeat cluster name uid target token sequence))
      | T_HeartbeatAck =>
          token ← uuid_at items "membership_token";
          sequence ← int_at items "sequence";
          revision ← int_at items "revision";
          members ← members_at items;
          checked (HeartbeatAck (mkHeartbeatAck cluster name uid target token sequence revision members))
      | T_MembershipUpdate =>
          token ← uuid_at items "membership_token";
          revision ← int_at items "revision";
          members ← members_at items;
          checked (MembershipUpdate (mkMembershipUpdate cluster name uid target token revision members))
      | T_Leave =>
          token ← uuid_at items "membership_token";
          request ← uuid_at items "request_id";
          checked (Leave (mkLeave cluster name uid target token request))
      | T_LeaveAck =>
          request ← uuid_at items "request_id";
          revision ← int_at items "revision";
          members ← members_at items;
          checked (LeaveAck (mkLeaveAck cluster name uid target request revision members))
      end
  end.
Definition _message_from_json (v : json) (t : control_type) : result control :=
  items ← _require_object v (_MESSAGE_KEYS t);
  read_message items t.

(** * [_ClusterSerializer]: [depth] is what is left of the recursion limit *)

Definition find_type (manifest : pystr) (protocol_minor : Z) : result control_type :=
  _ ← raise_unless (protocol_minor =? 0) ProtocolValidationError;
  match _TYPES_BY_MANIFEST manifest with
  | None => Err ProtocolValidationError
  | Some t => Ok t
  end.

Definition cluster_serialize (c : control) (manifest : pystr) (protocol_minor : Z) : result bytes :=
  t ← find_type manifest protocol_minor;
  _ ← raise_unless (bool_decide (type_of c = t)) ProtocolValidationError;
  text ← dumps (_message_to_json c);
  utf8_encode text.

Definition cluster_deserialize (depth : nat) (payload : bytes) (manifest : pystr) (protocol_minor : Z)
    : result control :=
  t ← find_type manifest protocol_minor;
  _ ← raise_unless (len payload <=? _MAX_PAYLOAD_BYTES) ProtocolValidationError;
  match utf8_decode payload with
  | None => Err ProtocolValidationError
  | Some text =>
      match loads _object_without_duplicates _reject_json_constant depth text with
      | Err JSONDecodeError => Err ProtocolValidationError
      | Err e => Err e
      | Ok v => _message_from_json v t
      end
  end.
End codec.
