(* ===== verification/ClusterCodecSpec.v ===== *)
(** Control messages survive the wire, and nothing unchecked comes off it.

    [message_typed] is a message as Python has it: its dataclass accepted it, its hosts are
    strings and its UUIDs have 128 bits.  [strict] is the logic of the readers: a good
    value or a refusal. *)

From stdpp Require Import base list numbers strings sorting.
From S2P Require Import Prelude Bytes PyStr Dict Serialization Wire ActorPath Json JsonRoundTrip Cluster.
From S2P Require Import ClusterCodec.

(** ** UUIDs *)

Definition uuid_ok (u : UUID) : Prop := 0 < u < 2 ^ 128.

Lemma hex_digit_unhex n : 0 <= n < 16 -> unhex (hex_digit n) = Some n /\ hex_digit n <> 45 /\ 48 <= hex_digit n < 128.
Proof.
  intros Hn. assert (H : n ∈ seqZ 0 16) by (apply elem_of_seqZ; lia). revert H.
  assert (Hall : Forall (fun n => unhex (hex_digit n) = Some n /\ hex_digit n <> 45 /\ 48 <= hex_digit n < 128) (seqZ 0 16)).
  { repeat constructor; done. }
  rewrite Forall_forall in Hall. apply Hall.
Qed.

Lemma hexdigest_cons b bs : hexdigest (b :: bs) = hex_digit (b / 16) :: hex_digit (b mod 16) :: hexdigest bs.
Proof. done. Qed.

Lemma hexdigest_value acc bs :
  bytes_ok bs -> hex_value acc (hexdigest bs) = Some (acc * 256 ^ Z.of_nat (length bs) + be_unpack bs).
Proof.
  intros H. revert acc. induction H as [|b bs Hb _ IH]; intros acc; [cbn; f_equal; lia|].
  rewrite hexdigest_cons. cbn [hex_value be_unpack length].
  pose proof (Z.div_mod b 16 ltac:(lia)). pose proof (Z.mod_pos_bound b 16 ltac:(lia)).
  assert (0 <= b / 16 < 16) by (split; [apply Z.div_pos; lia|apply Z.div_lt_upper_bound; lia]).
  rewrite (proj1 (hex_digit_unhex (b / 16) ltac:(lia))), (proj1 (hex_digit_unhex (b mod 16) ltac:(lia))), IH.
  f_equal. rewrite Nat2Z.inj_succ, Z.pow_succ_r by lia. nia.
Qed.

Lemma hexdigest_chars bs : bytes_ok bs -> Forall (fun c => c <> 45 /\ 48 <= c < 128) (hexdigest bs).
Proof.
  induction 1 as [|b bs Hb _ IH]; [constructor|]. rewrite hexdigest_cons.
  pose proof (Z.mod_pos_bound b 16 ltac:(lia)).
  assert (0 <= b / 16 < 16) by (split; [apply Z.div_pos; lia|apply Z.div_lt_upper_bound; lia]).
  repeat constructor; try done; by apply hex_digit_unhex.
Qed.
Lemma length_hexdigest bs : length (hexdigest bs) = (2 * length bs)%nat.
Proof. induction bs as [|b bs IH]; [done|]. rewrite hexdigest_cons. cbn. lia. Qed.

Lemma without_hyphens s :
  Forall (fun c => c <> 45 /\ 48 <= c < 128) s -> filter (fun c => c <> 45) s = s.
Proof. induction 1 as [|c s [Hc _] _ IH]; [done|]. by rewrite filter_cons_True, IH. Qed.
Lemma filter_hyphen s t :
  Forall (fun c => c <> 45 /\ 48 <= c < 128) s ->
  filter (fun c => c <> 45) (s ++ 45 :: t) = s ++ filter (fun c => c <> 45) t.
Proof. intros Hs. rewrite filter_app, without_hyphens by done. by rewrite filter_cons_False by auto. Qed.
Lemma pieces_whole {A} (h : list A) :
  take 8 h ++ take 4 (drop 8 h) ++ take 4 (drop 12 h) ++ take 4 (drop 16 h) ++ drop 20 h = h.
Proof.
  assert (E : forall n, take 4 (drop n h) ++ drop (n + 4) h = drop n h).
  { intros n. by rewrite <- drop_drop, take_drop. }
  pose proof (E 8%nat) as E1. pose proof (E 12%nat) as E2. pose proof (E 16%nat) as E3. cbn [Nat.add] in *.
  rewrite E3, E2, E1. apply take_drop.
Qed.

Lemma UUID_roundtrip u : uuid_ok u -> UUID_parse (uuid_str u) = Some u.
Proof.
  intros Hu. unfold UUID_parse, uuid_str. set (h := hexdigest (be_pack 16 u)).
  pose proof (hexdigest_chars _ (be_pack_ok 16 u)) as Hc. fold h in Hc.
  assert (Hlen : length h = 32%nat) by (unfold h; rewrite length_hexdigest, length_be_pack; done).
  rewrite !filter_hyphen by auto using Forall_take, Forall_drop.
  rewrite without_hyphens by auto using Forall_drop. rewrite pieces_whole.
  unfold len. rewrite Hlen. cbn [Z.eqb Pos.eqb Z.of_nat Pos.of_succ_nat Pos.succ].
  unfold h. rewrite hexdigest_value by apply be_pack_ok. f_equal.
  rewrite be_unpack_pack_small; [lia|]. destruct Hu. split; [lia|exact H0].
Qed.

Lemma uuid_str_ascii u : ascii (uuid_str u).
Proof.
  assert (H : ascii (hexdigest (be_pack 16 u))).
  { eapply Forall_impl; [apply hexdigest_chars, be_pack_ok|]. intros c [_ ?]. lia. }
  unfold uuid_str, ascii in *. generalize dependent (hexdigest (be_pack 16 u)). intros h Hh.
  repeat first [apply Forall_app_2|apply Forall_cons_2; [lia|]]; auto using Forall_take, Forall_drop.
Qed.

(** ** Fields *)

(** The items of an object as they are read. *)
Definition normed (items : list (pystr * json)) : list (pystr * json) :=
  sorted_items ((fun p => (p.1, norm p.2)) <$> items).

Lemma normed_keys items : (normed items).*1 ≡ₚ items.*1.
Proof. unfold normed. by rewrite sorted_items_perm, <- list_fmap_compose. Qed.

Lemma normed_get items k : NoDup items.*1 -> dict_get (normed items) k = norm <$> dict_get items k.
Proof.
  intros Hd. assert (Hn : NoDup (normed items).*1) by by rewrite normed_keys.
  destruct (dict_get items k) as [v|] eqn:E; cbn.
  - apply dict_elem_get; [done|]. unfold normed. rewrite sorted_items_perm.
    apply dict_get_elem in E. by apply (list_elem_of_fmap_2 (fun p => (p.1, norm p.2)) _ (k, v)).
  - apply dict_get_none. rewrite normed_keys. by apply dict_get_none.
Qed.

Lemma str_at_normed items k s :
  NoDup items.*1 -> dict_get items (lit k) = Some (JStr s) -> str_at (normed items) k = Ok s.
Proof. intros Hd E. unfold str_at, getitem. by rewrite normed_get, E. Qed.
Lemma int_at_normed items k n :
  NoDup items.*1 -> dict_get items (lit k) = Some (JInt n) -> int_at (normed items) k = Ok n.
Proof. intros Hd E. unfold int_at, getitem. by rewrite normed_get, E. Qed.
Lemma uuid_at_normed items k u :
  NoDup items.*1 -> dict_get items (lit k) = Some (JStr (uuid_str u)) -> uuid_ok u ->
  uuid_at (normed items) k = Ok u.
Proof.
  intros Hd E Hu. unfold uuid_at, getitem. rewrite normed_get, E by done. cbn [fmap option_fmap option_map norm mbind result_bind].
  unfold _uuid_from_json. rewrite UUID_roundtrip, bool_decide_eq_true_2 by done.
  unfold wire_uuid. destruct Hu. rewrite (proj2 (Z.eqb_neq u 0)) by lia. done.
Qed.

Lemma same_keys_perm ks ks' expected : ks ≡ₚ ks' -> same_keys ks expected = same_keys ks' expected.
Proof.
  intros Hp. unfold same_keys. f_equal.
  - apply eq_true_iff_eq. rewrite !forallb_forall. setoid_rewrite <- list_elem_of_In. by setoid_rewrite Hp.
  - induction expected as [|k e IH]; [done|]. cbn [forallb]. rewrite IH. f_equal. by apply bool_decide_ext; rewrite Hp.
Qed.
Lemma require_normed items expected :
  same_keys items.*1 expected = true -> _require_object (JObj (normed items)) expected = Ok (normed items).
Proof. intros H. cbn. by rewrite (same_keys_perm _ _ _ (normed_keys items)), H. Qed.

(** Read one field after the other. *)
Ltac read_fields :=
  repeat (first
    [ erewrite str_at_normed by first [eassumption|reflexivity]
    | erewrite int_at_normed by first [eassumption|reflexivity]
    | erewrite uuid_at_normed by first [eassumption|reflexivity] ]; cbn [mbind result_bind]).

(** ** Messages *)

Section roundtrip.
Context (ip_unspecified : pystr -> bool) (IPv6Address : pystr -> option pystr).

(** Text that the checks let through is ASCII. *)
Lemma name_ascii s : wire_name s = Ok tt -> ascii s.
Proof.
  unfold wire_name. intros H%raise_unless_ok. unfold _is_remote_name in H. rewrite !andb_true_iff in H.
  destruct H as [_ H]. apply Forall_forall. intros c Hc. rewrite forallb_forall in H.
  specialize (H c (proj1 (list_elem_of_In _ _) Hc)). unfold is_unreserved, in_range in H.
  rewrite !orb_true_iff, !andb_true_iff, !Z.leb_le, !Z.eqb_eq in H. lia.
Qed.
Lemma host_ascii s : wire_host ip_unspecified IPv6Address s = Ok tt -> str_ok s -> ascii s.
Proof.
  unfold wire_host. intros H Hs. apply bind_ok in H as (u & H%raise_unless_ok & _).
  rewrite !andb_true_iff in H. destruct H as [_ H]. unfold isascii in H. rewrite forallb_forall in H.
  apply Forall_forall. intros c Hc. specialize (H c (proj1 (list_elem_of_In _ _) Hc)).
  unfold str_ok in Hs. rewrite Forall_forall in Hs. specialize (Hs c Hc). lia.
Qed.
Lemma choice_ascii cs s : Forall ascii cs -> wire_choice cs s = Ok tt -> ascii s.
Proof.
  unfold wire_choice. intros Hc H%raise_unless_ok%bool_decide_eq_true. rewrite Forall_forall in Hc. auto.
Qed.
Lemma fingerprint_ascii s : is_fingerprint s = true -> ascii s.
Proof.
  unfold is_fingerprint. rewrite andb_true_iff. intros [_ H]. apply Forall_forall. intros c Hc.
  rewrite forallb_forall in H. specialize (H c (proj1 (list_elem_of_In _ _) Hc)).
  unfold is_hex, is_digit, in_range in H. rewrite orb_true_iff, !andb_true_iff, !Z.leb_le in H. lia.
Qed.
Lemma lit_ascii_choices : Forall ascii _STATUSES /\ Forall ascii _REACHABILITIES.
Proof. split; repeat constructor; done. Qed.

(** The values of a member's fields: a host is a string, a UUID has 128 bits. *)
Definition member_typed (m : _WireMember) : Prop :=
  WireMember_check ip_unspecified IPv6Address m = Ok tt /\ 0 <= wm_incarnation_uid m < 2 ^ 128 /\
  str_ok (wm_host m).

Lemma uuid_check u : wire_uuid u = Ok tt -> 0 <= u < 2 ^ 128 -> uuid_ok u.
Proof. unfold wire_uuid, uuid_ok. intros H%raise_unless_ok%negb_true_iff Hu. lia. Qed.

Lemma member_plain d m : member_typed m -> plain (S d) (_member_to_json m).
Proof.
  intros (Hc & _ & Hh). unfold WireMember_check in Hc.
  apply bind_ok in Hc as ([] & Hn & Hc). apply bind_ok in Hc as ([] & _ & Hc).
  apply bind_ok in Hc as ([] & Hho & Hc). apply bind_ok in Hc as ([] & _ & Hc).
  apply bind_ok in Hc as ([] & Hst & Hre). destruct lit_ascii_choices as [L1 L2].
  apply plain_obj.
  - apply (bool_decide_unpack _). vm_compute. done.
  - repeat constructor; done.
  - repeat apply Forall_cons_2; try apply Forall_nil_2; cbn [snd]; once constructor;
      first [by apply name_ascii|apply uuid_str_ascii|by apply host_ascii|by apply (choice_ascii _ _ L1)|by apply (choice_ascii _ _ L2)].
Qed.

Lemma member_roundtrip m :
  member_typed m -> _member_from_json ip_unspecified IPv6Address (norm (_member_to_json m)) = Ok m.
Proof.
  intros (Hc & Hu & Hh).
  assert (Huid : uuid_ok (wm_incarnation_uid m)).
  { unfold WireMember_check in Hc. apply bind_ok in Hc as ([] & _ & Hc). apply bind_ok in Hc as ([] & Hw & _).
    by apply uuid_check. }
  unfold _member_to_json. cbn [norm]. match goal with |- context [JObj (sorted_items (_ <$> ?l))] => set (items := l) end.
  change (sorted_items _) with (normed items).
  assert (Hd : NoDup items.*1) by (apply (bool_decide_unpack _); vm_compute; done).
  unfold _member_from_json. rewrite require_normed by (vm_compute; done). cbn [mbind result_bind].
  read_fields.
  destruct m as [n u h p st re]. cbn in *. by rewrite Hc.
Qed.

Lemma members_loop_normed ms :
  Forall member_typed ms ->
  members_loop ip_unspecified IPv6Address (norm <$> (_member_to_json <$> ms)) = Ok ms.
Proof.
  induction 1 as [|m ms Hm _ IH]; [done|]. cbn [fmap list_fmap members_loop].
  rewrite member_roundtrip by done. cbn [mbind result_bind]. by rewrite IH.
Qed.
Lemma members_at_normed items ms :
  NoDup items.*1 -> dict_get items (lit "members") = Some (JList (_member_to_json <$> ms)) ->
  _validate_members ms = Ok tt -> Forall member_typed ms ->
  members_at ip_unspecified IPv6Address (normed items) = Ok ms.
Proof.
  intros Hd E Hv Hm. unfold members_at, getitem. rewrite normed_get, E by done.
  cbn [fmap option_fmap option_map norm mbind result_bind _members_from_json].
  unfold _validate_members in Hv. apply bind_ok in Hv as (u & Hl%raise_unless_ok & _).
  change (list_fmap json json norm ?l) with (norm <$> l).
  assert (El : len (norm <$> (_member_to_json <$> ms)) = len ms) by (unfold len; by rewrite !length_fmap).
  rewrite El, Hl. cbn [raise_unless mbind result_bind]. by apply members_loop_normed.
Qed.

Definition uuids_of (c : control) : list UUID :=
  match c with
  | JoinRequest m => [jr_source_incarnation_uid m; jr_source_control_actor_uid m; jr_target_incarnation_uid m;
                      jr_request_id m]
  | JoinAccepted m => [ja_source_incarnation_uid m; ja_target_incarnation_uid m; ja_request_id m;
                       ja_membership_token m]
  | JoinConfirm m => [jc_source_incarnation_uid m; jc_target_incarnation_uid m; jc_request_id m;
                      jc_membership_token m]
  | Heartbeat m => [hb_source_incarnation_uid m; hb_target_incarnation_uid m; hb_membership_token m]
  | HeartbeatAck m => [hk_source_incarnation_uid m; hk_target_incarnation_uid m; hk_membership_token m]
  | MembershipUpdate m => [mu_source_incarnation_uid m; mu_target_incarnation_uid m; mu_membership_token m]
  | Leave m => [lv_source_incarnation_uid m; lv_target_incarnation_uid m; lv_membership_token m; lv_request_id m]
  | LeaveAck m => [la_source_incarnation_uid m; la_target_incarnation_uid m; la_request_id m]
  end.
Definition members_of (c : control) : list _WireMember :=
  match c with
  | JoinAccepted m => ja_members m | HeartbeatAck m => hk_members m
  | MembershipUpdate m => mu_members m | LeaveAck m => la_members m | _ => []
  end.

(** A message as Python has it: made by its constructor, of strings and UUIDs. *)
Record message_typed (c : control) : Prop := {
  mt_check : control_check ip_unspecified IPv6Address c = Ok tt;
  mt_uuids : Forall (fun u => 0 <= u < 2 ^ 128) (uuids_of c);
  mt_members : Forall member_typed (members_of c);
  mt_host : match c with JoinRequest m => str_ok (jr_source_host m) | _ => True end }.

(** Take the checks of a message apart. *)
Ltac take_checks H :=
  cbn [control_check] in H; unfold check_addressing in H;
  repeat match type of H with
  | (_ ≫= _) = Ok tt => let u := fresh "u" in let Hu := fresh "Hc" in
      apply bind_ok in H as (u & Hu & H); destruct u; try take_checks Hu
  end.

Lemma members_plain d ms : Forall member_typed ms -> plain (S (S d)) (JList (_member_to_json <$> ms)).
Proof. intros H. apply plain_list, Forall_fmap. eapply Forall_impl; [exact H|]. apply member_plain. Qed.

Lemma message_plain d c : message_typed c -> plain (S (S (S d))) (_message_to_json c).
Proof.
  intros [Hc _ Hm Hh]. destruct c; take_checks Hc;
    (apply plain_obj;
      [apply (bool_decide_unpack _); vm_compute; done
      |apply (bool_decide_unpack _); vm_compute; done
      |repeat apply Forall_cons_2; try apply Forall_nil_2; cbn [snd];
       first [apply plain_int|by apply members_plain|apply plain_str];
       first [apply uuid_str_ascii|by apply name_ascii|by apply host_ascii|by apply fingerprint_ascii; apply raise_unless_ok in Hc1]]).
Qed.

Lemma message_roundtrip c :
  message_typed c ->
  _message_from_json ip_unspecified IPv6Address (norm (_message_to_json c)) (type_of c) = Ok c.
Proof.
  intros [Hc Hu Hm Hh]. pose proof Hc as Hcheck. destruct c; cbn [uuids_of members_of] in *; take_checks Hc;
    repeat (apply Forall_cons in Hu as [? Hu]);
    repeat match goal with H : wire_uuid ?u = Ok tt, H' : 0 <= ?u < _ |- _ =>
      pose proof (uuid_check u H H'); clear H' end;
    unfold _message_to_json; cbn [norm type_of];
    match goal with |- context [JObj (sorted_items (_ <$> ?l))] => set (items := l) end;
    change (sorted_items _) with (normed items);
    assert (Hd : NoDup items.*1) by (apply (bool_decide_unpack _); vm_compute; done);
    unfold _message_from_json; rewrite require_normed by (vm_compute; done); cbn [mbind result_bind read_message];
    read_fields;
    try (erewrite members_at_normed by first [eassumption|reflexivity]; cbn [mbind result_bind]);
    destruct m; cbn in *; unfold checked; by rewrite Hcheck.
Qed.

(** ** The serializer *)

Lemma object_loop_ok l acc :
  NoDup (acc.*1 ++ l.*1) -> object_loop l acc = Ok (JObj (acc ++ l)).
Proof.
  revert acc. induction l as [|[k v] l IH]; intros acc Hd; cbn [object_loop]; [by rewrite app_nil_r|].
  cbn [fmap list_fmap fst] in Hd.
  assert (Hk : k ∉ acc.*1) by (apply NoDup_app in Hd as (_ & Hd & _); intros Hk; apply (Hd k Hk); left).
  assert (dict_has acc k = false) as -> by (unfold dict_has; by rewrite (proj2 (dict_get_none _ _) Hk)).
  rewrite dict_set_fresh by done. rewrite IH; [by rewrite <- app_assoc|].
  rewrite fmap_app. cbn. by rewrite <- app_assoc.
Qed.

Lemma find_type_manifest t : find_type (_MANIFESTS t) 0 = Ok t.
Proof. by destruct t; vm_compute. Qed.

(** ** The size of a payload *)

Lemma name_quote s : wire_name s = Ok tt -> len (quote s) <= 257.
Proof.
  intros H. pose proof (name_ascii s H) as Ha. unfold wire_name in H. apply raise_unless_ok in H.
  unfold _is_remote_name in H. rewrite !andb_true_iff in H. destruct H as [[_ Hl%Z.leb_le] Hu].
  rewrite quote_unreserved by done. lia.
Qed.
Lemma host_quote s : wire_host ip_unspecified IPv6Address s = Ok tt -> str_ok s -> len (quote s) <= 1532.
Proof.
  intros H Hs. pose proof (host_ascii s H Hs) as Ha. unfold wire_host in H.
  apply bind_ok in H as (u & H%raise_unless_ok & _). rewrite !andb_true_iff in H.
  destruct H as [[_ Hl%Z.leb_le] _]. pose proof (quote_length s Ha). lia.
Qed.
Lemma uuid_quote u : len (quote (uuid_str u)) <= 218.
Proof.
  pose proof (quote_length _ (uuid_str_ascii u)) as H.
  assert (len (uuid_str u) = 36); [|lia]. unfold uuid_str, len.
  assert (Hl : length (hexdigest (be_pack 16 u)) = 32%nat) by (rewrite length_hexdigest, length_be_pack; done).
  generalize dependent (hexdigest (be_pack 16 u)). intros h Hl.
  rewrite !length_app, !length_cons, !length_app, !length_cons, !length_app, !length_cons, !length_app, !length_cons.
  rewrite !length_take, !length_drop, Hl. done.
Qed.
Lemma port_text n : wire_port n = Ok tt -> len (str_int n) <= 5.
Proof.
  unfold wire_port. intros H%raise_unless_ok. rewrite andb_true_iff in H. destruct H as [H1%Z.leb_le H2%Z.leb_le].
  unfold str_int. rewrite (proj2 (Z.ltb_ge n 0)) by lia.
  destruct (str_of_Z_spec n ltac:(lia)) as (_ & Hd & Hv). destruct (str_of_Z_head n ltac:(lia)) as (c & t & E & Hc).
  rewrite E in *. pose proof (int_lower c t Hd Hc) as Hlow. rewrite Hv in Hlow.
  destruct (Z.le_gt_cases (len t) 4) as [|Hgt]; [unfold len in *; cbn; lia|].
  assert (10 ^ 5 <= 10 ^ len t) by (apply Z.pow_le_mono_r; lia). lia.
Qed.
Lemma choice_quote cs s : forallb (fun c => len (quote c) <=? 13) cs = true -> wire_choice cs s = Ok tt -> len (quote s) <= 13.
Proof.
  unfold wire_choice. intros Hc H%raise_unless_ok%bool_decide_eq_true. rewrite forallb_forall in Hc.
  apply Z.leb_le, Hc. by apply list_elem_of_In.
Qed.

Lemma fingerprint_quote s : is_fingerprint s = true -> len (quote s) <= 386.
Proof.
  intros H. pose proof (quote_length s (fingerprint_ascii s H)). unfold is_fingerprint in H.
  apply andb_true_iff in H as [H%Z.eqb_eq _]. lia.
Qed.

Lemma member_weight m : member_typed m -> weight (_member_to_json m) <= 3000.
Proof.
  intros (Hc & _ & Hh). unfold WireMember_check in Hc. take_checks Hc.
  pose proof (name_quote _ Hc0). pose proof (uuid_quote (wm_incarnation_uid m)).
  pose proof (host_quote _ Hc2 Hh). pose proof (port_text _ Hc3).
  pose proof (choice_quote _STATUSES _ eq_refl Hc4). pose proof (choice_quote _REACHABILITIES _ eq_refl Hc).
  unfold _member_to_json. cbn [weight total foldr fst snd].
  change (len (quote (lit "system_name"))) with 13. change (len (quote (lit "incarnation_uid"))) with 17.
  change (len (quote (lit "host"))) with 6. change (len (quote (lit "port"))) with 6.
  change (len (quote (lit "status"))) with 8. change (len (quote (lit "reachability"))) with 14. lia.
Qed.

Lemma members_weight ms :
  _validate_members ms = Ok tt -> Forall member_typed ms ->
  weight (JList (_member_to_json <$> ms)) <= 2 + 3001 * 256.
Proof.
  intros Hv Hm. unfold _validate_members in Hv. apply bind_ok in Hv as (u & Hl%raise_unless_ok%Z.leb_le & _).
  cbn [weight]. rewrite total_fmap.
  assert (H : total (fun m => weight (_member_to_json m) + 1) ms <= 3001 * len ms).
  { clear Hl. induction Hm as [|m ms Hm _ IH]; [done|]. pose proof (member_weight m Hm).
    unfold total, len in *. cbn [foldr length]. lia. }
  unfold _MAX_MEMBERS in Hl. lia.
Qed.

Lemma int_text_bound items t k n :
  dumps (JObj items) = Ok t -> (k, JInt n) ∈ items -> len (str_int n) <= 4301.
Proof.
  intros (zs & -> & Hz & _)%dumps_object (z & E & Hin)%list_elem_of_fmap.
  rewrite Forall_forall in Hz. specialize (Hz z Hin). injection E as _ E. rewrite <- E in Hz.
  cbn in Hz. unfold int_repr in Hz. apply bind_ok in Hz as (u & Hl%raise_unless_ok%Z.leb_le & _).
  unfold str_int, int_digits_limit, len in *. destruct (Z.ltb_spec n 0).
  - rewrite Z.abs_neq in Hl by lia. cbn [length]. lia.
  - rewrite Z.abs_eq in Hl by lia. lia.
Qed.

Ltac quoted_keys :=
  repeat match goal with |- context [len (quote (lit ?k))] =>
    let v := eval vm_compute in (len (quote (lit k))) in change (len (quote (lit k))) with v end.

(** Every message fits. *)
Lemma message_size c t :
  message_typed c -> dumps (_message_to_json c) = Ok t -> len t <= _MAX_PAYLOAD_BYTES.
Proof.
  intros [Hc _ Hm Hh] Ht. pose proof (dumps_length _ _ Ht) as Hl.
  enough (weight (_message_to_json c) <= 1000000) by (change _MAX_PAYLOAD_BYTES with 1048576; lia). clear Hl.
  pose proof (fun k n => int_text_bound _ t k n Ht) as Hint. clear Ht.
  pose proof uuid_quote as Hu.
  destruct c; cbn [members_of] in *; take_checks Hc;
    repeat match goal with H : wire_name _ = Ok tt |- _ => apply name_quote in H end;
    try match goal with H : wire_port _ = Ok tt |- _ => apply port_text in H end;
    try match goal with H : wire_host _ _ _ = Ok tt |- _ => apply host_quote in H; [|exact Hh] end;
    try match goal with H : raise_unless (is_fingerprint _) _ = Ok tt |- _ =>
      apply raise_unless_ok, fingerprint_quote in H end;
    try (apply members_weight in Hc; [|done]);
    unfold _message_to_json, addressing, members_item, uuid_item in *; cbn [app] in *;
    match goal with |- weight (JObj ?l) <= _ =>
      change (weight (JObj l)) with (2 + total (fun p => len (quote p.1) + 2 + weight p.2) l) end;
    cbn [total foldr fst snd]; quoted_keys;
    repeat match goal with |- context [weight (JStr ?s)] => change (weight (JStr s)) with (len (quote s)) end;
    repeat match goal with |- context [weight (JInt ?n)] => change (weight (JInt n)) with (len (str_int n)) end;
    repeat match goal with |- context [len (str_int ?n)] =>
      assert (len (str_int n) <= 4301) by (eapply (Hint _ n); repeat first [apply list_elem_of_here|apply list_elem_of_further]);
      generalize dependent (len (str_int n)); intros end;
    repeat match goal with |- context [len (quote (uuid_str ?u))] =>
      pose proof (Hu u); generalize dependent (len (quote (uuid_str u))); intros end; lia.
Qed.

(** ** The round trip *)

Definition numbers_of (c : control) : list Z :=
  match c with
  | JoinRequest m => []
  | JoinAccepted m => [ja_revision m]
  | Heartbeat m => [hb_sequence m]
  | HeartbeatAck m => [hk_sequence m; hk_revision m]
  | MembershipUpdate m => [mu_revision m]
  | LeaveAck m => [la_revision m]
  | _ => []
  end.

Lemma port_short n : wire_port n = Ok tt -> short_int n.
Proof.
  intros H. pose proof (port_text n H) as Hl. unfold wire_port in H. apply raise_unless_ok, andb_true_iff in H as [H%Z.leb_le _].
  unfold str_int in Hl. rewrite (proj2 (Z.ltb_ge n 0)) in Hl by lia.
  unfold short_int, int_digits_limit. rewrite Z.abs_eq by lia. lia.
Qed.
Lemma members_short ms : Forall member_typed ms -> short (JList (_member_to_json <$> ms)).
Proof.
  intros H. apply short_list, Forall_fmap. eapply Forall_impl; [exact H|]. intros m (Hc & _ & _).
  unfold WireMember_check in Hc. take_checks Hc. apply short_obj.
  repeat apply Forall_cons_2; try apply Forall_nil_2; cbn [snd]; once constructor. by apply port_short.
Qed.
Lemma message_short c : message_typed c -> Forall short_int (numbers_of c) -> short (_message_to_json c).
Proof.
  intros [Hc _ Hm _] Hn. destruct c; cbn [numbers_of members_of] in *; take_checks Hc;
    repeat (apply Forall_cons in Hn as [? Hn]); apply short_obj;
    repeat apply Forall_cons_2; try apply Forall_nil_2; cbn [snd];
    first [apply short_str|by apply short_number|by apply short_number, port_short|by apply members_short].
Qed.

(** C38.  Control messages survive the wire: a message its dataclass accepts, with numbers of at most
    4300 digits, is serialized under its manifest to at most one MiB, however many members it
    lists, and deserializing those bytes gives the same message, if the interpreter has three
    levels of recursion left. *)
Theorem control_message_roundtrip depth c :
  message_typed c -> Forall short_int (numbers_of c) -> (3 <= depth)%nat ->
  exists payload, cluster_serialize c (_MANIFESTS (type_of c)) 0 = Ok payload /\
    len payload <= _MAX_PAYLOAD_BYTES /\
    cluster_deserialize ip_unspecified IPv6Address depth payload (_MANIFESTS (type_of c)) 0 = Ok c.
Proof.
  intros Hc Hn Hdepth. destruct depth as [|[|[|depth]]]; [lia..|].
  pose proof (message_plain depth c Hc) as Hp.
  destruct (dumps_returns _ (message_short c Hc Hn)) as [t Ht].
  pose proof (dumps_ascii _ _ _ Hp Ht) as Ha. pose proof (message_size c t Hc Ht) as Hl.
  assert (Hs : Forall scalar t).
  { unfold ascii in Ha. eapply Forall_impl; [exact Ha|]. intros x Hx. cbn beta in Hx. split; [lia|].
    unfold is_surrogate. apply andb_false_iff. left. apply Z.leb_gt. lia. }
  assert (Hb : utf8_bytes t = t).
  { clear -Ha. induction Ha as [|x t Hx _ IH]; [done|]. rewrite utf8_bytes_cons, IH. unfold utf8_char.
    by rewrite (proj2 (Z.ltb_lt x 0x80)) by lia. }
  exists t. unfold cluster_serialize, cluster_deserialize. rewrite find_type_manifest. cbn [mbind result_bind].
  rewrite bool_decide_eq_true_2, Ht by done. cbn [raise_unless mbind result_bind].
  rewrite utf8_encode_ok, Hb by done. split; [done|]. split; [done|].
  rewrite (proj2 (Z.leb_le _ _) Hl). cbn [raise_unless mbind result_bind].
  rewrite <- Hb at 1. rewrite utf8_decode_bytes by done.
  erewrite loads_dumps by (first [eassumption|intros l Hd; by apply (object_loop_ok l [])]).
  by apply message_roundtrip.
Qed.

(** ** What is refused *)

(** A reader that returns good values or refuses. *)
Definition strict {A} (Q : A -> Prop) (r : result A) : Prop :=
  match r with Ok a => Q a | Err e => e = ProtocolValidationError end.

Lemma strict_bind {A B} (P : A -> Prop) (Q : B -> Prop) (r : result A) (k : A -> result B) :
  strict P r -> (forall a, P a -> strict Q (k a)) -> strict Q (r ≫= k).
Proof. destruct r; cbn; auto. Qed.
Lemma strict_check c : strict (fun _ => c = true) (raise_unless c ProtocolValidationError).
Proof. by destruct c. Qed.

Lemma getitem_present items expected k :
  same_keys items.*1 expected = true -> bool_decide (lit k ∈ expected) = true ->
  exists v, getitem items k = Ok v.
Proof.
  unfold same_keys, getitem. rewrite andb_true_iff, !forallb_forall. intros [_ H] Hk%bool_decide_eq_true.
  specialize (H _ (proj1 (list_elem_of_In _ _) Hk)). apply bool_decide_eq_true in H.
  destruct (dict_get items (lit k)) as [v|] eqn:E; [by exists v|]. by apply dict_get_none in E.
Qed.

Section fields.
Context (items : list (pystr * json)) (expected : list pystr).
Context (Hkeys : same_keys items.*1 expected = true).

Lemma strict_str k : bool_decide (lit k ∈ expected) = true -> strict (fun _ => True) (str_at items k).
Proof. intros Hk. unfold str_at. destruct (getitem_present _ _ _ Hkeys Hk) as [[] ->]; done. Qed.
Lemma strict_int k : bool_decide (lit k ∈ expected) = true -> strict (fun _ => True) (int_at items k).
Proof. intros Hk. unfold int_at. destruct (getitem_present _ _ _ Hkeys Hk) as [[] ->]; done. Qed.
Lemma strict_uuid k : bool_decide (lit k ∈ expected) = true -> strict (fun _ => True) (uuid_at items k).
Proof.
  intros Hk. unfold uuid_at. destruct (getitem_present _ _ _ Hkeys Hk) as [v ->]. cbn [mbind result_bind].
  unfold _uuid_from_json. destruct v; try done. destruct (UUID_parse s); [|done].
  eapply strict_bind; [apply strict_check|]. intros _ _. eapply strict_bind; [apply strict_check|]. done.
Qed.
End fields.

Definition member_checked (m : _WireMember) : Prop := WireMember_check ip_unspecified IPv6Address m = Ok tt.

(** The checks raise nothing else. *)
Lemma strict_unit (r : result unit) : (forall e, r = Err e -> e = ProtocolValidationError) -> strict (fun _ => r = Ok tt) r.
Proof. destruct r as [[]|e]; cbn; auto. Qed.
Lemma strict_host s : strict (fun _ => True) (wire_host ip_unspecified IPv6Address s).
Proof.
  unfold wire_host. do 2 (eapply strict_bind; [apply strict_check|intros _ _]).
  repeat case_match; try done; unfold raise_unless; by case_match.
Qed.
Lemma strict_true {A} (Q : A -> Prop) r : strict Q r -> strict (fun _ => True) r.
Proof. by destruct r. Qed.
Ltac strict_checks :=
  repeat first
    [ apply strict_host
    | eapply strict_true, strict_check
    | eapply strict_bind; [|intros ? _] ].
Lemma strict_member m : strict (fun _ => member_checked m) (WireMember_check ip_unspecified IPv6Address m).
Proof.
  apply strict_unit. intros e He.
  assert (H : strict (fun _ => True) (WireMember_check ip_unspecified IPv6Address m)).
  { unfold WireMember_check, wire_name, wire_uuid, wire_port, wire_choice. strict_checks. }
  by rewrite He in H.
Qed.
Lemma strict_control c :
  strict (fun _ => control_check ip_unspecified IPv6Address c = Ok tt) (control_check ip_unspecified IPv6Address c).
Proof.
  apply strict_unit. intros e He.
  assert (H : strict (fun _ => True) (control_check ip_unspecified IPv6Address c)).
  { destruct c; unfold control_check, check_addressing, _validate_members, wire_name, wire_uuid, wire_port,
      wire_nonnegative; strict_checks. }
  by rewrite He in H.
Qed.

Lemma strict_require v expected :
  strict (fun items => same_keys items.*1 expected = true) (_require_object v expected).
Proof. destruct v; try done. cbn. eapply strict_bind; [apply strict_check|]. by intros ? ?. Qed.

(** Read one field after the other. *)
Ltac strict_fields H :=
  repeat (eapply strict_bind;
    [first [apply (strict_str _ _ H)|apply (strict_uuid _ _ H)|apply (strict_int _ _ H)]; vm_compute; reflexivity
    |intros ? _]).

Lemma strict_member_from_json v : strict member_checked (_member_from_json ip_unspecified IPv6Address v).
Proof.
  unfold _member_from_json. eapply strict_bind; [apply strict_require|]. intros items Hk. strict_fields Hk.
  eapply strict_bind; [apply strict_member|]. done.
Qed.
Lemma strict_members items expected :
  same_keys items.*1 expected = true -> bool_decide (lit "members" ∈ expected) = true ->
  strict (Forall member_checked) (members_at ip_unspecified IPv6Address items).
Proof.
  intros Hk Hm. unfold members_at. destruct (getitem_present _ _ _ Hk Hm) as [v ->]. cbn [mbind result_bind].
  destruct v as [| | | | |l|]; try done. cbn. eapply strict_bind; [apply strict_check|]. intros _ _.
  induction l as [|x l IH]; [constructor|]. cbn [members_loop].
  eapply strict_bind; [apply strict_member_from_json|]. intros m Hm'.
  eapply strict_bind; [exact IH|]. intros ms Hms. by constructor.
Qed.

Definition accepted_as (t : control_type) (c : control) : Prop :=
  control_check ip_unspecified IPv6Address c = Ok tt /\ Forall member_checked (members_of c) /\ type_of c = t.
Lemma strict_checked t c :
  type_of c = t -> Forall member_checked (members_of c) ->
  strict (accepted_as t) (checked ip_unspecified IPv6Address c).
Proof.
  intros Ht Hm. unfold checked. eapply strict_bind; [apply strict_control|]. intros [] Hc. done.
Qed.

Lemma strict_message v t : strict (accepted_as t) (_message_from_json ip_unspecified IPv6Address v t).
Proof.
  unfold _message_from_json. eapply strict_bind; [apply strict_require|]. intros items Hk.
  destruct t; cbn [read_message]; strict_fields Hk;
    try (eapply strict_bind; [apply (strict_members _ _ Hk); vm_compute; reflexivity|]; intros ms Hms);
    by apply strict_checked.
Qed.

Lemma object_hook_error l e : _object_without_duplicates l = Err e -> e = ProtocolValidationError.
Proof.
  unfold _object_without_duplicates. generalize (@nil (pystr * json)). induction l as [|[k v] l IH]; intros acc; [done|].
  cbn [object_loop]. destruct (dict_has acc k); [by intros [= <-]|apply IH].
Qed.

(** C39.  Nothing unchecked comes off the wire: whatever the bytes are, deserializing them either gives
    a message of the manifest's type, protocol minor 0, that passes all checks of its dataclass,
    as do its members, or raises ProtocolValidationError.  There are two exceptions, both from
    reading the JSON text: a text with a run of more digits than [int] accepts (4300) may raise
    [int]'s ValueError, and one with more opening brackets than the interpreter has levels left
    its RecursionError.  It always ends. *)
Theorem deserialize_strict depth payload manifest protocol_minor :
  match cluster_deserialize ip_unspecified IPv6Address depth payload manifest protocol_minor with
  | Ok c => protocol_minor = 0 /\ manifest = _MANIFESTS (type_of c) /\
            control_check ip_unspecified IPv6Address c = Ok tt /\ Forall member_checked (members_of c)
  | Err e => e = ProtocolValidationError \/
             exists text, utf8_decode payload = Some text /\
               (e = ValueError /\ long_integer text \/ e = RecursionError /\ (depth < openings text)%nat)
  end.
Proof.
  unfold cluster_deserialize, find_type. destruct (Z.eqb_spec protocol_minor 0) as [->|]; [|by left].
  cbn [raise_unless mbind result_bind].
  destruct (_TYPES_BY_MANIFEST manifest) as [t|] eqn:Et; [|by left]. cbn [mbind result_bind].
  assert (Hman : manifest = _MANIFESTS t).
  { unfold _TYPES_BY_MANIFEST in Et. apply head_Some_elem_of, list_elem_of_filter in Et as [? _]. done. }
  destruct (len payload <=? _MAX_PAYLOAD_BYTES); [|by left]. cbn [raise_unless mbind result_bind].
  destruct (utf8_decode payload) as [text|]; [|by left].
  destruct (loads _ _ _ text) as [v|e] eqn:El.
  - pose proof (strict_message v t) as H. destruct (_message_from_json _ _ v t) as [c|e]; [|by left].
    destruct H as (Hc & Hm & Htype). by rewrite Htype.
  - apply (loads_errors (fun e => e = ProtocolValidationError)) in El.
    + destruct El as [->|[->|[[-> ?]|[-> ?]]]]; eauto 7.
    + apply object_hook_error.
    + by intros s e' [= <-].
Qed.
End roundtrip.

(** * A message *)

Module CodecRun.

Definition unspecified (host : pystr) : bool := bool_decide (host = lit "0.0.0.0").
Definition canonical (host : pystr) : option pystr := if bool_decide (58 ∈ host) then Some host else None.

#[local] Instance returned_dec (r : result unit) : Decision (r = Ok tt).
Proof. destruct r as [[]|e]; [by left|by right]. Defined.
#[local] Instance member_typed_dec m : Decision (member_typed unspecified canonical m).
Proof. unfold member_typed. apply _. Defined.
#[local] Instance short_int_dec n : Decision (short_int n).
Proof. unfold short_int. apply _. Defined.

(** A host with characters JSON escapes. *)
Definition update : control :=
  MembershipUpdate (mkMembershipUpdate (lit "orders") (lit "seed") 1 (2 ^ 127 + 5) 41 7
    [mkWireMember (lit "seed") 1 (lit "127.0.0.1") 7001 (lit "up") (lit "reachable");
     mkWireMember (lit "alpha") (2 ^ 127 + 5) (lit "fe80::1%\" ++ [34; 9]) 7002 (lit "joining") (lit "unreachable")]).

Lemma control_message_roundtrip_witness :
  exists payload, cluster_serialize update (_MANIFESTS (type_of update)) 0 = Ok payload /\
    len payload <= _MAX_PAYLOAD_BYTES /\
    cluster_deserialize unspecified canonical 3 payload (_MANIFESTS (type_of update)) 0 = Ok update.
Proof.
  apply (control_message_roundtrip unspecified canonical 3 update); [| |lia].
  - split; [vm_compute; reflexivity| | |exact I].
    + apply (bool_decide_unpack _); vm_compute; exact I.
    + apply (bool_decide_unpack _); vm_compute; exact I.
  - apply (bool_decide_unpack _). vm_compute. exact I.
Defined.

(** Four brackets where three levels are left, and a message whose identifiers are not UUIDs. *)
Definition nested : bytes := lit "[[[[".
Definition no_uuid : bytes :=
  match cluster_serialize update (_MANIFESTS (type_of update)) 0 with
  | Ok payload => (fun c => if c =? 45 then 122 else c) <$> payload
  | Err _ => []
  end.
Lemma deserialize_strict_witness :
  cluster_deserialize unspecified canonical 3 nested (_MANIFESTS (type_of update)) 0 = Err RecursionError /\
  (3 < openings nested)%nat /\ len no_uuid <> 0 /\
  cluster_deserialize unspecified canonical 3 no_uuid (_MANIFESTS (type_of update)) 0
    = Err ProtocolValidationError.
Proof.
  pose proof (deserialize_strict unspecified canonical 3 nested (_MANIFESTS (type_of update)) 0) as H.
  assert (E : cluster_deserialize unspecified canonical 3 nested (_MANIFESTS (type_of update)) 0 = Err RecursionError)
    by (vm_compute; reflexivity).
  rewrite E in H. split; [exact E|].
  split; [|split; [vm_compute; discriminate|vm_compute; reflexivity]].
  destruct H as [H|(text & Ht & [[H _]|[_ H]])]; [discriminate H|discriminate H|].
  assert (Hn : utf8_decode nested = Some nested) by (vm_compute; reflexivity).
  rewrite Hn in Ht. injection Ht as <-. exact H.
Defined.
End CodecRun.
