(* ===== verification/ClusterRuntime.v ===== *)
(** The membership runtime of one system: [movie/cluster/runtime.py].

    One [Runtime] holds the fields of [ClusterRuntime], grouped by what they serve: its
    lifecycle, its view of the cluster, the coordinator's tables, and what a member knows
    of its coordinator.  A block under [_condition] is a function on the runtime alone
    (the [*_locked] definitions; it may raise, keeping what it changed).  A handler is an
    [Eff] program that runs such blocks and, between them, asks the world [W] of the class
    [ClusterEnv]: the clock, random UUIDs, the control actor, [tell], [associate] and
    [resolve], which may fail, and whether [_join_send_lock] is free.  Values a block draws from the clock or from [uuid4] are its arguments.

    Events are recorded as published; the bounded window of [ClusterEvents] that readers
    see is not.  Waiting is not modelled: [start] and [_member_leave] are split where
    they wait.  [_stop_before]'s deadlines are left out, and so are timestamps. *)

From stdpp Require Import base list numbers strings gmap.
From S2P Require Import Prelude Bytes PyStr Dict Serialization Wire DeadLetter ActorPath Transport.
From S2P Require Import Effects Association Cluster.

Local Open Scope eff_scope.

#[global] Instance MemberIdentity_countable : Countable MemberIdentity.
Proof.
  refine (inj_countable' (fun i => (mi_system_name i, mi_incarnation_uid i))
            (fun p => mkMemberIdentity p.1 p.2) _). by intros [].
Defined.

Definition _CONTROL_ACTOR_NAME : pystr := lit "_movie_cluster_control_v1".

Inductive _RuntimeState := NEW | STARTING | RUNNING | FAILED | STOPPING | STOPPED.

#[global] Instance RuntimeState_eq_dec : EqDecision _RuntimeState.
Proof. solve_decision. Defined.

(** [RemoteActorRef]. *)
Record Ref := mkRef { ref_system_name : pystr; ref_identity : ActorIdentity; ref_path : ActorPath }.

Inductive ClusterEventKind :=
  MEMBER_UP | MEMBER_LEAVING | MEMBER_LEFT | MEMBER_REACHABLE | MEMBER_UNREACHABLE.
Record ClusterEvent := mkEvent {
  ev_kind : ClusterEventKind; ev_member : ClusterMember; ev_revision : Z }.

(** [_InboundControl], and the two marks put in the queue. *)
Record _InboundControl := mkInbound {
  in_message : control; in_source : MemberIdentity; in_endpoint : Endpoint }.
Inductive queue_item := Inbound (i : _InboundControl) | _STOP_WORKER | _WAKE_WORKER.

Abbreviation dict K V := (list (K * V)) (only parsing).

Record Life := mkLife {
  rt_state : _RuntimeState;
  startup_settled : bool;
  rt_failure : option exn;
  control_ref : option ActorIdentity }.

Record View := mkView {
  revision : Z;
  view_revision : Z;
  members : dict MemberIdentity ClusterMember;
  events : list ClusterEvent;
  retired_identities : gset MemberIdentity;
  authoritative_snapshot : option (list _WireMember) }.

Record Tables := mkTables {
  member_tokens : dict MemberIdentity UUID;
  member_refs : dict MemberIdentity Ref;
  last_heartbeat_sequence : dict MemberIdentity Z;
  last_evidence : dict MemberIdentity Z;
  pending_joins : dict MemberIdentity (UUID * Z);
  left_order : list MemberIdentity }.

Record Client := mkClient {
  coordinator_identity : option MemberIdentity;
  coordinator_ref : option Ref;
  membership_token : option UUID;
  pending_join_request : option UUID;
  submissions : nat;
  pending_join_submission : option (nat * control);
  join_deadline : Z;
  join_retry_at : Z;
  join_complete : bool;
  pending_leave_request : option UUID;
  leave_complete : bool;
  heartbeat_sequence : Z;
  last_heartbeat_ack : Z;
  next_reassociation : Z;
  reassociation_failures : Z }.

Record Runtime := mkRuntime {
  life : Life; view : View; tables : Tables; client : Client; control_queue : list queue_item }.

(** What the constructor is given. *)
Record ClusterSetup := mkClusterSetup {
  su_system_name : pystr;
  su_incarnation_uid : UUID;
  su_config : ClusterConfig;
  su_endpoint : Endpoint;
  su_peers : list (pystr * Endpoint);
  su_fingerprint : pystr }.

Definition self_identity (self : ClusterSetup) : MemberIdentity :=
  mkMemberIdentity (su_system_name self) (su_incarnation_uid self).
Definition is_coordinator (self : ClusterSetup) : bool :=
  bool_decide (su_system_name self = seed_system_name (cc_seed (su_config self))).

(** [_validate_configuration]. *)
Definition _validate_configuration (self : ClusterSetup) : result bool :=
  MemberIdentity_new (su_system_name self) (su_incarnation_uid self) ≫= fun _ =>
  raise_unless (negb (ep_port (su_endpoint self) =? 0)) ValueError ≫= fun _ =>
  let seed := cc_seed (su_config self) in
  (if is_coordinator self
   then raise_unless (bool_decide (su_endpoint self = seed_endpoint seed)) ValueError
   else raise_unless
          (bool_decide (dict_get (su_peers self) (seed_system_name seed)
                        = Some (seed_endpoint seed))) ValueError) ≫= fun _ =>
  Ok (is_coordinator self).

(** [__init__]; [now] is the clock. *)
Definition ClusterRuntime_new (self : ClusterSetup) (now : Z) : Runtime :=
  mkRuntime (mkLife NEW false None None)
    (mkView 0 0 [(self_identity self, mkMember (self_identity self) (su_endpoint self) JOINING REACHABLE)]
       [] ∅ None)
    (mkTables [] [] [] [(self_identity self, now)] [] [])
    (mkClient None None None None 0 None 0 0 false None false 0 (-1) 0 0) [].

(** * Field updates *)

Definition with_life (f : Life -> Life) (s : Runtime) : Runtime :=
  mkRuntime (f (life s)) (view s) (tables s) (client s) (control_queue s).
Definition with_view (f : View -> View) (s : Runtime) : Runtime :=
  mkRuntime (life s) (f (view s)) (tables s) (client s) (control_queue s).
Definition with_tables (f : Tables -> Tables) (s : Runtime) : Runtime :=
  mkRuntime (life s) (view s) (f (tables s)) (client s) (control_queue s).
Definition with_client (f : Client -> Client) (s : Runtime) : Runtime :=
  mkRuntime (life s) (view s) (tables s) (f (client s)) (control_queue s).
Definition with_queue (q : list queue_item) (s : Runtime) : Runtime :=
  mkRuntime (life s) (view s) (tables s) (client s) q.

Definition set_state (x : _RuntimeState) (l : Life) : Life :=
  mkLife x (startup_settled l) (rt_failure l) (control_ref l).

(** [self._revision += 1]. *)
Definition bump_revision (v : View) : View :=
  mkView (revision v + 1) (view_revision v) (members v) (events v) (retired_identities v)
    (authoritative_snapshot v).
Definition with_members (ms : dict MemberIdentity ClusterMember) (v : View) : View :=
  mkView (revision v) (view_revision v + 1) ms (events v) (retired_identities v)
    (authoritative_snapshot v).
Definition with_retired (r : gset MemberIdentity) (v : View) : View :=
  mkView (revision v) (view_revision v) (members v) (events v) r (authoritative_snapshot v).

Definition set_token i x (t : Tables) : Tables :=
  mkTables (dict_set (member_tokens t) i x) (member_refs t) (last_heartbeat_sequence t)
    (last_evidence t) (pending_joins t) (left_order t).
Definition set_ref i x (t : Tables) : Tables :=
  mkTables (member_tokens t) (dict_set (member_refs t) i x) (last_heartbeat_sequence t)
    (last_evidence t) (pending_joins t) (left_order t).
Definition set_sequence i x (t : Tables) : Tables :=
  mkTables (member_tokens t) (member_refs t) (dict_set (last_heartbeat_sequence t) i x)
    (last_evidence t) (pending_joins t) (left_order t).
Definition set_evidence i x (t : Tables) : Tables :=
  mkTables (member_tokens t) (member_refs t) (last_heartbeat_sequence t)
    (dict_set (last_evidence t) i x) (pending_joins t) (left_order t).
Definition set_pending p (t : Tables) : Tables :=
  mkTables (member_tokens t) (member_refs t) (last_heartbeat_sequence t) (last_evidence t) p
    (left_order t).
Definition set_left_order o (t : Tables) : Tables :=
  mkTables (member_tokens t) (member_refs t) (last_heartbeat_sequence t) (last_evidence t)
    (pending_joins t) o.

(** A new object is stored in [_pending_join_submission]; the objects are numbered. *)
Definition submit_control (m : control) (c : Client) : Client :=
  mkClient (coordinator_identity c) (coordinator_ref c) (membership_token c)
    (pending_join_request c) (S (submissions c)) (Some (submissions c, m)) (join_deadline c) (join_retry_at c) (join_complete c)
    (pending_leave_request c) (leave_complete c) (heartbeat_sequence c) (last_heartbeat_ack c)
    (next_reassociation c) (reassociation_failures c).
Definition clear_submission (c : Client) : Client :=
  mkClient (coordinator_identity c) (coordinator_ref c) (membership_token c)
    (pending_join_request c) (submissions c) None (join_deadline c) 0 (join_complete c)
    (pending_leave_request c) (leave_complete c) (heartbeat_sequence c) (last_heartbeat_ack c)
    (next_reassociation c) (reassociation_failures c).
Definition set_retry_at (x : Z) (c : Client) : Client :=
  mkClient (coordinator_identity c) (coordinator_ref c) (membership_token c)
    (pending_join_request c) (submissions c) (pending_join_submission c) (join_deadline c) x (join_complete c)
    (pending_leave_request c) (leave_complete c) (heartbeat_sequence c) (last_heartbeat_ack c)
    (next_reassociation c) (reassociation_failures c).
Definition set_coordinator (i : MemberIdentity) (r : Ref) (request : UUID) (m : control)
    (deadline : Z) (c : Client) : Client :=
  mkClient (Some i) (Some r) (membership_token c) (Some request) (S (submissions c))
    (Some (submissions c, m)) deadline
    (join_retry_at c) (join_complete c) (pending_leave_request c) (leave_complete c)
    (heartbeat_sequence c) (last_heartbeat_ack c) (next_reassociation c)
    (reassociation_failures c).
Definition set_membership_token (x : UUID) (c : Client) : Client :=
  mkClient (coordinator_identity c) (coordinator_ref c) (Some x) (pending_join_request c)
    (submissions c) (pending_join_submission c) (join_deadline c) (join_retry_at c) (join_complete c)
    (pending_leave_request c) (leave_complete c) (heartbeat_sequence c) (last_heartbeat_ack c)
    (next_reassociation c) (reassociation_failures c).
(** [_pending_join_request = None; _join_complete = True]. *)
Definition set_joined (c : Client) : Client :=
  mkClient (coordinator_identity c) (coordinator_ref c) (membership_token c) None
    (submissions c) (pending_join_submission c) (join_deadline c) (join_retry_at c) true
    (pending_leave_request c) (leave_complete c) (heartbeat_sequence c) (last_heartbeat_ack c)
    (next_reassociation c) (reassociation_failures c).
Definition set_join_complete (c : Client) : Client :=
  mkClient (coordinator_identity c) (coordinator_ref c) (membership_token c)
    (pending_join_request c) (submissions c) (pending_join_submission c) (join_deadline c) (join_retry_at c) true
    (pending_leave_request c) (leave_complete c) (heartbeat_sequence c) (last_heartbeat_ack c)
    (next_reassociation c) (reassociation_failures c).
Definition set_leave (request : option UUID) (complete : bool) (c : Client) : Client :=
  mkClient (coordinator_identity c) (coordinator_ref c) (membership_token c)
    (pending_join_request c) (submissions c) (pending_join_submission c) (join_deadline c) (join_retry_at c)
    (join_complete c) request complete (heartbeat_sequence c) (last_heartbeat_ack c)
    (next_reassociation c) (reassociation_failures c).
Definition set_heartbeat (next acked : Z) (c : Client) : Client :=
  mkClient (coordinator_identity c) (coordinator_ref c) (membership_token c)
    (pending_join_request c) (submissions c) (pending_join_submission c) (join_deadline c) (join_retry_at c)
    (join_complete c) (pending_leave_request c) (leave_complete c) next acked
    (next_reassociation c) (reassociation_failures c).
Definition set_reassociation (next failures : Z) (c : Client) : Client :=
  mkClient (coordinator_identity c) (coordinator_ref c) (membership_token c)
    (pending_join_request c) (submissions c) (pending_join_submission c) (join_deadline c) (join_retry_at c)
    (join_complete c) (pending_leave_request c) (leave_complete c) (heartbeat_sequence c)
    (last_heartbeat_ack c) next failures.

(** * Members and events *)

(** [_publish_member_changes_locked]: the events of one member. *)
Definition status_event (s : MemberStatus) : option ClusterEventKind :=
  match s with
  | UP => Some MEMBER_UP | LEAVING => Some MEMBER_LEAVING | LEFT => Some MEMBER_LEFT
  | JOINING => None
  end.
Definition _publish_member_changes_locked (previous : option ClusterMember)
    (m : ClusterMember) (at_revision : Z) : list ClusterEvent :=
  let publish kind := [mkEvent kind m at_revision] in
  match previous with
  | None => if bool_decide (cm_status m = UP) then publish MEMBER_UP else []
  | Some p =>
      (if bool_decide (cm_status p = cm_status m) then []
       else match status_event (cm_status m) with Some k => publish k | None => [] end) ++
      (if bool_decide (cm_reachability p = cm_reachability m) then []
       else publish (match cm_reachability m with
                     | REACHABLE => MEMBER_REACHABLE | UNREACHABLE => MEMBER_UNREACHABLE end))
  end.

Definition publish (es : list ClusterEvent) (v : View) : View :=
  mkView (revision v) (view_revision v) (members v) (events v ++ es) (retired_identities v)
    (authoritative_snapshot v).

Definition _replace_member_locked (m : ClusterMember) (v : View) : View :=
  let previous := dict_get (members v) (cm_identity m) in
  if bool_decide (previous = Some m) then v
  else
    let v1 := with_members (dict_set (members v) (cm_identity m) m) v in
    publish (_publish_member_changes_locked previous m (view_revision v1)) v1.

(** [_publish_snapshot_changes_locked]. *)
Definition _publish_snapshot_changes_locked (previous current : dict MemberIdentity ClusterMember)
    (v : View) : View :=
  publish (sorted_members current.*2 ≫= fun m =>
             _publish_member_changes_locked (dict_get previous (cm_identity m)) m
               (view_revision v)) v.

Definition _revoke_member_locked (i : MemberIdentity) (s : Runtime) : Runtime :=
  let left := match dict_get (members (view s)) i with
              | Some m => bool_decide (cm_status m = LEFT)
              | None => false
              end in
  with_tables (fun t =>
    mkTables (dict_pop (member_tokens t) i) (dict_pop (member_refs t) i)
      (dict_pop (last_heartbeat_sequence t) i) (dict_pop (last_evidence t) i)
      (dict_pop (pending_joins t) i)
      (if left then left_order t ++ [i] else left_order t)) s.

(** [_members.pop(i)] with [_view_revision += 1]. *)
Definition drop_member (i : MemberIdentity) (s : Runtime) : Runtime :=
  with_view (fun v => with_members (dict_pop (members v) i) v) s.

(** The loop of [_reserve_member_capacity_locked]; [order] is what is left of
    [_left_order]. *)
Fixpoint reserve_loop (limit retired_limit : Z) (order : list MemberIdentity) (s : Runtime) :
    bool * Runtime :=
  let s := with_tables (set_left_order order) s in
  if len (members (view s)) <? limit then (true, s)
  else match order with
  | [] => (false, s)
  | i :: rest =>
      let s1 := with_tables (set_left_order rest) s in
      let is_left := match dict_get (members (view s)) i with
                     | Some m => bool_decide (cm_status m = LEFT)
                     | None => false
                     end in
      if is_left then
        if negb (bool_decide (i ∈ retired_identities (view s)))
           && (retired_limit <=? Z.of_nat (size (retired_identities (view s))))
        then (false, s1)
        else reserve_loop limit retired_limit rest
               (_revoke_member_locked i (drop_member i
                  (with_view (fun v => with_retired ({[i]} ∪ retired_identities v) v) s1)))
      else reserve_loop limit retired_limit rest s1
  end.
Definition _reserve_member_capacity_locked (self : ClusterSetup) (s : Runtime) : bool * Runtime :=
  reserve_loop (member_limit (su_config self)) (retired_identity_limit (su_config self))
    (left_order (tables s)) s.

Definition dict_eqb {K V} `{EqDecision K, EqDecision V} (d e : dict K V) : bool :=
  (length d =? length e)%nat && forallb (fun p => bool_decide (dict_get e p.1 = Some p.2)) d.

(** * The world around a runtime *)

Class ClusterEnv (W : Type) := {
  clock : W -> Z * W;
  uuid4 : W -> UUID * W;
  tell : Ref -> control -> W -> result unit * W;
  associate : pystr -> W -> result (option UUID) * W;
  resolve_control : ActorPath -> W -> result Ref * W;
  spawn_control : W -> result ActorIdentity * W;
  await_control_start : ActorIdentity -> W -> result unit * W;
  stop_control : ActorIdentity -> W -> result unit * W;
  try_join_send_lock : W -> bool * W;
}.

Section runtime.
Context (ip_unspecified : pystr -> bool) (IPv6Address : pystr -> option pystr).
Context (UUID_of : pystr -> option Z) {W : Type} `{ClusterEnv W}.
Context (self : ClusterSetup).

Abbreviation L := (Eff Runtime exn).
Abbreviation M := (Eff (Runtime * W) exn).

Definition lift {A} (r : result A) : L A :=
  match r with Ok a => ret a | Err e => raise e end.

Definition _targets_self (cluster_name : pystr) (target : UUID) : bool :=
  bool_decide (cluster_name = cc_name (su_config self))
  && bool_decide (target = su_incarnation_uid self).

Definition _control_path (system_name : pystr) (endpoint : Endpoint) : result ActorPath :=
  Address_new IPv6Address (lit "movie") system_name (Some (ep_host endpoint))
    (Some (ep_port endpoint)) ≫= fun a =>
  child UUID_of (RootActorPath a) _CONTROL_ACTOR_NAME.

Definition wire_member (m : ClusterMember) : _WireMember :=
  mkWireMember (mi_system_name (cm_identity m)) (mi_incarnation_uid (cm_identity m))
    (ep_host (cm_endpoint m)) (ep_port (cm_endpoint m)) (status_value (cm_status m))
    (reachability_value (cm_reachability m)).

(** [_WireMember(...)] for each member, in the order of the sort. *)
Fixpoint check_wire (ms : list _WireMember) : result (list _WireMember) :=
  match ms with
  | [] => Ok []
  | m :: rest =>
      WireMember_check ip_unspecified IPv6Address m ≫= fun _ =>
      check_wire rest ≫= fun ms => Ok (m :: ms)
  end.
Definition wire_members (s : Runtime) : list _WireMember :=
  wire_member <$> sorted_members (members (view s)).*2.
Definition _wire_snapshot_locked : L (Z * list _WireMember) :=
  s <-- get ;;
  ms <-- lift (check_wire (wire_members s)) ;;
  ret (revision (view s), ms).

(** The messages of this system to the incarnation [target]. *)
Definition join_accepted (target request token : UUID) (snapshot : Z * list _WireMember) : control :=
  JoinAccepted (mkJoinAccepted (cc_name (su_config self)) (su_system_name self)
    (su_incarnation_uid self) target request token snapshot.1 snapshot.2).
Definition heartbeat_ack (target token : UUID) (sequence : Z) (snapshot : Z * list _WireMember) :
    control :=
  HeartbeatAck (mkHeartbeatAck (cc_name (su_config self)) (su_system_name self)
    (su_incarnation_uid self) target token sequence snapshot.1 snapshot.2).
Definition membership_update (target token : UUID) (snapshot : Z * list _WireMember) : control :=
  MembershipUpdate (mkMembershipUpdate (cc_name (su_config self)) (su_system_name self)
    (su_incarnation_uid self) target token snapshot.1 snapshot.2).
Definition leave_ack (target request : UUID) (snapshot : Z * list _WireMember) : control :=
  LeaveAck (mkLeaveAck (cc_name (su_config self)) (su_system_name self)
    (su_incarnation_uid self) target request snapshot.1 snapshot.2).
Definition join_confirm (target request token : UUID) : control :=
  JoinConfirm (mkJoinConfirm (cc_name (su_config self)) (su_system_name self)
    (su_incarnation_uid self) target request token).
Definition heartbeat (target token : UUID) (sequence : Z) : control :=
  Heartbeat (mkHeartbeat (cc_name (su_config self)) (su_system_name self)
    (su_incarnation_uid self) target token sequence).
Definition leave_message (target token request : UUID) : control :=
  Leave (mkLeave (cc_name (su_config self)) (su_system_name self)
    (su_incarnation_uid self) target token request).

(** What a block captured to be told once the lock is released. *)
Abbreviation mail := (list (Ref * control)) (only parsing).

(** The properties [membership] and [is_joined]. *)
Definition membership (s : Runtime) : result MembershipSnapshot :=
  MembershipSnapshot_new (cc_name (su_config self)) (view_revision (view s)) (self_identity self)
    (members (view s)).*2.
Definition is_joined (s : Runtime) : result bool :=
  match dict_get (members (view s)) (self_identity self) with
  | Some m => Ok (bool_decide (cm_status m = UP))
  | None => Err KeyError
  end.

Definition accepting (s : Runtime) : bool :=
  match rt_state (life s) with STARTING | RUNNING => true | _ => false end.

(** * The coordinator's blocks *)

Definition same_name_active (i : MemberIdentity) (s : Runtime) : bool :=
  existsb (fun p => bool_decide (mi_system_name (cm_identity p.2) = mi_system_name i)
                    && negb (bool_decide (cm_identity p.2 = i))
                    && negb (bool_decide (cm_status p.2 = LEFT))) (members (view s)).

(** Why a join request is ignored. *)
Definition join_refused (i : MemberIdentity) (request : UUID) (s : Runtime) : bool :=
  same_name_active i s
  || bool_decide (i ∈ retired_identities (view s))
  || match dict_get (members (view s)) i with
     | Some m => negb (bool_decide (cm_status m = JOINING)) | None => false end
  || match dict_get (pending_joins (tables s)) i with
     | Some p => negb (bool_decide (p.1 = request)) | None => false end.

(** The tables of a member whose request is accepted; [token] is its token or a new one. *)
Definition admit_tables (i : MemberIdentity) (r : Ref) (token : UUID) (now : Z) (t : Tables) : Tables :=
  let t := set_token i token t in
  let t := set_ref i r t in
  let t := set_evidence i now t in
  if dict_has (last_heartbeat_sequence t) i then t else set_sequence i (-1) t.

Definition join_request_locked (m : _JoinRequest) (i : MemberIdentity) (endpoint : Endpoint)
    (fresh : UUID) (now deadline : Z) : L mail :=
  s <-- get ;;
  if negb (accepting s) || join_refused i (jr_request_id m) s then ret []
  else
    let existing := dict_get (members (view s)) i in
    reserved <-- (match existing with
                  | None => fun s => let '(b, s') := _reserve_member_capacity_locked self s in (Ret b, s')
                  | Some _ => ret true
                  end) ;;
    if negb reserved then ret []
    else
      actor <-- lift (ActorIdentity_new (mi_incarnation_uid i) (jr_source_control_actor_uid m)) ;;
      path <-- lift (_control_path (mi_system_name i) endpoint) ;;
      let reference := mkRef (mi_system_name i) actor path in
      s1 <-- get ;;
      let token := default fresh (dict_get (member_tokens (tables s1)) i) in
      modify (with_tables (admit_tables i reference token now)) ;;;
      (match existing with
       | Some _ => ret tt
       | None =>
           modify (with_view bump_revision) ;;;
           member <-- lift (ClusterMember_new i endpoint JOINING REACHABLE) ;;
           modify (with_view (_replace_member_locked member))
       end) ;;;
      (match dict_get (pending_joins (tables s)) i with
       | Some _ => ret tt
       | None => modify (with_tables (fun t =>
                   set_pending (dict_set (pending_joins t) i (jr_request_id m, deadline)) t))
       end) ;;;
      snapshot <-- _wire_snapshot_locked ;;
      ret [(reference, join_accepted (mi_incarnation_uid i) (jr_request_id m) token snapshot)].

Definition expire_locked (i : MemberIdentity) (request : UUID) (s : Runtime) : Runtime :=
  match dict_get (pending_joins (tables s)) i, dict_get (members (view s)) i with
  | Some p, Some m =>
      if bool_decide (p.1 = request) && bool_decide (cm_status m = JOINING) then
        with_view bump_revision (_revoke_member_locked i (drop_member i
          (with_tables (fun t => set_pending (dict_pop (pending_joins t) i) t) s)))
      else s
  | _, _ => s
  end.

Definition join_confirm_locked (m : _JoinConfirm) (i : MemberIdentity) (now now' : Z) : L bool :=
  s <-- get ;;
  if negb (accepting s) then ret false
  else match dict_get (members (view s)) i, dict_get (pending_joins (tables s)) i with
  | Some member, Some p =>
      if bool_decide (cm_status member = JOINING)
         && bool_decide (p.1 = jc_request_id m) && negb (p.2 <? now)
         && bool_decide (dict_get (member_tokens (tables s)) i = Some (jc_membership_token m))
      then
        modify (with_tables (fun t =>
          set_evidence i now' (set_pending (dict_pop (pending_joins t) i) t))) ;;;
        modify (with_view (fun v => _replace_member_locked (with_status UP member) (bump_revision v))) ;;;
        ret true
      else ret false
  | _, _ => ret false
  end.

(** [_handle_heartbeat]'s block: what to answer, and whether to tell the others. *)
Definition heartbeat_locked (m : _Heartbeat) (i : MemberIdentity) (now : Z) : L (mail * bool) :=
  s <-- get ;;
  match dict_get (members (view s)) i, dict_get (member_refs (tables s)) i with
  | Some member, Some reference =>
      if negb (bool_decide (cm_status member = UP))
         || negb (bool_decide (dict_get (member_tokens (tables s)) i = Some (hb_membership_token m)))
         || (hb_sequence m <=? default (-1) (dict_get (last_heartbeat_sequence (tables s)) i))
      then ret ([], false)
      else
        modify (with_tables (fun t => set_evidence i now (set_sequence i (hb_sequence m) t))) ;;;
        let became_reachable := bool_decide (cm_reachability member = UNREACHABLE) in
        when became_reachable
          (modify (with_view (fun v =>
             _replace_member_locked (with_reachability REACHABLE member) (bump_revision v)))) ;;;
        snapshot <-- _wire_snapshot_locked ;;
        ret ([(reference, heartbeat_ack (mi_incarnation_uid i) (hb_membership_token m)
                 (hb_sequence m) snapshot)], became_reachable)
  | _, _ => ret ([], false)
  end.

(** One member of the loop of [_detect_unreachable_members]. *)
Definition detect_member (now : Z) (p : MemberIdentity * ClusterMember) (s : bool * Runtime) :
    bool * Runtime :=
  let '(i, m) := p in
  if bool_decide (i = self_identity self) || negb (bool_decide (cm_status m = UP))
     || bool_decide (cm_reachability m = UNREACHABLE) then s
  else if now - default now (dict_get (last_evidence (tables s.2)) i)
            <? unreachable_timeout (su_config self) then s
  else (true, with_view (fun v =>
                _replace_member_locked (with_reachability UNREACHABLE m) (bump_revision v)) s.2).
Definition detect_members_locked (now : Z) (s : Runtime) : bool * Runtime :=
  foldl (fun acc p => detect_member now p acc) (false, s) (members (view s)).

(** The two blocks of [_handle_leave]. *)
Definition leave_locked (m : _Leave) (i : MemberIdentity) (s : Runtime) :
    option (Ref * bool) * Runtime :=
  match dict_get (members (view s)) i, dict_get (member_refs (tables s)) i with
  | Some member, Some reference =>
      if negb (bool_decide (dict_get (member_tokens (tables s)) i = Some (lv_membership_token m)))
      then (None, s)
      else if bool_decide (cm_status member = UP)
      then (Some (reference, true),
            with_view (fun v => _replace_member_locked (with_status LEAVING member) (bump_revision v)) s)
      else (Some (reference, false), s)
  | _, _ => (None, s)
  end.
Definition left_locked (m : _Leave) (i : MemberIdentity) (reference : Ref) : L mail :=
  s <-- get ;;
  member <-- lift (match dict_get (members (view s)) i with
                   | Some m => Ok m | None => Err KeyError end) ;;
  when (negb (bool_decide (cm_status member = LEFT)))
    (modify (with_view (fun v => _replace_member_locked (with_status LEFT member) (bump_revision v)))) ;;;
  snapshot <-- _wire_snapshot_locked ;;
  modify (_revoke_member_locked i) ;;;
  ret [(reference, leave_ack (mi_incarnation_uid i) (lv_request_id m) snapshot)].

(** [down] under its lock: [true] when the member was downed. *)
Definition down_locked (i : MemberIdentity) : L bool :=
  s <-- get ;;
  if negb (bool_decide (rt_state (life s) = RUNNING)) then raise ClusterError
  else match dict_get (members (view s)) i with
  | None => ret false
  | Some member =>
      if bool_decide (cm_status member = LEFT) then ret false
      else if negb (bool_decide (cm_status member = UP)) then raise ClusterError
      else if negb (bool_decide (cm_reachability member = UNREACHABLE)) then raise ClusterError
      else
        modify (with_view (fun v => _replace_member_locked (with_status LEFT member) (bump_revision v))) ;;;
        modify (_revoke_member_locked i) ;;;
        ret true
  end.

(** [_form_cluster], and the blocks of [_coordinator_leave]. *)
Definition set_self_status (x : MemberStatus) (bump : bool) : L unit :=
  s <-- get ;;
  member <-- lift (match dict_get (members (view s)) (self_identity self) with
                   | Some m => Ok m | None => Err KeyError end) ;;
  modify (with_view (fun v =>
    _replace_member_locked (with_status x member) (if bump then bump_revision v else v))).
Definition form_locked : L unit :=
  set_self_status UP true ;;; modify (with_client set_join_complete).

(** [_broadcast_membership]: one update for every member that has a reference and a token. *)
Definition updates (exclude : option MemberIdentity) (snapshot : Z * list _WireMember)
    (s : Runtime) : mail :=
  member_refs (tables s) ≫= fun p =>
    if bool_decide (Some p.1 = exclude) then []
    else match dict_get (member_tokens (tables s)) p.1 with
         | None => []
         | Some token => [(p.2, membership_update (mi_incarnation_uid p.1) token snapshot)]
         end.
Definition broadcast_locked (exclude : option MemberIdentity) : L mail :=
  snapshot <-- _wire_snapshot_locked ;;
  s <-- get ;;
  ret (updates exclude snapshot s).

(** * A member's blocks *)

Definition _valid_coordinator_message_locked (cluster_name source_system_name : pystr)
    (source_incarnation_uid target_incarnation_uid : UUID) (source : MemberIdentity)
    (token : option UUID) (s : Runtime) : bool :=
  _targets_self cluster_name target_incarnation_uid
  && match coordinator_identity (client s) with
     | None => false
     | Some i =>
         bool_decide (source = i)
         && bool_decide (source_system_name = mi_system_name i)
         && bool_decide (source_incarnation_uid = mi_incarnation_uid i)
         && match token with
            | None => true
            | Some t => bool_decide (membership_token (client s) = Some t)
            end
     end.

(** The loop of [_apply_wire_snapshot_locked]; [None] is its [return False]. *)
Fixpoint convert_members (ms : list _WireMember) (converted : dict MemberIdentity ClusterMember) :
    result (option (dict MemberIdentity ClusterMember)) :=
  match ms with
  | [] => Ok (Some converted)
  | w :: rest =>
      MemberIdentity_new (wm_system_name w) (wm_incarnation_uid w) ≫= fun i =>
      Endpoint_new (wm_host w) (wm_port w) ≫= fun endpoint =>
      let seed := cc_seed (su_config self) in
      if bool_decide (i = self_identity self) && negb (bool_decide (endpoint = su_endpoint self))
      then Ok None
      else if negb (bool_decide (i = self_identity self))
              && bool_decide (mi_system_name i = seed_system_name seed)
              && negb (bool_decide (endpoint = seed_endpoint seed))
      then Ok None
      else
        status_of (wm_status w) ≫= fun status =>
        reachability_of (wm_reachability w) ≫= fun reachability =>
        ClusterMember_new i endpoint status reachability ≫= fun m =>
        convert_members rest (dict_set converted i m)
  end.

(** [LEFT] members that the snapshot no longer lists. *)
Definition newly_retired (v : View) (converted : dict MemberIdentity ClusterMember) :
    gset MemberIdentity :=
  list_to_set (fst <$> filter (fun p => cm_status p.2 = LEFT /\ dict_get converted p.1 = None)
                         (members v)).

(** Whether the snapshot brings back a member that had left. *)
Definition resurrects (v : View) (converted : dict MemberIdentity ClusterMember) : bool :=
  existsb (fun p => negb (bool_decide (cm_status p.2 = LEFT))
                    && (bool_decide (p.1 ∈ retired_identities v)
                        || bool_decide ((cm_status <$> dict_get (members v) p.1) = Some LEFT)))
    converted.

(** A system that is leaving keeps its own word on that. *)
Definition keep_own_status (v : View) (self_member : ClusterMember)
    (converted : dict MemberIdentity ClusterMember) :
    result (dict MemberIdentity ClusterMember) :=
  match dict_get (members v) (self_identity self) with
  | None => Err KeyError
  | Some current =>
      Ok (match cm_status current with
          | LEAVING | LEFT =>
              dict_set converted (self_identity self) (with_status (cm_status current) self_member)
          | _ => converted
          end)
  end.

(** What [_apply_wire_snapshot_locked] stores. *)
Definition adopt (rev : Z) (ms : list _WireMember)
    (converted : dict MemberIdentity ClusterMember) (v : View) : View :=
  let changed := negb (dict_eqb (members v) converted) in
  let v' := mkView rev (if changed then view_revision v + 1 else view_revision v) converted
              (events v) (retired_identities v ∪ newly_retired v converted) (Some ms) in
  _publish_snapshot_changes_locked (members v) converted v'.

Definition _apply_wire_snapshot_locked (rev : Z) (ms : list _WireMember) : L bool :=
  s <-- get ;;
  let v := view s in
  if (rev <? revision v) || (member_limit (su_config self) <? len ms) then ret false
  else if (rev =? revision v) && bool_decide (is_Some (authoritative_snapshot v))
  then ret (bool_decide (authoritative_snapshot v = Some ms))
  else
    converted <-- lift (convert_members ms []) ;;
    match converted with
    | None => ret false
    | Some converted =>
        match dict_get converted (self_identity self), coordinator_identity (client s) with
        | Some self_member, Some coordinator =>
            if negb (dict_has converted coordinator)
               || (retired_identity_limit (su_config self)
                     <? Z.of_nat (size (retired_identities v ∪ newly_retired v converted)))
               || resurrects v converted
            then ret false
            else
              converted <-- lift (keep_own_status v self_member converted) ;;
              modify (with_view (adopt rev ms converted)) ;;;
              ret true
        | _, _ => ret false
        end
    end.

(** [self._last_evidence[self._coordinator_identity] = now]. *)
Definition note_coordinator (now : Z) (s : Runtime) : Runtime :=
  match coordinator_identity (client s) with
  | Some i => with_tables (set_evidence i now) s
  | None => s
  end.

Definition _mark_coordinator_reachable_locked (s : Runtime) : Runtime :=
  match coordinator_identity (client s) with
  | None => s
  | Some i =>
      match dict_get (members (view s)) i with
      | Some m =>
          if bool_decide (cm_reachability m = UNREACHABLE)
          then with_view (_replace_member_locked (with_reachability REACHABLE m)) s else s
      | None => s
      end
  end.

Definition _complete_join_if_up_locked : L unit :=
  s <-- get ;;
  if bool_decide (pending_join_request (client s) = None) then ret tt
  else
    member <-- lift (match dict_get (members (view s)) (self_identity self) with
                     | Some m => Ok m | None => Err KeyError end) ;;
    when (bool_decide (cm_status member = UP)) (modify (with_client set_joined)).

Definition join_accepted_locked (m : _JoinAccepted) (source : MemberIdentity) (now : Z) : L bool :=
  s <-- get ;;
  if is_coordinator self
     || negb (_valid_coordinator_message_locked (ja_cluster_name m) (ja_source_system_name m)
                (ja_source_incarnation_uid m) (ja_target_incarnation_uid m) source None s)
     || negb (bool_decide (pending_join_request (client s) = Some (ja_request_id m)))
  then ret false
  else
    applied <-- _apply_wire_snapshot_locked (ja_revision m) (ja_members m) ;;
    if negb applied then ret false
    else
      modify (with_client (set_membership_token (ja_membership_token m))) ;;;
      modify (note_coordinator now) ;;;
      match coordinator_identity (client s) with
      | None => ret false
      | Some i =>
          modify (with_client (submit_control
            (join_confirm (mi_incarnation_uid i) (ja_request_id m) (ja_membership_token m)))) ;;;
          ret true
      end.

Definition heartbeat_ack_locked (m : _HeartbeatAck) (source : MemberIdentity) (now : Z) : L unit :=
  s <-- get ;;
  if is_coordinator self
     || negb (_valid_coordinator_message_locked (hk_cluster_name m) (hk_source_system_name m)
                (hk_source_incarnation_uid m) (hk_target_incarnation_uid m) source
                (Some (hk_membership_token m)) s)
     || (hk_sequence m <=? last_heartbeat_ack (client s))
     || (heartbeat_sequence (client s) <=? hk_sequence m)
  then ret tt
  else
    applied <-- _apply_wire_snapshot_locked (hk_revision m) (hk_members m) ;;
    if negb applied then ret tt
    else
      modify (with_client (fun c =>
        set_reassociation 0 0 (set_heartbeat (heartbeat_sequence c) (hk_sequence m) c))) ;;;
      modify (note_coordinator now) ;;;
      modify _mark_coordinator_reachable_locked ;;;
      _complete_join_if_up_locked.

Definition membership_update_locked (m : _MembershipUpdate) (source : MemberIdentity) (now : Z) :
    L unit :=
  s <-- get ;;
  if negb (_valid_coordinator_message_locked (mu_cluster_name m) (mu_source_system_name m)
             (mu_source_incarnation_uid m) (mu_target_incarnation_uid m) source
             (Some (mu_membership_token m)) s)
  then ret tt
  else
    applied <-- _apply_wire_snapshot_locked (mu_revision m) (mu_members m) ;;
    when applied
      (modify (note_coordinator now) ;;;
       modify _mark_coordinator_reachable_locked ;;;
       _complete_join_if_up_locked).

Definition leave_ack_locked (m : _LeaveAck) (source : MemberIdentity) : L unit :=
  s <-- get ;;
  if is_coordinator self
     || negb (_valid_coordinator_message_locked (la_cluster_name m) (la_source_system_name m)
                (la_source_incarnation_uid m) (la_target_incarnation_uid m) source None s)
     || negb (bool_decide (pending_leave_request (client s) = Some (la_request_id m)))
  then ret tt
  else
    _apply_wire_snapshot_locked (la_revision m) (la_members m) ;;;
    modify (with_client (set_leave None true)).

Definition detect_coordinator_locked (now : Z) (s : Runtime) : Runtime :=
  match coordinator_identity (client s) with
  | None => s
  | Some i =>
      match dict_get (members (view s)) i with
      | None => s
      | Some m =>
          if negb (bool_decide (cm_status m = UP))
             || bool_decide (cm_reachability m = UNREACHABLE)
             || (now - default now (dict_get (last_evidence (tables s)) i)
                   <? unreachable_timeout (su_config self))
          then s
          else with_view (_replace_member_locked (with_reachability UNREACHABLE m)) s
      end
  end.

(** [_send_heartbeat]'s block. *)
Definition next_heartbeat_locked (s : Runtime) : mail * Runtime :=
  let c := client s in
  match coordinator_ref c, coordinator_identity c, membership_token c with
  | Some reference, Some i, Some token =>
      ([(reference, heartbeat (mi_incarnation_uid i) token (heartbeat_sequence c))],
       with_client (fun c => set_heartbeat (heartbeat_sequence c + 1) (last_heartbeat_ack c) c) s)
  | _, _, _ => ([], s)
  end.

(** The first block of [_member_leave]. *)
Definition member_leave_locked (request : UUID) : L mail :=
  set_self_status LEAVING false ;;;
  s <-- get ;;
  modify (with_client (set_leave (Some request) false)) ;;;
  let c := client s in
  match coordinator_ref c, coordinator_identity c, membership_token c with
  | Some reference, Some i, Some token =>
      ret [(reference, leave_message (mi_incarnation_uid i) token request)]
  | _, _, _ => ret []
  end.
(** Its last block, and the last block of [_stop_before_locked]. *)
Definition member_left_locked : L unit :=
  s <-- get ;;
  member <-- lift (match dict_get (members (view s)) (self_identity self) with
                   | Some m => Ok m | None => Err KeyError end) ;;
  when (negb (bool_decide (cm_status member = LEFT))) (set_self_status LEFT false).
Definition stop_finished_locked : L unit :=
  member_left_locked ;;; modify (with_life (set_state STOPPED)).

(** * Handlers *)

(** [with self._condition]: a block. *)
Definition locked {A} (block : L A) : M A :=
  fun s => let '(o, r) := block s.1 in (o, (r, s.2)).
Definition read {A} (f : Runtime -> A) : M A := locked (s <-- get ;; ret (f s)).
Definition section {A} (f : Runtime -> A * Runtime) : L A := fun s => let '(a, s') := f s in (Ret a, s').
Definition draw {A} (op : W -> A * W) : M A := fun s => let '(a, w) := op s.2 in (Ret a, (s.1, w)).
Definition call {A} (op : W -> result A * W) : M A :=
  fun s => let '(r, w) := op s.2 in
           (match r with Ok a => Ret a | Err e => Raise e end, (s.1, w)).
Definition given {A} (r : result A) : M A := locked (lift r).
(** [reference.tell(Message(...))]: the message checks itself when it is made. *)
Definition send (m : Ref * control) : M unit :=
  given (control_check ip_unspecified IPv6Address m.2) ;;; call (tell m.1 m.2).
Definition best_effort (m : M unit) : M unit := catch m (fun _ => ret tt).

Definition _broadcast_membership (exclude : option MemberIdentity) : M unit :=
  ms <-- locked (broadcast_locked exclude) ;;
  for_each ms (fun m => best_effort (send m)).

Definition _expire_provisional_join (i : MemberIdentity) (request : UUID) : M unit :=
  locked (modify (expire_locked i request)).
Definition expired (now : Z) (s : Runtime) : list (MemberIdentity * UUID) :=
  (fun p => (p.1, p.2.1)) <$> filter (fun p => p.2.2 <= now) (pending_joins (tables s)).
Definition _expire_provisional_joins (now : Z) : M unit :=
  ps <-- read (expired now) ;;
  for_each ps (fun p => _expire_provisional_join p.1 p.2).

Definition _handle_join_request (m : _JoinRequest) (source : MemberIdentity)
    (source_endpoint : Endpoint) : M unit :=
  if negb (is_coordinator self)
     || negb (_targets_self (jr_cluster_name m) (jr_target_incarnation_uid m))
     || negb (bool_decide (jr_config_fingerprint m = su_fingerprint self))
  then ret tt
  else
    endpoint <-- given (Endpoint_new (jr_source_host m) (jr_source_port m)) ;;
    i <-- given (MemberIdentity_new (jr_source_system_name m) (jr_source_incarnation_uid m)) ;;
    if negb (bool_decide (source = i)) || negb (bool_decide (source_endpoint = endpoint))
       || negb (bool_decide (dict_get (su_peers self) (jr_source_system_name m) = Some endpoint))
    then ret tt
    else
      fresh <-- draw uuid4 ;;
      now <-- draw clock ;;
      now' <-- draw clock ;;
      ms <-- locked (join_request_locked m i endpoint fresh now (now' + join_timeout (su_config self))) ;;
      for_each ms (fun msg =>
        catch (send msg) (fun _ => _expire_provisional_join i (jr_request_id m))).

(** The check that a message of a member comes from it. *)
Definition from_member (cluster_name : pystr) (target : UUID) (system_name : pystr) (uid : UUID)
    (source : MemberIdentity) (handle : MemberIdentity -> M unit) : M unit :=
  if negb (is_coordinator self) || negb (_targets_self cluster_name target) then ret tt
  else
    i <-- given (MemberIdentity_new system_name uid) ;;
    if negb (bool_decide (i = source)) then ret tt else handle i.

Definition _handle_join_confirm (m : _JoinConfirm) (source : MemberIdentity) : M unit :=
  from_member (jc_cluster_name m) (jc_target_incarnation_uid m) (jc_source_system_name m)
    (jc_source_incarnation_uid m) source (fun i =>
    now <-- draw clock ;;
    now' <-- draw clock ;;
    joined <-- locked (join_confirm_locked m i now now') ;;
    when joined (_broadcast_membership None)).

Definition _handle_heartbeat (m : _Heartbeat) (source : MemberIdentity) : M unit :=
  from_member (hb_cluster_name m) (hb_target_incarnation_uid m) (hb_source_system_name m)
    (hb_source_incarnation_uid m) source (fun i =>
    now <-- draw clock ;;
    answer <-- locked (heartbeat_locked m i now) ;;
    sent <-- catch (for_each answer.1 send ;;; ret true) (fun _ => ret false) ;;
    when (sent && answer.2) (_broadcast_membership (Some i))).

Definition _handle_leave (m : _Leave) (source : MemberIdentity) : M unit :=
  from_member (lv_cluster_name m) (lv_target_incarnation_uid m) (lv_source_system_name m)
    (lv_source_incarnation_uid m) source (fun i =>
    found <-- locked (section (leave_locked m i)) ;;
    match found with
    | None => ret tt
    | Some (reference, leaving) =>
        when leaving (_broadcast_membership None) ;;;
        ms <-- locked (left_locked m i reference) ;;
        for_each ms (fun msg => best_effort (send msg)) ;;;
        _broadcast_membership (Some i)
    end).

Definition down (i : MemberIdentity) : M unit :=
  if negb (is_coordinator self) then locked (raise ClusterError)
  else if bool_decide (i = self_identity self) then locked (raise ClusterError)
  else
    downed <-- locked (down_locked i) ;;
    when downed (_broadcast_membership (Some i)).

Definition _detect_unreachable_members (now : Z) : M unit :=
  changed <-- locked (section (detect_members_locked now)) ;;
  when changed (_broadcast_membership None).

Definition _coordinator_leave : M unit :=
  locked (set_self_status LEAVING true) ;;;
  _broadcast_membership None ;;;
  locked (set_self_status LEFT true) ;;;
  _broadcast_membership None.

(** [10 ms] and [50 ms] in ticks of the clock. *)
Context (ten_ms fifty_ms : Z).

(** [_attempt_reassociation]: its first block, and the rest. *)
Definition reassociation_due (now : Z) : L bool :=
  s <-- get ;;
  let c := client s in
  if bool_decide (coordinator_identity c = None) || negb (accepting s)
     || (now <? next_reassociation c) then ret false
  else
    let delay := Z.min (unreachable_timeout (su_config self))
                   (Z.max fifty_ms (heartbeat_interval (su_config self))
                    * 2 ^ Z.min (reassociation_failures c) 6) in
    modify (with_client (set_reassociation (now + delay) (reassociation_failures c))) ;;;
    ret true.
Definition reassociation_failed : L unit :=
  modify (with_client (fun c => set_reassociation (next_reassociation c) (reassociation_failures c + 1) c)).
Definition _attempt_reassociation (now : Z) : M bool :=
  coordinator <-- read (fun s => coordinator_identity (client s)) ;;
  due <-- locked (reassociation_due now) ;;
  if negb due then ret false
  else
    peer <-- catch (uid <-- call (associate (seed_system_name (cc_seed (su_config self)))) ;;
                    ret (Some uid)) (fun _ => ret None) ;;
    match peer with
    | None => locked reassociation_failed ;;; ret false
    | Some uid =>
        if negb (bool_decide (uid = mi_incarnation_uid <$> coordinator))
        then locked reassociation_failed ;;; ret false
        else locked (modify (with_client (set_reassociation 0 0))) ;;; ret true
    end.

(** What [_submit_pending_join_control] sends, if it is due. *)
Definition pending_submission (now : Z) (s : Runtime) : option (nat * control * Ref) :=
  match pending_join_submission (client s), coordinator_ref (client s) with
  | Some (k, m), Some r =>
      if bool_decide (rt_state (life s) = STARTING) && (now <? join_deadline (client s))
      then Some (k, m, r) else None
  | _, _ => None
  end.
Definition is_submission (k : nat) (s : Runtime) : bool :=
  bool_decide (fst <$> pending_join_submission (client s) = Some k).
Definition submitted_locked (k : nat) (s : Runtime) : Runtime :=
  if is_submission k s then with_client clear_submission s else s.
Definition retry_locked (k : nat) (deadline now : Z) (s : Runtime) : Runtime :=
  if is_submission k s
  then with_client (fun c => set_retry_at (Z.min deadline (Z.max (now + ten_ms) (next_reassociation c))) c) s
  else s.
(** [_control_queue.put_nowait(item)]: [false] is [Full]. *)
Definition put_nowait (item : queue_item) (s : Runtime) : bool * Runtime :=
  if len (control_queue s) <? control_queue_capacity (su_config self)
  then (true, with_queue (control_queue s ++ [item]) s) else (false, s).

Fixpoint submit_attempts (attempts : nat) (first : bool) (k : nat) (m : control) (r : Ref)
    (deadline : Z) : M unit :=
  match attempts with
  | O => ret tt
  | S attempts =>
      sent <-- catch (send (r, m) ;;; ret true) (fun _ => ret false) ;;
      if (sent : bool) then locked (modify (submitted_locked k))
      else
        again <-- (if first then now <-- draw clock ;; _attempt_reassociation now else ret false) ;;
        if (again : bool) then submit_attempts attempts false k m r deadline
        else
          now <-- draw clock ;;
          locked (modify (retry_locked k deadline now)) ;;;
          locked (section (put_nowait _WAKE_WORKER)) ;;; ret tt
  end.
Definition _submit_pending_join_control : M unit :=
  free <-- draw try_join_send_lock ;;
  when free
    (now <-- draw clock ;;
     deadline <-- read (fun s => join_deadline (client s)) ;;
     pending <-- read (pending_submission now) ;;
     match pending with
     | None => ret tt
     | Some (k, m, r) => submit_attempts 2 true k m r deadline
     end).

Definition _handle_join_accepted (m : _JoinAccepted) (source : MemberIdentity) : M unit :=
  now <-- draw clock ;;
  accepted <-- locked (join_accepted_locked m source now) ;;
  when accepted _submit_pending_join_control.
Definition _handle_heartbeat_ack (m : _HeartbeatAck) (source : MemberIdentity) : M unit :=
  now <-- draw clock ;; locked (heartbeat_ack_locked m source now).
Definition _handle_membership_update (m : _MembershipUpdate) (source : MemberIdentity) : M unit :=
  now <-- draw clock ;; locked (membership_update_locked m source now).
Definition _handle_leave_ack (m : _LeaveAck) (source : MemberIdentity) : M unit :=
  locked (leave_ack_locked m source).

Definition _handle_control (i : _InboundControl) : M unit :=
  match in_message i with
  | JoinRequest m => _handle_join_request m (in_source i) (in_endpoint i)
  | JoinAccepted m => _handle_join_accepted m (in_source i)
  | JoinConfirm m => _handle_join_confirm m (in_source i)
  | Heartbeat m => _handle_heartbeat m (in_source i)
  | HeartbeatAck m => _handle_heartbeat_ack m (in_source i)
  | MembershipUpdate m => _handle_membership_update m (in_source i)
  | Leave m => _handle_leave m (in_source i)
  | LeaveAck m => _handle_leave_ack m (in_source i)
  end.

Definition _send_heartbeat : M unit :=
  ms <-- locked (section next_heartbeat_locked) ;;
  catch (for_each ms send)
    (fun _ => now <-- draw clock ;; _attempt_reassociation now ;;; ret tt).

Definition _tick (now : Z) : M unit :=
  status <-- locked
    (s <-- get ;;
     if negb (accepting s) then ret None
     else match dict_get (members (view s)) (self_identity self) with
          | Some m => ret (Some (cm_status m))
          | None => raise KeyError
          end) ;;
  match status with
  | None => ret tt
  | Some status =>
      if is_coordinator self
      then when (bool_decide (status = UP)) (_detect_unreachable_members now)
      else
        _submit_pending_join_control ;;;
        when (bool_decide (status = JOINING) || bool_decide (status = UP)) _send_heartbeat ;;;
        when (bool_decide (status = UP)) (locked (modify (detect_coordinator_locked now)))
  end.

(** One iteration of [_run]: what it took from the queue, then the timers. [None] ends the
    loop; otherwise the time of the next tick. *)
Definition take_item (s : Runtime) : option queue_item * Runtime :=
  match control_queue s with
  | [] => (None, s)
  | item :: rest => (Some item, with_queue rest s)
  end.
Definition run_iteration (next_tick : Z) : M (option Z) :=
  item <-- locked (section take_item) ;;
  match item with
  | Some _STOP_WORKER => ret None
  | _ =>
      match item with Some (Inbound i) => _handle_control i | _ => ret tt end ;;;
      now <-- draw clock ;;
      (if is_coordinator self then _expire_provisional_joins now
       else
         retry_at <-- read (fun s => join_retry_at (client s)) ;;
         when (retry_at <=? now) _submit_pending_join_control) ;;;
      if next_tick <=? now
      then _tick now ;;; ret (Some (now + heartbeat_interval (su_config self)))
      else ret (Some next_tick)
  end.
(** What ends the worker with an exception. *)
Definition worker_failed_locked (e : exn) (s : Runtime) : Runtime :=
  match rt_state (life s) with
  | STOPPING | STOPPED => s
  | _ => with_life (fun l => mkLife FAILED (startup_settled l) (Some e) (control_ref l)) s
  end.

(** * Admission, start and stop *)

(** [_admit_remote_control]; [association] is the active association of the message, and
    [targeted] whether the message is addressed to the control actor. *)
Definition targets_control (identity : ActorIdentity) (to_control_path : bool) (s : Runtime) : bool :=
  match control_ref (life s) with
  | Some r => bool_decide (identity = r)
  | None => to_control_path && bool_decide (rt_state (life s) = STARTING)
  end.
Definition admits_control (m : control) (s : Runtime) : bool :=
  match rt_state (life s), m with
  | (STARTING | RUNNING), _ => true
  | STOPPING, (LeaveAck _ | MembershipUpdate _) => true
  | _, _ => false
  end.
Definition _admit_remote_control (identity : ActorIdentity) (m : control) (to_control_path : bool)
    (association : option (pystr * UUID * Endpoint)) : L (option RemoteAdmissionResult.t) :=
  s <-- get ;;
  if negb (targets_control identity to_control_path s) then ret None
  else match association with
  | None => ret (Some RemoteAdmissionResult.ACTOR_NOT_FOUND)
  | Some (name, uid, endpoint) =>
      if negb (admits_control m s) then ret (Some RemoteAdmissionResult.ACTOR_STOPPING)
      else
        source <-- lift (MemberIdentity_new name uid) ;;
        accepted <-- section (put_nowait (Inbound (mkInbound m source endpoint))) ;;
        ret (Some (if accepted : bool then RemoteAdmissionResult.ACCEPTED
                   else RemoteAdmissionResult.MAILBOX_FULL))
  end.

Definition start_begin_locked : L unit :=
  s <-- get ;;
  if negb (bool_decide (rt_state (life s) = NEW)) then raise RuntimeError
  else modify (with_life (set_state STARTING)).
Definition still_starting : L unit :=
  s <-- get ;;
  if bool_decide (rt_state (life s) = STARTING) then ret tt else raise ClusterJoinError.
Definition start_failed_locked (e : exn) (s : Runtime) : Runtime :=
  with_life (fun l =>
    mkLife (match rt_state l with STARTING => FAILED | x => x end) true (Some e) (control_ref l)) s.
Definition start_done_locked : L unit :=
  s <-- get ;;
  modify (with_life (fun l => mkLife (match rt_state l with STARTING => RUNNING | x => x end)
                                true (rt_failure l) (control_ref l))) ;;;
  if bool_decide (rt_state (life s) = STARTING) then ret tt else raise ClusterJoinError.

(** [_associate_coordinator_until] and [_resolve_coordinator_until]: [None] when [fuel]
    attempts did not end them. *)
Definition before_deadline (deadline : Z) : M unit :=
  locked still_starting ;;;
  now <-- draw clock ;;
  when (deadline <=? now) (locked (raise ClusterJoinError)).
Definition attempt {A} (m : M A) : M (option A) :=
  catch (a <-- m ;; ret (Some a)) (fun _ => ret None).
Fixpoint _associate_coordinator_until (fuel : nat) (deadline : Z) : M (option (option UUID)) :=
  match fuel with
  | O => ret None
  | S fuel =>
      before_deadline deadline ;;;
      found <-- attempt (call (associate (seed_system_name (cc_seed (su_config self))))) ;;
      match found with
      | Some uid => ret (Some uid)
      | None => _associate_coordinator_until fuel deadline
      end
  end.
Fixpoint _resolve_coordinator_until (fuel : nat) (deadline : Z) (path : ActorPath) :
    M (option Ref) :=
  match fuel with
  | O => ret None
  | S fuel =>
      before_deadline deadline ;;;
      found <-- attempt (call (resolve_control path)) ;;
      match found with
      | Some r => ret (Some r)
      | None =>
          _associate_coordinator_until (S fuel) deadline ;;;
          _resolve_coordinator_until fuel deadline path
      end
  end.

(** [_join] up to its wait: [false] when [fuel] attempts did not find the coordinator. *)
Definition join_request (peer_uid control_uid request : UUID) : control :=
  JoinRequest (mkJoinRequest (cc_name (su_config self)) (su_fingerprint self) (su_system_name self)
    (su_incarnation_uid self) (ep_host (su_endpoint self)) (ep_port (su_endpoint self))
    control_uid peer_uid request).
Definition send_join_request (peer_uid : UUID) (reference : Ref) (deadline : Z) : M bool :=
  coordinator <-- given (MemberIdentity_new (seed_system_name (cc_seed (su_config self))) peer_uid) ;;
  request_id <-- draw uuid4 ;;
  control <-- read (fun s => control_ref (life s)) ;;
  control <-- given (match control with Some c => Ok c | None => Err ClusterJoinError end) ;;
  let request := join_request peer_uid (actor_uid control) request_id in
  given (control_check ip_unspecified IPv6Address request) ;;;
  locked (modify (with_client (set_coordinator coordinator reference request_id request deadline))) ;;;
  _submit_pending_join_control ;;;
  ret true.
Definition _join (fuel : nat) (deadline : Z) : M bool :=
  catch
    (found <-- _associate_coordinator_until fuel deadline ;;
     match found with
     | None => ret false
     | Some None => locked (raise ClusterJoinError)
     | Some (Some peer_uid) =>
         path <-- given (_control_path (seed_system_name (cc_seed (su_config self)))
                           (seed_endpoint (cc_seed (su_config self)))) ;;
         reference <-- _resolve_coordinator_until fuel deadline path ;;
         match reference with
         | None => ret false
         | Some reference => send_join_request peer_uid reference deadline
         end
     end)
    (fun _ => locked (raise ClusterJoinError)).
(** [_join] when its wait ends. *)
Definition join_waited (s : Runtime) : result unit :=
  match rt_failure (life s) with
  | Some _ => Err ClusterJoinError
  | None => raise_unless (join_complete (client s)) ClusterJoinError
  end.

(** [start] up to the wait of [_join], and after it. *)
Definition start_attempt {A} (m : M A) : M A :=
  catch m (fun e => locked (modify (start_failed_locked e)) ;;; locked (raise e)).
Definition start (fuel : nat) (deadline : Z) : M bool :=
  locked start_begin_locked ;;;
  start_attempt
    (control <-- call spawn_control ;;
     locked (modify (with_life (fun l =>
       mkLife (rt_state l) (startup_settled l) (rt_failure l) (Some control))) ;;; still_starting) ;;;
     call (await_control_start control) ;;;
     when (is_coordinator self) (locked form_locked) ;;;
     locked still_starting ;;;
     if is_coordinator self then ret true else _join fuel deadline).
Definition start_end : M unit :=
  start_attempt (when (negb (is_coordinator self)) (locked (s <-- get ;; lift (join_waited s)))) ;;;
  locked start_done_locked.

(** [_stop_before_locked]: its first block ([true] when there is nothing to do), the part
    after startup has settled, and the end, once the worker was joined. *)
Definition stop_begin_locked (s : Runtime) : bool * Runtime :=
  match rt_state (life s) with
  | STOPPED => (true, s)
  | x => (false, with_life (fun l => mkLife STOPPING (match x with NEW => true | _ => startup_settled l end)
                                       (rt_failure l) (control_ref l)) s)
  end.
Definition can_leave (s : Runtime) : bool :=
  match dict_get (members (view s)) (self_identity self) with
  | None => false
  | Some m =>
      match cm_status m with
      | UP => true
      | JOINING => negb (is_coordinator self) && bool_decide (is_Some (membership_token (client s)))
                   && bool_decide (is_Some (coordinator_ref (client s)))
      | _ => false
      end
  end.
Definition _member_leave : M unit :=
  request <-- draw uuid4 ;;
  ms <-- locked (member_leave_locked request) ;;
  for_each ms (fun m => best_effort (send m)).
Definition stop_leave : M unit :=
  leave <-- read can_leave ;;
  when leave (if is_coordinator self then _coordinator_leave
              else _member_leave ;;; locked member_left_locked) ;;;
  locked (section (put_nowait _STOP_WORKER)) ;;; ret tt.
Definition stop_end : M unit :=
  control <-- read (fun s => control_ref (life s)) ;;
  match control with
  | None => ret tt
  | Some c =>
      call (stop_control c) ;;;
      locked (modify (with_life (fun l => mkLife (rt_state l) (startup_settled l) (rt_failure l) None)))
  end ;;;
  locked stop_finished_locked.
End runtime.
