(* ===== verification/ClusterInv.v ===== *)
(** The membership coordinator: what its tables always satisfy.

    [coord_inv] is the invariant of a coordinator from [_form_cluster] on.  [coord_step] is
    one of its critical sections: the worker's, [down]'s and [stop]'s, in any
    interleaving, with any messages from anyone.  A handler that leaves the lock between two
    sections ([_handle_leave]) keeps what it holds in [c_leaving]. *)

From stdpp Require Import base list numbers strings gmap.
From S2P Require Import Prelude Bytes PyStr Dict Serialization Wire ActorPath Transport.
From S2P Require Import Effects Association Cluster ClusterRuntime.

(** * Replacing a member *)

Lemma replace_members m v :
  members (_replace_member_locked m v) = dict_set (members v) (cm_identity m) m.
Proof.
  unfold _replace_member_locked. case_bool_decide as E; [|done]. by rewrite dict_set_same.
Qed.
Lemma replace_revision m v : revision (_replace_member_locked m v) = revision v.
Proof. unfold _replace_member_locked. by case_bool_decide. Qed.
Lemma replace_retired m v : retired_identities (_replace_member_locked m v) = retired_identities v.
Proof. unfold _replace_member_locked. by case_bool_decide. Qed.
Lemma replace_view_revision m v : view_revision v <= view_revision (_replace_member_locked m v).
Proof. unfold _replace_member_locked. case_bool_decide; cbn; lia. Qed.

(** * What [membership] needs *)

Definition status_at (v : View) (i : MemberIdentity) : option MemberStatus :=
  cm_status <$> dict_get (members v) i.

Record readable (self : ClusterSetup) (v : View) : Prop := {
  rd_keys : NoDup (members v).*1;
  rd_identity : forall i m, dict_get (members v) i = Some m -> cm_identity m = i;
  rd_self : is_Some (dict_get (members v) (self_identity self));
  rd_active : forall i j x y, status_at v i = Some x -> status_at v j = Some y ->
    x <> LEFT -> y <> LEFT -> mi_system_name i = mi_system_name j -> i = j;
  rd_revision : 0 <= view_revision v }.

Lemma keyed_identities (d : list (MemberIdentity * ClusterMember)) :
  NoDup d.*1 -> (forall i m, dict_get d i = Some m -> cm_identity m = i) -> cm_identity <$> d.*2 = d.*1.
Proof.
  intros Hk Hi. rewrite <- list_fmap_compose. apply list_fmap_ext. intros k [i m] Hm.
  apply Hi, dict_elem_get; [done|]. by eapply list_elem_of_lookup_2.
Qed.

Lemma membership_ok self s :
  _validate_name (cc_name (su_config self)) = Ok tt -> readable self (view s) ->
  membership self s = Ok (mkSnapshot (cc_name (su_config self)) (view_revision (view s))
    (self_identity self) (sorted_members (members (view s)).*2)).
Proof.
  intros Hn [Hk Hi Hs Ha Hr]. unfold membership, MembershipSnapshot_new. rewrite Hn. cbn [mbind result_bind].
  rewrite (proj2 (Z.leb_le _ _) Hr). cbn [raise_unless mbind result_bind].
  pose proof (keyed_identities _ Hk Hi) as Hid.
  destruct (check_members_ok (members (view s)).*2 [] []) as (out & Hout & Helem).
  - rewrite app_nil_r, Hid. done.
  - rewrite app_nil_r. apply NoDup_fmap_2_strong.
    + intros m n Hm Hn' E. unfold active_members in Hm, Hn'. apply list_elem_of_filter in Hm as [Hml Hm], Hn' as [Hnl Hn'].
      assert (Hget : forall m, m ∈ (members (view s)).*2 -> dict_get (members (view s)) (cm_identity m) = Some m).
      { intros m' Hm'. apply list_elem_of_fmap in Hm' as ([i m''] & -> & Hm'). cbn.
        apply dict_elem_get in Hm'; [|done]. by rewrite (Hi _ _ Hm'). }
      apply Hget in Hm, Hn'.
      assert (Ei : cm_identity m = cm_identity n).
      { apply (Ha _ _ (cm_status m) (cm_status n)); [unfold status_at; by rewrite Hm|unfold status_at; by rewrite Hn'|done..]. }
      rewrite Ei in Hm. congruence.
    + apply NoDup_filter. apply (NoDup_fmap_1 cm_identity). by rewrite Hid.
  - rewrite Hout. cbn [mbind result_bind]. rewrite bool_decide_eq_true_2; [done|].
    apply Helem. left. rewrite Hid. destruct Hs as [m Hm]. apply dict_get_elem in Hm.
    by apply (list_elem_of_fmap_2 fst _ (self_identity self, m)).
Qed.

Section coordinator.
Context (ip_unspecified : pystr -> bool) (IPv6Address : pystr -> option pystr).
Context (UUID_of : pystr -> option Z) (self : ClusterSetup).

Abbreviation me := (self_identity self).
Abbreviation cfg := (su_config self).

(** An endpoint the protocol can carry. *)
Definition wire_endpoint (e : Endpoint) : Prop :=
  wire_host ip_unspecified IPv6Address (ep_host e) = Ok tt /\ wire_port (ep_port e) = Ok tt.

(** What the configuration guarantees: it was validated, and the endpoints of this system and
    of its peers can be carried and addressed. *)
Record config_ok : Prop := {
  co_config : ClusterConfig_check cfg = Ok cfg;
  co_valid : _validate_configuration self = Ok true;
  co_endpoint : wire_endpoint (su_endpoint self);
  co_peers : forall name e, dict_get (su_peers self) name = Some e ->
    _is_remote_name name = true ->
    wire_endpoint e /\ exists path, _control_path IPv6Address UUID_of name e = Ok path }.

(** Members that hold a token. *)
Definition tokened (v : View) (i : MemberIdentity) : Prop :=
  i <> me /\ exists x, status_at v i = Some x /\ x <> LEFT.

Record coord_inv (v : View) (t : Tables) : Prop := {
  ci_keys : NoDup (members v).*1;
  ci_identity : forall i m, dict_get (members v) i = Some m -> cm_identity m = i;
  ci_self : exists m, dict_get (members v) me = Some m /\ cm_status m <> JOINING;
  ci_active : forall i j x y, status_at v i = Some x -> status_at v j = Some y ->
    x <> LEFT -> y <> LEFT -> mi_system_name i = mi_system_name j -> i = j;
  ci_limit : len (members v) <= member_limit cfg;
  ci_retired : forall i, i ∈ retired_identities v -> dict_get (members v) i = None;
  ci_retired_limit : Z.of_nat (size (retired_identities v)) <= retired_identity_limit cfg;
  ci_wire : forall i m, dict_get (members v) i = Some m ->
    WireMember_check ip_unspecified IPv6Address (wire_member m) = Ok tt;
  ci_pending : forall i, is_Some (dict_get (pending_joins t) i) <->
    i <> me /\ status_at v i = Some JOINING;
  ci_tokens : forall i, is_Some (dict_get (member_tokens t) i) <-> tokened v i;
  ci_refs : forall i, is_Some (dict_get (member_refs t) i) <-> tokened v i;
  ci_ref_keys : NoDup (member_refs t).*1;
  ci_revision : 0 <= revision v /\ 0 <= view_revision v }.

(** The parts of the tables the invariant reads. *)
Definition same_tables (t t' : Tables) : Prop :=
  member_tokens t' = member_tokens t /\ member_refs t' = member_refs t /\
  pending_joins t' = pending_joins t.

Lemma status_set v v' i m j :
  members v' = dict_set (members v) i m ->
  status_at v' j = if decide (j = i) then Some (cm_status m) else status_at v j.
Proof. intros E. unfold status_at. rewrite E, dict_get_set. by case_decide. Qed.
Lemma status_pop v v' i j :
  members v' = dict_pop (members v) i ->
  status_at v' j = if decide (j = i) then None else status_at v j.
Proof. intros E. unfold status_at. rewrite E, dict_get_pop. by case_decide. Qed.

(** Two members of one system differ on the wire in what may change only. *)
Lemma wire_check_update m m' :
  cm_identity m' = cm_identity m -> cm_endpoint m' = cm_endpoint m ->
  WireMember_check ip_unspecified IPv6Address (wire_member m) = Ok tt ->
  WireMember_check ip_unspecified IPv6Address (wire_member m') = Ok tt.
Proof.
  intros Ei Ee. unfold WireMember_check, wire_member. cbn. rewrite Ei, Ee.
  destruct (wire_name _) as [[]|]; [|done]. destruct (wire_uuid _) as [[]|]; [|done].
  destruct (wire_host _ _ _) as [[]|]; [|done]. destruct (wire_port _) as [[]|]; [|done]. cbn.
  by destruct (cm_status m'), (cm_reachability m').
Qed.

(** ** A member changes in place *)
Lemma set_inv v t v' t' i m m' :
  coord_inv v t -> dict_get (members v) i = Some m ->
  cm_identity m' = cm_identity m -> cm_endpoint m' = cm_endpoint m ->
  members v' = dict_set (members v) i m' ->
  retired_identities v' = retired_identities v ->
  0 <= revision v' -> 0 <= view_revision v' ->
  (cm_status m = LEFT -> cm_status m' = LEFT) -> (i = me -> cm_status m' <> JOINING) ->
  (forall j, is_Some (dict_get (pending_joins t') j) <-> j <> me /\ status_at v' j = Some JOINING) ->
  (forall j, is_Some (dict_get (member_tokens t') j) <-> tokened v' j) ->
  (forall j, is_Some (dict_get (member_refs t') j) <-> tokened v' j) ->
  NoDup (member_refs t').*1 ->
  coord_inv v' t'.
Proof.
  intros [Hk Hi Hs Ha Hl Hr Hrl Hw Hp Ht Hf Hfk Hv] Hg Eid Een Em Er Hrev Hvrev Hleft Hme Hp' Ht' Hf' Hk'.
  assert (Hmem : forall j n, dict_get (members v') j = Some n ->
    (j = i /\ n = m') \/ (j <> i /\ dict_get (members v) j = Some n)).
  { intros j n. rewrite Em, dict_get_set. case_decide; naive_solver. }
  assert (Hst : forall j x, status_at v' j = Some x -> x <> LEFT ->
    exists y, status_at v j = Some y /\ y <> LEFT).
  { intros j x. rewrite (status_set _ _ _ _ j Em). unfold status_at. case_decide as Ej.
    - intros [= <-] Hx. subst j. rewrite Hg. cbn. naive_solver.
    - naive_solver. }
  split; try done.
  - rewrite Em. by apply dict_set_NoDup.
  - intros j n [[-> ->]|[_ E]]%Hmem; [|by apply Hi]. rewrite Eid. by apply Hi.
  - destruct Hs as (m0 & E0 & Hj). rewrite Em, dict_get_set. case_decide as Ej; [|by exists m0].
    exists m'. split; [done|by apply Hme].
  - intros j k x y E1 E2 Hx Hy Hn.
    destruct (Hst _ _ E1 Hx) as (x' & ? & ?), (Hst _ _ E2 Hy) as (y' & ? & ?). by eapply Ha.
  - rewrite Em. unfold len in *. by rewrite dict_set_length, Hg.
  - intros j. rewrite Er, Em, dict_get_set. intros Hj%Hr. case_decide; [congruence|done].
  - by rewrite Er.
  - intros j n [[-> ->]|[_ E]]%Hmem; [|by eapply Hw].
    eapply wire_check_update; [exact Eid|exact Een|by eapply Hw].
Qed.

(** It stays active, and joining or not. *)
Lemma set_active_inv v t v' t' i m m' :
  coord_inv v t -> same_tables t t' -> dict_get (members v) i = Some m ->
  cm_identity m' = cm_identity m -> cm_endpoint m' = cm_endpoint m ->
  members v' = dict_set (members v) i m' ->
  retired_identities v' = retired_identities v ->
  0 <= revision v' -> 0 <= view_revision v' ->
  (cm_status m' = LEFT <-> cm_status m = LEFT) ->
  (cm_status m' = JOINING <-> cm_status m = JOINING) ->
  coord_inv v' t'.
Proof.
  intros Hinv (Et & Ef & Ep) Hg Eid Een Em Er Hrev Hvrev Hl Hj.
  assert (Htok : forall j, tokened v' j <-> tokened v j).
  { intros j. unfold tokened. rewrite (status_set _ _ _ _ j Em). case_decide as E; [|done].
    unfold status_at. subst j. rewrite Hg. cbn.
    split; intros [Hne (x & [= <-] & Hx)]; (split; [done|]; eexists; split; [done|tauto]). }
  eapply set_inv; try done.
  - tauto.
  - intros ->. rewrite Hj. destruct (ci_self _ _ Hinv) as (m0 & E0 & ?). congruence.
  - intros j. rewrite Ep, (ci_pending _ _ Hinv), (status_set _ _ _ _ j Em).
    case_decide as E; [|done]. unfold status_at. subst j. rewrite Hg. cbn.
    split; (intros [Hne [= Hx]]; split; [done|]; f_equal; tauto).
  - intros j. by rewrite Et, Htok, (ci_tokens _ _ Hinv).
  - intros j. by rewrite Ef, Htok, (ci_refs _ _ Hinv).
  - rewrite Ef. apply (ci_ref_keys _ _ Hinv).
Qed.

(** The coordinator itself has no entry in the tables: its status is free. *)
Lemma set_self_inv v t v' m x :
  coord_inv v t -> dict_get (members v) me = Some m -> x <> JOINING ->
  (cm_status m = LEFT -> x = LEFT) ->
  members v' = dict_set (members v) me (with_status x m) ->
  retired_identities v' = retired_identities v ->
  0 <= revision v' -> 0 <= view_revision v' ->
  coord_inv v' t.
Proof.
  intros Hinv Hg Hx Hl Em Er Hrev Hvrev.
  assert (Htok : forall j, tokened v' j <-> tokened v j).
  { intros j. unfold tokened. rewrite (status_set _ _ _ _ j Em). case_decide; [|done].
    split; by intros [? _]. }
  apply (set_inv v t v' t me m (with_status x m)); try done.
  - intros j. rewrite (ci_pending _ _ Hinv), (status_set _ _ _ _ j Em). case_decide; [|done].
    split; by intros [? _].
  - intros j. by rewrite Htok, (ci_tokens _ _ Hinv).
  - intros j. by rewrite Htok, (ci_refs _ _ Hinv).
  - apply (ci_ref_keys _ _ Hinv).
Qed.

(** What [_revoke_member_locked] leaves of the tables. *)
Definition revoked (i : MemberIdentity) (t t' : Tables) : Prop :=
  member_tokens t' = dict_pop (member_tokens t) i /\
  member_refs t' = dict_pop (member_refs t) i /\
  pending_joins t' = dict_pop (pending_joins t) i.

Lemma pop_is_Some {V} (d : list (MemberIdentity * V)) i j :
  is_Some (dict_get (dict_pop d i) j) <-> j <> i /\ is_Some (dict_get d j).
Proof.
  rewrite dict_get_pop. case_decide as E; [|tauto]. split; [by intros [? ?]|tauto].
Qed.

(** A member that is not the coordinator leaves and is revoked. *)
Lemma left_inv v t v' t' i m :
  coord_inv v t -> i <> me -> dict_get (members v) i = Some m ->
  members v' = dict_set (members v) i (with_status LEFT m) ->
  retired_identities v' = retired_identities v ->
  0 <= revision v' -> 0 <= view_revision v' -> revoked i t t' ->
  coord_inv v' t'.
Proof.
  intros Hinv Hne Hg Em Er Hrev Hvrev (Et & Ef & Ep).
  assert (Htok : forall j, tokened v' j <-> j <> i /\ tokened v j).
  { intros j. unfold tokened. rewrite (status_set _ _ _ _ j Em). case_decide as E; [|tauto].
    split; [|tauto]. by intros [_ (x & [= <-] & Hx)]. }
  apply (set_inv v t v' t' i m (with_status LEFT m)); try done.
  - intros j. rewrite Ep, pop_is_Some, (ci_pending _ _ Hinv), (status_set _ _ _ _ j Em).
    case_decide; [|tauto]. split; [tauto|]. by intros [_ [=]].
  - intros j. by rewrite Et, pop_is_Some, Htok, (ci_tokens _ _ Hinv).
  - intros j. by rewrite Ef, pop_is_Some, Htok, (ci_refs _ _ Hinv).
  - rewrite Ef. apply dict_pop_NoDup, (ci_ref_keys _ _ Hinv).
Qed.

(** A joining member is confirmed. *)
Lemma confirmed_inv v t v' t' i m :
  coord_inv v t -> i <> me -> dict_get (members v) i = Some m -> cm_status m = JOINING ->
  members v' = dict_set (members v) i (with_status UP m) ->
  retired_identities v' = retired_identities v ->
  0 <= revision v' -> 0 <= view_revision v' ->
  member_tokens t' = member_tokens t -> member_refs t' = member_refs t ->
  pending_joins t' = dict_pop (pending_joins t) i ->
  coord_inv v' t'.
Proof.
  intros Hinv Hne Hg Hj Em Er Hrev Hvrev Et Ef Ep.
  assert (Htok : forall j, tokened v' j <-> tokened v j).
  { intros j. unfold tokened. rewrite (status_set _ _ _ _ j Em). case_decide as E; [|done].
    unfold status_at. subst j. rewrite Hg. cbn. rewrite Hj. naive_solver. }
  apply (set_inv v t v' t' i m (with_status UP m)); try done.
  - by rewrite Hj.
  - intros j. rewrite Ep, pop_is_Some, (ci_pending _ _ Hinv), (status_set _ _ _ _ j Em).
    case_decide; [|tauto]. split; [tauto|]. by intros [_ [=]].
  - intros j. by rewrite Et, Htok, (ci_tokens _ _ Hinv).
  - intros j. by rewrite Ef, Htok, (ci_refs _ _ Hinv).
  - rewrite Ef. apply (ci_ref_keys _ _ Hinv).
Qed.

(** A member other than the coordinator is dropped and revoked; it may be retired. *)
Lemma dropped_inv v t v' t' i :
  coord_inv v t -> i <> me ->
  members v' = dict_pop (members v) i ->
  retired_identities v' ⊆ {[i]} ∪ retired_identities v ->
  Z.of_nat (size (retired_identities v')) <= retired_identity_limit cfg ->
  0 <= revision v' -> 0 <= view_revision v' -> revoked i t t' ->
  coord_inv v' t'.
Proof.
  intros [Hk Hi Hs Ha Hl Hr Hrl Hw Hp Ht Hf Hfk Hv] Hne Em Er Hsz Hrev Hvrev (Et & Ef & Ep).
  assert (Hmem : forall j n, dict_get (members v') j = Some n -> j <> i /\ dict_get (members v) j = Some n).
  { intros j n. rewrite Em, dict_get_pop. by case_decide. }
  assert (Hst : forall j x, status_at v' j = Some x <-> j <> i /\ status_at v j = Some x).
  { intros j x. rewrite (status_pop _ _ _ j Em). case_decide; [|tauto]. split; [done|tauto]. }
  assert (Htok : forall j, tokened v' j <-> j <> i /\ tokened v j).
  { intros j. unfold tokened. setoid_rewrite Hst. naive_solver. }
  split; try done.
  - rewrite Em. by apply dict_pop_NoDup.
  - intros j n [_ E]%Hmem. by apply Hi.
  - destruct Hs as (m0 & E0 & ?). exists m0. split; [|done]. rewrite Em, dict_get_pop_ne; [done|congruence].
  - intros j k x y [_ E1]%Hst [_ E2]%Hst. by eapply Ha.
  - rewrite Em. unfold len in *. rewrite dict_pop_length by done. lia.
  - intros j Hj. rewrite Em, dict_get_pop. case_decide; [done|]. apply Hr. set_solver.
  - intros j n [_ E]%Hmem. by eapply Hw.
  - intros j. rewrite Ep, pop_is_Some, Hp, Hst. tauto.
  - intros j. by rewrite Et, pop_is_Some, Htok, Ht.
  - intros j. by rewrite Ef, pop_is_Some, Htok, Hf.
  - rewrite Ef. by apply dict_pop_NoDup.
Qed.

(** A new member starts to join. *)
Lemma admitted_inv v t v' t' i m r token p :
  coord_inv v t -> i <> me -> cm_identity m = i -> cm_status m = JOINING ->
  WireMember_check ip_unspecified IPv6Address (wire_member m) = Ok tt ->
  dict_get (members v) i = None -> i ∉ retired_identities v ->
  (forall j x, status_at v j = Some x -> x <> LEFT -> mi_system_name j <> mi_system_name i) ->
  len (members v) < member_limit cfg ->
  members v' = dict_set (members v) i m ->
  retired_identities v' = retired_identities v ->
  0 <= revision v' -> 0 <= view_revision v' ->
  member_tokens t' = dict_set (member_tokens t) i token ->
  member_refs t' = dict_set (member_refs t) i r ->
  pending_joins t' = dict_set (pending_joins t) i p ->
  coord_inv v' t'.
Proof.
  intros [Hk Hi Hs Ha Hl Hr Hrl Hw Hp Ht Hf Hfk Hv] Hne Eid Hj Hwm Hg Hret Hname Hlen Em Er
    Hrev Hvrev Et Ef Ep.
  assert (Hmem : forall j n, dict_get (members v') j = Some n ->
    (j = i /\ n = m) \/ (j <> i /\ dict_get (members v) j = Some n)).
  { intros j n. rewrite Em, dict_get_set. case_decide; naive_solver. }
  assert (Hst : forall j, status_at v' j = if decide (j = i) then Some JOINING else status_at v j).
  { intros j. rewrite (status_set _ _ _ _ j Em), Hj. done. }
  assert (Htok : forall j, tokened v' j <-> j = i \/ tokened v j).
  { intros j. unfold tokened. rewrite Hst. case_decide as E; [|tauto]. subst j. split; [tauto|].
    intros _. split; [done|]. by exists JOINING. }
  assert (Hset : forall {V} (d : list (MemberIdentity * V)) x j,
    is_Some (dict_get (dict_set d i x) j) <-> j = i \/ is_Some (dict_get d j)).
  { intros V d x j. rewrite dict_get_set. case_decide; [|tauto]. split; [tauto|eauto]. }
  split; try done.
  - rewrite Em. by apply dict_set_NoDup.
  - intros j n [[-> ->]|[_ E]]%Hmem; [done|by apply Hi].
  - destruct Hs as (m0 & E0 & ?). exists m0. split; [|done]. rewrite Em, dict_get_set_ne; [done|congruence].
  - intros j k x y. rewrite !Hst. repeat case_decide; try congruence; intros E1 E2 Hx Hy Hn.
    + subst j. exfalso. by apply (Hname k y).
    + subst k. exfalso. by apply (Hname j x).
    + by eapply Ha.
  - rewrite Em. unfold len in *. rewrite dict_set_length, Hg. lia.
  - intros j. rewrite Er. intros Hj'. rewrite Em, dict_get_set_ne; [by apply Hr|]. by intros ->.
  - by rewrite Er.
  - intros j n [[-> ->]|[_ E]]%Hmem; [done|by eapply Hw].
  - intros j. rewrite Ep, Hset, Hp, Hst. case_decide; [|tauto]. subst. tauto.
  - intros j. by rewrite Et, Hset, Htok, Ht.
  - intros j. by rewrite Ef, Hset, Htok, Hf.
  - rewrite Ef. by apply dict_set_NoDup.
Qed.

(** * Sections *)

(** Whom a reference addresses. *)
Definition ref_target (r : Ref) : MemberIdentity :=
  mkMemberIdentity (ref_system_name r) (system_incarnation_uid (ref_identity r)).

Definition tables_ok (t : Tables) : Prop :=
  me ∉ left_order t /\ forall i r, dict_get (member_refs t) i = Some r -> ref_target r = i.

Definition cinv (s : Runtime) : Prop := coord_inv (view s) (tables s) /\ tables_ok (tables s).

Lemma revoke_tables_ok i s :
  i <> me -> tables_ok (tables s) -> tables_ok (tables (_revoke_member_locked i s)).
Proof.
  intros Hne [Hlo Hr]. split; cbn -[dict_pop].
  - case_match; [|done]. apply not_elem_of_app.
    split; [done|]. intros E%list_elem_of_singleton. congruence.
  - intros j r. rewrite dict_get_pop. case_decide; [done|]. apply Hr.
Qed.

(** A revision names one list of members. *)
Definition coord_le (v v' : View) : Prop :=
  revision v < revision v' \/ (revision v = revision v' /\ members v = members v').
(** [i] has left for good. *)
Definition gone (v : View) (i : MemberIdentity) : Prop :=
  i ∈ retired_identities v \/ status_at v i = Some LEFT.

(** A section keeps the invariant, the meaning of revisions, and who has left. *)
Definition advances (s s' : Runtime) : Prop :=
  cinv s -> cinv s' /\ coord_le (view s) (view s') /\
            forall i, gone (view s) i -> gone (view s') i.

#[global] Instance advances_preorder : PreOrder advances.
Proof.
  split.
  - intros s Hs. split; [done|]. split; [by right|done].
  - intros s1 s2 s3 H12 H23 H1. destruct (H12 H1) as (H2 & Hl & Hg).
    destruct (H23 H2) as (H3 & Hl' & Hg'). split; [done|]. split; [|auto].
    unfold coord_le in *. destruct Hl as [?|[? ?]], Hl' as [?|[? ?]]; [left; lia..|right].
    split; congruence.
Qed.

(** Only the view and the tables matter. *)
Lemma advances_same s s' : view s' = view s -> tables s' = tables s -> advances s s'.
Proof. intros Ev Et Hs. unfold cinv. rewrite Ev, Et. split; [done|]. split; [by right|done]. Qed.

(** The members change with a new revision. *)
Lemma advances_bump s s' :
  (cinv s -> cinv s') -> revision (view s') = revision (view s) + 1 ->
  (cinv s -> forall i, gone (view s) i -> gone (view s') i) -> advances s s'.
Proof. intros Hi Hr Hg Hs. split; [auto|]. split; [left; lia|auto]. Qed.

Lemma gone_set v v' i m m' :
  dict_get (members v) i = Some m -> (cm_status m = LEFT -> cm_status m' = LEFT) ->
  members v' = dict_set (members v) i m' -> retired_identities v' = retired_identities v ->
  forall j, gone v j -> gone v' j.
Proof.
  intros Hg Hl Em Er j [Hj|Hj]; [left; by rewrite Er|right].
  rewrite (status_set _ _ _ _ j Em). case_decide as E; [|done].
  unfold status_at in Hj. subst j. rewrite Hg in Hj. injection Hj as Hj. by rewrite Hl.
Qed.

(** Every member can be sent. *)
Lemma check_wire_ok ms :
  Forall (fun m => WireMember_check ip_unspecified IPv6Address m = Ok tt) ms ->
  check_wire ip_unspecified IPv6Address ms = Ok ms.
Proof. induction 1 as [|m ms Hm _ IH]; cbn; [done|]. by rewrite Hm, IH. Qed.

Lemma wire_members_ok s :
  cinv s -> check_wire ip_unspecified IPv6Address (wire_members s) = Ok (wire_members s).
Proof.
  intros [Hinv _]. apply check_wire_ok. unfold wire_members. apply Forall_fmap, Forall_forall.
  intros m Hm. rewrite sorted_members_perm in Hm.
  apply list_elem_of_fmap in Hm as ([i m'] & -> & Hm). cbn.
  apply (ci_wire _ _ Hinv i), dict_elem_get; [apply (ci_keys _ _ Hinv)|done].
Qed.

Lemma snapshot_ok s :
  cinv s -> _wire_snapshot_locked ip_unspecified IPv6Address s =
            (Ret (revision (view s), wire_members s), s).
Proof. intros Hs. unfold _wire_snapshot_locked, bind, get. by rewrite wire_members_ok. Qed.

(** ** One member changes *)

(** [replace] under a new revision, for a member that stays active. *)
Lemma replace_active s i m m' t' :
  dict_get (members (view s)) i = Some m ->
  cm_identity m' = cm_identity m -> cm_endpoint m' = cm_endpoint m ->
  (cm_status m' = LEFT <-> cm_status m = LEFT) ->
  (cm_status m' = JOINING <-> cm_status m = JOINING) ->
  same_tables (tables s) t' -> left_order t' = left_order (tables s) ->
  advances s (with_tables (fun _ => t')
    (with_view (fun v => _replace_member_locked m' (bump_revision v)) s)).
Proof.
  intros Hg Eid Een Hl Hj Ht Ho.
  assert (Hm' : cinv s -> members (_replace_member_locked m' (bump_revision (view s))) =
    dict_set (members (view s)) i m').
  { intros [Hinv _]. rewrite replace_members. cbn. by rewrite Eid, (ci_identity _ _ Hinv i m). }
  apply advances_bump.
  - intros [Hinv Hto]. split; cbn.
    2: { destruct Hto as [? ?], Ht as (_ & Er & _). split; cbn; by rewrite ?Ho, ?Er. }
    eapply (set_active_inv (view s) (tables s) _ t' i m m'); try done.
    + by apply Hm'.
    + by rewrite replace_retired.
    + rewrite replace_revision. cbn. destruct (ci_revision _ _ Hinv). lia.
    + etrans; [|apply replace_view_revision]. cbn. by destruct (ci_revision _ _ Hinv).
  - cbn. by rewrite replace_revision.
  - intros Hs. apply (gone_set _ _ i m m'); [done|tauto|by apply Hm'|]. cbn. by rewrite replace_retired.
Qed.

(** The same without a change of the tables. *)
Lemma replace_active_only s i m m' :
  dict_get (members (view s)) i = Some m ->
  cm_identity m' = cm_identity m -> cm_endpoint m' = cm_endpoint m ->
  (cm_status m' = LEFT <-> cm_status m = LEFT) ->
  (cm_status m' = JOINING <-> cm_status m = JOINING) ->
  advances s (with_view (fun v => _replace_member_locked m' (bump_revision v)) s).
Proof. intros. by apply (replace_active s i m m' (tables s)). Qed.

(** A member leaves and is revoked. *)
Lemma replace_left s i m :
  i <> me -> dict_get (members (view s)) i = Some m ->
  advances s (_revoke_member_locked i
    (with_view (fun v => _replace_member_locked (with_status LEFT m) (bump_revision v)) s)).
Proof.
  intros Hne Hg.
  assert (Hm' : cinv s -> members (_replace_member_locked (with_status LEFT m) (bump_revision (view s))) =
    dict_set (members (view s)) i (with_status LEFT m)).
  { intros [Hinv _]. rewrite replace_members. cbn. by rewrite (ci_identity _ _ Hinv i m). }
  apply advances_bump.
  - intros [Hinv Hto]. split.
    + eapply (left_inv (view s) (tables s) _ _ i m); try done.
      * by apply Hm'.
      * cbn. by rewrite replace_retired.
      * cbn. rewrite replace_revision. cbn. destruct (ci_revision _ _ Hinv). lia.
      * etrans; [|apply replace_view_revision]. cbn. by destruct (ci_revision _ _ Hinv).
    + by apply revoke_tables_ok.
  - cbn. by rewrite replace_revision.
  - intros Hs. apply (gone_set _ _ i m (with_status LEFT m)); [done..|by apply Hm'|].
    cbn. by rewrite replace_retired.
Qed.

(** A member is dropped from the view without a new revision, and may be retired. *)
Lemma drop_cinv s i retire :
  cinv s -> i <> me ->
  retire ⊆ {[i]} ∪ retired_identities (view s) -> 
  Z.of_nat (size retire) <= retired_identity_limit cfg ->
  cinv (_revoke_member_locked i (drop_member i (with_view (with_retired retire) s))).
Proof.
  intros [Hinv Hlo] Hne Hr Hsz. split.
  - eapply (dropped_inv (view s) (tables s) _ _ i); try done; cbn; destruct (ci_revision _ _ Hinv); lia.
  - by apply revoke_tables_ok.
Qed.

Lemma expire_advances i request s : advances s (expire_locked i request s).
Proof.
  unfold expire_locked. destruct (dict_get (pending_joins (tables s)) i) as [p|] eqn:Ep; [|reflexivity].
  destruct (dict_get (members (view s)) i) as [m|] eqn:Em; [|reflexivity].
  destruct (bool_decide _ && _) eqn:E; [|reflexivity].
  apply andb_true_iff in E as [_ Ej%bool_decide_eq_true].
  apply advances_bump; [| |intros Hs].
  - intros [Hinv Hto]. split.
    + eapply (dropped_inv (view s) (tables s) _ _ i); try done; cbn.
      * by apply (ci_pending _ _ Hinv), ex_intro with p.
      * set_solver.
      * apply (ci_retired_limit _ _ Hinv).
      * destruct (ci_revision _ _ Hinv). lia.
      * destruct (ci_revision _ _ Hinv). lia.
      * split; [done|]. split; [done|]. apply dict_pop_twice.
    + apply (revoke_tables_ok i (drop_member i
        (with_tables (fun t => set_pending (dict_pop (pending_joins t) i) t) s))); [|done].
      by apply (ci_pending _ _ Hinv), ex_intro with p.
  - done.
  - intros j [Hj|Hj]; [by left|right]. cbn in *. unfold status_at in *. cbn -[dict_pop].
    rewrite dict_get_pop_ne; [done|]. intros ->. rewrite Em in Hj. cbn in Hj. congruence.
Qed.

(** ** Room for a new member *)

(** What [_reserve_member_capacity_locked] may do: drop members that have left. *)
Record reserved (s s1 : Runtime) (b : bool) : Prop := {
  rv_inv : cinv s1;
  rv_room : b = true -> len (members (view s1)) < member_limit cfg;
  rv_refused : b = false -> members (view s1) = members (view s);
  rv_revision : revision (view s1) = revision (view s);
  rv_gone : forall i, gone (view s) i -> gone (view s1) i;
  rv_status : forall i x, status_at (view s1) i = Some x -> status_at (view s) i = Some x;
  rv_fresh : forall i, dict_get (members (view s)) i = None -> i ∉ retired_identities (view s) ->
    i ∉ retired_identities (view s1) }.

Lemma reserve_ok order s :
  cinv (with_tables (set_left_order order) s) ->
  let '(b, s1) := reserve_loop (member_limit cfg) (retired_identity_limit cfg) order s in
  reserved s s1 b.
Proof.
  revert s. induction order as [|i order IH]; intros s Hs; cbn [reserve_loop].
  - cbn [view with_tables]. destruct (Z.ltb_spec (len (members (view s))) (member_limit cfg)); by split.
  - cbn [view with_tables]. destruct (Z.ltb_spec (len (members (view s))) (member_limit cfg)); [by split|].
    assert (Hs1 : cinv (with_tables (set_left_order order)
      (with_tables (set_left_order order) (with_tables (set_left_order (i :: order)) s)))).
    { destruct Hs as [Hinv [Hlo Hr]]. split; [by destruct Hinv|]. split; [|exact Hr].
      cbn in *. by apply not_elem_of_cons in Hlo as [_ Hlo]. }
    destruct (dict_get (members (view s)) i) as [m|] eqn:Em.
    2: { specialize (IH _ Hs1). destruct (reserve_loop _ _ _ _). by destruct IH. }
    case_bool_decide as Hleft.
    2: { specialize (IH _ Hs1). destruct (reserve_loop _ _ _ _). by destruct IH. }
    assert (Hi : i ∉ retired_identities (view s)).
    { intros Hin. destruct Hs as [Hinv _]. apply (ci_retired _ _ Hinv) in Hin. cbn in Hin. congruence. }
    rewrite bool_decide_eq_false_2 by done. cbn [negb andb].
    destruct (Z.leb_spec (retired_identity_limit cfg) (Z.of_nat (size (retired_identities (view s))))).
    { by split. }
    assert (Hne : i <> me). { intros ->. destruct Hs as [_ [Hlo _]]. apply Hlo. left. }
    match goal with |- context [reserve_loop _ _ order ?s2] => set (s2' := s2) end.
    assert (Hs2 : cinv s2').
    { unfold s2'. apply (drop_cinv (with_tables (set_left_order order) (with_tables (set_left_order (i :: order)) s)) i
        ({[i]} ∪ retired_identities (view s))); [|done|done|].
      - destruct Hs1 as [H1 H2]. by split.
      - rewrite size_union by set_solver. rewrite size_singleton. lia. }
    assert (Hm2 : members (view s2') = dict_pop (members (view s)) i) by done.
    assert (Hlen : len (members (view s2')) < member_limit cfg).
    { rewrite Hm2. destruct Hs as [Hinv _].
      pose proof (ci_limit _ _ Hinv) as Hl. pose proof (ci_keys _ _ Hinv) as Hk.
      cbn [view with_tables] in Hl, Hk. unfold len in *.
      rewrite dict_pop_length, Em by done. destruct (members (view s)); [done|]. cbn [length] in *. lia. }
    assert (Hend : reserve_loop (member_limit cfg) (retired_identity_limit cfg) order s2' =
      (true, with_tables (set_left_order order) s2')).
    { assert (H' : len (members (view (with_tables (set_left_order order) s2'))) <? member_limit cfg = true)
        by (apply Z.ltb_lt; exact Hlen).
      destruct order; cbn [reserve_loop]; by rewrite H'. }
    rewrite Hend. split; try done.
    + destruct Hs2 as [H1 [_ H2]]. split; [by destruct H1|]. destruct Hs1 as [_ [H3 _]]. by split.
    + intros j [Hj|Hj].
      * left. cbn. set_solver.
      * destruct (decide (j = i)) as [->|]; [left; cbn; set_solver|right].
        unfold status_at. cbn -[dict_pop]. by rewrite dict_get_pop_ne.
    + intros j x. unfold status_at. cbn -[dict_pop]. rewrite dict_get_pop. by case_decide.
    + intros j Hj Hr. cbn. rewrite not_elem_of_union, not_elem_of_singleton. split; [congruence|done].
Qed.
End coordinator.
