(* ===== verification/ClusterSteps.v ===== *)
(** What each section of the coordinator does: it never raises, keeps the invariant, and
    what it sends carries the members as they are after it.  [coord_step] puts the sections
    together; the handlers of [ClusterRuntime] are sequences of such steps. *)

From stdpp Require Import base list numbers strings gmap relations.
From S2P Require Import Prelude Bytes PyStr Dict Serialization Wire ActorPath Transport.
From S2P Require Import Effects Association Cluster ClusterRuntime ClusterInv.

(** The membership a message carries. *)
Definition snapshot_of (c : control) : option (Z * list _WireMember) :=
  match c with
  | JoinAccepted m => Some (ja_revision m, ja_members m)
  | HeartbeatAck m => Some (hk_revision m, hk_members m)
  | MembershipUpdate m => Some (mu_revision m, mu_members m)
  | LeaveAck m => Some (la_revision m, la_members m)
  | _ => None
  end.

Section steps.
Context (ip_unspecified : pystr -> bool) (IPv6Address : pystr -> option pystr).
Context (UUID_of : pystr -> option Z) (self : ClusterSetup).
Context (Hconf : config_ok ip_unspecified IPv6Address UUID_of self).

Abbreviation me := (self_identity self).
Abbreviation cfg := (su_config self).
Abbreviation cinv := (cinv ip_unspecified IPv6Address self).
Abbreviation coord_inv := (coord_inv ip_unspecified IPv6Address self).
Abbreviation advances := (advances ip_unspecified IPv6Address self).

(** [i] is a member other than the coordinator, and the only one of its name that has not
    left. *)
Definition addressee (v : View) (i : MemberIdentity) : Prop :=
  i <> me /\ is_Some (status_at v i) /\
  forall j x, status_at v j = Some x -> x <> LEFT ->
    mi_system_name j = mi_system_name i -> j = i.

Definition mail_ok (s : Runtime) (ms : list (Ref * control)) : Prop :=
  Forall (fun m => snapshot_of m.2 = Some (revision (view s), wire_members s) /\
                   addressee (view s) (ref_target m.1)) ms.

Lemma tokened_addressee v t i : coord_inv v t -> tokened self v i -> addressee v i.
Proof.
  intros Hinv [Hne (x & Hx & Hl)]. split; [done|]. split; [by exists x|].
  intros j y Hy Hyl Hn. by eapply (ci_active _ _ _ _ _ Hinv).
Qed.

Lemma coord_inv_tables v t t' :
  coord_inv v t ->
  (forall i, is_Some (dict_get (member_tokens t') i) <-> is_Some (dict_get (member_tokens t) i)) ->
  (forall i, is_Some (dict_get (member_refs t') i) <-> is_Some (dict_get (member_refs t) i)) ->
  (forall i, is_Some (dict_get (pending_joins t') i) <-> is_Some (dict_get (pending_joins t) i)) ->
  NoDup (member_refs t').*1 -> coord_inv v t'.
Proof.
  intros [Hk Hi Hs Ha Hl Hr Hrl Hw Hp Ht Hf Hfk Hv] Et Ef Ep Hd.
  split; try done; intros i; [by rewrite Ep|by rewrite Et|by rewrite Ef].
Qed.

Lemma set_is_Some {V} (d : list (MemberIdentity * V)) i x j :
  is_Some (dict_get d i) -> is_Some (dict_get (dict_set d i x) j) <-> is_Some (dict_get d j).
Proof. intros Hi. rewrite dict_get_set. case_decide; [subst|done]. split; eauto. Qed.

(** ** The tables of a joining member *)

Lemma admit_tokens i r token now t :
  member_tokens (admit_tables i r token now t) = dict_set (member_tokens t) i token.
Proof. unfold admit_tables. by case_match. Qed.
Lemma admit_refs i r token now t :
  member_refs (admit_tables i r token now t) = dict_set (member_refs t) i r.
Proof. unfold admit_tables. by case_match. Qed.
Lemma admit_pending i r token now t :
  pending_joins (admit_tables i r token now t) = pending_joins t.
Proof. unfold admit_tables. by case_match. Qed.
Lemma admit_left i r token now t : left_order (admit_tables i r token now t) = left_order t.
Proof. unfold admit_tables. by case_match. Qed.

Lemma admit_tables_ok i r token now t :
  ref_target r = i -> tables_ok self t -> tables_ok self (admit_tables i r token now t).
Proof.
  intros Er [Hl Hr]. split; [by rewrite admit_left|]. intros j x. rewrite admit_refs, dict_get_set.
  case_decide; [|apply Hr]. intros [= <-]. congruence.
Qed.

(** A member that asks again keeps its token. *)
Lemma readmit_advances s i r now :
  is_Some (dict_get (member_tokens (tables s)) i) -> ref_target r = i ->
  forall fresh, advances s (with_tables
    (admit_tables i r (default fresh (dict_get (member_tokens (tables s)) i)) now) s).
Proof.
  intros Hi Er fresh [Hinv Hto].
  assert (Hrefs : is_Some (dict_get (member_refs (tables s)) i)).
  { by apply (ci_refs _ _ _ _ _ Hinv), (ci_tokens _ _ _ _ _ Hinv). }
  split; [split|].
  - eapply coord_inv_tables; [exact Hinv|..]; cbn.
    + intros j. rewrite admit_tokens. by apply set_is_Some.
    + intros j. rewrite admit_refs. by apply set_is_Some.
    + intros j. by rewrite admit_pending.
    + rewrite admit_refs. apply dict_set_NoDup, (ci_ref_keys _ _ _ _ _ Hinv).
  - by apply admit_tables_ok.
  - split; [by right|done].
Qed.

(** Not refused: nobody else of this name is active, and it did not leave before. *)
Lemma join_refused_false i request s :
  cinv s -> join_refused i request s = false ->
  (forall j x, status_at (view s) j = Some x -> x <> LEFT ->
     mi_system_name j = mi_system_name i -> j = i) /\
  i ∉ retired_identities (view s) /\
  (forall m, dict_get (members (view s)) i = Some m -> cm_status m = JOINING).
Proof.
  intros [Hinv _]. unfold join_refused. rewrite !orb_false_iff.
  intros [[[Hn Hr%bool_decide_eq_false] Hj] _]. split; [|split; [done|]].
  - intros j x Hx Hl Hname. unfold status_at in Hx. apply fmap_Some in Hx as (m & Hm & ->).
    destruct (decide (j = i)); [done|]. exfalso.
    pose proof (ci_identity _ _ _ _ _ Hinv _ _ Hm) as Ei.
    unfold same_name_active in Hn. apply not_true_iff_false in Hn. apply Hn, existsb_exists.
    exists (j, m). split; [by apply list_elem_of_In, dict_get_elem|]. cbn. rewrite Ei.
    rewrite !andb_true_iff, !negb_true_iff, bool_decide_eq_true, !bool_decide_eq_false. done.
  - intros m Hm. rewrite Hm in Hj. by apply negb_false_iff, bool_decide_eq_true in Hj.
Qed.

(** The control actor of a peer can be addressed. *)
Lemma peer_reference m i ep :
  dict_get (su_peers self) (mi_system_name i) = Some ep -> _is_remote_name (mi_system_name i) = true ->
  mi_incarnation_uid i <> 0 -> jr_source_control_actor_uid m <> 0 ->
  exists actor path,
    ActorIdentity_new (mi_incarnation_uid i) (jr_source_control_actor_uid m) = Ok actor /\
    _control_path IPv6Address UUID_of (mi_system_name i) ep = Ok path /\
    ref_target (mkRef (mi_system_name i) actor path) = i /\
    WireMember_check ip_unspecified IPv6Address (wire_member (mkMember i ep JOINING REACHABLE)) = Ok tt /\
    ClusterMember_new i ep JOINING REACHABLE = Ok (mkMember i ep JOINING REACHABLE).
Proof.
  intros Hp Hn Hu Hc. destruct (co_peers _ _ _ _ Hconf _ _ Hp Hn) as [[Hh Hport] [path Hpath]].
  exists (mkIdentity (mi_incarnation_uid i) (jr_source_control_actor_uid m)), path. split_and!.
  - unfold ActorIdentity_new. apply Z.eqb_neq in Hu as ->, Hc as ->. done.
  - done.
  - by destruct i.
  - unfold WireMember_check, wire_member, wire_name, wire_uuid. cbn. rewrite Hn.
    apply Z.eqb_neq in Hu as ->. cbn. by rewrite Hh, Hport.
  - unfold ClusterMember_new. apply raise_unless_ok in Hport. apply andb_true_iff in Hport as [H1 _].
    apply Z.leb_le in H1. by replace (0 <? ep_port ep) with true by (symmetry; apply Z.ltb_lt; lia).
Qed.

Lemma quiet_ok s : advances s s /\ mail_ok s [].
Proof. split; [reflexivity|by apply Forall_nil]. Qed.

Lemma addressed s i r c :
  cinv s -> tokened self (view s) i -> ref_target r = i ->
  snapshot_of c = Some (revision (view s), wire_members s) -> mail_ok s [(r, c)].
Proof.
  intros [Hinv _] Ht Er Hc. apply Forall_singleton. split; [done|]. cbn. rewrite Er.
  by eapply tokened_addressee.
Qed.

(** The end of [_handle_join_request]'s section. *)
Lemma accept_mail s i r request token :
  cinv s -> tokened self (view s) i -> ref_target r = i ->
  exists out,
    bind (_wire_snapshot_locked ip_unspecified IPv6Address)
      (fun snapshot => ret [(r, join_accepted self (mi_incarnation_uid i) request token snapshot)]) s
      = (Ret out, s) /\ mail_ok s out.
Proof.
  intros Hs Ht Er. unfold bind. rewrite (snapshot_ok _ _ _ _ Hs). eexists. split; [done|].
  by eapply addressed.
Qed.

(** A new member is admitted with a new revision. *)
Lemma admit_new s s1 b i r token now p ep :
  cinv s -> reserved ip_unspecified IPv6Address self s s1 b -> b = true ->
  i <> me -> dict_get (members (view s)) i = None -> i ∉ retired_identities (view s) ->
  (forall j x, status_at (view s) j = Some x -> x <> LEFT ->
     mi_system_name j = mi_system_name i -> j = i) ->
  WireMember_check ip_unspecified IPv6Address (wire_member (mkMember i ep JOINING REACHABLE)) = Ok tt ->
  ref_target r = i ->
  let s2 := with_tables (fun t => set_pending (dict_set (pending_joins t) i p) t)
    (with_view (_replace_member_locked (mkMember i ep JOINING REACHABLE))
      (with_view bump_revision (with_tables (admit_tables i r token now) s1))) in
  advances s s2 /\ tokened self (view s2) i.
Proof.
  intros Hs [[Hinv Hto] Hroom _ Hrev Hgone Hst Hfresh] Hb Hne Hg Hret Hname Hw Er s2.
  assert (Hg1 : dict_get (members (view s1)) i = None).
  { destruct (dict_get (members (view s1)) i) as [m|] eqn:E; [|done].
    assert (H1 : status_at (view s1) i = Some (cm_status m)) by (unfold status_at; by rewrite E).
    apply Hst in H1. unfold status_at in H1. by rewrite Hg in H1. }
  assert (Hm : members (view s2) = dict_set (members (view s1)) i (mkMember i ep JOINING REACHABLE)).
  { unfold s2. cbn -[_replace_member_locked]. by rewrite replace_members. }
  assert (Hr2 : revision (view s2) = revision (view s) + 1).
  { unfold s2. cbn -[_replace_member_locked]. rewrite replace_revision. cbn. by rewrite Hrev. }
  assert (Hret2 : retired_identities (view s2) = retired_identities (view s1)).
  { unfold s2. cbn -[_replace_member_locked]. by rewrite replace_retired. }
  split.
  - apply advances_bump; [intros _; split| |intros _].
    + eapply (admitted_inv _ _ _ (view s1) (tables s1) _ _ i (mkMember i ep JOINING REACHABLE) r token p);
        try done.
      * by apply Hfresh.
      * intros j x Hx Hl Hn. apply Hst in Hx as Hx'. rewrite (Hname j x Hx' Hl Hn) in Hx.
        unfold status_at in Hx. by rewrite Hg1 in Hx.
      * by apply Hroom.
      * rewrite Hr2. destruct Hs as [Hinv0 _]. destruct (ci_revision _ _ _ _ _ Hinv0). lia.
      * unfold s2. cbn -[_replace_member_locked]. etrans; [|apply replace_view_revision]. cbn.
        by destruct (ci_revision _ _ _ _ _ Hinv).
      * unfold s2. cbn. apply admit_tokens.
      * unfold s2. cbn. apply admit_refs.
      * unfold s2. cbn. by rewrite admit_pending.
    + destruct (admit_tables_ok i r token now (tables s1) Er Hto) as [H1 H2]. by split.
    + done.
    + intros j Hj%Hgone. destruct Hj as [Hj|Hj]; [left; by rewrite Hret2|right].
      rewrite (status_set _ _ _ _ j Hm). case_decide; [|done]. subst j.
      unfold status_at in Hj. by rewrite Hg1 in Hj.
  - split; [done|]. exists JOINING. rewrite (status_set _ _ _ _ i Hm), decide_True by done. done.
Qed.

Lemma join_request_ok m i ep fresh now deadline s :
  dict_get (su_peers self) (mi_system_name i) = Some ep -> _is_remote_name (mi_system_name i) = true ->
  mi_incarnation_uid i <> 0 -> jr_source_control_actor_uid m <> 0 -> cinv s ->
  exists out s', join_request_locked ip_unspecified IPv6Address UUID_of self m i ep fresh now deadline s
    = (Ret out, s') /\ advances s s' /\ mail_ok s' out.
Proof.
  intros Hp Hn Hu Hc Hs. unfold join_request_locked. unfold bind at 1, get at 1.
  destruct (negb (accepting s) || _) eqn:E0; [exists [], s; split; [done|apply quiet_ok]|].
  apply orb_false_iff in E0 as [_ Hj]. destruct (join_refused_false _ _ _ Hs Hj) as (Hname & Hret & Hjoin).
  destruct (peer_reference m i ep Hp Hn Hu Hc) as (actor & path & Ea & Epath & Etarget & Hw & Em).
  destruct (dict_get (members (view s)) i) as [m0|] eqn:Eg.
  - unfold ret at 1, bind at 1. cbn [negb]. rewrite Ea, Epath. cbn [lift].
    unfold ret at 1 2, bind at 1 2 3, get at 1.
    pose proof (Hjoin m0 eq_refl) as Hj0.
    assert (Hne : i <> me).
    { intros ->. destruct Hs as [Hinv _]. destruct (ci_self _ _ _ _ _ Hinv) as (m1 & E1 & ?). congruence. }
    assert (Ht : tokened self (view s) i).
    { split; [done|]. exists JOINING. unfold status_at. by rewrite Eg; cbn; rewrite Hj0. }
    assert (Htok : is_Some (dict_get (member_tokens (tables s)) i)).
    { destruct Hs as [Hinv _]. by apply (ci_tokens _ _ _ _ _ Hinv). }
    assert (Hpend : is_Some (dict_get (pending_joins (tables s)) i)).
    { destruct Hs as [Hinv _]. apply (ci_pending _ _ _ _ _ Hinv). split; [done|].
      unfold status_at. by rewrite Eg; cbn; rewrite Hj0. }
    destruct Hpend as [p0 Ep0]. rewrite Ep0.
    pose proof (readmit_advances s i _ now Htok Etarget fresh) as Hadv.
    match type of Hadv with ClusterInv.advances _ _ _ _ ?s2 => set (s2' := s2) in * end.
    destruct (accept_mail s2' i _ (jr_request_id m) (default fresh (dict_get (member_tokens (tables s)) i))
      (proj1 (Hadv Hs)) Ht Etarget) as (out & Eo & Hm).
    exists out, s2'. split; [exact Eo|]. by split.
  - unfold bind at 1. unfold _reserve_member_capacity_locked at 1.
    pose proof (reserve_ok ip_unspecified IPv6Address self (left_order (tables s)) s) as Hres.
    destruct (reserve_loop _ _ _ _) as [b s1].
    assert (Hres' : reserved ip_unspecified IPv6Address self s s1 b).
    { apply Hres. destruct Hs as [H1 H2]. split; [by destruct H1|exact H2]. }
    clear Hres. destruct b; cbn [negb].
    + rewrite Ea, Epath, Em. cbn [lift].
      assert (Hne : i <> me).
      { intros ->. destruct Hs as [Hinv _]. destruct (ci_self _ _ _ _ _ Hinv) as (m1 & E1 & ?). congruence. }
      assert (Hpend : dict_get (pending_joins (tables s)) i = None).
      { destruct Hs as [Hinv _]. destruct (dict_get (pending_joins (tables s)) i) eqn:Epp; [|done].
        exfalso. assert (H1 : is_Some (dict_get (pending_joins (tables s)) i)) by by eexists.
        apply (ci_pending _ _ _ _ _ Hinv) in H1 as [_ H1]. unfold status_at in H1. by rewrite Eg in H1. }
      rewrite Hpend.
      destruct (admit_new s s1 true i (mkRef (mi_system_name i) actor path)
        (default fresh (dict_get (member_tokens (tables s1)) i)) now (jr_request_id m, deadline) ep
        Hs Hres' eq_refl Hne Eg Hret Hname Hw Etarget) as [Hadv Ht].
      match type of Hadv with ClusterInv.advances _ _ _ _ ?s2 => set (s2' := s2) in * end.
      destruct (accept_mail s2' i (mkRef (mi_system_name i) actor path) (jr_request_id m)
        (default fresh (dict_get (member_tokens (tables s1)) i)) (proj1 (Hadv Hs)) Ht Etarget)
        as (out & Eo & Hm).
      exists out, s2'. split; [exact Eo|]. by split.
    + exists [], s1. split; [done|]. split; [|by apply Forall_nil].
      intros _. split; [apply (rv_inv _ _ _ _ _ _ Hres')|]. split; [|apply (rv_gone _ _ _ _ _ _ Hres')].
      right. split; [symmetry; apply (rv_revision _ _ _ _ _ _ Hres')|].
      symmetry. by apply (rv_refused _ _ _ _ _ _ Hres').
Qed.

Lemma join_confirm_ok m i now now' s :
  cinv s -> exists b s', join_confirm_locked m i now now' s = (Ret b, s') /\ advances s s'.
Proof.
  intros Hs. unfold join_confirm_locked. unfold bind at 1, get at 1.
  destruct (accepting s); cbn [negb]; [|by exists false, s].
  destruct (dict_get (members (view s)) i) as [x|] eqn:Em; [|by exists false, s].
  destruct (dict_get (pending_joins (tables s)) i) as [p|] eqn:Ep; [|by exists false, s].
  destruct (_ && _) eqn:E; [|by exists false, s].
  rewrite !andb_true_iff in E. destruct E as [[[Hj%bool_decide_eq_true _] _] _].
  eexists true, _. split; [reflexivity|].
  assert (Hne : cinv s -> i <> me).
  { intros [Hinv _]. by apply (ci_pending _ _ _ _ _ Hinv), ex_intro with p. }
  assert (Hm' : members (_replace_member_locked (with_status UP x) (bump_revision (view s))) =
    dict_set (members (view s)) i (with_status UP x)).
  { rewrite replace_members. cbn. destruct Hs as [Hinv _]. by rewrite (ci_identity _ _ _ _ _ Hinv i x). }
  apply advances_bump; [intros [Hinv [Hlo Hr]]; split|..|intros _].
  - eapply (confirmed_inv _ _ _ (view s) (tables s) _ _ i x); try done.
    + by apply Hne.
    + cbn. by rewrite replace_retired.
    + cbn. rewrite replace_revision. cbn. destruct (ci_revision _ _ _ _ _ Hinv). lia.
    + etrans; [|apply replace_view_revision]. cbn. by destruct (ci_revision _ _ _ _ _ Hinv).
  - by split.
  - cbn. by rewrite replace_revision.
  - apply (gone_set _ _ i x (with_status UP x)); [done|by rewrite Hj|exact Hm'|].
    cbn. by rewrite replace_retired.
Qed.

Lemma heartbeat_ok m i now s :
  cinv s ->
  exists out b s', heartbeat_locked ip_unspecified IPv6Address self m i now s = (Ret (out, b), s') /\
    advances s s' /\ mail_ok s' out.
Proof.
  intros Hs. unfold heartbeat_locked. unfold bind at 1, get at 1.
  destruct (dict_get (members (view s)) i) as [x|] eqn:Em; [|exists [], false, s; split; [done|apply quiet_ok]].
  destruct (dict_get (member_refs (tables s)) i) as [r|] eqn:Er; [|exists [], false, s; split; [done|apply quiet_ok]].
  destruct (_ || _) eqn:E; [exists [], false, s; split; [done|apply quiet_ok]|].
  rewrite !orb_false_iff, !negb_false_iff in E. destruct E as [[Hup%bool_decide_eq_true _] _].
  assert (Ht : tokened self (view s) i).
  { destruct Hs as [Hinv _]. by apply (ci_refs _ _ _ _ _ Hinv), ex_intro with r. }
  assert (Etarget : ref_target r = i) by (destruct Hs as (_ & _ & Hr); by apply Hr).
  set (touch := with_tables (fun t => set_evidence i now (set_sequence i (hb_sequence m) t))).
  set (s1 := if bool_decide (cm_reachability x = UNREACHABLE)
    then with_view (fun v => _replace_member_locked (with_reachability REACHABLE x) (bump_revision v))
           (touch s)
    else touch s).
  assert (Hadv : advances s s1).
  { unfold s1. case_bool_decide.
    - exact (replace_active _ _ _ s i x (with_reachability REACHABLE x) (tables (touch s)) Em
        eq_refl eq_refl (reflexivity _) (reflexivity _) (conj eq_refl (conj eq_refl eq_refl)) eq_refl).
    - intros [Hinv Hto]. split; [split|split; [by right|done]].
      + eapply coord_inv_tables; [exact Hinv|done..|]. apply (ci_ref_keys _ _ _ _ _ Hinv).
      + exact Hto. }
  assert (Ht1 : tokened self (view s1) i).
  { unfold s1. case_bool_decide; [|done]. split; [apply Ht|]. exists UP.
    assert (Hm' : members (_replace_member_locked (with_reachability REACHABLE x) (bump_revision (view s))) =
      dict_set (members (view s)) i (with_reachability REACHABLE x)).
    { rewrite replace_members. cbn. destruct Hs as [Hinv _]. by rewrite (ci_identity _ _ _ _ _ Hinv i x). }
    split; [|done]. cbn -[_replace_member_locked].
    rewrite (status_set (view s) _ _ _ i Hm'), decide_True by done. by cbn; rewrite Hup. }
  exists [(r, heartbeat_ack self (mi_incarnation_uid i) (hb_membership_token m) (hb_sequence m)
            (revision (view s1), wire_members s1))],
    (bool_decide (cm_reachability x = UNREACHABLE)), s1.
  destruct (Hadv Hs) as (Hs1 & _ & _). split; [|split; [done|by eapply addressed]].
  pose proof (snapshot_ok _ _ _ _ Hs1) as Hsnap.
  unfold s1 in *. destruct (bool_decide (cm_reachability x = UNREACHABLE));
    unfold when, modify, bind, ret; fold (touch s); by rewrite Hsnap.
Qed.

(** Each member found unreachable is replaced under its own revision. *)
Lemma detect_fold_advances now ps s b :
  NoDup ps.*1 ->
  (forall i m, (i, m) ∈ ps -> dict_get (members (view s)) i = Some m) ->
  cinv s ->
  advances s (foldl (fun acc p => detect_member self now p acc) (b, s) ps).2.
Proof.
  revert s b. induction ps as [|[i m] ps IH]; intros s b Hd Hps Hs; cbn [foldl fmap list_fmap] in *;
    [reflexivity|].
  apply NoDup_cons in Hd as [Hi Hd].
  assert (Hstep : exists s1 b1, detect_member self now (i, m) (b, s) = (b1, s1) /\ advances s s1 /\
    forall j, j <> i -> dict_get (members (view s1)) j = dict_get (members (view s)) j).
  { cbn [detect_member]. destruct (_ || _) eqn:E; [by exists s, b|]. cbn [snd].
    destruct (_ <? _); [by exists s, b|].
    rewrite !orb_false_iff, negb_false_iff in E. destruct E as [[_ Hup%bool_decide_eq_true] _].
    assert (Hg : dict_get (members (view s)) i = Some m) by (apply Hps; left).
    eexists _, true. split; [reflexivity|]. split.
    - by apply (replace_active_only _ _ _ s i m (with_reachability UNREACHABLE m)).
    - intros j Hj. cbn -[_replace_member_locked]. rewrite replace_members. cbn.
      destruct Hs as [Hinv _]. rewrite (ci_identity _ _ _ _ _ Hinv i m Hg). by rewrite dict_get_set_ne. }
  destruct Hstep as (s1 & b1 & -> & Hadv & Hsame). destruct (Hadv Hs) as (Hs1 & _ & _).
  etrans; [exact Hadv|]. apply IH; [done| |done].
  intros j n Hj. rewrite Hsame; [apply Hps; by right|]. intros ->. apply Hi.
  by apply (list_elem_of_fmap_2 fst _ (i, n)).
Qed.

Lemma detect_advances now s : cinv s -> advances s (detect_members_locked self now s).2.
Proof.
  intros Hs. apply detect_fold_advances; [..|done].
  - destruct Hs as [Hinv _]. apply (ci_keys _ _ _ _ _ Hinv).
  - intros i m Hi. destruct Hs as [Hinv _]. apply dict_elem_get; [apply (ci_keys _ _ _ _ _ Hinv)|done].
Qed.

(** Between its two sections, a leaving member is there and cannot be downed. *)
Definition leaving_ok (s : Runtime) (l : option (_Leave * MemberIdentity * Ref)) : Prop :=
  match l with
  | None => True
  | Some (_, i, r) => i <> me /\ ref_target r = i /\
      (status_at (view s) i = Some JOINING \/ status_at (view s) i = Some LEAVING)
  end.

Definition lookup_leaving (m : _Leave) (i : MemberIdentity) (found : option (Ref * bool)) :
    option (_Leave * MemberIdentity * Ref) :=
  (fun p => (m, i, p.1)) <$> found.

Lemma leave_ok m i s :
  cinv s ->
  exists found s', leave_locked m i s = (found, s') /\ advances s s' /\
    leaving_ok s' (lookup_leaving m i found).
Proof.
  intros Hs. unfold leave_locked.
  destruct (dict_get (members (view s)) i) as [x|] eqn:Em; [|by exists None, s].
  destruct (dict_get (member_refs (tables s)) i) as [r|] eqn:Er; [|by exists None, s].
  destruct (negb _); [by exists None, s|].
  assert (Ht : tokened self (view s) i).
  { destruct Hs as [Hinv _]. by apply (ci_refs _ _ _ _ _ Hinv), ex_intro with r. }
  assert (Etarget : ref_target r = i) by (destruct Hs as (_ & _ & Hr); by apply Hr).
  destruct Ht as [Hne (y & Hy & Hyl)].
  case_bool_decide as Hup.
  - eexists (Some (r, true)), _. split; [reflexivity|]. split.
    + apply (replace_active_only _ _ _ s i x (with_status LEAVING x)); [done..| |]; cbn; by rewrite Hup.
    + split; [done|]. split; [done|]. right.
      assert (Hm' : members (_replace_member_locked (with_status LEAVING x) (bump_revision (view s))) =
        dict_set (members (view s)) i (with_status LEAVING x)).
      { rewrite replace_members. cbn. destruct Hs as [Hinv _]. by rewrite (ci_identity _ _ _ _ _ Hinv i x). }
      cbn -[_replace_member_locked]. by rewrite (status_set (view s) _ _ _ i Hm'), decide_True.
  - exists (Some (r, false)), s. split; [done|]. split; [reflexivity|].
    split; [done|]. split; [done|]. unfold status_at in *. rewrite Em in *. cbn in *.
    destruct (cm_status x); try done; [by left|by right|congruence].
Qed.

Lemma left_ok m i r s :
  cinv s -> leaving_ok s (Some (m, i, r)) ->
  exists out s', left_locked ip_unspecified IPv6Address self m i r s = (Ret out, s') /\
    advances s s' /\ mail_ok s' out.
Proof.
  intros Hs (Hne & Etarget & Hst).
  assert (Hg : exists x, dict_get (members (view s)) i = Some x /\ cm_status x <> LEFT /\
    status_at (view s) i = Some (cm_status x)).
  { unfold status_at in *. destruct (dict_get (members (view s)) i) as [x|]; [|by destruct Hst].
    exists x. cbn in *. split; [done|]. split; [|done]. destruct Hst; congruence. }
  destruct Hg as (x & Hg & Hx & Hsx).
  set (s1 := with_view (fun v => _replace_member_locked (with_status LEFT x) (bump_revision v)) s).
  pose proof (replace_left ip_unspecified IPv6Address self s i x Hne Hg) as Hadv. fold s1 in Hadv.
  destruct (Hadv Hs) as (Hs2 & _ & _).
  assert (Hm' : members (view s1) = dict_set (members (view s)) i (with_status LEFT x)).
  { unfold s1. cbn -[_replace_member_locked]. rewrite replace_members. cbn. destruct Hs as [Hinv _].
    by rewrite (ci_identity _ _ _ _ _ Hinv i x). }
  assert (Hsnap : _wire_snapshot_locked ip_unspecified IPv6Address s1 =
    (Ret (revision (view s1), wire_members s1), s1)).
  { unfold _wire_snapshot_locked, bind, get.
    pose proof (wire_members_ok _ _ _ _ Hs2) as Hw.
    change (wire_members (_revoke_member_locked i s1)) with (wire_members s1) in Hw. by rewrite Hw. }
  exists [(r, leave_ack self (mi_incarnation_uid i) (lv_request_id m) (revision (view s1), wire_members s1))],
    (_revoke_member_locked i s1).
  split; [|split; [done|]].
  - unfold left_locked. unfold bind at 1, get at 1. rewrite Hg. cbn [lift].
    unfold when, modify, bind, ret. rewrite bool_decide_eq_false_2 by done. cbn [negb]. fold s1.
    by rewrite Hsnap.
  - apply Forall_singleton. split; [done|]. cbn [fst]. rewrite Etarget.
    change (view (_revoke_member_locked i s1)) with (view s1).
    split; [done|]. split.
    + rewrite (status_set (view s) _ _ _ i Hm'), decide_True by done. by eexists.
    + intros j y Hy Hyl Hn. rewrite (status_set (view s) _ _ _ j Hm') in Hy.
      case_decide; [done|]. destruct Hs as [Hinv _].
      by apply (ci_active _ _ _ _ _ Hinv j i y (cm_status x)).
Qed.

(** [down] either raises and changes nothing, or answers. *)
Lemma down_ok i s :
  cinv s -> i <> me ->
  exists o s', down_locked i s = (o, s') /\ advances s s' /\
    (match o with Raise e => e = ClusterError /\ s' = s | Ret _ => True end) /\
    forall j, status_at (view s) j <> Some UP -> status_at (view s') j = status_at (view s) j.
Proof.
  intros Hs Hne. unfold down_locked. unfold bind at 1, get at 1.
  case_bool_decide; cbn [negb]; [|by eexists _, s].
  destruct (dict_get (members (view s)) i) as [x|] eqn:Em; [|by eexists _, s].
  case_bool_decide; [by eexists _, s|]. case_bool_decide as Hup; cbn [negb]; [|by eexists _, s].
  case_bool_decide; cbn [negb]; [|by eexists _, s].
  eexists _, _. split; [reflexivity|]. split; [|split; [done|]].
  - by apply (replace_left _ _ _ s i x).
  - intros j Hj.
    assert (Hm' : members (_replace_member_locked (with_status LEFT x) (bump_revision (view s))) =
      dict_set (members (view s)) i (with_status LEFT x)).
    { rewrite replace_members. cbn. destruct Hs as [Hinv _]. by rewrite (ci_identity _ _ _ _ _ Hinv i x). }
    cbn -[_replace_member_locked]. rewrite (status_set (view s) _ _ _ j Hm'). case_decide; [|done].
    subst j. unfold status_at in Hj. rewrite Em in Hj. cbn in Hj. congruence.
Qed.

(** The coordinator's own status moves with a revision of its own. *)
Lemma self_status_ok x s :
  cinv s -> x <> JOINING -> (status_at (view s) me = Some LEFT -> x = LEFT) ->
  exists s', set_self_status self x true s = (Ret tt, s') /\ advances s s' /\
    status_at (view s') me = Some x /\
    forall j, j <> me -> status_at (view s') j = status_at (view s) j.
Proof.
  intros Hs Hx Hl. unfold set_self_status. unfold bind at 1, get at 1.
  destruct Hs as [Hinv Hto] eqn:E. clear E.
  destruct (ci_self _ _ _ _ _ Hinv) as (m & Em & Hmj). rewrite Em. cbn [lift].
  unfold bind, ret, modify. eexists. split; [reflexivity|].
  assert (Hl' : cm_status m = LEFT -> x = LEFT).
  { intros Hm. apply Hl. unfold status_at. by rewrite Em; cbn; rewrite Hm. }
  assert (Hm' : members (_replace_member_locked (with_status x m) (bump_revision (view s))) =
    dict_set (members (view s)) me (with_status x m)).
  { rewrite replace_members. cbn. by rewrite (ci_identity _ _ _ _ _ Hinv _ m Em). }
  split; [|split].
  - apply advances_bump; [intros _; split| |intros _].
    + eapply (set_self_inv _ _ _ (view s) (tables s) _ m x); try done.
      * cbn. by rewrite replace_retired.
      * cbn. rewrite replace_revision. cbn. destruct (ci_revision _ _ _ _ _ Hinv). lia.
      * etrans; [|apply replace_view_revision]. cbn. by destruct (ci_revision _ _ _ _ _ Hinv).
    + exact Hto.
    + cbn. by rewrite replace_revision.
    + apply (gone_set _ _ me m (with_status x m)); [done|done|exact Hm'|]. cbn. by rewrite replace_retired.
  - cbn -[_replace_member_locked]. by rewrite (status_set (view s) _ _ _ me Hm'), decide_True.
  - intros j Hj. cbn -[_replace_member_locked]. by rewrite (status_set (view s) _ _ _ j Hm'), decide_False.
Qed.

Lemma broadcast_ok exclude s :
  cinv s -> exists out, broadcast_locked ip_unspecified IPv6Address self exclude s = (Ret out, s) /\ mail_ok s out.
Proof.
  intros Hs. unfold broadcast_locked, bind, get, ret. rewrite (snapshot_ok _ _ _ _ Hs).
  eexists. split; [reflexivity|]. apply Forall_forall. intros [r c] Hin.
  unfold updates in Hin. apply list_elem_of_bind in Hin as ([i r'] & Hin & Hr). cbn in Hin.
  case_bool_decide; [by apply not_elem_of_nil in Hin|].
  destruct (dict_get (member_tokens (tables s)) i); [|by apply not_elem_of_nil in Hin].
  apply list_elem_of_singleton in Hin as [= -> ->]. split; [done|]. cbn.
  destruct Hs as [Hinv [_ Ht]].
  assert (Hg : dict_get (member_refs (tables s)) i = Some r').
  { apply dict_elem_get; [apply (ci_ref_keys _ _ _ _ _ Hinv)|done]. }
  rewrite (Ht _ _ Hg). eapply tokened_addressee; [exact Hinv|].
  by apply (ci_refs _ _ _ _ _ Hinv), ex_intro with r'.
Qed.
End steps.
