(* ===== verification/ClusterSystem.v ===== *)
(** A cluster: one coordinator, its members, and a network that may lose, repeat, delay and
    reorder what the coordinator sends.

    [coord_step] is a section of the coordinator with what it sends; [member_step] a section
    of a member, which may receive any message the coordinator sent to it, or anything from
    anyone else; [world_step] interleaves them.  Messages to the coordinator are arbitrary:
    the theorems do not rely on members following the protocol. *)

From stdpp Require Import base list numbers strings gmap relations.
From S2P Require Import Prelude Bytes PyStr Dict Serialization Wire ActorPath Transport.
From S2P Require Import Effects Association Cluster ClusterRuntime ClusterInv ClusterSteps.

Record cstate := mkCState {
  c_run : Runtime;
  c_leaving : option (_Leave * MemberIdentity * Ref) }.

Section coordinator.
Context (ip_unspecified : pystr -> bool) (IPv6Address : pystr -> option pystr).
Context (UUID_of : pystr -> option Z) (self : ClusterSetup).

Abbreviation me := (self_identity self).
Abbreviation cinv := (cinv ip_unspecified IPv6Address self).
Abbreviation advances := (advances ip_unspecified IPv6Address self).

(** The worker handles one message at a time; [down], the stop of the system and what does
    not touch the membership may come in between. *)
Inductive coord_step : cstate -> list (Ref * control) -> cstate -> Prop :=
| cs_join_request m i ep fresh now deadline s out s' :
    dict_get (su_peers self) (mi_system_name i) = Some ep ->
    _is_remote_name (mi_system_name i) = true ->
    mi_incarnation_uid i <> 0 -> jr_source_control_actor_uid m <> 0 ->
    join_request_locked ip_unspecified IPv6Address UUID_of self m i ep fresh now deadline s
      = (Ret out, s') ->
    coord_step (mkCState s None) out (mkCState s' None)
| cs_expire i request s :
    coord_step (mkCState s None) [] (mkCState (expire_locked i request s) None)
| cs_confirm m i now now' s b s' :
    join_confirm_locked m i now now' s = (Ret b, s') ->
    coord_step (mkCState s None) [] (mkCState s' None)
| cs_heartbeat m i now s out b s' :
    heartbeat_locked ip_unspecified IPv6Address self m i now s = (Ret (out, b), s') ->
    coord_step (mkCState s None) out (mkCState s' None)
| cs_detect now s :
    coord_step (mkCState s None) [] (mkCState (detect_members_locked self now s).2 None)
| cs_leave m i s found s' :
    leave_locked m i s = (found, s') ->
    coord_step (mkCState s None) [] (mkCState s' (lookup_leaving m i found))
| cs_left m i r s out s' :
    left_locked ip_unspecified IPv6Address self m i r s = (Ret out, s') ->
    coord_step (mkCState s (Some (m, i, r))) out (mkCState s' None)
| cs_down i s o s' l :
    i <> me -> down_locked i s = (o, s') -> coord_step (mkCState s l) [] (mkCState s' l)
| cs_self x s s' l :
    (status_at (view s) me = Some UP /\ x = LEAVING) \/
    (status_at (view s) me = Some LEAVING /\ x = LEFT) ->
    set_self_status self x true s = (Ret tt, s') ->
    coord_step (mkCState s l) [] (mkCState s' l)
| cs_broadcast exclude s out s' l :
    broadcast_locked ip_unspecified IPv6Address self exclude s = (Ret out, s') ->
    coord_step (mkCState s l) out (mkCState s' l)
| cs_other s s' l :
    view s' = view s -> tables s' = tables s -> coord_step (mkCState s l) [] (mkCState s' l).

Definition coord_ok (c : cstate) : Prop := cinv (c_run c) /\ leaving_ok self (c_run c) (c_leaving c).

Context (Hconf : config_ok ip_unspecified IPv6Address UUID_of self).

(** What the others do leaves a departing member as it is. *)
Lemma leaving_kept s s' l :
  (forall j, j <> me -> status_at (view s) j = Some JOINING \/ status_at (view s) j = Some LEAVING ->
     status_at (view s') j = status_at (view s) j) ->
  leaving_ok self s l -> leaving_ok self s' l.
Proof.
  intros Hst. destruct l as [[[m i] r]|]; [|done]. intros (Hne & Er & Hs). split; [done|].
  split; [done|]. by rewrite Hst.
Qed.

Lemma coord_step_ok c out c' :
  coord_step c out c' -> coord_ok c ->
  coord_ok c' /\ advances (c_run c) (c_run c') /\ mail_ok self (c_run c') out.
Proof.
  intros Hstep [Hs Hl].
  destruct Hstep as [m i ep fresh now deadline s out s' H1 H2 H3 H4 E|i request s|m i now now' s b s' E
    |m i now s out b s' E|now s|m i s found s' E|m i r s out s' E|i s o s' l Hne E|x s s' l Hx E
    |exclude s out s' l E|s s' l Ev Et]; cbn [c_run c_leaving] in *.
  - destruct (join_request_ok _ _ _ _ Hconf m i ep fresh now deadline s H1 H2 H3 H4 Hs)
      as (out' & s2 & E' & Ha & Hm).
    rewrite E' in E. injection E as <- <-. split; [split; [apply (Ha Hs)|done]|done].
  - pose proof (expire_advances ip_unspecified IPv6Address self i request s) as Ha.
    split; [split; [apply (Ha Hs)|done]|]. split; [done|by apply Forall_nil].
  - destruct (join_confirm_ok ip_unspecified IPv6Address self m i now now' s Hs) as (b' & s2 & E' & Ha).
    rewrite E' in E. injection E as <- <-. split; [split; [apply (Ha Hs)|done]|].
    split; [done|by apply Forall_nil].
  - destruct (heartbeat_ok ip_unspecified IPv6Address self m i now s Hs) as (out' & b' & s2 & E' & Ha & Hm).
    rewrite E' in E. injection E as <- <- <-. split; [split; [apply (Ha Hs)|done]|done].
  - pose proof (detect_advances ip_unspecified IPv6Address self now s Hs) as Ha.
    split; [split; [apply (Ha Hs)|done]|]. split; [done|by apply Forall_nil].
  - destruct (leave_ok ip_unspecified IPv6Address self m i s Hs) as (f' & s2 & E' & Ha & Hl').
    rewrite E' in E. injection E as <- <-. split; [split; [apply (Ha Hs)|done]|].
    split; [done|by apply Forall_nil].
  - destruct (left_ok ip_unspecified IPv6Address self m i r s Hs Hl) as (out' & s2 & E' & Ha & Hm).
    rewrite E' in E. injection E as <- <-. split; [split; [apply (Ha Hs)|done]|done].
  - destruct (down_ok ip_unspecified IPv6Address self i s Hs Hne) as (o' & s2 & E' & Ha & _ & Hst).
    rewrite E' in E. injection E as <- <-. split; [split; [apply (Ha Hs)|]|].
    + eapply leaving_kept; [|exact Hl]. intros j _ [Hj|Hj]; apply Hst; by rewrite Hj.
    + split; [done|by apply Forall_nil].
  - destruct (self_status_ok ip_unspecified IPv6Address self x s Hs) as (s2 & E' & Ha & _ & Hst).
    { by destruct Hx as [[_ ->]|[_ ->]]. }
    { intros H'. destruct Hx as [[Hx _]|[_ ->]]; [congruence|done]. }
    rewrite E' in E. injection E as <-. split; [split; [apply (Ha Hs)|]|].
    + eapply leaving_kept; [|exact Hl]. intros j Hj _. by apply Hst.
    + split; [done|by apply Forall_nil].
  - destruct (broadcast_ok ip_unspecified IPv6Address self exclude s Hs) as (out' & E' & Hm).
    rewrite E' in E. injection E as <- <-. split; [done|]. split; [reflexivity|done].
  - pose proof (advances_same ip_unspecified IPv6Address self s s' Ev Et) as Ha.
    split; [split; [apply (Ha Hs)|]|].
    + eapply leaving_kept; [|exact Hl]. intros j _ _. unfold status_at. cbn [c_run]. by rewrite Ev.
    + split; [done|by apply Forall_nil].
Qed.

(** The coordinator once it has formed the cluster. *)
Definition formed (now : Z) : cstate :=
  mkCState (form_locked self (with_life (set_state STARTING) (ClusterRuntime_new self now))).2 None.

Definition self_up : ClusterMember := mkMember me (su_endpoint self) UP REACHABLE.
Lemma formed_run now :
  form_locked self (with_life (set_state STARTING) (ClusterRuntime_new self now)) =
  (Ret tt, with_client set_join_complete
     (with_view (fun v => _replace_member_locked self_up (bump_revision v))
        (with_life (set_state STARTING) (ClusterRuntime_new self now)))).
Proof.
  unfold form_locked, set_self_status. unfold bind at 1 2, get at 1.
  assert (Hg : dict_get (members (view (with_life (set_state STARTING) (ClusterRuntime_new self now)))) me
    = Some (mkMember me (su_endpoint self) JOINING REACHABLE)).
  { cbn -[decide]. by rewrite decide_True. }
  by rewrite Hg.
Qed.
Lemma formed_members now : members (view (c_run (formed now))) = [(me, self_up)].
Proof.
  unfold formed. rewrite formed_run. cbn [c_run snd]. cbn -[_replace_member_locked decide].
  rewrite replace_members. cbn -[decide]. by rewrite decide_True.
Qed.

Lemma formed_ok now : coord_ok (formed now).
Proof.
  pose proof (formed_members now) as Hm. split; [|done].
  assert (Hv : revision (view (c_run (formed now))) = 1 /\ view_revision (view (c_run (formed now))) = 1 /\
    retired_identities (view (c_run (formed now))) = ∅ /\
    tables (c_run (formed now)) = mkTables [] [] [] [(me, now)] [] []).
  { unfold formed. rewrite formed_run. cbn [c_run snd]. unfold _replace_member_locked. cbn -[decide].
    rewrite decide_True by done. by rewrite bool_decide_eq_false_2. }
  destruct Hv as (Hr & Hvr & Hret & Ht).
  pose proof (co_config _ _ _ _ Hconf) as Hc. pose proof (co_valid _ _ _ _ Hconf) as Hval.
  assert (Hlim : 1 <= member_limit (su_config self) /\ 1 <= retired_identity_limit (su_config self)).
  { unfold ClusterConfig_check in Hc. apply bind_ok in Hc as (u1 & _ & Hc).
    apply bind_ok in Hc as (u2 & _ & Hc). apply bind_ok in Hc as (u3 & _ & Hc).
    apply bind_ok in Hc as (u4 & Hx & _). apply raise_unless_ok in Hx. cbn [forallb] in Hx.
    rewrite !andb_true_iff in Hx. lia. }
  assert (Hst : forall i, status_at (view (c_run (formed now))) i = if decide (i = me) then Some UP else None).
  { intros i. unfold status_at. rewrite Hm. cbn. by case_decide. }
  assert (Hg : forall i m, dict_get (members (view (c_run (formed now)))) i = Some m ->
    i = me /\ m = self_up).
  { intros i m. rewrite Hm. cbn. case_decide; naive_solver. }
  assert (Htok : forall i, ~ tokened self (view (c_run (formed now))) i).
  { intros i [Hne (x & Hx & _)]. rewrite Hst, decide_False in Hx by done. done. }
  assert (Hnone : forall {V} i, ~ is_Some (dict_get ([] : list (MemberIdentity * V)) i)).
  { intros V i [? ?]. done. }
  split.
  - split; rewrite ?Ht, ?Hret, ?Hr, ?Hvr; cbn [member_tokens member_refs pending_joins].
    + rewrite Hm. apply NoDup_singleton.
    + intros i m [-> ->]%Hg. done.
    + exists self_up. rewrite Hm. cbn. by rewrite decide_True.
    + intros i j x y. rewrite !Hst. repeat case_decide; congruence.
    + rewrite Hm. unfold len. cbn. lia.
    + set_solver.
    + rewrite size_empty. lia.
    + intros i m [-> ->]%Hg. destruct (co_endpoint _ _ _ _ Hconf) as [Hh Hp].
      unfold _validate_configuration in Hval. apply bind_ok in Hval as (i0 & Hi0 & _).
      unfold MemberIdentity_new, _validate_name in Hi0. apply bind_ok in Hi0 as ([] & Hn & Hi0).
      apply bind_ok in Hi0 as ([] & Hu & _). apply raise_unless_ok in Hn, Hu.
      unfold WireMember_check, wire_name, wire_uuid, wire_member. cbn. rewrite Hn. cbn. rewrite Hu. cbn.
      by rewrite Hh, Hp.
    + intros i. split; [by intros H'%Hnone|]. rewrite Hst. intros [Hi Hx]. by rewrite decide_False in Hx.
    + intros i. split; [by intros H'%Hnone|]. by intros H'%Htok.
    + intros i. split; [by intros H'%Hnone|]. by intros H'%Htok.
    + apply NoDup_nil. done.
    + lia.
  - rewrite Ht. split; cbn; [apply not_elem_of_nil|done].
Qed.
End coordinator.
