(* ===== verification/ClusterMember.v ===== *)
(** A member of a cluster: how its view follows the coordinator's.

    [follows] relates the view of a member to the coordinator's view it was last sent: the
    same members with the same endpoints and status, except that a member that is leaving
    keeps its own word on that and judges for itself whether the coordinator is reachable. *)

From stdpp Require Import base list numbers strings gmap relations.
From S2P Require Import Prelude Bytes PyStr Dict Serialization Wire ActorPath Transport.
From S2P Require Import Effects Association Cluster ClusterRuntime ClusterInv ClusterSteps ClusterSystem.

(** What the coordinator sends of a view. *)
Definition wire_of (v : View) : list _WireMember := wire_member <$> sorted_members (members v).*2.

(** ** Reading a snapshot back *)

Definition keyed (ms : list ClusterMember) : list (MemberIdentity * ClusterMember) :=
  (fun m => (cm_identity m, m)) <$> ms.

Lemma convert_wire self cms acc conv :
  convert_members self (wire_member <$> cms) acc = Ok (Some conv) ->
  NoDup (cm_identity <$> cms) -> (forall m, m ∈ cms -> cm_identity m ∉ acc.*1) ->
  conv = acc ++ keyed cms.
Proof.
  revert acc. induction cms as [|m cms IH]; intros acc; cbn [convert_members fmap list_fmap].
  { intros [= <-] _ _. by rewrite app_nil_r. }
  intros H Hd Hacc. apply NoDup_cons in Hd as [Hm Hd].
  apply bind_ok in H as (i & Hi & H). apply bind_ok in H as (e & He & H).
  assert (i = cm_identity m) as ->.
  { unfold MemberIdentity_new in Hi. apply bind_ok in Hi as (u & _ & Hi).
    apply bind_ok in Hi as (u' & _ & [= <-]). by destruct (cm_identity m). }
  assert (e = cm_endpoint m) as ->.
  { unfold Endpoint_new in He. apply bind_ok in He as (u & _ & He).
    apply bind_ok in He as (u' & _ & [= <-]). by destruct (cm_endpoint m). }
  destruct (_ && _); [done|]. destruct (_ && _); [done|].
  cbn [wm_status wm_reachability wire_member] in H.
  rewrite status_roundtrip, reachability_roundtrip in H. cbn [mbind result_bind] in H.
  apply bind_ok in H as (m' & Hm' & H).
  assert (m' = m) as ->.
  { unfold ClusterMember_new in Hm'. apply bind_ok in Hm' as (u & _ & [= <-]). by destruct m. }
  assert (Hfresh : cm_identity m ∉ acc.*1) by (apply Hacc; left).
  rewrite dict_set_fresh in H by done. rewrite (IH _ H Hd), <- app_assoc; [done|].
  intros n Hn. rewrite fmap_app, not_elem_of_app. split; [apply Hacc; by right|].
  cbn. rewrite list_elem_of_singleton. intros E. apply Hm. rewrite <- E. by apply list_elem_of_fmap_2.
Qed.

Lemma keyed_keys ms : (keyed ms).*1 = cm_identity <$> ms.
Proof. unfold keyed. rewrite <- list_fmap_compose. done. Qed.

Section member.
Context (ip_unspecified : pystr -> bool) (IPv6Address : pystr -> option pystr).
(** [coord] is the coordinator, [self] the member. *)
Context (coord self : ClusterSetup).

Abbreviation coord_inv := (coord_inv ip_unspecified IPv6Address coord).
Abbreviation boss := (self_identity coord).
Abbreviation me := (self_identity self).

Lemma members_identities v t : coord_inv v t -> cm_identity <$> (members v).*2 = (members v).*1.
Proof.
  intros Hinv. apply keyed_identities; [apply (ci_keys _ _ _ _ _ Hinv)|apply (ci_identity _ _ _ _ _ Hinv)].
Qed.

(** A snapshot of the coordinator is read as the members it had. *)
Lemma convert_view v t conv :
  coord_inv v t -> convert_members self (wire_of v) [] = Ok (Some conv) ->
  NoDup conv.*1 /\ forall i, dict_get conv i = dict_get (members v) i.
Proof.
  intros Hinv H. pose proof (sorted_members_perm (members v).*2) as Hp.
  assert (Hd : NoDup (cm_identity <$> sorted_members (members v).*2)).
  { rewrite Hp, (members_identities _ _ Hinv). apply (ci_keys _ _ _ _ _ Hinv). }
  apply convert_wire in H; [|done|intros; apply not_elem_of_nil]. subst conv. cbn [app].
  assert (Hk : NoDup (keyed (sorted_members (members v).*2)).*1) by by rewrite keyed_keys.
  split; [done|]. intros i.
  destruct (dict_get (members v) i) as [m|] eqn:E.
  - apply dict_elem_get; [done|]. apply dict_get_elem in E as Hin.
    apply list_elem_of_fmap. exists m. rewrite Hp. split.
    + by rewrite (ci_identity _ _ _ _ _ Hinv i m E).
    + by apply (list_elem_of_fmap_2 snd _ (i, m)).
  - apply dict_get_none. rewrite keyed_keys, Hp, (members_identities _ _ Hinv). by apply dict_get_none.
Qed.

(** What is sent determines the members. *)
#[local] Instance wire_member_inj : Inj (=) (=) wire_member.
Proof.
  intros [[n u] [h p] x y] [[n' u'] [h' p'] x' y'] [= -> -> -> -> Hx Hy].
  assert (x = x') as ->. { pose proof (status_roundtrip x) as E. rewrite Hx, status_roundtrip in E. by injection E. }
  assert (y = y') as ->. { pose proof (reachability_roundtrip y) as E. rewrite Hy, reachability_roundtrip in E. by injection E. }
  done.
Qed.

Lemma dict_get_value v t i m :
  coord_inv v t -> dict_get (members v) i = Some m <-> m ∈ (members v).*2 /\ cm_identity m = i.
Proof.
  intros Hinv. split.
  - intros Hm. split; [|by apply (ci_identity _ _ _ _ _ Hinv)].
    apply dict_get_elem in Hm. by apply (list_elem_of_fmap_2 snd _ (i, m)).
  - intros [([j n] & -> & Hj)%list_elem_of_fmap Hi]. apply dict_elem_get in Hj; [|apply (ci_keys _ _ _ _ _ Hinv)].
    pose proof (ci_identity _ _ _ _ _ Hinv _ _ Hj). cbn in *. congruence.
Qed.

Lemma wire_of_inj v t v' t' :
  coord_inv v t -> coord_inv v' t' -> wire_of v = wire_of v' ->
  forall i, dict_get (members v) i = dict_get (members v') i.
Proof.
  intros Hv Hv' E i. apply (inj (fmap wire_member)) in E.
  assert (Hp : (members v).*2 ≡ₚ (members v').*2).
  { by rewrite <- (sorted_members_perm (members v).*2), E, sorted_members_perm. }
  apply option_eq. intros m. rewrite (dict_get_value _ _ _ _ Hv), (dict_get_value _ _ _ _ Hv'). by rewrite Hp.
Qed.

(** ** Following *)

Definition similar (i : MemberIdentity) (a b : ClusterMember) : Prop :=
  cm_identity a = cm_identity b /\ cm_endpoint a = cm_endpoint b /\
  (cm_status a = cm_status b \/ i = me /\ (cm_status a = LEAVING \/ cm_status a = LEFT)) /\
  (i <> boss -> cm_reachability a = cm_reachability b).

Definition similar_members (ds es : list (MemberIdentity * ClusterMember)) : Prop :=
  forall i, match dict_get ds i, dict_get es i with
            | Some a, Some b => similar i a b
            | None, None => True
            | _, _ => False
            end.

(** The last snapshot adopted, as the coordinator sent it to this member. *)
Definition follows (sent : list (Ref * control)) (v : View) : Prop :=
  match authoritative_snapshot v with
  | None => forall i, is_Some (dict_get (members v) i) -> i = me
  | Some ms => exists cv t r c,
      coord_inv cv t /\ addressee coord cv me /\
      (r, c) ∈ sent /\ ref_target r = me /\ snapshot_of c = Some (revision v, ms) /\
      revision cv = revision v /\ ms = wire_of cv /\
      similar_members (members v) (members cv)
  end.

Record node_inv (sent : list (Ref * control)) (v : View) : Prop := {
  ni_keys : NoDup (members v).*1;
  ni_identity : forall i m, dict_get (members v) i = Some m -> cm_identity m = i;
  ni_self : is_Some (dict_get (members v) me);
  ni_revision : 0 <= revision v /\ 0 <= view_revision v;
  ni_retired : forall i x, i ∈ retired_identities v -> i <> me -> status_at v i = Some x -> x = LEFT;
  ni_follows : follows sent v }.

(** What is sent later does not matter. *)
Lemma node_inv_sent sent more v : node_inv sent v -> node_inv (sent ++ more) v.
Proof.
  intros [Hk Hi Hs Hr Hret Hf]. split; try done. unfold follows in *.
  destruct (authoritative_snapshot v); [|done].
  destruct Hf as (cv & t & r & c & ? & ? & Hin & Hrest). exists cv, t, r, c. split; [done|].
  split; [done|]. split; [|done]. apply elem_of_app. by left.
Qed.

(** The member changes its own status or its opinion of the coordinator. *)
Lemma node_replace sent v i m m' :
  node_inv sent v -> dict_get (members v) i = Some m ->
  cm_identity m' = cm_identity m -> cm_endpoint m' = cm_endpoint m ->
  (cm_status m' = cm_status m \/ i = me /\ (cm_status m' = LEAVING \/ cm_status m' = LEFT)) ->
  (i = boss \/ cm_reachability m' = cm_reachability m) ->
  node_inv sent (_replace_member_locked m' v).
Proof.
  intros [Hk Hi Hs Hr Hret Hf] Hg Eid Een Hst Hre.
  assert (Em : members (_replace_member_locked m' v) = dict_set (members v) i m').
  { rewrite replace_members, Eid. by rewrite (Hi i m Hg). }
  split.
  - rewrite Em. by apply dict_set_NoDup.
  - intros j n. rewrite Em, dict_get_set. case_decide as E; [|apply Hi]. intros [= <-]. subst j.
    rewrite Eid. by apply Hi.
  - rewrite Em, dict_get_set. case_decide; [by eexists|done].
  - rewrite replace_revision. pose proof (replace_view_revision m' v). lia.
  - intros j x. rewrite replace_retired, (status_set _ _ _ _ j Em). case_decide as E; [|apply Hret].
    intros Hj Hne [= <-]. subst j. destruct Hst as [->|[? _]]; [|done].
    apply (Hret i); [done..|]. unfold status_at. by rewrite Hg.
  - unfold follows in *.
    assert (Ea : authoritative_snapshot (_replace_member_locked m' v) = authoritative_snapshot v)
      by (unfold _replace_member_locked; by case_bool_decide).
    rewrite Ea, replace_revision. destruct (authoritative_snapshot v) as [ms|].
    + destruct Hf as (cv & t & r & c & H1 & H2 & H3 & H4 & H5 & H6 & H7 & H8). exists cv, t, r, c.
      do 7 (split; [done|]). intros j. specialize (H8 j). rewrite Em, dict_get_set.
      case_decide as E; [|done]. subst j. rewrite Hg in H8. destruct (dict_get (members cv) i); [|done].
      destruct H8 as (S1 & S2 & S3 & S4). split; [congruence|]. split; [congruence|]. split.
      * destruct Hst as [Hst|]; [|by right]. destruct S3 as [S3|[? S3]]; [left; congruence|right].
        split; [done|]. by rewrite Hst.
      * intros Hb. destruct Hre as [?|Hre]; [done|]. rewrite Hre. by apply S4.
    + intros j. rewrite Em, dict_get_set. case_decide as E; [|apply Hf]. intros _. subst j.
      apply Hf. by eexists.
Qed.

(** ** Adopting a snapshot *)

Lemma adopt_members rev ms conv v : members (adopt rev ms conv v) = conv.
Proof. done. Qed.

(** What [_apply_wire_snapshot_locked] can do. *)
Lemma apply_cases rev ms s o s' :
  _apply_wire_snapshot_locked self rev ms s = (o, s') ->
  (s' = s /\ (o = Ret true -> revision (view s) = rev /\ authoritative_snapshot (view s) = Some ms)) \/
  (o = Ret true /\ revision (view s) <= rev /\
   exists conv self_member current,
     convert_members self ms [] = Ok (Some conv) /\
     dict_get conv me = Some self_member /\ dict_get (members (view s)) me = Some current /\
     resurrects (view s) conv = false /\
     s' = with_view (adopt rev ms (match cm_status current with
            | LEAVING | LEFT => dict_set conv me (with_status (cm_status current) self_member)
            | _ => conv end)) s).
Proof.
  unfold _apply_wire_snapshot_locked. unfold bind at 1, get at 1.
  destruct (_ || _) eqn:E0; [intros [= <- <-]; by left|].
  apply orb_false_iff in E0 as [Hrev%Z.ltb_ge _].
  destruct (_ && _) eqn:E1.
  { intros [= <- <-]. left. split; [done|]. intros [= Hb].
    apply bool_decide_eq_true in Hb. apply andb_true_iff in E1 as [E1 _]. apply Z.eqb_eq in E1. by rewrite E1. }
  unfold bind at 1. destruct (convert_members self ms []) as [[conv|]|e] eqn:Ec; cbn [lift];
    [|by intros [= <- <-]; left|by intros [= <- <-]; left].
  unfold ret at 1. cbv beta iota.
  destruct (dict_get conv me) as [sm|] eqn:Es; [|by intros [= <- <-]; left].
  destruct (coordinator_identity (client s)) as [b|]; [|by intros [= <- <-]; left].
  destruct (negb _ || _ || _) eqn:E2; [by intros [= <- <-]; left|].
  rewrite !orb_false_iff in E2. destruct E2 as [_ E2].
  unfold bind at 1, keep_own_status. destruct (dict_get (members (view s)) me) as [cur|] eqn:Ecur;
    cbn [lift]; [|by intros [= <- <-]; left].
  intros [= <- <-]. right. split; [done|]. split; [lia|]. by exists conv, sm, cur.
Qed.

Lemma node_adopt sent v t cv r c rev current self_member conv :
  node_inv sent v -> coord_inv cv t -> addressee coord cv me ->
  (r, c) ∈ sent -> ref_target r = me -> snapshot_of c = Some (rev, wire_of cv) -> revision cv = rev ->
  convert_members self (wire_of cv) [] = Ok (Some conv) ->
  dict_get conv me = Some self_member -> dict_get (members v) me = Some current ->
  resurrects v conv = false ->
  node_inv sent (adopt rev (wire_of cv) (match cm_status current with
    | LEAVING | LEFT => dict_set conv me (with_status (cm_status current) self_member)
    | _ => conv end) v).
Proof.
  intros [Hk Hi Hs Hr Hret Hf] Hinv Hadd Hin Er Hsnap Erev Hc Hsm Hcur Hres.
  destruct (convert_view _ _ _ Hinv Hc) as [Hd Hg].
  assert (Hme : cm_identity self_member = me).
  { rewrite Hg in Hsm. by apply (ci_identity _ _ _ _ _ Hinv). }
  match goal with |- node_inv _ (adopt _ _ ?own _) => set (own' := own) end.
  assert (Hown : NoDup own'.*1 /\ forall i, dict_get own' i = dict_get conv i \/
    i = me /\ dict_get own' i = Some (with_status (cm_status current) self_member) /\
    (cm_status current = LEAVING \/ cm_status current = LEFT)).
  { unfold own'. destruct (cm_status current); (split; [try done; by apply dict_set_NoDup|]);
      intros i; [by left|by left|rewrite dict_get_set; case_decide; [right|by left]..]; auto. }
  destruct Hown as [Hdo Hown].
  split.
  - exact Hdo.
  - intros i m. rewrite adopt_members. destruct (Hown i) as [->|(-> & -> & _)].
    + rewrite Hg. apply (ci_identity _ _ _ _ _ Hinv).
    + intros [= <-]. exact Hme.
  - rewrite adopt_members. destruct (Hown me) as [->|(_ & -> & _)]; by eexists.
  - cbn. destruct (ci_revision _ _ _ _ _ Hinv). split; [lia|]. case_match; lia.
  - intros i x Hi' Hne. unfold status_at. rewrite adopt_members. destruct (Hown i) as [->|(? & _)]; [|done].
    intros (m & Hm & ->)%fmap_Some. cbn in Hi'. apply elem_of_union in Hi' as [Hi'|Hi'].
    + destruct (decide (cm_status m = LEFT)); [done|]. exfalso. apply not_true_iff_false in Hres.
      apply Hres, existsb_exists. exists (i, m). split; [by apply list_elem_of_In, dict_get_elem|]. cbn.
      rewrite bool_decide_eq_false_2 by done. by rewrite bool_decide_eq_true_2.
    + unfold newly_retired in Hi'. apply elem_of_list_to_set, list_elem_of_fmap in Hi' as ([j n] & -> & Hj).
      apply list_elem_of_filter in Hj as [[_ Hj] _]. cbn in *.
      assert (Hno : dict_get conv j = None); [|congruence].
      destruct (Hown j) as [Ej|(? & _)]; [by rewrite <- Ej|done].
  - cbn. exists cv, t, r, c. do 7 (split; [done|]). intros i. cbn.
    destruct (Hown i) as [->|(-> & -> & Hst)].
    + rewrite Hg. destruct (dict_get (members cv) i); [|done]. by split_and!; [..|left|].
    + rewrite <- Hg, Hsm. split_and!; try done. by right.
Qed.

(** Who has left stays away from a member's view, too. *)
Lemma adopt_gone v rev ms conv self_member current i :
  NoDup conv.*1 -> NoDup (members v).*1 ->
  dict_get conv me = Some self_member -> dict_get (members v) me = Some current ->
  resurrects v conv = false ->
  gone v i ->
  gone (adopt rev ms (match cm_status current with
    | LEAVING | LEFT => dict_set conv me (with_status (cm_status current) self_member)
    | _ => conv end) v) i.
Proof.
  intros Hd Hk Hsm Hcur Hres [Hi|Hi].
  { left. cbn. set_solver. }
  unfold status_at in Hi. apply fmap_Some in Hi as (m & Hm & Hl).
  match goal with |- gone (adopt _ _ ?own _) _ => set (own' := own) end.
  destruct (dict_get own' i) as [n|] eqn:En.
  - right. unfold status_at. rewrite adopt_members, En. cbn. f_equal.
    assert (Hn : dict_get conv i = Some n \/ i = me).
    { unfold own' in En. destruct (cm_status current); auto;
        rewrite dict_get_set in En; case_decide; auto. }
    assert (Hconv : dict_get conv i = Some n -> cm_status n = LEFT).
    { intros Hcn. apply dict_get_elem in Hcn. destruct (decide (cm_status n = LEFT)); [done|].
      exfalso. apply not_true_iff_false in Hres. apply Hres, existsb_exists. exists (i, n).
      split; [by apply list_elem_of_In|]. cbn. rewrite bool_decide_eq_false_2 by done. cbn.
      apply orb_true_iff. right. apply bool_decide_eq_true. rewrite Hm. by cbn; rewrite Hl. }
    destruct Hn as [Hn| ->]; [by apply Hconv|].
    rewrite Hcur in Hm. injection Hm as <-. unfold own' in En. rewrite <- Hl in En.
    rewrite dict_get_set, decide_True in En by done. by injection En as <-.
  - left. cbn. apply elem_of_union. right. apply elem_of_list_to_set, list_elem_of_fmap.
    exists (i, m). split; [done|]. apply list_elem_of_filter. split; [by split|].
    by apply dict_get_elem.
Qed.

(** ** The sections of a member *)

Context (Hself : is_coordinator self = false) (Hboss : me <> boss).

Definition node_ok (sent : list (Ref * control)) (s : Runtime) : Prop :=
  node_inv sent (view s) /\
  (coordinator_identity (client s) = None \/ coordinator_identity (client s) = Some boss).

(** A section of a member keeps [node_ok], and nobody it knows to have left comes back;
    of itself it may say that it is leaving, though. *)
Definition moves (sent : list (Ref * control)) (s s' : Runtime) : Prop :=
  node_ok sent s ->
  node_ok sent s' /\ revision (view s) <= revision (view s') /\
  (forall i, i <> me -> gone (view s) i -> gone (view s') i).

#[local] Instance moves_preorder sent : PreOrder (moves sent).
Proof.
  split.
  - intros s Hs. split; [done|]. split; [done|auto].
  - intros s1 s2 s3 H12 H23 H1. destruct (H12 H1) as (H2 & Hl & Hg).
    destruct (H23 H2) as (H3 & Hl' & Hg'). split; [done|]. split; [lia|auto].
Qed.

Lemma moves_same sent s s' :
  view s' = view s -> coordinator_identity (client s') = coordinator_identity (client s) ->
  moves sent s s'.
Proof.
  intros Ev Ec [Hi Hc]. unfold node_ok. rewrite Ev, Ec. split; [done|]. split; [done|auto].
Qed.

(** A member changes; its status stays, unless it is this system's. *)
Lemma moves_replace sent s i m m' :
  dict_get (members (view s)) i = Some m ->
  cm_identity m' = cm_identity m -> cm_endpoint m' = cm_endpoint m ->
  (cm_status m' = cm_status m \/ i = me /\ (cm_status m' = LEAVING \/ cm_status m' = LEFT)) ->
  (i = boss \/ cm_reachability m' = cm_reachability m) ->
  moves sent s (with_view (_replace_member_locked m') s).
Proof.
  intros Hg Eid Een Hst Hre [Hi Hc]. split; [split; [by eapply node_replace|done]|].
  split; [cbn; by rewrite replace_revision|]. intros j Hj [Hr|Hl].
  { left. cbn. by rewrite replace_retired. }
  right. cbn -[_replace_member_locked].
  rewrite (status_set (view s) _ i m' j).
  - case_decide as E; [|done]. subst j. destruct Hst as [Hst|[? _]]; [|done].
    unfold status_at in Hl. rewrite Hg in Hl. cbn in Hl. congruence.
  - rewrite replace_members, Eid. by rewrite (ni_identity _ _ Hi i m Hg).
Qed.

(** What a message of the coordinator carries. *)
Definition carried (sent : list (Ref * control)) (rev : Z) (ms : list _WireMember) : Prop :=
  exists r c cv t, (r, c) ∈ sent /\ ref_target r = me /\ snapshot_of c = Some (rev, ms) /\
    coord_inv cv t /\ addressee coord cv me /\ revision cv = rev /\ ms = wire_of cv.

Lemma apply_moves sent rev ms s :
  carried sent rev ms -> moves sent s (_apply_wire_snapshot_locked self rev ms s).2.
Proof.
  intros (r & c & cv & t & Hin & Er & Hsnap & Hinv & Hadd & Erev & ->) [Hi Hc].
  destruct (_apply_wire_snapshot_locked _ _ _ _) as [o s'] eqn:E. cbn [snd].
  apply apply_cases in E as [[-> _]|(_ & Hle & conv & sm & cur & Hconv & Hsm & Hcur & Hres & ->)].
  { split; [done|]. split; [done|auto]. }
  destruct (convert_view _ _ _ Hinv Hconv) as [Hd _].
  split; [split; [|done]|split; [done|]].
  - by apply (node_adopt sent _ t cv r c).
  - intros i _. by apply (adopt_gone _ _ _ conv sm cur i Hd (ni_keys _ _ Hi)).
Qed.

Lemma note_moves sent now s : moves sent s (note_coordinator now s).
Proof. unfold note_coordinator. by case_match; apply moves_same. Qed.

Lemma mark_moves sent s : moves sent s (_mark_coordinator_reachable_locked s).
Proof.
  intros Hs. revert Hs. unfold _mark_coordinator_reachable_locked.
  destruct (coordinator_identity (client s)) as [b|] eqn:Eb; [|apply moves_same; done].
  destruct (dict_get (members (view s)) b) as [m|] eqn:Em; [|apply moves_same; done].
  case_bool_decide; [|apply moves_same; done]. intros Hs.
  apply (moves_replace sent s b m); auto. destruct Hs as [_ Hc]. left. rewrite Eb in Hc. naive_solver.
Qed.

Lemma detect_moves sent now s : moves sent s (detect_coordinator_locked self now s).
Proof.
  intros Hs. revert Hs. unfold detect_coordinator_locked.
  destruct (coordinator_identity (client s)) as [b|] eqn:Eb; [|apply moves_same; done].
  destruct (dict_get (members (view s)) b) as [m|] eqn:Em; [|apply moves_same; done].
  destruct (_ || _); [apply moves_same; done|]. intros Hs.
  apply (moves_replace sent s b m); auto. destruct Hs as [_ Hc]. left. rewrite Eb in Hc. naive_solver.
Qed.

Lemma own_status_moves sent x s :
  x = LEAVING \/ x = LEFT -> moves sent s (set_self_status self x false s).2.
Proof.
  intros Hx. unfold set_self_status, bind, get. destruct (dict_get (members (view s)) me) as [m|] eqn:Em;
    [|apply moves_same; done].
  cbn [lift ret]. apply (moves_replace sent s me m); auto.
Qed.

Lemma complete_moves sent s : moves sent s (_complete_join_if_up_locked self s).2.
Proof.
  unfold _complete_join_if_up_locked, bind, get. case_bool_decide; [apply moves_same; done|].
  destruct (dict_get (members (view s)) me); [|apply moves_same; done]. cbn [lift ret].
  unfold when. case_bool_decide; by apply moves_same.
Qed.

(** Everything sent shows one state of the coordinator. *)
Definition sent_ok (sent : list (Ref * control)) : Prop :=
  forall r c, (r, c) ∈ sent -> exists cv t,
    coord_inv cv t /\ addressee coord cv (ref_target r) /\ snapshot_of c = Some (revision cv, wire_of cv).

(** A message the network may hand to this system: the remoting layer names its source, so
    one that comes from the coordinator was sent by it, to this system. *)
Definition genuine (sent : list (Ref * control)) (source : MemberIdentity) (c : control) : Prop :=
  source = boss -> exists r, (r, c) ∈ sent /\ ref_target r = me.

(** What a member does with a message under its lock. *)
Definition receive (c : control) (source : MemberIdentity) (now : Z) : Eff Runtime exn unit :=
  match c with
  | JoinAccepted m => bind (join_accepted_locked self m source now) (fun _ => ret tt)
  | HeartbeatAck m => heartbeat_ack_locked self m source now
  | MembershipUpdate m => membership_update_locked self m source now
  | LeaveAck m => leave_ack_locked self m source
  | _ => ret tt
  end.

Lemma valid_source sent s name sys uid target source tok :
  node_ok sent s -> _valid_coordinator_message_locked self name sys uid target source tok s = true ->
  source = boss.
Proof.
  intros [_ Hc]. unfold _valid_coordinator_message_locked. rewrite andb_true_iff. intros [_ H].
  destruct (coordinator_identity (client s)); [|done]. rewrite !andb_true_iff in H.
  destruct H as [[[H _] _] _]. apply bool_decide_eq_true in H. naive_solver.
Qed.

Lemma genuine_carried sent source c rev ms :
  sent_ok sent -> genuine sent source c -> source = boss -> snapshot_of c = Some (rev, ms) ->
  carried sent rev ms.
Proof.
  intros Hsent Hg Hb Hc. destruct (Hg Hb) as (r & Hin & Hr).
  destruct (Hsent _ _ Hin) as (cv & t & Hinv & Hadd & Hsnap). rewrite Hr in Hadd.
  exists r, c, cv, t. rewrite Hsnap in Hc. injection Hc as <- <-. done.
Qed.

Lemma apply_preserves sent rev ms :
  carried sent rev ms -> Preserves (moves sent) (_apply_wire_snapshot_locked self rev ms).
Proof. intros H s. by apply apply_moves. Qed.
Lemma modify_preserves sent f : (forall s, moves sent s (f s)) -> Preserves (moves sent) (modify f : Eff Runtime exn unit).
Proof. intros H s. apply H. Qed.
Lemma client_preserves sent f :
  (forall c, coordinator_identity (f c) = coordinator_identity c) ->
  Preserves (moves sent) (modify (with_client f) : Eff Runtime exn unit).
Proof. intros H. apply modify_preserves. intros s. apply moves_same; [done|apply H]. Qed.
Lemma complete_preserves sent : Preserves (moves sent) (_complete_join_if_up_locked self).
Proof. intros s. apply complete_moves. Qed.

Lemma own_status_preserves sent x :
  x = LEAVING \/ x = LEFT -> Preserves (moves sent) (set_self_status self x false).
Proof. intros Hx s. by apply own_status_moves. Qed.

#[local] Hint Resolve own_status_preserves apply_preserves modify_preserves client_preserves complete_preserves
  note_moves mark_moves : preserves.

Lemma get_moves {A} sent s (k : Runtime -> Eff Runtime exn A) :
  (node_ok sent s -> Preserves (moves sent) (k s)) -> moves sent s (bind get k s).2.
Proof. intros H Hs. by apply (H Hs s). Qed.
Lemma then_moves sent s (m : Eff Runtime exn bool) :
  moves sent s (m s).2 -> moves sent s (bind m (fun _ => ret tt) s).2.
Proof. unfold bind. by destruct (m s) as [[]]. Qed.

Lemma receive_moves sent source c now s :
  sent_ok sent -> genuine sent source c -> moves sent s (receive c source now s).2.
Proof.
  intros Hsent Hg.
  assert (Hcar : forall rev ms, snapshot_of c = Some (rev, ms) -> source = boss -> carried sent rev ms).
  { intros rev ms E Hb. by apply (genuine_carried sent source c). }
  assert (Hv : forall name sys uid target tok, node_ok sent s ->
    _valid_coordinator_message_locked self name sys uid target source tok s = true -> source = boss).
  { intros. by eapply valid_source. }
  destruct c as [|m| | |m|m| |m]; cbn [receive snapshot_of] in *; try (apply moves_same; done);
    try apply then_moves; unfold join_accepted_locked, heartbeat_ack_locked, membership_update_locked,
      leave_ack_locked; apply get_moves; intros Hs; rewrite ?Hself; cbn [orb];
    (destruct (_valid_coordinator_message_locked _ _ _ _ _ _ _ _) eqn:E; cbn [negb orb];
      [apply Hv in E; [|done]; specialize (Hcar _ _ eq_refl E)|apply preserves_ret; apply _]);
    preserves; apply client_preserves; done.
Qed.

Lemma similar_status ds es i :
  similar_members ds es ->
  (cm_status <$> dict_get ds i) = (cm_status <$> dict_get es i) \/ i = me.
Proof.
  intros H. specialize (H i). destruct (dict_get ds i), (dict_get es i); try done; [|by left].
  destruct H as (_ & _ & [E|[E _]] & _); [left|by right]. cbn. by rewrite E.
Qed.

(** A member's view can always be read. *)
Lemma node_readable sent v : node_inv sent v -> readable self v.
Proof.
  intros [Hk Hi Hs Hr _ Hf]. split; try done; [|apply Hr].
  intros i j x y Hx Hy Hxl Hyl Hn. unfold follows in Hf.
  destruct (authoritative_snapshot v) as [ms|].
  2: { unfold status_at in Hx, Hy. apply fmap_Some in Hx as (m & Hm & _), Hy as (n & Hn' & _).
       trans (self_identity self); [|symmetry]; apply Hf; by eexists. }
  destruct Hf as (cv & t & r & c & Hinv & (_ & Hme & Hadd) & _ & _ & _ & _ & _ & Hsim).
  unfold status_at in Hx, Hy.
  destruct (similar_status _ _ i Hsim) as [Ei|Ei], (similar_status _ _ j Hsim) as [Ej|Ej].
  - rewrite Ei in Hx. rewrite Ej in Hy. by apply (ci_active _ _ _ _ _ Hinv i j x y).
  - rewrite Ei in Hx. rewrite Ej. apply (Hadd i x Hx Hxl). by rewrite Hn, Ej.
  - rewrite Ej in Hy. rewrite Ei. symmetry. apply (Hadd j y Hy Hyl). by rewrite <- Hn, Ei.
  - by rewrite Ei, Ej.
Qed.

(** ** A member's steps *)

Inductive member_step (sent : list (Ref * control)) : Runtime -> Runtime -> Prop :=
| ms_receive source c now s :
    genuine sent source c -> member_step sent s (receive c source now s).2
| ms_join r request m deadline s :
    member_step sent s (with_client (set_coordinator boss r request m deadline) s)
| ms_detect now s : member_step sent s (detect_coordinator_locked self now s)
| ms_leave request s : member_step sent s (member_leave_locked self request s).2
| ms_left s : member_step sent s (member_left_locked self s).2
| ms_other s s' :
    view s' = view s -> coordinator_identity (client s') = coordinator_identity (client s) ->
    member_step sent s s'.

Lemma member_step_moves sent s s' : sent_ok sent -> member_step sent s s' -> moves sent s s'.
Proof.
  intros Hsent [source c now s0 Hg|r request m deadline s0|now s0|request s0|s0|s0 s0' Ev Ec].
  - by apply receive_moves.
  - intros [Hi _]. split; [split; [done|by right]|]. split; [done|auto].
  - apply detect_moves.
  - assert (Hp : Preserves (moves sent) (member_leave_locked self request)).
    { unfold member_leave_locked. preserves. }
    apply Hp.
  - assert (Hp : Preserves (moves sent) (member_left_locked self)).
    { unfold member_left_locked. unfold lift. preserves. }
    apply Hp.
  - by apply moves_same.
Qed.

Lemma new_node_ok now : node_ok [] (ClusterRuntime_new self now).
Proof.
  split; [|by left]. split; cbn.
  - apply NoDup_singleton.
  - intros i m. case_decide; [|done]. intros [= <-]. done.
  - rewrite decide_True by done. by eexists.
  - done.
  - set_solver.
  - intros i. case_decide; [done|]. by intros [? ?].
Qed.

(** Who has left is not active again. *)
Definition active (v : View) (i : MemberIdentity) : Prop :=
  exists x, status_at v i = Some x /\ x <> LEFT.
Lemma node_gone sent v i : node_inv sent v -> i <> me -> gone v i -> ~ active v i.
Proof.
  intros Hi Hne [Hr|Hl] (x & Hx & Hxl); [|congruence]. by apply Hxl, (ni_retired _ _ Hi i x).
Qed.
Lemma coord_gone v t i : coord_inv v t -> gone v i -> ~ active v i.
Proof.
  intros Hinv [Hr|Hl] (x & Hx & Hxl); [|congruence].
  apply (ci_retired _ _ _ _ _ Hinv) in Hr. unfold status_at in Hx. by rewrite Hr in Hx.
Qed.
Lemma coord_readable v t : coord_inv v t -> readable coord v.
Proof.
  intros Hinv. split; [apply (ci_keys _ _ _ _ _ Hinv)|apply (ci_identity _ _ _ _ _ Hinv)|..].
  - destruct (ci_self _ _ _ _ _ Hinv) as (m & Hm & _). by exists m.
  - apply (ci_active _ _ _ _ _ Hinv).
  - apply (ci_revision _ _ _ _ _ Hinv).
Qed.
End member.
