(* ===== verification/ClusterWorld.v ===== *)
(** The whole cluster: one coordinator, its members, and a network that may lose, repeat,
    delay and reorder what the coordinator sends.

    [world_step] runs one section of one system at a time.  The coordinator takes any
    messages at all; a member takes what the coordinator sent to it, at any later time and
    as often as the network likes, and anything from anyone else. *)

From stdpp Require Import base list numbers strings gmap relations.
From S2P Require Import Prelude Bytes PyStr Dict Serialization Wire ActorPath Transport.
From S2P Require Import Effects Association Cluster ClusterRuntime ClusterInv ClusterSteps ClusterSystem.
From S2P Require Import ClusterMember.

Record world := mkWorld {
  w_coord : cstate;
  w_sent : list (Ref * control);
  w_nodes : list (ClusterSetup * Runtime) }.

Section world.
Context (ip_unspecified : pystr -> bool) (IPv6Address : pystr -> option pystr).
Context (UUID_of : pystr -> option Z) (coord : ClusterSetup).
Context (Hconf : config_ok ip_unspecified IPv6Address UUID_of coord).

Abbreviation boss := (self_identity coord).
Abbreviation boss_view w := (view (c_run (w_coord w))).
Abbreviation coord_inv := (coord_inv ip_unspecified IPv6Address coord).

(** The setups members run with: another system, whose seed is this coordinator. *)
Definition member_setup (self : ClusterSetup) : Prop :=
  ClusterConfig_check (su_config self) = Ok (su_config self) /\
  is_coordinator self = false /\
  seed_system_name (cc_seed (su_config self)) = su_system_name coord.

Inductive world_step : world -> world -> Prop :=
| ws_coord c out c' sent nodes :
    coord_step ip_unspecified IPv6Address UUID_of coord c out c' ->
    world_step (mkWorld c sent nodes) (mkWorld c' (sent ++ out) nodes)
| ws_node k self s s' c sent nodes :
    nodes !! k = Some (self, s) -> member_step coord self sent s s' ->
    world_step (mkWorld c sent nodes) (mkWorld c sent (<[k := (self, s')]> nodes))
| ws_start self now c sent nodes :
    member_setup self ->
    world_step (mkWorld c sent nodes) (mkWorld c sent (nodes ++ [(self, ClusterRuntime_new self now)])).

Definition initial (now : Z) : world := mkWorld (formed coord now) [] [].
Definition reached (now : Z) (w : world) : Prop := rtc world_step (initial now) w.

Lemma member_not_boss self : member_setup self -> self_identity self <> boss.
Proof.
  intros (_ & Hs & Hn). unfold is_coordinator in Hs. apply bool_decide_eq_false in Hs.
  unfold self_identity. congruence.
Qed.

(** What was sent shows an earlier state of the coordinator, and a revision one membership. *)
Definition shows (w : world) (m : Ref * control) : Prop :=
  exists cv t, coord_inv cv t /\ addressee coord cv (ref_target m.1) /\
    snapshot_of m.2 = Some (revision cv, wire_of cv) /\ coord_le cv (boss_view w).

Record world_ok (w : world) : Prop := {
  wo_coord : coord_ok ip_unspecified IPv6Address coord (w_coord w);
  wo_sent : Forall (shows w) (w_sent w);
  wo_agree : forall m m' rev ms ms', m ∈ w_sent w -> m' ∈ w_sent w ->
    snapshot_of m.2 = Some (rev, ms) -> snapshot_of m'.2 = Some (rev, ms') -> ms = ms';
  wo_nodes : forall self s, (self, s) ∈ w_nodes w ->
    member_setup self /\ node_ok ip_unspecified IPv6Address coord self (w_sent w) s }.

Lemma shows_sent_ok w : Forall (shows w) (w_sent w) -> sent_ok ip_unspecified IPv6Address coord (w_sent w).
Proof.
  intros H r c Hin. rewrite Forall_forall in H. destruct (H _ Hin) as (cv & t & ? & ? & ? & _).
  by exists cv, t.
Qed.

(** Two snapshots of one revision agree, when the one is the current. *)
Lemma shows_current w m rev ms :
  shows w m -> snapshot_of m.2 = Some (rev, ms) -> rev = revision (boss_view w) -> ms = wire_of (boss_view w).
Proof.
  intros (cv & t & _ & _ & E & Hle) Hs Hr. rewrite E in Hs. injection Hs as <- <-.
  unfold wire_of. destruct Hle as [?|[_ ->]]; [lia|done].
Qed.

Lemma coord_le_trans v1 v2 v3 : coord_le v1 v2 -> coord_le v2 v3 -> coord_le v1 v3.
Proof. unfold coord_le. intros [?|[? ?]] [?|[? ?]]; [left; lia..|right; split; congruence]. Qed.

Lemma world_coord_ok c out c' sent nodes :
  coord_step ip_unspecified IPv6Address UUID_of coord c out c' ->
  world_ok (mkWorld c sent nodes) -> world_ok (mkWorld c' (sent ++ out) nodes).
Proof.
  intros Hstep [Hc Hs Ha Hn]. destruct (coord_step_ok _ _ _ _ Hconf _ _ _ Hstep Hc) as (Hc' & Hadv & Hm).
  destruct Hc as [Hcinv _]. destruct (Hadv Hcinv) as (Hcinv' & Hle & _).
  assert (Hs' : Forall (shows (mkWorld c' (sent ++ out) nodes)) (sent ++ out)).
  { apply Forall_app. split.
    - eapply Forall_impl; [exact Hs|]. intros m (cv & t & ? & ? & ? & Hcv). exists cv, t.
      do 3 (split; [done|]). by eapply coord_le_trans.
    - eapply Forall_impl; [exact Hm|]. intros m [Hsnap Hadd]. exists (view (c_run c')), (tables (c_run c')).
      split; [apply Hcinv'|]. split; [done|]. split; [done|]. by right. }
  split; [done|exact Hs'|..].
  - cbn [w_sent] in *. intros m m' rev ms ms' Hin Hin' E E'.
    pose proof (proj1 (Forall_forall _ _) Hs' _ Hin) as Hsh.
    pose proof (proj1 (Forall_forall _ _) Hs' _ Hin') as Hsh'.
    assert (Hnew : forall m rev ms, m ∈ out -> snapshot_of m.2 = Some (rev, ms) -> rev = revision (view (c_run c'))).
    { intros m0 rev0 ms0 H0 E0. apply (proj1 (Forall_forall _ _) Hm) in H0 as [H0 _]. congruence. }
    apply elem_of_app in Hin as [Hin|Hin], Hin' as [Hin'|Hin'].
    + by eapply (Ha m m').
    + pose proof (Hnew _ _ _ Hin' E') as Hr. by rewrite (shows_current _ _ _ _ Hsh E Hr), (shows_current _ _ _ _ Hsh' E' Hr).
    + pose proof (Hnew _ _ _ Hin E) as Hr. by rewrite (shows_current _ _ _ _ Hsh E Hr), (shows_current _ _ _ _ Hsh' E' Hr).
    + pose proof (Hnew _ _ _ Hin E) as Hr. by rewrite (shows_current _ _ _ _ Hsh E Hr), (shows_current _ _ _ _ Hsh' E' Hr).
  - intros self s Hin. destruct (Hn self s Hin) as [Hset [Hi Hb]]. split; [done|]. split; [|done].
    by apply node_inv_sent.
Qed.

Lemma world_step_ok w w' : world_step w w' -> world_ok w -> world_ok w'.
Proof.
  intros [c out c' sent nodes Hstep|k self s s' c sent nodes Hk Hstep|self now c sent nodes Hset] Hw.
  - by eapply world_coord_ok.
  - destruct Hw as [Hc Hs Ha Hn]. split; try done. intros self' s1 Hin.
    cbn in Hin. apply list_elem_of_lookup in Hin as (j & Hj).
    rewrite list_lookup_insert in Hj by by eapply lookup_lt_Some.
    case_decide as E; [|by eapply Hn, list_elem_of_lookup_2].
    injection Hj as <- <-. destruct (Hn self s) as [Hset Hok]; [by eapply list_elem_of_lookup_2|].
    split; [done|]. pose proof Hset as (_ & Hcoord & _). pose proof (shows_sent_ok _ Hs) as Hsent.
    by apply (member_step_moves ip_unspecified IPv6Address coord self Hcoord (member_not_boss self Hset) sent s s').
  - destruct Hw as [Hc Hs Ha Hn]. split; try done. cbn in *. intros self' s1 [Hin|Hin]%elem_of_app; [by apply Hn|].
    apply list_elem_of_singleton in Hin as [= -> ->]. split; [done|].
    destruct (new_node_ok ip_unspecified IPv6Address coord self now) as [Hi Hb]. split; [|done].
    by apply (node_inv_sent ip_unspecified IPv6Address coord self []).
Qed.

Lemma reached_ok now w : reached now w -> world_ok w.
Proof.
  unfold reached. revert w. apply rtc_ind_r; [|intros; by eapply world_step_ok]. split; cbn.
  - by apply (formed_ok _ _ UUID_of).
  - by apply Forall_nil.
  - intros m m' rev ms ms' H1. by apply not_elem_of_nil in H1.
  - intros self s H1. by apply not_elem_of_nil in H1.
Qed.

(** ** What every system sees *)

Lemma reached_node now w self s :
  reached now w -> (self, s) ∈ w_nodes w ->
  member_setup self /\ node_inv ip_unspecified IPv6Address coord self (w_sent w) (view s).
Proof. intros H Hin. destruct (wo_nodes _ (reached_ok _ _ H) _ _ Hin) as [? [? _]]. done. Qed.

(** What a member adopted was the coordinator's membership at that revision. *)
Lemma node_snapshot now w self s ms :
  reached now w -> (self, s) ∈ w_nodes w -> authoritative_snapshot (view s) = Some ms ->
  exists cv t, coord_inv cv t /\ revision cv = revision (view s) /\ ms = wire_of cv /\
    coord_le cv (boss_view w) /\ similar_members coord self (members (view s)) (members cv) /\
    exists m, m ∈ w_sent w /\ snapshot_of m.2 = Some (revision (view s), ms).
Proof.
  intros H Hin Hms. destruct (reached_node _ _ _ _ H Hin) as [_ Hi].
  pose proof (ni_follows _ _ _ _ _ _ Hi) as Hf. unfold follows in Hf. rewrite Hms in Hf.
  destruct Hf as (cv & t & r & c & Hinv & _ & Hr & _ & Hsnap & Erev & Ems & Hsim).
  destruct (proj1 (Forall_forall _ _) (wo_sent _ (reached_ok _ _ H)) _ Hr) as (cv' & t' & Hinv' & _ & Hs' & Hle).
  cbn in Hs'. rewrite Hsnap in Hs'. injection Hs' as Erev' Ems'. exists cv', t'.
  split; [done|]. split; [done|]. split; [done|]. split; [done|]. split.
  - intros i. specialize (Hsim i). rewrite (wire_of_inj _ _ _ _ _ _ _ Hinv Hinv') in Hsim; [done|congruence].
  - by exists (r, c).
Qed.

(** Nobody comes back in one step. *)
Lemma step_gone w w' i :
  world_ok w -> world_step w w' ->
  (gone (boss_view w) i -> gone (boss_view w') i) /\
  (forall k self s, w_nodes w !! k = Some (self, s) -> i <> self_identity self -> gone (view s) i ->
     exists s', w_nodes w' !! k = Some (self, s') /\ gone (view s') i).
Proof.
  intros Hw Hstep. revert Hw.
  destruct Hstep as [c out c' sent nodes Hstep|k self s s' c sent nodes Hk Hstep|self now c sent nodes Hset];
    intros [Hc Hs Ha Hn].
  - destruct (coord_step_ok _ _ _ _ Hconf _ _ _ Hstep Hc) as (_ & Hadv & _). destruct Hc as [Hcinv _].
    destruct (Hadv Hcinv) as (_ & _ & Hg). split; [apply Hg|eauto].
  - split; [done|]. intros j self' s1 Hj Hne Hg. cbn in *.
    rewrite list_lookup_insert by by eapply lookup_lt_Some. case_decide as E; [|eauto].
    destruct E as [<- _]. rewrite Hk in Hj. injection Hj as -> ->.
    destruct (Hn self' s1) as [Hset Hok]; [by eapply list_elem_of_lookup_2|].
    pose proof Hset as (_ & Hcoord & _). pose proof (shows_sent_ok _ Hs) as Hsent.
    destruct (member_step_moves ip_unspecified IPv6Address coord self' Hcoord (member_not_boss self' Hset)
      sent s1 s' Hsent Hstep Hok) as (_ & _ & Hg'). eauto.
  - split; [done|]. intros j self' s1 Hj _ Hg. exists s1. split; [|done]. cbn in *.
    by apply lookup_app_l_Some.
Qed.

(** C5.  Members never disagree about a revision: whatever the network loses, repeats, delays or
    reorders and whatever anyone sends to the coordinator, two members that adopted snapshots of
    one revision adopted the same snapshot; no member is ahead of the coordinator; and a member at
    the coordinator's revision lists exactly the coordinator's members with their endpoints and
    status, up to its word that it is leaving itself and to its own judgement whether the
    coordinator is reachable. *)
Theorem membership_views_agree now w :
  reached now w ->
  (forall self1 s1 ms1 self2 s2 ms2,
     (self1, s1) ∈ w_nodes w -> (self2, s2) ∈ w_nodes w ->
     authoritative_snapshot (view s1) = Some ms1 -> authoritative_snapshot (view s2) = Some ms2 ->
     revision (view s1) = revision (view s2) -> ms1 = ms2) /\
  (forall self s ms,
     (self, s) ∈ w_nodes w -> authoritative_snapshot (view s) = Some ms ->
     revision (view s) <= revision (boss_view w) /\
     (revision (view s) = revision (boss_view w) ->
        ms = wire_members (c_run (w_coord w)) /\
        similar_members coord self (members (view s)) (members (boss_view w)))).
Proof.
  intros H. split.
  - intros self1 s1 ms1 self2 s2 ms2 H1 H2 E1 E2 Er.
    destruct (node_snapshot _ _ _ _ _ H H1 E1) as (_ & _ & _ & _ & _ & _ & _ & m1 & Hm1 & Hs1).
    destruct (node_snapshot _ _ _ _ _ H H2 E2) as (_ & _ & _ & _ & _ & _ & _ & m2 & Hm2 & Hs2).
    rewrite <- Er in Hs2. by apply (wo_agree _ (reached_ok _ _ H) m1 m2 (revision (view s1))).
  - intros self s ms Hin E.
    destruct (node_snapshot _ _ _ _ _ H Hin E) as (cv & t & _ & Er & Ems & Hle & Hsim & _).
    destruct Hle as [Hlt|[Heq Hm]]; [split; [lia|intros; lia]|].
    split; [lia|]. intros _. rewrite <- Hm. split; [|done]. rewrite Ems. unfold wire_of. by rewrite Hm.
Qed.

(** C14.  Departure is final: once the coordinator lists a member as left, or has forgotten
    it to make room, no later state of the coordinator shows that incarnation joining, up or leaving,
    and the same holds for the view of every member, in any later state of the cluster. *)
Theorem departed_stay_departed now w w' i :
  reached now w -> rtc world_step w w' ->
  (gone (boss_view w) i -> gone (boss_view w') i /\ ~ active (boss_view w') i) /\
  (forall k self s, w_nodes w !! k = Some (self, s) -> i <> self_identity self -> gone (view s) i ->
     exists s', w_nodes w' !! k = Some (self, s') /\ gone (view s') i /\ ~ active (view s') i).
Proof.
  intros Hw Hrun. assert (Hw' : reached now w') by (unfold reached in *; by etrans).
  assert (Hgone : (gone (boss_view w) i -> gone (boss_view w') i) /\
    forall k self s, w_nodes w !! k = Some (self, s) -> i <> self_identity self -> gone (view s) i ->
      exists s', w_nodes w' !! k = Some (self, s') /\ gone (view s') i).
  { clear Hw'. revert w' Hrun. apply rtc_ind_r; [split; [done|eauto]|].
    intros w1 w2 Hr Hstep [IHc IHn]. assert (Hw1 : reached now w1) by (unfold reached in *; by etrans). clear Hw Hr.
    pose proof (reached_ok _ _ Hw1) as Hok. destruct (step_gone _ _ i Hok Hstep) as [Hc Hn].
    split; [auto|]. intros k self s Hk Hne Hg. destruct (IHn _ _ _ Hk Hne Hg) as (s1 & Hk1 & Hg1). eauto. }
  destruct Hgone as [Hc Hn]. pose proof (reached_ok _ _ Hw') as Hok. split.
  - intros Hg%Hc. split; [done|]. destruct (wo_coord _ Hok) as [[Hinv _] _]. by eapply coord_gone.
  - intros k self s Hk Hne Hg. destruct (Hn _ _ _ Hk Hne Hg) as (s' & Hk' & Hg'). exists s'.
    split; [done|]. split; [done|]. apply list_elem_of_lookup_2 in Hk'.
    destruct (reached_node _ _ _ _ Hw' Hk') as [_ Hi]. by eapply node_gone.
Qed.

(** C36.  The membership can always be read: in every state of the cluster the [membership]
    of the coordinator and of every member passes the checks of [MembershipSnapshot], so no two
    active members of one view have one name, no identity is listed twice, and the system itself
    is listed; it consists of exactly the members of the view. *)
Theorem membership_readable now w self s :
  reached now w ->
  (self, s) ∈ (coord, c_run (w_coord w)) :: w_nodes w ->
  exists snapshot, membership self s = Ok snapshot /\ ms_members snapshot ≡ₚ (members (view s)).*2 /\
    ms_revision snapshot = view_revision (view s).
Proof.
  intros H Hin.
  assert (Hr : readable self (view s) /\ ClusterConfig_check (su_config self) = Ok (su_config self)).
  { apply elem_of_cons in Hin as [[= -> ->]|Hin].
    - destruct (wo_coord _ (reached_ok _ _ H)) as [[Hinv _] _].
      split; [by eapply coord_readable|apply (co_config _ _ _ _ Hconf)].
    - destruct (reached_node _ _ _ _ H Hin) as [(Hc & _) Hi]. split; [by eapply node_readable|done]. }
  destruct Hr as [Hr Hc]. eexists. split; [apply membership_ok; [|done]|].
  - unfold ClusterConfig_check in Hc. by apply bind_ok in Hc as ([] & Hn & _).
  - cbn. split; [apply sorted_members_perm|done].
Qed.
End world.

(** * A cluster of two *)

Module ClusterRun.

Definition unspecified (host : pystr) : bool := bool_decide (host = lit "0.0.0.0").
(** [str(IPv6Address(host))], for hosts that are canonical. *)
Definition canonical (host : pystr) : option pystr := if bool_decide (58 ∈ host) then Some host else None.
Definition no_uuid (s : pystr) : option Z := None.

Definition ep (port : Z) : Endpoint := mkEndpoint (lit "127.0.0.1") port.
Definition cfg : ClusterConfig :=
  mkClusterConfig (lit "orders") (mkSeed (lit "seed") (ep 7001)) 1000 5000 10000 2000 3 64 256 64 8 77.
Definition digest : pystr := repeat 97 64.
Definition seed : ClusterSetup :=
  mkClusterSetup (lit "seed") 1 cfg (ep 7001) [(lit "alpha", ep 7002)] digest.
Definition alpha : ClusterSetup :=
  mkClusterSetup (lit "alpha") 2 cfg (ep 7002) [(lit "seed", ep 7001)] digest.

Lemma seed_ok : config_ok unspecified canonical no_uuid seed.
Proof.
  split; [vm_compute; reflexivity..|by split; vm_compute; reflexivity|].
  intros name e. cbn. case_decide as E; [|done]. intros [= <-] _.
  assert (name = lit "alpha") as -> by done. split; [by split; vm_compute; reflexivity|].
  eexists. vm_compute. reflexivity.
Qed.
Lemma alpha_ok : member_setup seed alpha.
Proof. by split_and!; vm_compute; reflexivity. Qed.

Definition request : _JoinRequest :=
  mkJoinRequest (lit "orders") digest (lit "alpha") 2 (lit "127.0.0.1") 7002 21 1 31.
Definition returned {A} (d : A) (x : outcome exn A * Runtime) : A :=
  match x.1 with Ret a => a | Raise _ => d end.

(** The coordinator: formed, asked by [alpha], confirmed, told, left. *)
Definition c0 : Runtime := c_run (formed seed 0).
Definition asked := join_request_locked unspecified canonical no_uuid seed request (self_identity alpha)
  (ep 7002) 41 5 15 c0.
Definition accepted : list (Ref * control) := returned [] asked.
Definition confirm : _JoinConfirm := mkJoinConfirm (lit "orders") (lit "alpha") 2 1 31 41.
Definition confirmed := join_confirm_locked confirm (self_identity alpha) 6 6 asked.2.
Definition told := broadcast_locked unspecified canonical seed None confirmed.2.
Definition updates : list (Ref * control) := returned [] told.
Definition leave : _Leave := mkLeave (lit "orders") (lit "alpha") 2 1 41 51.
Definition left1 := leave_locked leave (self_identity alpha) told.2.
Definition alpha_ref : Ref := match accepted with (r, _) :: _ => r | [] => mkRef [] (mkIdentity 0 0) (RootActorPath (mkAddress [] [] None None)) end.
Definition left2 := left_locked unspecified canonical seed leave (self_identity alpha) alpha_ref left1.2.

(** The member: started, joining, accepted, up. *)
Definition n0 : Runtime := ClusterRuntime_new alpha 0.
Definition seed_ref : Ref := mkRef (lit "seed") (mkIdentity 1 22) (ref_path alpha_ref).
Definition n1 : Runtime :=
  with_client (set_coordinator (self_identity seed) seed_ref 31 (JoinRequest request) 10000) n0.
Definition message (out : list (Ref * control)) : control :=
  match out with (_, c) :: _ => c | [] => JoinRequest request end.
Definition n2 : Runtime := (receive alpha (message accepted) (self_identity seed) 6 n1).2.
Definition n3 : Runtime := (receive alpha (message updates) (self_identity seed) 7 n2).2.

Definition w1 : world := mkWorld (mkCState c0 None) [] [(alpha, n1)].
Definition w2 : world := mkWorld (mkCState asked.2 None) accepted [(alpha, n2)].
Definition w3 : world := mkWorld (mkCState told.2 None) (accepted ++ updates) [(alpha, n3)].
Definition w4 : world :=
  mkWorld (mkCState left2.2 None) ((accepted ++ updates) ++ returned [] left2) [(alpha, n3)].

Example joined : join_complete (client n3) = true /\ is_joined alpha n3 = Ok true /\ revision (view n3) = 3.
Proof. vm_compute. done. Qed.
Example departed : status_at (view left2.2) (self_identity alpha) = Some LEFT.
Proof. vm_compute. done. Qed.

Abbreviation step := (world_step unspecified canonical no_uuid seed).

Lemma w1_reached : reached unspecified canonical no_uuid seed 0 w1.
Proof.
  eapply rtc_l; [apply (ws_start _ _ _ _ alpha 0), alpha_ok|].
  eapply rtc_l; [|reflexivity]. apply (ws_node _ _ _ _ 0 alpha n0 n1 _ _ [(alpha, n0)]); [done|]. apply ms_join.
Qed.
Lemma w2_reached : rtc step w1 w2.
Proof.
  eapply rtc_l.
  - apply (ws_coord _ _ _ _ _ accepted (mkCState asked.2 None)).
    eapply (cs_join_request _ _ _ _ request (self_identity alpha) (ep 7002) 41 5 15); vm_compute; done.
  - eapply rtc_l; [|reflexivity]. apply (ws_node _ _ _ _ 0 alpha n1 n2 _ _ [(alpha, n1)]); [done|].
    apply ms_receive. intros _. exists alpha_ref. vm_compute. by split; [left|].
Qed.
Lemma w3_reached : rtc step w2 w3.
Proof.
  eapply rtc_l; [apply (ws_coord _ _ _ _ _ [] (mkCState confirmed.2 None))|].
  { apply (cs_confirm _ _ _ _ confirm (self_identity alpha) 6 6 _ true). vm_compute. done. }
  rewrite app_nil_r. eapply rtc_l; [apply (ws_coord _ _ _ _ _ updates (mkCState told.2 None))|].
  { apply (cs_broadcast _ _ _ _ None). vm_compute. done. }
  eapply rtc_l; [|reflexivity]. apply (ws_node _ _ _ _ 0 alpha n2 n3 _ _ [(alpha, n2)]); [done|].
  apply ms_receive. intros _. exists alpha_ref. vm_compute. by split; [right; left|].
Qed.
Lemma w4_reached : rtc step w3 w4.
Proof.
  eapply rtc_l; [apply (ws_coord _ _ _ _ _ [] (mkCState left1.2 (Some (leave, self_identity alpha, alpha_ref))))|].
  { apply (cs_leave _ _ _ _ leave (self_identity alpha) told.2 left1.1). vm_compute. done. }
  rewrite app_nil_r. eapply rtc_l; [|reflexivity]. apply ws_coord.
  apply cs_left. vm_compute. done.
Qed.

Lemma w3_reached_all : reached unspecified canonical no_uuid seed 0 w3.
Proof. unfold reached. etrans; [apply w1_reached|]. etrans; [apply w2_reached|apply w3_reached]. Qed.
Lemma w4_reached_all : reached unspecified canonical no_uuid seed 0 w4.
Proof. unfold reached. etrans; [apply w3_reached_all|apply w4_reached]. Qed.

Lemma membership_views_agree_witness :
  revision (view n3) = revision (view told.2) /\ (alpha, n3) ∈ w_nodes w3 /\
  similar_members seed alpha (members (view n3)) (members (view told.2)).
Proof.
  split; [vm_compute; reflexivity|]. split; [left|].
  refine (proj2 (proj2 (proj2 (membership_views_agree unspecified canonical no_uuid seed seed_ok 0 w3
    w3_reached_all) alpha n3 (wire_members told.2) _ _) _)); [left|vm_compute; reflexivity..].
Defined.
Lemma departed_stay_departed_witness :
  gone (view (c_run (w_coord w4))) (self_identity alpha) /\
  ~ active (view (c_run (w_coord w4))) (self_identity alpha).
Proof.
  apply (departed_stay_departed unspecified canonical no_uuid seed seed_ok 0 w4 w4 (self_identity alpha)
    w4_reached_all (rtc_refl _ _)). right. vm_compute. reflexivity.
Defined.
Lemma membership_readable_witness :
  exists snapshot, membership alpha n3 = Ok snapshot /\ ms_members snapshot ≡ₚ (members (view n3)).*2 /\
    ms_revision snapshot = view_revision (view n3).
Proof.
  apply (membership_readable unspecified canonical no_uuid seed seed_ok 0 w3 alpha n3 w3_reached_all).
  right. left.
Defined.
End ClusterRun.
