(* ===== verification/ClusterWorker.v ===== *)
(** The coordinator's worker: no message ends it, but one.

    [runs m s Q]: in whatever world, the handler [m] returns from the runtime [s], to a
    result and a runtime that satisfy [Q].  What handlers ask of the world may fail every
    time. *)

From stdpp Require Import base list numbers strings gmap relations.
From S2P Require Import Prelude Bytes PyStr Dict Serialization Wire ActorPath Transport.
From S2P Require Import Effects Association Cluster ClusterRuntime ClusterInv ClusterSteps ClusterSystem.
From S2P Require Import ClusterMember ClusterWorld.

(** * Blocks leave the member's half of the runtime alone *)

Definition frame (s s' : Runtime) : Prop :=
  client s' = client s /\ control_queue s' = control_queue s /\ life s' = life s.
#[global] Instance frame_preorder : PreOrder frame.
Proof.
  split; [done|]. intros s1 s2 s3 (H1 & H2 & H3) (H4 & H5 & H6). unfold frame. split_and!; congruence.
Qed.

Lemma frame_modify f : (forall s, frame s (f s)) -> Preserves frame (modify f : Eff Runtime exn unit).
Proof. intros H s. apply H. Qed.
Lemma frame_lift {A} (r : result A) : Preserves frame (lift r : Eff Runtime exn A).
Proof. intros s. by destruct r. Qed.
Lemma frame_section {A} (f : Runtime -> A * Runtime) :
  (forall s, frame s (f s).2) -> Preserves frame (section f : Eff Runtime exn A).
Proof. intros H s. specialize (H s). unfold section. by destruct (f s). Qed.
Lemma frame_view f s : frame s (with_view f s).
Proof. done. Qed.
Lemma frame_tables f s : frame s (with_tables f s).
Proof. done. Qed.
Lemma frame_revoke i s : frame s (_revoke_member_locked i s).
Proof. done. Qed.
Lemma frame_expire i request s : frame s (expire_locked i request s).
Proof. unfold expire_locked. repeat case_match; done. Qed.
Lemma frame_reserve limit rlimit order s : frame s (reserve_loop limit rlimit order s).2.
Proof.
  revert s. induction order as [|i order IH]; intros s; cbn [reserve_loop]; repeat case_match; try done;
    (etrans; [|apply IH]; done).
Qed.
Lemma frame_leave m i s : frame s (leave_locked m i s).2.
Proof. unfold leave_locked. repeat case_match; done. Qed.
Lemma frame_detect_fold self now ps b s :
  frame s (foldl (fun acc p => detect_member self now p acc) (b, s) ps).2.
Proof.
  revert b s. induction ps as [|[i m] ps IH]; intros b s; cbn [foldl]; [done|].
  unfold detect_member at 2. repeat case_match; try apply IH. cbn. etrans; [|apply IH]. done.
Qed.

#[export] Hint Resolve frame_modify frame_lift frame_section frame_view frame_tables frame_revoke
  frame_expire frame_reserve frame_leave : preserves.

Section worker.
Context (ip_unspecified : pystr -> bool) (IPv6Address : pystr -> option pystr).
Context (UUID_of : pystr -> option Z) {W : Type} `{ClusterEnv W} (self : ClusterSetup).

Abbreviation M := (Eff (Runtime * W) exn).

Lemma frame_snapshot : Preserves frame (_wire_snapshot_locked ip_unspecified IPv6Address).
Proof. unfold _wire_snapshot_locked. preserves. Qed.
#[local] Hint Resolve frame_snapshot : preserves.

Lemma frame_join_request m i ep fresh now deadline :
  Preserves frame (join_request_locked ip_unspecified IPv6Address UUID_of self m i ep fresh now deadline).
Proof.
  unfold join_request_locked. preserves.
Qed.
Lemma frame_join_confirm m i now now' : Preserves frame (join_confirm_locked m i now now').
Proof. unfold join_confirm_locked. preserves. Qed.
Lemma frame_heartbeat m i now : Preserves frame (heartbeat_locked ip_unspecified IPv6Address self m i now).
Proof. unfold heartbeat_locked. preserves. Qed.
Lemma frame_left m i r : Preserves frame (left_locked ip_unspecified IPv6Address self m i r).
Proof. unfold left_locked. preserves. Qed.

(** * Running a handler *)

Definition runs {A} (m : M A) (s : Runtime) (Q : A -> Runtime -> Prop) : Prop :=
  forall w, exists a s' w', m (s, w) = (Ret a, (s', w')) /\ Q a s'.

Lemma runs_ret {A} (a : A) s (Q : A -> Runtime -> Prop) : Q a s -> runs (ret a) s Q.
Proof. intros HQ w. by exists a, s, w. Qed.
Lemma runs_bind {A B} (m : M A) (k : A -> M B) s Q :
  runs m s (fun a s' => runs (k a) s' Q) -> runs (bind m k) s Q.
Proof.
  intros Hm w. destruct (Hm w) as (a & s' & w' & E & Hk). unfold bind. rewrite E. apply Hk.
Qed.
Lemma runs_locked {A} (block : Eff Runtime exn A) a s s' (Q : A -> Runtime -> Prop) :
  block s = (Ret a, s') -> Q a s' -> runs (locked block) s Q.
Proof. intros E HQ w. exists a, s', w. split; [|done]. unfold locked. cbn. by rewrite E. Qed.
Lemma runs_draw {A} (op : W -> A * W) s (Q : A -> Runtime -> Prop) :
  (forall a, Q a s) -> runs (draw op) s Q.
Proof. intros HQ w. unfold draw. cbn. destruct (op w) as [a w']. by exists a, s, w'. Qed.
(** [catch]: the body leaves the runtime as it is, whether it raises or not. *)
Lemma runs_catch {A} (m : M A) h s (Q : A -> Runtime -> Prop) :
  (forall w, ((m (s, w)).2).1 = s) -> (forall a, Q a s) -> (forall e, runs (h e) s Q) -> runs (catch m h) s Q.
Proof.
  intros Hm Ha He w. unfold catch. specialize (Hm w).
  destruct (m (s, w)) as [[a|e] [s1 w1]]; cbn in Hm; subst s1; [by exists a, s, w1|apply He].
Qed.
Lemma send_same m s (w : W) : ((send ip_unspecified IPv6Address m (s, w)).2).1 = s.
Proof.
  unfold send, given, locked, call, bind, lift. cbn. destruct (control_check _ _ _); [|done]. cbn.
  by destruct (tell _ _ _).
Qed.
Lemma runs_for_each {A} (body : A -> M unit) (I : Runtime -> Prop) xs s :
  (forall x s, I s -> runs (body x) s (fun _ => I)) -> I s -> runs (for_each xs body) s (fun _ => I).
Proof.
  intros Hb. revert s. induction xs as [|x xs IH]; intros s Hs; cbn [for_each]; [by apply runs_ret|].
  apply runs_bind. intros w. destruct (Hb x s Hs w) as (a & s' & w' & E & Hs'). exists a, s', w'.
  split; [done|]. by apply IH.
Qed.
Lemma runs_mono {A} (m : M A) s (Q Q' : A -> Runtime -> Prop) :
  runs m s Q -> (forall a s', Q a s' -> Q' a s') -> runs m s Q'.
Proof. intros Hm HQ w. destruct (Hm w) as (a & s' & w' & ? & ?). exists a, s', w'. auto. Qed.
Lemma runs_when c (m : M unit) s Q : (c = true -> runs m s Q) -> Q tt s -> runs (when c m) s Q.
Proof. intros Hm HQ. destruct c; [auto|by apply runs_ret]. Qed.

(** * The coordinator *)

Context (Hconf : config_ok ip_unspecified IPv6Address UUID_of self).
Abbreviation cinv := (cinv ip_unspecified IPv6Address self).
Abbreviation advances := (advances ip_unspecified IPv6Address self).
Abbreviation me := (self_identity self).

Lemma coordinator_true : is_coordinator self = true.
Proof.
  pose proof (co_valid _ _ _ _ Hconf) as Hv. unfold _validate_configuration in Hv.
  apply bind_ok in Hv as (u1 & _ & Hv). apply bind_ok in Hv as (u2 & _ & Hv).
  by apply bind_ok in Hv as (u3 & _ & [= Hv]).
Qed.

(** What the queue may hold: messages that passed their own checks and whose host, if they
    ask to join, has no NUL. *)
Definition no_nul (c : control) : Prop :=
  match c with JoinRequest m => 0 ∉ jr_source_host m | _ => True end.
Definition deliverable (c : control) : Prop :=
  control_check ip_unspecified IPv6Address c = Ok tt /\ no_nul c.
Definition item_ok (x : queue_item) : Prop :=
  match x with Inbound i => deliverable (in_message i) | _ => True end.

(** The invariant of the coordinator's worker. *)
Definition worker_ok (s : Runtime) : Prop :=
  cinv s /\ coordinator_identity (client s) = None /\ Forall item_ok (control_queue s).

Lemma worker_advances s s' : worker_ok s -> advances s s' -> frame s s' -> worker_ok s'.
Proof.
  intros (Hs & Hc & Hq) Ha (Ec & Eq & _). split; [apply (Ha Hs)|]. by rewrite Ec, Eq.
Qed.

Lemma send_runs m s (Q : unit -> Runtime -> Prop) :
  Q tt s -> runs (best_effort (send ip_unspecified IPv6Address m)) s Q.
Proof.
  intros HQ. apply runs_catch; [intros w; apply send_same|by intros []|]. intros e. by apply runs_ret.
Qed.

Lemma broadcast_runs exclude s (Q : unit -> Runtime -> Prop) :
  cinv s -> Q tt s -> runs (_broadcast_membership ip_unspecified IPv6Address self exclude) s Q.
Proof.
  intros Hs HQ. destruct (broadcast_ok ip_unspecified IPv6Address self exclude s Hs) as (out & E & _).
  apply runs_bind. eapply runs_locked; [exact E|].
  apply (runs_mono _ _ (fun _ s' => s' = s)); [|by intros [] ? ->].
  apply runs_for_each; [|done]. intros x s' ->. by apply send_runs.
Qed.

Lemma expire_runs i request s :
  worker_ok s -> runs (_expire_provisional_join i request) s (fun _ => worker_ok).
Proof.
  intros Hs. unfold _expire_provisional_join. eapply runs_locked; [reflexivity|].
  eapply worker_advances; [exact Hs|apply expire_advances|apply frame_expire].
Qed.

Lemma join_request_runs m source ep s :
  deliverable (JoinRequest m) -> worker_ok s ->
  runs (_handle_join_request ip_unspecified IPv6Address UUID_of self m source ep) s (fun _ => worker_ok).
Proof.
  intros [Hc Hnul] Hs. unfold _handle_join_request. rewrite coordinator_true. cbn [negb orb].
  destruct (_ || _); [by apply runs_ret|].
  cbn [control_check] in Hc. apply bind_ok in Hc as (u1 & _ & Hc). apply bind_ok in Hc as (u2 & _ & Hc).
  apply bind_ok in Hc as (u3 & Hname & Hc). apply bind_ok in Hc as (u4 & Huid & Hc).
  apply bind_ok in Hc as (u5 & _ & Hc). apply bind_ok in Hc as (u6 & Hport & Hc).
  apply bind_ok in Hc as (u7 & Hctl & _).
  unfold wire_name, wire_uuid, wire_port in *. apply raise_unless_ok in Hname, Huid, Hport, Hctl.
  apply runs_bind. eapply runs_locked.
  { unfold Endpoint_new, transport_uint. rewrite bool_decide_eq_false_2 by done. cbn [negb raise_unless mbind result_bind].
    rewrite andb_true_iff in Hport. destruct Hport as [Hp1%Z.leb_le Hp2%Z.leb_le].
    assert (E : (0 <=? jr_source_port m) && (jr_source_port m <=? MAX_U16) = true).
    { apply andb_true_iff. split; apply Z.leb_le; unfold MAX_U16; lia. }
    rewrite E. reflexivity. }
  apply runs_bind. eapply runs_locked.
  { unfold MemberIdentity_new, _validate_name. rewrite Hname. cbn. rewrite Huid. reflexivity. }
  destruct (_ || _) eqn:E; [by apply runs_ret|]. rewrite !orb_false_iff, !negb_false_iff in E.
  destruct E as [_ Hpeer%bool_decide_eq_true].
  apply runs_bind, runs_draw. intros fresh. apply runs_bind, runs_draw. intros now.
  apply runs_bind, runs_draw. intros now'. apply runs_bind. cbn [mbind result_bind].
  set (i := mkMemberIdentity (jr_source_system_name m) (jr_source_incarnation_uid m)).
  set (e := mkEndpoint (jr_source_host m) (jr_source_port m)) in *.
  pose proof Hs as [Hcinv _].
  destruct (join_request_ok _ _ _ _ Hconf m i e fresh now (now' + join_timeout (su_config self)) s)
    as (out & s1 & E1 & Ha & _); [done|done|cbn; lia|lia|done|].
  eapply runs_locked; [exact E1|].
  assert (Hf : frame s s1).
  { pose proof (frame_join_request m i e fresh now (now' + join_timeout (su_config self)) s) as Hf.
    by rewrite E1 in Hf. }
  apply runs_for_each; [|by eapply worker_advances].
  intros msg s2 Hs2. apply runs_catch; [intros w; apply send_same|done|].
  intros _. by apply expire_runs.
Qed.

(** What a member says of itself is checked before its handler looks at it. *)
Lemma from_member_runs name target sys uid source handle s :
  check_addressing name sys uid target = Ok tt -> worker_ok s ->
  (forall i, runs (handle i) s (fun _ => worker_ok)) ->
  runs (from_member self name target sys uid source handle) s (fun _ => worker_ok).
Proof.
  intros Hc Hs Hh. unfold from_member. destruct (_ || _); [by apply runs_ret|].
  unfold check_addressing in Hc. apply bind_ok in Hc as (u1 & _ & Hc).
  apply bind_ok in Hc as (u2 & Hn & Hc). apply bind_ok in Hc as (u3 & Hu & _).
  unfold wire_name, wire_uuid in *. apply raise_unless_ok in Hn, Hu.
  apply runs_bind. eapply runs_locked.
  { unfold MemberIdentity_new, _validate_name. rewrite Hn. cbn. rewrite Hu. reflexivity. }
  case_bool_decide; cbn [negb]; [apply Hh|by apply runs_ret].
Qed.

Lemma join_confirm_runs m source s :
  deliverable (JoinConfirm m) -> worker_ok s ->
  runs (_handle_join_confirm ip_unspecified IPv6Address self m source) s (fun _ => worker_ok).
Proof.
  intros [Hc _] Hs. cbn [control_check] in Hc. apply bind_ok in Hc as ([] & Hc & _).
  apply from_member_runs; [done..|]. intros i. apply runs_bind, runs_draw. intros now.
  apply runs_bind, runs_draw. intros now'. apply runs_bind. pose proof Hs as [Hcinv _].
  destruct (join_confirm_ok ip_unspecified IPv6Address self m i now now' s Hcinv) as (b & s1 & E & Ha).
  pose proof (frame_join_confirm m i now now' s) as Hf. rewrite E in Hf.
  assert (Hs1 : worker_ok s1) by by eapply worker_advances.
  eapply runs_locked; [exact E|]. apply runs_when; [|done]. intros _. apply broadcast_runs; [apply Hs1|done].
Qed.

Lemma sends_same ms s (w : W) : ((for_each ms (send ip_unspecified IPv6Address) (s, w)).2).1 = s.
Proof.
  revert w. induction ms as [|m ms IH]; intros w; cbn [for_each]; [done|]. unfold bind.
  pose proof (send_same m s w) as E. destruct (send _ _ _ _) as [[[]|e] [s1 w1]]; cbn in E; subst s1; [apply IH|done].
Qed.

Lemma heartbeat_runs m source s :
  deliverable (Heartbeat m) -> worker_ok s ->
  runs (_handle_heartbeat ip_unspecified IPv6Address self m source) s (fun _ => worker_ok).
Proof.
  intros [Hc _] Hs. cbn [control_check] in Hc. apply bind_ok in Hc as ([] & Hc & _).
  apply from_member_runs; [done..|]. intros i. apply runs_bind, runs_draw. intros now.
  apply runs_bind. pose proof Hs as [Hcinv _].
  destruct (heartbeat_ok ip_unspecified IPv6Address self m i now s Hcinv) as (out & b & s1 & E & Ha & _).
  pose proof (frame_heartbeat m i now s) as Hf. rewrite E in Hf.
  assert (Hs1 : worker_ok s1) by by eapply worker_advances.
  eapply runs_locked; [exact E|]. apply runs_bind. apply runs_catch.
  - intros w. cbn [fst]. pose proof (sends_same out s1 w) as Hsame. unfold bind.
    by destruct (for_each _ _ _) as [[]].
  - intros sent. apply runs_when; [|done]. intros _. apply broadcast_runs; [apply Hs1|done].
  - intros e. apply runs_ret. apply runs_when; [done|done].
Qed.

Lemma leave_runs m source s :
  deliverable (Leave m) -> worker_ok s ->
  runs (_handle_leave ip_unspecified IPv6Address self m source) s (fun _ => worker_ok).
Proof.
  intros [Hc _] Hs. cbn [control_check] in Hc. apply bind_ok in Hc as ([] & Hc & _).
  apply from_member_runs; [done..|]. intros i. apply runs_bind. pose proof Hs as [Hcinv _].
  destruct (leave_ok ip_unspecified IPv6Address self m i s Hcinv) as (found & s1 & E & Ha & Hl).
  pose proof (frame_leave m i s) as Hf. rewrite E in Hf.
  assert (Hs1 : worker_ok s1) by by eapply worker_advances.
  eapply runs_locked; [unfold section; rewrite E; reflexivity|].
  destruct found as [[r leaving]|]; [|by apply runs_ret].
  apply runs_bind. pose proof Hs1 as [Hcinv1 _].
  destruct (left_ok ip_unspecified IPv6Address self m i r s1 Hcinv1 Hl) as (out & s2 & E2 & Ha2 & _).
  pose proof (frame_left m i r s1) as Hf2. rewrite E2 in Hf2.
  assert (Hs2 : worker_ok s2) by by eapply worker_advances.
  assert (Hend : runs (bind (locked (left_locked ip_unspecified IPv6Address self m i r))
    (fun ms => bind (for_each ms (fun msg => best_effort (send ip_unspecified IPv6Address msg)))
      (fun _ => _broadcast_membership ip_unspecified IPv6Address self (Some i)))) s1 (fun _ => worker_ok)).
  { apply runs_bind. eapply runs_locked; [exact E2|]. apply runs_bind.
    apply (runs_mono _ _ (fun _ => worker_ok)).
    - apply runs_for_each; [|done]. intros x s3 Hs3. by apply send_runs.
    - intros a s3 Hs3. apply broadcast_runs; [apply Hs3|done]. }
  apply runs_when; [|exact Hend]. intros _. by apply broadcast_runs.
Qed.

(** Messages that are for members. *)
Lemma ignored_runs (block : Eff Runtime exn unit) s :
  block s = (Ret tt, s) -> worker_ok s -> runs (locked block : M unit) s (fun _ => worker_ok).
Proof. intros E Hs. by eapply runs_locked. Qed.

Context (ten_ms fifty_ms : Z).

Lemma control_runs i s :
  deliverable (in_message i) -> worker_ok s ->
  runs (_handle_control ip_unspecified IPv6Address UUID_of self ten_ms fifty_ms i) s (fun _ => worker_ok).
Proof.
  intros Hd Hs. unfold _handle_control. destruct (in_message i) as [m|m|m|m|m|m|m|m].
  - by apply join_request_runs.
  - apply runs_bind, runs_draw. intros now. apply runs_bind. apply (runs_locked _ false s s).
    + unfold join_accepted_locked, bind, get. by rewrite coordinator_true.
    + by apply runs_ret.
  - by apply join_confirm_runs.
  - by apply heartbeat_runs.
  - apply runs_bind, runs_draw. intros now. apply ignored_runs; [|done].
    unfold heartbeat_ack_locked, bind, get. by rewrite coordinator_true.
  - apply runs_bind, runs_draw. intros now. apply ignored_runs; [|done].
    unfold membership_update_locked, bind, get, _valid_coordinator_message_locked.
    destruct Hs as (_ & -> & _). by rewrite andb_false_r.
  - by apply leave_runs.
  - apply ignored_runs; [|done]. unfold leave_ack_locked, bind, get. by rewrite coordinator_true.
Qed.

Lemma tick_runs now s :
  worker_ok s ->
  runs (_tick ip_unspecified IPv6Address self ten_ms fifty_ms now) s (fun _ => worker_ok).
Proof.
  intros Hs. pose proof Hs as [Hcinv _]. pose proof Hcinv as [Hinv _]. unfold _tick. apply runs_bind.
  destruct (ci_self _ _ _ _ _ Hinv) as (m & Hm & _).
  destruct (accepting s) eqn:Eacc.
  2: { eapply runs_locked; [unfold bind, get; rewrite Eacc; reflexivity|]. by apply runs_ret. }
  eapply runs_locked; [unfold bind, get; rewrite Eacc, Hm; reflexivity|].
  rewrite coordinator_true. apply runs_when; [|done]. intros _. apply runs_bind.
  pose proof (detect_advances ip_unspecified IPv6Address self now s Hcinv) as Ha.
  pose proof (frame_detect_fold self now (members (view s)) false s) as Hf.
  change (foldl _ _ _) with (detect_members_locked self now s) in Hf.
  destruct (detect_members_locked self now s) as [b s1] eqn:E. cbn [snd] in *.
  assert (Hs1 : worker_ok s1) by by eapply worker_advances.
  eapply runs_locked; [unfold section; rewrite E; reflexivity|].
  apply runs_when; [|done]. intros _. apply broadcast_runs; [apply Hs1|done].
Qed.

(** C37.  Nothing a peer sends ends the coordinator's worker, and nothing the network does: when
    every queued message passed the checks of its dataclass and no join request has a NUL in its
    host, an iteration of the worker's loop returns, whatever the message, the clock and the
    answers of [tell] are, and leaves the coordinator in a state that satisfies its invariant, with
    a queue of the same kind.  So the next iteration returns, too. *)
Theorem coordinator_worker_survives next_tick s :
  worker_ok s ->
  runs (run_iteration ip_unspecified IPv6Address UUID_of self ten_ms fifty_ms next_tick) s
    (fun _ => worker_ok).
Proof.
  intros Hs. unfold run_iteration. apply runs_bind.
  assert (Htimers : forall s1, worker_ok s1 -> runs (bind (draw clock) (fun now =>
    bind (if is_coordinator self then _expire_provisional_joins now
          else bind (read (fun s => join_retry_at (client s))) (fun retry_at =>
            when (retry_at <=? now) (_submit_pending_join_control ip_unspecified IPv6Address self ten_ms fifty_ms)))
      (fun _ => if next_tick <=? now
        then bind (_tick ip_unspecified IPv6Address self ten_ms fifty_ms now)
               (fun _ => ret (Some (now + heartbeat_interval (su_config self))))
        else ret (Some next_tick)))) s1 (fun _ => worker_ok)).
  { intros s1 Hs1. apply runs_bind, runs_draw. intros now. rewrite coordinator_true. apply runs_bind.
    apply (runs_mono _ _ (fun _ => worker_ok)).
    - apply runs_bind. eapply runs_locked; [reflexivity|]. apply runs_for_each; [|done].
      intros p s2 Hs2. by apply expire_runs.
    - intros _ s2 Hs2. destruct (next_tick <=? now); [|by apply runs_ret]. apply runs_bind.
      eapply runs_mono; [by apply tick_runs|]. intros a s3 Hs3. by apply runs_ret. }
  pose proof Hs as (Hcinv & Hnone & Hq).
  destruct (control_queue s) as [|item rest] eqn:Eq.
  { eapply runs_locked; [unfold section, take_item; rewrite Eq; reflexivity|]. apply runs_bind, runs_ret.
    by apply Htimers. }
  eapply runs_locked; [unfold section, take_item; rewrite Eq; reflexivity|].
  apply Forall_cons in Hq as [Hitem Hq].
  assert (Hs' : worker_ok (with_queue rest s)) by done.
  destruct item as [i| |]; [|by apply runs_ret|].
  - apply runs_bind. eapply runs_mono; [by apply control_runs|]. intros a s1 Hs1. by apply Htimers.
  - apply runs_bind, runs_ret. by apply Htimers.
Qed.

(** ** The one message that does *)

(** A join request for this cluster whose host has a NUL, which [IPv6Address] accepts in a scope
    id, passes its own checks, but [Endpoint] rejects it: the handler raises, which ends the
    worker of a running coordinator and leaves the runtime [FAILED]. *)
Theorem nul_host_ends_worker m source endpoint s (w : W) :
  0 ∈ jr_source_host m ->
  _targets_self self (jr_cluster_name m) (jr_target_incarnation_uid m) = true ->
  jr_config_fingerprint m = su_fingerprint self -> rt_state (life s) = RUNNING ->
  _handle_control ip_unspecified IPv6Address UUID_of self ten_ms fifty_ms
      (mkInbound (JoinRequest m) source endpoint) (s, w) = (Raise TransportProtocolError, (s, w)) /\
  rt_state (life (worker_failed_locked TransportProtocolError s)) = FAILED.
Proof.
  intros Hn Ht Hf Hr. split; [|unfold worker_failed_locked; by rewrite Hr].
  unfold _handle_control, _handle_join_request. cbn [in_message in_source in_endpoint].
  rewrite coordinator_true, Ht, bool_decide_eq_true_2 by done. cbn [negb orb].
  unfold bind, given, locked, Endpoint_new. cbn [fst snd]. rewrite bool_decide_eq_true_2 by done. done.
Qed.
End worker.

Module WorkerRun.
Import ClusterRun.

(** A world in which nothing can be reached. *)
#[local] Instance unreachable : ClusterEnv unit := {|
  clock w := (7, w); uuid4 w := (41, w); tell _ _ w := (Err (TransportProtocolError : exn), w);
  associate _ w := (Err (TransportProtocolError : exn), w);
  resolve_control _ w := (Err (TransportProtocolError : exn), w);
  spawn_control w := (Err (TransportProtocolError : exn), w);
  await_control_start _ w := (Err (TransportProtocolError : exn), w);
  stop_control _ w := (Err (TransportProtocolError : exn), w); try_join_send_lock w := (true, w) |}.

Definition queued : Runtime :=
  with_queue [Inbound (mkInbound (JoinRequest request) (self_identity alpha) (ep 7002))] c0.
Lemma queued_ok : worker_ok unspecified canonical seed queued.
Proof.
  split; [apply (formed_ok _ _ no_uuid _ seed_ok 0)|]. split; [vm_compute; reflexivity|].
  apply Forall_singleton. split; [vm_compute; reflexivity|]. cbn.
  assert (E : bool_decide (0 ∈ lit "127.0.0.1") = false) by (vm_compute; reflexivity).
  by apply bool_decide_eq_false in E.
Qed.
Lemma coordinator_worker_survives_witness :
  runs (run_iteration unspecified canonical no_uuid seed 10 50 0) queued
    (fun _ => worker_ok unspecified canonical seed).
Proof. apply (coordinator_worker_survives unspecified canonical no_uuid seed seed_ok 10 50 0 queued queued_ok). Defined.

(** [fe80::1%\0]. *)
Definition scoped : pystr := lit "fe80::1%" ++ [0].
Definition bad_request : _JoinRequest :=
  mkJoinRequest (lit "orders") digest (lit "alpha") 2 scoped 7002 21 1 31.
Definition running : Runtime := with_life (set_state RUNNING) c0.
Lemma nul_host_ends_worker_witness :
  control_check unspecified canonical (JoinRequest bad_request) = Ok tt /\
  _handle_control unspecified canonical no_uuid seed 10 50
    (mkInbound (JoinRequest bad_request) (self_identity alpha) (ep 7002)) (running, tt)
    = (Raise (TransportProtocolError : exn), (running, tt)).
Proof.
  split; [vm_compute; reflexivity|].
  apply (nul_host_ends_worker unspecified canonical no_uuid seed seed_ok 10 50 bad_request
    (self_identity alpha) (ep 7002) running tt); [|vm_compute; reflexivity..].
  by apply elem_of_app; right; left.
Defined.
End WorkerRun.
