(* ===== verification/Persistence.v ===== *)
(** The data of durable state: [persistence/model.py], [persistence/effect.py] and
    [persistence/codec.py].

    Identities, records and changes are records whose [__post_init__] checks are
    separate functions; the checks on the dynamic type of a field ([isinstance],
    [type(x) is ...]) hold by typing.  A UUID is a 128-bit integer; the database
    columns hold its canonical text, so [str] and the [UUID] constructor are modelled
    and shown to be inverse on it. *)

From stdpp Require Import base list numbers strings gmap.
From S2P Require Import Prelude Bytes PyStr Sha256.

(** * UUIDs *)

Definition UUID_BOUND : Z := 2 ^ 128.

Definition hex_digit (d : Z) : Z := if d <? 10 then 48 + d else 87 + d.

Fixpoint hex_digits (n : nat) (v : Z) : pystr :=
  match n with
  | O => []
  | S n => hex_digits n (v / 16) ++ [hex_digit (v mod 16)]
  end.

(** [str(uuid)]: 32 hexadecimal digits in groups of 8, 4, 4, 4 and 12. *)
Definition uuid_str (v : Z) : pystr :=
  let h := hex_digits 32 v in
  take 8 h ++ [45] ++ take 4 (drop 8 h) ++ [45] ++ take 4 (drop 12 h) ++ [45]
    ++ take 4 (drop 16 h) ++ [45] ++ drop 20 h.

Definition hex_value (c : Z) : option Z :=
  if (48 <=? c) && (c <=? 57) then Some (c - 48)
  else if (97 <=? c) && (c <=? 102) then Some (c - 87)
  else if (65 <=? c) && (c <=? 70) then Some (c - 55)
  else None.

Fixpoint hex_int (s : pystr) (acc : Z) : option Z :=
  match s with
  | [] => Some acc
  | c :: s => d ← hex_value c; hex_int s (acc * 16 + d)
  end.

(** [UUID(text)] on the texts [str] writes: the dashes are removed and the rest must be
    32 hexadecimal digits. *)
Definition uuid_parse (s : pystr) : result Z :=
  let h := filter (fun c => c <> 45) s in
  if bool_decide (length h = 32%nat)
  then match hex_int h 0 with Some v => Ok v | None => Err ValueError end
  else Err ValueError.

Lemma length_hex_digits n v : length (hex_digits n v) = n.
Proof. revert v. induction n as [|n IH]; intros v; simpl; [done|]. rewrite length_app, IH. simpl. lia. Qed.

Lemma hex_digit_value d : 0 <= d < 16 -> hex_value (hex_digit d) = Some d.
Proof.
  intros Hd. unfold hex_digit, hex_value. destruct (Z.ltb_spec d 10) as [Hs|Hs].
  - rewrite (proj2 (Z.leb_le 48 _)), (proj2 (Z.leb_le _ 57)) by lia. simpl. f_equal. lia.
  - rewrite (proj2 (Z.leb_le 48 _)), (proj2 (Z.leb_gt _ 57)) by lia. simpl.
    rewrite (proj2 (Z.leb_le 97 _)), (proj2 (Z.leb_le _ 102)) by lia. simpl. f_equal. lia.
Qed.

Lemma hex_digit_not_dash d : 0 <= d < 16 -> hex_digit d <> 45.
Proof. unfold hex_digit. destruct (Z.ltb_spec d 10); lia. Qed.

Lemma hex_digits_not_dash n v : Forall (fun c => c <> 45) (hex_digits n v).
Proof.
  revert v. induction n as [|n IH]; intros v; simpl; [constructor|].
  apply Forall_app. split; [apply IH|]. constructor; [|constructor].
  apply hex_digit_not_dash, Z.mod_pos_bound. lia.
Qed.

Lemma hex_int_app s t acc a :
  hex_int s acc = Some a -> hex_int (s ++ t) acc = hex_int t a.
Proof.
  revert acc. induction s as [|c s IH]; intros acc; simpl; [by intros [= ->]|].
  destruct (hex_value c); simpl; [apply IH|done].
Qed.

Lemma hex_int_digits n v acc :
  0 <= v < 16 ^ Z.of_nat n -> hex_int (hex_digits n v) acc = Some (acc * 16 ^ Z.of_nat n + v).
Proof.
  revert v. induction n as [|n IH]; intros v Hv.
  - simpl in *. f_equal. lia.
  - rewrite Nat2Z.inj_succ, Z.pow_succ_r in * by lia. simpl hex_digits.
    assert (Hm := Z.mod_pos_bound v 16 ltac:(lia)).
    assert (Hd := Z.div_mod v 16 ltac:(lia)).
    rewrite (hex_int_app _ _ _ (acc * 16 ^ Z.of_nat n + v / 16)).
    + simpl. rewrite hex_digit_value by done. simpl. f_equal. lia.
    + apply IH. split; [apply Z.div_pos; lia|]. apply Z.div_lt_upper_bound; lia.
Qed.

Lemma uuid_str_digits v : filter (fun c => c <> 45) (uuid_str v) = hex_digits 32 v.
Proof.
  unfold uuid_str. cbv zeta.
  assert (Hl := length_hex_digits 32 v). assert (Hn := hex_digits_not_dash 32 v).
  assert (Hf : forall s : pystr, Forall (fun c => c <> 45) s -> filter (fun c => c <> 45) s = s)
    by (intros; by apply filter_Forall_id).
  assert (Hd : filter (fun c : Z => c <> 45) [45] = []) by done.
  rewrite !filter_app, Hd, !app_nil_l.
  rewrite !Hf by auto using Forall_take, Forall_drop.
  set (h := hex_digits 32 v) in *.
  assert (Ht : forall n m, take m (drop n h) ++ drop (n + m) h = drop n h)
    by (intros; rewrite <- drop_drop; apply take_drop).
  pose proof (Ht 16%nat 4%nat) as H16. pose proof (Ht 12%nat 4%nat) as H12.
  pose proof (Ht 8%nat 4%nat) as H8. cbn [Nat.add] in *.
  rewrite H16, H12, H8. apply take_drop.
Qed.

Lemma uuid_parse_str v : 0 <= v < UUID_BOUND -> uuid_parse (uuid_str v) = Ok v.
Proof.
  intros Hv. unfold uuid_parse. cbv zeta. rewrite uuid_str_digits, length_hex_digits.
  rewrite bool_decide_eq_true_2 by done. rewrite hex_int_digits; [|exact Hv].
  by rewrite Z.mul_0_l, Z.add_0_l.
Qed.

#[global] Arguments uuid_str : simpl never.
#[global] Arguments uuid_parse : simpl never.

(** * Identities *)

Record PersistenceId := mkPid { entity_type : pystr; entity_id : pystr }.

#[global] Instance pid_eq_dec : EqDecision PersistenceId.
Proof. solve_decision. Defined.

Record OperationId := mkOpid { op_value : Z }.

#[global] Instance opid_eq_dec : EqDecision OperationId.
Proof. solve_decision. Defined.

Definition opid_str (o : OperationId) : pystr := uuid_str (op_value o).
Definition opid_ok (o : OperationId) : Prop := 0 <= op_value o < UUID_BOUND.
Definition opid_parse (s : pystr) : result OperationId := v ← uuid_parse s; Ok (mkOpid v).

#[global] Arguments opid_str : simpl never.
#[global] Arguments opid_parse : simpl never.

Lemma opid_parse_str o : opid_ok o -> opid_parse (opid_str o) = Ok o.
Proof. intros Ho. unfold opid_parse, opid_str. rewrite uuid_parse_str by done. by destruct o. Qed.

Lemma opid_str_inj o o' : opid_ok o -> opid_ok o' -> opid_str o = opid_str o' -> o = o'.
Proof. intros Ho Ho' He. apply opid_parse_str in Ho, Ho'. rewrite He in Ho. congruence. Qed.

Definition NAME_LIMIT : Z := 512.

(** [_require_name]. *)
Definition require_name (value : pystr) : result pystr :=
  _ ← raise_unless (negb (bool_decide (value = [])) && negb (bool_decide (0 ∈ value))) ValueError;
  encoded ← utf8_encode value;
  _ ← raise_unless (len encoded <=? NAME_LIMIT) ValueError;
  Ok value.

Definition PersistenceId_check (p : PersistenceId) : result unit :=
  _ ← require_name (entity_type p); _ ← require_name (entity_id p); Ok tt.

Definition pid_ok (p : PersistenceId) : Prop := PersistenceId_check p = Ok tt.

Definition PERSISTENCE_SLICE_COUNT : Z := 1024.

Definition persistence_slice (p : PersistenceId) : result Z :=
  t ← utf8_encode (entity_type p);
  i ← utf8_encode (entity_id p);
  let digest := sha256 (be_pack 2 (len t) ++ t ++ i) in
  Ok (be_unpack (take 4 digest) mod PERSISTENCE_SLICE_COUNT).

(** * Records and changes *)

Record DurableStateRecord := mkRecord {
  rec_id : PersistenceId;
  rec_revision : Z;
  rec_op : OperationId;
  rec_manifest : option pystr;
  rec_payload : option bytes;
  rec_deleted : bool }.

(** The checks on content shared by a record and a change. *)
Definition DurableStateRecord_check (r : DurableStateRecord) : result unit :=
  _ ← raise_unless (0 <? rec_revision r) ValueError;
  if rec_deleted r then
    raise_unless (bool_decide (rec_manifest r = None) && bool_decide (rec_payload r = None)) ValueError
  else
    match rec_manifest r, rec_payload r with
    | Some m, Some _ =>
        _ ← raise_unless (negb (bool_decide (m = []))) ValueError;
        raise_unless (negb (bool_decide (0 ∈ m))) ValueError
    | _, _ => Err ValueError
    end.

Record WriteResult := mkWrite { wr_revision : Z; wr_duplicate : bool }.

Definition WriteResult_check (w : WriteResult) : result unit :=
  raise_unless (0 <? wr_revision w) ValueError.

(** [WriteResult(revision, duplicate)]. *)
Definition new_WriteResult (revision : Z) (duplicate : bool) : result WriteResult :=
  let w := mkWrite revision duplicate in _ ← WriteResult_check w; Ok w.

Record DurableStateChange := mkChange {
  ch_offset : Z;
  ch_record : DurableStateRecord;
  ch_slice : Z;
  ch_committed_at : Z }.

Definition DurableStateChange_check (c : DurableStateChange) : result unit :=
  _ ← raise_unless (0 <? ch_offset c) ValueError;
  _ ← raise_unless ((0 <=? ch_slice c) && (ch_slice c <? PERSISTENCE_SLICE_COUNT)) ValueError;
  _ ← raise_unless (0 <? ch_committed_at c) ValueError;
  DurableStateRecord_check (ch_record c).

Record DurableStateChangeBatch := mkBatch {
  batch_changes : list DurableStateChange;
  batch_offset : Z }.

Definition DurableStateChangeBatch_check (b : DurableStateChangeBatch) : result unit :=
  _ ← raise_unless (0 <=? batch_offset b) ValueError;
  match last (batch_changes b) with
  | Some c => raise_unless (ch_offset c <=? batch_offset b) ValueError
  | None => Ok tt
  end.

(** * Codec values and effects *)

Record EncodedState := mkEncoded { enc_manifest : pystr; enc_payload : bytes }.

Definition EncodedState_check (e : EncodedState) : result unit :=
  _ ← raise_unless (negb (bool_decide (enc_manifest e = []))) ValueError;
  raise_unless (negb (bool_decide (0 ∈ enc_manifest e))) ValueError.

Inductive EffectKind := ENone | EPersist | EDelete.

#[global] Instance effect_kind_eq_dec : EqDecision EffectKind.
Proof. solve_decision. Defined.

(** [DurableEffect]; a callback is a value of [CB]. *)
Record DurableEffect (S CB : Type) := mkEffect {
  eff_kind : EffectKind;
  eff_state : option S;
  eff_op : option OperationId;
  eff_callbacks : list CB;
  eff_stop : bool }.
Arguments mkEffect {S CB}.
Arguments eff_kind {S CB}.
Arguments eff_state {S CB}.
Arguments eff_op {S CB}.
Arguments eff_callbacks {S CB}.
Arguments eff_stop {S CB}.

Section Effects.
Context {S CB : Type}.

Definition then_run (e : DurableEffect S CB) (callback : CB) : DurableEffect S CB :=
  mkEffect (eff_kind e) (eff_state e) (eff_op e) (eff_callbacks e ++ [callback]) (eff_stop e).
Definition then_stop (e : DurableEffect S CB) : DurableEffect S CB :=
  mkEffect (eff_kind e) (eff_state e) (eff_op e) (eff_callbacks e) true.
Definition none_effect : DurableEffect S CB := mkEffect ENone None None [] false.
Definition persist_effect (s : S) (o : OperationId) : DurableEffect S CB :=
  mkEffect EPersist (Some s) (Some o) [] false.
Definition delete_effect (o : OperationId) : DurableEffect S CB :=
  mkEffect EDelete None (Some o) [] false.
End Effects.

(** * Slices *)

Lemma utf8_encode_bytes s bs : utf8_encode s = Ok bs -> bs = utf8_bytes s.
Proof. unfold utf8_encode. case_match; by intros [= <-]. Qed.

Lemma require_name_ok value v :
  require_name value = Ok v ->
  v = value /\ value <> [] /\ (0 ∉ value) /\ utf8_encode value = Ok (utf8_bytes value)
  /\ len (utf8_bytes value) <= NAME_LIMIT.
Proof.
  unfold require_name. intros H. inv_run.
  match goal with He : utf8_encode _ = Ok _ |- _ =>
    pose proof (utf8_encode_bytes _ _ He); subst end.
  done.
Qed.

Lemma pid_ok_encode p :
  pid_ok p ->
  utf8_encode (entity_type p) = Ok (utf8_bytes (entity_type p)) /\
  utf8_encode (entity_id p) = Ok (utf8_bytes (entity_id p)) /\
  len (utf8_bytes (entity_type p)) <= NAME_LIMIT.
Proof.
  unfold pid_ok, PersistenceId_check. intros H. inv_run.
  repeat match goal with Hn : require_name _ = Ok _ |- _ => apply require_name_ok in Hn end.
  naive_solver.
Qed.

Lemma persistence_slice_range p z :
  persistence_slice p = Ok z -> 0 <= z < PERSISTENCE_SLICE_COUNT.
Proof. unfold persistence_slice. intros H. inv_run. apply Z.mod_pos_bound. done. Qed.

Lemma persistence_slice_total p : pid_ok p -> exists z, persistence_slice p = Ok z.
Proof.
  intros (Ht & Hi & _)%pid_ok_encode. unfold persistence_slice. rewrite Ht, Hi. eexists. done.
Qed.

Example slice_example :
  persistence_slice (mkPid (lit "account") (lit "a-1")) = Ok 54.
Proof. vm_compute. reflexivity. Qed.
