(* ===== verification/SqliteStore.v ===== *)
(** The database operations of [persistence/sqlite.py].

    The database is a record of the five tables the store creates and of SQLite's
    [AUTOINCREMENT] counter for the change table.  Each SQL statement the store
    executes is a function on that record: a keyed table is a [gmap], the change table
    a list in ascending [global_offset] order; PRIMARY KEY, UNIQUE and CHECK
    constraints, 64-bit parameters and the rowid limit raise the exception [sqlite3]
    raises.

    One operation holds the connection's [asyncio.Lock] from BEGIN to COMMIT or
    ROLLBACK, so operations are atomic and a failure before COMMIT leaves the database
    as it was: [run_transaction] runs a body of statements between the points at which
    the clock, the lock, BEGIN, a statement or COMMIT can fail, which are inputs.  A
    COMMIT whose await raised (cancellation, an error reported late) may have taken
    effect or not: both are inputs too, and the ROLLBACK that follows a commit that
    took effect changes nothing.  What remains outside is waiting itself: the deadlines are
    booleans that say whether they were met. *)

From stdpp Require Import base list numbers strings gmap.
From S2P Require Import Prelude Bytes PyStr Sha256 Persistence.
#[local] Open Scope se_scope.

(** * Tables *)

Record state_row := mkStateRow {
  sr_revision : Z;
  sr_op : pystr;
  sr_manifest : option pystr;
  sr_payload : option bytes;
  sr_deleted : bool }.

Record op_row := mkOpRow { or_fingerprint : bytes; or_revision : Z }.

Record change_row := mkChangeRow {
  cr_offset : Z;
  cr_type : pystr;
  cr_id : pystr;
  cr_slice : Z;
  cr_revision : Z;
  cr_op : pystr;
  cr_manifest : option pystr;
  cr_payload : option bytes;
  cr_deleted : bool;
  cr_committed_at : Z }.

Inductive Mode := AtLeastOnce | SqliteExactlyOnce.

#[global] Instance mode_eq_dec : EqDecision Mode.
Proof. solve_decision. Defined.

Record proj_row := mkProjRow {
  pr_type : pystr;
  pr_min_slice : Z;
  pr_max_slice : Z;
  pr_mode : Mode;
  pr_offset : Z }.

Record db := mkDb {
  durable_state : gmap (pystr * pystr) state_row;
  durable_operation : gmap (pystr * pystr * pystr) op_row;
  durable_change : list change_row;
  change_sequence : Z;
  projection_offset : gmap (pystr * pystr) proj_row;
  high_watermark : Z;
  compacted_through : Z }.

(** What [_open] creates in an empty database. *)
Definition empty_db : db := mkDb ∅ ∅ [] 0 ∅ 0 0.

Definition pid_key (p : PersistenceId) : pystr * pystr := (entity_type p, entity_id p).
Definition op_key (p : PersistenceId) (o : OperationId) : pystr * pystr * pystr :=
  (pid_key p, opid_str o).

(** * Statements *)

Definition INT64_MAX : Z := 2 ^ 63 - 1.

(** Binding a Python integer to a statement parameter. *)
Definition bind_int (z : Z) : result Z :=
  _ ← raise_unless ((- 2 ^ 63 <=? z) && (z <=? INT64_MAX)) OverflowError; Ok z.

(** The CHECK constraint on [deleted], [manifest] and [payload]. *)
Definition content_constraint {A B} (manifest : option A) (payload : option B) (deleted : bool) : bool :=
  match manifest, payload, deleted with
  | Some _, Some _, false => true
  | None, None, true => true
  | _, _, _ => false
  end.

(** [INSERT INTO movie_durable_state ... ON CONFLICT DO UPDATE]. *)
Definition sql_upsert_state (k : pystr * pystr) (r : state_row) : SE db unit :=
  _ <- se_lift (bind_int (sr_revision r)) ;;
  se_check ((0 <? sr_revision r)
            && content_constraint (sr_manifest r) (sr_payload r) (sr_deleted r)) IntegrityError ;;;
  fun d => Ok (tt, mkDb (<[k := r]> (durable_state d)) (durable_operation d) (durable_change d)
                        (change_sequence d) (projection_offset d) (high_watermark d)
                        (compacted_through d)).

(** [INSERT INTO movie_durable_operation]. *)
Definition sql_insert_operation (k : pystr * pystr * pystr) (r : op_row) : SE db unit :=
  _ <- se_lift (bind_int (or_revision r)) ;;
  se_check (0 <? or_revision r) IntegrityError ;;;
  fun d =>
    if bool_decide (is_Some (durable_operation d !! k)) then Err IntegrityError
    else Ok (tt, mkDb (durable_state d) (<[k := r]> (durable_operation d)) (durable_change d)
                      (change_sequence d) (projection_offset d) (high_watermark d)
                      (compacted_through d)).

(** [SELECT max(global_offset) FROM movie_durable_change]. *)
Definition max_offset (d : db) : option Z := cr_offset <$> last (durable_change d).

(** The rowid an AUTOINCREMENT table gives next. *)
Definition next_rowid (d : db) : Z := Z.max (change_sequence d) (default 0 (max_offset d)) + 1.

Definition same_change_key (r r' : change_row) : bool :=
  bool_decide (cr_type r = cr_type r') && bool_decide (cr_id r = cr_id r')
  && (cr_revision r =? cr_revision r').

(** [INSERT INTO movie_durable_change]; the row is given with any offset. *)
Definition sql_insert_change (r : change_row) : SE db unit :=
  _ <- se_lift (bind_int (cr_revision r)) ;;
  _ <- se_lift (bind_int (cr_committed_at r)) ;;
  se_check ((0 <=? cr_slice r) && (cr_slice r <? 1024) && (0 <? cr_revision r)
            && (0 <? cr_committed_at r)
            && content_constraint (cr_manifest r) (cr_payload r) (cr_deleted r)) IntegrityError ;;;
  fun d =>
    if existsb (same_change_key r) (durable_change d) then Err IntegrityError
    else if INT64_MAX <? next_rowid d then Err (OperationalError false)
    else
      let r' := mkChangeRow (next_rowid d) (cr_type r) (cr_id r) (cr_slice r) (cr_revision r)
                  (cr_op r) (cr_manifest r) (cr_payload r) (cr_deleted r) (cr_committed_at r) in
      Ok (tt, mkDb (durable_state d) (durable_operation d) (durable_change d ++ [r'])
                   (next_rowid d) (projection_offset d) (high_watermark d) (compacted_through d)).

(** [UPDATE movie_projection_feed SET high_watermark = (SELECT max(global_offset) ...)]:
    the column is NOT NULL. *)
Definition sql_update_high_watermark : SE db unit :=
  fun d =>
    match max_offset d with
    | None => Err IntegrityError
    | Some m =>
        if (0 <=? m) && (compacted_through d <=? m)
        then Ok (tt, mkDb (durable_state d) (durable_operation d) (durable_change d)
                          (change_sequence d) (projection_offset d) m (compacted_through d))
        else Err IntegrityError
    end.

(** [INSERT INTO movie_projection_offset]. *)
Definition sql_insert_projection (k : pystr * pystr) (r : proj_row) : SE db unit :=
  _ <- se_lift (bind_int (pr_offset r)) ;;
  se_check ((0 <=? pr_min_slice r) && (pr_min_slice r <? 1024)
            && (pr_min_slice r <=? pr_max_slice r) && (pr_max_slice r <? 1024)
            && (0 <=? pr_offset r)) IntegrityError ;;;
  fun d =>
    if bool_decide (is_Some (projection_offset d !! k)) then Err IntegrityError
    else Ok (tt, mkDb (durable_state d) (durable_operation d) (durable_change d)
                      (change_sequence d) (<[k := r]> (projection_offset d)) (high_watermark d)
                      (compacted_through d)).

Definition set_pr_offset (r : proj_row) (offset : Z) : proj_row :=
  mkProjRow (pr_type r) (pr_min_slice r) (pr_max_slice r) (pr_mode r) offset.

(** [UPDATE movie_projection_offset SET projection_offset = ? WHERE ... AND
    projection_offset = ?]; returns [rowcount]. *)
Definition sql_update_projection (k : pystr * pystr) (expected new : Z) : SE db Z :=
  _ <- se_lift (bind_int new) ;;
  _ <- se_lift (bind_int expected) ;;
  fun d =>
    match projection_offset d !! k with
    | Some r =>
        if pr_offset r =? expected then
          if 0 <=? new then
            Ok (1, mkDb (durable_state d) (durable_operation d) (durable_change d)
                        (change_sequence d) (<[k := set_pr_offset r new]> (projection_offset d))
                        (high_watermark d) (compacted_through d))
          else Err IntegrityError
        else Ok (0, d)
    | None => Ok (0, d)
    end.

(** [DELETE FROM movie_projection_offset WHERE ...]; returns [rowcount]. *)
Definition sql_delete_projection (k : pystr * pystr) : SE db Z :=
  fun d =>
    match projection_offset d !! k with
    | Some _ => Ok (1, mkDb (durable_state d) (durable_operation d) (durable_change d)
                            (change_sequence d) (delete k (projection_offset d))
                            (high_watermark d) (compacted_through d))
    | None => Ok (0, d)
    end.

(** [DELETE FROM movie_durable_change WHERE global_offset <= ?]; returns [rowcount]. *)
Definition sql_delete_changes (through : Z) : SE db Z :=
  fun d =>
    let kept := filter (fun r => ~ cr_offset r <= through) (durable_change d) in
    Ok (len (durable_change d) - len kept,
        mkDb (durable_state d) (durable_operation d) kept (change_sequence d)
             (projection_offset d) (high_watermark d) (compacted_through d)).

(** [UPDATE movie_projection_feed SET compacted_through = ?]. *)
Definition sql_update_compacted (through : Z) : SE db unit :=
  fun d =>
    if (0 <=? through) && (through <=? high_watermark d)
    then Ok (tt, mkDb (durable_state d) (durable_operation d) (durable_change d)
                      (change_sequence d) (projection_offset d) (high_watermark d) through)
    else Err IntegrityError.

(** [SELECT min(projection_offset) FROM movie_projection_offset]. *)
Definition min_projection_offset (d : db) : option Z :=
  match (fun kv => pr_offset kv.2) <$> map_to_list (projection_offset d) with
  | [] => None
  | x :: xs => Some (foldr Z.min x xs)
  end.

(** * Transactions *)

Record tx_env := mkTxEnv {
  lock_acquired : bool;            (* the operation lock was acquired before the deadline *)
  deadlines_met : bool;            (* every deadline check before the first statement passed *)
  begin_error : option exn;        (* BEGIN IMMEDIATE raised *)
  statement_error : option exn;    (* a statement, or cancellation, raised *)
  commit_error : option (exn * bool) }. (* COMMIT raised; whether it took effect *)

Definition ok_env : tx_env := mkTxEnv true true None None None.

(** The translation of the [except BaseException] clause. *)
Definition rollback_error (e : exn) : exn :=
  match e with OperationalError true => PersistenceOperationTimeout | _ => e end.

(** [_write_transaction], and the same frame written out in [_mutate]: BEGIN IMMEDIATE,
    the body, COMMIT; ROLLBACK on any exception. *)
Definition run_transaction {D A} (env : tx_env) (body : SE D A) (d : D) : result A * D :=
  if negb (lock_acquired env) then (Err PersistenceOperationTimeout, d)
  else if negb (deadlines_met env) then (Err PersistenceOperationTimeout, d)
  else match begin_error env with
  | Some e => (Err (rollback_error e), d)
  | None =>
      match statement_error env with
      | Some e => (Err (rollback_error e), d)
      | None =>
          match body d with
          | Err e => (Err (rollback_error e), d)
          | Ok (a, d') =>
              match commit_error env with
              | Some (e, took_effect) =>
                  (Err (rollback_error e), if took_effect : bool then d' else d)
              | None => (Ok a, d')
              end
          end
      end
  end.

(** * Mutations *)

(** [_fingerprint]; [len(...).to_bytes(4, "big")] raises when the length needs more. *)
Definition fingerprint_input (deleted : bool) (manifest : option pystr) (payload : option bytes)
  : result bytes :=
  if deleted then Ok (lit "delete")
  else match manifest, payload with
       | Some m, Some p =>
           em ← utf8_encode m;
           _ ← raise_unless (len em <? 2 ^ 32) OverflowError;
           Ok (lit "upsert" ++ be_pack 4 (len em) ++ em ++ p)
       | _, _ => Err AssertionError
       end.

Definition fingerprint (deleted : bool) (manifest : option pystr) (payload : option bytes)
  : result bytes :=
  i ← fingerprint_input deleted manifest payload; Ok (sha256 i).

(** The statements of [_mutate] between BEGIN and COMMIT; [now] is [time_ns()]. *)
Definition mutate_body (p : PersistenceId) (expected : Z) (o : OperationId)
    (manifest : option pystr) (payload : option bytes) (fp : bytes) (deleted : bool) (now : Z)
  : SE db WriteResult :=
  fun d =>
    match durable_operation d !! op_key p o with
    | Some dup =>
        if bool_decide (or_fingerprint dup = fp)
        then se_lift (new_WriteResult (or_revision dup) true) d
        else Err OperationConflictError
    | None =>
        let actual := match durable_state d !! pid_key p with
                      | Some r => sr_revision r | None => 0 end in
        if actual =? expected then
          let revision := actual + 1 in
          (sql_upsert_state (pid_key p) (mkStateRow revision (opid_str o) manifest payload deleted) ;;;
           sql_insert_operation (op_key p o) (mkOpRow fp revision) ;;;
           slice <- se_lift (persistence_slice p) ;;
           sql_insert_change (mkChangeRow 0 (entity_type p) (entity_id p) slice revision
                                (opid_str o) manifest payload deleted now) ;;;
           sql_update_high_watermark ;;;
           se_lift (new_WriteResult revision false)) d
        else Err (ConcurrentWriteError expected actual)
    end.

(** [_mutate]. *)
Definition mutate (env : tx_env) p expected o manifest payload fp deleted now (d : db) :=
  run_transaction env (mutate_body p expected o manifest payload fp deleted now) d.

(** [coalesce(length(CAST(manifest AS BLOB)), 0) + coalesce(length(payload), 0)]. *)
Definition retained (manifest : option pystr) (payload : option bytes) : Z :=
  match manifest with Some m => len (utf8_bytes m) | None => 0 end
  + match payload with Some b => len b | None => 0 end.

Section Store.
(** [self._max_state_bytes]. *)
Variable max_state_bytes : Z.

(** The checks of [upsert] before the operation is submitted; returns the bytes it
    retains and its fingerprint. *)
Definition upsert_checks (expected : Z) (manifest : pystr) (payload : bytes) : result (Z * bytes) :=
  _ ← raise_unless (0 <=? expected) ValueError;
  _ ← raise_unless (negb (bool_decide (manifest = []))) ValueError;
  _ ← raise_unless (negb (bool_decide (0 ∈ manifest))) ValueError;
  em ← utf8_encode manifest;
  let retained_bytes := len em + len payload in
  _ ← raise_unless (retained_bytes <=? max_state_bytes) PersistenceCapacityError;
  fp ← fingerprint false (Some manifest) (Some payload);
  Ok (retained_bytes, fp).

(** [upsert], once the operation is admitted and runs. *)
Definition upsert (env : tx_env) (p : PersistenceId) (expected : Z) (o : OperationId)
    (manifest : pystr) (payload : bytes) (now : Z) (d : db) : result WriteResult * db :=
  match upsert_checks expected manifest payload with
  | Err e => (Err e, d)
  | Ok (_, fp) => mutate env p expected o (Some manifest) (Some payload) fp false now d
  end.

(** The checks of [delete]. *)
Definition delete_checks (expected : Z) : result bytes :=
  _ ← raise_unless (0 <=? expected) ValueError;
  fingerprint true None None.

Definition delete_state (env : tx_env) (p : PersistenceId) (expected : Z) (o : OperationId)
    (now : Z) (d : db) : result WriteResult * db :=
  match delete_checks expected with
  | Err e => (Err e, d)
  | Ok fp => mutate env p expected o None None fp true now d
  end.

(** * Reads *)

(** [_read_record] and the conversion in [_load]; [timely] says whether the lock and
    the query met the deadline. *)
Definition load (timely : bool) (p : PersistenceId) (d : db) : result (option DurableStateRecord) :=
  _ ← raise_unless timely PersistenceOperationTimeout;
  match durable_state d !! pid_key p with
  | None => Ok None
  | Some r =>
      let bytes_ := retained (sr_manifest r) (sr_payload r) in
      let fits := bytes_ <=? max_state_bytes in
      let manifest := if fits then sr_manifest r else None in
      let payload := if fits then sr_payload r else None in
      _ ← raise_unless fits PersistenceCapacityError;
      o ← opid_parse (sr_op r);
      let rec := mkRecord p (sr_revision r) o manifest payload (sr_deleted r) in
      _ ← DurableStateRecord_check rec;
      Ok (Some rec)
  end.

(** The parameter checks of [changes]; returns the byte limit. *)
Definition changes_checks (etype : pystr) (min_slice max_slice after_offset limit : Z)
    (max_bytes : option Z) (scan_limit : Z) : result Z :=
  _ ← raise_unless (negb (bool_decide (etype = []))) ValueError;
  _ ← raise_unless (negb (bool_decide (0 ∈ etype))) ValueError;
  em ← utf8_encode etype;
  _ ← raise_unless (len em <=? 512) ValueError;
  _ ← raise_unless ((0 <=? min_slice) && (min_slice <=? max_slice)
                    && (max_slice <? PERSISTENCE_SLICE_COUNT)) ValueError;
  _ ← raise_unless (0 <=? after_offset) ValueError;
  _ ← raise_unless ((1 <=? limit) && (limit <=? 1024)) ValueError;
  _ ← raise_unless ((1 <=? scan_limit) && (scan_limit <=? 1000000)) ValueError;
  let byte_limit := default max_state_bytes max_bytes in
  _ ← raise_unless (max_state_bytes <=? byte_limit) ValueError;
  Ok byte_limit.

(** The WHERE clause of the change query. *)
Definition change_selected (etype : pystr) (min_slice max_slice after through : Z)
    (r : change_row) : Prop :=
  cr_type r = etype /\ min_slice <= cr_slice r <= max_slice /\ after < cr_offset r <= through.

#[global] Instance change_selected_dec etype lo hi after through r :
  Decision (change_selected etype lo hi after through r).
Proof. unfold change_selected. apply _. Defined.

(** The loop of [_read_changes] over the cursor: [taken] is [rows] newest first. *)
Fixpoint read_loop (limit max_bytes : Z) (cursor taken : list change_row) (bytes_ : Z)
  : result (list change_row * bool) :=
  if len taken <? limit then
    match cursor with
    | [] => Ok (reverse taken, true)
    | r :: cursor =>
        let state_bytes := retained (cr_manifest r) (cr_payload r) in
        if max_state_bytes <? state_bytes then Err PersistenceCapacityError
        else if negb (bool_decide (taken = [])) && (max_bytes <? bytes_ + state_bytes)
        then Ok (reverse taken, false)
        else read_loop limit max_bytes cursor (r :: taken) (bytes_ + state_bytes)
    end
  else Ok (reverse taken, false).

(** [_read_changes]: the rows, [scan_through] and [exhausted]. *)
Definition read_changes (etype : pystr) (min_slice max_slice after_offset limit max_bytes scan_limit : Z)
    (d : db) : result (list change_row * Z * bool) :=
  if after_offset <? compacted_through d
  then Err (ChangeFeedCompactedError after_offset (compacted_through d))
  else
    let scan_through := Z.min (high_watermark d) (after_offset + scan_limit) in
    _ ← bind_int after_offset;
    let selected := filter (change_selected etype min_slice max_slice after_offset scan_through)
                           (durable_change d) in
    '(rows, exhausted) ← read_loop limit max_bytes (take (Z.to_nat limit) selected) [] 0;
    Ok (rows, scan_through, exhausted).

(** [_change_from_row]. *)
Definition change_from_row (r : change_row) : result DurableStateChange :=
  let p := mkPid (cr_type r) (cr_id r) in
  _ ← PersistenceId_check p;
  o ← opid_parse (cr_op r);
  let c := mkChange (cr_offset r)
             (mkRecord p (cr_revision r) o (cr_manifest r) (cr_payload r) (cr_deleted r))
             (cr_slice r) (cr_committed_at r) in
  _ ← DurableStateChange_check c;
  Ok c.

Fixpoint change_rows (rows : list change_row) : result (list DurableStateChange) :=
  match rows with
  | [] => Ok []
  | r :: rows => c ← change_from_row r; cs ← change_rows rows; Ok (c :: cs)
  end.

(** [_changes]; [changes[-1]] of an empty tuple raises [IndexError], which no
    execution reaches (see [changes_total]). *)
Definition changes_query (timely : bool) (etype : pystr)
    (min_slice max_slice after_offset limit max_bytes scan_limit : Z) (d : db)
  : result DurableStateChangeBatch :=
  _ ← raise_unless timely PersistenceOperationTimeout;
  '(rows, scan_through, exhausted) ←
    read_changes etype min_slice max_slice after_offset limit max_bytes scan_limit d;
  changes ← change_rows rows;
  offset ← (if exhausted : bool then Ok (Z.max after_offset scan_through)
            else match last changes with Some c => Ok (ch_offset c) | None => Err IndexError end);
  let b := mkBatch changes offset in
  _ ← DurableStateChangeBatch_check b;
  Ok b.

(** [changes], once the operation is admitted and runs. *)
Definition changes (timely : bool) (etype : pystr) (min_slice max_slice after_offset limit : Z)
    (max_bytes : option Z) (scan_limit : Z) (d : db) : result DurableStateChangeBatch :=
  byte_limit ← changes_checks etype min_slice max_slice after_offset limit max_bytes scan_limit;
  changes_query timely etype min_slice max_slice after_offset limit byte_limit scan_limit d.

End Store.

(** * Projection offsets *)

Inductive Registration := RegOk | BaselineRequired | InvalidBaseline | SourceConflict.

#[global] Instance registration_eq_dec : EqDecision Registration.
Proof. solve_decision. Defined.

(** The body of [_projection_register]. *)
Definition projection_register_body (k : pystr * pystr) (etype : pystr) (min_slice max_slice : Z)
    (mode : Mode) (initial : option Z) : SE db (Z * Registration) :=
  fun d =>
    match projection_offset d !! k with
    | None =>
        let insert offset :=
          (sql_insert_projection k (mkProjRow etype min_slice max_slice mode offset) ;;;
           se_ret (offset, RegOk)) d in
        match initial with
        | None => if 0 <? compacted_through d then Ok ((0, BaselineRequired), d) else insert 0
        | Some i => if (compacted_through d <=? i) && (i <=? high_watermark d)
                    then insert i else Ok ((0, InvalidBaseline), d)
        end
    | Some r =>
        let source_matches :=
          bool_decide (pr_type r = etype) && (pr_min_slice r =? min_slice)
          && (pr_max_slice r =? max_slice) && bool_decide (pr_mode r = mode) in
        Ok ((pr_offset r, if source_matches then RegOk else SourceConflict), d)
    end.

Definition projection_register env k etype min_slice max_slice mode initial (d : db) :=
  run_transaction env (projection_register_body k etype min_slice max_slice mode initial) d.

(** The body of [_projection_save_offset]. *)
Definition projection_save_body (k : pystr * pystr) (expected new : Z) : SE db (bool * Z) :=
  n <- sql_update_projection k expected new ;;
  if n =? 1 then se_ret (true, new)
  else fun d => Ok ((false, match projection_offset d !! k with
                            | Some r => pr_offset r | None => -1 end), d).

Definition projection_save_offset env k expected new (d : db) :=
  run_transaction env (projection_save_body k expected new) d.

(** [_projection_commit]: the handler's statements run in the same transaction, on the
    application's own tables [U]; it can read the store's tables and cannot write
    them. *)
Section Commit.
Context {U : Type}.

Definition projection_commit_body (k : pystr * pystr) (expected new : Z)
    (apply : db -> U -> result U) : SE (db * U) unit :=
  fun '(d, u) =>
    let actual := match projection_offset d !! k with Some r => pr_offset r | None => -1 end in
    if negb (actual =? expected) then Err (ProjectionOffsetMismatch actual)
    else match apply d u with
         | Err e => Err e
         | Ok u' =>
             match sql_update_projection k expected new d with
             | Err e => Err e
             | Ok (n, d') =>
                 if n =? 1 then Ok (tt, (d', u')) else Err (ProjectionOffsetMismatch expected)
             end
         end.

Definition projection_commit (env : tx_env) (k : pystr * pystr) (expected new : Z)
    (apply : db -> U -> result U) (du : db * U) : result (bool * Z) * (db * U) :=
  match run_transaction env (projection_commit_body k expected new apply) du with
  | (Err (ProjectionOffsetMismatch actual), du') => (Ok (false, actual), du')
  | (Err e, du') => (Err e, du')
  | (Ok _, du') => (Ok (true, new), du')
  end.
End Commit.

(** [_delete_projection_offset]. *)
Definition delete_projection_offset env (k : pystr * pystr) (d : db) : result bool * db :=
  run_transaction env (n <- sql_delete_projection k ;; se_ret (n =? 1)) d.

(** * Compaction *)

(** The body of [_compact_changes]. *)
Definition compact_body (limit : Z) : SE db Z :=
  fun d =>
    match min_projection_offset d with
    | None => Ok (0, d)
    | Some minimum =>
        if minimum <=? 0 then Ok (0, d)
        else
          let offsets := take (Z.to_nat limit)
                           (cr_offset <$> filter (fun r => cr_offset r <= minimum) (durable_change d)) in
          match last offsets with
          | None => Ok (0, d)
          | Some through =>
              (n <- sql_delete_changes through ;;
               if n =? 0 then se_ret n
               else (sql_update_compacted through ;;; se_ret n)) d
          end
    end.

Definition compact_checks (limit : Z) : result unit :=
  raise_unless ((1 <=? limit) && (limit <=? 100000)) ValueError.

(** [compact_changes], once the operation is admitted and runs. *)
Definition compact_changes (env : tx_env) (limit : Z) (d : db) : result Z * db :=
  match compact_checks limit with
  | Err e => (Err e, d)
  | Ok _ => run_transaction env (compact_body limit) d
  end.

(** * Startup *)

(** The consistency of the feed that [_validate_schema] requires of an existing
    database. *)
Definition feed_compatible (d : db) : bool :=
  (change_sequence d =? high_watermark d)
  && bool_decide (max_offset d =
       if compacted_through d =? high_watermark d then None else Some (high_watermark d)).
