(* ===== verification/StoreLog.v ===== *)
(** The abstract specification of the durable-state store: a log of commits.

    A commit is one mutation that was not a duplicate.  The log determines every table:
    an entity's revision is the number of its commits, its state the content of its
    last commit, the change feed the log itself with offsets 1, 2, ..., less the
    compacted prefix.  [represents log d] is the abstraction relation between a log and
    a database. *)

From stdpp Require Import base list numbers strings gmap.
From S2P Require Import Prelude Bytes PyStr Sha256 Persistence SqliteStore.

(** [None] is a tombstone. *)
Definition content : Type := option (pystr * bytes).

Record commit := mkCommit {
  c_id : PersistenceId;
  c_op : OperationId;
  c_content : content;
  c_fp : bytes;
  c_at : Z }.

Definition manifest_of (c : content) : option pystr := fst <$> c.
Definition payload_of (c : content) : option bytes := snd <$> c.
Definition deleted_of (c : content) : bool := match c with Some _ => false | None => true end.

Definition content_fp (c : content) : result bytes :=
  fingerprint (deleted_of c) (manifest_of c) (payload_of c).

(** The revision of an entity after a log. *)
Definition count (p : PersistenceId) (log : list commit) : Z := len (filter (fun c => c_id c = p) log).

Definition slice_of (p : PersistenceId) : Z :=
  match persistence_slice p with Ok z => z | Err _ => 0 end.

(** The change row of commit [c] made after [pre]. *)
Definition commit_row (pre : list commit) (c : commit) : change_row :=
  mkChangeRow (len pre + 1) (entity_type (c_id c)) (entity_id (c_id c)) (slice_of (c_id c))
    (count (c_id c) pre + 1) (opid_str (c_op c)) (manifest_of (c_content c))
    (payload_of (c_content c)) (deleted_of (c_content c)) (c_at c).

Fixpoint rows_from (pre log : list commit) : list change_row :=
  match log with
  | [] => []
  | c :: log => commit_row pre c :: rows_from (pre ++ [c]) log
  end.
Definition log_rows (log : list commit) : list change_row := rows_from [] log.

(** The entry of the operation table for a key. *)
Fixpoint op_from (pre log : list commit) (k : pystr * pystr * pystr) : option op_row :=
  match log with
  | [] => None
  | c :: log =>
      if bool_decide (op_key (c_id c) (c_op c) = k)
      then Some (mkOpRow (c_fp c) (count (c_id c) pre + 1))
      else op_from (pre ++ [c]) log k
  end.
Definition op_of (log : list commit) k := op_from [] log k.

(** The latest commit of an entity. *)
Definition latest (p : PersistenceId) (log : list commit) : option commit :=
  last (filter (fun c => c_id c = p) log).

Definition state_of (log : list commit) (k : pystr * pystr) : option state_row :=
  let p := mkPid k.1 k.2 in
  (fun c => mkStateRow (count p log) (opid_str (c_op c)) (manifest_of (c_content c))
              (payload_of (c_content c)) (deleted_of (c_content c))) <$> latest p log.

Definition content_ok (c : content) : Prop :=
  match c with Some (m, _) => m <> [] /\ 0 ∉ m | None => True end.

Definition commit_ok (c : commit) : Prop :=
  pid_ok (c_id c) /\ opid_ok (c_op c) /\ content_ok (c_content c) /\ 0 < c_at c
  /\ content_fp (c_content c) = Ok (c_fp c).

Record represents (log : list commit) (d : db) : Prop := {
  rep_ok : Forall commit_ok log;
  rep_compacted : 0 <= compacted_through d <= len log;
  rep_watermark : high_watermark d = len log;
  rep_sequence : change_sequence d = len log;
  rep_changes : durable_change d = drop (Z.to_nat (compacted_through d)) (log_rows log);
  rep_state : forall k, durable_state d !! k = state_of log k;
  rep_ops : forall k, durable_operation d !! k = op_of log k }.

(** Registered projections lie within the retained feed. *)
Definition projections_ok (d : db) : Prop :=
  map_Forall (fun _ r => compacted_through d <= pr_offset r <= high_watermark d
                         /\ 0 <= pr_min_slice r <= pr_max_slice r /\ pr_max_slice r < 1024)
             (projection_offset d).

(** * The abstract operations *)

(** The commit of [p] made by operation [o], with its revision. *)
Fixpoint find_op (pre log : list commit) (p : PersistenceId) (o : OperationId) : option (content * Z) :=
  match log with
  | [] => None
  | c :: log =>
      if bool_decide (c_id c = p /\ c_op c = o) then Some (c_content c, count p pre + 1)
      else find_op (pre ++ [c]) log p o
  end.

(** A write: a known operation is answered from the log, before the revision is
    compared; a new one appends. *)
Definition spec_write (log : list commit) (p : PersistenceId) (expected : Z) (o : OperationId)
    (c : content) (fp : bytes) (now : Z) : result WriteResult * list commit :=
  match find_op [] log p o with
  | Some (c', revision) =>
      if bool_decide (c' = c) then (Ok (mkWrite revision true), log)
      else (Err OperationConflictError, log)
  | None =>
      if count p log =? expected
      then (Ok (mkWrite (expected + 1) false), log ++ [mkCommit p o c fp now])
      else (Err (ConcurrentWriteError expected (count p log)), log)
  end.

Definition spec_load (log : list commit) (p : PersistenceId) : option DurableStateRecord :=
  (fun c => mkRecord p (count p log) (c_op c) (manifest_of (c_content c))
              (payload_of (c_content c)) (deleted_of (c_content c))) <$> latest p log.

Definition row_change (r : change_row) (o : OperationId) : DurableStateChange :=
  mkChange (cr_offset r)
    (mkRecord (mkPid (cr_type r) (cr_id r)) (cr_revision r) o (cr_manifest r) (cr_payload r)
       (cr_deleted r))
    (cr_slice r) (cr_committed_at r).

(** The change a commit is reported as. *)
Definition commit_change (pre : list commit) (c : commit) : DurableStateChange :=
  row_change (commit_row pre c) (c_op c).

Fixpoint changes_from (pre log : list commit) : list DurableStateChange :=
  match log with
  | [] => []
  | c :: log => commit_change pre c :: changes_from (pre ++ [c]) log
  end.
Definition log_changes (log : list commit) : list DurableStateChange := changes_from [] log.

Definition matches (etype : pystr) (lo hi after through : Z) (c : DurableStateChange) : Prop :=
  entity_type (rec_id (ch_record c)) = etype /\ lo <= ch_slice c <= hi
  /\ after < ch_offset c <= through.

#[global] Instance matches_dec etype lo hi after through c : Decision (matches etype lo hi after through c).
Proof. unfold matches. apply _. Defined.

(** What a reader of the feed must see of a log between two offsets. *)
Definition feed (etype : pystr) (lo hi after through : Z) (log : list commit) : list DurableStateChange :=
  filter (matches etype lo hi after through) (log_changes log).

(** * Lemmas on logs *)

Lemma elem_of_drop_in {A} (n : nat) (l : list A) x : x ∈ drop n l -> x ∈ l.
Proof. intros H. rewrite <- (take_drop n l). apply elem_of_app. by right. Qed.

(** The last element of a proper suffix is the last element. *)
Lemma last_drop {A} (n : nat) (l : list A) : (n < length l)%nat -> last (drop n l) = last l.
Proof.
  intros Hn. rewrite <- (take_drop n l) at 2. rewrite last_app.
  destruct (last (drop n l)) eqn:Hd; [done|].
  apply last_None, (f_equal length) in Hd. rewrite length_drop in Hd. simpl in Hd. lia.
Qed.

Create HintDb log.
Create Rewrite HintDb log.
#[export] Hint Rewrite @len_app @len_singleton : log.
#[export] Hint Resolve len_nonneg : log.

Lemma count_snoc p log c :
  count p (log ++ [c]) = count p log + (if bool_decide (c_id c = p) then 1 else 0).
Proof.
  unfold count. rewrite filter_app, len_app. f_equal.
  case_bool_decide; [by rewrite filter_cons_True|by rewrite filter_cons_False].
Qed.

Lemma count_bounds p log : 0 <= count p log <= len log.
Proof.
  unfold count. split; [apply len_nonneg|]. unfold len.
  pose proof (length_filter (fun c => c_id c = p) log). lia.
Qed.

Lemma count_app p l l' : count p (l ++ l') = count p l + count p l'.
Proof. unfold count. by rewrite filter_app, len_app. Qed.

Lemma rows_from_app pre l l' :
  rows_from pre (l ++ l') = rows_from pre l ++ rows_from (pre ++ l) l'.
Proof.
  revert pre. induction l as [|c l IH]; intros pre; simpl; [by rewrite app_nil_r|].
  by rewrite IH, <- app_assoc.
Qed.

Lemma log_rows_snoc log c : log_rows (log ++ [c]) = log_rows log ++ [commit_row log c].
Proof. unfold log_rows. by rewrite rows_from_app. Qed.

Lemma length_rows_from pre l : length (rows_from pre l) = length l.
Proof. revert pre. induction l as [|c l IH]; intros pre; simpl; [done|]. by rewrite IH. Qed.

Lemma length_log_rows log : length (log_rows log) = length log.
Proof. apply length_rows_from. Qed.

Lemma rows_from_lookup pre l i r :
  rows_from pre l !! i = Some r ->
  exists c, l !! i = Some c /\ r = commit_row (pre ++ take i l) c.
Proof.
  revert pre i. induction l as [|c l IH]; intros pre [|i]; simpl; try done.
  - intros [= <-]. exists c. by rewrite app_nil_r.
  - intros (c' & Hc & ->)%IH. exists c'. by rewrite <- app_assoc.
Qed.

Lemma log_rows_lookup log i r :
  log_rows log !! i = Some r -> exists c, log !! i = Some c /\ r = commit_row (take i log) c.
Proof. apply rows_from_lookup. Qed.

(** The row at index [i] has offset [i + 1]. *)
Lemma log_rows_offset log i r : log_rows log !! i = Some r -> cr_offset r = Z.of_nat i + 1.
Proof.
  intros (c & Hc & ->)%log_rows_lookup. simpl. unfold len. apply lookup_lt_Some in Hc.
  rewrite length_take. lia.
Qed.

Lemma op_from_app pre l l' k :
  op_from pre (l ++ l') k =
  match op_from pre l k with Some r => Some r | None => op_from (pre ++ l) l' k end.
Proof.
  revert pre. induction l as [|c l IH]; intros pre; simpl; [by rewrite app_nil_r|].
  case_bool_decide; [done|]. by rewrite IH, <- app_assoc.
Qed.

Lemma op_of_snoc log c k :
  op_of (log ++ [c]) k =
  match op_of log k with
  | Some r => Some r
  | None => if bool_decide (op_key (c_id c) (c_op c) = k)
            then Some (mkOpRow (c_fp c) (count (c_id c) log + 1)) else None
  end.
Proof. unfold op_of. rewrite op_from_app. done. Qed.

(** Operations recorded in a log stay recorded. *)
Lemma op_of_mono log log' k r : op_of log k = Some r -> op_of (log ++ log') k = Some r.
Proof. unfold op_of. rewrite op_from_app. by intros ->. Qed.

Lemma latest_snoc p log c :
  latest p (log ++ [c]) = if bool_decide (c_id c = p) then Some c else latest p log.
Proof.
  unfold latest. rewrite filter_app. case_bool_decide as H.
  - rewrite filter_cons_True by done. apply last_snoc.
  - rewrite filter_cons_False by done. by rewrite filter_nil, app_nil_r.
Qed.

Lemma latest_In p log c : latest p log = Some c -> c ∈ log /\ c_id c = p.
Proof. unfold latest. intros H%last_Some_elem_of. apply list_elem_of_filter in H. tauto. Qed.

Lemma latest_count p log : is_Some (latest p log) -> 0 < count p log.
Proof.
  unfold latest, count, len. intros [c Hc].
  destruct (filter _ log); simpl in *; [done|lia].
Qed.

Lemma latest_None_count p log : latest p log = None -> count p log = 0.
Proof. unfold latest, count. by intros ->%last_None. Qed.

Lemma pid_eta p : mkPid (pid_key p).1 (pid_key p).2 = p.
Proof. by destruct p. Qed.

Lemma pid_key_inj p p' : pid_key p = pid_key p' -> p = p'.
Proof. destruct p, p'. unfold pid_key. simpl. congruence. Qed.

Lemma op_key_inj p o p' o' :
  opid_ok o -> opid_ok o' -> op_key p o = op_key p' o' -> p = p' /\ o = o'.
Proof.
  intros Ho Ho' He. split.
  - exact (pid_key_inj _ _ (f_equal fst He)).
  - apply opid_str_inj; [done..|]. exact (f_equal snd He).
Qed.

Lemma state_of_snoc log c k :
  state_of (log ++ [c]) k =
  if bool_decide (pid_key (c_id c) = k)
  then Some (mkStateRow (count (c_id c) log + 1) (opid_str (c_op c)) (manifest_of (c_content c))
               (payload_of (c_content c)) (deleted_of (c_content c)))
  else state_of log k.
Proof.
  unfold state_of. cbv zeta. rewrite latest_snoc, count_snoc.
  destruct k as [t i]. simpl.
  case_bool_decide as H.
  - assert (Hid : c_id c = mkPid t i)
      by (destruct (c_id c); unfold pid_key in H; simpl in H; congruence).
    rewrite Hid, !bool_decide_eq_true_2 by done. done.
  - rewrite bool_decide_eq_false_2; [by rewrite Z.add_0_r|].
    intros He. apply H. destruct (c_id c). unfold pid_key in He. simpl in *. congruence.
Qed.

(** Looking an operation up by key and by identity agree. *)
Lemma op_from_find pre l p o :
  Forall commit_ok l -> opid_ok o ->
  match op_from pre l (op_key p o), find_op pre l p o with
  | Some r, Some (c, rev) =>
      or_revision r = rev /\ content_fp c = Ok (or_fingerprint r) /\
      exists x, x ∈ l /\ c_id x = p /\ c_op x = o /\ c_content x = c /\ c_fp x = or_fingerprint r
  | None, None => True
  | _, _ => False
  end.
Proof.
  intros Hl Ho. revert pre. induction Hl as [|c l Hc Hl IH]; intros pre; simpl; [done|].
  case_bool_decide as Hk.
  - apply op_key_inj in Hk as [Hp Hop]; [|apply Hc|done].
    rewrite bool_decide_eq_true_2 by done. simpl. subst. split; [done|].
    destruct Hc as (? & ? & ? & ? & ?). split; [done|]. exists c. repeat split; try done. by left.
  - rewrite bool_decide_eq_false_2 by (intros [Hp Hop]; subst; done).
    specialize (IH (pre ++ [c])).
    destruct (op_from _ l _) as [r|], (find_op _ l p o) as [[c' rev]|]; try done.
    destruct IH as (Hr & Hf & x & Hx & Hrest). split; [done|]. split; [done|].
    exists x. split; [by right|done].
Qed.
