(* ===== verification/StoreRefine.v ===== *)
(** The database operations implement the log: every mutation, read, compaction and
    projection bookkeeping of [SqliteStore] against the specification of [StoreLog]. *)

From stdpp Require Import base list numbers strings gmap.
From S2P Require Import Prelude Bytes PyStr Sha256 Persistence SqliteStore StoreLog.

(** * Rows of a log *)

Lemma count_take_lookup log i c :
  log !! i = Some c -> count (c_id c) (take i log) + 1 <= count (c_id c) log.
Proof.
  intros Hc. rewrite <- (take_drop (S i) log) at 2. rewrite (take_S_r _ _ _ Hc).
  rewrite count_app, count_snoc, bool_decide_eq_true_2 by done.
  pose proof (count_bounds (c_id c) (drop (S i) log)). lia.
Qed.

Lemma log_rows_revision log r :
  r ∈ log_rows log -> 0 < cr_revision r <= count (mkPid (cr_type r) (cr_id r)) log.
Proof.
  intros [i Hi]%list_elem_of_lookup. apply log_rows_lookup in Hi as (c & Hc & ->).
  pose proof (count_take_lookup _ _ _ Hc) as Hn. pose proof (count_bounds (c_id c) (take i log)).
  simpl. destruct (c_id c). simpl in *. lia.
Qed.

Lemma log_rows_unique log p r :
  cr_type r = entity_type p -> cr_id r = entity_id p -> cr_revision r = count p log + 1 ->
  forall n, existsb (same_change_key r) (drop n (log_rows log)) = false.
Proof.
  intros Ht Hi Hr n. apply not_true_iff_false. rewrite existsb_exists.
  intros (r' & Hin & Hk). apply list_elem_of_In in Hin.
  apply elem_of_drop_in, log_rows_revision in Hin.
  unfold same_change_key in Hk. inv_run.
  assert (mkPid (cr_type r') (cr_id r') = p) as Hp by (destruct p; simpl in *; congruence).
  rewrite Hp in Hin. lia.
Qed.

Lemma last_log_rows log : cr_offset <$> last (log_rows log) =
  if bool_decide (log = []) then None else Some (len log).
Proof.
  induction log as [|c log _] using rev_ind; [done|].
  rewrite bool_decide_eq_false_2 by (by destruct log). rewrite log_rows_snoc, last_snoc. simpl.
  f_equal. unfold len. rewrite length_app. simpl. lia.
Qed.

Lemma rep_max_offset log d :
  represents log d ->
  max_offset d = if compacted_through d =? len log then None else Some (len log).
Proof.
  intros [_ Hc _ _ Hch _ _]. unfold max_offset. rewrite Hch.
  assert (Hl := length_log_rows log). destruct (Z.eqb_spec (compacted_through d) (len log)) as [He|Hne].
  - rewrite drop_ge; [done|]. rewrite Hl, He. unfold len. lia.
  - rewrite last_drop by (rewrite Hl; unfold len in *; lia).
    rewrite last_log_rows, bool_decide_eq_false_2; [done|].
    intros ->. unfold len in *. simpl in *. lia.
Qed.

Lemma rep_next_rowid log d : represents log d -> next_rowid d = len log + 1.
Proof.
  intros H. unfold next_rowid. rewrite (rep_max_offset _ _ H), (rep_sequence _ _ H).
  pose proof (len_nonneg log). case_match; simpl; lia.
Qed.

Lemma represents_empty : represents [] empty_db.
Proof. split; try done. Qed.

(** * Mutations *)

(** No other content committed under the same operation has the same fingerprint. *)
Definition no_collision (log : list commit) (p : PersistenceId) (o : OperationId) (c : content)
    (fp : bytes) : Prop :=
  forall x, x ∈ log -> c_id x = p -> c_op x = o -> c_fp x = fp -> c_content x = c.

Definition write_body p expected o (c : content) fp now : SE db WriteResult :=
  mutate_body p expected o (manifest_of c) (payload_of c) fp (deleted_of c) now.

Lemma rep_revision log d p :
  represents log d ->
  match durable_state d !! pid_key p with Some r => sr_revision r | None => 0 end = count p log.
Proof.
  intros H. rewrite (rep_state _ _ H). unfold state_of. cbv zeta. rewrite pid_eta.
  destruct (latest p log) eqn:Hl; simpl; [done|]. by rewrite latest_None_count.
Qed.

Lemma content_constraint_ok (c : content) :
  content_constraint (manifest_of c) (payload_of c) (deleted_of c) = true.
Proof. by destruct c. Qed.

Lemma bind_int_ok z : - 2 ^ 63 <= z <= INT64_MAX -> bind_int z = Ok z.
Proof.
  intros [Hl Hh]. unfold bind_int.
  apply Z.leb_le in Hl, Hh. by rewrite Hl, Hh.
Qed.

(** The database after the statements that append a commit. *)
Definition appended (log : list commit) (c : commit) (d : db) : db :=
  let row := commit_row log c in
  mkDb (<[pid_key (c_id c) := mkStateRow (cr_revision row) (cr_op row) (cr_manifest row)
                                (cr_payload row) (cr_deleted row)]> (durable_state d))
       (<[op_key (c_id c) (c_op c) := mkOpRow (c_fp c) (cr_revision row)]> (durable_operation d))
       (durable_change d ++ [row]) (len log + 1) (projection_offset d) (len log + 1)
       (compacted_through d).

Lemma represents_appended log c d :
  represents log d -> commit_ok c -> op_of log (op_key (c_id c) (c_op c)) = None ->
  represents (log ++ [c]) (appended log c d).
Proof.
  intros H Hc Hop. destruct H as [Hok Hcp Hw Hs Hch Hst Hops].
  unfold appended. split; cbn [durable_state durable_operation durable_change change_sequence
    projection_offset high_watermark compacted_through].
  - apply Forall_app. by split; [|constructor].
  - rewrite len_app, len_singleton. lia.
  - by rewrite len_app.
  - by rewrite len_app.
  - rewrite log_rows_snoc, drop_app_le, Hch; [done|]. rewrite length_log_rows. unfold len in *. lia.
  - intros k. rewrite state_of_snoc. case_bool_decide as Hk.
    + rewrite <- Hk. by rewrite lookup_insert_eq.
    + rewrite lookup_insert_ne by done. apply Hst.
  - intros k. rewrite op_of_snoc. destruct (decide (op_key (c_id c) (c_op c) = k)) as [<-|Hk].
    + rewrite lookup_insert_eq, Hop, bool_decide_eq_true_2; done.
    + rewrite lookup_insert_ne, Hops by done. rewrite bool_decide_eq_false_2 by done.
      by destruct (op_of log k).
Qed.

Lemma append_statements log d p o (c : content) fp now :
  represents log d -> pid_ok p -> len log < INT64_MAX -> 0 < now <= INT64_MAX ->
  op_of log (op_key p o) = None ->
  (let revision := count p log + 1 in
   se_bind (sql_upsert_state (pid_key p)
              (mkStateRow revision (opid_str o) (manifest_of c) (payload_of c) (deleted_of c)))
     (fun _ => se_bind (sql_insert_operation (op_key p o) (mkOpRow fp revision))
     (fun _ => se_bind (se_lift (persistence_slice p))
     (fun slice => se_bind (sql_insert_change (mkChangeRow 0 (entity_type p) (entity_id p) slice
          revision (opid_str o) (manifest_of c) (payload_of c) (deleted_of c) now))
     (fun _ => se_bind sql_update_high_watermark
     (fun _ => se_lift (new_WriteResult revision false))))))) d
  = Ok (mkWrite (count p log + 1) false, appended log (mkCommit p o c fp now) d).
Proof.
  intros H Hp Hlen Hnow Hop. cbv zeta.
  pose proof (count_bounds p log) as Hcount. pose proof (rep_next_rowid _ _ H) as Hnext.
  destruct (persistence_slice_total p Hp) as [z Hz]. pose proof (persistence_slice_range _ _ Hz) as Hzr.
  assert (Hrev : bind_int (count p log + 1) = Ok (count p log + 1)) by (apply bind_int_ok; lia).
  assert (Hpos : (0 <? count p log + 1) = true) by (apply Z.ltb_lt; lia).
  unfold se_bind at 1, sql_upsert_state, se_bind, se_lift, se_check.
  cbn [sr_revision sr_manifest sr_payload sr_deleted]. rewrite Hrev, Hpos, content_constraint_ok. simpl.
  unfold sql_insert_operation, se_bind, se_lift, se_check. cbn [or_revision]. rewrite Hrev, Hpos. simpl.
  rewrite (rep_ops _ _ H), Hop, bool_decide_eq_false_2 by (by intros [? ?]).
  rewrite Hz. unfold sql_insert_change, se_bind, se_lift, se_check.
  cbn [cr_revision cr_committed_at cr_slice cr_manifest cr_payload cr_deleted].
  rewrite Hrev, bind_int_ok, Hpos, content_constraint_ok by lia.
  rewrite (proj2 (Z.leb_le 0 z)), (proj2 (Z.ltb_lt z 1024)), (proj2 (Z.ltb_lt 0 now))
    by (unfold PERSISTENCE_SLICE_COUNT in *; lia). simpl.
  rewrite (rep_changes _ _ H). rewrite (log_rows_unique log p) by done.
  unfold next_rowid in *. cbn [change_sequence max_offset durable_change] in *.
  unfold max_offset in *. cbn [durable_change] in *. rewrite <- (rep_changes _ _ H), Hnext.
  rewrite (proj2 (Z.ltb_ge _ _)) by lia.
  unfold sql_update_high_watermark, max_offset. cbn [durable_change compacted_through].
  rewrite last_snoc. simpl. pose proof (rep_compacted _ _ H).
  rewrite (proj2 (Z.leb_le 0 _)), (proj2 (Z.leb_le (compacted_through d) _)) by lia. simpl.
  unfold new_WriteResult, WriteResult_check, raise_unless. cbn [wr_revision]. rewrite Hpos. simpl.
  unfold appended, commit_row. simpl. unfold slice_of. by rewrite Hz.
Qed.

Lemma op_from_revision pre log k r : op_from pre log k = Some r -> 0 < or_revision r.
Proof.
  revert pre. induction log as [|c log IH]; intros pre; simpl; [done|].
  case_bool_decide; [intros [= <-]; simpl; pose proof (count_bounds (c_id c) pre); lia|apply IH].
Qed.

(** A known operation is answered from the operation table and changes nothing. *)
Lemma write_body_known log d p expected o c fp now r :
  represents log d -> op_of log (op_key p o) = Some r ->
  write_body p expected o c fp now d =
  if bool_decide (or_fingerprint r = fp) then Ok (mkWrite (or_revision r) true, d)
  else Err OperationConflictError.
Proof.
  intros H Hop. unfold write_body, mutate_body. rewrite (rep_ops _ _ H), Hop.
  case_bool_decide; [|done].
  unfold se_lift, new_WriteResult, WriteResult_check, raise_unless. cbn [wr_revision].
  by rewrite (proj2 (Z.ltb_lt 0 _)) by (by eapply op_from_revision).
Qed.

(** A new operation appends when the revision is the expected one. *)
Lemma write_body_new log d p expected o c fp now :
  represents log d -> pid_ok p -> len log < INT64_MAX -> 0 < now <= INT64_MAX ->
  op_of log (op_key p o) = None ->
  write_body p expected o c fp now d =
  if count p log =? expected
  then Ok (mkWrite (expected + 1) false, appended log (mkCommit p o c fp now) d)
  else Err (ConcurrentWriteError expected (count p log)).
Proof.
  intros H Hp Hlen Hnow Hop. unfold write_body, mutate_body.
  rewrite (rep_ops _ _ H), (rep_revision _ _ p H), Hop.
  destruct (Z.eqb_spec (count p log) expected) as [<-|Hne]; [|done].
  by apply append_statements.
Qed.

(** The statements of a write, against the specification. *)
Lemma write_body_refines log d p expected o c fp now :
  represents log d -> pid_ok p -> opid_ok o -> content_ok c -> content_fp c = Ok fp ->
  no_collision log p o c fp -> len log < INT64_MAX -> 0 < now <= INT64_MAX ->
  match spec_write log p expected o c fp now with
  | (Ok w, log') => exists d', write_body p expected o c fp now d = Ok (w, d') /\ represents log' d'
  | (Err e, log') => write_body p expected o c fp now d = Err e /\ log' = log
  end.
Proof.
  intros H Hp Ho Hc Hfp Hnc Hlen Hnow.
  pose proof (op_from_find [] log p o (rep_ok _ _ H) Ho) as Hfind. fold (op_of log (op_key p o)) in Hfind.
  unfold spec_write.
  destruct (op_of log (op_key p o)) as [r|] eqn:Hop, (find_op [] log p o) as [[c' rev]|] eqn:Hfo;
    try done.
  - destruct Hfind as (Hr & Hf & x & Hx & Hxp & Hxo & Hxc & Hxf).
    rewrite (write_body_known _ _ _ _ _ _ _ _ _ H Hop).
    destruct (decide (or_fingerprint r = fp)) as [He|Hne].
    + assert (c' = c) as -> by (rewrite <- Hxc; apply Hnc; congruence).
      rewrite !bool_decide_eq_true_2 by done. exists d. by rewrite Hr.
    + rewrite bool_decide_eq_false_2 by (intros ->; congruence).
      by rewrite bool_decide_eq_false_2 by done.
  - rewrite (write_body_new log) by done. destruct (Z.eqb_spec (count p log) expected) as [<-|]; [|done].
    eexists. split; [done|]. apply represents_appended; try done.
    unfold commit_ok. simpl. destruct Hnow. tauto.
Qed.

(** * Collisions of fingerprints are collisions of SHA-256 *)

Definition content_chars (c : content) : Prop :=
  match c with Some (m, _) => str_ok m | None => True end.

Lemma live_input m b i :
  str_ok m -> fingerprint_input false (Some m) (Some b) = Ok i ->
  exists em, i = lit "upsert" ++ be_pack 4 (len em) ++ em ++ b /\ utf8_decode em = Some m
             /\ len em < 2 ^ 32.
Proof.
  intros Hm. simpl. intros H. inv_run. eexists. split; [done|].
  split; [by eapply utf8_decode_encode|done].
Qed.

Lemma fingerprint_input_inj c c' i :
  content_chars c -> content_chars c' ->
  fingerprint_input (deleted_of c) (manifest_of c) (payload_of c) = Ok i ->
  fingerprint_input (deleted_of c') (manifest_of c') (payload_of c') = Ok i -> c = c'.
Proof.
  destruct c as [[m b]|], c' as [[m' b']|]; intros Hc Hc' H H'; [| | |done].
  - apply live_input in H as (em & -> & Hd & Hl); [|done].
    apply live_input in H' as (em' & He & Hd' & Hl'); [|done].
    apply app_inj_1 in He as [_ He]; [|done].
    apply app_inj_1 in He as [Hn He]; [|by rewrite !length_be_pack].
    apply (f_equal be_unpack) in Hn.
    rewrite !be_unpack_pack_small in Hn
      by (change (256 ^ Z.of_nat 4) with (2 ^ 32); unfold len in *; lia).
    apply app_inj_1 in He as [<- Hb]; [|unfold len in Hn; lia]. simpl in Hb, Hd, Hd'. subst. rewrite Hd in Hd'. congruence.
  - apply live_input in H as (em & -> & _); [|done]. done.
  - apply live_input in H' as (em & -> & _); [|done]. done.
Qed.

(** Two contents with one fingerprint are equal, or their inputs collide. *)
Lemma fingerprint_collision c c' fp :
  content_chars c -> content_chars c' -> content_fp c = Ok fp -> content_fp c' = Ok fp ->
  c = c' \/ exists i i', i <> i' /\ sha256 i = sha256 i' /\
    fingerprint_input (deleted_of c) (manifest_of c) (payload_of c) = Ok i /\
    fingerprint_input (deleted_of c') (manifest_of c') (payload_of c') = Ok i'.
Proof.
  unfold content_fp, fingerprint. intros Hc Hc' H H'.
  apply bind_ok in H as (i & Hi & [= Hf]). apply bind_ok in H' as (i' & Hi' & [= Hf']).
  destruct (decide (i = i')) as [<-|Hne]; [left; by eapply fingerprint_input_inj|].
  right. exists i, i'. split; [done|]. split; [congruence|done].
Qed.
