(* ===== verification/StoreReads.v ===== *)
(** The reads of the store against the log: recovery ([load]) and the change feed
    ([changes], [_read_changes]), with its paging. *)

From stdpp Require Import base list numbers strings gmap sorting.
From S2P Require Import Prelude Bytes PyStr Sha256 Persistence SqliteStore StoreLog StoreRefine.

(** Every content of the log fits the configured bound. *)
Definition sizes_ok (max_state_bytes : Z) (log : list commit) : Prop :=
  Forall (fun c => retained (manifest_of (c_content c)) (payload_of (c_content c)) <= max_state_bytes) log.

(** * Recovery *)

Lemma record_check_ok p rev o (c : content) :
  content_ok c -> 0 < rev ->
  DurableStateRecord_check (mkRecord p rev o (manifest_of c) (payload_of c) (deleted_of c)) = Ok tt.
Proof.
  intros Hc Hr. unfold DurableStateRecord_check. cbn [rec_revision rec_deleted rec_manifest rec_payload].
  rewrite (proj2 (Z.ltb_lt 0 rev)) by done. destruct c as [[m b]|]; simpl; [|done].
  destruct Hc as [Hne Hnul]. by rewrite !bool_decide_eq_false_2.
Qed.

Lemma load_refines cap log d p :
  represents log d -> sizes_ok cap log -> load cap true p d = Ok (spec_load log p).
Proof.
  intros H Hsz. unfold load. simpl. rewrite (rep_state _ _ H).
  unfold state_of, spec_load. cbv zeta. rewrite pid_eta.
  destruct (latest p log) as [c|] eqn:Hl; [|done].
  cbn [fmap option_fmap option_map sr_manifest sr_payload sr_deleted sr_revision sr_op].
  pose proof (latest_In _ _ _ Hl) as [Hin _].
  rewrite (proj2 (Z.leb_le _ _)) by (by apply (proj1 (Forall_forall _ _) Hsz)).
  destruct (proj1 (Forall_forall _ _) (rep_ok _ _ H) _ Hin) as (_ & Ho & Hc & _).
  rewrite opid_parse_str by done. cbn [raise_unless mbind result_bind].
  rewrite record_check_ok; [done|done|]. by apply latest_count.
Qed.

(** * Rows and changes *)

Definition converts (r : change_row) (c : DurableStateChange) : Prop :=
  change_from_row r = Ok c /\ cr_offset r = ch_offset c /\ cr_slice r = ch_slice c
  /\ cr_type r = entity_type (rec_id (ch_record c)).

Lemma commit_converts pre c :
  commit_ok c -> converts (commit_row pre c) (commit_change pre c).
Proof.
  intros (Hp & Ho & Hc & Ha & _). split; [|done].
  destruct (persistence_slice_total _ Hp) as [z Hz]. pose proof (persistence_slice_range _ _ Hz).
  pose proof (count_bounds (c_id c) pre). pose proof (len_nonneg pre).
  unfold change_from_row, commit_change, row_change, commit_row.
  cbn [cr_type cr_id cr_op cr_offset cr_revision cr_manifest cr_payload cr_deleted cr_slice cr_committed_at].
  unfold pid_ok in Hp. destruct (c_id c) as [t i] eqn:Hid. cbn [entity_type entity_id] in *.
  rewrite Hp, opid_parse_str by done. cbn [mbind result_bind].
  unfold DurableStateChange_check. cbn [ch_offset ch_slice ch_committed_at ch_record].
  unfold slice_of. rewrite Hz. unfold PERSISTENCE_SLICE_COUNT in *.
  rewrite (proj2 (Z.ltb_lt 0 (len pre + 1))), (proj2 (Z.leb_le 0 z)), (proj2 (Z.ltb_lt z 1024)),
    (proj2 (Z.ltb_lt 0 (c_at c))) by lia. simpl.
  rewrite record_check_ok; [done|done|lia].
Qed.

Lemma rows_convert pre log :
  Forall commit_ok log -> Forall2 converts (rows_from pre log) (changes_from pre log).
Proof.
  intros Hl. revert pre. induction Hl as [|c l Hc _ IH]; intros pre; simpl; constructor; [|done].
  by apply commit_converts.
Qed.

Lemma change_rows_converts rows cs : Forall2 converts rows cs -> change_rows rows = Ok cs.
Proof.
  induction 1 as [|r c rows cs (Hr & _) _ IH]; simpl; [done|]. rewrite Hr. simpl. by rewrite IH.
Qed.

Lemma selected_feed etype lo hi after through log :
  Forall commit_ok log ->
  Forall2 converts (filter (change_selected etype lo hi after through) (log_rows log))
                   (feed etype lo hi after through log).
Proof.
  intros Hl. apply Forall2_filter; [|by apply rows_convert].
  intros r c (_ & Ho & Hs & Ht). unfold change_selected, matches. by rewrite Ho, Hs, Ht.
Qed.

(** * The order of the feed *)

Definition row_before (r r' : change_row) : Prop := cr_offset r < cr_offset r'.

Lemma rows_from_lower pre log : Forall (fun r => len pre < cr_offset r) (rows_from pre log).
Proof.
  revert pre. induction log as [|c log IH]; intros pre; simpl; constructor; [simpl; lia|].
  eapply Forall_impl; [apply IH|]. intros r. rewrite len_app, len_singleton. lia.
Qed.

Lemma rows_from_sorted pre log : StronglySorted row_before (rows_from pre log).
Proof.
  revert pre. induction log as [|c log IH]; intros pre; simpl; constructor; [apply IH|].
  eapply Forall_impl; [apply rows_from_lower|]. intros r. unfold row_before. simpl.
  rewrite len_app, len_singleton. lia.
Qed.

Lemma StronglySorted_filter {A} (R : relation A) (P : A -> Prop) `{!forall x, Decision (P x)} l :
  StronglySorted R l -> StronglySorted R (filter P l).
Proof.
  induction 1 as [|x l Hl IH Hx]; [constructor|]. destruct (decide (P x)).
  - rewrite filter_cons_True by done. constructor; [done|].
    apply Forall_forall. intros y [_ Hy]%list_elem_of_filter. by apply (proj1 (Forall_forall _ _) Hx).
  - by rewrite filter_cons_False.
Qed.

Lemma StronglySorted_cross {A} (R : relation A) l l' x y :
  StronglySorted R (l ++ l') -> x ∈ l -> y ∈ l' -> R x y.
Proof.
  induction l as [|z l IH]; simpl; intros Hs Hx Hy; [by apply not_elem_of_nil in Hx|].
  inversion Hs as [|? ? Hl Hz]; subst. apply elem_of_cons in Hx as [->|Hx]; [|by apply IH].
  apply (proj1 (Forall_forall _ _) Hz). apply elem_of_app. by right.
Qed.

(** The rows up to the last of a prefix are that prefix. *)
Lemma prefix_through pre suf r etype lo hi after through log :
  filter (change_selected etype lo hi after through) (log_rows log) = pre ++ suf ->
  last pre = Some r ->
  filter (change_selected etype lo hi after (cr_offset r)) (log_rows log) = pre
  /\ after < cr_offset r <= through.
Proof.
  intros Hf Hr.
  assert (Hin : r ∈ pre) by (by apply last_Some_elem_of).
  assert (Hsel : change_selected etype lo hi after through r).
  { assert (r ∈ pre ++ suf) as Hx by (apply elem_of_app; by left).
    rewrite <- Hf in Hx. by apply list_elem_of_filter in Hx as [? _]. }
  destruct Hsel as (Ht & Hs & Ho). split; [|done].
  assert (Hss : StronglySorted row_before (pre ++ suf)).
  { rewrite <- Hf. apply StronglySorted_filter, rows_from_sorted. }
  assert (Hsplit : filter (fun x => cr_offset x <= cr_offset r) (pre ++ suf) = pre).
  { rewrite filter_app, filter_Forall_id, filter_Forall_nil, app_nil_r; [done| |].
    - apply Forall_forall. intros y Hy. pose proof (StronglySorted_cross _ _ _ _ _ Hss Hin Hy).
      unfold row_before in *. lia.
    - apply Forall_forall. intros y Hy. apply last_Some in Hr as [l' ->].
      apply elem_of_app in Hy as [Hy|Hy]; [|apply list_elem_of_singleton in Hy; subst; lia].
      rewrite <- app_assoc in Hss.
      assert (r ∈ [r] ++ suf) as Hr' by (by left).
      pose proof (StronglySorted_cross _ _ _ _ _ Hss Hy Hr'). unfold row_before in *. lia. }
  rewrite <- Hsplit, <- Hf, list_filter_filter.
  apply list_filter_iff. intros x. unfold change_selected. split.
  - intros (? & ? & ?). repeat split; try done; lia.
  - intros (? & ? & ? & ?). repeat split; try done; lia.
Qed.

(** The retained rows past [after] are those of the log. *)
Lemma retained_rows log d etype lo hi after through :
  represents log d -> compacted_through d <= after ->
  filter (change_selected etype lo hi after through) (durable_change d)
  = filter (change_selected etype lo hi after through) (log_rows log).
Proof.
  intros H Ha. rewrite (rep_changes _ _ H).
  rewrite <- (take_drop (Z.to_nat (compacted_through d)) (log_rows log)) at 2.
  rewrite filter_app, (filter_Forall_nil _ (take _ _)); [done|].
  apply Forall_forall. intros r [i Hi]%list_elem_of_lookup (_ & _ & Ho & _).
  apply lookup_take_Some in Hi as [Hi Hlt]. apply log_rows_offset in Hi.
  pose proof (rep_compacted _ _ H). lia.
Qed.

(** * Paging *)

Definition row_bytes (r : change_row) : Z := retained (cr_manifest r) (cr_payload r).
Definition rows_bytes (rs : list change_row) : Z := foldr (fun r n => row_bytes r + n) 0 rs.

Lemma rows_bytes_app rs rs' : rows_bytes (rs ++ rs') = rows_bytes rs + rows_bytes rs'.
Proof. unfold rows_bytes. induction rs as [|r rs IH]; simpl; [done|]. rewrite IH. lia. Qed.

Section Paging.
Variables (cap limit max_bytes : Z).
Hypothesis Hlimit : 1 <= limit.
Hypothesis Hmax : cap <= max_bytes.

(** The loop returns a prefix of the cursor, the whole of it when it reports
    exhaustion, within the byte and row limits. *)
Lemma read_loop_spec cursor taken :
  Forall (fun r => row_bytes r <= cap) cursor ->
  (taken <> [] -> rows_bytes (reverse taken) <= max_bytes) -> len taken <= limit ->
  exists rows exhausted suf,
    read_loop cap limit max_bytes cursor taken (rows_bytes (reverse taken)) = Ok (reverse taken ++ rows, exhausted)
    /\ cursor = rows ++ suf /\ (exhausted = true -> suf = [] /\ len (taken ++ rows) < limit)
    /\ (exhausted = false -> reverse taken ++ rows <> [])
    /\ len (taken ++ rows) <= limit
    /\ (reverse taken ++ rows <> [] -> rows_bytes (reverse taken ++ rows) <= max_bytes).
Proof.
  revert taken. induction cursor as [|r cursor IH]; intros taken Hc Hb Hl; simpl.
  - destruct (Z.ltb_spec (len taken) limit) as [Hlt|Hge].
    + exists [], true, []. rewrite !app_nil_r. repeat split; try done.
      intros Hne. apply Hb. intros ->. done.
    + exists [], false, []. rewrite !app_nil_r. repeat split; try done.
      * intros _ Hn. apply (f_equal length) in Hn. rewrite length_reverse in Hn.
        unfold len in *. simpl in *. lia.
      * intros Hne. apply Hb. intros ->. done.
  - destruct (Z.ltb_spec (len taken) limit) as [Hlt|Hge].
    + inversion Hc as [|? ? Hr Hc']; subst. fold (row_bytes r).
      rewrite (proj2 (Z.ltb_ge cap _)) by lia.
      destruct (negb (bool_decide (taken = [])) && (max_bytes <? rows_bytes (reverse taken) + row_bytes r)) eqn:Hstop.
      * inv_run. exists [], false, (r :: cursor). rewrite !app_nil_r. repeat split; try done; try lia.
        -- intros _ Hn. apply (f_equal reverse) in Hn. rewrite reverse_involutive in Hn. done.
        -- intros _. by apply Hb.
      * assert (Hrb : rows_bytes (reverse (r :: taken)) = rows_bytes (reverse taken) + row_bytes r).
        { rewrite reverse_cons, rows_bytes_app. unfold rows_bytes at 2. simpl. lia. }
        rewrite <- Hrb.
        destruct (IH (r :: taken) Hc') as (rows & ex & suf & He & Hcur & Hex & Hnex & Hlen & Hbytes).
        { intros _. rewrite Hrb. apply andb_false_iff in Hstop as [Hs|Hs].
          - apply negb_false_iff, bool_decide_eq_true in Hs. subst. simpl. lia.
          - apply Z.ltb_ge in Hs. lia. }
        { unfold len in *. simpl. lia. }
        assert (Hrv : reverse (r :: taken) ++ rows = reverse taken ++ r :: rows)
          by (rewrite reverse_cons, <- app_assoc; done).
        rewrite Hrv in He, Hnex, Hbytes. exists (r :: rows), ex, suf.
        split; [done|]. split; [by rewrite Hcur|].
        assert (Hll : len (taken ++ r :: rows) = len (r :: taken ++ rows))
          by (unfold len; simpl; rewrite !length_app; simpl; lia).
        rewrite Hll. split; [done|]. split; [done|]. split; done.
    + exists [], false, (r :: cursor). rewrite !app_nil_r. repeat split; try done.
      * intros _ Hn. apply (f_equal length) in Hn. rewrite length_reverse in Hn.
        unfold len in *. simpl in *. lia.
      * intros Hne. apply Hb. intros ->. done.
Qed.
End Paging.

Lemma Forall2_prefix {A B} (R : A -> B -> Prop) xs xs' ys :
  Forall2 R (xs ++ xs') ys -> exists zs zs', ys = zs ++ zs' /\ Forall2 R xs zs.
Proof. intros (zs & zs' & H & _ & ->)%Forall2_app_inv_l. by exists zs, zs'. Qed.

(** A page of the feed: exactly the matching changes up to the offset it returns. *)
Lemma changes_query_spec cap log d etype lo hi after limit max_bytes scan_limit :
  represents log d -> sizes_ok cap log -> cap <= max_bytes -> 1 <= limit -> 1 <= scan_limit ->
  compacted_through d <= after <= INT64_MAX ->
  exists b,
    changes_query cap true etype lo hi after limit max_bytes scan_limit d = Ok b
    /\ batch_changes b = feed etype lo hi after (batch_offset b) log
    /\ (after < len log -> after < batch_offset b <= len log)
    /\ (len log <= after -> batch_offset b = after)
    /\ len (batch_changes b) <= limit.
Proof.
  intros H Hsz Hmax Hlim Hscan Ha. pose proof (rep_compacted _ _ H) as Hc0.
  unfold changes_query, read_changes. simpl.
  rewrite (proj2 (Z.ltb_ge after _)), bind_int_ok by lia. cbn [mbind result_bind].
  set (through := Z.min (high_watermark d) (after + scan_limit)).
  rewrite (retained_rows log d) by (done || lia).
  set (sel := filter _ (log_rows log)).
  assert (Hthrough : through = Z.min (len log) (after + scan_limit))
    by (unfold through; by rewrite (rep_watermark _ _ H)).
  destruct (read_loop_spec cap limit max_bytes Hlim Hmax (take (Z.to_nat limit) sel) [])
    as (rows & ex & suf & He & Hcur & Hex & Hnex & Hlen & _).
  { apply Forall_take, Forall_forall. intros r [_ Hr]%list_elem_of_filter.
    apply list_elem_of_lookup in Hr as [i Hi]. apply log_rows_lookup in Hi as (c & Hi & ->).
    apply (proj1 (Forall_forall _ _) Hsz). by apply list_elem_of_lookup_2 with i. }
  { done. }
  { unfold len. simpl. lia. }
  change (rows_bytes (reverse [])) with 0 in He. rewrite reverse_nil in He, Hnex. simpl in He, Hnex, Hlen, Hex.
  rewrite He. cbn [mbind result_bind].
  assert (Hsel : sel = rows ++ (suf ++ drop (Z.to_nat limit) sel))
    by (rewrite app_assoc, <- Hcur; by rewrite take_drop).
  pose proof (selected_feed etype lo hi after through log (rep_ok _ _ H)) as Hfeed.
  fold sel in Hfeed.
  destruct ex.
  - destruct (Hex eq_refl) as [-> Hlt]. rewrite app_nil_r in Hcur.
    assert (Hall : sel = rows).
    { rewrite <- Hcur. symmetry. apply take_ge. apply (f_equal length) in Hcur.
      rewrite length_take in Hcur. unfold len in Hlt. lia. }
    rewrite Hall in Hfeed. rewrite (change_rows_converts _ _ Hfeed). cbn [mbind result_bind].
    assert (Hle : Z.max after through = if after <? len log then through else after)
      by (destruct (Z.ltb_spec after (len log)); lia).
    exists (mkBatch (feed etype lo hi after through log) (Z.max after through)).
    assert (Hsame : feed etype lo hi after through log = feed etype lo hi after (Z.max after through) log).
    { apply list_filter_iff. intros c. unfold matches. split; intros (? & ? & ?); repeat split; try done; lia. }
    split; [|split_and!].
    + unfold DurableStateChangeBatch_check. cbn [batch_offset batch_changes].
      rewrite (proj2 (Z.leb_le 0 _)) by lia. simpl.
      destruct (last _) as [c|] eqn:Hl; [|done].
      apply last_Some_elem_of in Hl. unfold feed in Hl. apply list_elem_of_filter in Hl as [(_ & _ & Ho) _].
      rewrite (proj2 (Z.leb_le _ _)) by lia. done.
    + done.
    + simpl. intros Hl. lia.
    + simpl. intros Hl. lia.
    + apply Forall2_length in Hfeed. cbn [batch_changes]. clear -Hfeed Hlen. unfold len in *. lia.
  - specialize (Hnex eq_refl). destruct (last rows) as [r|] eqn:Hr; [|by apply last_None in Hr].
    destruct (prefix_through _ _ _ _ _ _ _ _ _ Hsel Hr) as [Hpre Ho].
    pose proof (selected_feed etype lo hi after (cr_offset r) log (rep_ok _ _ H)) as Hf.
    rewrite Hpre in Hf. rewrite (change_rows_converts _ _ Hf). cbn [mbind result_bind].
    assert (exists c, last (feed etype lo hi after (cr_offset r) log) = Some c /\ ch_offset c = cr_offset r)
      as (c & Hc & Hoc).
    { apply last_Some in Hr as [l' ->]. apply Forall2_app_inv_l in Hf as (zs & zs' & _ & Hz & ->).
      inversion Hz as [|? c ? ? Hrc Hnil]; subst. inversion Hnil; subst.
      exists c. split; [apply last_snoc|]. by destruct Hrc as (_ & -> & _). }
    rewrite Hc. cbn [mbind result_bind].
    exists (mkBatch (feed etype lo hi after (cr_offset r) log) (ch_offset c)). rewrite Hoc.
    split; [|split_and!]; cbn [batch_offset batch_changes].
    + unfold DurableStateChangeBatch_check. cbn [batch_offset batch_changes].
      rewrite (proj2 (Z.leb_le 0 _)) by lia. simpl. rewrite Hc, Hoc, Z.leb_refl. done.
    + done.
    + lia.
    + lia.
    + apply Forall2_length in Hf. clear -Hf Hlen. unfold len in *. lia.
Qed.
