(* ===== verification/StoreSteps.v ===== *)
(** The store as a transition system: every operation, in any order and with any
    failure of the clock, the lock or SQLite, preserves the log. *)

From stdpp Require Import base list numbers strings gmap sorting.
From S2P Require Import Prelude Bytes PyStr Sha256 Persistence SqliteStore StoreLog StoreRefine StoreReads.

(** * Transactions *)

(** A transaction either ran its body to the end and committed, possibly without
    knowing it, or changed nothing. *)
Lemma run_transaction_inv {D A} env (body : SE D A) d r d' :
  run_transaction env body d = (r, d') ->
  (exists a, (r = Ok a \/ is_err r) /\ body d = Ok (a, d')) \/ (is_err r /\ d' = d).
Proof.
  unfold run_transaction. repeat case_match; intros [= <- <-]; subst;
    first [by right | left; eexists; split; [by left|done] | left; eexists; split; [by right|done]].
Qed.

Lemma run_transaction_ok {D A} (body : SE D A) d :
  run_transaction ok_env body d =
  match body d with Ok (a, d') => (Ok a, d') | Err e => (Err (rollback_error e), d) end.
Proof. done. Qed.

(** * Compaction *)

Lemma foldr_min_spec x xs :
  foldr Z.min x xs ∈ x :: xs /\ Forall (fun y => foldr Z.min x xs <= y) (x :: xs).
Proof.
  induction xs as [|y xs [IHin IHle]]; simpl; [split; [by left|by constructor]|].
  apply Forall_cons in IHle as [Hx Hxs].
  split; [|constructor; [lia|constructor; [lia|]]].
  - destruct (Z.min_spec y (foldr Z.min x xs)) as [[_ ->]|[_ ->]]; [by right; left|].
    apply elem_of_cons in IHin as [->|Hin]; [by left|by right; right].
  - eapply Forall_impl; [exact Hxs|]. simpl. lia.
Qed.

Lemma min_projection_spec d m :
  min_projection_offset d = Some m ->
  (exists k r, projection_offset d !! k = Some r /\ pr_offset r = m) /\
  map_Forall (fun _ r => m <= pr_offset r) (projection_offset d).
Proof.
  unfold min_projection_offset. set (xs := _ <$> map_to_list _).
  destruct xs as [|x xs'] eqn:Hxs; [done|]. intros [= <-].
  destruct (foldr_min_spec x xs') as [Hin Hle]. rewrite <- Hxs in Hin, Hle. split.
  - apply list_elem_of_fmap in Hin as ([k r] & -> & Hin). exists k, r.
    by apply elem_of_map_to_list in Hin.
  - intros k r Hk. apply elem_of_map_to_list in Hk.
    apply (proj1 (Forall_forall _ _) Hle). apply list_elem_of_fmap. by exists (k, r).
Qed.

Lemma drop_rows_filter log n t :
  0 <= t <= len log -> (n <= Z.to_nat t)%nat ->
  filter (fun r => ~ cr_offset r <= t) (drop n (log_rows log)) = drop (Z.to_nat t) (log_rows log).
Proof.
  intros Ht Hn. rewrite <- (take_drop (Z.to_nat t - n) (drop n (log_rows log))) at 1.
  rewrite drop_drop. replace (n + (Z.to_nat t - n))%nat with (Z.to_nat t) by lia.
  rewrite filter_app, filter_Forall_nil, filter_Forall_id; [done| |].
  - apply Forall_forall. intros r [i Hi]%list_elem_of_lookup. rewrite lookup_drop in Hi.
    apply log_rows_offset in Hi. lia.
  - apply Forall_forall. intros r [i Hi]%list_elem_of_lookup Hnot. apply Hnot.
    apply lookup_take_Some in Hi as [Hi Hlt]. rewrite lookup_drop in Hi.
    apply log_rows_offset in Hi. lia.
Qed.

(** Compaction keeps the log and every registered projection within the feed. *)
Lemma compact_body_spec log d limit :
  represents log d -> projections_ok d ->
  exists n d', compact_body limit d = Ok (n, d') /\ represents log d' /\ projections_ok d'
    /\ projection_offset d' = projection_offset d /\ compacted_through d <= compacted_through d'.
Proof.
  intros H Hp. assert (Hsame : exists n d', Ok (0, d) = Ok (n, d') /\ represents log d' /\
    projections_ok d' /\ projection_offset d' = projection_offset d /\
    compacted_through d <= compacted_through d') by (exists 0, d; split_and!; done || lia).
  unfold compact_body. destruct (min_projection_offset d) as [m|] eqn:Hm; [|done].
  destruct (Z.leb_spec m 0) as [_|Hpos]; [done|].
  destruct (last (take _ _)) as [through|] eqn:Hl; [|done].
  apply last_Some_elem_of in Hl.
  assert (Hin : exists i r, drop (Z.to_nat (compacted_through d)) (log_rows log) !! i = Some r
                            /\ through = cr_offset r /\ cr_offset r <= m).
  { assert (through ∈ cr_offset <$> filter (fun r => cr_offset r <= m) (durable_change d)) as Hx.
    { rewrite <- (take_drop (Z.to_nat limit) (_ <$> _)). apply elem_of_app. by left. }
    apply list_elem_of_fmap in Hx as (r & -> & [Hle Hr]%list_elem_of_filter).
    rewrite (rep_changes _ _ H) in Hr. apply list_elem_of_lookup in Hr as [i Hi]. eauto. }
  destruct Hin as (i & r & Hi & -> & Hrm).
  destruct (min_projection_spec _ _ Hm) as [(k & pr & Hk & Hpm) Hmin].
  pose proof (Hp _ _ Hk) as [Hprange _]. pose proof (rep_compacted _ _ H) as Hc.
  assert (Hoff : cr_offset r = compacted_through d + Z.of_nat i + 1).
  { rewrite lookup_drop in Hi. apply log_rows_offset in Hi. lia. }
  assert (Hlog : cr_offset r <= len log) by (rewrite <- (rep_watermark _ _ H); lia).
  unfold sql_delete_changes, se_bind. cbv zeta beta.
  rewrite (rep_changes _ _ H), drop_rows_filter by lia.
  match goal with |- context [?a =? 0] => destruct (Z.eqb_spec a 0) as [Hz|_] end.
  { exfalso. unfold len in Hz, Hlog. rewrite !length_drop, length_log_rows in Hz. lia. }
  unfold sql_update_compacted, se_bind, se_ret. cbn [high_watermark].
  rewrite (proj2 (Z.leb_le 0 _)), (proj2 (Z.leb_le (cr_offset r) _))
    by (rewrite ?(rep_watermark _ _ H); lia). simpl.
  eexists _, _. split; [done|]. destruct H. split; [split; simpl; try done; lia|].
  cbn [projection_offset compacted_through high_watermark]. split; [|split; [done|lia]].
  intros k' r' Hk'. pose proof (Hp _ _ Hk') as [? ?]. pose proof (Hmin _ _ Hk').
  cbn [compacted_through high_watermark]. simpl in *. split; [lia|done].
Qed.

(** * Projection offsets *)

Definition source_ok (lo hi : Z) : Prop := 0 <= lo <= hi /\ hi < 1024.

Lemma set_projections_rep log d m :
  represents log d ->
  represents log (mkDb (durable_state d) (durable_operation d) (durable_change d)
                       (change_sequence d) m (high_watermark d) (compacted_through d)).
Proof. intros []. by split. Qed.

Lemma insert_projection_inv d k r u d' :
  sql_insert_projection k r d = Ok (u, d') ->
  d' = mkDb (durable_state d) (durable_operation d) (durable_change d) (change_sequence d)
            (<[k := r]> (projection_offset d)) (high_watermark d) (compacted_through d).
Proof.
  unfold sql_insert_projection. intros H.
  apply se_bind_ok in H as (? & ? & H1 & H). apply se_lift_ok in H1 as [_ ->].
  apply se_bind_ok in H as (? & ? & H1 & H). apply se_check_ok in H1 as [_ ->].
  case_bool_decide; [done|]. by injection H.
Qed.

Lemma insert_projection_ok d k r :
  projections_ok d -> compacted_through d <= pr_offset r <= high_watermark d ->
  source_ok (pr_min_slice r) (pr_max_slice r) ->
  projections_ok (mkDb (durable_state d) (durable_operation d) (durable_change d)
    (change_sequence d) (<[k := r]> (projection_offset d)) (high_watermark d) (compacted_through d)).
Proof.
  intros Hp Hr [Hs Hs'] k' r' Hk'. cbn [compacted_through high_watermark projection_offset] in *.
  apply lookup_insert_Some in Hk' as [[_ <-]|[_ Hk']]; [done|exact (Hp _ _ Hk')].
Qed.

(** What a successful registration leaves in the table. *)
Definition registered (d : db) k offset etype lo hi mode : Prop :=
  exists r, projection_offset d !! k = Some r /\ pr_offset r = offset /\ pr_type r = etype
    /\ pr_min_slice r = lo /\ pr_max_slice r = hi /\ pr_mode r = mode.

Lemma register_insert_spec log d k etype lo hi mode offset a d' :
  represents log d -> projections_ok d -> source_ok lo hi ->
  compacted_through d <= offset <= high_watermark d ->
  se_bind (sql_insert_projection k (mkProjRow etype lo hi mode offset))
    (fun _ => se_ret (offset, RegOk)) d = Ok (a, d') ->
  represents log d' /\ projections_ok d' /\ compacted_through d' = compacted_through d
  /\ (a.2 = RegOk -> registered d' k a.1 etype lo hi mode).
Proof.
  intros H Hp Hs Ho Hr. apply se_bind_ok in Hr as (u & d1 & Hi & Hr).
  apply se_ret_ok in Hr as [-> ->]. apply insert_projection_inv in Hi as ->.
  split; [by apply set_projections_rep|]. split; [by apply insert_projection_ok|].
  split; [done|]. intros _. eexists. cbn [projection_offset]. by rewrite lookup_insert_eq.
Qed.

Lemma register_body_spec log d k etype lo hi mode initial a d' :
  represents log d -> projections_ok d -> source_ok lo hi ->
  projection_register_body k etype lo hi mode initial d = Ok (a, d') ->
  represents log d' /\ projections_ok d' /\ compacted_through d' = compacted_through d
  /\ (a.2 = RegOk -> registered d' k a.1 etype lo hi mode).
Proof.
  intros H Hp Hs Hr. unfold projection_register_body in Hr.
  pose proof (rep_compacted _ _ H). pose proof (rep_watermark _ _ H).
  destruct (projection_offset d !! k) as [r|] eqn:Hk.
  - injection Hr as <- <-. split_and!; try done. cbn [fst snd]. case_match eqn:Hm; [|done].
    intros _. inv_run. by exists r.
  - destruct initial as [i|]; case_match eqn:Hm.
    + apply andb_true_iff in Hm as [Hl%Z.leb_le Hh%Z.leb_le].
      by apply (register_insert_spec log d k etype lo hi mode i).
    + by injection Hr as <- <-.
    + by injection Hr as <- <-.
    + apply Z.ltb_ge in Hm. apply (register_insert_spec log d k etype lo hi mode 0); try done. lia.
Qed.

Lemma update_projection_spec log d k expected new n d' :
  represents log d -> projections_ok d -> expected <= new <= high_watermark d ->
  sql_update_projection k expected new d = Ok (n, d') ->
  represents log d' /\ projections_ok d' /\ compacted_through d' = compacted_through d
  /\ ((n = 0 /\ d' = d) \/
      (n = 1 /\ exists r, projection_offset d !! k = Some r /\ pr_offset r = expected
         /\ projection_offset d' = <[k := set_pr_offset r new]> (projection_offset d))).
Proof.
  intros H Hp Hn Hu. unfold sql_update_projection in Hu.
  apply se_bind_ok in Hu as (? & ? & H1 & Hu). apply se_lift_ok in H1 as [_ ->].
  apply se_bind_ok in Hu as (? & ? & H1 & Hu). apply se_lift_ok in H1 as [_ ->].
  destruct (projection_offset d !! k) as [r|] eqn:Hk; [|injection Hu as <- <-; split_and!; try done; by left].
  destruct (Z.eqb_spec (pr_offset r) expected) as [He|]; [|injection Hu as <- <-; split_and!; try done; by left].
  case_match; [|done]. injection Hu as <- <-. pose proof (Hp _ _ Hk) as [Hr Hs].
  split; [by apply set_projections_rep|]. split; [|split; [done|right; eauto]].
  apply insert_projection_ok; [done|simpl; lia|done].
Qed.

Lemma save_body_spec log d k expected new a d' :
  represents log d -> projections_ok d -> expected <= new <= high_watermark d ->
  projection_save_body k expected new d = Ok (a, d') ->
  represents log d' /\ projections_ok d' /\ compacted_through d' = compacted_through d.
Proof.
  intros H Hp Hn Hs. unfold projection_save_body in Hs.
  apply se_bind_ok in Hs as (n & d1 & Hu & Hs).
  apply (update_projection_spec log) in Hu as (Hrep & Hok & Hc & _); try done.
  case_match; unfold se_ret in *; inv_run; done.
Qed.

Lemma retire_body_spec log d k b d' :
  represents log d -> projections_ok d ->
  se_bind (sql_delete_projection k) (fun n => se_ret (n =? 1)) d = Ok (b, d') ->
  represents log d' /\ projections_ok d' /\ compacted_through d' = compacted_through d.
Proof.
  intros H Hp Hd. unfold sql_delete_projection in Hd. inv_run.
  case_match; inv_run; [|done]. split; [by apply set_projections_rep|]. split; [|done].
  intros k' r' Hk'. cbn [compacted_through high_watermark]. simpl in Hk'.
  apply lookup_delete_Some in Hk' as [_ Hk']. exact (Hp _ _ Hk').
Qed.

(** * The transition system *)

Section Steps.
Variable max_state_bytes : Z.
Hypothesis max_state_bytes_pos : 0 < max_state_bytes.

Inductive store_step (d : db) : db -> Prop :=
| step_upsert env p expected o manifest payload now r d' :
    pid_ok p -> opid_ok o -> 0 < now <= INT64_MAX -> high_watermark d < INT64_MAX ->
    upsert max_state_bytes env p expected o manifest payload now d = (r, d') -> store_step d d'
| step_delete env p expected o now r d' :
    pid_ok p -> opid_ok o -> 0 < now <= INT64_MAX -> high_watermark d < INT64_MAX ->
    delete_state env p expected o now d = (r, d') -> store_step d d'
| step_compact env limit r d' : compact_changes env limit d = (r, d') -> store_step d d'
| step_register env k etype lo hi mode initial r d' :
    source_ok lo hi ->
    projection_register env k etype lo hi mode initial d = (r, d') -> store_step d d'
| step_save env k expected new r d' :
    expected <= new <= high_watermark d ->
    projection_save_offset env k expected new d = (r, d') -> store_step d d'
| step_retire env k r d' : delete_projection_offset env k d = (r, d') -> store_step d d'.

Lemma upsert_checks_ok expected m b rb fp :
  upsert_checks max_state_bytes expected m b = Ok (rb, fp) ->
  content_ok (Some (m, b)) /\ content_fp (Some (m, b)) = Ok fp
  /\ retained (Some m) (Some b) <= max_state_bytes.
Proof.
  unfold upsert_checks. intros H. inv_run.
  match goal with He : utf8_encode _ = Ok _ |- _ => apply utf8_encode_bytes in He; subst end.
  unfold content_ok, content_fp, retained. simpl. done.
Qed.

Lemma delete_checks_ok expected fp : delete_checks expected = Ok fp -> content_fp None = Ok fp.
Proof. unfold delete_checks. intros H. inv_run. done. Qed.

(** One transaction of [_mutate] extends the log by at most one commit. *)
Lemma mutate_extends log d env p expected o c fp now r d' :
  represents log d -> projections_ok d -> sizes_ok max_state_bytes log ->
  pid_ok p -> opid_ok o -> content_ok c -> content_fp c = Ok fp ->
  retained (manifest_of c) (payload_of c) <= max_state_bytes ->
  0 < now <= INT64_MAX -> high_watermark d < INT64_MAX ->
  mutate env p expected o (manifest_of c) (payload_of c) fp (deleted_of c) now d = (r, d') ->
  exists ext, represents (log ++ ext) d' /\ projections_ok d' /\ sizes_ok max_state_bytes (log ++ ext).
Proof.
  intros H Hp Hsz Hpid Ho Hc Hfp Hret Hnow Hw Hm.
  assert (Hsame : exists ext, represents (log ++ ext) d /\ projections_ok d /\
    sizes_ok max_state_bytes (log ++ ext)) by (exists []; by rewrite app_nil_r).
  unfold mutate in Hm. apply run_transaction_inv in Hm as [(w & _ & Hb)|[_ ->]]; [|done].
  fold (write_body p expected o c fp now) in Hb.
  rewrite (rep_watermark _ _ H) in Hw.
  destruct (op_of log (op_key p o)) as [row|] eqn:Hop.
  - rewrite (write_body_known _ _ _ _ _ _ _ _ _ H Hop) in Hb. case_bool_decide; by inv_run.
  - rewrite (write_body_new log) in Hb by done. case_match; inv_run.
    exists [mkCommit p o c fp now]. split_and!.
    + apply represents_appended; try done. unfold commit_ok. simpl. destruct Hnow. tauto.
    + intros k row Hk. pose proof (Hp _ _ Hk) as [Hr Hs]. split; [|done]. cbn.
      rewrite (rep_watermark _ _ H) in Hr. lia.
    + apply Forall_app. split; [done|]. by constructor.
Qed.

Lemma store_step_extends log d d' :
  represents log d -> projections_ok d -> sizes_ok max_state_bytes log -> store_step d d' ->
  exists ext, represents (log ++ ext) d' /\ projections_ok d' /\ sizes_ok max_state_bytes (log ++ ext).
Proof.
  intros H Hp Hsz Hstep.
  assert (Hkeep : forall d'', represents log d'' -> projections_ok d'' ->
    exists ext, represents (log ++ ext) d'' /\ projections_ok d'' /\ sizes_ok max_state_bytes (log ++ ext))
    by (intros; exists []; by rewrite app_nil_r).
  inversion Hstep as [env p expected o m b now r ? Hpid Ho Hnow Hw Hu
                     |env p expected o now r ? Hpid Ho Hnow Hw Hu
                     |env limit r ? Hu|env k etype lo hi mode initial r ? Hsrc Hu
                     |env k expected new r ? Hn Hu|env k r ? Hu]; subst.
  - unfold upsert in Hu. destruct (upsert_checks _ _ _ _) as [[rb fp]|] eqn:Hc; [|injection Hu as _ <-; by apply Hkeep].
    apply upsert_checks_ok in Hc as (Hc & Hf & Hr).
    exact (mutate_extends log d env p expected o (Some (m, b)) fp now r d' H Hp Hsz Hpid Ho Hc Hf Hr Hnow Hw Hu).
  - unfold delete_state in Hu. destruct (delete_checks _) as [fp|] eqn:Hc; [|injection Hu as _ <-; by apply Hkeep].
    apply delete_checks_ok in Hc.
    refine (mutate_extends log d env p expected o None fp now r d' H Hp Hsz Hpid Ho I Hc _ Hnow Hw Hu).
    unfold retained. simpl. lia.
  - unfold compact_changes in Hu. destruct (compact_checks limit); [|injection Hu as _ <-; by apply Hkeep].
    apply run_transaction_inv in Hu as [(n & _ & Hb)|[_ ->]]; [|by apply Hkeep].
    destruct (compact_body_spec log d limit H Hp) as (n' & d'' & Hb' & Hrep & Hok & _).
    rewrite Hb in Hb'. injection Hb' as _ <-. by apply Hkeep.
  - apply run_transaction_inv in Hu as [(a & _ & Hb)|[_ ->]]; [|by apply Hkeep].
    apply (register_body_spec log) in Hb as (? & ? & _); try done. by apply Hkeep.
  - apply run_transaction_inv in Hu as [(a & _ & Hb)|[_ ->]]; [|by apply Hkeep].
    apply (save_body_spec log) in Hb as (? & ? & _); try done. by apply Hkeep.
  - apply run_transaction_inv in Hu as [(a & _ & Hb)|[_ ->]]; [|by apply Hkeep].
    apply (retire_body_spec log) in Hb as (? & ? & _); try done. by apply Hkeep.
Qed.
End Steps.
