(* ===== verification/StoreSpec.v ===== *)
(** Theorems on the durable-state store. *)

From stdpp Require Import base list numbers strings gmap.
From S2P Require Import Prelude Bytes PyStr Sha256 Persistence SqliteStore StoreLog StoreRefine StoreReads StoreSteps.

(** [upsert] of a live content, [delete] for a tombstone. *)
Definition write (cap : Z) env p expected o (c : content) now (d : db) : result WriteResult * db :=
  match c with
  | Some (m, b) => upsert cap env p expected o m b now d
  | None => delete_state env p expected o now d
  end.

(** The content passes the checks made before the operation is submitted. *)
Definition accepted (cap expected : Z) (c : content) (fp : bytes) : Prop :=
  match c with
  | Some (m, b) => exists n, upsert_checks cap expected m b = Ok (n, fp)
  | None => delete_checks expected = Ok fp
  end.

Lemma write_accepted cap env p expected o c fp now d :
  accepted cap expected c fp ->
  write cap env p expected o c now d = run_transaction env (write_body p expected o c fp now) d.
Proof.
  unfold write, accepted. destruct c as [[m b]|].
  - intros [n Hn]. unfold upsert. by rewrite Hn.
  - intros Hf. unfold delete_state. by rewrite Hf.
Qed.

Lemma accepted_ok cap expected c fp : accepted cap expected c fp -> content_ok c /\ content_fp c = Ok fp.
Proof.
  unfold accepted. destruct c as [[m b]|].
  - intros [n (Hc & Hf & _)%upsert_checks_ok]. done.
  - intros Hf. split; [done|]. by eapply delete_checks_ok.
Qed.

Lemma accepted_fits cap expected c fp :
  0 < cap -> accepted cap expected c fp -> retained (manifest_of c) (payload_of c) <= cap.
Proof.
  intros Hcap. unfold accepted. destruct c as [[m b]|].
  - by intros [n (_ & _ & Hr)%upsert_checks_ok].
  - intros _. unfold retained. simpl. lia.
Qed.

(** A committed write extends the log by its commit. *)
Lemma write_committed cap env p expected o c fp now log d rev d' :
  represents log d -> projections_ok d -> pid_ok p -> opid_ok o ->
  len log < INT64_MAX -> 0 < now <= INT64_MAX -> accepted cap expected c fp ->
  write cap env p expected o c now d = (Ok (mkWrite rev false), d') ->
  let log' := log ++ [mkCommit p o c fp now] in
  represents log' d' /\ projections_ok d' /\ op_of log' (op_key p o) = Some (mkOpRow fp rev)
  /\ rev = count p log + 1.
Proof.
  intros H Hp Hpid Ho Hlen Hnow Hacc Hw. cbv zeta.
  rewrite (write_accepted _ _ _ _ _ _ _ _ _ Hacc) in Hw. apply accepted_ok in Hacc as [Hc Hfp].
  apply run_transaction_inv in Hw as [(w & [[= <-]|Hr] & Hb)|[Hr _]]; [|done..].
  destruct (op_of log (op_key p o)) as [r|] eqn:Hop.
  { rewrite (write_body_known _ _ _ _ _ _ _ _ _ H Hop) in Hb. by case_bool_decide. }
  rewrite (write_body_new log) in Hb by done.
  destruct (Z.eqb_spec (count p log) expected) as [<-|]; [|done]. injection Hb as <- <-.
  split; [|split; [|split; [|done]]].
  - apply represents_appended; try done. unfold commit_ok. simpl. destruct Hnow. tauto.
  - intros k r Hk. pose proof (Hp _ _ Hk) as [Hr Hs]. split; [|done]. cbn.
    rewrite (rep_watermark _ _ H) in Hr. lia.
  - rewrite op_of_snoc, Hop. by rewrite bool_decide_eq_true_2.
Qed.

(** The log only grows along the operations of the store. *)
Lemma store_steps_extend cap log d d' :
  0 < cap -> represents log d -> projections_ok d -> sizes_ok cap log ->
  rtc (store_step cap) d d' ->
  exists ext, represents (log ++ ext) d' /\ projections_ok d' /\ sizes_ok cap (log ++ ext).
Proof.
  intros Hcap H Hp Hs Hsteps. revert log H Hp Hs.
  induction Hsteps as [d|d d1 d' Hstep _ IH]; intros log H Hp Hs; [exists []; by rewrite app_nil_r|].
  destruct (store_step_extends cap Hcap log d d1 H Hp Hs Hstep) as (ext & H1 & Hp1 & Hs1).
  destruct (IH _ H1 Hp1 Hs1) as (ext' & H2 & Hp2 & Hs2). exists (ext ++ ext'). by rewrite app_assoc.
Qed.

Lemma represents_compatible log d : represents log d -> feed_compatible d = true.
Proof.
  intros H. unfold feed_compatible.
  rewrite (rep_sequence _ _ H), (rep_watermark _ _ H), Z.eqb_refl. simpl.
  apply bool_decide_eq_true. by rewrite (rep_max_offset _ _ H).
Qed.

Lemma projections_ok_empty : projections_ok empty_db.
Proof. apply map_Forall_empty. Qed.

(** C6.  A write refines the log: for every database that represents a log, an
    accepted [upsert] or [delete] whose transaction meets no fault answers what the
    specification answers (the original revision for a repeated operation, before any
    comparison of revisions; a conflict when the operation was used for other content; a
    concurrent-write error with both revisions; the next revision otherwise) and leaves
    a database that represents the specification's log. *)
Theorem store_write_refines_log cap log d p expected o c fp now :
  represents log d -> pid_ok p -> opid_ok o -> len log < INT64_MAX -> 0 < now <= INT64_MAX ->
  accepted cap expected c fp -> no_collision log p o c fp ->
  let '(r, d') := write cap ok_env p expected o c now d in
  let '(r', log') := spec_write log p expected o c fp now in
  r = r' /\ represents log' d'.
Proof.
  intros H Hp Ho Hlen Hnow Hacc Hnc. rewrite (write_accepted _ _ _ _ _ _ _ _ _ Hacc).
  apply accepted_ok in Hacc as [Hc Hfp].
  pose proof (write_body_refines log d p expected o c fp now H Hp Ho Hc Hfp Hnc Hlen Hnow) as Href.
  rewrite run_transaction_ok. destruct (spec_write log p expected o c fp now) as [[w|e] log'] eqn:Hs.
  - by destruct Href as (d' & -> & Hrep).
  - destruct Href as [-> ->]. split; [|done].
    unfold spec_write in Hs. repeat case_match; by inversion Hs.
Qed.

(** C30.  Every database the store's operations can produce from an empty one, in
    any order and with any failures, represents a log, keeps every registered projection
    inside the retained change feed, and passes the consistency check that the next
    startup makes of the feed. *)
Theorem store_reachable_consistent cap d :
  0 < cap -> rtc (store_step cap) empty_db d ->
  (exists log, represents log d) /\ projections_ok d /\ feed_compatible d = true.
Proof.
  intros Hcap Hr.
  destruct (store_steps_extend cap [] empty_db d) as (log & H & Hp & _);
    [done|apply represents_empty|apply projections_ok_empty|constructor|done|].
  split; [by exists ([] ++ log)|]. split; [done|]. by eapply represents_compatible.
Qed.

(** C18.  Retries are idempotent: once an operation committed with some revision,
    repeating it after any further operations and failures, whatever revision the caller
    now expects, reports a duplicate with the original revision and leaves the database
    as it is. *)
Theorem store_retry_idempotent cap env log d p expected o c fp now rev d1 d2 expected' now' :
  0 < cap -> represents log d -> projections_ok d -> sizes_ok cap log -> pid_ok p -> opid_ok o ->
  len log < INT64_MAX -> 0 < now <= INT64_MAX ->
  accepted cap expected c fp -> accepted cap expected' c fp ->
  write cap env p expected o c now d = (Ok (mkWrite rev false), d1) ->
  rtc (store_step cap) d1 d2 ->
  write cap ok_env p expected' o c now' d2 = (Ok (mkWrite rev true), d2).
Proof.
  intros Hcap H Hp Hsz Hpid Ho Hlen Hnow Hacc Hacc' Hw Hsteps.
  pose proof (accepted_fits _ _ _ _ Hcap Hacc) as Hfits.
  apply (write_committed cap env p expected o c fp now log) in Hw as (H1 & Hp1 & Hop & _); try done.
  destruct (store_steps_extend cap _ d1 d2 Hcap H1 Hp1) as (ext & H2 & _); [|done|].
  { apply Forall_app. split; [done|]. by constructor. }
  rewrite (write_accepted _ _ _ _ _ _ _ _ _ Hacc'), run_transaction_ok.
  rewrite (write_body_known _ _ _ _ _ _ _ _ _ H2 (op_of_mono _ ext _ _ Hop)).
  by rewrite bool_decide_eq_true_2.
Qed.

(** Write and read round trip: after a committed write, recovery of the entity
    returns the content, operation and revision that were written, and recovery of any
    other entity returns what it returned before. *)
Theorem store_write_load cap env log d p expected o c fp now rev d' :
  0 < cap -> represents log d -> projections_ok d -> sizes_ok cap log -> pid_ok p -> opid_ok o ->
  len log < INT64_MAX -> 0 < now <= INT64_MAX -> accepted cap expected c fp ->
  write cap env p expected o c now d = (Ok (mkWrite rev false), d') ->
  load cap true p d' = Ok (Some (mkRecord p rev o (manifest_of c) (payload_of c) (deleted_of c)))
  /\ forall p', p' <> p -> load cap true p' d' = load cap true p' d.
Proof.
  intros Hcap H Hp Hsz Hpid Ho Hlen Hnow Hacc Hw.
  pose proof (accepted_fits _ _ _ _ Hcap Hacc) as Hfits.
  apply (write_committed cap env p expected o c fp now log) in Hw as (H1 & Hp1 & _ & ->); try done.
  assert (Hsz' : sizes_ok cap (log ++ [mkCommit p o c fp now]))
    by (apply Forall_app; split; [done|by constructor]).
  split.
  - rewrite (load_refines cap _ _ _ H1 Hsz'). unfold spec_load.
    by rewrite latest_snoc, count_snoc, bool_decide_eq_true_2 by done.
  - intros p' Hne. rewrite (load_refines cap _ _ _ H1 Hsz'), (load_refines cap _ _ _ H Hsz).
    unfold spec_load. rewrite latest_snoc, count_snoc.
    rewrite !bool_decide_eq_false_2 by (simpl; congruence). by rewrite Z.add_0_r.
Qed.

(** C31.  A page of the change feed is exact: for accepted parameters the query
    returns, in order, exactly the changes of the log that match and lie between the
    requested offset and the offset it returns, never more than the limit; that offset
    moves forward whenever the log reaches past the requested one and never past the
    log. *)
Theorem changes_page_exact cap log d etype lo hi after limit max_bytes scan_limit n :
  represents log d -> sizes_ok cap log -> compacted_through d <= after <= INT64_MAX ->
  changes_checks cap etype lo hi after limit max_bytes scan_limit = Ok n ->
  exists b,
    changes cap true etype lo hi after limit max_bytes scan_limit d = Ok b
    /\ batch_changes b = feed etype lo hi after (batch_offset b) log
    /\ (after < len log -> after < batch_offset b <= len log)
    /\ (len log <= after -> batch_offset b = after)
    /\ len (batch_changes b) <= limit.
Proof.
  intros H Hsz Ha Hc. unfold changes. rewrite Hc. cbn [mbind result_bind].
  unfold changes_checks in Hc. inv_run.
  by apply (changes_query_spec cap log).
Qed.

(** C19.  Compaction never takes a change a registered projection has not
    passed: whatever the compaction does, a query at a registered projection's offset
    answers the same before and after it. *)
Theorem compaction_keeps_unread cap env limit log d x d' k r etype lo hi n max_bytes scan_limit :
  represents log d -> projections_ok d -> sizes_ok cap log -> cap <= max_bytes -> 1 <= n ->
  1 <= scan_limit -> len log <= INT64_MAX ->
  compact_changes env limit d = (x, d') ->
  projection_offset d !! k = Some r ->
  changes_query cap true etype lo hi (pr_offset r) n max_bytes scan_limit d'
  = changes_query cap true etype lo hi (pr_offset r) n max_bytes scan_limit d
  /\ exists b, changes_query cap true etype lo hi (pr_offset r) n max_bytes scan_limit d' = Ok b.
Proof.
  intros H Hp Hsz Hb Hn Hscan Hlen Hc Hk.
  assert (H' : represents log d' /\ projections_ok d' /\ projection_offset d' = projection_offset d).
  { unfold compact_changes in Hc. destruct (compact_checks limit); [|by injection Hc as _ <-].
    apply run_transaction_inv in Hc as [(m & _ & Hbody)|[_ ->]]; [|done].
    destruct (compact_body_spec log d limit H Hp) as (m' & d'' & Hb' & Hrep & Hok & Heq & _).
    rewrite Hbody in Hb'. by injection Hb' as _ <-. }
  destruct H' as (H' & Hp' & Heq). pose proof (Hp _ _ Hk) as [Hr _].
  assert (Hk' := Hk). rewrite <- Heq in Hk'. pose proof (Hp' _ _ Hk') as [Hr' _].
  rewrite (rep_watermark _ _ H) in Hr.
  split.
  - unfold changes_query, read_changes. rewrite (rep_watermark _ _ H), (rep_watermark _ _ H').
    rewrite !(proj2 (Z.ltb_ge (pr_offset r) _)) by lia.
    by rewrite (retained_rows log d), (retained_rows log d') by (done || lia).
  - destruct (changes_query_spec cap log d' etype lo hi (pr_offset r) n max_bytes scan_limit)
      as (b & Hq & _); try done; [lia|]. by exists b.
Qed.

(** * A run of the store *)

Module StoreRun.
Definition p0 : PersistenceId := mkPid (lit "account") (lit "a").
Definition p1 : PersistenceId := mkPid (lit "account") (lit "b").
Definition o1 : OperationId := mkOpid 1.
Definition o2 : OperationId := mkOpid 2.
Definition c1 : content := Some (lit "v1", [1; 2]).
Definition cap0 : Z := 100.
Definition fp1 : bytes := Eval vm_compute in match content_fp c1 with Ok f => f | Err _ => [] end.
Definition key0 : pystr * pystr := (lit "totals", lit "all").

Definition log1 : list commit := [mkCommit p0 o1 c1 fp1 1000].
Definition d1 : db := (write cap0 ok_env p0 0 o1 c1 1000 empty_db).2.
Definition d2 : db := (write cap0 ok_env p1 0 o2 None 1001 d1).2.
Definition reg (mode : Mode) : db :=
  (projection_register ok_env key0 (lit "account") 0 1023 mode None d1).2.
Definition r1 : db := reg SqliteExactlyOnce.
Definition s1 : db := (projection_save_offset ok_env key0 0 1 r1).2.

Lemma p0_ok : pid_ok p0. Proof. by vm_compute. Qed.
Lemma p1_ok : pid_ok p1. Proof. by vm_compute. Qed.
Lemma o1_ok : opid_ok o1. Proof. by vm_compute. Qed.
Lemma o2_ok : opid_ok o2. Proof. by vm_compute. Qed.
Lemma c1_accepted : accepted cap0 0 c1 fp1.
Proof. exists 4. by vm_compute. Qed.
Lemma c1_accepted' : accepted cap0 7 c1 fp1.
Proof. exists 4. by vm_compute. Qed.
Lemma sizes0 : sizes_ok cap0 []. Proof. constructor. Qed.
Lemma small : len (@nil commit) < INT64_MAX. Proof. by vm_compute. Qed.
Lemma now_ok n : 0 < n <= 2000 -> 0 < n <= INT64_MAX.
Proof. change INT64_MAX with 9223372036854775807. lia. Qed.

Lemma d1_written : write cap0 ok_env p0 0 o1 c1 1000 empty_db = (Ok (mkWrite 1 false), d1).
Proof.
  rewrite (surjective_pairing (write cap0 ok_env p0 0 o1 c1 1000 empty_db)).
  by f_equal.
Qed.

Lemma d1_represents : represents log1 d1 /\ projections_ok d1.
Proof.
  destruct (write_committed cap0 ok_env p0 0 o1 c1 fp1 1000 [] empty_db 1 d1) as (H & Hp & _);
    [apply represents_empty|apply projections_ok_empty|apply p0_ok|apply o1_ok|apply small
    |by apply now_ok|apply c1_accepted|apply d1_written|done].
Qed.

Lemma d2_step : store_step cap0 d1 d2.
Proof.
  refine (step_delete cap0 d1 ok_env p1 0 o2 1001 (write cap0 ok_env p1 0 o2 None 1001 d1).1 d2
    p1_ok o2_ok _ _ (surjective_pairing (write cap0 ok_env p1 0 o2 None 1001 d1)));
    [by apply now_ok|by vm_compute].
Qed.

Lemma sizes1 : sizes_ok cap0 log1.
Proof. constructor; [by vm_compute|constructor]. Qed.

Lemma all_slices : source_ok 0 1023. Proof. done. Qed.

Lemma reg_represents mode : represents log1 (reg mode) /\ projections_ok (reg mode).
Proof.
  destruct d1_represents as [H Hp]. unfold reg.
  destruct (projection_register _ _ _ _ _ _ _ d1) as [r d'] eqn:Hr.
  apply run_transaction_inv in Hr as [(a & _ & Hb)|[_ ->]]; [|exact (conj H Hp)].
  destruct (register_body_spec log1 d1 _ _ _ _ _ _ _ _ H Hp all_slices Hb) as (HA & HB & _).
  exact (conj HA HB).
Qed.

Lemma one_within : 0 <= 1 <= high_watermark r1. Proof. by vm_compute. Qed.

Lemma s1_represents : represents log1 s1 /\ projections_ok s1.
Proof.
  destruct (reg_represents SqliteExactlyOnce) as [H Hp]. fold r1 in H, Hp. unfold s1.
  destruct (projection_save_offset _ _ _ _ r1) as [r d'] eqn:Hr.
  apply run_transaction_inv in Hr as [(a & _ & Hb)|[_ ->]]; [|exact (conj H Hp)].
  destruct (save_body_spec log1 r1 _ _ _ _ _ H Hp one_within Hb) as (HA & HB & _).
  exact (conj HA HB).
Qed.

Lemma store_write_refines_log_witness :
  let '(r, d') := write cap0 ok_env p0 0 o1 c1 1000 empty_db in
  let '(r', log') := spec_write [] p0 0 o1 c1 fp1 1000 in
  r = r' /\ represents log' d'.
Proof.
  apply (store_write_refines_log cap0 [] empty_db p0 0 o1 c1 fp1 1000);
    [apply represents_empty|apply p0_ok|apply o1_ok|apply small|by apply now_ok|apply c1_accepted|].
  intros x Hx. by apply not_elem_of_nil in Hx.
Defined.

Lemma store_reachable_consistent_witness :
  (exists log, represents log d2) /\ projections_ok d2 /\ feed_compatible d2 = true.
Proof.
  apply (store_reachable_consistent cap0 d2); [done|].
  eapply rtc_l; [|apply rtc_once, d2_step].
  refine (step_upsert cap0 empty_db ok_env p0 0 o1 (lit "v1") [1; 2] 1000 (Ok (mkWrite 1 false)) d1
    p0_ok o1_ok _ _ d1_written); [by apply now_ok|by vm_compute].
Defined.

Lemma store_retry_idempotent_witness :
  write cap0 ok_env p0 7 o1 c1 1500 d2 = (Ok (mkWrite 1 true), d2).
Proof.
  apply (store_retry_idempotent cap0 ok_env [] empty_db p0 0 o1 c1 fp1 1000 1 d1 d2 7 1500);
    [done|apply represents_empty|apply projections_ok_empty|apply sizes0|apply p0_ok|apply o1_ok
    |apply small|by apply now_ok|apply c1_accepted|apply c1_accepted'|apply d1_written|].
  apply rtc_once, d2_step.
Defined.

Lemma store_write_load_witness :
  load cap0 true p0 d1 = Ok (Some (mkRecord p0 1 o1 (Some (lit "v1")) (Some [1; 2]) false))
  /\ forall p', p' <> p0 -> load cap0 true p' d1 = load cap0 true p' empty_db.
Proof.
  apply (store_write_load cap0 ok_env [] empty_db p0 0 o1 c1 fp1 1000 1 d1);
    [done|apply represents_empty|apply projections_ok_empty|apply sizes0|apply p0_ok|apply o1_ok
    |apply small|by apply now_ok|apply c1_accepted|apply d1_written].
Defined.

Lemma changes_page_exact_witness :
  exists b,
    changes cap0 true (lit "account") 0 1023 0 10 None 10000 d1 = Ok b
    /\ batch_changes b = feed (lit "account") 0 1023 0 (batch_offset b) log1
    /\ (0 < len log1 -> 0 < batch_offset b <= len log1)
    /\ (len log1 <= 0 -> batch_offset b = 0)
    /\ len (batch_changes b) <= 10.
Proof.
  apply (changes_page_exact cap0 log1 d1 (lit "account") 0 1023 0 10 None 10000 100);
    [apply d1_represents|apply sizes1|by vm_compute|by vm_compute].
Defined.

Lemma compaction_keeps_unread_witness :
  let d' := (compact_changes ok_env 10 s1).2 in
  durable_change d' = [] /\
  changes_query cap0 true (lit "account") 0 1023 1 10 100 10000 d'
  = changes_query cap0 true (lit "account") 0 1023 1 10 100 10000 s1
  /\ exists b, changes_query cap0 true (lit "account") 0 1023 1 10 100 10000 d' = Ok b.
Proof.
  cbv zeta. split; [by vm_compute|].
  eapply (compaction_keeps_unread cap0 ok_env 10 log1 s1 _ _ key0
    (mkProjRow (lit "account") 0 1023 SqliteExactlyOnce 1) (lit "account") 0 1023 10 100 10000);
    [apply s1_represents|apply s1_represents|apply sizes1|done|done|done|by vm_compute
    |apply surjective_pairing|by vm_compute].
Defined.
End StoreRun.
