(* ===== verification/Projection.v ===== *)
(** Projections: [projection/extension.py], [projection/model.py] and the SQL guard of
    [projection/transaction.py].

    A runner is a coroutine that reads a page of the change feed, hands it to the
    application's handler and stores the offset it reached.  Its loop body is split at
    its awaits: [fetch] reads a page, [apply_batch] runs the handler inside the
    transaction of [_projection_commit] (exactly once) or before
    [_projection_save_offset] (at least once), [iteration_error] is its list of
    [except] clauses.  What the environment decides (the clock, the admission of the
    store, the outcome of the handler, a stop request) is an input.  Times are integers
    in a fixed unit. *)

From stdpp Require Import base list numbers strings gmap.
From S2P Require Import Prelude Bytes PyStr Sha256 Persistence SqliteStore.

(** * Identities and settings *)

Record ProjectionId := mkProj { proj_name : pystr; proj_key : pystr }.

#[global] Instance projection_id_eq_dec : EqDecision ProjectionId.
Proof. solve_decision. Defined.
#[global] Instance projection_id_countable : Countable ProjectionId.
Proof.
  refine (inj_countable' (fun p => (proj_name p, proj_key p)) (fun x => mkProj x.1 x.2) _).
  abstract by intros [].
Defined.

Definition ProjectionId_check (p : ProjectionId) : result unit :=
  _ ← require_name (proj_name p); _ ← require_name (proj_key p); Ok tt.

Definition projection_row_key (p : ProjectionId) : pystr * pystr := (proj_name p, proj_key p).

Record settings := mkSettings {
  runner_capacity : Z;
  batch_size : Z;
  batch_byte_capacity : Z;
  pending_byte_capacity : Z;
  compaction_batch_size : Z;
  poll_interval : Z;
  retry_min_backoff : Z;
  retry_max_backoff : Z;
  handler_timeout : Z;
  scan_limit : Z }.

Definition positive_int (value : Z) (maximum : option Z) : result Z :=
  _ ← raise_unless ((0 <? value) && match maximum with Some m => value <=? m | None => true end) ValueError;
  Ok value.
Definition positive_number (value : Z) : result Z :=
  _ ← raise_unless (0 <? value) ValueError; Ok value.

(** The checks of [ProjectionExtension.start] on the configured values, in its order. *)
Definition settings_checks (s : settings) (max_state_bytes : Z) : result unit :=
  _ ← positive_int (runner_capacity s) None;
  _ ← positive_int (batch_size s) (Some 1024);
  _ ← positive_int (batch_byte_capacity s) None;
  _ ← positive_int (pending_byte_capacity s) None;
  _ ← positive_int (compaction_batch_size s) (Some 100000);
  _ ← positive_number (poll_interval s);
  _ ← positive_number (retry_min_backoff s);
  _ ← positive_number (retry_max_backoff s);
  _ ← positive_number (handler_timeout s);
  _ ← positive_int (scan_limit s) (Some 1000000);
  _ ← raise_unless (retry_min_backoff s <=? retry_max_backoff s) ValueError;
  _ ← raise_unless (max_state_bytes <=? batch_byte_capacity s) ValueError;
  _ ← raise_unless (batch_byte_capacity s <=? pending_byte_capacity s) ValueError;
  Ok tt.

Record source := mkSource { src_type : pystr; src_lo : Z; src_hi : Z }.

Definition validate_source (s : source) : result unit :=
  _ ← raise_unless (negb (bool_decide (src_type s = []))) ValueError;
  _ ← raise_unless (negb (bool_decide (0 ∈ src_type s))) ValueError;
  em ← utf8_encode (src_type s);
  _ ← raise_unless (len em <=? 512) ValueError;
  raise_unless ((0 <=? src_lo s) && (src_lo s <=? src_hi s) && (src_hi s <? PERSISTENCE_SLICE_COUNT))
    ValueError.

Definition validate_initial_offset (initial : option Z) : result unit :=
  match initial with Some i => raise_unless (0 <=? i) ValueError | None => Ok tt end.

(** * The SQL guard of a handler's transaction *)

(** The SQLite actions the authorizer distinguishes. *)
Inductive action := ADenied | AWrite | AOther.

(** ASCII lower and upper case: [str.casefold] and [str.upper] on the names and keywords
    compared. *)
Definition ascii_lower (s : pystr) : pystr :=
  (fun c => if (65 <=? c) && (c <=? 90) then c + 32 else c) <$> s.
Definition ascii_upper (s : pystr) : pystr :=
  (fun c => if (97 <=? c) && (c <=? 122) then c - 32 else c) <$> s.

Definition MOVIE_TABLES : list pystr :=
  [lit "movie_durable_change"; lit "movie_durable_operation"; lit "movie_durable_state";
   lit "movie_projection_feed"; lit "movie_projection_offset"].

Definition FORBIDDEN : list pystr :=
  [lit "ATTACH"; lit "BEGIN"; lit "COMMIT"; lit "DETACH"; lit "END"; lit "PRAGMA"; lit "RELEASE";
   lit "ROLLBACK"; lit "SAVEPOINT"; lit "VACUUM"].

Record sql_guard := mkGuard { guard_active : bool; guard_denied : bool }.
Definition new_guard : sql_guard := mkGuard true false.

(** [_authorize]: whether the action is denied, and the guard after it. *)
Definition authorize (g : sql_guard) (a : action) (argument : option pystr) : bool * sql_guard :=
  let denied :=
    match a with
    | ADenied => true
    | AWrite =>
        match argument with
        | Some t => bool_decide (ascii_lower t ∈ MOVIE_TABLES)
                    || starts_with (lit "sqlite_") (ascii_lower t)
        | None => false
        end
    | AOther => false
    end in
  (denied, if denied then mkGuard (guard_active g) true else g).

(** White space as [str.lstrip] and [str.split] see it. *)
Definition is_space (c : Z) : bool :=
  in_range 9 13 c || in_range 28 32 c || (c =? 0x85) || (c =? 0xA0) || (c =? 0x1680)
  || in_range 0x2000 0x200A c || (c =? 0x2028) || (c =? 0x2029) || (c =? 0x202F)
  || (c =? 0x205F) || (c =? 0x3000).

Fixpoint lstrip (s : pystr) : pystr :=
  match s with c :: s' => if is_space c then lstrip s' else s | [] => [] end.
Fixpoint first_word (s : pystr) : pystr :=
  match s with c :: s' => if is_space c then [] else c :: first_word s' | [] => [] end.

(** [_validate]. *)
Definition validate_statement (g : sql_guard) (statement : pystr) : result unit * sql_guard :=
  if negb (guard_active g) then (Err RuntimeError, g)
  else if bool_decide (lstrip statement = []) then (Err ProjectionTransactionError, mkGuard true true)
  else if bool_decide (ascii_upper (first_word (lstrip statement)) ∈ FORBIDDEN)
  then (Err ProjectionTransactionError, mkGuard true true)
  else (Ok tt, g).

Definition close_guard (g : sql_guard) : sql_guard := mkGuard false (guard_denied g).

(** * The handler *)

(** What [_await_handler] observes first. *)
Inductive awaiting (A : Type) := Finished (r : result A) | StoppedWaiting | TimedOut.
Arguments Finished {A} r.
Arguments StoppedWaiting {A}.
Arguments TimedOut {A}.

Definition await_handler {A} (w : awaiting A) : result A :=
  match w with
  | Finished r => r
  | StoppedWaiting => Err StopRequested
  | TimedOut => Err ProjectionHandlerTimeout
  end.

(** One call of a handler: whether it returned an awaitable, how that ended with the
    state it left, and whether the guard denied it something on the way. *)
Record handler_run (A : Type) := mkRun {
  run_awaitable : bool;
  run_outcome : awaiting A;
  run_denied : bool }.
Arguments mkRun {A}.
Arguments run_awaitable {A}.
Arguments run_outcome {A}.
Arguments run_denied {A}.

Definition is_database_error (e : exn) : bool :=
  match e with DatabaseError | IntegrityError | OperationalError _ => true | _ => false end.

(** The [apply] closure of [_run_exactly_once]. *)
Definition apply_batch {U} (changes : list DurableStateChange)
    (run : db -> list DurableStateChange -> U -> handler_run U) (d : db) (u : U) : result U :=
  match changes with
  | [] => Ok u
  | _ =>
      let r := run d changes u in
      if negb (run_awaitable r) then Err InvalidHandler
      else match await_handler (run_outcome r) with
           | Ok u' => if run_denied r then Err ProjectionTransactionError else Ok u'
           | Err e => if is_database_error e && run_denied r
                      then Err ProjectionTransactionError else Err e
           end
  end.

(** * The loop *)

Inductive loop_outcome :=
  | Continue (offset backoff : Z) (delay : option Z)
  | Return
  | Raise (e : exn).

Section Runner.
Variables (cap : Z) (cfg : settings).

(** The [except] clauses of the loop body. *)
Definition iteration_error (mode : Mode) (offset backoff : Z) (e : exn) : loop_outcome :=
  match e with
  | StopRequested => Return
  | ChangeFeedCompactedError _ _ => Raise ProjectionBaselineError
  | InvalidHandler | ProjectionOffsetConflictError => Raise e
  | ProjectionTransactionError =>
      match mode with
      | SqliteExactlyOnce => Raise e
      | AtLeastOnce => Continue offset (Z.min (backoff * 2) (retry_max_backoff cfg)) (Some backoff)
      end
  | _ => Continue offset (Z.min (backoff * 2) (retry_max_backoff cfg)) (Some backoff)
  end.

(** The end of a successful body. *)
Definition iteration_done (b : DurableStateChangeBatch) (offset : Z) : loop_outcome :=
  Continue offset (retry_min_backoff cfg)
    (match batch_changes b with [] => Some (poll_interval cfg) | _ => None end).

(** [store._projection_changes]; [refused] is an exception of the store's admission. *)
Definition fetch (refused : option exn) (timely : bool) (s : source) (size offset : Z) (d : db)
  : result DurableStateChangeBatch :=
  match refused with
  | Some e => Err e
  | None => changes_query cap timely (src_type s) (src_lo s) (src_hi s) offset size
              (batch_byte_capacity cfg) (scan_limit cfg) d
  end.

(** The exactly-once body after the page was read. *)
Definition commit_batch {U} (env : tx_env) (refused : option exn) (k : pystr * pystr)
    (run : db -> list DurableStateChange -> U -> handler_run U)
    (offset backoff : Z) (b : DurableStateChangeBatch) (du : db * U) : loop_outcome * (db * U) :=
  if batch_offset b =? offset then (iteration_done b offset, du)
  else match refused with
  | Some e => (iteration_error SqliteExactlyOnce offset backoff e, du)
  | None =>
      match projection_commit env k offset (batch_offset b) (apply_batch (batch_changes b) run) du with
      | (Ok (true, _), du') => (iteration_done b (batch_offset b), du')
      | (Ok (false, _), du') =>
          (iteration_error SqliteExactlyOnce offset backoff ProjectionOffsetConflictError, du')
      | (Err e, du') => (iteration_error SqliteExactlyOnce offset backoff e, du')
      end
  end.

(** One pass of the loop of [_run_exactly_once], uninterrupted. *)
Definition exactly_once_iteration {U} (refused refused' : option exn) (timely : bool) (env : tx_env)
    (k : pystr * pystr) (s : source) (run : db -> list DurableStateChange -> U -> handler_run U)
    (size offset backoff : Z) (du : db * U) : loop_outcome * (db * U) :=
  match fetch refused timely s size offset du.1 with
  | Err e => (iteration_error SqliteExactlyOnce offset backoff e, du)
  | Ok b => commit_batch env refused' k run offset backoff b du
  end.

(** The call of the at-least-once handler; [None] when there is nothing to hand over. *)
Definition deliver_batch (changes : list DurableStateChange) (r : handler_run unit) : result unit :=
  match changes with
  | [] => Ok tt
  | _ => if negb (run_awaitable r) then Err InvalidHandler else await_handler (run_outcome r)
  end.

(** The at-least-once body after the handler. *)
Definition save_batch (env : tx_env) (refused : option exn) (k : pystr * pystr)
    (offset backoff : Z) (b : DurableStateChangeBatch) (d : db) : loop_outcome * db :=
  if batch_offset b =? offset then (iteration_done b offset, d)
  else match refused with
  | Some e => (iteration_error AtLeastOnce offset backoff e, d)
  | None =>
      match projection_save_offset env k offset (batch_offset b) d with
      | (Ok (true, _), d') => (iteration_done b (batch_offset b), d')
      | (Ok (false, _), d') =>
          (iteration_error AtLeastOnce offset backoff ProjectionOffsetConflictError, d')
      | (Err e, d') => (iteration_error AtLeastOnce offset backoff e, d')
      end
  end.

(** One pass of the loop of [_run_at_least_once]; the list is what was handed to the
    handler. *)
Definition at_least_once_iteration (refused refused' : option exn) (timely : bool) (env : tx_env)
    (k : pystr * pystr) (s : source) (run : list DurableStateChange -> handler_run unit)
    (size offset backoff : Z) (d : db) : loop_outcome * db * list DurableStateChange :=
  match fetch refused timely s size offset d with
  | Err e => (iteration_error AtLeastOnce offset backoff e, d, [])
  | Ok b =>
      match deliver_batch (batch_changes b) (run (batch_changes b)) with
      | Err e => (iteration_error AtLeastOnce offset backoff e, d, batch_changes b)
      | Ok _ => (save_batch env refused' k offset backoff b d, batch_changes b)
      end
  end.

(** One attempt of [_register]: the offset, a retry with its delay, or an error. *)
Definition register_attempt (env : tx_env) (refused : option exn) (k : pystr * pystr) (s : source)
    (mode : Mode) (initial : option Z) (backoff : Z) (d : db) : loop_outcome * db :=
  let retry := Continue 0 (Z.min (backoff * 2) (retry_max_backoff cfg)) (Some backoff) in
  match refused with
  | Some _ => (retry, d)
  | None =>
      match projection_register env k (src_type s) (src_lo s) (src_hi s) mode initial d with
      | (Err _, d') => (retry, d')
      | (Ok (_, (BaselineRequired | InvalidBaseline)), d') => (Raise ProjectionBaselineError, d')
      | (Ok (_, SourceConflict), d') => (Raise ProjectionSourceConflictError, d')
      | (Ok (offset, RegOk), d') => (Continue offset (retry_min_backoff cfg) None, d')
      end
  end.
End Runner.

(** * Handles *)

Record handle := mkHandle {
  h_stop_requested : bool;
  h_started : bool;
  h_stopped : bool;
  h_offset : Z;
  h_failure : option exn;
  h_last_error : option exn;
  h_startup_succeeded : bool;
  h_running : bool }.

Definition new_handle : handle := mkHandle false false false 0 None None false false.

Definition request_stop (h : handle) : handle :=
  mkHandle true (h_started h) (h_stopped h) (h_offset h) (h_failure h) (h_last_error h)
    (h_startup_succeeded h) (h_running h).
Definition mark_started (offset : Z) (h : handle) : handle :=
  mkHandle (h_stop_requested h) true (h_stopped h) offset (h_failure h) (h_last_error h) true true.
Definition advance (offset : Z) (h : handle) : handle :=
  mkHandle (h_stop_requested h) (h_started h) (h_stopped h) offset (h_failure h) (h_last_error h)
    (h_startup_succeeded h) (h_running h).
Definition record_failure (e : exn) (h : handle) : handle :=
  mkHandle (h_stop_requested h) (h_started h) (h_stopped h) (h_offset h) (h_failure h) (Some e)
    (h_startup_succeeded h) (h_running h).
(** The handle's part of [_complete]. *)
Definition complete_handle (error : option exn) (h : handle) : handle :=
  mkHandle (h_stop_requested h) true true (h_offset h) error (h_last_error h)
    (h_startup_succeeded h) false.
(** [wait_started] once the event is set. *)
Definition started_ok (h : handle) : bool := h_started h && h_startup_succeeded h.

(** * The extension *)

Inductive ext_phase := XNew | XRunning | XStopping | XStopped.

#[global] Instance ext_phase_eq_dec : EqDecision ext_phase.
Proof. solve_decision. Defined.

Record extension := mkExt {
  x_phase : ext_phase;
  x_handles : gmap ProjectionId nat;   (* the handle running each projection *)
  x_all : list handle;                 (* every handle ever created, by identity *)
  x_retiring : gset ProjectionId;
  x_slots : Z }.                       (* free permits of [_batch_slots] *)

Definition new_extension : extension := mkExt XNew ∅ [] ∅ 0.

(** [start]. *)
Definition start (cfg : settings) (max_state_bytes : Z) (x : extension) : result extension :=
  _ ← raise_unless (bool_decide (x_phase x = XNew)) RuntimeError;
  _ ← settings_checks cfg max_state_bytes;
  Ok (mkExt XRunning (x_handles x) (x_all x) (x_retiring x)
        (pending_byte_capacity cfg / batch_byte_capacity cfg)).

(** [_start_runner]; [launch] is the exception [_launch_runner] raises, if any. *)
Definition start_runner (cfg : settings) (p : ProjectionId) (s : source) (size : option Z)
    (initial : option Z) (launch : option exn) (x : extension) : result nat * extension :=
  match
    (_ ← validate_initial_offset initial;
     _ ← validate_source s;
     let n := default (batch_size cfg) size in
     _ ← raise_unless ((1 <=? n) && (n <=? 1024)) ValueError;
     _ ← raise_unless (bool_decide (x_phase x = XRunning)) RuntimeError;
     _ ← raise_unless (bool_decide (x_handles x !! p = None) && bool_decide (p ∉ x_retiring x))
           ProjectionAlreadyRunningError;
     raise_unless (Z.of_nat (base.size (x_handles x)) <? runner_capacity cfg) ProjectionCapacityError)
  with
  | Err e => (Err e, x)
  | Ok _ =>
      match launch with
      | Some e => (Err e, x)
      | None =>
          let i := length (x_all x) in
          (Ok i, mkExt (x_phase x) (<[p := i]> (x_handles x)) (x_all x ++ [new_handle])
                       (x_retiring x) (x_slots x))
      end
  end.

(** [_handle_stopped], called by [_complete] of handle [i] of projection [p], and the
    events [_complete] then sets. *)
Definition runner_stopped (p : ProjectionId) (i : nat) (error : option exn) (x : extension) : extension :=
  let handles := if bool_decide (x_handles x !! p = Some i) then delete p (x_handles x) else x_handles x in
  mkExt (x_phase x) handles (alter (complete_handle error) i (x_all x)) (x_retiring x) (x_slots x).

(** [compact_changes]: the limit handed to the store. *)
Definition compact_request (cfg : settings) (x : extension) : result Z :=
  _ ← raise_unless (bool_decide (x_phase x = XRunning)) RuntimeError;
  Ok (compaction_batch_size cfg).

(** The first half of [retire]; [submit] is the exception of the store, if any. *)
Definition retire (p : ProjectionId) (submit : option exn) (x : extension) : result unit * extension :=
  match
    (_ ← raise_unless (bool_decide (x_phase x = XRunning)) RuntimeError;
     raise_unless (bool_decide (x_handles x !! p = None) && bool_decide (p ∉ x_retiring x))
       ProjectionAlreadyRunningError)
  with
  | Err e => (Err e, x)
  | Ok _ =>
      match submit with
      | Some e => (Err e, x)
      | None => (Ok tt, mkExt (x_phase x) (x_handles x) (x_all x) ({[p]} ∪ x_retiring x) (x_slots x))
      end
  end.

(** Its completion. *)
Definition retire_complete (p : ProjectionId) (x : extension) : extension :=
  mkExt (x_phase x) (x_handles x) (x_all x) (x_retiring x ∖ {[p]}) (x_slots x).

(** [_reserve_batch] when a permit is free, and [_release_batch]. *)
Definition reserve_batch (x : extension) : option extension :=
  if 0 <? x_slots x
  then Some (mkExt (x_phase x) (x_handles x) (x_all x) (x_retiring x) (x_slots x - 1))
  else None.
Definition release_batch (x : extension) : extension :=
  mkExt (x_phase x) (x_handles x) (x_all x) (x_retiring x) (x_slots x + 1).

(** [prepare_stop]. *)
Definition prepare_stop (x : extension) : extension :=
  let phase := match x_phase x with XNew | XRunning => XStopping | ph => ph end in
  mkExt phase (x_handles x)
    (foldr (fun kv hs => alter request_stop kv.2 hs) (x_all x) (map_to_list (x_handles x)))
    (x_retiring x) (x_slots x).

(** [stop] once the waits ended: every running handle stopped in time, or a timeout. *)
Definition stop (x : extension) : result unit * extension :=
  let x := prepare_stop x in
  if forallb (fun kv => match x_all x !! kv.2 with Some h => h_stopped h | None => false end)
             (map_to_list (x_handles x))
  then (Ok tt, mkExt XStopped (x_handles x) (x_all x) (x_retiring x) (x_slots x))
  else (Err TimeoutError, x).
