(* ===== verification/FeedLemmas.v ===== *)
(** The feed of a log between two offsets: splitting, growth of the log, and what a
    successful query returned. *)

From stdpp Require Import base list numbers strings gmap sorting.
From S2P Require Import Prelude Bytes PyStr Sha256 Persistence SqliteStore StoreLog StoreRefine StoreReads StoreSteps.

Definition change_before (c c' : DurableStateChange) : Prop := ch_offset c < ch_offset c'.

Lemma changes_from_lower pre log : Forall (fun c => len pre < ch_offset c) (changes_from pre log).
Proof.
  revert pre. induction log as [|c log IH]; intros pre; simpl; constructor; [simpl; lia|].
  eapply Forall_impl; [apply IH|]. intros r. rewrite len_app, len_singleton. lia.
Qed.

Lemma changes_from_sorted pre log : StronglySorted change_before (changes_from pre log).
Proof.
  revert pre. induction log as [|c log IH]; intros pre; simpl; constructor; [apply IH|].
  eapply Forall_impl; [apply changes_from_lower|]. intros r. unfold change_before. simpl.
  rewrite len_app, len_singleton. lia.
Qed.

Lemma changes_from_app pre l l' :
  changes_from pre (l ++ l') = changes_from pre l ++ changes_from (pre ++ l) l'.
Proof.
  revert pre. induction l as [|c l IH]; intros pre; simpl; [by rewrite app_nil_r|].
  by rewrite IH, <- app_assoc.
Qed.

Lemma filter_ranges (P : DurableStateChange -> Prop) `{!forall x, Decision (P x)} a b c l :
  StronglySorted change_before l -> a <= b <= c ->
  filter (fun x => P x /\ a < ch_offset x <= b) l ++ filter (fun x => P x /\ b < ch_offset x <= c) l
  = filter (fun x => P x /\ a < ch_offset x <= c) l.
Proof.
  intros Hs Habc. induction Hs as [|x l Hl IH Hx]; [done|].
  destruct (decide (P x /\ a < ch_offset x <= b)) as [H1|H1].
  - rewrite filter_cons_True, (filter_cons_False _ x), filter_cons_True by (done || (simpl; lia) || (split; [tauto|lia])).
    simpl. by rewrite IH.
  - rewrite filter_cons_False by done. destruct (decide (P x /\ b < ch_offset x <= c)) as [H2|H2].
    + rewrite filter_cons_True by done.
      rewrite (filter_cons_True _ x) by (split; [tauto|lia]).
      assert (Hnil : filter (fun x => P x /\ a < ch_offset x <= b) l = []).
      { apply filter_Forall_nil. eapply Forall_impl; [exact Hx|].
        intros y Hy [_ ?]. unfold change_before in Hy. lia. }
      rewrite Hnil in IH |- *. simpl in *. by rewrite IH.
    + rewrite !filter_cons_False; [done| |done]. intros [? ?].
      destruct (Z.le_gt_cases (ch_offset x) b); [apply H1|apply H2]; (split; [done|lia]).
Qed.

Lemma feed_split etype lo hi a b c log :
  a <= b <= c -> feed etype lo hi a b log ++ feed etype lo hi b c log = feed etype lo hi a c log.
Proof.
  intros Habc. unfold feed.
  pose proof (filter_ranges (fun x => entity_type (rec_id (ch_record x)) = etype /\ lo <= ch_slice x <= hi)
    a b c (log_changes log) (changes_from_sorted [] log) Habc) as H.
  assert (Hf : forall a b, filter (matches etype lo hi a b) (log_changes log) =
    filter (fun x => (entity_type (rec_id (ch_record x)) = etype /\ lo <= ch_slice x <= hi)
                     /\ a < ch_offset x <= b) (log_changes log)).
  { intros a' b'. apply list_filter_iff. intros x. unfold matches. tauto. }
  by rewrite !Hf.
Qed.

Lemma feed_empty etype lo hi a log : feed etype lo hi a a log = [].
Proof. apply filter_Forall_nil, Forall_forall. intros c _ (_ & _ & ?). lia. Qed.

(** The part of the feed within a log does not change when the log grows. *)
Lemma feed_grow etype lo hi a b log ext :
  b <= len log -> feed etype lo hi a b (log ++ ext) = feed etype lo hi a b log.
Proof.
  intros Hb. unfold feed, log_changes. rewrite changes_from_app, filter_app.
  rewrite (filter_Forall_nil _ (changes_from ([] ++ log) ext)); [by rewrite app_nil_r|].
  eapply Forall_impl; [apply changes_from_lower|]. simpl. intros c Hc (_ & _ & ?). lia.
Qed.

(** What a query that answered has read. *)
Lemma changes_query_inv cap timely log d etype lo hi after limit max_bytes scan_limit b :
  represents log d -> sizes_ok cap log -> cap <= max_bytes -> 1 <= limit -> 1 <= scan_limit ->
  changes_query cap timely etype lo hi after limit max_bytes scan_limit d = Ok b ->
  batch_changes b = feed etype lo hi after (batch_offset b) log
  /\ after <= batch_offset b /\ (after <= len log -> batch_offset b <= len log)
  /\ (after < len log -> after < batch_offset b).
Proof.
  intros H Hsz Hm Hl Hs Hq.
  assert (Htimely : timely = true) by (by destruct timely). subst timely.
  assert (Ha : compacted_through d <= after <= INT64_MAX).
  { pose proof Hq as Hq'. unfold changes_query, read_changes, bind_int in Hq'. simpl in Hq'.
    destruct (Z.ltb_spec after (compacted_through d)); [done|].
    destruct ((- 2 ^ 63 <=? after) && (after <=? INT64_MAX)) eqn:Hb; [|done]. inv_run. lia. }
  destruct (changes_query_spec cap log d etype lo hi after limit max_bytes scan_limit H Hsz Hm Hl Hs Ha)
    as (b' & Hq' & Hf & Hlt & Hge & _).
  rewrite Hq in Hq'. injection Hq' as <-. split; [done|].
  destruct (Z.lt_ge_cases after (len log)) as [Hc|Hc].
  - specialize (Hlt Hc). lia.
  - specialize (Hge Hc). lia.
Qed.
