(* ===== verification/ProjectionSpec.v ===== *)
(** Projections over the store: exactly-once and at-least-once delivery as transition
    systems of runners and store operations, and progress of a runner.

    Any number of runners may work on one projection (a restarted one beside a stale
    one, or two processes on one database file): a page read by a runner can be
    committed after any operations of the store and of the other runners. *)

From stdpp Require Import base list numbers strings gmap.
From S2P Require Import Prelude Bytes PyStr Sha256 Persistence SqliteStore StoreLog StoreRefine StoreReads StoreSteps StoreSpec FeedLemmas Projection.

Section Delivery.
Variables (cap : Z) (cfg : settings).
Variables (k : pystr * pystr) (s : source).

Definition stored (d : db) (offset : Z) : Prop :=
  exists r, projection_offset d !! k = Some r /\ pr_offset r = offset.

Definition src_feed (a b : Z) (log : list commit) : list DurableStateChange :=
  feed (src_type s) (src_lo s) (src_hi s) a b log.

(** The store and one log, with the projection registered. *)
Record store_inv (log : list commit) (d : db) (offset : Z) : Prop := {
  si_rep : represents log d;
  si_proj : projections_ok d;
  si_sizes : sizes_ok cap log;
  si_stored : stored d offset }.

Hypothesis cap_pos : 0 < cap.
Hypothesis cap_fits : cap <= batch_byte_capacity cfg.
Hypothesis scan_pos : 1 <= scan_limit cfg.

Lemma store_inv_bounds log d offset : store_inv log d offset -> offset <= len log.
Proof.
  intros [H Hp _ (r & Hr & <-)]. pose proof (Hp _ _ Hr) as [? _]. rewrite <- (rep_watermark _ _ H). lia.
Qed.

(** Operations of the store that leave this projection's row alone. *)
Lemma store_inv_step log d offset d' :
  store_inv log d offset -> store_step cap d d' ->
  projection_offset d' !! k = projection_offset d !! k ->
  exists ext, store_inv (log ++ ext) d' offset.
Proof.
  intros [H Hp Hs Hst] Hstep Hk.
  destruct (store_step_extends cap cap_pos log d d' H Hp Hs Hstep) as (ext & H' & Hp' & Hs').
  exists ext. split; try done. unfold stored. by rewrite Hk.
Qed.

(** A successful update of the row moves the stored offset. *)
Lemma store_inv_update log d offset expected new d' :
  store_inv log d offset -> expected <= new <= len log ->
  sql_update_projection k expected new d = Ok (1, d') ->
  expected = offset /\ store_inv log d' new.
Proof.
  intros [H Hp Hs (r & Hr & Ho)] Hn Hu. rewrite <- (rep_watermark _ _ H) in Hn.
  destruct (update_projection_spec log d k expected new 1 d' H Hp Hn Hu)
    as (H' & Hp' & _ & [[? _]|(_ & r' & Hr' & He & Hu')]); [done|].
  split; [congruence|]. split; try done. exists (set_pr_offset r' new). split; [|done].
  by rewrite Hu', lookup_insert_eq.
Qed.

(** What a runner read is the feed from its offset, whatever happens later. *)
Definition page_ok (log : list commit) (o : Z) (b : DurableStateChangeBatch) : Prop :=
  batch_changes b = src_feed o (batch_offset b) log /\ o <= batch_offset b <= len log.

Lemma fetch_page refused timely size log d offset o b :
  store_inv log d offset -> 1 <= size -> o <= len log ->
  fetch cap cfg refused timely s size o d = Ok b -> page_ok log o b.
Proof.
  intros [H _ Hs _] Hsize Ho. unfold fetch. destruct refused; [done|]. intros Hq.
  apply (changes_query_inv cap timely log) in Hq as (Hf & Hle & Hb & _); try done.
  split; [done|]. auto.
Qed.

Lemma page_ok_grow log ext o b : page_ok log o b -> page_ok (log ++ ext) o b.
Proof.
  intros [Hf Hb]. split.
  - unfold src_feed. by rewrite feed_grow by lia.
  - rewrite len_app. pose proof (len_nonneg ext). lia.
Qed.

(** * Exactly once *)

Section ExactlyOnce.
Context {U W : Type}.
(** The handler, in circumstances that may differ from one call to the next. *)
Variable run : W -> db -> list DurableStateChange -> U -> handler_run U.
Variables (u0 : U) (init : Z).

Inductive prunner :=
  | PIdle (offset : Z)
  | PFetched (offset : Z) (b : DurableStateChangeBatch)
  | PDone.

Record xstate := mkX { x_db : db; x_app : U; x_runners : list prunner }.

Definition after_outcome (out : loop_outcome) : prunner :=
  match out with Continue o _ _ => PIdle o | _ => PDone end.

Inductive xstep (st : xstate) : xstate -> Prop :=
| xs_store d' :
    store_step cap (x_db st) d' ->
    projection_offset d' !! k = projection_offset (x_db st) !! k ->
    xstep st (mkX d' (x_app st) (x_runners st))
| xs_launch env refused initial backoff o bo d' :
    register_attempt cfg env refused k s SqliteExactlyOnce initial backoff (x_db st)
      = (Continue o bo None, d') ->
    xstep st (mkX d' (x_app st) (x_runners st ++ [PIdle o]))
| xs_fetch i o refused timely size b :
    x_runners st !! i = Some (PIdle o) -> 1 <= size ->
    fetch cap cfg refused timely s size o (x_db st) = Ok b ->
    xstep st (mkX (x_db st) (x_app st) (<[i := PFetched o b]> (x_runners st)))
| xs_commit i o b env refused backoff w out du' :
    x_runners st !! i = Some (PFetched o b) ->
    commit_batch cfg env refused k (run w) o backoff b (x_db st, x_app st) = (out, du') ->
    xstep st (mkX du'.1 du'.2 (<[i := after_outcome out]> (x_runners st))).

(** The application's tables after the handler ran on these batches, in order. *)
Inductive applied : list (list DurableStateChange) -> U -> Prop :=
| applied_nil : applied [] u0
| applied_snoc bs u d cs w u' :
    applied bs u -> apply_batch cs (run w) d u = Ok u' -> applied (bs ++ [cs]) u'.

Definition runner_ok (log : list commit) (r : prunner) : Prop :=
  match r with
  | PIdle o => o <= len log
  | PFetched o b => page_ok log o b
  | PDone => True
  end.

Definition xinv (st : xstate) : Prop :=
  exists log offset bs,
    store_inv log (x_db st) offset /\ init <= offset
    /\ concat bs = src_feed init offset log /\ applied bs (x_app st)
    /\ Forall (runner_ok log) (x_runners st).

Lemma runner_ok_grow log ext r : runner_ok log r -> runner_ok (log ++ ext) r.
Proof.
  destruct r; simpl; try done; [|apply page_ok_grow].
  rewrite len_app. pose proof (len_nonneg ext). lia.
Qed.

(** Registering a registered projection changes nothing and returns its offset. *)
Lemma register_known env refused backoff mode initial log d offset o bo dl d' :
  store_inv log d offset ->
  register_attempt cfg env refused k s mode initial backoff d = (Continue o bo dl, d') ->
  d' = d /\ (dl = None -> o = offset).
Proof.
  intros [_ _ _ (r & Hr & Ho)] Hreg. unfold register_attempt, projection_register in Hreg.
  destruct refused; [by inversion Hreg|].
  destruct (run_transaction _ _ _) as [[[o' reg]|e] d1] eqn:Ht; [|].
  - apply run_transaction_inv in Ht as [(a & [[= <-]|Hx] & Hb)|[Hx _]]; [|done..].
    unfold projection_register_body in Hb. rewrite Hr in Hb. injection Hb as <- Hreg' <-.
    destruct reg; inversion Hreg; subst; done.
  - assert (d1 = d) as -> by (apply run_transaction_inv in Ht as [(a & _ & Hb)|[_ ->]]; [|done];
      unfold projection_register_body in Hb; rewrite Hr in Hb; by injection Hb as _ <-).
    by inversion Hreg.
Qed.

(** The outcomes of committing a page: nothing changed, it was committed, or it was
    committed and the runner was told of a failure. *)
Lemma commit_batch_inv w env refused o backoff b d u out d' u' :
  commit_batch cfg env refused k (run w) o backoff b (d, u) = (out, (d', u')) ->
  (d' = d /\ u' = u /\ (forall o' bo dl, out = Continue o' bo dl -> o' = o)) \/
  ((out = iteration_done cfg b (batch_offset b) \/
    (forall o' bo dl, out = Continue o' bo dl -> o' = o)) /\
   apply_batch (batch_changes b) (run w) d u = Ok u' /\
   sql_update_projection k o (batch_offset b) d = Ok (1, d')).
Proof.
  unfold commit_batch.
  assert (Herr : forall e o' bo dl, iteration_error cfg SqliteExactlyOnce o backoff e = Continue o' bo dl -> o' = o)
    by (intros e o' bo dl; destruct e; by inversion 1).
  destruct (batch_offset b =? o) eqn:Hb.
  { intros [= <- <- <-]. left. split_and!; [done..|]. by intros ??? [= ->]. }
  destruct refused as [e|]; [intros [= <- <- <-]; left; by eauto|].
  unfold projection_commit. destruct (run_transaction _ _ _) as [r [d1 u1]] eqn:Ht.
  apply run_transaction_inv in Ht as [(a & _ & Hbody)|[Hr Hd]].
  - assert (Hcom : apply_batch (batch_changes b) (run w) d u = Ok u1 /\
      sql_update_projection k o (batch_offset b) d = Ok (1, d1)).
    { unfold projection_commit_body in Hbody.
      destruct (negb _); [done|]. destruct (apply_batch _ (run w) d u) as [u2|]; [|done].
      destruct (sql_update_projection _ _ _ d) as [[n d2]|] eqn:Hu; [|done].
      destruct (Z.eqb_spec n 1) as [->|]; [|done]. by injection Hbody as _ <- <-. }
    destruct r as [?|e].
    + intros [= <- <- <-]. right. split; [by left|done].
    + intros Hout. right. destruct e; injection Hout as <- <- <-;
        (split; [right|done]); intros o' bo dl Hx; by inversion Hx.
  - injection Hd as -> ->. destruct r as [?|e]; [done|].
    intros Hout. left. destruct e; injection Hout as <- <- <-;
      (split; [done|split; [done|]]); intros o' bo dl Hx; by inversion Hx.
Qed.

Lemma xstep_inv st st' : xinv st -> xstep st st' -> xinv st'.
Proof.
  intros (log & offset & bs & Hsi & Hio & Hbs & Happ & Hrs) Hstep.
  inversion Hstep as [d' Hst Hk|env refused initial backoff o bo d' Hreg
    |i o refused timely size b Hi Hsize Hf|i o b env refused backoff w out du' Hi Hc]; subst.
  - destruct (store_inv_step _ _ _ _ Hsi Hst Hk) as [ext Hsi'].
    exists (log ++ ext), offset, bs. split_and!; try done.
    + rewrite Hbs. unfold src_feed. rewrite feed_grow; [done|]. by eapply store_inv_bounds.
    + eapply Forall_impl; [exact Hrs|]. intros. by apply runner_ok_grow.
  - destruct (register_known _ _ _ _ _ _ _ _ _ _ _ _ Hsi Hreg) as [-> Ho]. rewrite Ho by done.
    exists log, offset, bs. split_and!; try done. apply Forall_app. split; [done|].
    constructor; [|done]. by eapply store_inv_bounds.
  - pose proof (Forall_lookup_1 _ _ _ _ Hrs Hi) as Ho. simpl in Ho.
    exists log, offset, bs. split_and!; try done. apply Forall_insert; [done|].
    by eapply fetch_page.
  - pose proof (Forall_lookup_1 _ _ _ _ Hrs Hi) as [Hpage Hle]. simpl in *.
    destruct du' as [d' u']. apply commit_batch_inv in Hc as [(-> & -> & Hout)|(Hout & Ha & Hu)].
    + exists log, offset, bs. split_and!; try done. apply Forall_insert; [done|].
      destruct out as [o' bo dl| |]; simpl; try done. rewrite (Hout _ _ _ eq_refl). lia.
    + destruct (store_inv_update _ _ _ _ _ _ Hsi Hle Hu) as [-> Hsi'].
      exists log, (batch_offset b), (bs ++ [batch_changes b]). split_and!; try done.
      * simpl. lia.
      * rewrite concat_app, Hbs. simpl. rewrite app_nil_r, Hpage.
        unfold src_feed. apply feed_split. lia.
      * econstructor; eassumption.
      * apply Forall_insert; [done|]. destruct Hout as [->|Hout]; [simpl; lia|].
        destruct out as [o' bo dl| |]; simpl; try done. rewrite (Hout _ _ _ eq_refl). lia.
Qed.

(** C7.  Exactly once: whatever the interleaving of store operations,
    failures, restarts and concurrent runners, the application's tables are the
    result of running the handler, in order and each committed once, on batches
    that together are exactly the matching changes between the offset the
    projection started from and the offset the store holds. *)
Theorem exactly_once log0 d0 st :
  store_inv log0 d0 init -> rtc xstep (mkX d0 u0 []) st ->
  exists log offset bs,
    represents log (x_db st) /\ stored (x_db st) offset
    /\ concat bs = src_feed init offset log /\ applied bs (x_app st).
Proof.
  intros Hsi Hsteps.
  assert (Hinv : xinv st).
  { refine (rtc_ind_r xinv _ _ _ st Hsteps).
    - exists log0, init, []. split_and!; try done; [|constructor].
      unfold src_feed. by rewrite feed_empty.
    - intros st1 st2 _ Hstep H1. by eapply xstep_inv. }
  destruct Hinv as (log & offset & bs & [Hrep _ _ Hst] & _ & Hbs & Happ & _).
  by exists log, offset, bs.
Qed.

End ExactlyOnce.

(** * Progress *)

Section Progress.
Context {U : Type}.
Variable run : db -> list DurableStateChange -> U -> handler_run U.

(** The loop without faults or stop requests, at most [n] passes. *)
Fixpoint run_loop (n : nat) (size offset backoff : Z) (du : db * U) : loop_outcome * (db * U) :=
  match n with
  | O => (Continue offset backoff None, du)
  | S n =>
      match exactly_once_iteration cap cfg None None true ok_env k s run size offset backoff du with
      | (Continue offset' backoff' _, du') => run_loop n size offset' backoff' du'
      | stopped => stopped
      end
  end.

(** One pass reaches a later offset, commits it, and keeps the log. *)
Lemma iteration_progress log d u size offset backoff :
  store_inv log d offset -> len log <= INT64_MAX -> 1 <= size -> offset < len log ->
  (forall d cs u, exists u', run d cs u = mkRun true (Finished (Ok u')) false) ->
  exists offset' backoff' delay d' u',
    exactly_once_iteration cap cfg None None true ok_env k s run size offset backoff (d, u)
      = (Continue offset' backoff' delay, (d', u'))
    /\ store_inv log d' offset' /\ offset < offset' <= len log.
Proof.
  intros Hsi Hmax Hsize Hlt Hrun. pose proof Hsi as [H Hp Hs (r & Hr & Hro)].
  pose proof (Hp _ _ Hr) as [Hrange _]. pose proof (rep_compacted _ _ H) as Hcomp.
  destruct (changes_query_spec cap log d (src_type s) (src_lo s) (src_hi s) offset size
    (batch_byte_capacity cfg) (scan_limit cfg) H Hs cap_fits Hsize scan_pos) as (b & Hq & _ & Hadv & _);
    [lia|]. specialize (Hadv Hlt).
  assert (Happly : exists u', apply_batch (batch_changes b) run d u = Ok u').
  { unfold apply_batch. destruct (batch_changes b) as [|c cs]; [by eexists|].
    destruct (Hrun d (c :: cs) u) as [u' ->]. by eexists. }
  destruct Happly as [u' Happly].
  assert (Hupd : exists d', sql_update_projection k offset (batch_offset b) d = Ok (1, d')).
  { unfold sql_update_projection, se_bind, se_lift. rewrite !bind_int_ok by lia.
    rewrite Hr, Hro, Z.eqb_refl, (proj2 (Z.leb_le 0 _)) by lia. by eexists. }
  destruct Hupd as [d' Hupd].
  assert (Hle : offset <= batch_offset b <= len log) by lia.
  destruct (store_inv_update _ _ _ _ _ _ Hsi Hle Hupd) as [_ Hsi'].
  unfold exactly_once_iteration, fetch. cbn [fst]. rewrite Hq.
  unfold commit_batch. rewrite (proj2 (Z.eqb_neq (batch_offset b) offset)) by lia.
  unfold projection_commit. rewrite run_transaction_ok. unfold projection_commit_body.
  rewrite Hr, Hro, Z.eqb_refl. cbn [negb]. rewrite Happly, Hupd. simpl.
  by eexists _, _, _, _, _.
Qed.

(** C33.  A runner catches up: with a handler that succeeds and no faults,
    the loop reaches the end of the log within as many passes as there are commits
    past its offset, and the store holds that offset. *)
Theorem projection_catches_up log d u size offset backoff :
  store_inv log d offset -> len log <= INT64_MAX -> 1 <= size ->
  (forall d cs u, exists u', run d cs u = mkRun true (Finished (Ok u')) false) ->
  exists n backoff' d' u',
    (n <= Z.to_nat (len log - offset))%nat /\
    run_loop n size offset backoff (d, u) = (Continue (len log) backoff' None, (d', u'))
    /\ stored d' (len log).
Proof.
  intros Hsi Hmax Hsize Hrun. pose proof (store_inv_bounds _ _ _ Hsi) as Hle.
  remember (Z.to_nat (len log - offset)) as m eqn:Hm. revert d u offset backoff Hsi Hle Hm.
  induction m as [m IH] using lt_wf_ind; intros d u offset backoff Hsi Hle Hm.
  destruct (Z.eq_dec offset (len log)) as [->|Hne].
  - exists 0%nat, backoff, d, u. split_and!; [lia|done|apply Hsi].
  - destruct (iteration_progress log d u size offset backoff Hsi Hmax Hsize) as
      (o' & bo' & dl & d1 & u1 & Hit & Hsi1 & Ho'); [lia|done|].
    destruct (IH (Z.to_nat (len log - o')) ltac:(lia) d1 u1 o' bo' Hsi1 ltac:(lia) eq_refl)
      as (n & bo'' & d' & u' & Hn & Hloop & Hst).
    exists (S n), bo'', d', u'. split_and!; [lia| |done]. simpl. by rewrite Hit.
Qed.
End Progress.

(** * At least once *)

Section AtLeastOnce.
Variable init : Z.

Inductive arunner :=
  | AIdle (offset : Z)
  | AFetched (offset : Z) (b : DurableStateChangeBatch)
  | ADelivered (offset : Z) (b : DurableStateChangeBatch)
  | ADone.

(** One call of a handler: the changes it was given and how it ended. *)
Definition call : Type := list DurableStateChange * handler_run unit.

(** The handler returned an awaitable, which completed without an exception
    before the time-out and before a stop request. *)
Definition succeeded (r : handler_run unit) : bool :=
  run_awaitable r && match run_outcome r with Finished (Ok _) => true | _ => false end.

(** The changes of the calls that succeeded, in the order of the calls; a change
    whose batch failed is not among them. *)
Definition handled (calls : list call) : list DurableStateChange :=
  flat_map (fun c : call => if succeeded c.2 then c.1 else []) calls.

(** The loop calls the handler for a page that has changes. *)
Definition call_of (cs : list DurableStateChange) (r : handler_run unit) : list call :=
  match cs with [] => [] | _ => [(cs, r)] end.

(** [a_calls]: every call of a handler so far, in order. *)
Record astate := mkA { a_db : db; a_calls : list call; a_runners : list arunner }.

Definition a_after (out : loop_outcome) : arunner :=
  match out with Continue o _ _ => AIdle o | _ => ADone end.

Inductive astep (st : astate) : astate -> Prop :=
| as_store d' :
    store_step cap (a_db st) d' ->
    projection_offset d' !! k = projection_offset (a_db st) !! k ->
    astep st (mkA d' (a_calls st) (a_runners st))
| as_launch env refused initial backoff o bo d' :
    register_attempt cfg env refused k s AtLeastOnce initial backoff (a_db st)
      = (Continue o bo None, d') ->
    astep st (mkA d' (a_calls st) (a_runners st ++ [AIdle o]))
| as_fetch i o refused timely size b :
    a_runners st !! i = Some (AIdle o) -> 1 <= size ->
    fetch cap cfg refused timely s size o (a_db st) = Ok b ->
    astep st (mkA (a_db st) (a_calls st) (<[i := AFetched o b]> (a_runners st)))
| as_handler i o b r backoff :
    a_runners st !! i = Some (AFetched o b) ->
    astep st (mkA (a_db st) (a_calls st ++ call_of (batch_changes b) r)
      (<[i := match deliver_batch (batch_changes b) r with
              | Ok _ => ADelivered o b
              | Err e => a_after (iteration_error cfg AtLeastOnce o backoff e)
              end]> (a_runners st)))
| as_save i o b env refused backoff out d' :
    a_runners st !! i = Some (ADelivered o b) ->
    save_batch cfg env refused k o backoff b (a_db st) = (out, d') ->
    astep st (mkA d' (a_calls st) (<[i := a_after out]> (a_runners st))).

(** A runner at offset [o] knows that everything up to [o] was handled. *)
Definition arunner_ok (log : list commit) (calls : list call) (r : arunner) : Prop :=
  match r with
  | AIdle o => init <= o <= len log /\ src_feed init o log `sublist_of` handled calls
  | AFetched o b => page_ok log o b /\ init <= o /\ src_feed init o log `sublist_of` handled calls
  | ADelivered o b =>
      page_ok log o b /\ init <= o /\ src_feed init o log `sublist_of` handled calls
      /\ src_feed init (batch_offset b) log `sublist_of` handled calls
  | ADone => True
  end.

Definition ainv (st : astate) : Prop :=
  exists log offset,
    store_inv log (a_db st) offset /\ init <= offset
    /\ src_feed init offset log `sublist_of` handled (a_calls st)
    /\ Forall (arunner_ok log (a_calls st)) (a_runners st).

Lemma handled_app calls more : handled (calls ++ more) = handled calls ++ handled more.
Proof. apply flat_map_app. Qed.

Lemma handled_more l calls more :
  l `sublist_of` handled calls -> l `sublist_of` handled (calls ++ more).
Proof. rewrite handled_app. apply sublist_inserts_r. Qed.

(** [deliver_batch] returns only when its call succeeded. *)
Lemma deliver_handled cs r u : deliver_batch cs r = Ok u -> handled (call_of cs r) = cs.
Proof.
  unfold deliver_batch, call_of, handled. destruct cs as [|c cs]; [done|].
  destruct r as [aw out den]; simpl. unfold succeeded; simpl.
  destruct aw; [|done]. destruct out as [[?|?]| |]; simpl; [|done..]. by rewrite app_nil_r.
Qed.

Lemma arunner_ok_grow log ext calls more r :
  arunner_ok log calls r -> arunner_ok (log ++ ext) (calls ++ more) r.
Proof.
  assert (Hg : forall o, o <= len log -> src_feed init o log `sublist_of` handled calls ->
    src_feed init o (log ++ ext) `sublist_of` handled (calls ++ more)).
  { intros o Ho Hs. unfold src_feed. rewrite feed_grow by done. by apply handled_more. }
  pose proof (len_nonneg ext) as Hl. pose proof (len_app log ext) as Ha.
  destruct r as [o|o b|o b|]; simpl; [| | |done].
  - intros [Ho Hs]. split; [lia|]. apply Hg; [lia|done].
  - intros (Hp & Ho & Hs). pose proof Hp as [_ Hb]. split_and!; [by apply page_ok_grow|done|].
    apply Hg; [lia|done].
  - intros (Hp & Ho & Hs & Hs'). pose proof Hp as [_ Hb].
    split_and!; [by apply page_ok_grow|done| |]; (apply Hg; [lia|done]).
Qed.

Lemma save_batch_inv env refused o backoff b d out d' :
  save_batch cfg env refused k o backoff b d = (out, d') ->
  (d' = d /\ (forall o' bo dl, out = Continue o' bo dl -> o' = o)) \/
  ((out = iteration_done cfg b (batch_offset b) \/
    (forall o' bo dl, out = Continue o' bo dl -> o' = o)) /\
   sql_update_projection k o (batch_offset b) d = Ok (1, d')).
Proof.
  unfold save_batch. destruct (batch_offset b =? o).
  { intros [= <- <-]. left. split; [done|]. by intros ??? [= ->]. }
  assert (Herr : forall e o' bo dl, iteration_error cfg AtLeastOnce o backoff e = Continue o' bo dl -> o' = o)
    by (intros e o' bo dl; destruct e; by inversion 1).
  destruct refused as [e|]; [intros [= <- <-]; left; by eauto|].
  unfold projection_save_offset. destruct (run_transaction _ _ _) as [r d1] eqn:Ht.
  apply run_transaction_inv in Ht as [(a & Hr & Hbody)|[Hr ->]].
  - unfold projection_save_body in Hbody. apply se_bind_ok in Hbody as (n & d2 & Hu & Hbody).
    destruct (Z.eqb_spec n 1) as [->|Hn].
    + apply se_ret_ok in Hbody as [-> ->]. destruct Hr as [->|Hr].
      * intros [= <- <-]. right. by split; [left|].
      * destruct r as [|e]; [done|]. intros [= <- <-]. right. split; [|done]. right. apply Herr.
    + assert (d1 = d) as ->.
      { injection Hbody as _ <-. unfold sql_update_projection, se_bind, se_lift in Hu.
        repeat case_match; simplify_eq; done. }
      destruct Hr as [->|Hr].
      * destruct a as [[] a2]; [by inversion Hbody|]. intros [= <- <-]. left. by split.
      * destruct r as [|e]; [done|]. intros [= <- <-]. left. split; [done|]. apply Herr.
  - destruct r as [|e]; [done|]. intros [= <- <-]. left. split; [done|]. apply Herr.
Qed.

Lemma astep_inv st st' : ainv st -> astep st st' -> ainv st'.
Proof.
  intros (log & offset & Hsi & Hio & Hsub & Hrs) Hstep.
  assert (Hmore : forall more, Forall (arunner_ok log (a_calls st ++ more)) (a_runners st)).
  { intros more. eapply Forall_impl; [exact Hrs|]. intros r Hr.
    rewrite <- (app_nil_r log). by apply arunner_ok_grow. }
  inversion Hstep as [d' Hst Hk|env refused initial backoff o bo d' Hreg
    |i o refused timely size b Hi Hsize Hf|i o b r backoff Hi
    |i o b env refused backoff out d' Hi Hc]; subst.
  - destruct (store_inv_step _ _ _ _ Hsi Hst Hk) as [ext Hsi'].
    exists (log ++ ext), offset. split_and!; try done.
    + unfold src_feed. rewrite feed_grow; [done|]. by eapply store_inv_bounds.
    + simpl. rewrite <- (app_nil_r (a_calls st)). eapply Forall_impl; [exact Hrs|].
      intros. by apply arunner_ok_grow.
  - destruct (register_known _ _ _ _ _ _ _ _ _ _ _ _ Hsi Hreg) as [-> Ho]. rewrite Ho by done.
    exists log, offset. split_and!; try done. apply Forall_app. split; [done|].
    constructor; [|done]. simpl. pose proof (store_inv_bounds _ _ _ Hsi). done.
  - pose proof (Forall_lookup_1 _ _ _ _ Hrs Hi) as [Ho Hs].
    exists log, offset. split_and!; try done. apply Forall_insert; [done|].
    split_and!; try lia; try done. eapply fetch_page; try done. lia.
  - pose proof (Forall_lookup_1 _ _ _ _ Hrs Hi) as (Hp & Ho & Hs). pose proof Hp as [Hfeed Hb].
    exists log, offset. split_and!; try done; [by apply handled_more|].
    apply Forall_insert; [apply Hmore|].
    destruct (deliver_batch (batch_changes b) r) as [u|e] eqn:Hd.
    + simpl. split_and!; try done; [by apply handled_more|].
      rewrite handled_app, (deliver_handled _ _ _ Hd), Hfeed. unfold src_feed.
      rewrite <- (feed_split _ _ _ init o (batch_offset b)) by lia. by apply sublist_app.
    + assert (HI : arunner_ok log (a_calls st ++ call_of (batch_changes b) r) (AIdle o))
        by (split; [lia|by apply handled_more]).
      destruct e; simpl; done.
  - pose proof (Forall_lookup_1 _ _ _ _ Hrs Hi) as (Hp & Ho & Hs & Hs'). pose proof Hp as [_ Hb].
    apply save_batch_inv in Hc as [(-> & Hout)|(Hout & Hu)].
    + exists log, offset. split_and!; try done. apply Forall_insert; [done|].
      destruct out as [o' bo dl| |]; simpl; try done. rewrite (Hout _ _ _ eq_refl). split; [lia|done].
    + destruct (store_inv_update _ _ _ _ _ _ Hsi Hb Hu) as [-> Hsi'].
      exists log, (batch_offset b). split_and!; try done; [lia|].
      apply Forall_insert; [done|]. destruct Hout as [->|Hout]; [simpl; split; [lia|done]|].
      destruct out as [o' bo dl| |]; simpl; try done. rewrite (Hout _ _ _ eq_refl). split; [lia|done].
Qed.

(** C32.  At least once, in order: whatever the interleaving of store
    operations, failures, restarts and concurrent runners, every matching change
    between the offset the projection started from and the offset the store holds
    was in a batch the handler handled without an exception, a time-out or a stop
    in between, and these batches came in the order of the log: a failed batch is
    not checkpointed, it is handed over again. *)
Theorem at_least_once log0 d0 st :
  store_inv log0 d0 init -> rtc astep (mkA d0 [] []) st ->
  exists log offset,
    represents log (a_db st) /\ stored (a_db st) offset
    /\ src_feed init offset log `sublist_of` handled (a_calls st).
Proof.
  intros Hsi Hsteps.
  assert (Hinv : ainv st).
  { refine (rtc_ind_r ainv _ _ _ st Hsteps).
    - exists log0, init. split_and!; try done. unfold src_feed. by rewrite feed_empty.
    - intros st1 st2 _ Hstep H1. by eapply astep_inv. }
  destruct Hinv as (log & offset & [Hrep _ _ Hst] & _ & Hs & _). by exists log, offset.
Qed.
End AtLeastOnce.
End Delivery.

(** * A run of a projection *)

Module ProjectionRun.
Import StoreRun.

Definition cfg0 : settings := mkSettings 32 100 100 1000 1000 100 100 5000 30000 10000.
Definition src0 : source := mkSource (lit "account") 0 1023.
(** A handler that keeps every change in its table. *)
Definition keep (_ : db) (cs u : list DurableStateChange) : handler_run (list DurableStateChange) :=
  mkRun true (Finished (Ok (u ++ cs))) false.

(** The same, or a time-out. *)
Definition keep_or_late (ok : bool) (d : db) (cs u : list DurableStateChange)
  : handler_run (list DurableStateChange) :=
  if ok then keep d cs u else mkRun true TimedOut false.

Lemma reg_row mode :
  projection_offset (reg mode) !! key0 = Some (mkProjRow (lit "account") 0 1023 mode 0).
Proof. destruct mode; by vm_compute. Qed.

Lemma reg_inv mode : store_inv cap0 key0 log1 (reg mode) 0.
Proof.
  destruct (reg_represents mode) as [H Hp].
  exact (Build_store_inv cap0 key0 log1 (reg mode) 0 H Hp sizes1
    (ex_intro _ _ (conj (reg_row mode) eq_refl))).
Qed.

Lemma reg_again mode :
  register_attempt cfg0 ok_env None key0 src0 mode None 100 (reg mode) = (Continue 0 100 None, reg mode).
Proof.
  unfold register_attempt, projection_register. rewrite run_transaction_ok.
  unfold projection_register_body. rewrite reg_row. by destruct mode.
Qed.

Definition page1 : DurableStateChangeBatch :=
  Eval vm_compute in
    match fetch cap0 cfg0 None true src0 100 0 r1 with Ok b => b | Err _ => mkBatch [] 0 end.

Lemma page1_fetched : fetch cap0 cfg0 None true src0 100 0 r1 = Ok page1.
Proof. by vm_compute. Qed.

Definition committed1 : loop_outcome * (db * list DurableStateChange) :=
  commit_batch cfg0 ok_env None key0 (keep_or_late true) 0 100 page1 (r1, []).

(** The runner as the launch, the fetch and the commit leave it. *)
Definition run1 : xstate (U := list DurableStateChange) :=
  mkX committed1.2.1 committed1.2.2 [after_outcome committed1.1].

Lemma late_changes_nothing :
  commit_batch cfg0 ok_env None key0 (keep_or_late false) 0 100 page1 (r1, [])
  = (Continue 0 200 (Some 100), (r1, [])).
Proof. by vm_compute. Qed.

Lemma run1_reached : rtc (xstep cap0 cfg0 key0 src0 keep_or_late) (mkX r1 [] []) run1.
Proof.
  eapply rtc_l; [exact (xs_launch cap0 cfg0 key0 src0 keep_or_late (mkX r1 [] []) ok_env None None 100 0
    100 r1 (reg_again SqliteExactlyOnce))|].
  eapply rtc_l; [exact (xs_fetch cap0 cfg0 key0 src0 keep_or_late (mkX r1 [] [PIdle 0]) 0 0 None true 100
    page1 eq_refl ltac:(lia) page1_fetched)|].
  eapply rtc_l; [exact (xs_commit cap0 cfg0 key0 src0 keep_or_late (mkX r1 [] [PFetched 0 page1]) 0 0 page1
    ok_env None 100 false _ _ eq_refl late_changes_nothing)|].
  eapply rtc_l; [exact (xs_fetch cap0 cfg0 key0 src0 keep_or_late (mkX r1 [] [PIdle 0]) 0 0 None true 100
    page1 eq_refl ltac:(lia) page1_fetched)|].
  apply rtc_once.
  exact (xs_commit cap0 cfg0 key0 src0 keep_or_late (mkX r1 [] [PFetched 0 page1]) 0 0 page1 ok_env None
    100 true committed1.1 committed1.2 eq_refl (surjective_pairing committed1)).
Qed.

Lemma exactly_once_witness :
  len (x_app run1) = 1 /\
  exists log offset bs,
    represents log (x_db run1) /\ stored key0 (x_db run1) offset
    /\ concat bs = src_feed src0 0 offset log /\ applied keep_or_late [] bs (x_app run1).
Proof.
  split; [by vm_compute|].
  exact (exactly_once cap0 cfg0 key0 src0 eq_refl ltac:(by vm_compute) ltac:(by vm_compute)
    keep_or_late [] 0 log1 r1 run1 (reg_inv SqliteExactlyOnce) run1_reached).
Defined.

Lemma projection_catches_up_witness :
  exists n backoff' d' u',
    (n <= Z.to_nat (len log1 - 0))%nat /\
    run_loop cap0 cfg0 key0 src0 keep n 100 0 100 (r1, []) = (Continue (len log1) backoff' None, (d', u'))
    /\ stored key0 d' (len log1).
Proof.
  apply (projection_catches_up cap0 cfg0 key0 src0 ltac:(by vm_compute) ltac:(by vm_compute)
    keep log1 r1 [] 100 0 100 (reg_inv SqliteExactlyOnce) ltac:(by vm_compute) ltac:(by vm_compute)).
  intros d cs u. exists (u ++ cs). reflexivity.
Defined.

Definition r2 : db := reg AtLeastOnce.

Lemma page1_fetched' : fetch cap0 cfg0 None true src0 100 0 r2 = Ok page1.
Proof. by vm_compute. Qed.

Definition saved1 : loop_outcome * db := save_batch cfg0 ok_env None key0 0 100 page1 r2.

(** The first call times out; the same page is read again and handled. *)
Definition late : handler_run unit := mkRun true TimedOut false.
Definition good : handler_run unit := mkRun true (Finished (Ok tt)) false.

Definition arun1 : astate :=
  mkA saved1.2 [(batch_changes page1, late); (batch_changes page1, good)] [a_after saved1.1].

Lemma arun1_reached : rtc (astep cap0 cfg0 key0 src0) (mkA r2 [] []) arun1.
Proof.
  eapply rtc_l; [exact (as_launch cap0 cfg0 key0 src0 (mkA r2 [] []) ok_env None None 100 0 100 r2
    (reg_again AtLeastOnce))|].
  eapply rtc_l; [exact (as_fetch cap0 cfg0 key0 src0 (mkA r2 [] [AIdle 0]) 0 0 None true 100 page1
    eq_refl ltac:(lia) page1_fetched')|].
  eapply rtc_l; [exact (as_handler cap0 cfg0 key0 src0 (mkA r2 [] [AFetched 0 page1]) 0 0 page1
    late 100 eq_refl)|].
  eapply rtc_l; [exact (as_fetch cap0 cfg0 key0 src0
    (mkA r2 [(batch_changes page1, late)] [AIdle 0]) 0 0 None true 100 page1
    eq_refl ltac:(lia) page1_fetched')|].
  eapply rtc_l; [exact (as_handler cap0 cfg0 key0 src0
    (mkA r2 [(batch_changes page1, late)] [AFetched 0 page1]) 0 0 page1 good 100 eq_refl)|].
  apply rtc_once.
  exact (as_save cap0 cfg0 key0 src0
    (mkA r2 [(batch_changes page1, late); (batch_changes page1, good)] [ADelivered 0 page1])
    0 0 page1 ok_env None 100 saved1.1 saved1.2 eq_refl (surjective_pairing saved1)).
Qed.

Lemma at_least_once_witness :
  len (handled (a_calls arun1)) = 1 /\
  exists log offset,
    represents log (a_db arun1) /\ stored key0 (a_db arun1) offset
    /\ src_feed src0 0 offset log `sublist_of` handled (a_calls arun1).
Proof.
  split; [by vm_compute|].
  exact (at_least_once cap0 cfg0 key0 src0 eq_refl ltac:(by vm_compute) ltac:(by vm_compute)
    0 log1 r2 arun1 (reg_inv AtLeastOnce) arun1_reached).
Defined.
End ProjectionRun.
