(* ===== verification/DurableBehavior.v ===== *)
(** The durable-state behaviour: [persistence/behavior.py].

    A behaviour object holds its phase, the published state and revision, and at most
    one pending effect.  Its methods are functions on that object which keep what they
    changed when they raise ([M]), as Python does.  The codec, the command handler and
    the callbacks are the application's: parameters, each of which may raise.  What a
    method asks of others (an operation of the store, a callback, a stop) is recorded in
    the order it is asked in [b_out].  A submission to the store may raise at once;
    [submit] says so.  The failure hooks only observe, and what they raise is
    swallowed. *)

From stdpp Require Import base list numbers strings gmap.
From S2P Require Import Prelude Bytes PyStr Sha256 Persistence.

Inductive phase := RECOVERING | RUNNING | PERSISTING | STOPPING.

#[global] Instance phase_eq_dec : EqDecision phase.
Proof. solve_decision. Defined.

(** Operations submitted to the store, tagged with the generation of the behaviour. *)
Inductive request :=
  | RLoad (duplicate : bool)
  | RUpsert (expected : Z) (o : OperationId) (manifest : pystr) (payload : bytes)
  | RDelete (expected : Z) (o : OperationId).

(** [_RecoveryCompleted] and [_WriteCompleted]. *)
Inductive completion :=
  | RecoveryCompleted (record : option DurableStateRecord) (error : option exn) (duplicate : bool)
  | WriteCompleted (res : option WriteResult) (error : option exn).

Section Behavior.
Context {S C CB : Type}.
Variable encode : S -> result EncodedState.
Variable decode : pystr -> bytes -> result S.
Variable empty_state : result S.
Variable handle_command : S -> C -> result (DurableEffect S CB).
Variable on_recovery_completed : S -> Z -> result unit.
Variable run_callback : CB -> S -> result unit.

Record pending_effect := mkPending { pe_state : S; pe_callbacks : list CB; pe_stop : bool }.

Inductive output :=
  | OSubmit (r : request)
  | OCallback (cb : CB) (s : S)
  | OStop.

Record beh := mkBeh {
  b_phase : phase;
  b_revision : Z;
  b_state : option S;
  b_pending : option pending_effect;
  b_suspended : bool;
  b_out : list output }.

Definition M (A : Type) : Type := beh -> result A * beh.
Definition m_ret {A} (a : A) : M A := fun b => (Ok a, b).
Definition m_raise {A} (e : exn) : M A := fun b => (Err e, b).
Definition m_lift {A} (r : result A) : M A := fun b => (r, b).
Definition m_bind {A B} (m : M A) (k : A -> M B) : M B :=
  fun b => match m b with (Ok a, b') => k a b' | (Err e, b') => (Err e, b') end.
(** [try: m except Exception as error: h(error)]. *)
Definition m_catch {A} (m : M A) (h : exn -> M A) : M A :=
  fun b => match m b with (Ok a, b') => (Ok a, b') | (Err e, b') => h e b' end.

Notation "x <- m ;; k" := (m_bind m (fun x => k)) (at level 60, m at next level, right associativity).
Notation "m ;;; k" := (m_bind m (fun _ => k)) (at level 60, right associativity).

Definition set_phase (p : phase) : M unit :=
  fun b => (Ok tt, mkBeh p (b_revision b) (b_state b) (b_pending b) (b_suspended b) (b_out b)).
Definition set_state (s : S) : M unit :=
  fun b => (Ok tt, mkBeh (b_phase b) (b_revision b) (Some s) (b_pending b) (b_suspended b) (b_out b)).
Definition set_revision (r : Z) : M unit :=
  fun b => (Ok tt, mkBeh (b_phase b) r (b_state b) (b_pending b) (b_suspended b) (b_out b)).
Definition set_pending (p : option pending_effect) : M unit :=
  fun b => (Ok tt, mkBeh (b_phase b) (b_revision b) (b_state b) p (b_suspended b) (b_out b)).
(** [suspend_user_messages] and [resume_user_messages] of the context. *)
Definition set_suspended (x : bool) : M unit :=
  fun b => (Ok tt, mkBeh (b_phase b) (b_revision b) (b_state b) (b_pending b) x (b_out b)).
Definition emit (o : output) : M unit :=
  fun b => (Ok tt, mkBeh (b_phase b) (b_revision b) (b_state b) (b_pending b) (b_suspended b)
                     (b_out b ++ [o])).

(** A call of the codec's [encode]: constructing [EncodedState] checks it. *)
Definition encode_checked (s : S) : result EncodedState :=
  e ← encode s; _ ← EncodedState_check e; Ok e.

Definition copy_state (s : S) : result S :=
  e ← encode_checked s; decode (enc_manifest e) (enc_payload e).

Definition raise_recovery_failure {A} (e : exn) : M A := m_raise DurableStateRecoveryError.
Definition raise_persist_failure {A} (e : exn) : M A := m_raise DurableStatePersistError.

(** Submitting an operation to the store. *)
Definition submit_request (submit : option exn) (r : request) : M unit :=
  match submit with Some e => m_raise e | None => emit (OSubmit r) end.

Definition begin_recovery (submit : option exn) (duplicate : bool) : M unit :=
  set_phase RECOVERING ;;;
  m_catch (submit_request submit (RLoad duplicate)) raise_recovery_failure.

Fixpoint run_callbacks (cbs : list CB) (s : S) : M unit :=
  match cbs with
  | [] => m_ret tt
  | cb :: cbs =>
      s' <- m_lift (copy_state s) ;;
      emit (OCallback cb s') ;;;
      m_lift (run_callback cb s') ;;;
      run_callbacks cbs s
  end.

Definition request_stop : M unit :=
  set_phase STOPPING ;;; set_suspended true ;;; emit OStop.

(** [self._state] where the code reads it: it is set once recovery completed. *)
Definition current_state : M S :=
  fun b => match b_state b with Some s => (Ok s, b) | None => (Err UserError, b) end.

Definition finish_pending_effect (apply_candidate : bool) : M unit :=
  fun b =>
    match b_pending b with
    | None => (Err DurableStatePersistError, b)
    | Some p =>
        (set_pending None ;;;
         (if apply_candidate then set_state (pe_state p) else m_ret tt) ;;;
         set_phase RUNNING ;;;
         s <- current_state ;;
         run_callbacks (pe_callbacks p) s ;;;
         (if pe_stop p then request_stop else set_suspended false)) b
    end.

(** The state and revision a recovered record stands for. *)
Definition recovered (record : option DurableStateRecord) : result (S * Z) :=
  match record with
  | None => e ← empty_state; s ← copy_state e; Ok (s, 0)
  | Some r =>
      if rec_deleted r then e ← empty_state; s ← copy_state e; Ok (s, rec_revision r)
      else match rec_manifest r, rec_payload r with
           | Some m, Some p => d ← decode m p; s ← copy_state d; Ok (s, rec_revision r)
           | _, _ => Err AssertionError
           end
  end.

Definition complete_recovery (record : option DurableStateRecord) (error : option exn)
    (duplicate : bool) : M unit :=
  (match error with Some e => raise_recovery_failure e | None => m_ret tt end) ;;;
  sr <- m_catch (m_lift (recovered record)) raise_recovery_failure ;;
  set_state sr.1 ;;;
  set_revision sr.2 ;;;
  s' <- m_lift (copy_state sr.1) ;;
  m_lift (on_recovery_completed s' sr.2) ;;;
  if duplicate then finish_pending_effect false
  else set_phase RUNNING ;;; set_suspended false.

(** The candidate state of a persist or delete effect, with the encoding to write. *)
Definition candidate_of (e : DurableEffect S CB) : result (S * option EncodedState) :=
  match eff_kind e with
  | EPersist =>
      match eff_state e with
      | Some s => enc ← encode_checked s;
                  c ← decode (enc_manifest enc) (enc_payload enc); Ok (c, Some enc)
      | None => Err AssertionError
      end
  | _ => s ← empty_state; c ← copy_state s; Ok (c, None)
  end.

Definition process_command (submit : option exn) (cmd : C) : M unit :=
  s <- current_state ;;
  s' <- m_lift (copy_state s) ;;
  e <- m_lift (handle_command s' cmd) ;;
  match eff_kind e with
  | ENone =>
      s <- current_state ;;
      run_callbacks (eff_callbacks e) s ;;;
      if eff_stop e then request_stop else m_ret tt
  | _ =>
      m_catch
        (match eff_op e with
         | None => m_raise AssertionError
         | Some o =>
             c <- m_lift (candidate_of e) ;;
             set_pending (Some (mkPending c.1 (eff_callbacks e) (eff_stop e))) ;;;
             set_phase PERSISTING ;;;
             set_suspended true ;;;
             fun b =>
               submit_request submit
                 (match c.2 with
                  | None => RDelete (b_revision b) o
                  | Some enc => RUpsert (b_revision b) o (enc_manifest enc) (enc_payload enc)
                  end) b
         end)
        raise_persist_failure
  end.

Definition complete_write (submit : option exn) (res : option WriteResult) (error : option exn) : M unit :=
  match error, res with
  | Some e, _ => raise_persist_failure e
  | None, None => raise_persist_failure DurableStatePersistError
  | None, Some w =>
      if wr_duplicate w then begin_recovery submit true
      else fun b =>
        if wr_revision w =? b_revision b + 1
        then (set_revision (wr_revision w) ;;; finish_pending_effect true) b
        else raise_persist_failure DurableStatePersistError b
  end.

(** [receive]. *)
Definition receive (submit : option exn) (cmd : C) : M unit :=
  fun b => if bool_decide (b_phase b = RUNNING) then process_command submit cmd b
           else (Err RuntimeError, b).

(** [on_signal] with [PostStop], and [actor_failed]. *)
Definition post_stop : M unit := set_phase STOPPING.
Definition actor_failed : M unit := set_phase STOPPING.

(** [deliver] of a completion that applies to this behaviour. *)
Definition deliver (submit : option exn) (c : completion) : M unit :=
  match c with
  | RecoveryCompleted record error duplicate => complete_recovery record error duplicate
  | WriteCompleted res error => complete_write submit res error
  end.

(** [__init__], up to the checks on its arguments. *)
Definition blank : beh := mkBeh RECOVERING 0 None None false [].
Definition init (submit : option exn) : result unit * beh :=
  (set_suspended true ;;; begin_recovery submit false) blank.
End Behavior.

Arguments mkPending {S CB}.
Arguments pe_state {S CB}.
Arguments pe_callbacks {S CB}.
Arguments pe_stop {S CB}.
Arguments OSubmit {S CB}.
Arguments OCallback {S CB}.
Arguments OStop {S CB}.
Arguments mkBeh {S CB}.
Arguments b_phase {S CB}.
Arguments b_revision {S CB}.
Arguments b_state {S CB}.
Arguments b_pending {S CB}.
Arguments b_suspended {S CB}.
Arguments b_out {S CB}.
