(* ===== verification/DurableSystem.v ===== *)
(** The durable-state behaviour together with the store: what the behaviour publishes
    is committed.

    The system is one entity's actor (its current behaviour object, identified by a
    generation), the operations it has in flight, the completions on their way to its
    mailbox, and the database, on which other writers work at the same time.  A failing
    actor may be restarted: the operations and completions of the old behaviour stay in
    flight and reach the new one, which ignores them. *)

From stdpp Require Import base list numbers strings gmap.
From S2P Require Import Prelude Bytes PyStr Sha256 Persistence SqliteStore StoreLog StoreRefine StoreReads StoreSteps StoreSpec DurableBehavior.

Section System.
Context {S C CB : Type}.
Variable encode : S -> result EncodedState.
Variable decode : pystr -> bytes -> result S.
Variable empty_state : result S.
Variable handle_command : S -> C -> result (DurableEffect S CB).
Variable on_recovery_completed : S -> Z -> result unit.
Variable run_callback : CB -> S -> result unit.
Variables (cap : Z) (p : PersistenceId).
Hypothesis cap_pos : 0 < cap.
Hypothesis p_ok : pid_ok p.

Abbreviation copy := (copy_state encode decode).
Abbreviation beh := (beh (S := S) (CB := CB)).
Abbreviation output := (output (S := S) (CB := CB)).

(** * Committed states *)

Definition empty_for (st : S) : Prop := exists e, empty_state = Ok e /\ copy e = Ok st.

(** The states a content stands for: the decoded one, or the copy made of it. *)
Definition state_for (c : content) (st : S) : Prop :=
  match c with
  | Some (m, b) => decode m b = Ok st \/ exists s, decode m b = Ok s /\ copy s = Ok st
  | None => empty_for st
  end.

(** The commit that gave the entity a revision. *)
Definition commit_at (log : list commit) (rev : Z) : option commit :=
  if 0 <? rev then filter (fun c => c_id c = p) log !! Z.to_nat (rev - 1) else None.

Definition committed (log : list commit) (rev : Z) (st : S) : Prop :=
  (rev = 0 /\ empty_for st) \/ exists c, commit_at log rev = Some c /\ state_for (c_content c) st.

Lemma commit_at_grow log ext rev c : commit_at log rev = Some c -> commit_at (log ++ ext) rev = Some c.
Proof.
  unfold commit_at. destruct (0 <? rev); [|done]. rewrite filter_app. apply lookup_app_l_Some.
Qed.

Lemma committed_grow log ext rev st : committed log rev st -> committed (log ++ ext) rev st.
Proof. intros [?|(c & Hc & Hs)]; [by left|right]. exists c. eauto using commit_at_grow. Qed.

Lemma commit_at_last log c :
  c_id c = p -> commit_at (log ++ [c]) (count p log + 1) = Some c.
Proof.
  intros Hc. unfold commit_at. pose proof (count_bounds p log).
  rewrite (proj2 (Z.ltb_lt 0 _)) by lia. rewrite filter_app, filter_cons_True by done.
  replace (Z.to_nat (count p log + 1 - 1)) with (length (filter (fun c => c_id c = p) log))
    by (unfold count, len; lia).
  by rewrite lookup_app_r, Nat.sub_diag by lia.
Qed.

Lemma latest_commit_at log c : latest p log = Some c -> commit_at log (count p log) = Some c.
Proof.
  intros Hl. unfold commit_at. rewrite (proj2 (Z.ltb_lt 0 _)) by (by apply latest_count; eauto).
  unfold latest in Hl. rewrite last_lookup in Hl. rewrite <- Hl. f_equal. unfold count, len. lia.
Qed.

(** * The system *)

Abbreviation flight := (nat * (request + completion))%type.

Record sys := mkSys {
  s_db : db;
  s_gen : nat;
  s_beh : beh;
  s_flight : list flight }.

Definition requests_of (outs : list output) : list request :=
  omap (fun o => match o with OSubmit r => Some r | _ => None end) outs.

(** After a method of the current behaviour: what it submitted is in flight; when it
    raised, the actor fails. *)
Definition after_method (st : sys) (fl : list flight) (rb : result unit * beh) : sys :=
  let b := match rb.1 with Ok _ => rb.2 | Err _ => (actor_failed rb.2).2 end in
  mkSys (s_db st) (s_gen st) b
    (fl ++ ((fun r => (s_gen st, inl r)) <$> requests_of (drop (length (b_out (s_beh st))) (b_out rb.2)))).

(** The future of an operation, as [_pipe_completion] maps it. *)
Definition load_completion (duplicate : bool) (r : result (option DurableStateRecord)) : completion :=
  match r with Ok rec => RecoveryCompleted rec None duplicate
             | Err e => RecoveryCompleted None (Some e) duplicate end.
Definition write_completion (r : result WriteResult) : completion :=
  match r with Ok w => WriteCompleted (Some w) None | Err e => WriteCompleted None (Some e) end.

Definition exec (r : request) (timely : bool) (env : tx_env) (now : Z) (d : db) : completion * db :=
  match r with
  | RLoad dup => (load_completion dup (load cap timely p d), d)
  | RUpsert expected o m b =>
      let '(w, d') := upsert cap env p expected o m b now d in (write_completion w, d')
  | RDelete expected o =>
      let '(w, d') := delete_state env p expected o now d in (write_completion w, d')
  end.

Definition request_ok (r : request) : Prop :=
  match r with RUpsert _ o _ _ | RDelete _ o => opid_ok o | RLoad _ => True end.

Inductive sys_step (st : sys) : sys -> Prop :=
| ss_other d' :                       (* another writer, a projection, compaction *)
    store_step cap (s_db st) d' ->
    sys_step st (mkSys d' (s_gen st) (s_beh st) (s_flight st))
| ss_exec i g r timely env now c d' :  (* the store runs an operation in flight *)
    s_flight st !! i = Some (g, inl r) -> request_ok r ->
    0 < now <= INT64_MAX -> high_watermark (s_db st) < INT64_MAX ->
    exec r timely env now (s_db st) = (c, d') ->
    sys_step st (mkSys d' (s_gen st) (s_beh st) (<[i := (g, inr c)]> (s_flight st)))
| ss_deliver i c submit :              (* a completion of this behaviour, also a failed one *)
    s_flight st !! i = Some (s_gen st, inr c) ->
    sys_step st (after_method st (delete i (s_flight st))
      (deliver encode decode empty_state on_recovery_completed run_callback submit c (s_beh st)))
| ss_stale i g c :                     (* a completion of an earlier behaviour: ignored *)
    s_flight st !! i = Some (g, inr c) -> g <> s_gen st ->
    sys_step st (mkSys (s_db st) (s_gen st) (s_beh st) (delete i (s_flight st)))
| ss_command cmd submit :              (* the mailbox delivers a command *)
    b_suspended (s_beh st) = false -> b_phase (s_beh st) <> STOPPING ->
    sys_step st (after_method st (s_flight st)
      (receive encode decode empty_state handle_command run_callback submit cmd (s_beh st)))
| ss_stop :                            (* [PostStop], or the actor fails meanwhile *)
    sys_step st (mkSys (s_db st) (s_gen st) (post_stop (s_beh st)).2 (s_flight st))
| ss_restart submit rb :
    init submit = rb ->
    sys_step st (after_method (mkSys (s_db st) (Datatypes.S (s_gen st)) blank (s_flight st))
                              (s_flight st) rb).

(** The system before the actor starts: a restart step creates its behaviour. *)
Definition sys0 (d : db) : sys := mkSys d 0 (post_stop blank).2 [].

(** * The invariant *)

(** A callback saw a copy of a committed state. *)
Definition out_ok (log : list commit) (o : output) : Prop :=
  match o with
  | OCallback _ s => exists rev st, committed log rev st /\ copy st = Ok s
  | _ => True
  end.

Definition write_flight (log : list commit) (rev : Z) (cand : S) (f : request + completion) : Prop :=
  match f with
  | inl (RUpsert e o m b) => e = rev /\ decode m b = Ok cand
  | inl (RDelete e o) => e = rev /\ empty_for cand
  | inr (WriteCompleted (Some w) None) =>
      wr_duplicate w = false -> wr_revision w = rev + 1 -> committed log (rev + 1) cand
  | inr (WriteCompleted _ _) => True
  | _ => False
  end.

Definition record_ok (log : list commit) (record : option DurableStateRecord) : Prop :=
  match record with
  | None => True
  | Some r => exists c, commit_at log (rec_revision r) = Some c
      /\ rec_manifest r = manifest_of (c_content c) /\ rec_payload r = payload_of (c_content c)
      /\ rec_deleted r = deleted_of (c_content c)
  end.

Definition load_flight (log : list commit) (dup : bool) (f : request + completion) : Prop :=
  match f with
  | inl (RLoad d) => d = dup
  | inr (RecoveryCompleted record None d) => d = dup /\ record_ok log record
  | inr (RecoveryCompleted _ (Some _) d) => d = dup
  | _ => False
  end.

Definition mine (g : nat) (fl : list flight) : list (request + completion) :=
  snd <$> filter (fun f => f.1 = g) fl.

(** The operation whose completion the behaviour waits for. *)
Definition load_waits (log : list commit) (b : beh) (fs : list (request + completion)) : Prop :=
  exists f dup, fs = [f] /\ load_flight log dup f /\ (dup = false -> b_pending b = None).
Definition write_waits (log : list commit) (b : beh) (fs : list (request + completion)) : Prop :=
  exists pe st f, b_pending b = Some pe /\ b_state b = Some st
    /\ committed log (b_revision b) st /\ fs = [f] /\ write_flight log (b_revision b) (pe_state pe) f.

(** A behaviour that failed or was stopped may still have its operation in flight. *)
Definition beh_ok (log : list commit) (b : beh) (fs : list (request + completion)) : Prop :=
  match b_phase b with
  | RUNNING =>
      b_pending b = None /\ fs = [] /\ exists st, b_state b = Some st /\ committed log (b_revision b) st
  | PERSISTING => b_suspended b = true /\ write_waits log b fs
  | RECOVERING => b_suspended b = true /\ load_waits log b fs
  | STOPPING => fs = [] \/ b_suspended b = true /\ (load_waits log b fs \/ write_waits log b fs)
  end.

Definition sys_inv (st : sys) : Prop :=
  exists log, represents log (s_db st) /\ projections_ok (s_db st) /\ sizes_ok cap log
    /\ Forall (out_ok log) (b_out (s_beh st))
    /\ Forall (fun f => (f.1 <= s_gen st)%nat) (s_flight st)
    /\ beh_ok log (s_beh st) (mine (s_gen st) (s_flight st)).

Lemma out_ok_grow log ext o : out_ok log o -> out_ok (log ++ ext) o.
Proof. destruct o; simpl; try done. intros (rev & st & Hc & Hs). eauto using committed_grow. Qed.

Lemma write_flight_grow log ext rev cand f : write_flight log rev cand f -> write_flight (log ++ ext) rev cand f.
Proof.
  destruct f as [[]|[|[] []]]; simpl; try done. intros H Hd Hr. by apply committed_grow, H.
Qed.

Lemma load_flight_grow log ext dup f : load_flight log dup f -> load_flight (log ++ ext) dup f.
Proof.
  destruct f as [[]|[[r|] [] ?|]]; simpl; try done. intros [-> (c & Hc & Hr)]. split; [done|].
  exists c. eauto using commit_at_grow.
Qed.

Lemma load_waits_grow log ext b fs : load_waits log b fs -> load_waits (log ++ ext) b fs.
Proof. intros (f & dup & -> & Hf & Hp). exists f, dup. eauto using load_flight_grow. Qed.

Lemma write_waits_grow log ext b fs : write_waits log b fs -> write_waits (log ++ ext) b fs.
Proof.
  intros (pe & st & f & Hp & Hst & Hc & -> & Hf).
  exists pe, st, f. eauto 10 using committed_grow, write_flight_grow.
Qed.

Lemma beh_ok_grow log ext b fs : beh_ok log b fs -> beh_ok (log ++ ext) b fs.
Proof.
  unfold beh_ok. destruct (b_phase b).
  - intros [? ?]. eauto using load_waits_grow.
  - intros (Hp & -> & st & Hst & Hc). eauto 10 using committed_grow.
  - intros [? ?]. eauto using write_waits_grow.
  - intros [?|[? [?|?]]]; eauto 6 using load_waits_grow, write_waits_grow.
Qed.

(** * Flights *)

Lemma mine_app g fl fl' : mine g (fl ++ fl') = mine g fl ++ mine g fl'.
Proof. unfold mine. by rewrite filter_app, fmap_app. Qed.

Lemma mine_new g rs : mine g ((fun r => (g, inl r)) <$> rs) = inl <$> rs.
Proof.
  induction rs as [|r rs IH]; [done|]. rewrite fmap_cons. unfold mine in *.
  rewrite filter_cons_True by done. rewrite !fmap_cons. by f_equal.
Qed.

Lemma mine_split g fl i f :
  fl !! i = Some (g, f) ->
  mine g fl = mine g (take i fl) ++ f :: mine g (drop (Datatypes.S i) fl).
Proof.
  intros Hi. rewrite <- (take_drop_middle _ _ _ Hi) at 1. rewrite mine_app. f_equal.
  unfold mine. by rewrite filter_cons_True.
Qed.

Lemma mine_single g fl i f f' :
  fl !! i = Some (g, f) -> mine g fl = [f'] ->
  f = f' /\ mine g (delete i fl) = [] /\ forall h, mine g (<[i := (g, h)]> fl) = [h].
Proof.
  intros Hi Hm. rewrite (mine_split _ _ _ _ Hi) in Hm.
  destruct (mine g (take i fl)) eqn:Ht; simpl in Hm; [|by destruct l].
  injection Hm as -> Hd. split; [done|]. rewrite delete_take_drop, mine_app, Ht, Hd.
  split; [done|]. intros h. rewrite insert_take_drop by (by eapply lookup_lt_Some).
  rewrite mine_app, Ht. unfold mine in *. rewrite filter_cons_True by done. by rewrite fmap_cons, Hd.
Qed.

Lemma mine_other g g' fl i f :
  fl !! i = Some (g', f) -> g' <> g ->
  mine g (delete i fl) = mine g fl /\ forall h, mine g (<[i := (g', h)]> fl) = mine g fl.
Proof.
  intros Hi Hne.
  assert (Hm : mine g fl = mine g (take i fl) ++ mine g (drop (Datatypes.S i) fl)).
  { rewrite <- (take_drop_middle _ _ _ Hi) at 1. rewrite mine_app. f_equal.
    unfold mine. by rewrite filter_cons_False. }
  rewrite Hm, delete_take_drop, mine_app. split; [done|]. intros h.
  rewrite insert_take_drop by (by eapply lookup_lt_Some). rewrite mine_app. f_equal.
  unfold mine. by rewrite filter_cons_False.
Qed.

(** * The methods *)

(** What a method of the behaviour guarantees when nothing of it is in flight: its
    callbacks saw committed states, and unless it raised, it is in a good state with
    what it submitted; it submitted nothing if it raised. *)
Definition post (log : list commit) (b : beh) (rb : result unit * beh) : Prop :=
  exists outs, b_out rb.2 = b_out b ++ outs /\ Forall (out_ok log) outs
    /\ match rb.1 with
       | Ok _ => beh_ok log rb.2 (inl <$> requests_of outs)
       | Err _ => requests_of outs = []
       end.

Lemma post_raise log b e b' : b_out b' = b_out b -> post log b (Err e, b').
Proof. intros Ho. exists []. rewrite app_nil_r. split_and!; [done|constructor|done]. Qed.

Lemma run_callbacks_spec cbs s b :
  exists r outs, run_callbacks encode decode run_callback cbs s b
    = (r, mkBeh (b_phase b) (b_revision b) (b_state b) (b_pending b) (b_suspended b) (b_out b ++ outs))
    /\ Forall (fun o => exists cb s', o = OCallback cb s' /\ copy s = Ok s') outs.
Proof.
  revert b. induction cbs as [|cb cbs IH]; intros b; simpl.
  - exists (Ok tt), []. rewrite app_nil_r. by destruct b.
  - unfold m_bind, m_lift. destruct (copy s) as [s'|e] eqn:Hc.
    + unfold emit. destruct (run_callback cb s') as [u|e].
      * destruct (IH (mkBeh (b_phase b) (b_revision b) (b_state b) (b_pending b) (b_suspended b)
          (b_out b ++ [OCallback cb s']))) as (r & outs & He & Ho).
        exists r, (OCallback cb s' :: outs). simpl in He. rewrite He, <- app_assoc.
        split; [done|]. constructor; [by eauto|done].
      * exists (Err e), [OCallback cb s']. split; [done|]. constructor; [by eauto|done].
    + exists (Err e), []. rewrite app_nil_r. by destruct b.
Qed.

Lemma callbacks_ok log rev s outs :
  committed log rev s ->
  Forall (fun o : output => exists cb s', o = OCallback cb s' /\ copy s = Ok s') outs ->
  Forall (out_ok log) outs /\ requests_of outs = [].
Proof.
  intros Hc. induction 1 as [|o outs (cb & s' & -> & Hs) _ [IH1 IH2]]; [done|].
  split; [|done]. constructor; [|done]. by exists rev, s.
Qed.

(** Running callbacks on a committed state and then stopping or going on. *)
Lemma callbacks_then_post log b s cbs (stop : bool) (k : M (S := S) (CB := CB) unit) :
  b_phase b = RUNNING -> b_state b = Some s -> committed log (b_revision b) s -> b_pending b = None ->
  k = (if stop then request_stop else set_suspended false) \/ k = (if stop then request_stop else m_ret tt) ->
  post log b (m_bind (run_callbacks encode decode run_callback cbs s) (fun _ => k) b).
Proof.
  intros Hph Hst Hc Hpe Hk. unfold m_bind.
  destruct (run_callbacks_spec cbs s b) as (r & outs & -> & Ho).
  destruct (callbacks_ok _ _ _ _ Hc Ho) as [Ho1 Ho2]. destruct r as [u|e].
  - destruct Hk as [-> | ->]; destruct stop.
    1,3: exists (outs ++ [OStop]); simpl; rewrite app_assoc; split_and!;
      [done|by apply Forall_app; split; [|constructor]|left; simpl];
      unfold requests_of in *; by rewrite omap_app, Ho2.
    all: exists outs; split_and!; [done|done|]; unfold beh_ok; simpl;
      rewrite Hph, Ho2; split_and!; [done|done|by exists s].
  - exists outs. by split_and!.
Qed.

Lemma finish_post log b pe (apply : bool) s :
  b_pending b = Some pe ->
  (if apply then s = pe_state pe else b_state b = Some s) -> committed log (b_revision b) s ->
  post log b (finish_pending_effect encode decode run_callback apply b).
Proof.
  intros Hp Hs Hc. unfold finish_pending_effect. rewrite Hp.
  set (b1 := mkBeh RUNNING (b_revision b) (Some s) None (b_suspended b) (b_out b)).
  pose proof (callbacks_then_post log b1 s (pe_callbacks pe) (pe_stop pe) _ eq_refl eq_refl Hc eq_refl
    (or_introl eq_refl)) as Hpost.
  destruct apply; subst; unfold m_bind, set_pending, set_state, set_phase, m_ret, current_state; simpl in *.
  - exact Hpost.
  - rewrite Hs. exact Hpost.
Qed.

Lemma recovered_committed log record st rev :
  record_ok log record -> recovered encode decode empty_state record = Ok (st, rev) ->
  committed log rev st.
Proof.
  unfold recovered. destruct record as [r|].
  - intros (c & Hc & Hm & Hp & Hd). rewrite Hm, Hp, Hd.
    destruct (c_content c) as [[m b]|] eqn:Hcc; simpl; intros H; inv_run; right; exists c;
      (split; [done|]); rewrite Hcc; simpl; [right; by eexists|by eexists].
  - intros _ H. inv_run. left. split; [done|]. by eexists.
Qed.

Lemma complete_recovery_post log b record dup :
  record_ok log record -> (dup = false -> b_pending b = None) ->
  post log b (complete_recovery encode decode empty_state on_recovery_completed run_callback
                record None dup b).
Proof.
  intros Hrec Hdup. unfold complete_recovery, m_bind at 1, m_ret.
  unfold m_bind at 1, m_catch, m_lift.
  destruct (recovered encode decode empty_state record) as [[st rev]|e] eqn:Hr;
    [|by apply post_raise].
  pose proof (recovered_committed _ _ _ _ Hrec Hr) as Hc.
  unfold m_bind, set_state, set_revision. cbn [fst snd b_phase b_revision b_state b_pending b_suspended b_out].
  destruct (copy st) as [s'|e] eqn:Hcp; [|by apply post_raise].
  destruct (on_recovery_completed s' rev) as [u|e]; [|by apply post_raise].
  set (b1 := mkBeh (b_phase b) rev (Some st) (b_pending b) (b_suspended b) (b_out b)).
  destruct dup.
  - destruct (b_pending b) as [pe|] eqn:Hpe.
    + apply (finish_post log b1 pe false st); done.
    + apply post_raise. unfold finish_pending_effect. done.
  - exists []. rewrite app_nil_r. split_and!; [done|constructor|].
    unfold beh_ok. simpl. rewrite (Hdup eq_refl). split_and!; [done|done|by exists st].
Qed.

Lemma complete_write_post log b pe w submit :
  b_suspended b = true -> b_pending b = Some pe ->
  (wr_duplicate w = false -> wr_revision w = b_revision b + 1 ->
   committed log (b_revision b + 1) (pe_state pe)) ->
  post log b (complete_write encode decode run_callback submit (Some w) None b).
Proof.
  intros Hsus Hpe Hc. unfold complete_write. destruct (wr_duplicate w).
  - unfold begin_recovery, m_bind, set_phase, m_catch, submit_request.
    destruct submit as [e|]; [by apply post_raise|]. exists [OSubmit (RLoad true)].
    split_and!; [done|by constructor|]. unfold beh_ok. simpl. split; [done|].
    exists (inl (RLoad true)), true. done.
  - destruct (Z.eqb_spec (wr_revision w) (b_revision b + 1)) as [He|]; [|by apply post_raise].
    unfold m_bind at 1, set_revision. rewrite He.
    apply (finish_post log (mkBeh (b_phase b) (b_revision b + 1) (b_state b) (b_pending b)
      (b_suspended b) (b_out b)) pe true (pe_state pe)); try done. simpl. by apply Hc.
Qed.

Lemma deliver_post log b f c submit :
  beh_ok log b [f] -> f = inr c ->
  post log b (deliver encode decode empty_state on_recovery_completed run_callback submit c b).
Proof.
  intros Hb ->.
  assert (Hload : load_waits log b [inr c] ->
    post log b (deliver encode decode empty_state on_recovery_completed run_callback submit c b)).
  { intros (f & dup & [= <-] & Hf & Hdup). destruct c as [record [e|] d|]; simpl in Hf; [| |done].
    - by apply post_raise.
    - destruct Hf as [-> Hrec]. by apply complete_recovery_post. }
  assert (Hwrite : b_suspended b = true -> write_waits log b [inr c] ->
    post log b (deliver encode decode empty_state on_recovery_completed run_callback submit c b)).
  { intros Hsus (pe & st & f & Hpe & Hst & Hc & [= <-] & Hf).
    destruct c as [|[w|] [e|]]; simpl in Hf; [done| | | |]; try by apply post_raise.
    by eapply complete_write_post. }
  unfold beh_ok in Hb. destruct (b_phase b).
  - destruct Hb as [_ ?]. by apply Hload.
  - by destruct Hb as (_ & ? & _).
  - destruct Hb as [? ?]. by apply Hwrite.
  - destruct Hb as [?|[? [?|?]]]; [done|by apply Hload|by apply Hwrite].
Qed.

(** The request a persist or delete effect makes matches its candidate. *)
Lemma candidate_request log rev (e : DurableEffect S CB) cand enc o :
  candidate_of encode decode empty_state e = Ok (cand, enc) ->
  write_flight log rev cand
    (inl (match enc with None => RDelete rev o
          | Some x => RUpsert rev o (enc_manifest x) (enc_payload x) end)).
Proof.
  unfold candidate_of. destruct (eff_kind e).
  - intros H. inv_run. simpl. split; [done|]. by eexists.
  - destruct (eff_state e); [|done]. intros H. inv_run. simpl. done.
  - intros H. inv_run. simpl. split; [done|]. by eexists.
Qed.

Lemma receive_post log b cmd submit :
  beh_ok log b [] -> b_suspended b = false -> b_phase b <> STOPPING ->
  b_phase b = RUNNING /\
  post log b (receive encode decode empty_state handle_command run_callback submit cmd b).
Proof.
  intros Hb Hsus Hns. unfold beh_ok in Hb.
  destruct (b_phase b) eqn:Hph; [by destruct Hb; congruence| |by destruct Hb; congruence|done].
  split; [done|]. destruct Hb as (Hpe & _ & st & Hst & Hc).
  unfold receive. rewrite Hph, bool_decide_eq_true_2 by done.
  unfold process_command, m_bind at 1, current_state. rewrite Hst.
  unfold m_bind at 1, m_lift. destruct (copy st) as [s'|e]; [|by apply post_raise].
  unfold m_bind at 1. destruct (handle_command s' cmd) as [e|e]; [|by apply post_raise].
  destruct (eff_kind e) eqn:Hk.
  { unfold m_bind at 1. rewrite Hst. apply (callbacks_then_post log b st _ (eff_stop e)); try done. by right. }
  all: unfold m_catch; destruct (eff_op e) as [o|]; [|by apply post_raise];
    unfold m_bind, m_lift; destruct (candidate_of encode decode empty_state e) as [[cand enc]|x] eqn:Hcand;
    [|by apply post_raise]; unfold set_pending, set_phase, set_suspended, submit_request; simpl;
    (destruct submit as [x|]; [by apply post_raise|]);
    eexists [OSubmit _]; (split_and!; [done|by constructor|]); unfold beh_ok; simpl;
    (split; [done|]); eexists _, st, _; (split_and!; [done|done|done|done|]);
    by apply (candidate_request log (b_revision b) e cand enc o).
Qed.

Lemma init_post log submit :
  post log blank (init (S := S) (CB := CB) submit).
Proof.
  unfold init, begin_recovery, m_bind, set_suspended, set_phase, m_catch, submit_request. simpl.
  destruct submit as [e|]; [by apply post_raise|]. exists [OSubmit (RLoad false)].
  split_and!; [done|by constructor|]. unfold beh_ok. simpl. split; [done|].
  exists (inl (RLoad false)), false. done.
Qed.

(** * Operations in flight *)

Lemma spec_load_record log : record_ok log (spec_load log p).
Proof.
  unfold spec_load. destruct (latest p log) as [c|] eqn:Hl; simpl; [|done].
  exists c. split_and!; try done. by apply latest_commit_at.
Qed.

(** A committed write gives the entity the revision it reports, with its content. *)
Lemma write_commits env expected o c now log d w d' :
  represents log d -> projections_ok d -> sizes_ok cap log -> opid_ok o ->
  0 < now <= INT64_MAX -> high_watermark d < INT64_MAX ->
  write cap env p expected o c now d = (w, d') ->
  exists ext, represents (log ++ ext) d' /\ projections_ok d' /\ sizes_ok cap (log ++ ext)
    /\ forall rev, w = Ok (mkWrite rev false) ->
         exists x, commit_at (log ++ ext) rev = Some x /\ c_content x = c.
Proof.
  intros H Hp Hs Ho Hnow Hw Hrun.
  assert (Hstep : store_step cap d d').
  { destruct c as [[m b]|]; simpl in Hrun; [by eapply step_upsert|by eapply step_delete]. }
  destruct w as [[rev []]|e].
  1,3: destruct (store_step_extends cap cap_pos log d d' H Hp Hs Hstep) as (ext & ? & ? & ?);
    exists ext; by split_and!.
  assert (Hacc : exists fp, accepted cap expected c fp).
  { unfold write, upsert, delete_state, accepted in *. destruct c as [[m b]|].
    - destruct (upsert_checks _ _ _ _) as [[n fp]|]; [|done]. by exists fp, n.
    - destruct (delete_checks _) as [fp|]; [|done]. by exists fp. }
  destruct Hacc as [fp Hacc]. pose proof (accepted_fits _ _ _ _ cap_pos Hacc) as Hfits.
  rewrite (rep_watermark _ _ H) in Hw.
  destruct (write_committed cap env p expected o c fp now log d rev d' H Hp p_ok Ho Hw Hnow Hacc Hrun)
    as (H' & Hp' & _ & ->).
  exists [mkCommit p o c fp now]. split_and!; try done.
  - apply Forall_app. split; [done|]. by constructor.
  - intros rev [= <-]. exists (mkCommit p o c fp now). split; [by apply commit_at_last|done].
Qed.

Lemma exec_write r : match r with
  | RUpsert e o m b => forall timely env now d,
      exec r timely env now d = (write_completion (write cap env p e o (Some (m, b)) now d).1,
                                 (write cap env p e o (Some (m, b)) now d).2)
  | RDelete e o => forall timely env now d,
      exec r timely env now d = (write_completion (write cap env p e o None now d).1,
                                 (write cap env p e o None now d).2)
  | RLoad _ => True
  end.
Proof. destruct r; [done| |]; intros; simpl; by case_match. Qed.

(** Running an operation in flight: the completion says what is committed. *)
Lemma exec_ok r timely env now c log d d' :
  represents log d -> projections_ok d -> sizes_ok cap log -> request_ok r ->
  0 < now <= INT64_MAX -> high_watermark d < INT64_MAX ->
  exec r timely env now d = (c, d') ->
  exists ext, represents (log ++ ext) d' /\ projections_ok d' /\ sizes_ok cap (log ++ ext)
    /\ (forall dup, load_flight log dup (inl r) -> load_flight (log ++ ext) dup (inr c))
    /\ (forall rev cand, write_flight log rev cand (inl r) -> write_flight (log ++ ext) rev cand (inr c)).
Proof.
  intros H Hp Hs Hr Hnow Hw He.
  assert (Hwrite : forall cont o e w, (w, d') = write cap env p e o cont now d -> opid_ok o ->
    c = write_completion w ->
    (forall cand rev, write_flight log rev cand (inl r) -> forall ct, ct = cont -> state_for ct cand) ->
    (forall dup, load_flight log dup (inl r) -> False) ->
    exists ext, represents (log ++ ext) d' /\ projections_ok d' /\ sizes_ok cap (log ++ ext)
      /\ (forall dup, load_flight log dup (inl r) -> load_flight (log ++ ext) dup (inr c))
      /\ (forall rev cand, write_flight log rev cand (inl r) -> write_flight (log ++ ext) rev cand (inr c))).
  { intros cont o e w Hwr Ho -> Hcand Hload.
    destruct (write_commits env e o cont now log d w d' H Hp Hs Ho Hnow Hw (eq_sym Hwr))
      as (ext & ? & ? & ? & Hcom).
    exists ext. split_and!; try done; [intros dup Hd; by destruct (Hload dup)|].
    intros rev cand Hf. pose proof (Hcand _ _ Hf _ eq_refl) as Hst.
    destruct w as [[rev' dupl]|]; simpl; [|done]. intros -> ->.
    destruct (Hcom _ eq_refl) as (x & Hx & Hcx). right. exists x. split; [done|]. by rewrite Hcx. }
  destruct r as [dup|e o m b|e o].
  - simpl in He. injection He as <- <-. exists []. rewrite app_nil_r. split_and!; try done.
    intros dup' ->. unfold load_completion. destruct (load cap timely p d) as [rec|] eqn:Hl; [|done].
    split; [done|]. assert (timely = true) as -> by (by destruct timely).
    rewrite (load_refines cap log d p H Hs) in Hl. injection Hl as <-. apply spec_load_record.
  - rewrite (exec_write (RUpsert e o m b)) in He. injection He as <- Hd.
    apply (Hwrite (Some (m, b)) o e (write cap env p e o (Some (m, b)) now d).1); try done.
    + by rewrite <- Hd, <- surjective_pairing.
    + intros cand rev [_ Hf] ct ->. by left.
  - rewrite (exec_write (RDelete e o)) in He. injection He as <- Hd.
    apply (Hwrite None o e (write cap env p e o None now d).1); try done.
    + by rewrite <- Hd, <- surjective_pairing.
    + intros cand rev [_ Hf] ct ->. done.
Qed.

(** * Preservation *)

Lemma after_method_inv log st fl rb :
  represents log (s_db st) -> projections_ok (s_db st) -> sizes_ok cap log ->
  Forall (out_ok log) (b_out (s_beh st)) ->
  Forall (fun f => (f.1 <= s_gen st)%nat) fl -> mine (s_gen st) fl = [] ->
  post log (s_beh st) rb -> sys_inv (after_method st fl rb).
Proof.
  intros H Hp Hs Hout Hfl Hm (outs & Ho & Houts & Hb). exists log. destruct rb as [r b].
  simpl in Ho, Hb. unfold after_method. simpl. rewrite Ho, drop_app_length.
  split_and!; try done.
  - destruct r; simpl; rewrite ?Ho; by apply Forall_app.
  - apply Forall_app. split; [done|]. apply Forall_fmap, Forall_forall. intros x _. simpl. lia.
  - rewrite mine_app, Hm, mine_new. destruct r as [[]|]; [by apply Hb|]. left. by rewrite Hb.
Qed.

Lemma beh_ok_single log b fl g i c :
  beh_ok log b (mine g fl) -> fl !! i = Some (g, inr c) ->
  mine g fl = [inr c] /\ mine g (delete i fl) = [].
Proof.
  intros Hb Hi.
  assert (Hload : load_waits log b (mine g fl) -> exists f, mine g fl = [f]).
  { intros (f & dup & Hf & _). by exists f. }
  assert (Hwrite : write_waits log b (mine g fl) -> exists f, mine g fl = [f]).
  { intros (pe & st & f & _ & _ & _ & Hf & _). by exists f. }
  assert (Hsome : mine g fl <> []).
  { rewrite (mine_split _ _ _ _ Hi). by destruct (mine g (take i fl)). }
  assert (Hone : exists f, mine g fl = [f]).
  { unfold beh_ok in Hb. destruct (b_phase b); naive_solver. }
  destruct Hone as [f Hf]. destruct (mine_single _ _ _ _ _ Hi Hf) as (-> & Hd & _). done.
Qed.

Lemma beh_ok_exec log log' b fl g i r c :
  beh_ok log b (mine g fl) -> fl !! i = Some (g, inl r) ->
  (exists ext, log' = log ++ ext) ->
  (forall dup, load_flight log dup (inl r) -> load_flight log' dup (inr c)) ->
  (forall rev cand, write_flight log rev cand (inl r) -> write_flight log' rev cand (inr c)) ->
  beh_ok log' b (mine g (<[i := (g, inr c)]> fl)).
Proof.
  intros Hb Hi [ext ->] Hl Hw.
  assert (Hload : load_waits log b (mine g fl) ->
    load_waits (log ++ ext) b (mine g (<[i := (g, inr c)]> fl))).
  { intros (f & dup & Hf & Hlf & Hd). destruct (mine_single _ _ _ _ _ Hi Hf) as (<- & _ & Hn).
    exists (inr c), dup. split_and!; [apply Hn|by apply Hl|done]. }
  assert (Hwrite : write_waits log b (mine g fl) ->
    write_waits (log ++ ext) b (mine g (<[i := (g, inr c)]> fl))).
  { intros (pe & st & f & Hpe & Hst & Hc & Hf & Hwf).
    destruct (mine_single _ _ _ _ _ Hi Hf) as (<- & _ & Hn).
    exists pe, st, (inr c). split_and!; [done|done|by apply committed_grow|apply Hn|by apply Hw]. }
  assert (Hsome : mine g fl <> []).
  { rewrite (mine_split _ _ _ _ Hi). by destruct (mine g (take i fl)). }
  unfold beh_ok in *. destruct (b_phase b); naive_solver.
Qed.

Lemma sys_step_inv st st' : sys_inv st -> sys_step st st' -> sys_inv st'.
Proof.
  intros (log & H & Hp & Hs & Hout & Hfl & Hb) Hstep.
  inversion Hstep as [d' Hst|i g r timely env now c d' Hi Hrq Hnow Hw He|i c submit Hi
    |i g c Hi Hne|cmd submit Hsus Hns| |submit rb Hinit]; subst.
  - destruct (store_step_extends cap cap_pos log _ d' H Hp Hs Hst) as (ext & ? & ? & ?).
    exists (log ++ ext). split_and!; try done; [|by apply beh_ok_grow].
    eapply Forall_impl; [exact Hout|]. intros. by apply out_ok_grow.
  - destruct (exec_ok r timely env now c log _ d' H Hp Hs Hrq Hnow Hw He)
      as (ext & ? & ? & ? & Hl & Hwf).
    exists (log ++ ext). simpl. split_and!; try done.
    + eapply Forall_impl; [exact Hout|]. intros. by apply out_ok_grow.
    + apply Forall_insert; [done|]. exact (Forall_lookup_1 _ _ _ _ Hfl Hi).
    + destruct (decide (g = s_gen st)) as [->|Hne].
      * eapply beh_ok_exec; eauto.
      * rewrite (proj2 (mine_other _ _ _ _ _ Hi Hne)). by apply beh_ok_grow.
  - destruct (beh_ok_single _ _ _ _ _ _ Hb Hi) as [Hm Hd].
    apply (after_method_inv log); try done; [by apply Forall_delete|].
    eapply deliver_post; [|done]. by rewrite <- Hm.
  - exists log. simpl. split_and!; try done; [by apply Forall_delete|].
    by rewrite (proj1 (mine_other _ _ _ _ _ Hi Hne)).
  - assert (Hm : mine (s_gen st) (s_flight st) = []).
    { unfold beh_ok in Hb. destruct (b_phase (s_beh st)); [by destruct Hb; congruence|by destruct Hb as (_ & ? & _)
        |by destruct Hb; congruence|done]. }
    apply (after_method_inv log); try done. rewrite Hm in Hb. by apply receive_post.
  - exists log. split_and!; try done. unfold beh_ok in Hb |- *. simpl.
    destruct (b_phase (s_beh st)); naive_solver.
  - apply (after_method_inv log); try done; simpl.
    + eapply Forall_impl; [exact Hfl|]. simpl. lia.
    + unfold mine. rewrite filter_Forall_nil; [done|]. eapply Forall_impl; [exact Hfl|]. simpl. lia.
    + apply init_post.
Qed.

Lemma durable_reachable_inv log0 d0 st :
  represents log0 d0 -> projections_ok d0 -> sizes_ok cap log0 ->
  rtc sys_step (sys0 d0) st -> sys_inv st.
Proof.
  intros H Hp Hs Hsteps. refine (rtc_ind_r sys_inv _ _ _ st Hsteps).
  - exists log0. split_and!; try done; [constructor..|by left].
  - intros st1 st2 _ Hstep H1. by eapply sys_step_inv.
Qed.

(** C8.  Only committed states are published: in every execution (commands,
    failures, restarts, late completions, other writers on the same entity), whatever
    callbacks the current behaviour ran were given copies of states some revision of
    the entity holds in the log, and whenever it accepts commands its state and
    revision are such a pair. *)
Theorem published_states_committed log0 d0 st :
  represents log0 d0 -> projections_ok d0 -> sizes_ok cap log0 ->
  rtc sys_step (sys0 d0) st ->
  exists log, represents log (s_db st)
    /\ (forall cb s, OCallback cb s ∈ b_out (s_beh st) ->
           exists rev state, committed log rev state /\ copy state = Ok s)
    /\ (b_phase (s_beh st) = RUNNING ->
           exists state, b_state (s_beh st) = Some state /\ committed log (b_revision (s_beh st)) state).
Proof.
  intros H Hp Hs Hsteps.
  pose proof (durable_reachable_inv _ _ _ H Hp Hs Hsteps) as Hinv.
  destruct Hinv as (log & Hrep & _ & _ & Hout & _ & Hb). exists log. split_and!; [done| |].
  - intros cb s Hin. exact (proj1 (Forall_forall _ _) Hout _ Hin).
  - intros Hph. unfold beh_ok in Hb. rewrite Hph in Hb. by destruct Hb as (_ & _ & ?).
Qed.

(** The guard of [receive] never fires: in every execution, when the
    mailbox may deliver user messages to a behaviour that is not stopping, the
    behaviour is in its running phase. *)
Theorem commands_only_when_running log0 d0 st :
  represents log0 d0 -> projections_ok d0 -> sizes_ok cap log0 ->
  rtc sys_step (sys0 d0) st ->
  b_suspended (s_beh st) = false -> b_phase (s_beh st) <> STOPPING ->
  b_phase (s_beh st) = RUNNING.
Proof.
  intros H Hp Hs Hsteps Hsus Hns.
  pose proof (durable_reachable_inv _ _ _ H Hp Hs Hsteps) as Hinv.
  destruct Hinv as (log & _ & _ & _ & _ & _ & Hb). unfold beh_ok in Hb.
  destruct (b_phase (s_beh st)); try done; destruct Hb; congruence.
Qed.
End System.

(** * A run: recovery, one command, its commit *)

Module DurableRun.
Import StoreRun.

(** A counter whose commands add to it; its state is one byte. *)
Definition enc (n : Z) : result EncodedState := Ok (mkEncoded (lit "n") [n mod 256]).
Definition dec (_ : pystr) (b : bytes) : result Z :=
  match b with [n] => Ok n | _ => Err ValueError end.
Definition add (s cmd : Z) : result (DurableEffect Z unit) :=
  Ok (then_run (persist_effect (s + cmd) (mkOpid cmd)) tt).
Definition quiet (_ _ : Z) : result unit := Ok tt.
Definition shown (_ : unit) (_ : Z) : result unit := Ok tt.

Abbreviation step := (sys_step enc dec (Ok 0) add quiet shown cap0 p0).

Abbreviation csys := (sys (S := Z) (CB := unit)).

Definition t0 : csys := sys0 empty_db.
Definition t1 : csys := after_method (mkSys empty_db 1 blank []) [] (init None).
Definition e1 : completion * db := exec cap0 p0 (RLoad false) true ok_env 1000 empty_db.
Definition t2 : csys := mkSys e1.2 1 (s_beh t1) [(1%nat, inr e1.1)].
Definition t3 : csys := after_method t2 [] (deliver enc dec (Ok 0) quiet shown None e1.1 (s_beh t2)).
Definition t4 : csys := after_method t3 [] (receive enc dec (Ok 0) add shown None 5 (s_beh t3)).
Definition e2 : completion * db := exec cap0 p0 (RUpsert 0 (mkOpid 5) (lit "n") [5]) true ok_env 1000 e1.2.
Definition t5 : csys := mkSys e2.2 1 (s_beh t4) [(1%nat, inr e2.1)].
Definition t6 : csys := after_method t5 [] (deliver enc dec (Ok 0) quiet shown None e2.1 (s_beh t5)).

Lemma t6_reached : rtc step t0 t6.
Proof.
  eapply rtc_l; [exact (ss_restart enc dec (Ok 0) add quiet shown cap0 p0 t0 None _ eq_refl)|].
  eapply rtc_l; [exact (ss_exec enc dec (Ok 0) add quiet shown cap0 p0 t1 0 1 (RLoad false) true ok_env 1000
    e1.1 e1.2 eq_refl I (now_ok 1000 ltac:(lia)) ltac:(by vm_compute) (surjective_pairing e1))|].
  eapply rtc_l; [exact (ss_deliver enc dec (Ok 0) add quiet shown cap0 p0 t2 0 e1.1 None eq_refl)|].
  eapply rtc_l; [refine (ss_command enc dec (Ok 0) add quiet shown cap0 p0 t3 5 None _ _); by vm_compute|].
  eapply rtc_l; [refine (ss_exec enc dec (Ok 0) add quiet shown cap0 p0 t4 0 1
    (RUpsert 0 (mkOpid 5) (lit "n") [5]) true ok_env 1000 e2.1 e2.2 _ _ (now_ok 1000 ltac:(lia)) _
    (surjective_pairing e2)); by vm_compute|].
  apply rtc_once.
  exact (ss_deliver enc dec (Ok 0) add quiet shown cap0 p0 t5 0 e2.1 None eq_refl).
Qed.

Lemma published_states_committed_witness :
  b_phase (s_beh t6) = RUNNING /\ b_state (s_beh t6) = Some 5 /\ b_revision (s_beh t6) = 1 /\
  exists log, represents log (s_db t6)
    /\ (forall cb s, OCallback cb s ∈ b_out (s_beh t6) ->
           exists rev state, committed enc dec (Ok 0) p0 log rev state /\ copy_state enc dec state = Ok s)
    /\ (b_phase (s_beh t6) = RUNNING ->
           exists state, b_state (s_beh t6) = Some state
             /\ committed enc dec (Ok 0) p0 log (b_revision (s_beh t6)) state).
Proof.
  split; [by vm_compute|]. split; [by vm_compute|]. split; [by vm_compute|].
  exact (published_states_committed enc dec (Ok 0) add quiet shown cap0 p0 eq_refl p0_ok
    [] empty_db t6 represents_empty projections_ok_empty sizes0 t6_reached).
Defined.

Lemma commands_only_when_running_witness : b_phase (s_beh t6) = RUNNING.
Proof.
  refine (commands_only_when_running enc dec (Ok 0) add quiet shown cap0 p0 eq_refl p0_ok
    [] empty_db t6 represents_empty projections_ok_empty sizes0 t6_reached _ _); by vm_compute.
Defined.
End DurableRun.
