(* ===== verification/StoreAdmission.v ===== *)
(** Admission, startup and shutdown of [SQLiteDurableStateStore].

    The bookkeeping under the store's condition variable: lifecycle state, operations
    pending on the I/O worker with the bytes they retain, operations admitted for
    projections, and the connection.  Each critical section is one step; the waits of
    [start] and [_stop_before] are the points between them.  At the end, the settings
    [DurableStateExtension.start] accepts. *)

From stdpp Require Import base list numbers strings gmap fin_maps.
From S2P Require Import Prelude Bytes PyStr.

Inductive life := LNew | LStarting | LRunning | LStopping | LStopped.

#[global] Instance life_eq_dec : EqDecision life.
Proof. solve_decision. Defined.

Record limits := mkLimits { operation_capacity : Z; pending_bytes_capacity : Z }.

Record admission := mkAdm {
  a_life : life;
  a_pending : gmap nat Z;         (* [_pending]: the future of each operation, by identity *)
  a_next : nat;                   (* futures created so far *)
  a_internal : Z;                 (* [_internal_operations] *)
  a_pending_bytes : Z;
  a_startup : bool;               (* [_startup] is set *)
  a_settled : bool;               (* [_startup_settled] *)
  a_startup_error : option exn;
  a_connection : bool;            (* [_connection] is set *)
  a_closing : bool }.             (* [_close] is set: closing was handed to the worker *)

Definition new_admission : admission := mkAdm LNew ∅ 0 0 0 false false None false false.

Section Admission.
Variable lim : limits.

(** [pending_operations]. *)
Definition outstanding (a : admission) : Z := Z.of_nat (size (a_pending a)) + a_internal a.

(** The first critical section of [start]; [submit] is the exception of the worker. *)
Definition begin_start (submit : option exn) (a : admission) : result unit * admission :=
  if bool_decide (a_life a = LNew) then
    match submit with
    | Some e => (Err e, mkAdm LStopped (a_pending a) (a_next a) (a_internal a) (a_pending_bytes a)
                          (a_startup a) (a_settled a) (a_startup_error a) (a_connection a) (a_closing a))
    | None => (Ok tt, mkAdm LStarting (a_pending a) (a_next a) (a_internal a) (a_pending_bytes a)
                        true (a_settled a) (a_startup_error a) (a_connection a) (a_closing a))
    end
  else (Err RuntimeError, a).

(** [_complete_startup]. *)
Definition complete_startup (opened : option exn) (a : admission) : admission :=
  match opened with
  | Some e =>
      mkAdm (if bool_decide (a_life a = LStarting) then LStopped else a_life a) (a_pending a) (a_next a)
        (a_internal a) (a_pending_bytes a) (a_startup a) true (Some e) (a_connection a) (a_closing a)
  | None =>
      mkAdm (if bool_decide (a_life a = LStarting) then LRunning else a_life a) (a_pending a) (a_next a)
        (a_internal a) (a_pending_bytes a) (a_startup a) true (a_startup_error a) true (a_closing a)
  end.

(** The outcome of [start] once startup settled. *)
Definition start_outcome (a : admission) : result unit :=
  if bool_decide (a_life a = LRunning) then Ok tt else Err (default RuntimeError (a_startup_error a)).

(** [_submit]; [full] says that the worker refuses the command. *)
Definition submit (retained : Z) (full : bool) (a : admission) : result nat * admission :=
  if negb (bool_decide (a_life a = LRunning)) then (Err RuntimeError, a)
  else if operation_capacity lim <=? outstanding a then (Err PersistenceCapacityError, a)
  else if pending_bytes_capacity lim <? a_pending_bytes a + retained then (Err PersistenceCapacityError, a)
  else if full then (Err PersistenceCapacityError, a)
  else (Ok (a_next a),
        mkAdm (a_life a) (<[a_next a := retained]> (a_pending a)) (Datatypes.S (a_next a)) (a_internal a)
          (a_pending_bytes a + retained) (a_startup a) (a_settled a) (a_startup_error a)
          (a_connection a) (a_closing a)).

(** The critical section of [complete], the done callback of [_submit]. *)
Definition complete (source : nat) (a : admission) : admission :=
  mkAdm (a_life a) (delete source (a_pending a)) (a_next a) (a_internal a)
    (a_pending_bytes a - default 0 (a_pending a !! source)) (a_startup a) (a_settled a)
    (a_startup_error a) (a_connection a) (a_closing a).

(** Entering and leaving [_projection_operation]. *)
Definition enter_projection (a : admission) : result unit * admission :=
  if negb (bool_decide (a_life a = LRunning) || bool_decide (a_life a = LStopping)) then (Err RuntimeError, a)
  else if operation_capacity lim <=? outstanding a then (Err PersistenceCapacityError, a)
  else (Ok tt, mkAdm (a_life a) (a_pending a) (a_next a) (a_internal a + 1) (a_pending_bytes a)
                 (a_startup a) (a_settled a) (a_startup_error a) (a_connection a) (a_closing a)).
Definition leave_projection (a : admission) : admission :=
  mkAdm (a_life a) (a_pending a) (a_next a) (a_internal a - 1) (a_pending_bytes a)
    (a_startup a) (a_settled a) (a_startup_error a) (a_connection a) (a_closing a).

(** [_resources]: the connection an operation works on. *)
Definition resources (a : admission) : result unit := raise_unless (a_connection a) RuntimeError.

Definition prepare_stop (a : admission) : admission :=
  mkAdm (match a_life a with LStarting | LRunning => LStopping | l => l end) (a_pending a) (a_next a)
    (a_internal a) (a_pending_bytes a) (a_startup a) (a_settled a) (a_startup_error a)
    (a_connection a) (a_closing a).

(** The first critical section of [_stop_before], up to its waits: [true] when there
    is nothing more to do. *)
Definition stop_request (a : admission) : bool * admission :=
  match a_life a with
  | LStopped => (true, a)
  | l => (bool_decide (l = LNew),
          mkAdm (if bool_decide (l = LNew) then LStopped else LStopping) (a_pending a) (a_next a)
            (a_internal a) (a_pending_bytes a) (a_startup a) (a_settled a) (a_startup_error a)
            (a_connection a) (a_closing a))
  end.

(** The condition its waits wait for. *)
Definition drained (a : admission) : bool :=
  (negb (a_startup a) || a_settled a) && bool_decide (a_pending a = ∅) && (a_internal a =? 0).

(** [_submit_close], and the last critical section once the close completed. *)
Definition submit_close (a : admission) : admission :=
  mkAdm (a_life a) (a_pending a) (a_next a) (a_internal a) (a_pending_bytes a) (a_startup a)
    (a_settled a) (a_startup_error a) (a_connection a) true.
Definition finish_stop (a : admission) : admission :=
  mkAdm LStopped (a_pending a) (a_next a) (a_internal a) (a_pending_bytes a) (a_startup a)
    (a_settled a) (a_startup_error a) false (a_closing a).

(** * The transition system *)

(** [stopping]: the thread in [_stop_before] has seen the store drained. *)
Inductive adm_step : bool * admission -> bool * admission -> Prop :=
| ad_start s a e r a' : begin_start e a = (r, a') -> adm_step (s, a) (s, a')
| ad_started s a e : a_life a <> LNew -> a_settled a = false ->
    adm_step (s, a) (s, complete_startup e a)
| ad_submit s a n full r a' : 0 <= n -> submit n full a = (r, a') -> adm_step (s, a) (s, a')
| ad_complete s a i : is_Some (a_pending a !! i) -> adm_step (s, a) (s, complete i a)
| ad_enter s a r a' : enter_projection a = (r, a') -> adm_step (s, a) (s, a')
| ad_leave s a : 0 < a_internal a -> adm_step (s, a) (s, leave_projection a)
| ad_prepare s a : adm_step (s, a) (s, prepare_stop a)
| ad_stop s a r a' : stop_request a = (r, a') -> adm_step (s, a) (s, a')
| ad_drained a : a_life a = LStopping -> drained a = true -> adm_step (false, a) (true, a)
| ad_close a : a_connection a = true -> adm_step (true, a) (true, submit_close a)
| ad_finish a : a_closing a = true \/ a_connection a = false -> adm_step (true, a) (true, finish_stop a).

Definition pending_sum (m : gmap nat Z) : Z := map_fold (fun _ n acc => n + acc) 0 m.

Record adm_inv (a : admission) : Prop := {
  ai_sum : a_pending_bytes a = pending_sum (a_pending a);
  ai_bytes : 0 <= a_pending_bytes a <= pending_bytes_capacity lim;
  ai_internal : 0 <= a_internal a;
  ai_ops : outstanding a <= operation_capacity lim;
  ai_fresh : map_Forall (fun i n => (i < a_next a)%nat /\ 0 <= n) (a_pending a) }.

Lemma pending_sum_insert m i n : m !! i = None -> pending_sum (<[i := n]> m) = n + pending_sum m.
Proof.
  intros Hi. unfold pending_sum. rewrite map_fold_insert_L; [done| |done]. intros. lia.
Qed.

Lemma pending_sum_delete m i n : m !! i = Some n -> pending_sum m = n + pending_sum (delete i m).
Proof.
  intros Hi. unfold pending_sum. rewrite (map_fold_delete_L _ _ i n); [done| |done]. intros. lia.
Qed.

Lemma pending_sum_nonneg m : map_Forall (fun _ n => 0 <= n) m -> 0 <= pending_sum m.
Proof.
  induction m as [|i n m Hi IH] using map_ind; intros Hm; [done|].
  rewrite pending_sum_insert by done. apply map_Forall_insert in Hm as [Hn Hm]; [|done].
  specialize (IH Hm). lia.
Qed.

(** Steps that leave the bookkeeping alone. *)
Lemma adm_inv_same a a' :
  a_pending a' = a_pending a -> a_next a' = a_next a -> a_internal a' = a_internal a ->
  a_pending_bytes a' = a_pending_bytes a -> adm_inv a -> adm_inv a'.
Proof.
  intros Hp Hn Hi Hb [H1 H2 H3 H4 H5].
  split; unfold outstanding in *; rewrite ?Hp, ?Hn, ?Hi, ?Hb; done.
Qed.

Lemma submit_inv n full a r a' : 0 <= n -> submit n full a = (r, a') -> adm_inv a -> adm_inv a'.
Proof.
  intros Hn Hs Ha. unfold submit in Hs. repeat case_match; injection Hs as <- <-; try done.
  destruct Ha as [Ha1 Ha2 Ha3 Ha4 Ha5].
  repeat match goal with H : (_ <=? _) = false |- _ => apply Z.leb_gt in H
                       | H : (_ <? _) = false |- _ => apply Z.ltb_ge in H end.
  assert (Hfresh : a_pending a !! a_next a = None).
  { destruct (a_pending a !! a_next a) as [x|] eqn:Hx; [|done]. destruct (Ha5 _ _ Hx). lia. }
  split; unfold outstanding in *; simpl.
  - rewrite pending_sum_insert by done. lia.
  - lia.
  - done.
  - rewrite map_size_insert_None by done. lia.
  - apply map_Forall_insert; [done|]. split; [lia|].
    eapply map_Forall_impl; [exact Ha5|]. simpl. intros i x [? ?]. lia.
Qed.

Lemma complete_inv i a : is_Some (a_pending a !! i) -> adm_inv a -> adm_inv (complete i a).
Proof.
  intros [n Hi] [Ha1 Ha2 Ha3 Ha4 Ha5]. pose proof (pending_sum_delete _ _ _ Hi) as Hsum.
  assert (0 <= pending_sum (delete i (a_pending a))).
  { apply pending_sum_nonneg, map_Forall_delete. eapply map_Forall_impl; [exact Ha5|]. naive_solver. }
  destruct (Ha5 _ _ Hi) as [_ Hn].
  split; unfold complete, outstanding in *; simpl; rewrite ?Hi; simpl; try lia.
  - rewrite map_size_delete_Some by eauto. lia.
  - by apply map_Forall_delete.
Qed.

Lemma adm_step_inv st st' : adm_step st st' -> adm_inv st.2 -> adm_inv st'.2.
Proof.
  inversion 1 as [s a e r a' Hs|s a e|s a n full r a' Hn Hs|s a i Hi|s a r a' He|s a Hi|s a|s a r a' Hs
    |a|a|a]; subst; simpl; intros Ha.
  - unfold begin_start in Hs. repeat case_match; injection Hs as <- <-; try done;
      by apply (adm_inv_same a).
  - unfold complete_startup. case_match; by apply (adm_inv_same a).
  - by eapply submit_inv.
  - by apply complete_inv.
  - unfold enter_projection in He. repeat case_match; injection He as <- <-; try done.
    destruct Ha as [Ha1 Ha2 Ha3 Ha4 Ha5].
    match goal with H : (_ <=? _) = false |- _ => apply Z.leb_gt in H end.
    split; unfold outstanding in *; simpl; try done; lia.
  - destruct Ha as [Ha1 Ha2 Ha3 Ha4 Ha5]. split; unfold outstanding in *; simpl; try done; lia.
  - by apply (adm_inv_same a).
  - unfold stop_request in Hs. case_match; injection Hs as <- <-; try done; by apply (adm_inv_same a).
  - done.
  - by apply (adm_inv_same a).
  - by apply (adm_inv_same a).
Qed.

(** Admission is bounded: whatever the interleaving of clients,
    projections, completions, startup and shutdown, the operations outstanding never
    exceed the configured capacity, and the bytes accounted are exactly the bytes the
    pending operations retain and never exceed their limit. *)
Theorem store_capacity_bounds st :
  0 <= operation_capacity lim -> 0 <= pending_bytes_capacity lim ->
  rtc adm_step (false, new_admission) st ->
  outstanding st.2 <= operation_capacity lim
  /\ a_pending_bytes st.2 = pending_sum (a_pending st.2)
  /\ 0 <= a_pending_bytes st.2 <= pending_bytes_capacity lim.
Proof.
  intros Hc Hb Hsteps.
  assert (Hinv : adm_inv st.2).
  { refine (rtc_ind_r (fun st => adm_inv st.2) _ _ _ st Hsteps).
    - by split.
    - intros s1 s2 _ Hstep H1. by eapply adm_step_inv. }
  by destruct Hinv.
Qed.
End Admission.

(** Between the moment [_stop_before] finds the store drained and the moment it marks it
    stopped, [_projection_operation] still admits: the connection can be closed while an
    admitted projection operation is outstanding. *)
Theorem stop_overtakes_projection :
  exists st, rtc (adm_step (mkLimits 4 100)) (false, new_admission) st
    /\ a_life st.2 = LStopped /\ a_connection st.2 = false /\ a_internal st.2 = 1.
Proof.
  eexists (true, _). split_and!.
  - eapply rtc_l; [eapply (ad_start _ false _ None); reflexivity|].
    eapply rtc_l; [apply (ad_started _ false _ None); done|].
    eapply rtc_l; [eapply (ad_stop _ false); reflexivity|].
    eapply rtc_l; [apply ad_drained; reflexivity|].
    eapply rtc_l; [eapply (ad_enter _ true); reflexivity|].
    eapply rtc_l; [apply ad_close; reflexivity|].
    eapply rtc_l; [apply ad_finish; by left|]. apply rtc_refl.
  - done.
  - done.
  - done.
Qed.

(** * The settings of the extension *)

(** [str.strip] of a path and its lower case, on the ASCII names of SQLite's own
    syntax. *)
Definition path_space (c : Z) : bool := (c =? 32) || in_range 9 13 c || in_range 28 31 c.
Fixpoint lstrip_path (s : pystr) : pystr :=
  match s with c :: s' => if path_space c then lstrip_path s' else s | [] => [] end.
Definition strip_path (s : pystr) : pystr := reverse (lstrip_path (reverse (lstrip_path s))).
Definition lower_path (s : pystr) : pystr :=
  (fun c => if (65 <=? c) && (c <=? 90) then c + 32 else c) <$> s.

Fixpoint contains (pat s : pystr) : bool :=
  starts_with pat s || match s with [] => false | _ :: s' => contains pat s' end.

(** The paths that name an in-memory database. *)
Definition in_memory (path : pystr) : bool :=
  let n := lower_path (strip_path path) in
  bool_decide (n = lit ":memory:")
  || (starts_with (lit "file:") n
      && (starts_with (lit "file::memory:") n || contains (lit "mode=memory") n)).

Record durable_settings := mkDurable {
  ds_path : pystr;
  ds_operation_capacity : Z;
  ds_pending_byte_capacity : Z;
  ds_max_state_bytes : Z;
  ds_startup_timeout : Z;
  ds_operation_timeout : Z;
  ds_recovery_timeout : Z }.

(** [DurableStateExtension.start] up to the creation of the store: [started] says that a
    store exists, [in_callback] that an actor callback calls. *)
Definition durable_start_checks (started in_callback : bool) (s : durable_settings) : result unit :=
  _ ← raise_unless (negb started) RuntimeError;
  _ ← raise_unless (negb in_callback) RuntimeError;
  _ ← raise_unless (negb (bool_decide (strip_path (ds_path s) = []))) ValueError;
  _ ← raise_unless (negb (in_memory (ds_path s))) ValueError;
  _ ← raise_unless (0 <? ds_operation_capacity s) ValueError;
  _ ← raise_unless (0 <? ds_pending_byte_capacity s) ValueError;
  _ ← raise_unless (0 <? ds_max_state_bytes s) ValueError;
  _ ← raise_unless (ds_max_state_bytes s <=? ds_pending_byte_capacity s) ValueError;
  _ ← raise_unless (0 <? ds_startup_timeout s) ValueError;
  _ ← raise_unless (0 <? ds_operation_timeout s) ValueError;
  raise_unless (0 <? ds_recovery_timeout s) ValueError.

Definition durable_limits (s : durable_settings) : limits :=
  mkLimits (ds_operation_capacity s) (ds_pending_byte_capacity s).

(** With accepted settings an idle running store admits a state of the maximal size. *)
Lemma idle_store_admits s started in_callback a n :
  durable_start_checks started in_callback s = Ok tt -> 0 <= n <= ds_max_state_bytes s ->
  a_life a = LRunning -> a_pending a = ∅ -> a_internal a = 0 -> a_pending_bytes a = 0 ->
  exists i, (submit (durable_limits s) n false a).1 = Ok i.
Proof.
  intros Hs Hn Hl Hp Hi Hb. unfold durable_start_checks in Hs. inv_run.
  unfold submit, outstanding, durable_limits. simpl.
  rewrite Hl, Hp, Hi, Hb, map_size_empty. simpl.
  rewrite (proj2 (Z.leb_gt _ _)), (proj2 (Z.ltb_ge _ _)) by lia. by eexists.
Qed.

Module AdmissionRun.
Definition lim0 : limits := mkLimits 4 100.
Definition a1 : admission := complete_startup None (begin_start None new_admission).2.
Definition a2 : admission := (submit lim0 60 false a1).2.

Lemma a2_reached : rtc (adm_step lim0) (false, new_admission) (false, a2).
Proof.
  eapply rtc_l; [exact (ad_start lim0 false new_admission None _ _ (surjective_pairing _))|].
  eapply rtc_l; [refine (ad_started lim0 false (begin_start None new_admission).2 None _ eq_refl); done|].
  apply rtc_once. exact (ad_submit lim0 false a1 60 false _ _ ltac:(lia) (surjective_pairing _)).
Qed.

(** One operation of 60 bytes is pending; a second one would exceed the byte limit. *)
Lemma store_capacity_bounds_witness :
  (submit lim0 60 false a2).1 = Err PersistenceCapacityError /\ outstanding a2 <= 4
  /\ a_pending_bytes a2 = pending_sum (a_pending a2) /\ 0 <= a_pending_bytes a2 <= 100.
Proof.
  split; [by vm_compute|].
  exact (store_capacity_bounds lim0 (false, a2) ltac:(done) ltac:(done) a2_reached).
Defined.
End AdmissionRun.
