(* ===== verification/ProjectionExt.v ===== *)
(** The projection extension under any sequence of calls: runners, retirements and
    batch permits. *)

From stdpp Require Import base list numbers strings gmap.
From S2P Require Import Prelude Bytes PyStr Persistence SqliteStore Projection.

Section Extension.
Variables (cfg : settings) (max_state_bytes : Z).

(** [reserved]: permits held by runners between [_reserve_batch] and
    [_release_batch]. *)
Inductive ext_step : Z * extension -> Z * extension -> Prop :=
| es_start n x x' : start cfg max_state_bytes x = Ok x' -> ext_step (n, x) (n, x')
| es_run n x p s size initial launch r x' :
    start_runner cfg p s size initial launch x = (r, x') -> ext_step (n, x) (n, x')
| es_stopped n x p i error :
    x_handles x !! p = Some i -> ext_step (n, x) (n, runner_stopped p i error x)
| es_retire n x p submit r x' : retire p submit x = (r, x') -> ext_step (n, x) (n, x')
| es_retired n x p : p ∈ x_retiring x -> ext_step (n, x) (n, retire_complete p x)
| es_reserve n x x' : reserve_batch x = Some x' -> ext_step (n, x) (n + 1, x')
| es_release n x : 0 < n -> ext_step (n, x) (n - 1, release_batch x)
| es_prepare n x : ext_step (n, x) (n, prepare_stop x)
| es_stop n x r x' : stop x = (r, x') -> ext_step (n, x) (n, x').

Record ext_inv (n : Z) (x : extension) : Prop := {
  ei_exclusive : forall p, is_Some (x_handles x !! p) -> p ∉ x_retiring x;
  ei_capacity : x_handles x = ∅ \/ Z.of_nat (size (x_handles x)) <= runner_capacity cfg;
  ei_handles : map_Forall (fun _ i => (i < length (x_all x))%nat) (x_handles x);
  ei_slots : 0 <= n /\ 0 <= x_slots x;
  ei_permits : x_phase x = XNew -> n = 0 /\ x_slots x = 0;
  ei_bytes : (n + x_slots x) * batch_byte_capacity cfg <= Z.max 0 (pending_byte_capacity cfg) }.

Lemma length_request_stops kvs hs :
  length (foldr (fun (kv : ProjectionId * nat) hs => alter request_stop kv.2 hs) hs kvs) = length hs.
Proof. induction kvs as [|kv kvs IH]; simpl; [done|]. by rewrite length_alter. Qed.

Lemma prepare_inv n x : ext_inv n x -> ext_inv n (prepare_stop x).
Proof.
  intros [H1 H2 H3 H4 H5 H6]. split; simpl; try done.
  - by rewrite length_request_stops.
  - destruct (x_phase x); done.
Qed.

Lemma start_runner_inv n x p s sz initial launch r x' :
  start_runner cfg p s sz initial launch x = (r, x') -> ext_inv n x -> ext_inv n x'.
Proof.
  intros Hs [H1 H2 H3 H4 H5 H6]. unfold start_runner in Hs.
  destruct (_ ≫= _) as [u|e] eqn:Hc; [|injection Hs as <- <-; by split].
  destruct launch; injection Hs as <- <-; [by split|].
  apply bind_ok in Hc as (? & _ & Hc). apply bind_ok in Hc as (? & _ & Hc).
  apply bind_ok in Hc as (? & _ & Hc). apply bind_ok in Hc as (? & Hrun & Hc).
  apply bind_ok in Hc as (? & Hfree & Hc). apply raise_unless_ok in Hfree, Hc, Hrun. inv_run.
  split; simpl; try done.
  - intros q. destruct (decide (q = p)) as [->|Hq]; [done|]. rewrite lookup_insert_ne by done. apply H1.
  - right. rewrite map_size_insert_None by done. lia.
  - apply map_Forall_insert_2; [rewrite length_app; simpl; lia|].
    eapply map_Forall_impl; [exact H3|]. simpl. intros q i Hi. rewrite length_app. lia.
Qed.

Lemma ext_step_inv st st' : ext_step st st' -> ext_inv st.1 st.2 -> ext_inv st'.1 st'.2.
Proof.
  inversion 1 as [n x x' Hs|n x p s sz initial launch r x' Hs|n x p i error Hp|n x p submit r x' Hr
    |n x p Hp|n x x' Hr|n x Hn|n x|n x r x' Hs]; subst; simpl; intros Hi.
  - unfold start in Hs. inv_run. destruct Hi as [Hi1 Hi2 Hi3 Hi4 Hi5 Hi6].
    match goal with Hx : settings_checks _ _ = Ok _ |- _ => unfold settings_checks in Hx; inv_run end.
    unfold positive_int, positive_number in *. inv_run.
    match goal with Hph : x_phase x = XNew |- _ => destruct (Hi5 Hph) as [-> _] end.
    split; simpl; try done.
    + split; [lia|]. apply Z.div_pos; lia.
    + rewrite Z.max_r by lia. rewrite Z.add_0_l, Z.mul_comm. apply Z.mul_div_le. lia.
  - by eapply start_runner_inv.
  - destruct Hi as [Hi1 Hi2 Hi3 Hi4 Hi5 Hi6]. unfold runner_stopped.
    rewrite bool_decide_eq_true_2 by done. split; simpl; try done.
    + intros q [j Hq]. apply lookup_delete_Some in Hq as [_ Hq]. apply Hi1. eauto.
    + destruct Hi2 as [Hi2|Hi2]; [left; by rewrite Hi2, delete_empty|right].
      rewrite map_size_delete_Some by eauto. lia.
    + rewrite length_alter. by apply map_Forall_delete.
  - unfold retire in Hr. destruct (_ ≫= _) as [u|e] eqn:Hc; [|injection Hr as <- <-; done].
    destruct submit; injection Hr as <- <-; [done|].
    apply bind_ok in Hc as (? & Hrun & Hc). apply raise_unless_ok in Hrun, Hc. inv_run.
    destruct Hi as [Hi1 Hi2 Hi3 Hi4 Hi5 Hi6]. split; simpl; try done.
    intros q Hq Hin. apply elem_of_union in Hin as [Hin|Hin]; [|by apply (Hi1 q)].
    apply elem_of_singleton in Hin as ->. destruct Hq as [j Hj]. congruence.
  - destruct Hi as [Hi1 Hi2 Hi3 Hi4 Hi5 Hi6]. split; simpl; try done.
    intros q Hq Hin. apply elem_of_difference in Hin as [Hin _]. by apply (Hi1 q).
  - unfold reserve_batch in Hr. case_match; [|done]. injection Hr as <-. inv_run.
    destruct Hi as [Hi1 Hi2 Hi3 Hi4 Hi5 Hi6]. split; simpl; try done; [lia| |].
    + intros Hph. destruct (Hi5 Hph). lia.
    + replace (n + 1 + (x_slots x - 1)) with (n + x_slots x) by lia. done.
  - destruct Hi as [Hi1 Hi2 Hi3 Hi4 Hi5 Hi6]. split; simpl; try done; [lia| |].
    + intros Hph. destruct (Hi5 Hph). lia.
    + replace (n - 1 + (x_slots x + 1)) with (n + x_slots x) by lia. done.
  - by apply prepare_inv.
  - unfold stop in Hs. apply prepare_inv in Hi. case_match; injection Hs as <- <-; [|done].
    destruct Hi as [Hi1 Hi2 Hi3 Hi4 Hi5 Hi6]. by split.
Qed.

(** Runners are exclusive and bounded: under any sequence of calls a
    projection is never retired while a handle runs it, the handles that run never
    exceed the runner capacity, and the batches reserved together never exceed the
    configured bytes. *)
Theorem projection_runners_exclusive st :
  rtc ext_step (0, new_extension) st ->
  (forall p, is_Some (x_handles st.2 !! p) -> p ∉ x_retiring st.2)
  /\ (x_handles st.2 = ∅ \/ Z.of_nat (size (x_handles st.2)) <= runner_capacity cfg)
  /\ 0 <= st.1 /\ st.1 * batch_byte_capacity cfg <= Z.max 0 (pending_byte_capacity cfg).
Proof.
  intros Hsteps.
  assert (Hinv : ext_inv st.1 st.2).
  { refine (rtc_ind_r (fun st => ext_inv st.1 st.2) _ _ _ st Hsteps).
    - split; simpl; try done; [by left|lia].
    - intros s1 s2 _ Hstep H1. by eapply ext_step_inv. }
  destruct Hinv as [H1 H2 _ [H4 H4'] _ H6]. split_and!; try done.
  destruct (Z.le_ge_cases 0 (batch_byte_capacity cfg)); nia.
Qed.
End Extension.

Module ExtensionRun.
Definition cfg1 : settings := mkSettings 1 100 100 250 1000 100 100 5000 30000 10000.
Definition pr1 : ProjectionId := mkProj (lit "totals") (lit "all").
Definition sr1 : source := mkSource (lit "account") 0 1023.
Definition x1 : extension := match start cfg1 100 new_extension with Ok x => x | Err _ => new_extension end.
Definition x2 : extension := (start_runner cfg1 pr1 sr1 None None None x1).2.
Definition x3 : extension := match reserve_batch x2 with Some x => x | None => x2 end.

Lemma x3_reached : rtc (ext_step cfg1 100) (0, new_extension) (0 + 1, x3).
Proof.
  eapply rtc_l; [refine (es_start cfg1 100 0 new_extension x1 _); reflexivity|].
  eapply rtc_l; [exact (es_run cfg1 100 0 x1 pr1 sr1 None None None _ x2 (surjective_pairing _))|].
  apply rtc_once. refine (es_reserve cfg1 100 0 x2 x3 _). reflexivity.
Qed.

Lemma projection_runners_exclusive_witness :
  x_handles x3 !! pr1 = Some 0%nat /\ (retire pr1 None x3).1 = Err ProjectionAlreadyRunningError /\
  (forall p, is_Some (x_handles x3 !! p) -> p ∉ x_retiring x3)
  /\ (x_handles x3 = ∅ \/ Z.of_nat (size (x_handles x3)) <= runner_capacity cfg1)
  /\ 0 <= 0 + 1 /\ (0 + 1) * batch_byte_capacity cfg1 <= Z.max 0 (pending_byte_capacity cfg1).
Proof.
  split; [by vm_compute|]. split; [by vm_compute|].
  exact (projection_runners_exclusive cfg1 100 (0 + 1, x3) x3_reached).
Defined.
End ExtensionRun.
