(* ===== verification/Streams.v ===== *)
(** Streams: the stages, sinks and graphs of [movie/streams.py].

    A stage is an actor: its [receive] is a method ([Eff]) on the stage and the world [W]
    around it.  What a stage does to the world is an [action]: it tells a message to another
    actor, calls the function of a sink, tells the graph that it is wired or about to stop,
    or settles the materialized future.  [perform], the interface [StreamEnv], carries an
    action out; of these only [tell] can raise.  A reference is the index of its stage.

    Iterables are finite lists of what [next] returns or raises; a transform is a function
    that returns an element, drops one ([_DROP]) or raises.  [_as_exception] is the
    identity: exceptions are their class. *)

From stdpp Require Import base list numbers gmap.
From S2P Require Import Prelude Effects.

Local Open Scope eff_scope.

Section messages.
Context {T : Type}.

(** Messages between stages; [wiring] says whether the message carries the graph. *)
Inductive StageBehaviorCommand :=
  | Subscribe (down : nat) (wiring : bool)
  | SetUpstream (up : nat) (wiring : bool)
  | Request (n : Z)
  | OnNext (element : T)
  | OnComplete
  | OnError (error : exn)
  | Cancel.

Inductive action :=
  | Tell (ref : nat) (message : StageBehaviorCommand)
  | Call (element : T)
  | Acknowledge
  | ExpectStop (ref : nat)
  | GraphFail (error : exn)
  | SubmitResult (items : list T)
  | SubmitException (error : exn)
  | SubmitCancel.
End messages.
Arguments StageBehaviorCommand T : clear implicits.
Arguments action T : clear implicits.

Class StreamEnv (T W : Type) := perform : action T -> W -> outcome exn unit * W.

(** * Stages *)

(** The fields of a [StageBehavior], with those of a source ([_iter], [_exhausted]) and of a
    collecting sink ([_items]). *)
Record Stage (T : Type) := mkStage {
  _up : option nat; _down : option nat; _buf : list T; _demand : Z; _in_flight : Z;
  _up_closed : bool; _prefetch : Z; _maxbuf : Z; _terminated : bool; _completion_sent : bool;
  _lifecycle : bool; _iter : list (result T); _exhausted : bool; _items : list T }.
Arguments mkStage {T} _ _ _ _ _ _ _ _ _ _ _ _ _ _.
Arguments _up {T} _.
Arguments _down {T} _.
Arguments _buf {T} _.
Arguments _demand {T} _.
Arguments _in_flight {T} _.
Arguments _up_closed {T} _.
Arguments _prefetch {T} _.
Arguments _maxbuf {T} _.
Arguments _terminated {T} _.
Arguments _completion_sent {T} _.
Arguments _lifecycle {T} _.
Arguments _iter {T} _.
Arguments _exhausted {T} _.
Arguments _items {T} _.

Section stage.
Context {T W : Type} `{!StreamEnv T W}.
Abbreviation msg := (StageBehaviorCommand T).
Abbreviation stage := (Stage T).
Abbreviation M := (Eff (stage * W) exn).

(** [StageBehavior.__init__], and that of a source over an iterable. *)
Definition StageBehavior_new (it : list (result T)) (prefetch maxbuf : Z) : result stage :=
  raise_unless (negb ((prefetch <=? 0) || (maxbuf <=? 0) || (maxbuf <? prefetch))) ValueError ≫= fun _ =>
  Ok (mkStage None None [] 0 0 false prefetch maxbuf false false false it false []).

Definition set_up (u : nat) (wiring : bool) (s : stage) : stage :=
  mkStage (Some u) (_down s) (_buf s) (_demand s) (_in_flight s) (_up_closed s) (_prefetch s) (_maxbuf s)
    (_terminated s) (_completion_sent s) wiring (_iter s) (_exhausted s) (_items s).
Definition set_down (d : nat) (wiring : bool) (s : stage) : stage :=
  mkStage (_up s) (Some d) (_buf s) (_demand s) (_in_flight s) (_up_closed s) (_prefetch s) (_maxbuf s)
    (_terminated s) (_completion_sent s) wiring (_iter s) (_exhausted s) (_items s).
Definition set_buf (b : list T) (s : stage) : stage :=
  mkStage (_up s) (_down s) b (_demand s) (_in_flight s) (_up_closed s) (_prefetch s) (_maxbuf s)
    (_terminated s) (_completion_sent s) (_lifecycle s) (_iter s) (_exhausted s) (_items s).
Definition set_demand (d : Z) (s : stage) : stage :=
  mkStage (_up s) (_down s) (_buf s) d (_in_flight s) (_up_closed s) (_prefetch s) (_maxbuf s)
    (_terminated s) (_completion_sent s) (_lifecycle s) (_iter s) (_exhausted s) (_items s).
Definition set_in_flight (n : Z) (s : stage) : stage :=
  mkStage (_up s) (_down s) (_buf s) (_demand s) n (_up_closed s) (_prefetch s) (_maxbuf s)
    (_terminated s) (_completion_sent s) (_lifecycle s) (_iter s) (_exhausted s) (_items s).
Definition set_up_closed (s : stage) : stage :=
  mkStage (_up s) (_down s) (_buf s) (_demand s) 0 true (_prefetch s) (_maxbuf s)
    (_terminated s) (_completion_sent s) (_lifecycle s) (_iter s) (_exhausted s) (_items s).
Definition set_terminated (s : stage) : stage :=
  mkStage (_up s) (_down s) (_buf s) (_demand s) (_in_flight s) (_up_closed s) (_prefetch s) (_maxbuf s)
    true (_completion_sent s) (_lifecycle s) (_iter s) (_exhausted s) (_items s).
Definition set_completion_sent (s : stage) : stage :=
  mkStage (_up s) (_down s) (_buf s) (_demand s) (_in_flight s) (_up_closed s) (_prefetch s) (_maxbuf s)
    (_terminated s) true (_lifecycle s) (_iter s) (_exhausted s) (_items s).
Definition set_iter (it : list (result T)) (s : stage) : stage :=
  mkStage (_up s) (_down s) (_buf s) (_demand s) (_in_flight s) (_up_closed s) (_prefetch s) (_maxbuf s)
    (_terminated s) (_completion_sent s) (_lifecycle s) it (_exhausted s) (_items s).
Definition set_exhausted (s : stage) : stage :=
  mkStage (_up s) (_down s) (_buf s) (_demand s) (_in_flight s) (_up_closed s) (_prefetch s) (_maxbuf s)
    (_terminated s) (_completion_sent s) (_lifecycle s) (_iter s) true (_items s).
Definition set_items (l : list T) (s : stage) : stage :=
  mkStage (_up s) (_down s) (_buf s) (_demand s) (_in_flight s) (_up_closed s) (_prefetch s) (_maxbuf s)
    (_terminated s) (_completion_sent s) (_lifecycle s) (_iter s) (_exhausted s) l.

(** The stage, a change of it, an action. *)
Definition this : M stage := fun s => (Ret s.1, s).
Definition update (f : stage -> stage) : M unit := fun s => (Ret tt, (f s.1, s.2)).
Definition do_ (a : action T) : M unit :=
  fun s => let '(o, w) := perform a s.2 in (o, (s.1, w)).
Definition lift {A} (r : result A) : M A := match r with Ok a => ret a | Err e => raise e end.
(** [ref.tell(message)], if there is a reference. *)
Definition tell_opt (ref : option nat) (m : msg) : M unit :=
  match ref with Some r => do_ (Tell r m) | None => ret tt end.

(** A method that decides whether the actor stops returns [true] for [Behaviors.stopped]. *)
Definition _stop (self : nat) : M bool :=
  s <-- this ;;
  when (_lifecycle s) (do_ (ExpectStop self)) ;;;
  ret true.

Definition actor_failed (error : exn) : M unit :=
  s <-- this ;;
  when (_lifecycle s) (do_ (GraphFail error)).

Definition _maybe_pull : M unit :=
  s <-- this ;;
  match _up s, _down s with
  | Some up, Some _ =>
      if _up_closed s || _terminated s then ret tt
      else
        let buffered := Z.of_nat (length (_buf s)) + _in_flight s in
        let target := _maxbuf s `min` (_prefetch s `max` _demand s) in
        let request := (_maxbuf s - buffered) `min` (target - buffered) in
        if 0 <? request
        then update (set_in_flight (_in_flight s + request)) ;;; do_ (Tell up (Request request))
        else ret tt
  | _, _ => ret tt
  end.

(** The loop of [_push]: an iteration takes an element from the buffer, so its length is
    enough fuel. *)
Fixpoint push_loop (fuel : nat) : M unit :=
  match fuel with
  | O => ret tt
  | S fuel =>
      s <-- this ;;
      match _buf s, _down s with
      | elem :: rest, Some down =>
          if 0 <? _demand s
          then
            update (set_buf rest) ;;;
            do_ (Tell down (OnNext elem)) ;;;
            update (fun s => set_demand (_demand s - 1) s) ;;;
            push_loop fuel
          else ret tt
      | _, _ => ret tt
      end
  end.

Definition _push : M bool :=
  s <-- this ;;
  push_loop (length (_buf s)) ;;;
  s <-- this ;;
  match _down s, _buf s with
  | Some down, [] =>
      if _up_closed s && negb (_completion_sent s)
      then
        update (fun s => set_terminated (set_completion_sent s)) ;;;
        do_ (Tell down OnComplete) ;;;
        ret true
      else _maybe_pull ;;; ret false
  | _, _ => _maybe_pull ;;; ret false
  end.

Definition _fail_stream (error : exn) : M unit :=
  s <-- this ;;
  if _terminated s then ret tt
  else
    update (fun s => set_buf [] (set_terminated s)) ;;;
    tell_opt (_up s) Cancel ;;;
    tell_opt (_down s) (OnError error).

(** [if self._push(): return self._stop(context)], and otherwise [return self]. *)
Definition push_or_stop (self : nat) : M bool :=
  complete <-- _push ;;
  if (complete : bool) then _stop self else ret false.

Definition subscribed (down : nat) (wiring : bool) : M unit :=
  update (set_down down wiring) ;;;
  when wiring (do_ Acknowledge).

(** [StageBehavior.receive]; [None] is [_DROP]. *)
Definition StageBehavior_receive (transform : T -> result (option T)) (self : nat) (message : msg) : M bool :=
  s <-- this ;;
  if _terminated s then _stop self
  else match message with
  | SetUpstream up wiring =>
      update (set_up up wiring) ;;;
      do_ (Tell up (Subscribe self wiring)) ;;;
      _maybe_pull ;;;
      ret false
  | Subscribe down wiring =>
      subscribed down wiring ;;;
      _maybe_pull ;;;
      ret false
  | Request n =>
      if 0 <? n
      then update (set_demand (_demand s + n)) ;;; push_or_stop self
      else _fail_stream ValueError ;;; _stop self
  | OnNext element =>
      when (0 <? _in_flight s) (update (set_in_flight (_in_flight s - 1))) ;;;
      catch
        (y <-- lift (transform element) ;;
         match y with
         | Some y =>
             s <-- this ;;
             if _maxbuf s <=? Z.of_nat (length (_buf s)) then raise BufferError
             else update (set_buf (_buf s ++ [y]))
         | None => ret tt
         end ;;;
         push_or_stop self)
        (fun error => _fail_stream error ;;; _stop self)
  | OnComplete =>
      update set_up_closed ;;; push_or_stop self
  | OnError error =>
      update (fun s => set_buf [] (set_terminated s)) ;;;
      tell_opt (_down s) (OnError error) ;;;
      _stop self
  | Cancel =>
      update (fun s => set_buf [] (set_terminated s)) ;;;
      tell_opt (_up s) Cancel ;;;
      _stop self
  end.

(** * Sources *)

(** The loop that answers a request: [n] iterations at most.  [Some] is a return. *)
Fixpoint produce (self : nat) (n : nat) : M bool :=
  match n with
  | O => ret false
  | S n =>
      s <-- this ;;
      match _down s with
      | Some down =>
          if _exhausted s then ret false
          else match _iter s with
          | [] =>
              update (fun s => set_terminated (set_exhausted s)) ;;;
              do_ (Tell down OnComplete) ;;;
              _stop self
          | next :: rest =>
              update (set_iter rest) ;;;
              returned <-- catch
                (elem <-- lift next ;;
                 do_ (Tell down (OnNext elem)) ;;;
                 ret None)
                (fun error =>
                   update set_terminated ;;;
                   do_ (Tell down (OnError error)) ;;;
                   stopped <-- _stop self ;;
                   ret (Some stopped)) ;;
              match returned with
              | Some stopped => ret stopped
              | None => produce self n
              end
          end
      | None => ret false
      end
  end.

Definition SourceFromIterable_receive (self : nat) (message : msg) : M bool :=
  s <-- this ;;
  if _terminated s then _stop self
  else match message with
  | Subscribe down wiring => subscribed down wiring ;;; ret false
  | Request n =>
      if 0 <? n then produce self (Z.to_nat n)
      else
        update set_terminated ;;;
        tell_opt (_down s) (OnError ValueError) ;;;
        _stop self
  | Cancel => update set_terminated ;;; _stop self
  | _ => ret false
  end.

(** * Sinks *)

(** [SetUpstream] at a sink. *)
Definition sink_wired (self up : nat) (wiring : bool) : M unit :=
  update (set_up up wiring) ;;;
  do_ (Tell up (Subscribe self wiring)) ;;;
  s <-- this ;;
  tell_opt (_up s) (Request (_prefetch s)).

(** [materialized]: whether there is a future to settle. *)
Definition SinkForEach_receive (materialized : bool) (func : T -> result unit) (self : nat) (message : msg) :
    M bool :=
  s <-- this ;;
  match message with
  | SetUpstream up wiring => sink_wired self up wiring ;;; ret false
  | OnNext element =>
      catch
        (do_ (Call element) ;;;
         lift (func element) ;;;
         tell_opt (_up s) (Request 1) ;;;
         ret false)
        (fun error =>
           when materialized (do_ (SubmitException error)) ;;;
           tell_opt (_up s) Cancel ;;;
           _stop self)
  | OnComplete => when materialized (do_ (SubmitResult [])) ;;; _stop self
  | OnError error => when materialized (do_ (SubmitException error)) ;;; _stop self
  | Cancel =>
      tell_opt (_up s) Cancel ;;;
      when materialized (do_ SubmitCancel) ;;;
      _stop self
  | _ => ret false
  end.

Definition SinkCollect_receive (self : nat) (message : msg) : M bool :=
  s <-- this ;;
  match message with
  | SetUpstream up wiring => sink_wired self up wiring ;;; ret false
  | OnNext element =>
      update (set_items (_items s ++ [element])) ;;;
      tell_opt (_up s) (Request 1) ;;;
      ret false
  | OnComplete => do_ (SubmitResult (_items s)) ;;; _stop self
  | OnError error => do_ (SubmitException error) ;;; _stop self
  | Cancel =>
      tell_opt (_up s) Cancel ;;;
      do_ SubmitCancel ;;;
      _stop self
  | _ => ret false
  end.

(** The behaviour of a stage. *)
Inductive kind :=
  | SourceFromIterable
  | FlowMap (transform : T -> result (option T))
  | SinkForEach (materialized : bool) (func : T -> result unit)
  | SinkCollect.
Definition receive (k : kind) : nat -> msg -> M bool :=
  match k with
  | SourceFromIterable => SourceFromIterable_receive
  | FlowMap transform => StageBehavior_receive transform
  | SinkForEach materialized func => SinkForEach_receive materialized func
  | SinkCollect => SinkCollect_receive
  end.
End stage.
Arguments kind T : clear implicits.
