(* ===== verification/StreamGraph.v ===== *)
(** The graph of a stream, its materialization, and the pipeline it runs as.

    [World] holds what the stages of one materialization share: their mailboxes, the
    [_GraphLifecycle], the two futures, the actors that were told to stop, and the calls of a
    sink's function.  A mailbox counts, as [DefaultMailbox] does, the messages waiting and
    all of the batch in work against its capacity.  [pipe_exec] is one step of the running
    pipeline: a stage starts, is wired, takes a batch, receives a message, stops, or reports
    that it stopped; or the run is cancelled.  A failed stage receives nothing more until it
    is stopped, as [LocalActorContext._fail] leaves it.  What is submitted to the system's
    completion thread, which runs it in order, takes effect at once; [system.terminate]
    does not raise, and every stage that starts does so without an error. *)

From stdpp Require Import base list numbers gmap functions.
From S2P Require Import Prelude Effects Streams.

Local Open Scope eff_scope.

Definition _MIN_MAILBOX_CAPACITY : Z := 32.

Inductive _GraphState := PENDING | READY | FAILED | CANCELLED | COMPLETED.
#[global] Instance GraphState_eq_dec : EqDecision _GraphState.
Proof. solve_decision. Defined.

Record Graph := mkGraph {
  _refs : list nat; _remaining : option Z; _expected_stops : gset nat; _state : _GraphState }.

(** A future: [_try_set_result] and [_try_set_exception] change a pending one only. *)
Inductive Fut (A : Type) := FPending | FResult (a : A) | FException (e : exn) | FCancelled.
Arguments FPending {A}.
Arguments FResult {A} a.
Arguments FException {A} e.
Arguments FCancelled {A}.
Definition _try_set_result {A} (f : Fut A) (a : A) : Fut A :=
  match f with FPending => FResult a | _ => f end.
Definition _try_set_exception {A} (f : Fut A) (e : exn) : Fut A :=
  match f with FPending => FException e | _ => f end.
Definition fut_cancel {A} (f : Fut A) : Fut A := match f with FPending => FCancelled | _ => f end.
Definition fut_done {A} (f : Fut A) : bool := match f with FPending => false | _ => true end.

(** The mailbox of a stage, and whether the stage runs, failed or stopped. *)
Inductive Status := Running | Failed | Stopped.
#[global] Instance Status_eq_dec : EqDecision Status.
Proof. solve_decision. Defined.
Record Box (T : Type) := mkBox {
  queue : list (StageBehaviorCommand T); batch : list (StageBehaviorCommand T);
  in_flight_messages : nat; status : Status }.
Arguments mkBox {T} _ _ _ _.
Arguments queue {T} _.
Arguments batch {T} _.
Arguments in_flight_messages {T} _.
Arguments status {T} _.

Record World (T : Type) := mkWorld {
  boxes : nat -> Box T; graph : Graph; _ready : Fut unit; _materialized : option (Fut (list T));
  stops : gset nat; calls : list T }.
Arguments mkWorld {T} _ _ _ _ _ _.
Arguments boxes {T} _ _.
Arguments graph {T} _.
Arguments _ready {T} _.
Arguments _materialized {T} _.
Arguments stops {T} _.
Arguments calls {T} _.

Section world.
Context {T : Type}.
Abbreviation world := (World T).
Abbreviation msg := (StageBehaviorCommand T).

Definition set_boxes (b : nat -> Box T) (w : world) : world :=
  mkWorld b (graph w) (_ready w) (_materialized w) (stops w) (calls w).
Definition set_graph (g : Graph) (w : world) : world :=
  mkWorld (boxes w) g (_ready w) (_materialized w) (stops w) (calls w).
Definition set_ready (f : Fut unit) (w : world) : world :=
  mkWorld (boxes w) (graph w) f (_materialized w) (stops w) (calls w).
Definition set_materialized (f : option (Fut (list T))) (w : world) : world :=
  mkWorld (boxes w) (graph w) (_ready w) f (stops w) (calls w).
Definition set_state (st : _GraphState) (g : Graph) : Graph :=
  mkGraph (_refs g) (_remaining g) (_expected_stops g) st.

(** ** [_GraphLifecycle] *)

Definition over (st : _GraphState) : bool :=
  match st with FAILED | CANCELLED | COMPLETED => true | _ => false end.

Definition spawn (ref : nat) (w : world) : result world :=
  if bool_decide (_state (graph w) = PENDING)
  then Ok (set_graph (mkGraph (_refs (graph w) ++ [ref]) (_remaining (graph w)) (_expected_stops (graph w))
                        (_state (graph w))) w)
  else Err RuntimeError.

Definition seal (w : world) : result world :=
  if bool_decide (_state (graph w) = PENDING)
  then Ok (set_graph (mkGraph (_refs (graph w)) (Some (Z.of_nat (length (_refs (graph w))) - 1))
                        (_expected_stops (graph w)) (_state (graph w))) w)
  else Err RuntimeError.

Definition acknowledge (w : world) : world :=
  match _state (graph w), _remaining (graph w) with
  | PENDING, Some r =>
      let g := mkGraph (_refs (graph w)) (Some (r - 1)) (_expected_stops (graph w))
                 (if r - 1 =? 0 then READY else PENDING) in
      let w := set_graph g w in
      if r - 1 =? 0 then set_ready (_try_set_result (_ready w) tt) w else w
  | _, _ => w
  end.

Definition expect_stop (ref : nat) (w : world) : world :=
  set_graph (mkGraph (_refs (graph w)) (_remaining (graph w)) ({[ref]} ∪ _expected_stops (graph w))
               (_state (graph w))) w.

(** [_terminate_stages]: every stage of the graph is sent [Stop]. *)
Definition _terminate_stages (w : world) : world :=
  mkWorld (boxes w) (graph w) (_ready w) (_materialized w)
    (list_to_set (reverse (_refs (graph w))) ∪ stops w) (calls w).

Definition fail_ (error : exn) (w : world) : world :=
  if over (_state (graph w)) then w
  else
    let readiness_failed := bool_decide (_state (graph w) = PENDING) in
    let w := _terminate_stages (set_graph (set_state FAILED (graph w)) w) in
    let w := if readiness_failed then set_ready (_try_set_exception (_ready w) error) w else w in
    set_materialized ((fun f => _try_set_exception f error) <$> _materialized w) w.

(** [cancel]: cancelling a pending future runs its hook, which is [cancel] again. *)
Definition cancel_body (hook : world -> world) (w : world) : world :=
  if over (_state (graph w)) then w
  else
    let w := _terminate_stages (set_graph (set_state CANCELLED (graph w)) w) in
    let w := if fut_done (_ready w) then w else hook (set_ready (fut_cancel (_ready w)) w) in
    match _materialized w with
    | Some f => if fut_done f then w else hook (set_materialized (Some (fut_cancel f)) w)
    | None => w
    end.
Definition cancel (w : world) : world := cancel_body (fun w => w) w.

(** The hooks find the graph cancelled and return. *)
Lemma cancel_hook w : cancel w = cancel_body cancel w.
Proof.
  destruct w as [b g r m st c]. unfold cancel, cancel_body. cbn. destruct (over (_state g)); [done|].
  by destruct r, m as [[]|].
Qed.

Definition stage_stopped (ref : nat) (w : world) : world :=
  if bool_decide (ref ∈ _expected_stops (graph w))
  then
    if (size (_expected_stops (graph w)) =? length (_refs (graph w)))%nat
    then set_graph (set_state COMPLETED (graph w)) w else w
  else if over (_state (graph w)) then w
  else fail_ RuntimeError w.

(** ** What a stage does *)

(** [DefaultMailbox.send], by way of the actor's cell: a stopped actor refuses silently. *)
Definition send (capacity : Z) (m : msg) (b : Box T) : result (Box T) :=
  match status b with
  | Stopped => Ok b
  | _ =>
      if capacity <=? Z.of_nat (length (queue b) + in_flight_messages b)
      then Err MailboxCapacityExceeded
      else Ok (mkBox (queue b ++ [m]) (batch b) (in_flight_messages b) (status b))
  end.

Definition perform_ (capacity : Z) (a : action T) (w : world) : outcome exn unit * world :=
  match a with
  | Tell r m =>
      match send capacity m (boxes w r) with
      | Ok b => (Ret tt, set_boxes (<[r := b]> (boxes w)) w)
      | Err e => (Raise e, w)
      end
  | Call x => (Ret tt, mkWorld (boxes w) (graph w) (_ready w) (_materialized w) (stops w) (calls w ++ [x]))
  | Acknowledge => (Ret tt, acknowledge w)
  | ExpectStop r => (Ret tt, expect_stop r w)
  | GraphFail e => (Ret tt, fail_ e w)
  | SubmitResult l => (Ret tt, set_materialized ((fun f => _try_set_result f l) <$> _materialized w) w)
  | SubmitException e => (Ret tt, set_materialized ((fun f => _try_set_exception f e) <$> _materialized w) w)
  | SubmitCancel =>
      (Ret tt, match _materialized w with
               | Some f => if fut_done f then w else cancel (set_materialized (Some (fut_cancel f)) w)
               | None => w
               end)
  end.
End world.

(** * The running pipeline *)

(** The stages of a materialization, from the source ([0]) to the sink ([last]). *)
Record StreamSetup (T : Type) := mkStreamSetup { kinds : nat -> kind T; last : nat; capacity : Z; throughput : nat }.
Arguments mkStreamSetup {T} _ _ _ _.
Arguments kinds {T} _ _.
Arguments last {T} _.
Arguments capacity {T} _.
Arguments throughput {T} _.

(** [unstarted]: stages whose start future is pending; [starting]: the counter [remaining] of
    [run]; [wiring]: the stages [wire_graph] has still to tell; [notified]: stages whose stop
    future is done. *)
Record Pipe (T : Type) := mkPipe {
  stages : nat -> Stage T; world : World T; unstarted : gset nat; starting : Z; wiring : list nat;
  notified : gset nat }.
Arguments mkPipe {T} _ _ _ _ _ _.
Arguments stages {T} _ _.
Arguments world {T} _.
Arguments unstarted {T} _.
Arguments starting {T} _.
Arguments wiring {T} _.
Arguments notified {T} _.

Inductive label :=
  | Started (i : nat)
  | Wire
  | TakeBatch (i : nat)
  | Invoke (i : nat)
  | StopActor (i : nat)
  | Notify (i : nat)
  | UserCancel.

Section pipe.
Context {T : Type} (self : StreamSetup T).
Abbreviation pipe := (Pipe T).

#[local] Instance bounded_env : StreamEnv T (World T) := perform_ (capacity self).

Definition set_box (i : nat) (b : Box T) (w : World T) : World T := set_boxes (<[i := b]> (boxes w)) w.
Definition set_world (w : World T) (p : pipe) : pipe :=
  mkPipe (stages p) w (unstarted p) (starting p) (wiring p) (notified p).

(** [stage_started] in [run], when the stage did start. *)
Definition stage_started (i : nat) (p : pipe) : pipe :=
  let rest := unstarted p ∖ {[i]} in
  if fut_done (_ready (world p))
  then mkPipe (stages p) (world p) rest (starting p) (wiring p) (notified p)
  else mkPipe (stages p) (world p) rest (starting p - 1)
         (if starting p - 1 =? 0 then seq 1 (last self) else wiring p) (notified p).

(** One iteration of [wire_graph]. *)
Definition wire_next (p : pipe) : option pipe :=
  match wiring p with
  | [] => None
  | i :: rest =>
      Some match perform (Tell i (SetUpstream (i - 1) true)) (world p) with
      | (Ret _, w) => mkPipe (stages p) w (unstarted p) (starting p) rest (notified p)
      | (Raise e, w) => mkPipe (stages p) (fail_ e w) (unstarted p) (starting p) [] (notified p)
      end
  end.

Definition stage_batch (b : Box T) : Box T :=
  let n := length (take (throughput self) (queue b)) in
  mkBox (drop (throughput self) (queue b)) (take (throughput self) (queue b)) n (status b).

(** The mailbox after a message of the batch was handled. *)
Definition after_message (rest : list (StageBehaviorCommand T)) (b : Box T) : Box T :=
  mkBox (queue b) rest (match rest with [] => 0%nat | _ => in_flight_messages b end) (status b).
Definition stopped_box : Box T := mkBox [] [] 0 Stopped.
Definition failed_box (rest : list (StageBehaviorCommand T)) (b : Box T) : Box T :=
  mkBox (rest ++ queue b) [] 0 Failed.

Definition invoke (i : nat) (m : StageBehaviorCommand T) (rest : list (StageBehaviorCommand T)) (p : pipe) : pipe :=
  let '(o, (s, w)) := receive (kinds self i) i m (stages p i, world p) in
  let '(s, w) := match o with
    | Ret false => (s, set_box i (after_message rest (boxes w i)) w)
    | Ret true => (s, set_box i stopped_box w)
    | Raise e =>
        let '(_, (s, w)) := actor_failed e (s, w) in
        (s, set_box i (failed_box rest (boxes w i)) w)
    end in
  mkPipe (<[i := s]> (stages p)) w (unstarted p) (starting p) (wiring p) (notified p).

Definition pipe_exec (l : label) (p : pipe) : option pipe :=
  match l with
  | Started i => if decide (i ∈ unstarted p) then Some (stage_started i p) else None
  | Wire => wire_next p
  | TakeBatch i =>
      let b := boxes (world p) i in
      match status b, batch b, queue b with
      | Running, [], _ :: _ => Some (set_world (set_box i (stage_batch b) (world p)) p)
      | _, _, _ => None
      end
  | Invoke i =>
      let b := boxes (world p) i in
      match status b, batch b with
      | Running, m :: rest => Some (invoke i m rest p)
      | _, _ => None
      end
  | StopActor i =>
      let b := boxes (world p) i in
      if decide (i ∈ stops (world p))
      then match status b, batch b with
           | Stopped, _ | _, _ :: _ => None
           | _, [] => Some (set_world (set_box i stopped_box (world p)) p)
           end
      else None
  | Notify i =>
      if decide (i ∈ notified p) then None
      else match status (boxes (world p) i) with
           | Stopped =>
               Some (mkPipe (stages p) (stage_stopped i (world p)) (unstarted p) (starting p) (wiring p)
                       ({[i]} ∪ notified p))
           | _ => None
           end
  | UserCancel => Some (set_world (cancel (world p)) p)
  end.
End pipe.

(** * Materialization *)

(** [Source], [Chained] and [Flow]. *)
Inductive Source (T : Type) :=
  | SourceNode (iterable : list (result T))
  | Chained (source : Source T) (transform : T -> result (option T)).
Arguments SourceNode {T} iterable.
Arguments Chained {T} source transform.

Record RunnableGraph (T : Type) := mkRunnable {
  _source : Source T; _sink : kind T; _has_run : bool; _claimed : bool;
  materialized_future : option (Fut (list T)) }.
Arguments mkRunnable {T} _ _ _ _ _.
Arguments _source {T} _.
Arguments _sink {T} _.
Arguments _has_run {T} _.
Arguments _claimed {T} _.
Arguments materialized_future {T} _.

Section run.
Context {T : Type}.

Fixpoint unwind (node : Source T) : list (kind T) :=
  match node with
  | SourceNode _ => [SourceFromIterable]
  | Chained source transform => unwind source ++ [FlowMap transform]
  end.
Fixpoint iterable_of (node : Source T) : list (result T) :=
  match node with SourceNode it => it | Chained source _ => iterable_of source end.

Definition empty_box : Box T := mkBox [] [] 0 Running.
Definition fresh_world (m : option (Fut (list T))) : World T :=
  mkWorld (fun _ => empty_box) (mkGraph [] None ∅ PENDING) FPending m ∅ [].

(** The stage factories run in turn; [system.spawn] of stage [i] may raise [refused i]. *)
Fixpoint spawn_all (refused : nat -> option exn) (refs : list nat) (w : World T) : outcome exn unit * World T :=
  match refs with
  | [] => match seal w with Ok w' => (Ret tt, w') | Err e => (Raise e, w) end
  | i :: rest =>
      match refused i with
      | Some e => (Raise e, w)
      | None => match spawn i w with Ok w' => spawn_all refused rest w' | Err e => (Raise e, w) end
      end
  end.

(** A stage as its factory makes it; only the source reads its iterable. *)
Definition new_stage (it : list (result T)) (prefetch maxbuf : Z) : Stage T :=
  match StageBehavior_new it prefetch maxbuf with
  | Ok s => s
  | Err _ => mkStage None None [] 0 0 false prefetch maxbuf false false false it false []
  end.

Definition initial_pipe (it : list (result T)) (prefetch maxbuf : Z) (n : nat) (w : World T) : Pipe T :=
  mkPipe (fun i => new_stage (match i with O => it | _ => [] end) prefetch maxbuf) w
    (list_to_set (seq 0 (S n))) (Z.of_nat (S n)) [] ∅.

(** [RunnableGraph.run] up to its return: the pipeline, or what it raises, with the world
    and the graph it leaves. *)
Definition run (rg : RunnableGraph T) (mailbox_capacity : option Z) (refused : nat -> option exn)
    (prefetch maxbuf : Z) : outcome exn (list (kind T) * Pipe T) * World T * RunnableGraph T :=
  let w0 := fresh_world (materialized_future rg) in
  if _has_run rg then (Raise RuntimeError, w0, rg)
  else
    let rg := mkRunnable (_source rg) (_sink rg) true (_claimed rg) (materialized_future rg) in
    if _claimed rg then (Raise RuntimeError, w0, rg)
    else
      let rg := mkRunnable (_source rg) (_sink rg) true true (materialized_future rg) in
      if match materialized_future rg with Some f => fut_done f | None => false end
      then (Raise RuntimeError, w0, rg)
      else
        let ks := unwind (_source rg) ++ [_sink rg] in
        let n := (length ks - 1)%nat in
        if match mailbox_capacity with Some c => c <? _MIN_MAILBOX_CAPACITY | None => true end
        then (Raise ValueError,
              set_materialized ((fun f => _try_set_exception f ValueError) <$> _materialized w0) w0, rg)
        else
          match spawn_all refused (seq 0 (S n)) w0 with
          | (Raise e, w) => (Raise e, fail_ e w, rg)
          | (Ret _, w) => (Ret (ks, initial_pipe (iterable_of (_source rg)) prefetch maxbuf n w), w, rg)
          end.
End run.
