(* ===== verification/StreamLink.v ===== *)
(** The protocol between two neighbouring stages of a stream.

    A [Link] is what the sender (upstream) and the receiver (downstream) know of each other,
    with the messages under way: [reqs] to the sender, [data] to the receiver.  [sent] and
    [got] are the elements emitted and taken so far.  [link_ok] is the invariant that makes
    back-pressure work: what was asked for and not yet received is what is on the way, owed
    by the sender, or in its mailbox as requests, and never more than the prefetch [p].

    [fin l] says that [l] is all the sender will ever emit and nothing went wrong; [Q] that
    nothing has gone wrong in the whole pipeline. *)

From stdpp Require Import base list numbers.
From S2P Require Import Prelude Streams.

Definition sumZ (l : list Z) : Z := foldr Z.add 0 l.
Lemma sumZ_app l k : sumZ (l ++ k) = sumZ l + sumZ k.
Proof. unfold sumZ. induction l as [|x l IH]; cbn; lia. Qed.
Lemma sumZ_length l : Forall (fun n => 0 < n) l -> Z.of_nat (length l) <= sumZ l.
Proof. unfold sumZ. induction 1; cbn [length foldr]; lia. Qed.

Section link.
Context {T : Type} (p : Z) (receiver : nat).
Abbreviation msg := (StageBehaviorCommand T).

(** A message from the neighbour upstream, or downstream. *)
Definition from_up (m : msg) : bool :=
  match m with OnNext _ | OnComplete | OnError _ => true | _ => false end.
Definition from_down (m : msg) : bool :=
  match m with Subscribe _ _ | Request _ | Cancel => true | _ => false end.

Record Link := mkLink {
  sender_runs : bool; receiver_runs : bool;
  receiver_wired : bool; sender_wired : bool;
  owing : Z; owed : Z; receiver_closed : bool;
  reqs : list msg; data : list msg;
  sent : list T; got : list T }.

Definition terminal (t : list msg) : Prop := t = [] \/ t = [OnComplete] \/ exists e, t = [OnError e].

(** The requests [ns] and perhaps a cancellation [cn] under way, the elements [xs] and
    perhaps a terminal message [t]. *)
Record link_with (Q : Prop) (fin : list T -> Prop) (L : Link) (ns : list Z) (cn : list msg) (xs : list T)
    (t : list msg) : Prop := {
  lk_reqs : reqs L = (if sender_runs L && receiver_wired L && negb (sender_wired L)
                      then [Subscribe receiver true] else []) ++ (Request <$> ns) ++ cn;
  lk_pos : Forall (fun n => 0 < n) ns;
  lk_cancel : cn = [] \/ cn = [Cancel] /\ receiver_runs L = false;
  lk_data : data L = (OnNext <$> xs) ++ t;
  lk_terminal : terminal t;
  lk_last : t <> [] -> sender_runs L = false;
  lk_dead_sender : sender_runs L = false -> ns = [] /\ cn = [];
  lk_dead_receiver : receiver_runs L = false -> xs = [] /\ t = [];
  lk_unwired : receiver_wired L = false -> owed L = 0 /\ sender_wired L = false /\ cn = [];
  lk_unasked : sender_wired L = false -> owing L = 0 /\ xs = [] /\ t = [];
  lk_owing : 0 <= owing L;
  lk_owed : 0 <= owed L <= p;
  lk_credit : sender_runs L = true -> sumZ ns + owing L + Z.of_nat (length xs) <= owed L;
  lk_credit_eq : sender_runs L = true -> receiver_runs L = true ->
                 sumZ ns + owing L + Z.of_nat (length xs) = owed L;
  lk_elements : Z.of_nat (length xs) <= owed L;
  lk_flow : receiver_runs L = true -> sent L = got L ++ xs;
  lk_prefix : got L `prefix_of` sent L;
  lk_complete : t = [OnComplete] -> fin (sent L);
  lk_closed : receiver_closed L = true -> sender_runs L = false /\ xs = [] /\ t = [] /\ fin (got L);
  lk_quiet : Q -> cn = [] /\ (t = [] \/ t = [OnComplete]) /\
             (sender_runs L = false -> receiver_runs L = true -> receiver_closed L = true \/ t = [OnComplete]) /\
             (receiver_runs L = false -> sender_runs L = false) }.
Definition link_ok (Q : Prop) (fin : list T -> Prop) (L : Link) : Prop :=
  exists ns cn xs t, link_with Q fin L ns cn xs t.

Lemma link_weaken (Q Q' : Prop) fin L : (Q' -> Q) -> link_ok Q fin L -> link_ok Q' fin L.
Proof. intros H (ns & cn & xs & t & []). exists ns, cn, xs, t. split; auto. Qed.

(** Use every hypothesis whose premise is at hand. *)
Ltac link_auto :=
  intros; repeat match goal with
  | H : ?A -> _, H' : ?A |- _ => match type of A with Prop => specialize (H H') end
  | H : ?a = ?a -> _ |- _ => specialize (H eq_refl)
  | H : true = false -> _ |- _ => clear H
  | H : false = true -> _ |- _ => clear H
  | H : _ /\ _ |- _ => destruct H
  end; split_and?; subst; cbn [length sumZ foldr] in *; solve [done | lia | congruence | auto].

(** At most this many messages of each direction are under way. *)
Lemma link_reqs_bound Q fin L : link_ok Q fin L -> Z.of_nat (length (reqs L)) <= p + 2.
Proof.
  intros (ns & cn & xs & t & H). rewrite (lk_reqs _ _ _ _ _ _ _ H), !length_app, length_fmap.
  pose proof (sumZ_length ns (lk_pos _ _ _ _ _ _ _ H)) as Hn.
  pose proof (lk_owed _ _ _ _ _ _ _ H). pose proof (lk_owing _ _ _ _ _ _ _ H).
  assert (length cn <= 1)%nat by (destruct (lk_cancel _ _ _ _ _ _ _ H) as [->|[-> _]]; cbn; lia).
  destruct (sender_runs L) eqn:E.
  - pose proof (lk_credit _ _ _ _ _ _ _ H E). case_match; cbn; lia.
  - destruct (lk_dead_sender _ _ _ _ _ _ _ H E) as [-> ->]. cbn. lia.
Qed.
Lemma link_data_bound Q fin L : link_ok Q fin L -> Z.of_nat (length (data L)) <= p + 1.
Proof.
  intros (ns & cn & xs & t & H). rewrite (lk_data _ _ _ _ _ _ _ H), length_app, length_fmap.
  pose proof (lk_elements _ _ _ _ _ _ _ H). pose proof (lk_owed _ _ _ _ _ _ _ H).
  destruct (lk_terminal _ _ _ _ _ _ _ H) as [->|[->|[e ->]]]; cbn; lia.
Qed.
Lemma link_owing_bound Q fin L : link_ok Q fin L -> sender_runs L = true -> owing L <= p.
Proof.
  intros (ns & cn & xs & t & H) E. pose proof (lk_credit _ _ _ _ _ _ _ H E).
  pose proof (sumZ_length ns (lk_pos _ _ _ _ _ _ _ H)). pose proof (lk_owed _ _ _ _ _ _ _ H). lia.
Qed.

(** ** The moves of the receiver *)

Definition to_sender (L : Link) (ms : list msg) : list msg :=
  if sender_runs L then reqs L ++ ms else reqs L.
Definition to_receiver (L : Link) (ms : list msg) : list msg :=
  if receiver_runs L then data L ++ ms else data L.

Definition subscribing (L : Link) : Link :=
  mkLink (sender_runs L) (receiver_runs L) true (sender_wired L) (owing L) (owed L) (receiver_closed L)
    (to_sender L [Subscribe receiver true]) (data L) (sent L) (got L).
Definition ask (n : Z) (L : Link) : Link :=
  mkLink (sender_runs L) (receiver_runs L) (receiver_wired L) (sender_wired L) (owing L) (owed L + n)
    (receiver_closed L) (to_sender L [Request n]) (data L) (sent L) (got L).
Definition take_element (x : T) (rest : list msg) (L : Link) : Link :=
  mkLink (sender_runs L) (receiver_runs L) (receiver_wired L) (sender_wired L) (owing L) (owed L - 1)
    (receiver_closed L) (reqs L) rest (sent L) (got L ++ [x]).
Definition take_complete (rest : list msg) (L : Link) : Link :=
  mkLink (sender_runs L) (receiver_runs L) (receiver_wired L) (sender_wired L) (owing L) 0
    true (reqs L) rest (sent L) (got L).
(** The receiver stops, after it sent [cn]. *)
Definition receiver_dies (cn : list msg) (L : Link) : Link :=
  mkLink (sender_runs L) false (receiver_wired L) (sender_wired L) (owing L) (owed L) (receiver_closed L)
    (to_sender L cn) [] (sent L) (got L).

Lemma subscribe_ok Q fin L :
  link_ok Q fin L -> receiver_wired L = false -> receiver_runs L = true -> link_ok Q fin (subscribing L).
Proof.
  intros (ns & cn & xs & t & H) Hw Hr. exists ns, cn, xs, t. destruct H.
  destruct (lk_unwired0 Hw) as (Ho & Hs & _). unfold subscribing, to_sender. split; cbn; try done; try link_auto.
  rewrite lk_reqs0, Hw, Hs. destruct (sender_runs L) eqn:E; cbn; [|done].
  assert (ns = []) as ->.
  { pose proof (sumZ_length ns lk_pos0). destruct ns; [done|]. specialize (lk_credit0 eq_refl). cbn in *. lia. }
  destruct lk_cancel0 as [->|[-> ?]]; [done|congruence].
Qed.

Lemma ask_ok Q fin L n :
  link_ok Q fin L -> receiver_wired L = true -> receiver_runs L = true -> 0 < n -> owed L + n <= p ->
  receiver_closed L = false -> link_ok Q fin (ask n L).
Proof.
  intros (ns & cn & xs & t & H) Hw Hr Hn Hp Hc.
  assert (cn = []) as -> by (destruct (lk_cancel _ _ _ _ _ _ _ H) as [->|[_ ?]]; congruence).
  exists (if sender_runs L then ns ++ [n] else ns), [], xs, t. destruct H. unfold ask, to_sender.
  destruct (sender_runs L) eqn:E; split; cbn [sender_runs receiver_runs receiver_wired sender_wired owing owed
    receiver_closed reqs data sent got]; rewrite ?E in *; try done; try link_auto.
  - rewrite lk_reqs0, fmap_app. cbn. by rewrite !app_nil_r, <- app_assoc.
  - apply Forall_app_2; [done|]. by repeat constructor.
  - rewrite sumZ_app. cbn. intros _. specialize (lk_credit0 eq_refl). lia.
  - rewrite sumZ_app. cbn. intros _ _. specialize (lk_credit_eq0 eq_refl Hr). lia.
Qed.

(** What a receiver finds first. *)
Lemma take_element_ok Q fin L x rest :
  link_ok Q fin L -> data L = OnNext x :: rest -> receiver_runs L = true ->
  link_ok Q fin (take_element x rest L) /\ 0 < owed L /\ receiver_closed L = false /\ receiver_wired L = true.
Proof.
  intros (ns & cn & xs & t & H) Hd Hr. destruct H. rewrite lk_data0 in Hd.
  destruct xs as [|x' xs]; [exfalso; destruct lk_terminal0 as [->|[->|[e ->]]]; discriminate Hd|].
  cbn in Hd. simplify_eq. cbn [length] in *.
  assert (Hc : receiver_closed L = false) by (destruct (receiver_closed L); [|done]; by destruct (lk_closed0 eq_refl) as (_ & ? & ? & _)).
  assert (Hw : receiver_wired L = true) by (destruct (receiver_wired L); [done|]; destruct (lk_unwired0 eq_refl); lia).
  split; [|split; [lia|done]]. exists ns, cn, xs, t. rewrite lk_flow0 in * by done.
  split; cbn; try done; try link_auto.
  - intros _. rewrite <- app_assoc. by apply lk_flow0.
  - exists xs. rewrite <- app_assoc. by apply lk_flow0.
Qed.

Lemma take_complete_ok Q fin L rest :
  link_ok Q fin L -> data L = OnComplete :: rest -> receiver_runs L = true ->
  link_ok Q fin (take_complete rest L) /\ rest = [] /\ fin (got L) /\ sender_runs L = false /\
  receiver_closed L = false.
Proof.
  intros (ns & cn & xs & t & H) Hd Hr. destruct H. rewrite lk_data0 in Hd.
  destruct xs as [|x xs]; [|done]. cbn in Hd. subst t.
  assert (rest = []) as -> by (destruct lk_terminal0 as [?|[?|[e ?]]]; by simplify_eq).
  assert (Hs : sender_runs L = false) by by apply lk_last0.
  assert (Hf : fin (got L)) by (rewrite lk_flow0, app_nil_r in lk_complete0 by done; auto).
  assert (Hc : receiver_closed L = false) by (destruct (receiver_closed L); [|done]; by destruct (lk_closed0 eq_refl) as (_ & ? & ? & _)).
  split; [|done]. exists ns, cn, [], []. split; cbn; try done; try link_auto.
  by left.
Qed.

(** A receiver that reads an error is about to die, and something went wrong. *)
Lemma take_error_loud Q fin L e rest : link_ok Q fin L -> data L = OnError e :: rest -> ~ Q.
Proof.
  intros (ns & cn & xs & t & H) Hd HQ. destruct H. rewrite lk_data0 in Hd.
  destruct xs as [|x xs]; [|done]. cbn in Hd. subst t. destruct (lk_quiet0 HQ) as (_ & [?|?] & _); done.
Qed.

Lemma receiver_dies_ok Q fin L cn :
  link_ok Q fin L -> receiver_runs L = true -> cn = [] \/ cn = [Cancel] -> (receiver_wired L = false -> cn = []) ->
  (Q -> cn = [] /\ sender_runs L = false) -> link_ok Q fin (receiver_dies cn L).
Proof.
  intros (ns & cn0 & xs & t & H) Hr Hcn Hw HQ. destruct H.
  assert (cn0 = []) as -> by (destruct lk_cancel0 as [->|[_ ?]]; congruence).
  exists ns, (if sender_runs L then cn else []), [], []. unfold receiver_dies, to_sender.
  split; cbn [sender_runs receiver_runs receiver_wired sender_wired owing owed receiver_closed reqs data sent got length];
    try done; try link_auto.
  - rewrite lk_reqs0. destruct (sender_runs L); [|by rewrite app_nil_r]. by rewrite app_nil_r, <- app_assoc.
  - destruct (sender_runs L); [|by left]. destruct Hcn as [->| ->]; auto.
  - by left.
  - intros E. rewrite E. split; [|done]. by apply lk_dead_sender0.
  - intros E. destruct (lk_unwired0 E) as (? & ? & _). rewrite (Hw E). by destruct (sender_runs L).
  - intros Hq. destruct (HQ Hq) as [-> E], (lk_quiet0 Hq) as (_ & _ & _ & ?). rewrite E. split_and!; auto; done.
Qed.

(** ** The moves of the sender *)

Definition subscribed_by (rest : list msg) (L : Link) : Link :=
  mkLink (sender_runs L) (receiver_runs L) (receiver_wired L) true (owing L) (owed L) (receiver_closed L)
    rest (data L) (sent L) (got L).
Definition asked (n : Z) (rest : list msg) (L : Link) : Link :=
  mkLink (sender_runs L) (receiver_runs L) (receiver_wired L) (sender_wired L) (owing L + n) (owed L)
    (receiver_closed L) rest (data L) (sent L) (got L).
Definition emit (xs : list T) (L : Link) : Link :=
  mkLink (sender_runs L) (receiver_runs L) (receiver_wired L) (sender_wired L)
    (owing L - Z.of_nat (length xs)) (owed L) (receiver_closed L) (reqs L)
    (to_receiver L (OnNext <$> xs)) (sent L ++ xs) (got L).
(** The sender stops, after it sent [t]. *)
Definition sender_dies (t : list msg) (L : Link) : Link :=
  mkLink false (receiver_runs L) (receiver_wired L) (sender_wired L) (owing L) (owed L) (receiver_closed L)
    [] (to_receiver L t) (sent L) (got L).

Lemma subscribed_by_ok Q fin L d w rest :
  link_ok Q fin L -> reqs L = Subscribe d w :: rest -> sender_runs L = true ->
  link_ok Q fin (subscribed_by rest L) /\ d = receiver /\ w = true /\ sender_wired L = false /\
  receiver_wired L = true.
Proof.
  intros (ns & cn & xs & t & H) Hq Hs. destruct H. rewrite lk_reqs0, Hs in Hq.
  destruct (receiver_wired L && negb (sender_wired L)) eqn:E; cbn [andb] in Hq; rewrite E in Hq.
  - apply andb_true_iff in E as [E1 E2%negb_true_iff]. cbn in Hq. injection Hq as <- <- <-.
    split; [|done]. exists ns, cn, xs, t. split; cbn; try done; try link_auto.
    rewrite Hs, E1. done.
  - exfalso. destruct ns as [|n ns]; [|done]. destruct lk_cancel0 as [->|[-> _]]; done.
Qed.

Lemma asked_ok Q fin L n rest :
  link_ok Q fin L -> reqs L = Request n :: rest -> sender_runs L = true ->
  link_ok Q fin (asked n rest L) /\ 0 < n /\ sender_wired L = true /\ receiver_wired L = true.
Proof.
  intros (ns & cn & xs & t & H) Hq Hs. destruct H. rewrite lk_reqs0, Hs in Hq.
  destruct (receiver_wired L && negb (sender_wired L)) eqn:E; cbn [andb] in Hq; rewrite E in Hq; [done|].
  destruct ns as [|n' ns]; [exfalso; destruct lk_cancel0 as [->|[-> _]]; done|].
  cbn in Hq. injection Hq as -> <-. pose proof (Forall_inv lk_pos0) as Hn. pose proof (Forall_inv_tail lk_pos0) as Hpos.
  pose proof (sumZ_length ns Hpos). cbn [sumZ foldr] in *. fold (sumZ ns) in *.
  assert (Hw : receiver_wired L = true).
  { destruct (receiver_wired L); [done|]. destruct (lk_unwired0 eq_refl). specialize (lk_credit0 Hs). lia. }
  assert (Hsw : sender_wired L = true) by (rewrite Hw in E; by destruct (sender_wired L)).
  split; [|done]. exists ns, cn, xs, t. split; cbn; try done; try link_auto.
  rewrite Hs, Hw, Hsw. done.
Qed.

Lemma cancel_loud Q fin L rest :
  link_ok Q fin L -> reqs L = Cancel :: rest -> sender_runs L = true -> ~ Q /\ sender_wired L = true.
Proof.
  intros (ns & cn & xs & t & H) Hq Hs. destruct H. rewrite lk_reqs0, Hs in Hq. cbn [andb] in Hq. split.
  - intros HQ. destruct (lk_quiet0 HQ) as (-> & _). case_match; [done|]. by destruct ns.
  - destruct (sender_wired L); [done|]. destruct (receiver_wired L); [done|].
    destruct (lk_unwired0 eq_refl) as (_ & _ & ->). by destruct ns.
Qed.

Lemma emit_ok Q fin L ys :
  link_ok Q fin L -> sender_runs L = true -> Z.of_nat (length ys) <= owing L -> link_ok Q fin (emit ys L).
Proof.
  intros (ns & cn & xs & t & H) Hs Ho. destruct H.
  assert (t = []) as ->.
  { destruct t as [|m t]; [done|]. specialize (lk_last0 ltac:(done)). congruence. }
  assert (Hu : sender_wired L = false -> ys = []).
  { intros (E & _ & _)%lk_unasked0. destruct ys; [done|]. cbn in Ho. lia. }
  exists ns, cn, (if receiver_runs L then xs ++ ys else xs), []. unfold emit, to_receiver.
  rewrite app_nil_r in lk_data0.
  split; cbn [sender_runs receiver_runs receiver_wired sender_wired owing owed receiver_closed reqs data sent got];
    try done; try link_auto.
  - rewrite lk_data0, app_nil_r. destruct (receiver_runs L); [|done]. by rewrite fmap_app.
  - intros E. rewrite E. link_auto.
  - intros E. destruct (lk_unasked0 E) as (? & -> & _). rewrite (Hu E). destruct (receiver_runs L); cbn; split_and!; auto; lia.
  - intros _. specialize (lk_credit0 Hs). destruct (receiver_runs L); rewrite ?length_app; lia.
  - intros _ E. specialize (lk_credit_eq0 Hs E). rewrite E, length_app. lia.
  - specialize (lk_credit0 Hs). pose proof (sumZ_length ns lk_pos0).
    destruct (receiver_runs L); rewrite ?length_app; lia.
  - intros E. rewrite E, lk_flow0 by done. by rewrite <- app_assoc.
  - by apply prefix_app_r.
Qed.

Lemma sender_dies_ok Q fin L t :
  link_ok Q fin L -> sender_runs L = true -> terminal t -> (t = [OnComplete] -> fin (sent L)) ->
  (sender_wired L = false -> t = []) -> (Q -> t = [OnComplete]) -> link_ok Q fin (sender_dies t L).
Proof.
  intros (ns & cn & xs & t0 & H) Hs Ht Hf Hw HQ. destruct H.
  assert (t0 = []) as ->.
  { destruct t0 as [|m t0]; [done|]. specialize (lk_last0 ltac:(done)). congruence. }
  exists [], [], xs, (if receiver_runs L then t else []). unfold sender_dies, to_receiver.
  rewrite app_nil_r in lk_data0.
  split; cbn [sender_runs receiver_runs receiver_wired sender_wired owing owed receiver_closed reqs data sent got andb app fmap list_fmap];
    try done; try link_auto.
  - rewrite lk_data0. destruct (receiver_runs L); [done|]. by rewrite app_nil_r.
  - destruct (receiver_runs L); [done|by left].
  - intros E. rewrite E. link_auto.
  - intros E. destruct (lk_unasked0 E) as (? & ? & _). rewrite (Hw E). by destruct (receiver_runs L).
  - destruct (receiver_runs L); [done|]. intros ?. done.
  - intros Hq. rewrite (HQ Hq). split; [done|]. destruct (receiver_runs L); split_and!; auto; done.
Qed.
End link.
