(* ===== verification/StreamReact.v ===== *)
(** What a stage does with a message, apart from the world it does it in.

    In the environment [recording] nothing fails and the actions are listed.  A method that
    asks for nothing but actions does the same in every world that carries them out
    ([receive_plays]); and the mailboxes of the pipeline do, if they have room
    ([plays_ok]). *)

From stdpp Require Import base list numbers gmap functions.
From S2P Require Import Prelude Effects Streams StreamGraph.

Section react.
Context {T : Type}.
Abbreviation msg := (StageBehaviorCommand T).
Abbreviation acts := (list (action T)).

Definition recording : StreamEnv T acts := fun a l => (Ret tt, l ++ [a]).

(** All actions are carried out, and none raises. *)
Fixpoint plays (cap : Z) (l : acts) (w : World T) : option (World T) :=
  match l with
  | [] => Some w
  | a :: l => match perform_ cap a w with (Ret _, w') => plays cap l w' | (Raise _, _) => None end
  end.
Lemma plays_app cap l k w : plays cap (l ++ k) w = plays cap l w ≫= plays cap k.
Proof. revert w. induction l as [|a l IH]; intros w; [done|]. cbn. destruct (perform_ cap a w) as [[] w']; [apply IH|done]. Qed.

Definition follows {A} (cap : Z) (m1 : Eff (Stage T * acts) exn A) (m2 : Eff (Stage T * World T) exn A) : Prop :=
  forall s l w, exists o s' k, m1 (s, l) = (o, (s', l ++ k)) /\
    forall w', plays cap k w = Some w' -> m2 (s, w) = (o, (s', w')).

Section rules.
Context (cap : Z).
Abbreviation bounded := (perform_ cap : StreamEnv T (World T)).

Lemma follows_ret {A} (a : A) : follows cap (ret a) (ret a).
Proof. intros s l w. exists (Ret a), s, []. rewrite app_nil_r. split; [done|]. by intros w' [= ->]. Qed.
Lemma follows_raise {A} e : follows cap (raise e : Eff _ _ A) (raise e).
Proof. intros s l w. exists (Raise e), s, []. rewrite app_nil_r. split; [done|]. by intros w' [= ->]. Qed.
Lemma follows_this : follows cap this this.
Proof. intros s l w. exists (Ret s), s, []. rewrite app_nil_r. split; [done|]. by intros w' [= ->]. Qed.
Lemma follows_update f : follows cap (update f) (update f).
Proof. intros s l w. exists (Ret tt), (f s), []. rewrite app_nil_r. split; [done|]. by intros w' [= ->]. Qed.
Lemma follows_do a : follows cap (@do_ T _ recording a) (@do_ T _ bounded a).
Proof.
  intros s l w. exists (Ret tt), s, [a]. split; [done|]. intros w'. cbn. unfold do_, perform.
  cbn [fst snd]. destruct (perform_ cap a w) as [[[]|e] w1]; [|done]. by intros [= ->].
Qed.
Lemma follows_bind {A B} m1 m2 (k1 : A -> Eff _ _ B) k2 :
  follows cap m1 m2 -> (forall a, follows cap (k1 a) (k2 a)) -> follows cap (bind m1 k1) (bind m2 k2).
Proof.
  intros Hm Hk s l w. destruct (Hm s l w) as (o & s1 & la & E1 & H1). unfold bind. rewrite E1.
  destruct o as [a|e].
  - destruct (plays cap la w) as [w1|] eqn:Ew.
    + destruct (Hk a s1 (l ++ la) w1) as (o & s2 & lb & -> & H2). exists o, s2, (la ++ lb).
      rewrite app_assoc. split; [done|]. intros w'. rewrite plays_app, Ew. cbn. intros Hw.
      rewrite (H1 _ eq_refl). by apply H2.
    + destruct (Hk a s1 (l ++ la) w) as (o & s2 & lb & -> & _). exists o, s2, (la ++ lb).
      rewrite app_assoc. split; [done|]. intros w'. by rewrite plays_app, Ew.
  - exists (Raise e), s1, la. split; [done|]. intros w' Hw. by rewrite (H1 _ Hw).
Qed.
Lemma follows_catch {A} m1 m2 (h1 : exn -> Eff _ _ A) h2 :
  follows cap m1 m2 -> (forall e, follows cap (h1 e) (h2 e)) -> follows cap (catch m1 h1) (catch m2 h2).
Proof.
  intros Hm Hk s l w. destruct (Hm s l w) as (o & s1 & la & E1 & H1). unfold catch. rewrite E1.
  destruct o as [a|e].
  - exists (Ret a), s1, la. split; [done|]. intros w' Hw. by rewrite (H1 _ Hw).
  - destruct (plays cap la w) as [w1|] eqn:Ew.
    + destruct (Hk e s1 (l ++ la) w1) as (o & s2 & lb & -> & H2). exists o, s2, (la ++ lb).
      rewrite app_assoc. split; [done|]. intros w'. rewrite plays_app, Ew. cbn. intros Hw.
      rewrite (H1 _ eq_refl). by apply H2.
    + destruct (Hk e s1 (l ++ la) w) as (o & s2 & lb & -> & _). exists o, s2, (la ++ lb).
      rewrite app_assoc. split; [done|]. intros w'. by rewrite plays_app, Ew.
Qed.
Lemma follows_when c m1 m2 : follows cap m1 m2 -> follows cap (when c m1) (when c m2).
Proof. intros H. destruct c; [done|apply follows_ret]. Qed.
Lemma follows_lift {A} (r : result A) : follows cap (lift r) (lift r).
Proof. destruct r; [apply follows_ret|apply follows_raise]. Qed.

Create HintDb follows.

(** By the shape of a method. *)
Ltac follows :=
  repeat match goal with
  | |- follows _ (ret _) _ => apply follows_ret
  | |- follows _ (raise _) _ => apply follows_raise
  | |- follows _ this _ => apply follows_this
  | |- follows _ (update _) _ => apply follows_update
  | |- follows _ (do_ _) _ => apply follows_do
  | |- follows _ (lift _) _ => apply follows_lift
  | |- follows _ (bind _ _) _ => apply follows_bind; [|intros ?]
  | |- follows _ (catch _ _) _ => apply follows_catch; [|intros ?]
  | |- follows _ (when _ _) _ => apply follows_when
  | |- follows _ (match _ with _ => _ end) _ => case_match
  | |- follows _ (let _ := _ in _) _ => cbv zeta
  | |- _ => solve [auto with follows]
  end.

Lemma follows_stop i : follows cap (@_stop T _ recording i) (@_stop T _ bounded i).
Proof. unfold _stop. follows. Qed.
#[local] Hint Resolve follows_stop : follows.
Lemma follows_tell_opt r m : follows cap (@tell_opt T _ recording r m) (@tell_opt T _ bounded r m).
Proof. unfold tell_opt. follows. Qed.
#[local] Hint Resolve follows_tell_opt : follows.
Lemma follows_maybe_pull : follows cap (@_maybe_pull T _ recording) (@_maybe_pull T _ bounded).
Proof. unfold _maybe_pull. follows. Qed.
#[local] Hint Resolve follows_maybe_pull : follows.
Lemma follows_push_loop n : follows cap (@push_loop T _ recording n) (@push_loop T _ bounded n).
Proof. induction n as [|n IH]; cbn [push_loop]; follows. Qed.
#[local] Hint Resolve follows_push_loop : follows.
Lemma follows_push : follows cap (@_push T _ recording) (@_push T _ bounded).
Proof. unfold _push. follows. Qed.
#[local] Hint Resolve follows_push : follows.
Lemma follows_push_or_stop i : follows cap (@push_or_stop T _ recording i) (@push_or_stop T _ bounded i).
Proof. unfold push_or_stop. follows. Qed.
#[local] Hint Resolve follows_push_or_stop : follows.
Lemma follows_fail_stream e : follows cap (@_fail_stream T _ recording e) (@_fail_stream T _ bounded e).
Proof. unfold _fail_stream. follows. Qed.
#[local] Hint Resolve follows_fail_stream : follows.
Lemma follows_produce i n : follows cap (@produce T _ recording i n) (@produce T _ bounded i n).
Proof. induction n as [|n IH]; cbn [produce]; follows. Qed.
#[local] Hint Resolve follows_produce : follows.
Lemma follows_sink_wired i u w : follows cap (@sink_wired T _ recording i u w) (@sink_wired T _ bounded i u w).
Proof. unfold sink_wired. follows. Qed.
#[local] Hint Resolve follows_sink_wired : follows.

Lemma follows_receive k i m : follows cap (@receive T _ recording k i m) (@receive T _ bounded k i m).
Proof.
  destruct k; cbn [receive]; unfold SourceFromIterable_receive, StageBehavior_receive, SinkForEach_receive,
    SinkCollect_receive, subscribed; follows.
Qed.
End rules.

(** A stage's answer to a message: the outcome, the stage it leaves, and what it did. *)
Definition react (k : kind T) (i : nat) (m : msg) (s : Stage T) : outcome exn bool * (Stage T * acts) :=
  @receive T _ recording k i m (s, []).
Lemma receive_plays cap k i m s w o s' l w' :
  react k i m s = (o, (s', l)) -> plays cap l w = Some w' ->
  @receive T _ (perform_ cap) k i m (s, w) = (o, (s', w')).
Proof.
  intros Hr Hp. destruct (follows_receive cap k i m s [] w) as (o1 & s1 & l1 & E & H).
  unfold react in Hr. rewrite E in Hr. injection Hr as -> -> ->. by apply H.
Qed.

(** ** The wiring a message leaves *)

#[local] Existing Instance recording.
Section fields.
Context {A : Type} (field : Stage T -> A).
(** A field that only wiring and completion set. *)
Record wiring_field : Prop := {
  wf_buf : forall b s, field (set_buf b s) = field s;
  wf_demand : forall d s, field (set_demand d s) = field s;
  wf_in_flight : forall n s, field (set_in_flight n s) = field s;
  wf_terminated : forall s, field (set_terminated s) = field s;
  wf_completion : forall s, field (set_completion_sent s) = field s;
  wf_iter : forall it s, field (set_iter it s) = field s;
  wf_exhausted : forall s, field (set_exhausted s) = field s;
  wf_items : forall l s, field (set_items l s) = field s }.
Context (Hf : wiring_field).

Definition same_field (x y : Stage T * acts) : Prop := field x.1 = field y.1.
#[local] Instance same_field_preorder : PreOrder same_field.
Proof. split; [done|]. intros x y z H1 H2. unfold same_field in *. congruence. Qed.

Lemma field_do a : Preserves same_field (do_ a).
Proof. done. Qed.
Lemma field_this : Preserves same_field this.
Proof. done. Qed.
Lemma field_update f : (forall s, field (f s) = field s) -> Preserves same_field (update f).
Proof. intros H s. unfold same_field. cbn. by rewrite H. Qed.
Lemma field_lift {B} (r : result B) : Preserves same_field (lift r).
Proof. by destruct r. Qed.
Lemma field_tell r m : Preserves same_field (tell_opt r m).
Proof. by destruct r. Qed.
#[local] Hint Resolve field_do field_this field_lift field_tell : preserves.
#[local] Hint Extern 1 (Preserves same_field (update _)) => apply field_update; intros; destruct Hf; congruence : preserves.
Lemma field_stop i : Preserves same_field (_stop i).
Proof. unfold _stop. preserves. Qed.
Lemma field_pull : Preserves same_field _maybe_pull.
Proof. unfold _maybe_pull. preserves. Qed.
Lemma field_push_loop n : Preserves same_field (push_loop n).
Proof. induction n as [|n IH]; cbn [push_loop]; preserves. Qed.
#[local] Hint Resolve field_stop field_pull field_push_loop : preserves.
Lemma field_push : Preserves same_field _push.
Proof. unfold _push. preserves. Qed.
#[local] Hint Resolve field_push : preserves.
Lemma field_push_or_stop i : Preserves same_field (push_or_stop i).
Proof. unfold push_or_stop. preserves. Qed.
Lemma field_fail e : Preserves same_field (_fail_stream e).
Proof. unfold _fail_stream. preserves. Qed.
Lemma field_produce i n : Preserves same_field (produce i n).
Proof. induction n as [|n IH]; cbn [produce]; preserves. Qed.
#[local] Hint Resolve field_push_or_stop field_fail field_produce : preserves.

(** What a message does to such a field. *)
Definition field_after (k : kind T) (m : msg) (s : Stage T) : A :=
  match k, m with
  | SourceFromIterable, Subscribe d w => field (set_down d w s)
  | SourceFromIterable, _ => field s
  | FlowMap _, Subscribe d w => field (set_down d w s)
  | FlowMap _, OnComplete => field (set_up_closed s)
  | _, SetUpstream u w => field (set_up u w s)
  | _, _ => field s
  end.
(** A method that sets fields first, and then keeps this one. *)
Lemma field_set f (rest : Eff (Stage T * acts) exn bool) s o s' l :
  Preserves same_field rest -> bind (update f) (fun _ => rest) (s, []) = (o, (s', l)) -> field s' = field (f s).
Proof.
  intros Hrest H. unfold bind, update in H. cbn [fst snd] in H. specialize (Hrest (f s, [])).
  rewrite H in Hrest. by symmetry.
Qed.
Lemma field_kept k i m s o s' l :
  Preserves same_field (@receive T _ recording k i m) -> react k i m s = (o, (s', l)) -> field s' = field s.
Proof. intros H Hr. specialize (H (s, [])). unfold react in Hr. rewrite Hr in H. by symmetry. Qed.

Lemma react_field k i m s o s' l :
  react k i m s = (o, (s', l)) -> _terminated s = false -> field s' = field_after k m s.
Proof.
  intros Hr Ht. destruct k, m as [d w|u w| | | | |]; cbn [field_after];
    try (eapply field_kept; [|exact Hr]; cbn [receive];
         unfold SourceFromIterable_receive, StageBehavior_receive, SinkForEach_receive, SinkCollect_receive; preserves; fail);
    unfold react in Hr; cbn [receive] in Hr;
    unfold SourceFromIterable_receive, StageBehavior_receive, SinkForEach_receive, SinkCollect_receive, sink_wired, subscribed in Hr;
    unfold bind at 1, this at 1 in Hr; cbn [fst] in Hr; rewrite ?Ht in Hr.
  - destruct w; by injection Hr as _ <- _.
  - apply (field_set (set_down d w) (bind (when w (do_ Acknowledge)) (fun _ => bind _maybe_pull (fun _ => ret false))) s o s' l);
      [preserves|exact Hr].
  - eapply field_set; [|exact Hr]. preserves.
  - eapply field_set; [|exact Hr]. preserves.
  - by injection Hr as _ <- _.
  - by injection Hr as _ <- _.
Qed.
End fields.

(** What a message does to the wiring of a stage, and to its knowledge of the end. *)
Lemma react_up k i m s o s' l : react k i m s = (o, (s', l)) -> _terminated s = false -> _up s' = field_after _up k m s.
Proof. by apply react_field. Qed.
Lemma react_down k i m s o s' l : react k i m s = (o, (s', l)) -> _terminated s = false -> _down s' = field_after _down k m s.
Proof. by apply react_field. Qed.
Lemma react_closed k i m s o s' l :
  react k i m s = (o, (s', l)) -> _terminated s = false -> _up_closed s' = field_after _up_closed k m s.
Proof. by apply react_field. Qed.

(** ** Carrying actions out *)

Definition told (j : nat) (l : acts) : list msg :=
  omap (fun a => match a with Tell r m => if decide (r = j) then Some m else None | _ => None end) l.
(** What the actions but [tell] do: nothing to the mailboxes. *)
Definition settle (a : action T) (w : World T) : World T :=
  match a with Tell _ _ => w | _ => (perform_ 0 a w).2 end.
Definition settles (l : acts) (w : World T) : World T := fold_left (fun w a => settle a w) l w.
Definition grow (ms : list msg) (b : Box T) : Box T :=
  match status b with
  | Stopped => b
  | _ => mkBox (queue b ++ ms) (batch b) (in_flight_messages b) (status b)
  end.
Definition occupancy (b : Box T) : nat := (length (queue b) + in_flight_messages b)%nat.

Lemma told_concat j l k : told j (l ++ k) = told j l ++ told j k.
Proof. unfold told. apply omap_app. Qed.

Lemma grow_nil b : grow [] b = b.
Proof. unfold grow. destruct b as [q bt n st]. cbn. rewrite app_nil_r. by destruct st. Qed.
Lemma grow_status ms b : status (grow ms b) = status b.
Proof. unfold grow. by destruct (status b) eqn:E. Qed.
Lemma grow_grow ms ns b : grow ns (grow ms b) = grow (ms ++ ns) b.
Proof. unfold grow. destruct (status b) eqn:E; cbn; rewrite ?E; by rewrite ?app_assoc. Qed.

Lemma fail_boxes e (w : World T) : boxes (fail_ e w) = boxes w.
Proof. unfold fail_. by repeat case_match. Qed.
Lemma cancel_boxes (w : World T) : boxes (cancel w) = boxes w.
Proof. unfold cancel, cancel_body. destruct w as [b g r m st c]. cbn. destruct (over _); [done|]. by destruct r, m as [[]|]. Qed.
Lemma settle_boxes a w : boxes (settle a w) = boxes w.
Proof.
  destruct a; cbn; try done; [unfold acknowledge; by repeat case_match|apply fail_boxes|].
  destruct (_materialized w) as [[]|]; cbn; try done. by rewrite cancel_boxes.
Qed.
Lemma settles_boxes l w : boxes (settles l w) = boxes w.
Proof. unfold settles. revert w. induction l as [|a l IH]; intros w; [done|]. cbn. by rewrite IH, settle_boxes. Qed.

Lemma settle_set_boxes b a w : settle a (set_boxes b w) = set_boxes b (settle a w).
Proof.
  destruct w as [b0 g r m st c], a; cbn; try done.
  - unfold acknowledge. cbn. by repeat case_match.
  - unfold fail_. cbn. by repeat case_match.
  - destruct m as [[]|]; cbn; try done. unfold cancel, cancel_body. cbn. destruct (over _); [done|]. by destruct r.
Qed.
Lemma settles_set_boxes b l w : settles l (set_boxes b w) = set_boxes b (settles l w).
Proof.
  unfold settles. revert w. induction l as [|a l IH]; intros w; [done|]. cbn. by rewrite settle_set_boxes, IH.
Qed.

Lemma plays_ok cap l w :
  (forall j, status (boxes w j) <> Stopped -> Z.of_nat (occupancy (boxes w j) + length (told j l)) <= cap) ->
  exists w', plays cap l w = Some w' /\ (forall j, boxes w' j = grow (told j l) (boxes w j)) /\
    w' = set_boxes (boxes w') (settles l w).
Proof.
  revert w. induction l as [|a l IH]; intros w Hroom.
  { exists w. split; [done|]. split; [intros j; by rewrite grow_nil|]. by destruct w. }
  assert (Hcase : (exists r m, a = Tell r m) \/ ~ exists r m, a = Tell r m)
    by (destruct a; [left; eauto|right; by intros (? & ? & ?)..]).
  destruct Hcase as [(r & m & ->)|Ha].
  2: { assert (Hp : perform_ cap a w = (Ret tt, settle a w)) by (destruct a; try done; exfalso; eauto).
       assert (Ht : forall j, told j (a :: l) = told j l) by (intros j; destruct a; try done; exfalso; eauto).
       cbn [plays]. rewrite Hp. destruct (IH (settle a w)) as (w' & ? & Hb & Hw).
       { intros j. rewrite settle_boxes, <- Ht. apply Hroom. }
       exists w'. split; [done|]. split; [|done]. intros j. by rewrite Ht, Hb, settle_boxes. }
  cbn [plays perform_].
  assert (Ht : forall j, told j (Tell r m :: l) = (if decide (r = j) then [m] else []) ++ told j l).
  { intros j. unfold told. cbn. by destruct (decide (r = j)). }
  assert (Hs : send cap m (boxes w r) = Ok (grow [m] (boxes w r))).
  { unfold send, grow. specialize (Hroom r). rewrite Ht, decide_True in Hroom by done. cbn [length app] in Hroom.
    destruct (status (boxes w r)) eqn:E; [..|done];
      (rewrite (proj2 (Z.leb_gt _ _)) by (specialize (Hroom ltac:(done)); unfold occupancy in Hroom; lia); done). }
  rewrite Hs. set (w1 := set_boxes _ w).
  assert (Hw1 : forall j, boxes w1 j = grow (if decide (r = j) then [m] else []) (boxes w j)).
  { intros j. unfold w1. cbn. destruct (decide (r = j)) as [<-|Hne]; [by rewrite fn_lookup_insert|].
    by rewrite fn_lookup_insert_ne, grow_nil. }
  destruct (IH w1) as (w' & ? & Hb & Hw).
  { intros j. rewrite Hw1, grow_status. intros Hj. specialize (Hroom j Hj). rewrite Ht, length_app in Hroom.
    unfold occupancy, grow in *. destruct (status (boxes w j)); [..|done]; cbn; rewrite length_app; lia. }
  exists w'. split; [done|]. split.
  - intros j. by rewrite Hb, Hw1, grow_grow, Ht.
  - rewrite Hw. cbn. unfold w1. rewrite settles_set_boxes. done.
Qed.
End react.
