(* ===== verification/StreamStage.v ===== *)
(** What a stage does in itself: the elements a stream computes ([oks], [mapped]), pushing and
    pulling by equations, actions by addressee ([says]), and [flow_ok], what holds of a flow
    between two messages. *)

From stdpp Require Import base list numbers gmap functions.
From S2P Require Import Prelude Effects Streams StreamGraph StreamLink StreamReact.

Local Open Scope eff_scope.

(** * What a stream computes *)

Section ideal.
Context {T : Type}.

(** The elements of an iterable before it raises, and whether it never does. *)
Fixpoint oks (it : list (result T)) : list T :=
  match it with Ok x :: rest => x :: oks rest | _ => [] end.
Definition all_ok (it : list (result T)) : Prop := Forall (fun r => exists x, r = Ok x) it.

(** The elements a transform makes of a list before it raises, and whether it never does. *)
Fixpoint mapped (f : T -> result (option T)) (l : list T) : list T :=
  match l with
  | [] => []
  | x :: rest => match f x with Ok (Some y) => y :: mapped f rest | Ok None => mapped f rest | Err _ => [] end
  end.
Definition good (f : T -> result (option T)) (l : list T) : Prop := Forall (fun x => exists y, f x = Ok y) l.

Lemma mapped_app f l k : good f l -> mapped f (l ++ k) = mapped f l ++ mapped f k.
Proof. induction 1 as [|x l [y E] _ IH]; [done|]. cbn. rewrite E, IH. by destruct y. Qed.
Lemma mapped_prefix f l k : l `prefix_of` k -> mapped f l `prefix_of` mapped f k.
Proof.
  intros [r ->]. induction l as [|x l IH]; [apply prefix_nil|]. cbn.
  destruct (f x) as [[y|]|e]; [by apply prefix_cons|done|apply prefix_nil].
Qed.
Lemma good_app f l k : good f (l ++ k) <-> good f l /\ good f k.
Proof. apply Forall_app. Qed.
Lemma oks_app l it : oks ((Ok <$> l) ++ it) = l ++ oks it.
Proof. induction l as [|x l IH]; [done|]. cbn. by rewrite IH. Qed.
Lemma oks_all it : all_ok it -> it = Ok <$> oks it.
Proof. induction 1 as [|r it [x ->] _ IH]; [done|]. cbn. by rewrite <- IH. Qed.

Definition nexts (ms : list (StageBehaviorCommand T)) : list T :=
  omap (fun m => match m with OnNext x => Some x | _ => None end) ms.
Lemma nexts_app l k : nexts (l ++ k) = nexts l ++ nexts k.
Proof. apply omap_app. Qed.
Lemma nexts_elements (l : list T) : nexts (OnNext <$> l) = l.
Proof. induction l as [|x l IH]; [done|]. cbn. by rewrite <- IH at 2. Qed.
End ideal.

(** * A stage in itself *)

Section stage.
Context {T : Type} (p q : Z) (Hp : 0 < p <= q).
Abbreviation msg := (StageBehaviorCommand T).
Abbreviation acts := (list (action T)).
#[local] Existing Instance recording.

Lemma do_rec (a : action T) (s : Stage T) (l : acts) : do_ a (s, l) = (Ret tt, (s, l ++ [a])).
Proof. done. Qed.
Lemma set_in_flight_same (s : Stage T) n : n = _in_flight s -> set_in_flight n s = s.
Proof. intros ->. by destruct s. Qed.

Lemma maybe_pull_rec s (l : acts) u d :
  _up s = Some u -> _down s = Some d -> _up_closed s = false -> _terminated s = false ->
  _prefetch s = p -> _maxbuf s = q -> _demand s <= p -> Z.of_nat (length (_buf s)) + _in_flight s <= p ->
  _maybe_pull (s, l) =
    (Ret tt, (set_in_flight (p - Z.of_nat (length (_buf s))) s,
              l ++ if Z.of_nat (length (_buf s)) + _in_flight s <? p
                   then [Tell u (Request (p - Z.of_nat (length (_buf s)) - _in_flight s))] else [])).
Proof.
  intros Hu Hd Hc Ht H1 H2 H3 H4. unfold _maybe_pull, bind, this. cbn [fst]. rewrite Hu, Hd, Hc, Ht, H1, H2. cbn [orb].
  set (n := Z.of_nat (length (_buf s))) in *.
  replace ((q - (n + _in_flight s)) `min` (q `min` (p `max` _demand s) - (n + _in_flight s)))
    with (p - n - _in_flight s) by lia.
  destruct (Z.ltb_spec (n + _in_flight s) p).
  - rewrite (proj2 (Z.ltb_lt _ _)) by lia. unfold update, do_, perform, recording. cbn [fst snd].
    repeat f_equal. lia.
  - rewrite (proj2 (Z.ltb_ge _ _)) by lia. rewrite app_nil_r, set_in_flight_same by lia. done.
Qed.
Lemma maybe_pull_idle s (l : acts) :
  _up s = None \/ _down s = None \/ _up_closed s = true -> _maybe_pull (s, l) = (Ret tt, (s, l)).
Proof.
  intros H. unfold _maybe_pull, bind, this. cbn [fst]. destruct (_up s), (_down s); try done.
  destruct H as [?|[?|Hc]]; try done. by rewrite Hc.
Qed.

Definition emitted (s : Stage T) : nat := (Z.to_nat (_demand s) `min` length (_buf s))%nat.
Definition pushed (s : Stage T) : Stage T :=
  set_buf (drop (emitted s) (_buf s)) (set_demand (_demand s - Z.of_nat (emitted s)) s).

Lemma push_loop_rec s (l : acts) d :
  _down s = Some d -> 0 <= _demand s ->
  push_loop (length (_buf s)) (s, l) =
    (Ret tt, (pushed s, l ++ ((fun x => Tell d (OnNext x)) <$> take (emitted s) (_buf s)))).
Proof.
  intros Hd. remember (length (_buf s)) as n eqn:Hn. revert s l Hd Hn.
  induction n as [|n IH]; intros s l Hd Hn Hdem.
  - destruct s as [u d0 buf dem fl cl pr mx te co li it ex its]. cbn in *.
    destruct buf; [|done]. unfold pushed, emitted. cbn. rewrite Nat.min_0_r. cbn. unfold ret.
    rewrite app_nil_r. unfold set_buf, set_demand. cbn. repeat f_equal. lia.
  - destruct s as [u d0 buf dem fl cl pr mx te co li it ex its]. cbn in *. subst d0.
    destruct buf as [|x buf]; [done|]. injection Hn as Hn. unfold bind, this, update, do_, perform, recording.
    cbn [fst snd _buf _down _demand]. destruct (Z.ltb_spec 0 dem).
    + rewrite IH by (done || cbn; lia). unfold pushed, emitted. cbn.
      replace (Z.to_nat dem) with (S (Z.to_nat (dem - 1))) by lia. cbn [Nat.min].
      rewrite <- app_assoc. cbn. unfold set_buf, set_demand. cbn.
      by replace (dem - 1 - Z.of_nat (Z.to_nat (dem - 1) `min` length buf))
        with (dem - Z.of_nat (S (Z.to_nat (dem - 1) `min` length buf))) by lia.
    + unfold ret, pushed, emitted. cbn. replace (Z.to_nat dem) with O by lia. cbn.
      rewrite app_nil_r. unfold set_buf, set_demand. cbn. repeat f_equal. lia.
Qed.

Definition emits (d : nat) (s : Stage T) : acts :=
  (fun x => Tell d (OnNext x)) <$> take (emitted s) (_buf s).

(** [_push], by what it finds: everything emitted and closed, closed, open or unwired. *)
Lemma push_completes s (l : acts) d :
  _down s = Some d -> 0 <= _demand s -> _up_closed s = true -> _completion_sent s = false ->
  drop (emitted s) (_buf s) = [] ->
  _push (s, l) = (Ret true, (set_terminated (set_completion_sent (pushed s)), l ++ emits d s ++ [Tell d OnComplete])).
Proof.
  intros Hd Hdem Hc Hs Hb. unfold _push, bind, this. cbn [fst]. rewrite (push_loop_rec s l d) by done.
  unfold pushed at 1 2 3 4. cbn [_down _buf _up_closed _completion_sent set_buf set_demand fst]. rewrite Hd, Hb, Hc, Hs.
  cbn. unfold update, do_, perform, recording, ret. cbn. by rewrite <- app_assoc.
Qed.
Lemma push_waits s (l : acts) d :
  _down s = Some d -> 0 <= _demand s -> _up_closed s = true -> drop (emitted s) (_buf s) <> [] ->
  _push (s, l) = (Ret false, (pushed s, l ++ emits d s)).
Proof.
  intros Hd Hdem Hc Hb. unfold _push, bind, this. cbn [fst]. rewrite (push_loop_rec s l d) by done.
  unfold pushed at 1 2. cbn [_down _buf set_buf set_demand fst]. rewrite Hd.
  destruct (drop (emitted s) (_buf s)) as [|x b] eqn:E; [done|].
  rewrite maybe_pull_idle by (right; right; done). done.
Qed.
Lemma push_pulls s (l : acts) u d :
  _down s = Some d -> _up s = Some u -> 0 <= _demand s <= p -> _up_closed s = false -> _terminated s = false ->
  _prefetch s = p -> _maxbuf s = q -> Z.of_nat (length (_buf s)) + _in_flight s <= p ->
  let n := Z.of_nat (length (drop (emitted s) (_buf s))) in
  _push (s, l) = (Ret false, (set_in_flight (p - n) (pushed s),
    l ++ emits d s ++ if n + _in_flight s <? p then [Tell u (Request (p - n - _in_flight s))] else [])).
Proof.
  intros Hd Hu Hdem Hc Ht H1 H2 H3 n. unfold _push, bind, this. cbn [fst]. rewrite (push_loop_rec s l d) by (done || lia).
  assert (Hn : n <= Z.of_nat (length (_buf s))) by (unfold n; rewrite length_drop; lia).
  assert (Hpull : forall l', _maybe_pull (pushed s, l') =
    (Ret tt, (set_in_flight (p - n) (pushed s),
      l' ++ if n + _in_flight s <? p then [Tell u (Request (p - n - _in_flight s))] else []))).
  { intros l'. apply (maybe_pull_rec (pushed s) l' u d); cbn; try done; [unfold emitted; lia|fold n; lia]. }
  cbn [fst]. replace (_down (pushed s)) with (Some d) by done.
  replace (_up_closed (pushed s)) with false by done. cbn [andb].
  destruct (_buf (pushed s)); rewrite Hpull; unfold ret, emits; by rewrite <- app_assoc.
Qed.
Lemma push_unwired s (l : acts) d :
  _down s = Some d -> _buf s = [] -> _up s = None -> _up_closed s = false -> 0 <= _demand s ->
  _push (s, l) = (Ret false, (s, l)).
Proof.
  intros Hd Hb Hu Hc Hdem. unfold _push, bind, this. cbn [fst]. rewrite Hb. cbn [length push_loop]. unfold ret.
  cbn [fst]. rewrite Hd, Hb, Hc. cbn [andb]. by rewrite maybe_pull_idle by auto.
Qed.
Lemma push_no_down s (l : acts) : _down s = None -> _push (s, l) = (Ret false, (s, l)).
Proof.
  intros Hd. unfold _push, bind, this. cbn [fst].
  assert (push_loop (length (_buf s)) (s, l) = (Ret tt, (s, l))) as ->.
  { destruct (length (_buf s)); [done|]. cbn. unfold bind, this. cbn. rewrite Hd. by destruct (_buf s). }
  cbn [fst]. rewrite Hd. by rewrite maybe_pull_idle by auto.
Qed.

(** ** Actions by addressee *)

Definition is_tell (a : action T) : bool := match a with Tell _ _ => true | _ => false end.
Definition others (l : acts) : acts := filter (fun a => is_tell a = false) l.
(** [l] tells [ums] to [u], [dms] to [d], nothing to anyone else, and does [os] besides. *)
Record says (u d : nat) (l : acts) (ums dms : list msg) (os : acts) : Prop := {
  says_up : told u l = ums;
  says_down : told d l = dms;
  says_others : others l = os;
  says_only : forall j, j <> u -> j <> d -> told j l = [] }.

Lemma says_nil u d : says u d [] [] [] [].
Proof. done. Qed.
Lemma says_app u d l1 l2 u1 u2 d1 d2 o1 o2 :
  says u d l1 u1 d1 o1 -> says u d l2 u2 d2 o2 -> says u d (l1 ++ l2) (u1 ++ u2) (d1 ++ d2) (o1 ++ o2).
Proof.
  intros [A1 B1 C1 D1] [A2 B2 C2 D2]. split; rewrite ?told_concat; [by rewrite A1, A2|by rewrite B1, B2| |].
  - unfold others in *. rewrite list.filter_app. by rewrite C1, C2.
  - intros j Hu Hd. by rewrite told_concat, D1, D2.
Qed.
Lemma says_tell_up u d m : u <> d -> says u d [Tell u m] [m] [] [].
Proof.
  intros Hne. split; cbn; [by rewrite decide_True|by rewrite decide_False|done|].
  intros j Hj _. by rewrite decide_False by done.
Qed.
Lemma says_tell_down u d m : u <> d -> says u d [Tell d m] [] [m] [].
Proof.
  intros Hne. split; cbn; [by rewrite decide_False by done|by rewrite decide_True|done|].
  intros j _ Hj. by rewrite decide_False by done.
Qed.
Lemma says_other u d a : is_tell a = false -> says u d [a] [] [] [a].
Proof. intros H. split; destruct a; try done. Qed.
Lemma says_emits u d s : u <> d -> says u d (emits d s) [] (OnNext <$> take (emitted s) (_buf s)) [].
Proof.
  intros Hne. unfold emits. induction (take _ _) as [|x l IH]; [done|]. cbn [fmap list_fmap].
  apply (says_app u d [_] _ [] [] [OnNext x] _ [] []); [by apply says_tell_down|done].
Qed.

(** * A flow between its links *)

Definition wired (o : option nat) : bool := match o with Some _ => true | None => false end.

Record common_ok (i : nat) (s : Stage T) : Prop := {
  co_prefetch : _prefetch s = p;
  co_maxbuf : _maxbuf s = q;
  co_terminated : _terminated s = false;
  co_completion : _completion_sent s = false;
  co_up : _up s = None \/ _up s = Some (i - 1)%nat;
  co_down : _down s = None \/ _down s = Some (S i);
  co_lifecycle : _up s <> None \/ _down s <> None -> _lifecycle s = true }.

Record flow_ok (i : nat) (f : T -> result (option T)) (s : Stage T) (got sent : list T) : Prop := {
  fo_common : common_ok i s;
  fo_demand : 0 <= _demand s;
  fo_in_flight : 0 <= _in_flight s;
  fo_undemanded : _down s = None -> _demand s = 0;
  fo_idle : _up s = None \/ _down s = None -> _in_flight s = 0 /\ _buf s = [];
  fo_unwired : _up s = None -> _up_closed s = false;
  fo_buf : _buf s <> [] -> _demand s = 0;
  fo_closed : _up_closed s = true -> _in_flight s = 0 /\ (_buf s = [] -> _demand s = 0);
  fo_full : _up s <> None -> _down s <> None -> _up_closed s = false ->
            Z.of_nat (length (_buf s)) + _in_flight s = p;
  fo_le : Z.of_nat (length (_buf s)) <= p;
  fo_good : good f got;
  fo_data : mapped f got = sent ++ _buf s }.

(** The link to the left of a flow, and that to its right, after it answered [m] with
    [ums] and [dms]. *)
Definition left_link (owed_now : Z) (closed_now : bool) (L : Link) (stops : bool) (s : Stage T) (m : msg) (ums : list msg) :
    Link :=
  mkLink (sender_runs L) (negb stops) (wired (_up s)) (sender_wired L) (owing L) owed_now closed_now
    (to_sender L ums) (if stops then [] else if from_up m then tail (data L) else data L) (sent L)
    (got L ++ nexts [m]).
Definition right_link (owing_now : Z) (L : Link) (stops : bool) (s : Stage T) (m : msg) (dms : list msg) : Link :=
  mkLink (negb stops) (receiver_runs L) (receiver_wired L) (wired (_down s)) owing_now (owed L)
    (receiver_closed L) (if stops then [] else if from_down m then tail (reqs L) else reqs L)
    (to_receiver L dms) (sent L ++ nexts dms) (got L).

(** The next message: of the left link, of the right one, or the wiring. *)
Definition arrives (u : nat) (m : msg) (s : Stage T) (data reqs : list msg) : Prop :=
  (from_up m = true /\ exists rest, data = m :: rest) \/
  (from_down m = true /\ exists rest, reqs = m :: rest) \/
  (m = SetUpstream u true /\ _up s = None).
End stage.
