(* ===== verification/StreamFlow.v ===== *)
(** A flow answers every message of its links by moves of both. *)

From stdpp Require Import base list numbers gmap functions.
From S2P Require Import Prelude Effects Streams StreamGraph StreamLink StreamReact StreamStage.

Section flow.
Context {T : Type} (p q : Z) (Hp : 0 < p <= q).
Abbreviation msg := (StageBehaviorCommand T).
Abbreviation acts := (list (action T)).
#[local] Existing Instance recording.

Lemma to_sender_nil (L : @Link T) : to_sender L [] = reqs L.
Proof. unfold to_sender. rewrite app_nil_r. by destruct (sender_runs L). Qed.
Lemma to_receiver_nil (L : @Link T) : to_receiver L [] = data L.
Proof. unfold to_receiver. rewrite app_nil_r. by destruct (receiver_runs L). Qed.

Context (u : nat) (f : T -> result (option T)) (Q C : Prop) (I : list T).
Context (s : Stage T) (Lu Ld : @Link T).

Abbreviation i := (S u).
Abbreviation finu := (fun l => l = I /\ C).
Abbreviation find := (fun l => l = mapped f I /\ C /\ good f I).

(** The stage as its neighbours see it. *)
Record sees_flow : Prop := {
  sf_runs : receiver_runs Lu = true;
  sf_up : receiver_wired Lu = wired (_up s);
  sf_owed : owed Lu = _in_flight s;
  sf_closed : receiver_closed Lu = _up_closed s;
  sf_running : sender_runs Ld = true;
  sf_down : sender_wired Ld = wired (_down s);
  sf_owing : owing Ld = _demand s }.

Definition flow_answers (m : msg) : Prop :=
  exists b s' l ums dms,
    react (FlowMap f) i m s = (Ret b, (s', l)) /\
    says u (S i) l ums dms
      (if b : bool then [ExpectStop i] else match m with Subscribe _ _ => [Acknowledge] | _ => [] end) /\
    link_ok p i Q finu (left_link (_in_flight s') (_up_closed s') Lu b s' m ums) /\
    link_ok p (S i) Q find (right_link (_demand s') Ld b s' m dms) /\
    (b = false -> flow_ok p q i f s' (got Lu ++ nexts [m]) (sent Ld ++ nexts dms)) /\
    (b = true -> sent Ld ++ nexts dms `prefix_of` mapped f (got Lu ++ nexts [m])).

Context (Hok : flow_ok p q i f s (got Lu) (sent Ld)) (Hsees : sees_flow).
Context (HLu : link_ok p i Q finu Lu) (HLd : link_ok p (S i) Q find Ld).
Context (HQ : Q -> good f I) (Hpre : sent Lu `prefix_of` I).

Lemma u_ne_d : u <> S i.
Proof. lia. Qed.

(** The method, once the stage is known not to have terminated. *)
Lemma react_flow m :
  react (FlowMap f) i m s =
  match m with
  | SetUpstream up wiring =>
      bind (update (set_up up wiring)) (fun _ => bind (do_ (Tell up (Subscribe i wiring))) (fun _ =>
      bind _maybe_pull (fun _ => ret false))) (s, [])
  | Subscribe down wiring =>
      bind (subscribed down wiring) (fun _ => bind _maybe_pull (fun _ => ret false)) (s, [])
  | Request n =>
      (if 0 <? n then bind (update (set_demand (_demand s + n))) (fun _ => push_or_stop i)
       else bind (_fail_stream ValueError) (fun _ => _stop i)) (s, [])
  | OnNext element =>
      bind (when (0 <? _in_flight s) (update (set_in_flight (_in_flight s - 1)))) (fun _ =>
      catch
        (bind (lift (f element)) (fun y =>
         bind (match y with
         | Some y => bind this (fun s => if _maxbuf s <=? Z.of_nat (length (_buf s)) then raise BufferError
                                          else update (set_buf (_buf s ++ [y])))
         | None => ret tt
         end) (fun _ => push_or_stop i)))
        (fun error => bind (_fail_stream error) (fun _ => _stop i))) (s, [])
  | OnComplete => bind (update set_up_closed) (fun _ => push_or_stop i) (s, [])
  | OnError error =>
      bind (update (fun s => set_buf [] (set_terminated s))) (fun _ =>
      bind (tell_opt (_down s) (OnError error)) (fun _ => _stop i)) (s, [])
  | Cancel =>
      bind (update (fun s => set_buf [] (set_terminated s))) (fun _ =>
      bind (tell_opt (_up s) Cancel) (fun _ => _stop i)) (s, [])
  end.
Proof.
  unfold react. cbn [receive]. unfold StageBehavior_receive, bind at 1, this at 1. cbn [fst].
  rewrite (co_terminated _ _ _ _ (fo_common _ _ _ _ _ _ _ Hok)). by destruct m.
Qed.

Lemma stop_rec (s1 : Stage T) (l : acts) : _lifecycle s1 = true -> _stop i (s1, l) = (Ret true, (s1, l ++ [ExpectStop i])).
Proof. intros H. unfold _stop, bind, this. cbn [fst]. by rewrite H. Qed.

Ltac link_fields :=
  unfold left_link, right_link, subscribing, ask, take_element, take_complete, receiver_dies, subscribed_by, asked, emit,
    sender_dies, to_sender, to_receiver; cbn;
  rewrite ?app_nil_r; f_equal; try done; try lia.

Ltac open_flow :=
  destruct Hok as [Hco Hdem Hinf Hund Hidle Hunw Hbuf Hcl Hfull Hle Hg Hdata];
  destruct Hco as [Hpr Hmx Hte Hcs Hup Hdn Hli];
  destruct Hsees as [Hruns Hsup Hsowed Hsclosed Hsrun Hsdown Hsowing];
  replace (i - 1)%nat with u in Hup by lia.
(** The fields of [flow_ok]. *)
Ltac flow_fields :=
  cbn; intros; rewrite ?app_nil_r in *;
  repeat match goal with
  | H : _ \/ _ |- _ => destruct H
  | H : ?A -> _, H' : ?A |- _ => match type of A with Prop => specialize (H H') end
  | H : _ /\ _ |- _ => lazymatch H with Hp => fail | _ => destruct H end
  end; split_and?; solve [done | congruence | lia | auto].
Ltac common_fields :=
  split; cbn; rewrite ?Nat.sub_0_r; try done; try congruence; try (right; first [done|congruence|f_equal; lia]); try tauto.

(** The other link is as before. *)
Lemma right_unchanged s' m :
  from_down m = false -> wired (_down s') = wired (_down s) -> _demand s' = _demand s ->
  link_ok p (S i) Q find (right_link (_demand s') Ld false s' m []).
Proof.
  intros Hm Hd Hdem. destruct Hsees. replace (right_link _ _ _ _ _ _) with Ld; [done|].
  unfold right_link. rewrite to_receiver_nil, Hm. destruct Ld. cbn in *. rewrite app_nil_r. by f_equal; congruence.
Qed.
Lemma left_unchanged s' m :
  from_up m = false -> wired (_up s') = wired (_up s) -> _in_flight s' = _in_flight s ->
  _up_closed s' = _up_closed s ->
  link_ok p i Q finu (left_link (_in_flight s') (_up_closed s') Lu false s' m []).
Proof.
  intros Hm Hu Hf Hc. destruct Hsees. replace (left_link _ _ _ _ _ _ _) with Lu; [done|].
  unfold left_link. rewrite to_sender_nil, Hm.
  assert (nexts [m] = []) as -> by by destruct m. destruct Lu. cbn in *. rewrite app_nil_r. by f_equal; congruence.
Qed.
Lemma demand_bound : _demand s <= p.
Proof. destruct Hsees. rewrite <- sf_owing0. by eapply link_owing_bound. Qed.

(** *** Wiring *)

Lemma flow_set_upstream : _up s = None -> flow_answers (SetUpstream u true).
Proof.
  intros Hu. pose proof demand_bound as Hdb. open_flow. destruct (Hidle (or_introl Hu)) as [Hfl Hb]. specialize (Hunw Hu).
  assert (Hsub : link_ok p i Q finu (subscribing i Lu)) by (apply subscribe_ok; [done|by rewrite Hsup, Hu|done]).
  destruct Hdn as [Hd|Hd].
  - exists false, (set_up u true s), [Tell u (Subscribe i true)], [Subscribe i true], []. split_and!.
    + rewrite react_flow. unfold bind, update. cbn [fst snd]. rewrite do_rec. cbn [app].
      rewrite maybe_pull_idle by (cbn; auto). done.
    + apply says_tell_up, u_ne_d.
    + replace (left_link _ _ _ _ _ _ _) with (subscribing i Lu); [done|]. link_fields.
    + by apply right_unchanged.
    + intros _. split; try flow_fields. common_fields.
    + done.
  - exists false, (set_in_flight p (set_up u true s)), [Tell u (Subscribe i true); Tell u (Request p)],
      [Subscribe i true; Request p], [].
    split_and!.
    + rewrite react_flow. unfold bind, update. cbn [fst snd]. rewrite do_rec. cbn [app].
      rewrite (maybe_pull_rec p q Hp _ _ u (S i)); cbn; try done; try lia.
      rewrite Hb, Hfl. change (Z.of_nat (length [])) with 0. by rewrite (proj2 (Z.ltb_lt _ _)), !Z.sub_0_r by lia.
    + apply (says_app u (S i) [_] [_] [_] [_] [] [] [] []); apply says_tell_up, u_ne_d.
    + replace (left_link _ _ _ _ _ _ _) with (ask p (subscribing i Lu));
        [apply ask_ok; [done|done|done|lia|cbn; lia|cbn; congruence]|link_fields].
      destruct (sender_runs Lu); [by rewrite <- app_assoc|done].
    + by apply right_unchanged.
    + intros _. split; try flow_fields; [common_fields|]. cbn. intros _ _ _. rewrite Hb. cbn. lia.
    + done.
Qed.

Lemma flow_subscribe d w rest : reqs Ld = Subscribe d w :: rest -> flow_answers (Subscribe d w).
Proof.
  intros Hr. pose proof demand_bound as Hdb. open_flow.
  destruct (subscribed_by_ok _ _ _ _ _ _ _ _ HLd Hr Hsrun) as (HL & -> & -> & Hnw & _).
  assert (Hd : _down s = None) by (rewrite Hsdown in Hnw; by destruct (_down s)).
  destruct (Hidle (or_intror Hd)) as [Hfl Hb]. specialize (Hund Hd).
  assert (Hreact : forall l s', _maybe_pull (set_down (S i) true s, [Acknowledge]) = (Ret tt, (s', l)) ->
    react (FlowMap f) i (Subscribe (S i) true) s = (Ret false, (s', l))).
  { intros l s' H. rewrite react_flow. unfold subscribed, bind, update. cbn [fst snd when]. rewrite do_rec. cbn [app].
    by rewrite H. }
  assert (HR : link_ok p (S i) Q find (right_link (_demand s) Ld false (set_down (S i) true s) (Subscribe (S i) true) [])).
  { replace (right_link _ _ _ _ _ _) with (subscribed_by rest Ld); [done|]. link_fields.
    - by rewrite Hr.
    - by destruct (receiver_runs Ld). }
  destruct (decide (_up s = None \/ _up_closed s = true)) as [Hno|Hyes].
  - exists false, (set_down (S i) true s), [Acknowledge], [], []. split_and!; [| | |done|intros _|done].
    + apply Hreact, maybe_pull_idle. cbn. tauto.
    + by apply says_other.
    + by apply left_unchanged.
    + split; try flow_fields. common_fields.
  - destruct Hup as [?|Hu]; [tauto|]. assert (Hc : _up_closed s = false) by (destruct (_up_closed s); tauto).
    exists false, (set_in_flight p (set_down (S i) true s)), [Acknowledge; Tell u (Request p)], [Request p], [].
    split_and!; [| | |done|intros _|done].
    + apply Hreact. rewrite (maybe_pull_rec p q Hp _ _ u (S i)); cbn; try done; try lia.
      rewrite Hb, Hfl. change (Z.of_nat (length [])) with 0. by rewrite (proj2 (Z.ltb_lt _ _)), !Z.sub_0_r by lia.
    + apply (says_app u (S i) [_] [_] [] [_] [] [] [_] []); [by apply says_other|apply says_tell_up, u_ne_d].
    + replace (left_link _ _ _ _ _ _ _) with (ask p Lu);
        [apply ask_ok; [done|by rewrite Hsup, Hu|done|lia|lia|congruence]|link_fields].
    + split; try flow_fields; [common_fields|]. cbn. intros _ _ _. rewrite Hb. cbn. lia.
Qed.

(** *** Pushing *)

Lemma push_on (s1 s2 : Stage T) (l l' : acts) :
  _push (s1, l) = (Ret false, (s2, l')) -> push_or_stop i (s1, l) = (Ret false, (s2, l')).
Proof. intros H. unfold push_or_stop, bind. by rewrite H. Qed.
Lemma push_stop (s1 s2 : Stage T) (l l' : acts) :
  _push (s1, l) = (Ret true, (s2, l')) -> _lifecycle s2 = true ->
  push_or_stop i (s1, l) = (Ret true, (s2, l' ++ [ExpectStop i])).
Proof. intros H Hl. unfold push_or_stop, bind. rewrite H. by apply stop_rec. Qed.

Lemma nexts_take (s1 : Stage T) : nexts (OnNext <$> take (emitted s1) (_buf s1)) = take (emitted s1) (_buf s1).
Proof. apply nexts_elements. Qed.

Lemma emit_emitted fin (s1 : Stage T) (L : @Link T) :
  link_ok p (S i) Q fin L -> sender_runs L = true -> owing L = _demand s1 -> 0 <= _demand s1 ->
  link_ok p (S i) Q fin (emit (take (emitted s1) (_buf s1)) L).
Proof.
  intros HL Hr Ho Hd. apply emit_ok; [done|done|]. rewrite length_take. unfold emitted. lia.
Qed.
Lemma emitted_length (s1 : Stage T) : length (take (emitted s1) (_buf s1)) = emitted s1.
Proof. rewrite length_take. unfold emitted. lia. Qed.

Ltac right_fields :=
  link_fields; first
    [ match goal with H : _down s = Some _ |- _ => by rewrite H end
    | match goal with H : reqs Ld = _ |- _ => by rewrite H end
    | by destruct (receiver_runs Ld)
    | rewrite length_take; unfold emitted; cbn; lia
    | by rewrite nexts_elements ].

(** What a request finds. *)
Lemma request_facts n rest :
  reqs Ld = Request n :: rest ->
  let s1 := set_demand (_demand s + n) s in
  link_ok p (S i) Q find (asked n rest Ld) /\ 0 < n /\ sender_wired Ld = true /\ _down s = Some (S i) /\ _demand s + n <= p /\
  react (FlowMap f) i (Request n) s = push_or_stop i (s1, []) /\
  link_ok p (S i) Q find (emit (take (emitted s1) (_buf s)) (asked n rest Ld)) /\ _lifecycle s = true.
Proof.
  intros Hr s1. open_flow. destruct (asked_ok _ _ _ _ _ _ _ HLd Hr Hsrun) as (HL & Hn & Hw & _).
  assert (Hd : _down s = Some (S i)) by (destruct Hdn as [Hd|]; [rewrite Hsdown, Hd in Hw|]; done).
  pose proof (link_owing_bound _ _ _ _ _ HL Hsrun) as Hdb. cbn in Hdb. rewrite Hsowing in Hdb. split_and!; try done.
  - rewrite react_flow, (proj2 (Z.ltb_lt 0 n)) by done. done.
  - apply (emit_emitted _ s1); cbn; [done|done|lia|lia].
  - apply Hli. right. congruence.
Qed.

Lemma request_unwired n rest : reqs Ld = Request n :: rest -> _up s = None -> flow_answers (Request n).
Proof.
  intros Hr Hu. destruct (request_facts n rest Hr) as (HL & Hn & Hw & Hd & Hdb & Hreact & HE & Hlf).
  set (s1 := set_demand (_demand s + n) s) in *. open_flow.
  destruct (Hidle (or_introl Hu)) as [Hfl Hb]. specialize (Hunw Hu).
  exists false, s1, [], [], []. split_and!; [| | | |intros _|done].
  + rewrite Hreact. by apply push_on, (push_unwired _ _ (S i)); cbn; try lia.
  + apply says_nil.
  + by apply left_unchanged.
  + replace (right_link _ _ _ _ _ _) with (asked n rest Ld); [done|]. right_fields.
  + split; try flow_fields. common_fields.
Qed.
Lemma request_completes n rest :
  reqs Ld = Request n :: rest -> _up s = Some u -> _up_closed s = true ->
  drop (emitted (set_demand (_demand s + n) s)) (_buf s) = [] -> flow_answers (Request n).
Proof.
  intros Hr Hu Hc Hz. destruct (request_facts n rest Hr) as (HL & Hn & Hw & Hd & Hdb & Hreact & HE & Hlf).
  set (s1 := set_demand (_demand s + n) s) in *. open_flow. destruct (Hcl Hc) as [Hfl Hcb].
  rewrite Hc in Hsclosed.
  exists true, (set_terminated (set_completion_sent (pushed s1))),
    ((emits (S i) s1 ++ [Tell (S i) OnComplete]) ++ [ExpectStop i]), [],
    (((OnNext <$> take (emitted s1) (_buf s)) ++ [OnComplete]) ++ []).
  assert (Hall : take (emitted s1) (_buf s) = _buf s).
  { rewrite <- (take_drop (emitted s1) (_buf s)) at 2. by rewrite Hz, app_nil_r. }
  pose proof HLu as (ns0 & cn0 & xs0 & t0 & HLu').
  destruct (lk_closed _ _ _ _ _ _ _ _ _ HLu' Hsclosed) as (HsLu & _ & _ & HI & HC).
  assert (Hel : emitted s1 = length (_buf s)).
  { rewrite <- (emitted_length s1). change (_buf s1) with (_buf s). by rewrite Hall. }
  assert (Hnx : nexts (((OnNext <$> take (emitted s1) (_buf s)) ++ [OnComplete]) ++ []) = _buf s).
  { rewrite app_nil_r, nexts_app, nexts_elements, Hall. cbn. by rewrite app_nil_r. }
  split_and!; [| | | |done|intros _].
  -- rewrite Hreact. apply (push_stop _ _ [] _); [|done].
     by apply (push_completes s1 [] (S i)); cbn; try lia.
  -- apply (says_app u (S i) _ _ [] [] _ [] [] [_]); [|by apply says_other].
     apply (says_app u (S i) _ _ [] [] _ [_] [] []); [apply (says_emits _ _ s1), u_ne_d|apply says_tell_down, u_ne_d].
  -- replace (left_link _ _ _ _ _ _ _) with (receiver_dies [] Lu);
       [apply receiver_dies_ok; auto|link_fields; congruence].
  -- replace (right_link _ _ _ _ _ _)
       with (sender_dies [OnComplete] (emit (take (emitted s1) (_buf s)) (asked n rest Ld))).
     ++ apply sender_dies_ok; [done|done|by right; left| |cbn; congruence|done]. intros _. cbn. rewrite Hall.
        rewrite <- Hdata, HI. split; [done|]. split; [done|]. rewrite <- HI. done.
     ++ unfold right_link. rewrite Hnx. unfold sender_dies, emit, asked, to_receiver. cbn.
        rewrite Hall, Hd. f_equal; try done.
        ** rewrite Hel. lia.
        ** destruct (receiver_runs Ld); [|done]. by rewrite app_nil_r, app_assoc.
  -- rewrite Hnx. cbn. rewrite app_nil_r, Hdata. done.
Qed.
Lemma request_waits n rest :
  reqs Ld = Request n :: rest -> _up s = Some u -> _up_closed s = true ->
  drop (emitted (set_demand (_demand s + n) s)) (_buf s) <> [] -> flow_answers (Request n).
Proof.
  intros Hr Hu Hc Hz. destruct (request_facts n rest Hr) as (HL & Hn & Hw & Hd & Hdb & Hreact & HE & Hlf).
  set (s1 := set_demand (_demand s + n) s) in *. open_flow. destruct (Hcl Hc) as [Hfl Hcb].
  rewrite Hc in Hsclosed.
  exists false, (pushed s1), (emits (S i) s1), [], (OnNext <$> take (emitted s1) (_buf s)).
  split_and!; [| | | |intros _|done].
  -- rewrite Hreact. apply push_on. by apply (push_waits s1 [] (S i)); cbn; try lia.
  -- apply (says_emits _ _ s1), u_ne_d.
  -- by apply left_unchanged.
  -- replace (right_link _ _ _ _ _ _) with (emit (take (emitted s1) (_buf s)) (asked n rest Ld)); [done|].
     right_fields.
  -- rewrite nexts_elements. assert (_demand s = 0) by (apply Hbuf; intros E; by rewrite E, drop_nil in Hz).
     assert (Hdz : _demand (pushed s1) = 0).
     { unfold pushed. cbn. destruct (decide (length (_buf s) <= emitted s1)%nat); [by rewrite drop_ge in Hz|].
       unfold emitted in *. cbn in *. lia. }
     split; try flow_fields; [common_fields|rewrite Hdz; lia|..].
     ++ cbn. rewrite length_drop. lia.
     ++ cbn. rewrite app_nil_r, Hdata, <- app_assoc, take_drop. done.
Qed.
Lemma request_pulls n rest :
  reqs Ld = Request n :: rest -> _up s = Some u -> _up_closed s = false -> flow_answers (Request n).
Proof.
  intros Hr Hu Hc. destruct (request_facts n rest Hr) as (HL & Hn & Hw & Hd & Hdb & Hreact & HE & Hlf).
  set (s1 := set_demand (_demand s + n) s) in *. open_flow.
  assert (Hfill : Z.of_nat (length (_buf s)) + _in_flight s = p) by (apply Hfull; congruence).
  set (k := Z.of_nat (length (drop (emitted s1) (_buf s)))).
  assert (Hk : k + Z.of_nat (emitted s1) = Z.of_nat (length (_buf s))).
  { unfold k. rewrite length_drop. unfold emitted. cbn. lia. }
  exists false, (set_in_flight (p - k) (pushed s1)),
    (emits (S i) s1 ++ if k + _in_flight s <? p then [Tell u (Request (p - k - _in_flight s))] else []),
    ([] ++ if k + _in_flight s <? p then [Request (p - k - _in_flight s)] else []),
    ((OnNext <$> take (emitted s1) (_buf s)) ++ []).
  split_and!; [| | | |intros _|done].
  * rewrite Hreact. apply push_on. rewrite (push_pulls p q Hp s1 [] u (S i)); cbn; try done; lia.
  * apply (says_app u (S i) _ _ [] _ _ [] [] []); [apply (says_emits _ _ s1), u_ne_d|].
    destruct (_ <? p); [apply says_tell_up, u_ne_d|apply says_nil].
  * destruct (Z.ltb_spec (k + _in_flight s) p).
    -- replace (left_link _ _ _ _ _ _ _) with (ask (p - k - _in_flight s) Lu);
         [apply ask_ok; [done|by rewrite Hsup, Hu|done|lia|lia|congruence]|link_fields; congruence].
    -- apply left_unchanged; cbn; try done. lia.
  * rewrite (app_nil_r (OnNext <$> _)).
    replace (right_link _ _ _ _ _ _) with (emit (take (emitted s1) (_buf s)) (asked n rest Ld)); [done|].
    right_fields.
  * rewrite (app_nil_r (OnNext <$> _)), nexts_elements. split; try flow_fields; [common_fields|..].
    -- cbn. unfold emitted. cbn. lia.
    -- cbn. intros Hne. destruct (decide (length (_buf s) <= emitted s1)%nat); [by rewrite drop_ge in Hne|].
       assert (_demand s = 0) by (apply Hbuf; intros E; by rewrite E, drop_nil in Hne).
       unfold emitted in *. cbn in *. lia.
    -- cbn. rewrite app_nil_r, Hdata, <- app_assoc, take_drop. done.
Qed.
Lemma flow_request n rest : reqs Ld = Request n :: rest -> flow_answers (Request n).
Proof.
  intros Hr. assert (Hup : _up s = None \/ _up s = Some u) by (destruct Hok as [[]]; cbn in *; by rewrite Nat.sub_0_r in *).
  destruct Hup as [Hu|Hu]; [by eapply request_unwired|]. destruct (_up_closed s) eqn:Hc; [|by eapply request_pulls].
  destruct (drop (emitted (set_demand (_demand s + n) s)) (_buf s)) eqn:Hz; [by eapply request_completes|].
  eapply request_waits; try done. by rewrite Hz.
Qed.

(** *** Elements and the end *)

Lemma fail_stream_rec e (s1 : Stage T) (l : acts) :
  _terminated s1 = false -> _up s1 = Some u -> _down s1 = Some (S i) ->
  _fail_stream e (s1, l) = (Ret tt, (set_buf [] (set_terminated s1), l ++ [Tell u Cancel; Tell (S i) (OnError e)])).
Proof.
  intros Ht Hu Hd. unfold _fail_stream, bind, this. cbn [fst]. rewrite Ht, Hu, Hd. unfold update, tell_opt. cbn [fst snd].
  rewrite !do_rec. by rewrite <- app_assoc.
Qed.

(** A flow that stops without completing. *)
Lemma flow_aborts m s' l (ums dms : list msg) :
  ~ Q -> react (FlowMap f) i m s = (Ret true, (s', l)) -> says u (S i) l ums dms [ExpectStop i] ->
  ums = [] \/ ums = [Cancel] -> dms = [] \/ (exists e, dms = [OnError e] /\ _down s <> None) ->
  link_ok p i Q finu (left_link (_in_flight s') (_up_closed s') Lu true s' m ums) ->
  wired (_down s') = wired (_down s) -> _demand s' = _demand s ->
  sent Ld `prefix_of` mapped f (got Lu ++ nexts [m]) ->
  flow_answers m.
Proof.
  intros HnQ Hr Hs Hu Hd HL Hw Hdm Hpr. exists true, s', l, ums, dms.
  assert (Hnx : nexts dms = []) by (destruct Hd as [->|(e & -> & _)]; done).
  destruct Hsees. split_and!; [done|done|done| |done|].
  - replace (right_link _ _ _ _ _ _) with (sender_dies dms Ld).
    + apply sender_dies_ok; [done|done| | | |done]; destruct Hd as [->|(e & -> & Hdn)]; try done;
        [by left|right; right; eauto|]. rewrite sf_down0. by destruct (_down s).
    + unfold right_link, sender_dies, to_receiver. rewrite Hnx, app_nil_r. cbn. f_equal; congruence.
  - intros _. by rewrite Hnx, app_nil_r.
Qed.

(** What an element finds. *)
Lemma next_facts x rest :
  data Lu = OnNext x :: rest ->
  link_ok p i Q finu (take_element x rest Lu) /\ 0 < _in_flight s /\ _up_closed s = false /\ receiver_wired Lu = true /\
  _up s = Some u /\ _down s = Some (S i) /\ Z.of_nat (length (_buf s)) + _in_flight s = p /\ _lifecycle s = true.
Proof.
  intros Hr. open_flow. destruct (take_element_ok _ _ _ _ _ _ _ HLu Hr Hruns) as (HT & Ho & Hc & Hw).
  rewrite Hsclosed in Hc. rewrite Hsowed in Ho.
  assert (Hu : _up s = Some u) by (destruct Hup as [E|]; [rewrite Hsup, E in Hw|]; done).
  assert (Hd : _down s = Some (S i)).
  { destruct Hdn as [E|]; [|done]. destruct (Hidle (or_intror E)). lia. }
  split_and!; try done; [apply Hfull; congruence|apply Hli; right; congruence].
Qed.

(** The transform raises. *)
Lemma next_raises x rest e : data Lu = OnNext x :: rest -> f x = Err e -> flow_answers (OnNext x).
Proof.
  intros Hr Ef. destruct (next_facts x rest Hr) as (HT & Ho & Hc & Hw & Hu & Hd & Hfill & Hlf). open_flow.
  set (s1 := set_in_flight (_in_flight s - 1) s).
  assert (Hreact : react (FlowMap f) i (OnNext x) s =
    (Ret true, (set_buf [] (set_terminated s1), [Tell u Cancel; Tell (S i) (OnError e); ExpectStop i]))).
  { rewrite react_flow, (proj2 (Z.ltb_lt 0 _)) by lia. unfold when, bind, catch, update. cbn [fst snd]. fold s1.
    rewrite Ef. cbn [lift raise]. unfold raise. rewrite fail_stream_rec by done. by rewrite stop_rec. }
  assert (HnQ : ~ Q).
  { intros Hq. pose proof HLu as (ns0 & cn0 & xs0 & t0 & HL'). pose proof (lk_prefix _ _ _ _ _ _ _ _ _ HL') as _.
    destruct HT as (ns & cn & xs & t & HT). pose proof (lk_prefix _ _ _ _ _ _ _ _ _ HT) as Hp1. cbn in Hp1.
    destruct (transitivity Hp1 Hpre) as [r Hr']. pose proof (HQ Hq) as Hgood. rewrite Hr' in Hgood.
    apply good_app in Hgood as [[_ Hx]%good_app _]. apply Forall_inv in Hx as [? Hx]. congruence. }
  eapply flow_aborts; [done|exact Hreact| |by right|right; exists e; split; [done|congruence]| |done|done|].
  - apply (says_app u (S i) [_] [_; _] [_] [] [] [_] [] [_]); [apply says_tell_up, u_ne_d|].
    apply (says_app u (S i) [_] [_] [] [] [_] [] [] [_]); [apply says_tell_down, u_ne_d|by apply says_other].
  - replace (left_link _ _ _ _ _ _ _) with (receiver_dies [Cancel] (take_element x rest Lu));
      [apply receiver_dies_ok; [done|done|auto|cbn; congruence|tauto]|]. link_fields; congruence.
  - cbn. rewrite mapped_app, Hdata by done. by apply prefix_app_r, prefix_app_r.
Qed.

(** It returns an element, or drops one: the stage before it pushes. *)
Definition taken (y : option T) : Stage T :=
  let s1 := set_in_flight (_in_flight s - 1) s in
  match y with Some y => set_buf (_buf s ++ [y]) s1 | None => s1 end.
Lemma taken_react x rest y s3 l :
  data Lu = OnNext x :: rest -> f x = Ok y -> _push (taken y, []) = (Ret false, (s3, l)) ->
  react (FlowMap f) i (OnNext x) s = (Ret false, (s3, l)).
Proof.
  intros Hr Ef H%push_on. destruct (next_facts x rest Hr) as (HT & Ho & Hc & Hw & Hu & Hd & Hfill & Hlf). open_flow.
  unfold taken in H. set (s1 := set_in_flight (_in_flight s - 1) s) in *.
  rewrite react_flow, (proj2 (Z.ltb_lt 0 _)) by lia. unfold when, bind, catch, update. cbn [fst snd]. fold s1.
  rewrite Ef. unfold lift, ret. cbn [fst snd]. destruct y as [y|]; [|by rewrite H].
  unfold this. cbn [fst]. change (_maxbuf s1) with (_maxbuf s). change (_buf s1) with (_buf s).
  rewrite Hmx, (proj2 (Z.leb_gt _ _)) by lia. cbn [fst snd]. by rewrite H.
Qed.
Lemma taken_facts x rest y :
  data Lu = OnNext x :: rest -> f x = Ok y ->
  let s2 := taken y in
  _buf s2 = _buf s ++ mapped f [x] /\ (length (mapped f [x]) <= 1)%nat /\ _demand s2 = _demand s /\
  _in_flight s2 = _in_flight s - 1 /\ _up s2 = Some u /\ _down s2 = Some (S i) /\ _up_closed s2 = false /\ common_ok p q i s2.
Proof.
  intros Hr Ef s2. destruct (next_facts x rest Hr) as (HT & Ho & Hc & Hw & Hu & Hd & Hfill & Hlf). open_flow.
  assert (E1 : _buf s2 = _buf s ++ mapped f [x]) by (unfold s2; cbn; rewrite Ef; destruct y; cbn; by rewrite ?app_nil_r).
  assert (E2 : (length (mapped f [x]) <= 1)%nat) by (cbn; rewrite Ef; destruct y; cbn; lia).
  unfold s2, taken in *. destruct y; cbn -[mapped] in *; (split_and!; try done; common_fields).
Qed.

Lemma next_pushes x rest y : data Lu = OnNext x :: rest -> f x = Ok y -> flow_answers (OnNext x).
Proof.
  intros Hr Ef. pose proof demand_bound as Hdb. pose proof (taken_react x rest y) as Hreact.
  destruct (taken_facts x rest y Hr Ef) as (Hbuf2 & Hlen & Hdem2 & Hinf2 & Hu2 & Hd2 & Hc2 & Hco2).
  destruct (next_facts x rest Hr) as (HT & Ho & Hc & Hw & Hu & Hd & Hfill & Hlf). open_flow.
  assert (Hg' : good f (got Lu ++ [x])) by (apply good_app; split; [done|]; by repeat econstructor).
  set (s2 := taken y) in *.
  set (k := Z.of_nat (length (drop (emitted s2) (_buf s2)))).
  assert (Hk : k + Z.of_nat (emitted s2) = Z.of_nat (length (_buf s2))).
  { unfold k. rewrite length_drop. unfold emitted. lia. }
  assert (Hl2 : length (_buf s2) = (length (_buf s) + length (mapped f [x]))%nat) by by rewrite Hbuf2, length_app.
  exists false, (set_in_flight (p - k) (pushed s2)),
    (emits (S i) s2 ++ if k + _in_flight s2 <? p then [Tell u (Request (p - k - _in_flight s2))] else []),
    ([] ++ if k + _in_flight s2 <? p then [Request (p - k - _in_flight s2)] else []),
    ((OnNext <$> take (emitted s2) (_buf s2)) ++ []).
  split_and!; [| | | |intros _|done].
  - apply Hreact; [done|done|]. rewrite (push_pulls p q Hp s2 [] u (S i)); try apply Hco2; try done; lia.
  - apply (says_app u (S i) _ _ [] _ _ [] [] []); [apply (says_emits _ _ s2), u_ne_d|].
    destruct (_ <? p); [apply says_tell_up, u_ne_d|apply says_nil].
  - destruct (Z.ltb_spec (k + _in_flight s2) p).
    + replace (left_link _ _ _ _ _ _ _) with (ask (p - k - _in_flight s2) (take_element x rest Lu));
        [apply ask_ok; cbn; [done|by rewrite Hsup, Hu|done|lia|lia|congruence]|].
      link_fields; try congruence; try (by rewrite Hr); try (cbn; rewrite ?Hu2, ?Hc2; congruence).
    + replace (left_link _ _ _ _ _ _ _) with (take_element x rest Lu); [done|].
      link_fields; try congruence; try (by rewrite Hr); try (cbn; rewrite ?Hu2, ?Hc2; congruence); by destruct (sender_runs Lu).
  - rewrite (app_nil_r (OnNext <$> _)).
    replace (right_link _ _ _ _ _ _) with (emit (take (emitted s2) (_buf s2)) Ld);
      [apply (emit_emitted _ s2); cbn; try done; lia|].
    unfold right_link. rewrite nexts_elements. link_fields; first [rewrite emitted_length; lia|by destruct (receiver_runs Ld)|by rewrite Hd2|congruence].
  - rewrite (app_nil_r (OnNext <$> _)), nexts_elements.
    assert (Hcase : _demand s = 0 /\ emitted s2 = O \/ _buf s = [] /\ 0 < _demand s /\ drop (emitted s2) (_buf s2) = []).
    { destruct (_buf s) as [|z zs] eqn:E.
      - destruct (decide (_demand s = 0)) as [Hz|Hz]; [left; unfold emitted; rewrite Hdem2; lia|].
        right. split_and!; [done|lia|]. apply drop_ge. unfold emitted. rewrite Hdem2, Hl2. cbn in *. lia.
      - left. assert (Hz : _demand s = 0) by by apply Hbuf. unfold emitted. rewrite Hdem2. lia. }
    split; cbn; rewrite ?Hu2, ?Hd2, ?Hc2, ?Hdem2; try done; try lia.
    + destruct Hco2. split; cbn; try done.
    + unfold emitted. rewrite Hdem2. lia.
    + intros [?|?]; done.
    + intros Hne. destruct Hcase as [[Hz ->]|(_ & _ & Hz)]; [lia|done].
    + rewrite <- (app_assoc (sent Ld) (take _ _)), take_drop, Hbuf2, mapped_app, Hdata by done. by rewrite app_assoc.
Qed.
Lemma flow_next x rest : data Lu = OnNext x :: rest -> flow_answers (OnNext x).
Proof. intros Hr. destruct (f x) as [y|e] eqn:Ef; [by eapply next_pushes|by eapply next_raises]. Qed.

(** What the end finds. *)
Lemma complete_facts rest :
  data Lu = OnComplete :: rest ->
  link_ok p i Q finu (take_complete rest Lu) /\ rest = [] /\ got Lu = I /\ C /\ sender_runs Lu = false /\ _up_closed s = false /\
  react (FlowMap f) i OnComplete s = push_or_stop i (set_up_closed s, []) /\ _up s = Some u /\ _lifecycle s = true /\
  (forall s', wired (_up s') = true -> _in_flight s' = 0 -> _up_closed s' = true ->
     link_ok p i Q finu (left_link (_in_flight s') (_up_closed s') Lu false s' OnComplete [])).
Proof.
  intros Hr. open_flow.
  destruct (take_complete_ok _ _ _ _ _ _ HLu Hr Hruns) as (HT & -> & [HI HC] & HsLu & Hc). rewrite Hsclosed in Hc.
  assert (Hu : _up s = Some u).
  { destruct Hup as [E|]; [|done]. destruct HLu as (ns & cn & xs & t & HL').
    destruct (lk_unwired _ _ _ _ _ _ _ _ _ HL') as (_ & Hw & _); [by rewrite Hsup, E|].
    destruct (lk_unasked _ _ _ _ _ _ _ _ _ HL' Hw) as (_ & -> & ->).
    by rewrite (lk_data _ _ _ _ _ _ _ _ _ HL') in Hr. }
  split_and!; try done; [by rewrite react_flow|apply Hli; left; congruence|].
  intros s' H1 H2 H3. replace (left_link _ _ _ _ _ _ _) with (take_complete [] Lu); [done|].
  unfold left_link. rewrite to_sender_nil. link_fields; try congruence; [by rewrite Hsup, Hu, H1|by rewrite Hr].
Qed.
Lemma complete_unwired rest : data Lu = OnComplete :: rest -> _down s = None -> flow_answers OnComplete.
Proof.
  intros Hr Hd. destruct (complete_facts rest Hr) as (HT & -> & HI & HC & HsLu & Hc & Hreact & Hu & Hlf & HL1). open_flow.
  destruct (Hidle (or_intror Hd)) as [Hfl Hb]. specialize (Hund Hd).
  exists false, (set_up_closed s), [], [], []. split_and!; [| | | |intros _|done].
  + rewrite Hreact. apply push_on. by apply push_no_down.
  + apply says_nil.
  + apply HL1; [cbn; by rewrite Hu|done|done].
  + by apply right_unchanged.
  + split; try flow_fields. common_fields.
Qed.
Lemma complete_now rest : data Lu = OnComplete :: rest -> _down s = Some (S i) -> _buf s = [] -> flow_answers OnComplete.
Proof.
  intros Hr Hd Hb. destruct (complete_facts rest Hr) as (HT & -> & HI & HC & HsLu & Hc & Hreact & Hu & Hlf & HL1). open_flow.
  rewrite Hb in *.
  exists true, (set_terminated (set_completion_sent (pushed (set_up_closed s)))),
    ([Tell (S i) OnComplete] ++ [ExpectStop i]), [], ([OnComplete] ++ []).
  assert (He : emitted (set_up_closed s) = O) by (unfold emitted; cbn; rewrite Hb; cbn; lia).
  assert (Hpu : pushed (set_up_closed s) = set_up_closed s).
  { unfold pushed. rewrite He, drop_0, Z.sub_0_r. by destruct s. }
  split_and!; [| | | |done|intros _].
  * rewrite Hreact. apply push_stop; [|done]. rewrite (push_completes _ [] (S i)); cbn; try done.
    -- unfold emits. by rewrite He.
    -- by rewrite He, Hb.
  * apply (says_app u (S i) [_] [_] [] [] [_] [] [] [_]); [apply says_tell_down, u_ne_d|by apply says_other].
  * rewrite Hpu. replace (left_link _ _ _ _ _ _ _) with (receiver_dies [] (take_complete [] Lu));
      [apply receiver_dies_ok; auto|]. link_fields.
  * rewrite Hpu. replace (right_link _ _ _ _ _ _) with (sender_dies [OnComplete] Ld);
      [apply sender_dies_ok; [done|done|by right; left| | |done]|].
    -- intros _. rewrite app_nil_r in Hdata. rewrite <- Hdata, HI. split; [done|]. split; [done|]. by rewrite <- HI.
    -- rewrite Hsdown, Hd. done.
    -- unfold right_link. cbn. link_fields.
  * cbn. rewrite !app_nil_r in *. by rewrite Hdata.
Qed.
Lemma complete_later rest : data Lu = OnComplete :: rest -> _down s = Some (S i) -> _buf s <> [] -> flow_answers OnComplete.
Proof.
  intros Hr Hd Hb. destruct (complete_facts rest Hr) as (HT & -> & HI & HC & HsLu & Hc & Hreact & Hu & Hlf & HL1). open_flow.
  destruct (_buf s) as [|z zs] eqn:Hbs; [done|].
  assert (Hdz : _demand s = 0) by by apply Hbuf.
  assert (He : emitted (set_up_closed s) = O) by (unfold emitted; cbn; rewrite Hdz; lia).
  assert (Hpu : pushed (set_up_closed s) = set_up_closed s).
  { unfold pushed. rewrite He, drop_0, Z.sub_0_r. by destruct s. }
  exists false, (set_up_closed s), [], [], []. split_and!; [| | | |intros _|done].
  * rewrite Hreact. apply push_on. rewrite (push_waits _ [] (S i)); cbn; try done; try lia.
    -- unfold emits. by rewrite He, Hpu.
    -- by rewrite He, Hbs.
  * apply says_nil.
  * apply HL1; [cbn; by rewrite Hu|done|done].
  * by apply right_unchanged.
  * split; cbn; rewrite ?Hbs, ?app_nil_r; try done; try flow_fields. common_fields.
Qed.
Lemma flow_complete rest : data Lu = OnComplete :: rest -> flow_answers OnComplete.
Proof.
  intros Hr. assert (Hdn : _down s = None \/ _down s = Some (S i)) by by destruct Hok as [[]].
  destruct Hdn as [Hd|Hd]; [by eapply complete_unwired|].
  destruct (_buf s) eqn:Hb; [by eapply complete_now|]. eapply complete_later; try done. by rewrite Hb.
Qed.

Lemma flow_error e rest : data Lu = OnError e :: rest -> flow_answers (OnError e).
Proof.
  intros Hr. pose proof (take_error_loud _ _ _ _ _ _ _ HLu Hr) as HnQ. open_flow.
  assert (Hu : _up s = Some u).
  { destruct Hup as [E|]; [|done]. destruct HLu as (ns & cn & xs & t & HL').
    destruct (lk_unwired _ _ _ _ _ _ _ _ _ HL') as (_ & Hw & _); [by rewrite Hsup, E|].
    destruct (lk_unasked _ _ _ _ _ _ _ _ _ HL' Hw) as (_ & -> & ->).
    by rewrite (lk_data _ _ _ _ _ _ _ _ _ HL') in Hr. }
  assert (Hlf : _lifecycle s = true) by (apply Hli; left; congruence).
  set (dms := match _down s with Some _ => [OnError e] | None => [] end : list msg).
  set (tells := match _down s with Some d => [Tell d (OnError e)] | None => [] end : acts).
  apply (flow_aborts _ (set_buf [] (set_terminated s)) (tells ++ [ExpectStop i]) ([] ++ []) (dms ++ [])).
  - done.
  - rewrite react_flow. unfold bind, update, tell_opt, tells. cbn [fst snd]. destruct (_down s) as [d|].
    + rewrite do_rec. by rewrite stop_rec.
    + unfold ret. by rewrite stop_rec.
  - apply (says_app u (S i) _ _ [] [] _ [] [] [_]); [|by apply says_other].
    unfold tells, dms. destruct Hdn as [-> | ->]; [apply says_nil|apply says_tell_down, u_ne_d].
  - by left.
  - rewrite app_nil_r. unfold dms. destruct (_down s); [right; by eexists|by left].
  - replace (left_link _ _ _ _ _ _ _) with (receiver_dies [] Lu); [apply receiver_dies_ok; [done|done|auto|cbn; congruence|tauto]|]. link_fields; congruence.
  - done.
  - done.
  - cbn. rewrite app_nil_r, Hdata. by apply prefix_app_r.
Qed.

Lemma flow_cancel rest : reqs Ld = Cancel :: rest -> flow_answers Cancel.
Proof.
  intros Hr. destruct (cancel_loud _ _ _ _ _ _ HLd Hr (sf_running Hsees)) as [HnQ Hw]. open_flow.
  assert (Hlf : _lifecycle s = true) by (apply Hli; right; intros E; by rewrite Hsdown, E in Hw).
  set (ums := match _up s with Some _ => [Cancel] | None => [] end : list msg).
  set (tells := match _up s with Some d => [Tell d Cancel] | None => [] end : acts).
  apply (flow_aborts _ (set_buf [] (set_terminated s)) (tells ++ [ExpectStop i]) (ums ++ []) ([] ++ [])).
  - done.
  - rewrite react_flow. unfold bind, update, tell_opt, tells. cbn [fst snd]. destruct (_up s) as [d|].
    + rewrite do_rec. by rewrite stop_rec.
    + unfold ret. by rewrite stop_rec.
  - apply (says_app u (S i) _ _ _ [] [] [] [] [_]); [|by apply says_other].
    unfold tells, ums. destruct Hup as [-> | ->]; [apply says_nil|apply says_tell_up, u_ne_d].
  - rewrite app_nil_r. unfold ums. destruct (_up s); [by right|by left].
  - by left.
  - rewrite app_nil_r. replace (left_link _ _ _ _ _ _ _) with (receiver_dies ums Lu); [|link_fields; congruence].
    apply receiver_dies_ok; [done|done| | |tauto]; unfold ums; [by destruct (_up s); auto|].
    rewrite Hsup. by destruct (_up s).
  - done.
  - done.
  - cbn. rewrite app_nil_r, Hdata. by apply prefix_app_r.
Qed.

Lemma flow_step m : arrives u m s (data Lu) (reqs Ld) -> flow_answers m.
Proof.
  intros [[Hm [rest Hr]]|[[Hm [rest Hr]]|[-> Hu]]].
  - destruct m; try done; [by eapply flow_next|by eapply flow_complete|by eapply flow_error].
  - destruct m; try done; [by eapply flow_subscribe|by eapply flow_request|by eapply flow_cancel].
  - by apply flow_set_upstream.
Qed.
End flow.
