(* ===== verification/StreamEnds.v ===== *)
(** The source and the sinks of a stream answer the messages of their link by moves of it. *)

From stdpp Require Import base list numbers gmap functions.
From S2P Require Import Prelude Effects Streams StreamGraph StreamLink StreamReact StreamStage StreamFlow.

Section ends.
Context {T : Type} (p q : Z) (Hp : 0 < p <= q).
Abbreviation msg := (StageBehaviorCommand T).
Abbreviation acts := (list (action T)).
#[local] Existing Instance recording.

Lemma stop_recorded i (s1 : Stage T) (l : acts) :
  _lifecycle s1 = true -> _stop i (s1, l) = (Ret true, (s1, l ++ [ExpectStop i])).
Proof. intros H. unfold _stop, bind, this. cbn [fst]. by rewrite H. Qed.

(** What a sender that stopped still owed does not matter. *)
Definition forget_owing (L : @Link T) : Link :=
  mkLink (sender_runs L) (receiver_runs L) (receiver_wired L) (sender_wired L) 0 (owed L) (receiver_closed L)
    (reqs L) (data L) (sent L) (got L).
Lemma forget_owing_ok d Q fin L : link_ok p d Q fin L -> sender_runs L = false -> link_ok p d Q fin (forget_owing L).
Proof.
  intros (ns & cn & xs & t & H) Hs. exists ns, cn, xs, t. destruct H. split; cbn; try done; [|congruence..].
  intros (? & ? & ?)%lk_unasked. done.
Qed.

(** Nor what a receiver that stopped was owed, nor whether it had seen the end. *)
Definition forget_owed (L : @Link T) : Link :=
  mkLink (sender_runs L) (receiver_runs L) (receiver_wired L) (sender_wired L) (owing L) p false
    (reqs L) (data L) (sent L) (got L).
Lemma forget_owed_ok d Q fin L :
  link_ok p d Q fin L -> receiver_runs L = false -> receiver_wired L = true -> link_ok p d Q fin (forget_owed L).
Proof.
  intros (ns & cn & xs & t & H) Hs Hw. exists ns, cn, xs, t. destruct H. split; cbn; try done; try lia; try congruence.
  - intros Hr. specialize (lk_credit Hr). lia.
  - intros Hq. destruct (lk_quiet Hq) as (? & ? & ? & ?). split_and!; try done. congruence.
Qed.

(** * The source *)

Record source_ok (xs : list (result T)) (s : Stage T) (sent : list T) : Prop := {
  so_common : common_ok p q 0 s;
  so_up : _up s = None;
  so_demand : _demand s = 0;
  so_exhausted : _exhausted s = false;
  so_data : xs = (Ok <$> sent) ++ _iter s }.

(** What [n] rounds of [produce] draw from an iterable. *)
Inductive ending := More (rest : list (result T)) | Ended | FailedWith (e : exn) (rest : list (result T)).
Fixpoint draw (n : nat) (it : list (result T)) : list T * ending :=
  match n, it with
  | O, _ => ([], More it)
  | S n, [] => ([], Ended)
  | S n, Ok x :: rest => let '(ys, e) := draw n rest in (x :: ys, e)
  | S n, Err e :: rest => ([], FailedWith e rest)
  end.
Lemma draw_spec n it ys e :
  draw n it = (ys, e) ->
  match e with
  | More rest => it = (Ok <$> ys) ++ rest /\ length ys = n
  | Ended => it = Ok <$> ys /\ (length ys < n)%nat
  | FailedWith e rest => it = (Ok <$> ys) ++ Err e :: rest /\ (length ys < n)%nat
  end.
Proof.
  revert it ys e. induction n as [|n IH]; intros it ys e H; [by injection H as <- <-|].
  destruct it as [|[x|x] it]; cbn in H; [by injection H as <- <-; cbn; auto with lia| |
    by injection H as <- <-; cbn; auto with lia].
  destruct (draw n it) as [ys' e'] eqn:E. injection H as <- <-. specialize (IH _ _ _ E).
  destruct e'; destruct IH as [-> ?]; cbn; split; auto with lia.
Qed.

Definition tells (d : nat) (ys : list T) : acts := (fun x => Tell d (OnNext x)) <$> ys.
Lemma says_tells u d ys : u <> d -> says u d (tells d ys) [] (OnNext <$> ys) [].
Proof.
  intros Hne. unfold tells. induction ys as [|x l IH]; [done|]. cbn [fmap list_fmap].
  apply (says_app u d [_] _ [] [] [OnNext x] _ [] []); [by apply says_tell_down|done].
Qed.

Lemma produce_rec n i (s : Stage T) (l : acts) d :
  _down s = Some d -> _exhausted s = false -> _lifecycle s = true ->
  produce i n (s, l) =
  match draw n (_iter s) with
  | (ys, More rest) => (Ret false, (set_iter rest s, l ++ tells d ys))
  | (ys, Ended) =>
      (Ret true, (set_terminated (set_exhausted (set_iter [] s)), l ++ tells d ys ++ [Tell d OnComplete; ExpectStop i]))
  | (ys, FailedWith e rest) =>
      (Ret true, (set_terminated (set_iter rest s), l ++ tells d ys ++ [Tell d (OnError e); ExpectStop i]))
  end.
Proof.
  revert s l. induction n as [|n IH]; intros s l Hd Hx Hl.
  { cbn. rewrite app_nil_r. by destruct s. }
  cbn [produce draw]. unfold bind at 1, this at 1. cbn [fst]. rewrite Hd, Hx. destruct (_iter s) as [|[x|e] rest] eqn:E.
  - unfold bind, update. cbn [fst snd]. rewrite do_rec, stop_recorded by done. cbn. rewrite <- app_assoc.
    destruct s. cbn in *. by subst.
  - unfold bind, update, catch. cbn [fst snd lift]. unfold ret at 1. rewrite do_rec. unfold ret at 1.
    rewrite IH by done. cbn [_iter set_iter]. destruct (draw n rest) as [ys e]. cbn.
    destruct e; by rewrite <- app_assoc.
  - unfold bind, update, catch. cbn [fst snd lift]. unfold raise at 1. cbn [fst snd]. rewrite do_rec, stop_recorded by done.
    unfold ret. cbn. by rewrite <- app_assoc.
Qed.

Section source.
Context (xs : list (result T)) (Q : Prop) (s : Stage T) (Ld : @Link T).
Abbreviation fin0 := (fun l => l = oks xs /\ all_ok xs).

Definition source_answers (m : msg) : Prop :=
  exists b s' l dms,
    react SourceFromIterable 0 m s = (Ret b, (s', l)) /\
    says 0 1 l [] dms (if b : bool then [ExpectStop 0] else match m with Subscribe _ _ => [Acknowledge] | _ => [] end) /\
    link_ok p 1 Q fin0 (right_link 0 Ld b s' m dms) /\
    (b = false -> source_ok xs s' (sent Ld ++ nexts dms)) /\
    (b = true -> sent Ld ++ nexts dms `prefix_of` oks xs).

Context (Hok : source_ok xs s (sent Ld)) (Hrun : sender_runs Ld = true) (Hsw : sender_wired Ld = wired (_down s)).
Context (Hown : owing Ld = 0) (HLd : link_ok p 1 Q fin0 Ld) (HQ : Q -> all_ok xs).

(** The method, once the source is known not to have terminated. *)
Lemma react_source m :
  react SourceFromIterable 0 m s = match m with
    | Subscribe down wiring => bind (subscribed down wiring) (fun _ => ret false) (s, [])
    | Request n => (if 0 <? n then produce 0 (Z.to_nat n)
        else bind (update set_terminated) (fun _ => bind (tell_opt (_down s) (OnError ValueError)) (fun _ => _stop 0))) (s, [])
    | Cancel => bind (update set_terminated) (fun _ => _stop 0) (s, [])
    | _ => ret false (s, []) end.
Proof.
  unfold react. cbn [receive]. unfold SourceFromIterable_receive, bind at 1, this at 1. cbn [fst].
  rewrite (co_terminated _ _ _ _ (so_common _ _ _ Hok)). by destruct m.
Qed.
Lemma source_sent : sent Ld `prefix_of` oks xs.
Proof. rewrite (so_data _ _ _ Hok), oks_app. by eexists. Qed.

Lemma source_subscribe d w rest : reqs Ld = Subscribe d w :: rest -> source_answers (Subscribe d w).
Proof.
  intros Hr. pose proof (react_source (Subscribe d w)) as Hreact. cbv beta iota in Hreact.
  destruct Hok as [Hco Hup Hdem Hex Hdata]. destruct Hco as [Hpr Hmx Hte Hcs _ Hdn Hli].
  destruct (subscribed_by_ok _ _ _ _ _ _ _ _ HLd Hr Hrun) as (HL & -> & -> & Hnw & _).
  exists false, (set_down 1 true s), [Acknowledge], []. split_and!; [|by apply says_other| |intros _|done].
  + rewrite Hreact. done.
  + replace (right_link _ _ _ _ _ _) with (subscribed_by rest Ld); [done|].
    unfold right_link, subscribed_by. rewrite to_receiver_nil, Hr. cbn. rewrite app_nil_r. by f_equal.
  + cbn. rewrite app_nil_r. split; [|done..]. split; cbn; try done; [by left|by right].
Qed.

(** What a request finds, and draws. *)
Lemma request_draws n rest ys e :
  reqs Ld = Request n :: rest -> draw (Z.to_nat n) (_iter s) = (ys, e) ->
  link_ok p 1 Q fin0 (asked n rest Ld) /\ 0 < n /\ sender_wired Ld = true /\ _down s = Some 1%nat /\ _lifecycle s = true /\
  react SourceFromIterable 0 (Request n) s =
    match e with
    | More more => (Ret false, (set_iter more s, tells 1 ys))
    | Ended => (Ret true, (set_terminated (set_exhausted (set_iter [] s)), tells 1 ys ++ [Tell 1 OnComplete; ExpectStop 0]))
    | FailedWith e more => (Ret true, (set_terminated (set_iter more s), tells 1 ys ++ [Tell 1 (OnError e); ExpectStop 0]))
    end /\
  link_ok p 1 Q fin0 (emit ys (asked n rest Ld)).
Proof.
  intros Hr Edraw. pose proof (react_source (Request n)) as Hreact. cbv beta iota in Hreact. pose proof (draw_spec _ _ _ _ Edraw) as Hspec.
  destruct Hok as [Hco Hup Hdem Hex Hdata]. destruct Hco as [Hpr Hmx Hte Hcs _ Hdn Hli].
  destruct (asked_ok _ _ _ _ _ _ _ HLd Hr Hrun) as (HL & Hn & Hw & _).
  assert (Hd : _down s = Some 1%nat) by (destruct Hdn as [E|]; [rewrite Hsw, E in Hw|]; done).
  assert (Hlf : _lifecycle s = true) by (apply Hli; right; congruence).
  rewrite (proj2 (Z.ltb_lt 0 n)) in Hreact by done. rewrite (produce_rec _ _ _ _ 1%nat) in Hreact by done.
  rewrite Edraw in Hreact. split_and!; try done. apply emit_ok; [done|done|]. cbn. destruct e; lia.
Qed.
Lemma request_more n rest ys more :
  reqs Ld = Request n :: rest -> draw (Z.to_nat n) (_iter s) = (ys, More more) -> source_answers (Request n).
Proof.
  intros Hr Edraw. destruct (draw_spec _ _ _ _ Edraw) as [Hit Hlen].
  destruct (request_draws n rest ys _ Hr Edraw) as (HL & Hn & Hw & Hd & Hlf & Hreact & HE).
  destruct Hok as [Hco Hup Hdem Hex Hdata]. destruct Hco as [Hpr Hmx Hte Hcs _ Hdn Hli].
  exists false, (set_iter more s), (tells 1 ys), (OnNext <$> ys).
  split_and!; [done|by apply says_tells| |intros _|done].
  * replace (right_link _ _ _ _ _ _) with (emit ys (asked n rest Ld)); [done|].
    unfold right_link, emit, asked, to_receiver. cbn. rewrite nexts_elements, Hr. f_equal; try done. lia.
  * rewrite nexts_elements. split; cbn; try done; [split; cbn; auto|]. rewrite Hdata, Hit, fmap_app, <- app_assoc. done.
Qed.
Lemma request_ended n rest ys :
  reqs Ld = Request n :: rest -> draw (Z.to_nat n) (_iter s) = (ys, Ended) -> source_answers (Request n).
Proof.
  intros Hr Edraw. destruct (draw_spec _ _ _ _ Edraw) as [Hit Hlen].
  destruct (request_draws n rest ys _ Hr Edraw) as (HL & Hn & Hw & Hd & Hlf & Hreact & HE).
  destruct Hok as [Hco Hup Hdem Hex Hdata]. destruct Hco as [Hpr Hmx Hte Hcs _ Hdn Hli].
  exists true, (set_terminated (set_exhausted (set_iter [] s))), (tells 1 ys ++ [Tell 1 OnComplete] ++ [ExpectStop 0]),
    ((OnNext <$> ys) ++ [OnComplete] ++ []).
  assert (Hnx : nexts ((OnNext <$> ys) ++ [OnComplete] ++ []) = ys) by (rewrite nexts_app, nexts_elements; apply app_nil_r).
  assert (Hall : xs = Ok <$> (sent Ld ++ ys)) by (by rewrite fmap_app, <- Hit).
  assert (Hoks : oks xs = sent Ld ++ ys) by (rewrite Hall, <- (app_nil_r (Ok <$> _)), oks_app; apply app_nil_r).
  split_and!; [done| | |done|intros _; by rewrite Hnx, Hoks].
  * apply (says_app 0 1 _ _ [] [] _ _ [] [_]); [by apply says_tells|].
    apply (says_app 0 1 [_] [_] [] [] [_] [] [] [_]); [by apply says_tell_down|by apply says_other].
  * replace (right_link _ _ _ _ _ _) with (forget_owing (sender_dies [OnComplete] (emit ys (asked n rest Ld)))).
    -- apply forget_owing_ok; [|done]. apply sender_dies_ok; [done|done|by right; left| |cbn; congruence|done].
       intros _. cbn. split; [done|]. rewrite Hall. apply Forall_fmap, Forall_true. intros x. by exists x.
    -- unfold right_link, forget_owing, sender_dies, emit, asked, to_receiver. rewrite Hnx. cbn. rewrite Hd. f_equal; try done.
       destruct (receiver_runs Ld); [|done]. by rewrite <- app_assoc.
Qed.
Lemma request_failed n rest ys e more :
  reqs Ld = Request n :: rest -> draw (Z.to_nat n) (_iter s) = (ys, FailedWith e more) -> source_answers (Request n).
Proof.
  intros Hr Edraw. destruct (draw_spec _ _ _ _ Edraw) as [Hit Hlen].
  destruct (request_draws n rest ys _ Hr Edraw) as (HL & Hn & Hw & Hd & Hlf & Hreact & HE).
  destruct Hok as [Hco Hup Hdem Hex Hdata]. destruct Hco as [Hpr Hmx Hte Hcs _ Hdn Hli].
  exists true, (set_terminated (set_iter more s)), (tells 1 ys ++ [Tell 1 (OnError e)] ++ [ExpectStop 0]),
    ((OnNext <$> ys) ++ [OnError e] ++ []).
  assert (Hnx : nexts ((OnNext <$> ys) ++ [OnError e] ++ []) = ys) by (rewrite nexts_app, nexts_elements; apply app_nil_r).
  assert (Hall : xs = (Ok <$> (sent Ld ++ ys)) ++ Err e :: more) by (by rewrite fmap_app, <- app_assoc, <- Hit).
  assert (HnQ : ~ Q).
  { intros Hq. pose proof (HQ Hq) as Ha. rewrite Hall in Ha. apply Forall_app in Ha as [_ Ha].
    by apply Forall_inv in Ha as [? ?]. }
  split_and!; [done| | |done|intros _; rewrite Hnx, Hall, oks_app; by eexists].
  * apply (says_app 0 1 _ _ [] [] _ _ [] [_]); [by apply says_tells|].
    apply (says_app 0 1 [_] [_] [] [] [_] [] [] [_]); [by apply says_tell_down|by apply says_other].
  * replace (right_link _ _ _ _ _ _) with (forget_owing (sender_dies [OnError e] (emit ys (asked n rest Ld)))).
    -- apply forget_owing_ok; [|done]. apply sender_dies_ok; [done|done|by right; right; eexists|done|cbn; congruence|done].
    -- unfold right_link, forget_owing, sender_dies, emit, asked, to_receiver. rewrite Hnx. cbn. rewrite Hd. f_equal; try done.
       destruct (receiver_runs Ld); [|done]. by rewrite <- app_assoc.
Qed.
Lemma source_cancel rest : reqs Ld = Cancel :: rest -> source_answers Cancel.
Proof.
  intros Hr. pose proof (react_source Cancel) as Hreact. cbv beta iota in Hreact. pose proof source_sent as Hpref.
  destruct Hok as [Hco Hup Hdem Hex Hdata]. destruct Hco as [Hpr Hmx Hte Hcs _ Hdn Hli].
  destruct (cancel_loud _ _ _ _ _ _ HLd Hr Hrun) as [HnQ Hw].
  assert (Hlf : _lifecycle s = true) by (apply Hli; right; intros E; by rewrite Hsw, E in Hw).
  exists true, (set_terminated s), [ExpectStop 0], []. split_and!; [|by apply says_other| |done|intros _; cbn; by rewrite app_nil_r].
  + rewrite Hreact. unfold bind, update. cbn [fst snd]. by rewrite stop_recorded.
  + replace (right_link _ _ _ _ _ _) with (forget_owing (sender_dies [] Ld)).
    * apply forget_owing_ok; [|done]. apply sender_dies_ok; [done|done|by left|done|done|done].
    * unfold right_link, forget_owing, sender_dies. cbn. rewrite app_nil_r. by f_equal.
Qed.

Lemma source_step m rest : reqs Ld = m :: rest -> from_down m = true -> source_answers m.
Proof.
  intros Hr Hm. destruct m as [d w| |n| | | |]; try done; [by eapply source_subscribe| |by eapply source_cancel].
  destruct (draw (Z.to_nat n) (_iter s)) as [ys [more| |e more]] eqn:E;
    [by eapply request_more|by eapply request_ended|by eapply request_failed].
Qed.
End source.

(** * The sinks *)

(** Whether a sink's function returns on all of a list. *)
Definition sink_good (k : kind T) (l : list T) : Prop :=
  match k with SinkForEach _ func => Forall (fun x => func x = Ok tt) l | _ => True end.
Definition is_sink (k : kind T) : Prop := match k with SinkForEach _ _ | SinkCollect => True | _ => False end.

Record sink_ok (i : nat) (k : kind T) (s : Stage T) (got : list T) : Prop := {
  ko_common : common_ok p q i s;
  ko_items : k = SinkCollect -> _items s = got;
  ko_good : sink_good k got }.

Definition sink_owed (s : Stage T) : Z := if wired (_up s) then p else 0.
(** How a sink settles the materialized future. *)
Definition settles_with (k : kind T) (a : action T) : acts :=
  match k with SinkForEach false _ => [] | _ => [a] end.
Definition sink_result (k : kind T) (got : list T) : list T := match k with SinkCollect => got | _ => [] end.
(** What a sink does besides telling its upstream. *)
Definition sink_acts (i : nat) (k : kind T) (m : msg) (got : list T) : acts :=
  match m with
  | OnNext x =>
      match k with
      | SinkForEach _ func =>
          Call x :: match func x with Ok _ => [] | Err e => settles_with k (SubmitException e) ++ [ExpectStop i] end
      | _ => []
      end
  | OnComplete => settles_with k (SubmitResult (sink_result k got)) ++ [ExpectStop i]
  | OnError e => settles_with k (SubmitException e) ++ [ExpectStop i]
  | _ => []
  end.

Lemma says_settles u d k (a : action T) :
  is_tell a = false -> says u d (settles_with k a) [] [] (settles_with k a).
Proof. intros Ha. unfold settles_with. destruct k as [| |[] ?|]; try apply says_nil; by apply says_other. Qed.

Section sink.
Context (u : nat) (k : kind T) (Hk : is_sink k) (Q C : Prop) (I : list T) (s : Stage T) (Lu : @Link T).
Abbreviation i := (S u).
Abbreviation finu := (fun l => l = I /\ C).

Definition sink_answers (m : msg) : Prop :=
  exists b s' l ums,
    react k i m s = (Ret b, (s', l)) /\
    says u (S i) l ums [] (sink_acts i k m (got Lu)) /\
    link_ok p i Q finu (left_link (sink_owed s') false Lu b s' m ums) /\
    (b = false -> sink_ok i k s' (got Lu ++ nexts [m])) /\
    (b = true <-> exists l', sink_acts i k m (got Lu) = l' ++ [ExpectStop i]) /\
    (m = OnComplete -> b = true /\ got Lu = I /\ C) /\ (b = true -> Q -> m = OnComplete).

Context (Hok : sink_ok i k s (got Lu)) (Hruns : receiver_runs Lu = true) (Hsup : receiver_wired Lu = wired (_up s)).
Context (Howed : owed Lu = sink_owed s) (Hclosed : receiver_closed Lu = false).
Context (HLu : link_ok p i Q finu Lu) (HQ : Q -> sink_good k I) (Hpre : sent Lu `prefix_of` I).

(** A message other than the wiring finds a wired sink. *)
Lemma sink_wired_up m rest : data Lu = m :: rest -> _up s = Some u.
Proof.
  intros Hr. destruct Hok as [[_ _ _ _ Hup _ _] _ _]. cbn in Hup. rewrite Nat.sub_0_r in Hup.
  destruct Hup as [E|]; [|done]. destruct HLu as (ns & cn & xs & t & HL').
  destruct (lk_unwired _ _ _ _ _ _ _ _ _ HL') as (_ & Hw & _); [by rewrite Hsup, E|].
  destruct (lk_unasked _ _ _ _ _ _ _ _ _ HL' Hw) as (_ & -> & ->).
  by rewrite (lk_data _ _ _ _ _ _ _ _ _ HL') in Hr.
Qed.

Lemma sink_set_upstream : _up s = None -> sink_answers (SetUpstream u true).
Proof.
  intros Hu. pose proof Hok as [[Hpr Hmx Hte Hcs _ Hdn Hli] Hitems _].
  exists false, (set_up u true s), [Tell u (Subscribe i true); Tell u (Request p)], [Subscribe i true; Request p].
  assert (Hreact : react k i (SetUpstream u true) s =
    (Ret false, (set_up u true s, [Tell u (Subscribe i true); Tell u (Request p)]))).
  { unfold react. destruct k; try done; cbn; unfold sink_wired, bind, this, update; cbn; by rewrite Hpr. }
  split_and!; [done| | |intros _|..].
  - cbn. apply (says_app u (S i) [_] [_] [_] [_] [] [] [] []); apply says_tell_up; lia.
  - replace (left_link _ _ _ _ _ _ _) with (ask p (subscribing i Lu)).
    + apply ask_ok; [apply subscribe_ok; [done|by rewrite Hsup, Hu|done]|done|done|lia|cbn|done].
      rewrite Howed. unfold sink_owed. rewrite Hu. cbn. lia.
    + unfold left_link, ask, subscribing, to_sender. cbn. rewrite app_nil_r. f_equal; try done.
      * rewrite Howed. unfold sink_owed. rewrite Hu. cbn. lia.
      * destruct (sender_runs Lu); [|done]. by rewrite <- app_assoc.
  - cbn. rewrite app_nil_r. split; [|done|apply Hok]. split; cbn; try done. right. by rewrite Nat.sub_0_r.
  - cbn. split; [done|]. intros [l' E]. by destruct l'.
  - done.
  - done.
Qed.

Lemma sink_next x rest : data Lu = OnNext x :: rest -> sink_answers (OnNext x).
Proof.
  intros Hr. pose proof (sink_wired_up _ _ Hr) as Hu.
  pose proof Hok as [[Hpr Hmx Hte Hcs Hup Hdn Hli] Hitems _].
  destruct (take_element_ok _ _ _ _ _ _ _ HLu Hr Hruns) as (HT & Ho & Hc & Hw).
  assert (Hlf : _lifecycle s = true) by (apply Hli; left; congruence).
  assert (Hw1 : sink_owed s = p) by (unfold sink_owed; by rewrite Hu).
  assert (Hgo : forall s', _up s' = Some u -> link_ok p i Q finu (left_link (sink_owed s') false Lu false s' (OnNext x) [Request 1])).
  { intros s' Hs'. replace (left_link _ _ _ _ _ _ _) with (ask 1 (take_element x rest Lu)).
    - apply ask_ok; cbn; [done|done|done|lia|lia|done].
    - unfold left_link, ask, take_element, sink_owed. rewrite Hr, Hs'. cbn. f_equal; try done. lia. }
  assert (Hin : Q -> x ∈ I).
  { intros _. destruct HT as (ns & cn & xs & t & HT). pose proof (lk_prefix _ _ _ _ _ _ _ _ _ HT) as Hp1. cbn in Hp1.
    destruct (transitivity Hp1 Hpre) as [r ->]. set_solver. }
  destruct k as [| |mat func|] eqn:Ek; try done.
  - destruct (func x) as [[]|e] eqn:Ef.
    + exists false, s, ([Call x] ++ [Tell u (Request 1)]), ([] ++ [Request 1]). split_and!; rewrite ?Ek; [| | |intros _|..].
      * unfold react. cbn. unfold bind, this, catch. cbn. rewrite Ef. cbn. rewrite Hu. done.
      * cbn [sink_acts]. rewrite Ef. apply (says_app u (S i) [_] [_] [] [_] [] [] [_] []); [by apply says_other|apply says_tell_up; lia].
      * by apply Hgo.
      * split; [by split|done|]. cbn. apply Forall_app_2; [|by constructor].
        exact (ko_good _ _ _ _ Hok).
      * cbn. rewrite Ef. split; [done|]. intros [[|? l'] E]; [done|]. by destruct l'.
      * done.
      * done.
    + exists true, s, ([Call x] ++ settles_with (SinkForEach mat func) (SubmitException e) ++ [Tell u Cancel] ++ [ExpectStop i]),
        ([] ++ [] ++ [Cancel] ++ []).
      split_and!; rewrite ?Ek; [| | |done|..].
      * unfold react. cbn [receive]. unfold SinkForEach_receive, bind, this, catch. cbn [fst].
        rewrite do_rec, Ef. unfold lift, raise, settles_with. rewrite Hu. unfold tell_opt.
        destruct mat; cbn [when]; unfold ret; rewrite !do_rec; by rewrite stop_recorded.
      * cbn [sink_acts]. rewrite Ef.
        apply (says_app u (S i) [_] _ [] _ [] [] [_] _); [by apply says_other|].
        apply (says_app u (S i) _ _ [] _ [] [] _ [_]); [by apply says_settles|].
        apply (says_app u (S i) [_] [_] [_] [] [] [] [] [_]); [apply says_tell_up; lia|by apply says_other].
      * replace (left_link _ _ _ _ _ _ _) with (forget_owed (receiver_dies [Cancel] (take_element x rest Lu))).
        -- apply forget_owed_ok; [|done|done]. apply receiver_dies_ok; [done|done|by right|cbn; congruence|].
           intros Hq. exfalso. pose proof (HQ Hq) as Hg. rewrite ?Ek in Hg. cbn in Hg. rewrite Forall_forall in Hg.
           specialize (Hg x (proj1 (list_elem_of_In _ _) (Hin Hq))). congruence.
        -- unfold left_link, forget_owed, receiver_dies, take_element, to_sender. cbn. rewrite Hw1, Hu. by f_equal.
      * cbn. rewrite Ef. split; [intros _|done]. eexists. apply (app_assoc [Call x]).
      * done.
      * intros _ Hq. exfalso. pose proof (HQ Hq) as Hg. rewrite ?Ek in Hg. cbn in Hg. rewrite Forall_forall in Hg.
        specialize (Hg x (proj1 (list_elem_of_In _ _) (Hin Hq))). congruence.
  - exists false, (set_items (_items s ++ [x]) s), [Tell u (Request 1)], [Request 1]. split_and!; rewrite ?Ek; [| | |intros _|..].
    + unfold react. cbn. unfold bind, this, update. cbn [fst]. by rewrite Hu.
    + apply says_tell_up; lia.
    + by apply Hgo.
    + split; [by split| |done]. intros _. cbn. by rewrite Hitems.
    + cbn. split; [done|]. intros [l' E]. by destruct l'.
    + done.
    + done.
Qed.

Lemma sink_complete rest : data Lu = OnComplete :: rest -> sink_answers OnComplete.
Proof.
  intros Hr. pose proof (sink_wired_up _ _ Hr) as Hu.
  pose proof Hok as [[Hpr Hmx Hte Hcs Hup Hdn Hli] Hitems _].
  destruct (take_complete_ok _ _ _ _ _ _ HLu Hr Hruns) as (HT & -> & [HI HC] & HsLu & _).
  assert (Hlf : _lifecycle s = true) by (apply Hli; left; congruence).
  exists true, s, (settles_with k (SubmitResult (sink_result k (got Lu))) ++ [ExpectStop i]), ([] ++ []).
  split_and!; [| | |done| |done|done].
  - unfold react. destruct k as [| |[] func|]; try done; cbn [receive];
      unfold SinkForEach_receive, SinkCollect_receive, bind, this; cbn [fst when]; unfold ret;
      rewrite ?do_rec, stop_recorded by done; try done. by rewrite (Hitems eq_refl).
  - apply (says_app u (S i) _ _ [] [] [] [] _ [_]); [by apply says_settles|by apply says_other].
  - replace (left_link _ _ _ _ _ _ _) with (forget_owed (receiver_dies [] (take_complete [] Lu))).
    + apply forget_owed_ok; [|done|cbn; by rewrite Hsup, Hu]. apply receiver_dies_ok; [done|done|by left|done|done].
    + unfold left_link, forget_owed, receiver_dies, take_complete, to_sender, sink_owed. cbn. rewrite Hu. cbn.
      rewrite ?app_nil_r. f_equal; first [done|by rewrite Hsup, Hu|by destruct (sender_runs Lu)].
  - cbn. split; [intros _|done]. eauto.
Qed.

Lemma sink_error e rest : data Lu = OnError e :: rest -> sink_answers (OnError e).
Proof.
  intros Hr. pose proof (sink_wired_up _ _ Hr) as Hu. pose proof (take_error_loud _ _ _ _ _ _ _ HLu Hr) as HnQ.
  pose proof Hok as [[Hpr Hmx Hte Hcs Hup Hdn Hli] Hitems _].
  assert (Hlf : _lifecycle s = true) by (apply Hli; left; congruence).
  exists true, s, (settles_with k (SubmitException e) ++ [ExpectStop i]), ([] ++ []).
  split_and!; [| | |done| |done|tauto].
  - unfold react. destruct k as [| |[] func|]; try done; cbn [receive];
      unfold SinkForEach_receive, SinkCollect_receive, bind, this; cbn [fst when]; unfold ret;
      by rewrite ?do_rec, stop_recorded by done.
  - apply (says_app u (S i) _ _ [] [] [] [] _ [_]); [by apply says_settles|by apply says_other].
  - replace (left_link _ _ _ _ _ _ _) with (forget_owed (receiver_dies [] Lu)).
    + apply forget_owed_ok; [|done|cbn; by rewrite Hsup, Hu]. apply receiver_dies_ok; [done|done|by left|done|tauto].
    + unfold left_link, forget_owed, receiver_dies, to_sender, sink_owed. cbn. rewrite Hu. cbn.
      rewrite ?app_nil_r. f_equal; first [done|by rewrite Hsup, Hu|by destruct (sender_runs Lu)].
  - cbn. split; [intros _|done]. eauto.
Qed.

Lemma sink_step m :
  from_up m = true /\ (exists rest, data Lu = m :: rest) \/ m = SetUpstream u true /\ _up s = None -> sink_answers m.
Proof.
  intros [[Hm [rest Hr]]|[-> Hu]].
  - destruct m; try done; [by eapply sink_next|by eapply sink_complete|by eapply sink_error].
  - by apply sink_set_upstream.
Qed.
End sink.
End ends.
