(* ===== verification/StreamInv.v ===== *)
(** The links of a running stream.

    [link_of] reads the link between a stage and the next one off the stages and their
    mailboxes; the messages of a mailbox are of three classes, by where they come from; and
    an answer of a stage changes the links to its left and right and no other. *)

From stdpp Require Import base list numbers gmap functions.
From S2P Require Import Prelude Effects Streams StreamGraph StreamLink StreamReact StreamStage StreamFlow StreamEnds.

Section links.
Context {T : Type} (p : Z) (kd : nat -> kind T).
Abbreviation msg := (StageBehaviorCommand T).

Definition pend (b : Box T) : list msg := batch b ++ queue b.
Definition runs (b : Box T) : bool := bool_decide (status b = Running).

Definition owed_of (k : kind T) (s : Stage T) : Z :=
  match k with FlowMap _ => _in_flight s | _ => sink_owed p s end.
Definition closed_of (k : kind T) (s : Stage T) : bool := match k with FlowMap _ => _up_closed s | _ => false end.
Definition owing_of (k : kind T) (s : Stage T) : Z := match k with FlowMap _ => _demand s | _ => 0 end.

Definition ups (l : list msg) : list msg := List.filter from_up l.
Definition downs (l : list msg) : list msg := List.filter from_down l.
Definition is_setup (m : msg) : bool := match m with SetUpstream _ _ => true | _ => false end.
Definition setups (l : list msg) : list msg := List.filter is_setup l.

Definition link_of (st : nat -> Stage T) (bx : nat -> Box T) (snt gt : nat -> list T) (i : nat) : Link :=
  mkLink (runs (bx i)) (runs (bx (S i))) (wired (_up (st (S i)))) (wired (_down (st i)))
    (owing_of (kd i) (st i)) (owed_of (kd (S i)) (st (S i))) (closed_of (kd (S i)) (st (S i)))
    (downs (pend (bx i))) (ups (pend (bx (S i)))) (snt i) (gt (S i)).

Lemma ups_app l k : ups (l ++ k) = ups l ++ ups k.
Proof. apply List.filter_app. Qed.
Lemma downs_app l k : downs (l ++ k) = downs l ++ downs k.
Proof. apply List.filter_app. Qed.
Lemma setups_app l k : setups (l ++ k) = setups l ++ setups k.
Proof. apply List.filter_app. Qed.

(** A message belongs to exactly one of the three. *)
Lemma classes l : length l = (length (setups l) + length (ups l) + length (downs l))%nat.
Proof. unfold setups, ups, downs. induction l as [|m l IH]; [done|]. destruct m; cbn; lia. Qed.

Lemma ups_only l : Forall (fun m => from_up m = true) l -> ups l = l /\ downs l = [] /\ setups l = [].
Proof.
  unfold ups, downs, setups.
  induction 1 as [|m l Hm _ (IH1 & IH2 & IH3)]; [done|]. destruct m; try done; cbn; by rewrite IH1, IH2, IH3.
Qed.
Lemma downs_only l : Forall (fun m => from_down m = true) l -> downs l = l /\ ups l = [] /\ setups l = [].
Proof.
  unfold ups, downs, setups.
  induction 1 as [|m l Hm _ (IH1 & IH2 & IH3)]; [done|]. destruct m; try done; cbn; by rewrite IH1, IH2, IH3.
Qed.

Lemma link_reqs_class d Q fin (L : @Link T) : link_ok p d Q fin L -> Forall (fun m => from_down m = true) (reqs L).
Proof.
  intros (ns & cn & xs & t & H). rewrite (lk_reqs _ _ _ _ _ _ _ _ _ H). repeat apply Forall_app_2.
  - case_match; by repeat constructor.
  - apply Forall_fmap, Forall_true. done.
  - destruct (lk_cancel _ _ _ _ _ _ _ _ _ H) as [->|[-> _]]; by repeat constructor.
Qed.
Lemma link_data_class d Q fin (L : @Link T) : link_ok p d Q fin L -> Forall (fun m => from_up m = true) (data L).
Proof.
  intros (ns & cn & xs & t & H). rewrite (lk_data _ _ _ _ _ _ _ _ _ H). apply Forall_app_2.
  - apply Forall_fmap, Forall_true. done.
  - destruct (lk_terminal _ _ _ _ _ _ _ _ _ H) as [->|[->|[e ->]]]; by repeat constructor.
Qed.

(** ** What one answer changes *)

(** The mailboxes after stage [i] answered the first message of [m :: rest ++ _] by [l]. *)
Definition answered (i : nat) (rest : list msg) (b : bool) (l : list (action T)) (bx : nat -> Box T) : nat -> Box T :=
  fun j => if decide (j = i) then if b then stopped_box else after_message rest (bx i) else grow (told j l) (bx j).

Section answer.
Context (st : nat -> Stage T) (bx : nat -> Box T) (snt gt : nat -> list T).
Context (i : nat) (m : msg) (rest : list msg) (b : bool) (s' : Stage T) (l : list (action T)) (dms : list msg).
Context (Hrun : status (bx i) = Running) (Hbatch : batch (bx i) = m :: rest).
(** Only the neighbours are told anything, and each only what comes from its side. *)
Context (Hself : told i l = []) (Hothers : forall j, S j <> i -> j <> S i -> told j l = []).
Context (Hup : forall u, i = S u -> runs (bx u) = true -> Forall (fun m => from_down m = true) (told u l)).
Context (Hdown : told (S i) l = dms) (Hdms : runs (bx (S i)) = true -> Forall (fun m => from_up m = true) dms).

Abbreviation st' := (<[i := s']> st).
Abbreviation bx' := (answered i rest b l bx).
Abbreviation snt' := (<[i := snt i ++ nexts dms]> snt).
Abbreviation gt' := (<[i := gt i ++ nexts [m]]> gt).
Abbreviation L := (link_of st bx snt gt).
Abbreviation L' := (link_of st' bx' snt' gt').

Lemma grow_runs ms (x : Box T) : runs (grow ms x) = runs x.
Proof. unfold runs. by rewrite grow_status. Qed.
Lemma grow_pend ms (x : Box T) : pend (grow ms x) = if bool_decide (status x = Stopped) then pend x else pend x ++ ms.
Proof. unfold grow, pend. destruct (status x); cbn; by rewrite ?app_assoc. Qed.

Lemma own_pend : pend (bx' i) = if b then [] else rest ++ queue (bx i).
Proof. unfold answered. rewrite decide_True by done. by destruct b. Qed.
Lemma own_runs : runs (bx' i) = negb b.
Proof. unfold answered. rewrite decide_True by done. unfold runs. destruct b; cbn; [done|]. by rewrite Hrun. Qed.
Lemma other_box j : j <> i -> bx' j = grow (told j l) (bx j).
Proof. intros Hj. unfold answered. by rewrite decide_False. Qed.
Lemma pend_i : pend (bx i) = m :: rest ++ queue (bx i).
Proof. unfold pend. by rewrite Hbatch. Qed.

Context (Hfail : forall j, status (bx j) <> Failed).

Lemma runs_stopped j : bool_decide (status (bx j) = Stopped) = negb (runs (bx j)).
Proof. unfold runs. specialize (Hfail j). by destruct (status (bx j)). Qed.

Lemma link_left u ums :
  i = S u -> told u l = ums ->
  L' u = left_link (owed_of (kd i) s') (closed_of (kd i) s') (L u) b s' m ums.
Proof.
  intros Hi Hums. subst ums. unfold link_of, left_link. cbn.
  rewrite <- Hi. rewrite own_runs, own_pend, other_box, grow_runs, grow_pend, runs_stopped by lia.
  rewrite !fn_lookup_insert, !fn_lookup_insert_ne by lia. f_equal.
  - unfold to_sender. cbn. destruct (runs (bx u)) eqn:E; cbn; [|done].
    rewrite downs_app. f_equal. by apply downs_only, Hup.
  - destruct b; [done|]. rewrite pend_i. cbn. by destruct m.
Qed.
Lemma link_right : L' i = right_link (owing_of (kd i) s') (L i) b s' m dms.
Proof.
  unfold link_of, right_link. cbn. rewrite own_runs, own_pend, other_box, grow_runs, grow_pend, runs_stopped by lia.
  rewrite !fn_lookup_insert, !fn_lookup_insert_ne by lia. f_equal.
  - destruct b; [done|]. rewrite pend_i. cbn. by destruct m.
  - unfold to_receiver. cbn. rewrite Hdown. destruct (runs (bx (S i))) eqn:E; cbn; [|done].
    rewrite ups_app. f_equal. by apply ups_only, Hdms.
Qed.
Lemma link_other j : j <> i -> S j <> i -> L' j = L j.
Proof.
  intros H1 H2. unfold link_of.
  rewrite !other_box, !grow_runs, !grow_pend, !runs_stopped by lia. rewrite !fn_lookup_insert_ne by lia. f_equal.
  - destruct (runs (bx j)) eqn:E; cbn; [|done].
    destruct (decide (j = S i)) as [->|Hj]; [|by rewrite Hothers, app_nil_r by lia].
    rewrite downs_app, Hdown. destruct (ups_only dms) as (_ & -> & _); [auto|]. by rewrite app_nil_r.
  - destruct (runs (bx (S j))) eqn:E; cbn; [|done].
    destruct (decide (S (S j) = i)) as [Hj|Hj].
    + rewrite ups_app. destruct (downs_only (told (S j) l)) as (_ & -> & _); [by apply Hup|]. by rewrite app_nil_r.
    + by rewrite Hothers, app_nil_r by lia.
Qed.

(** The wiring messages of the other stages are as they were. *)
Lemma setups_other j : j <> i -> setups (pend (bx' j)) = setups (pend (bx j)).
Proof.
  intros Hj. rewrite other_box, grow_pend, runs_stopped by done. destruct (runs (bx j)) eqn:E; cbn; [|done].
  rewrite setups_app. destruct (decide (S j = i)) as [Hu|Hu].
  - destruct (downs_only (told j l)) as (_ & _ & ->); [by apply Hup|]. apply app_nil_r.
  - destruct (decide (j = S i)) as [->|Hd].
    + rewrite Hdown. destruct (ups_only dms) as (_ & _ & ->); [auto|]. apply app_nil_r.
    + rewrite Hothers by done. apply app_nil_r.
Qed.
End answer.
End links.
