(* ===== verification/StreamRun.v ===== *)
(** The invariant of a running stream.

    [pipe_inv] says that every link keeps its protocol, every running stage is in order, and
    the wiring, the graph and the materialized future are in step with them.  [Quiet]: all
    iterables, transforms and sink functions are free of errors, and nobody asked for a
    stop. *)

From stdpp Require Import base list numbers gmap functions.
From S2P Require Import Prelude Effects Streams StreamGraph StreamLink StreamReact StreamStage StreamFlow StreamEnds StreamInv.

Section pipe.
Context {T : Type} (self : StreamSetup T) (xs : list (result T)) (fs : list (T -> result (option T))) (snk : kind T).
Context (p q : Z) (Hp : 0 < p <= q).
Abbreviation msg := (StageBehaviorCommand T).

(** Stage [0] reads [xs], the stages up to [last] are the flows [fs], [last] is the sink, and
    mailboxes have room for twice what can be under way to one stage. *)
Record setup_ok : Prop := {
  su_source : kinds self 0 = SourceFromIterable;
  su_flows : forall j f, fs !! j = Some f -> kinds self (S j) = FlowMap f;
  su_last : last self = S (length fs);
  su_sink : kinds self (last self) = snk;
  su_is_sink : is_sink snk;
  su_capacity : 4 * p + 8 <= capacity self;
  su_throughput : (0 < throughput self)%nat }.

(** What stage [j] emits in all, and whether nothing fails up to it. *)
Fixpoint ideal (j : nat) : list T :=
  match j with
  | O => oks xs
  | S j => match fs !! j with Some f => mapped f (ideal j) | None => ideal j end
  end.
Fixpoint clean (j : nat) : Prop :=
  match j with
  | O => all_ok xs
  | S j => match fs !! j with Some f => clean j /\ good f (ideal j) | None => clean j end
  end.
Definition fin (j : nat) (l : list T) : Prop := l = ideal j /\ clean j.
(** The whole stream. *)
Definition stream_output : list T := ideal (length fs).
Definition stream_clean : Prop := clean (length fs) /\ sink_good snk stream_output.

Definition Quiet (w : World T) : Prop := stream_clean /\ stops w = ∅.

Definition stage_inv (i : nat) (s : Stage T) (gt snt : list T) : Prop :=
  match i with
  | O => source_ok p q xs s snt
  | S j => match fs !! j with Some f => flow_ok p q i f s gt snt | None => sink_ok p q i snk s gt end
  end.
(** What a stage can have made of what it got. *)
Definition made (i : nat) (gt : list T) : list T :=
  match i with O => oks xs | S j => match fs !! j with Some f => mapped f gt | None => [] end end.

Definition has_future (k : kind T) : bool := match k with SinkCollect | SinkForEach true _ => true | _ => false end.

(** The stages and their links. *)
Record flows_inv (st : nat -> Stage T) (bx : nat -> Box T) (Q : Prop) (snt gt : nat -> list T) : Prop := {
  fi_links : forall i, (i < last self)%nat -> link_ok p (S i) Q (fin i) (link_of p (kinds self) st bx snt gt i);
  fi_stage : forall i, (i <= last self)%nat -> runs (bx i) = true -> stage_inv i (st i) (gt i) (snt i);
  fi_made : forall i, (i < last self)%nat -> snt i `prefix_of` made i (gt i);
  fi_failed : forall i, status (bx i) <> Failed;
  fi_dead : forall i, runs (bx i) = false -> bx i = stopped_box;
  fi_in_flight : forall i, Z.of_nat (in_flight_messages (bx i)) <= 2 * p + 4;
  fi_beyond : forall i, (last self < i)%nat -> bx i = empty_box;
  fi_first : ups (pend (bx 0%nat)) = [];
  fi_last : downs (pend (bx (last self))) = [] }.

(** The wiring. *)
Record wiring_inv (P : Pipe T) : Prop := {
  wi_zero : setups (pend (boxes (world P) 0%nat)) = [];
  wi_before : forall i, (1 <= i <= last self)%nat -> 0 < starting P \/ i ∈ wiring P ->
    setups (pend (boxes (world P) i)) = [] /\ _up (stages P i) = None;
  wi_after : forall i, (1 <= i <= last self)%nat -> starting P = 0 -> i ∉ wiring P -> runs (boxes (world P) i) = true ->
    setups (pend (boxes (world P) i)) = [SetUpstream (i - 1) true] /\ _up (stages P i) = None \/
    setups (pend (boxes (world P) i)) = [] /\ _up (stages P i) <> None;
  wi_size : Z.of_nat (size (unstarted P)) <= starting P;
  wi_start : 0 < starting P -> wiring P = [];
  wi_nodup : NoDup (wiring P);
  wi_range : forall i, i ∈ wiring P -> (1 <= i <= last self)%nat }.

(** The graph and the futures. *)
Record graph_inv (P : Pipe T) (gt : nat -> list T) : Prop := {
  gi_refs : _refs (graph (world P)) = seq 0 (S (last self));
  gi_stops : forall i, i ∈ stops (world P) -> (i <= last self)%nat;
  gi_calls : match snk with SinkForEach _ _ => calls (world P) = gt (last self) | _ => True end;
  gi_result : forall v, _materialized (world P) = Some (FResult v) ->
    runs (boxes (world P) (last self)) = false /\ fin (length fs) (gt (last self)) /\ v = sink_result snk (gt (last self))
    /\ sink_good snk (gt (last self));
  gi_expected : forall i, i ∈ _expected_stops (graph (world P)) ->
    (i <= last self)%nat /\ runs (boxes (world P) i) = false;
  gi_notified : forall i, i ∈ notified P -> (i <= last self)%nat /\ runs (boxes (world P) i) = false;
  gi_dead : Quiet (world P) -> forall i, runs (boxes (world P) i) = false -> i ∈ _expected_stops (graph (world P));
  gi_state : Quiet (world P) -> _state (graph (world P)) <> FAILED /\ _state (graph (world P)) <> CANCELLED;
  gi_ready : Quiet (world P) -> 0 < starting P ->
    _ready (world P) = FPending /\ starting P = Z.of_nat (size (unstarted P));
  gi_future : Quiet (world P) -> has_future snk = true ->
    _materialized (world P) =
      Some (if runs (boxes (world P) (last self)) then FPending else FResult (sink_result snk (gt (last self))));
  gi_final : Quiet (world P) -> runs (boxes (world P) (last self)) = false -> fin (length fs) (gt (last self));
  gi_complete : Quiet (world P) -> (forall i, (i <= last self)%nat -> i ∈ notified P) ->
    _state (graph (world P)) = COMPLETED }.

Record pipe_inv (P : Pipe T) (snt gt : nat -> list T) : Prop := {
  pi_flows : flows_inv (stages P) (boxes (world P)) (Quiet (world P)) snt gt;
  pi_wiring : wiring_inv P;
  pi_graph : graph_inv P gt }.

(** ** Consequences *)

Lemma ideal_flow j f : fs !! j = Some f -> ideal (S j) = mapped f (ideal j).
Proof. intros E. cbn. by rewrite E. Qed.
Lemma clean_flow j f : fs !! j = Some f -> clean (S j) <-> clean j /\ good f (ideal j).
Proof. intros E. cbn. by rewrite E. Qed.
Lemma clean_below j k : (j <= k)%nat -> clean k -> clean j.
Proof.
  induction 1 as [|k Hjk IH]; [done|]. cbn. destruct (fs !! k); [|done]. intros [? _]. by apply IH.
Qed.

Section facts.
Context (Hsu : setup_ok) (st : nat -> Stage T) (bx : nat -> Box T) (Q : Prop) (snt gt : nat -> list T).
Context (H : flows_inv st bx Q snt gt).

Lemma flow_index j : (S j < last self)%nat -> exists f, fs !! j = Some f.
Proof. intros Hj. rewrite (su_last Hsu) in Hj. apply lookup_lt_is_Some_2. lia. Qed.
Lemma sink_index : fs !! length fs = None.
Proof. by apply lookup_ge_None_2. Qed.

(** No stage emits more than it should. *)
Lemma sent_ideal i : (i < last self)%nat -> snt i `prefix_of` ideal i.
Proof.
  induction i as [|i IH]; intros Hi; [by apply (fi_made _ _ _ _ _ H 0%nat)|].
  pose proof (fi_made _ _ _ _ _ H (S i) Hi) as Hm. destruct (flow_index i Hi) as [f Hf].
  cbn in Hm |- *. rewrite Hf in *. etrans; [exact Hm|]. apply mapped_prefix.
  destruct (fi_links _ _ _ _ _ H i ltac:(lia)) as (ns & cn & ys & t & HL).
  pose proof (lk_prefix _ _ _ _ _ _ _ _ _ HL) as Hpre. cbn in Hpre. etrans; [exact Hpre|]. apply IH. lia.
Qed.
Lemma got_ideal i : (i < last self)%nat -> gt (S i) `prefix_of` ideal i.
Proof.
  intros Hi. destruct (fi_links _ _ _ _ _ H i Hi) as (ns & cn & ys & t & HL).
  pose proof (lk_prefix _ _ _ _ _ _ _ _ _ HL) as Hpre. cbn in Hpre. etrans; [exact Hpre|]. by apply sent_ideal.
Qed.

Context (Hset : forall i, (i <= last self)%nat -> (length (setups (pend (bx i))) <= 1)%nat).

Lemma downs_bound i : (i <= last self)%nat -> Z.of_nat (length (downs (pend (bx i)))) <= p + 2.
Proof.
  intros Hi. destruct (decide (i = last self)) as [->|Hne]; [rewrite (fi_last _ _ _ _ _ H); cbn; lia|].
  exact (link_reqs_bound _ _ _ _ _ (fi_links _ _ _ _ _ H i ltac:(lia))).
Qed.
Lemma ups_bound i : (i <= last self)%nat -> Z.of_nat (length (ups (pend (bx i)))) <= p + 1.
Proof.
  intros Hi. destruct i as [|i]; [rewrite (fi_first _ _ _ _ _ H); cbn; lia|].
  exact (link_data_bound _ _ _ _ _ (fi_links _ _ _ _ _ H i ltac:(lia))).
Qed.
Lemma pend_bound i : (i <= last self)%nat -> Z.of_nat (length (pend (bx i))) <= 2 * p + 4.
Proof.
  intros Hi. rewrite classes. pose proof (downs_bound i Hi). pose proof (ups_bound i Hi). specialize (Hset i Hi). lia.
Qed.
Lemma occupancy_pend i : (occupancy (bx i) <= length (pend (bx i)) + in_flight_messages (bx i))%nat.
Proof. unfold occupancy, pend. rewrite length_app. lia. Qed.
End facts.

End pipe.
