(* ===== verification/StreamStep.v ===== *)
(** Whatever message a stage of a stream receives, the links stay in order. *)

From stdpp Require Import base list numbers gmap functions.
From S2P Require Import Prelude Effects Streams StreamGraph StreamLink StreamReact StreamStage StreamFlow StreamEnds StreamInv StreamRun.

Section step.
Context {T : Type} (self : StreamSetup T) (xs : list (result T)) (fs : list (T -> result (option T))) (snk : kind T).
Context (p q : Z) (Hp : 0 < p <= q) (Hsu : setup_ok self fs snk p).
Abbreviation msg := (StageBehaviorCommand T).
Abbreviation kd := (kinds self).
Abbreviation flows_inv := (flows_inv self xs fs snk p q).

(** What stage [i] does besides telling its neighbours. *)
Definition other_acts (i : nat) (m : msg) (b : bool) (gt : list T) : list (action T) :=
  if decide (i = last self) then sink_acts i snk m gt
  else if b then [ExpectStop i] else match m with Subscribe _ _ => [Acknowledge] | _ => [] end.

Section answer.
Context (st : nat -> Stage T) (bx : nat -> Box T) (Q : Prop) (snt gt : nat -> list T).
Abbreviation L := (link_of p kd st bx snt gt).

Record answer (i : nat) (m : msg) (b : bool) (s' : Stage T) (l : list (action T)) : Prop := {
  an_react : react (kd i) i m (st i) = (Ret b, (s', l));
  an_self : told i l = [];
  an_only : forall j, S j <> i -> j <> S i -> told j l = [];
  an_beyond : told (S (last self)) l = [];
  an_left : forall u, i = S u ->
    link_ok p i Q (fin xs fs u) (left_link (owed_of p (kd i) s') (closed_of (kd i) s') (L u) b s' m (told u l));
  an_right : (i < last self)%nat ->
    link_ok p (S i) Q (fin xs fs i) (right_link (owing_of (kd i) s') (L i) b s' m (told (S i) l));
  an_stage : b = false -> stage_inv xs fs snk p q i s' (gt i ++ nexts [m]) (snt i ++ nexts (told (S i) l));
  an_made : (i < last self)%nat -> snt i ++ nexts (told (S i) l) `prefix_of` made xs fs i (gt i ++ nexts [m]);
  an_others : others l = other_acts i m b (gt i);
  an_stops : b = true <-> ExpectStop i ∈ others l;
  an_final : i = last self -> m = OnComplete -> b = true /\ fin xs fs (length fs) (gt i);
  an_quiet : i = last self -> b = true -> Q -> m = OnComplete }.

Context (H : flows_inv st bx Q snt gt) (HQ : Q -> stream_clean xs fs snk).
Context (Hset : forall i, setups (pend (bx i)) = [] \/
  (1 <= i)%nat /\ setups (pend (bx i)) = [SetUpstream (i - 1) true] /\ _up (st i) = None).

Lemma kind_flow j f : fs !! j = Some f -> kd (S j) = FlowMap f.
Proof. apply (su_flows _ _ _ _ Hsu). Qed.
Lemma kind_sink : kd (S (length fs)) = snk.
Proof. rewrite <- (su_last _ _ _ _ Hsu). apply (su_sink _ _ _ _ Hsu). Qed.
Lemma runs_true i : status (bx i) = Running -> runs (bx i) = true.
Proof. intros E. unfold runs. by apply bool_decide_eq_true. Qed.

(** Where a message of stage [i] comes from. *)
Lemma arrival i m rest :
  (i <= last self)%nat -> batch (bx i) = m :: rest ->
  (exists u, i = S u /\ from_up m = true /\ exists r, data (L u) = m :: r) \/
  ((i < last self)%nat /\ from_down m = true /\ exists r, reqs (L i) = m :: r) \/
  (exists u, i = S u /\ m = SetUpstream u true /\ _up (st i) = None).
Proof.
  intros Hi Hb. assert (Hpend : pend (bx i) = m :: rest ++ queue (bx i)) by (unfold pend; by rewrite Hb).
  destruct (from_up m) eqn:Eu; [left|destruct (from_down m) eqn:Ed; [right; left|right; right]].
  - destruct i as [|u].
    + exfalso. pose proof (fi_first _ _ _ _ _ _ _ _ _ _ _ H) as Hf. rewrite Hpend in Hf. cbn in Hf. by rewrite Eu in Hf.
    + exists u. split; [done|]. split; [done|]. cbn. rewrite Hpend. cbn. rewrite Eu. eauto.
  - destruct (decide (i = last self)) as [->|Hne].
    + exfalso. pose proof (fi_last _ _ _ _ _ _ _ _ _ _ _ H) as Hf. rewrite Hpend in Hf. cbn in Hf. by rewrite Ed in Hf.
    + split; [lia|]. split; [done|]. cbn. rewrite Hpend. cbn. rewrite Ed. eauto.
  - assert (Hm : is_setup m = true) by by destruct m.
    destruct (Hset i) as [E|(H1 & E & Hu)]; rewrite Hpend in E; cbn in E; rewrite Hm in E; [done|].
    injection E as -> _. exists (i - 1)%nat. split; [lia|done].
Qed.

Lemma source_answer m rest :
  status (bx 0%nat) = Running -> batch (bx 0%nat) = m :: rest -> exists b s' l, answer 0 m b s' l.
Proof.
  intros Hr Hb. pose proof (runs_true _ Hr) as Hrun. pose proof (su_last _ _ _ _ Hsu) as Hlast.
  destruct (arrival 0 m rest ltac:(lia) Hb) as [(u & ? & _)|[(H0 & Hm & r & Hreq)|(u & ? & _)]]; [done| |done].
  pose proof (fi_stage _ _ _ _ _ _ _ _ _ _ _ H 0 ltac:(lia) Hrun) as Hst. cbn in Hst.
  pose proof (fi_links _ _ _ _ _ _ _ _ _ _ _ H 0 H0) as HL.
  pose proof (su_source _ _ _ _ Hsu) as Hk.
  assert (Hown : owing (L 0%nat) = 0) by (cbn; by rewrite Hk).
  assert (HQ0 : Q -> all_ok xs).
  { intros Hq. destruct (HQ Hq) as [Hc _]. by apply (clean_below xs fs 0 (length fs) ltac:(lia)). }
  destruct (source_step p q xs Q (st 0%nat) (L 0%nat) Hst Hrun eq_refl Hown HL HQ0 m r Hreq Hm)
    as (b & s' & l & dms & Hreact & [S1 S2 S3 S4] & Hlink & Hstage & Hmade).
  exists b, s', l. split; rewrite ?Hk, ?S2; try done.
  - intros j Hj1 Hj2. destruct (decide (j = 0%nat)) as [->|]; [done|]. by apply S4.
  - apply S4; lia.
  - intros _. destruct b; [by apply Hmade|]. cbn. specialize (Hstage eq_refl). destruct Hstage.
    rewrite so_data, oks_app. by eexists.
  - rewrite S3. unfold other_acts. by rewrite decide_False by lia.
  - rewrite S3. destruct b; [set_solver|]. split; [done|]. by destruct m; set_solver.
  - lia.
  - lia.
Qed.

Lemma flow_answer u f m rest :
  fs !! u = Some f -> status (bx (S u)) = Running -> batch (bx (S u)) = m :: rest -> exists b s' l, answer (S u) m b s' l.
Proof.
  intros Hf Hr Hb. pose proof (runs_true _ Hr) as Hrun. pose proof (su_last _ _ _ _ Hsu) as Hlast.
  pose proof (lookup_lt_Some _ _ _ Hf) as Hu. pose proof (kind_flow _ _ Hf) as Hk.
  pose proof (fi_stage _ _ _ _ _ _ _ _ _ _ _ H (S u) ltac:(lia) Hrun) as Hst. cbn in Hst. rewrite Hf in Hst.
  pose proof (fi_links _ _ _ _ _ _ _ _ _ _ _ H u ltac:(lia)) as HLu.
  pose proof (fi_links _ _ _ _ _ _ _ _ _ _ _ H (S u) ltac:(lia)) as HLd.
  unfold fin in HLu, HLd. cbn [ideal clean] in HLd. rewrite Hf in HLd.
  assert (Hsees : sees_flow (st (S u)) (L u) (L (S u))) by (split; cbn; rewrite ?Hk; done).
  assert (HQf : Q -> good f (ideal xs fs u)).
  { intros Hq. destruct (HQ Hq) as [Hc _]. pose proof (clean_below xs fs (S u) (length fs) ltac:(lia) Hc) as Hcl.
    by apply (clean_flow _ _ _ _ Hf) in Hcl as [_ ?]. }
  assert (Hpre : sent (L u) `prefix_of` ideal xs fs u) by (apply (sent_ideal _ _ _ _ _ _ Hsu _ _ _ _ _ H); lia).
  assert (Harr : arrives u m (st (S u)) (data (L u)) (reqs (L (S u)))).
  { destruct (arrival (S u) m rest ltac:(lia) Hb) as [(v & [= <-] & A)|[(_ & A)|(v & [= <-] & A)]]; unfold arrives; auto. }
  destruct (flow_step p q Hp u f Q (clean xs fs u) (ideal xs fs u) (st (S u)) (L u) (L (S u)) Hst Hsees HLu HLd HQf Hpre m Harr)
    as (b & s' & l & ums & dms & Hreact & [S1 S2 S3 S4] & Hl1 & Hl2 & Hstage & Hmade).
  exists b, s', l. split; rewrite ?Hk; try done.
  - apply S4; lia.
  - intros j Hj1 Hj2. apply S4; lia.
  - destruct (decide (S u = length fs)) as [E|]; [|apply S4; lia]. apply S4; lia.
  - intros v [= <-]. by rewrite S1.
  - intros _. unfold fin. cbn [ideal clean]. rewrite Hf, S2. done.
  - intros ->. cbn [stage_inv]. rewrite Hf, S2. by apply Hstage.
  - intros _. cbn [made]. rewrite Hf, S2. destruct b; [by apply Hmade|]. specialize (Hstage eq_refl).
    change (gt (S u)) with (got (L u)); rewrite (fo_data _ _ _ _ _ _ _ Hstage). by eexists.
  - rewrite S3. unfold other_acts. by rewrite decide_False by lia.
  - rewrite S3. destruct b; [set_solver|]. split; [done|]. by destruct m; set_solver.
  - lia.
  - lia.
Qed.

Lemma sink_acts_stop i (k : kind T) m g :
  ExpectStop i ∈ sink_acts i k m g <-> exists l', sink_acts i k m g = l' ++ [ExpectStop i].
Proof.
  split; [|intros [l' ->]; set_solver]. unfold sink_acts, settles_with.
  destruct m, k as [| |[] func|]; try (intros ?%elem_of_nil; done);
    repeat match goal with |- context [func ?x] => destruct (func x) end; cbn; intros Hin;
    first [by exists []|by eexists [_]|by eexists [_; _]|exfalso; set_solver].
Qed.

Lemma sink_answer m rest :
  status (bx (last self)) = Running -> batch (bx (last self)) = m :: rest -> exists b s' l, answer (last self) m b s' l.
Proof.
  pose proof (su_last _ _ _ _ Hsu) as Hlast. set (u := length fs) in *. rewrite Hlast.
  intros Hr Hb. pose proof (runs_true _ Hr) as Hrun. pose proof kind_sink as Hk. fold u in Hk.
  pose proof (sink_index fs) as Hf. fold u in Hf. pose proof (su_is_sink _ _ _ _ Hsu) as Hsnk.
  pose proof (fi_stage _ _ _ _ _ _ _ _ _ _ _ H (S u) ltac:(lia) Hrun) as Hst. cbn in Hst. rewrite Hf in Hst.
  pose proof (fi_links _ _ _ _ _ _ _ _ _ _ _ H u ltac:(lia)) as HLu.
  assert (Howed : owed (L u) = sink_owed p (st (S u))) by (cbn; rewrite Hk; by destruct snk).
  assert (Hclosed : receiver_closed (L u) = false) by (cbn; rewrite Hk; by destruct snk).
  assert (HQg : Q -> sink_good snk (ideal xs fs u)) by (intros Hq; by destruct (HQ Hq)).
  assert (Hpre : sent (L u) `prefix_of` ideal xs fs u) by (apply (sent_ideal _ _ _ _ _ _ Hsu _ _ _ _ _ H); lia).
  assert (Harr : from_up m = true /\ (exists rest, data (L u) = m :: rest) \/ m = SetUpstream u true /\ _up (st (S u)) = None).
  { destruct (arrival (S u) m rest ltac:(lia) Hb) as [(v & [= <-] & A)|[(? & _)|(v & [= <-] & A)]]; auto. lia. }
  destruct (sink_step p q Hp u snk Hsnk Q (clean xs fs u) (ideal xs fs u) (st (S u)) (L u) Hst Hrun eq_refl Howed Hclosed HLu HQg
    Hpre m Harr) as (b & s' & l & ums & Hreact & [S1 S2 S3 S4] & Hl1 & Hstage & Hb1 & Hb2 & Hb3).
  exists b, s', l. split; rewrite ?Hk, ?Hlast; try done.
  - apply S4; lia.
  - intros j Hj1 Hj2. apply S4; lia.
  - intros v [= <-]. rewrite S1. clear - Hl1 Hsnk. by destruct snk.
  - lia.
  - intros ->. cbn [stage_inv]. rewrite Hf. by apply Hstage.
  - lia.
  - rewrite S3. unfold other_acts. by rewrite decide_True by lia.
  - rewrite S3, Hb1. symmetry. apply sink_acts_stop.
Qed.

Lemma stage_answer i m rest :
  (i <= last self)%nat -> status (bx i) = Running -> batch (bx i) = m :: rest -> exists b s' l, answer i m b s' l.
Proof.
  intros Hi Hr Hb. destruct i as [|u]; [by eapply source_answer|].
  destruct (decide (S u = last self)) as [E|Hne]; [rewrite E in *; by eapply sink_answer|].
  destruct (flow_index _ _ _ _ Hsu u ltac:(lia)) as [f Hf]. by eapply flow_answer.
Qed.

(** ** The stages after an answer *)

Section answered.
Context (i : nat) (m : msg) (rest : list msg) (b : bool) (s' : Stage T) (l : list (action T)).
Context (Hi : (i <= last self)%nat) (Hrun : status (bx i) = Running) (Hb : batch (bx i) = m :: rest).
Context (A : answer i m b s' l).
Abbreviation dms := (told (S i) l).
Abbreviation bx' := (answered i rest b l bx).
Abbreviation st' := (<[i := s']> st).
Abbreviation snt' := (<[i := snt i ++ nexts dms]> snt).
Abbreviation gt' := (<[i := gt i ++ nexts [m]]> gt).

Lemma told_up u : i = S u -> runs (bx u) = true -> Forall (fun m => from_down m = true) (told u l).
Proof.
  intros E Hr. pose proof (link_reqs_class _ _ _ _ _ (an_left _ _ _ _ _ A u E)) as Hc. cbn in Hc.
  unfold to_sender in Hc. cbn in Hc. rewrite Hr in Hc. by apply Forall_app in Hc as [_ ?].
Qed.
Lemma told_down : runs (bx (S i)) = true -> Forall (fun m => from_up m = true) dms.
Proof.
  intros Hr. destruct (decide (i = last self)) as [E|Hne].
  { pose proof (an_beyond _ _ _ _ _ A) as Hn. rewrite <- E in Hn. by rewrite Hn. }
  pose proof (link_data_class _ _ _ _ _ (an_right _ _ _ _ _ A ltac:(lia))) as Hc. cbn in Hc.
  unfold to_receiver in Hc. cbn in Hc. rewrite Hr in Hc. by apply Forall_app in Hc as [_ ?].
Qed.
Lemma other_told j : j <> i -> runs (bx j) = true ->
  ups (told j l) = (if decide (j = S i) then dms else []) /\
  downs (told j l) = (if decide (S j = i) then told j l else []).
Proof.
  intros Hj Hr. destruct (decide (j = S i)) as [->|H1].
  - destruct (ups_only dms (told_down Hr)) as (-> & -> & _). by rewrite decide_False by lia.
  - destruct (decide (S j = i)) as [E|H2].
    + by destruct (downs_only (told j l) (told_up j (eq_sym E) Hr)) as (-> & -> & _).
    + by rewrite (an_only _ _ _ _ _ A) by done.
Qed.
(** A class of messages that stage [j] has not, and is not told, it has not after. *)
Lemma answered_none (class : list msg -> list msg) j :
  (forall k n, class (k ++ n) = class k ++ class n) -> class [] = [] -> class (pend (bx j)) = [] ->
  (j <> i -> runs (bx j) = true -> class (told j l) = []) -> class (pend (bx' j)) = [].
Proof.
  intros Happ Hnil Hj Ht. unfold answered. destruct (decide (j = i)) as [->|Hne].
  - destruct b; [done|]. unfold pend in *. rewrite Hb in Hj. cbn in *.
    change (m :: rest ++ queue (bx i)) with ([m] ++ (rest ++ queue (bx i))) in Hj. rewrite Happ in Hj.
    by apply app_nil in Hj as [_ ?].
  - rewrite grow_pend. case_bool_decide as E; [done|]. rewrite Happ, Hj, Ht; [done|done|].
    unfold runs. apply bool_decide_eq_true. pose proof (fi_failed _ _ _ _ _ _ _ _ _ _ _ H j). by destruct (status (bx j)).
Qed.
Lemma flows_answered : flows_inv st' bx' Q snt' gt'.
Proof.
  pose proof (fi_failed _ _ _ _ _ _ _ _ _ _ _ H) as Hfail.
  assert (Hbox : forall j, j <> i -> bx' j = grow (told j l) (bx j)) by (intros j Hj; unfold answered; by rewrite decide_False).
  assert (Hown : bx' i = if b then stopped_box else after_message rest (bx i)) by (unfold answered; by rewrite decide_True).
  split.
  - intros j Hj. destruct (decide (i = S j)) as [E|H1].
    + erewrite link_left; [|try done..]; [|apply told_up]. rewrite <- E at 1. exact (an_left _ _ _ _ _ A j E).
    + destruct (decide (j = i)) as [->|H2].
      * erewrite link_right; [|try done..]; [|apply told_down]. by apply (an_right _ _ _ _ _ A).
      * erewrite link_other; [by apply (fi_links _ _ _ _ _ _ _ _ _ _ _ H)|try done..];
          [by apply (an_only _ _ _ _ _ A)|apply told_up|apply told_down].
  - intros j Hj Hr. destruct (decide (j = i)) as [->|Hne].
    + rewrite !fn_lookup_insert. apply (an_stage _ _ _ _ _ A). rewrite Hown in Hr. by destruct b.
    + rewrite !fn_lookup_insert_ne by done. apply (fi_stage _ _ _ _ _ _ _ _ _ _ _ H); [done|].
      by rewrite Hbox, grow_runs in Hr.
  - intros j Hj. destruct (decide (j = i)) as [->|Hne].
    + rewrite !fn_lookup_insert. by apply (an_made _ _ _ _ _ A).
    + rewrite !fn_lookup_insert_ne by done. by apply (fi_made _ _ _ _ _ _ _ _ _ _ _ H).
  - intros j. destruct (decide (j = i)) as [->|Hne]; [|by rewrite Hbox, grow_status].
    rewrite Hown. destruct b; [done|]. cbn. by rewrite Hrun.
  - intros j Hr. destruct (decide (j = i)) as [->|Hne].
    + rewrite Hown in *. destruct b; [done|]. unfold runs in Hr. cbn in Hr. by rewrite Hrun in Hr.
    + rewrite Hbox in * by done. rewrite grow_runs in Hr. by rewrite (fi_dead _ _ _ _ _ _ _ _ _ _ _ H j Hr).
  - intros j. pose proof (fi_in_flight _ _ _ _ _ _ _ _ _ _ _ H j) as Hj. destruct (decide (j = i)) as [->|Hne].
    + rewrite Hown. destruct b; cbn; [lia|]. destruct rest; cbn; lia.
    + rewrite Hbox by done. unfold grow. destruct (status (bx j)); exact Hj.
  - intros j Hj. rewrite Hbox by lia. rewrite (fi_beyond _ _ _ _ _ _ _ _ _ _ _ H) by done.
    assert (told j l = []) as ->; [|done]. destruct (decide (j = S (last self))) as [->|]; [apply (an_beyond _ _ _ _ _ A)|].
    apply (an_only _ _ _ _ _ A); lia.
  - apply (answered_none ups 0); [apply ups_app|done|apply (fi_first _ _ _ _ _ _ _ _ _ _ _ H)|].
    intros Hne Hr. destruct (other_told 0 Hne Hr) as [-> _]. by rewrite decide_False by lia.
  - apply (answered_none downs (last self)); [apply downs_app|done|apply (fi_last _ _ _ _ _ _ _ _ _ _ _ H)|].
    intros Hne Hr. destruct (other_told (last self) Hne Hr) as [_ ->]. by rewrite decide_False by lia.
Qed.

Lemma setups_answered j : j <> i -> setups (pend (bx' j)) = setups (pend (bx j)).
Proof.
  intros Hj. eapply (setups_other bx i rest b l dms); try done; [apply (an_only _ _ _ _ _ A)|apply told_up|apply told_down|].
  apply (fi_failed _ _ _ _ _ _ _ _ _ _ _ H).
Qed.
Lemma setups_own : setups (pend (bx' i)) = if b then [] else setups (rest ++ queue (bx i)).
Proof. unfold answered. rewrite decide_True by reflexivity. case b; reflexivity. Qed.
Lemma setups_before : setups (pend (bx i)) = (if is_setup m then [m] else []) ++ setups (rest ++ queue (bx i)).
Proof. unfold pend. rewrite Hb. cbn. case (is_setup m); reflexivity. Qed.

(** There is room for what a stage tells its neighbours. *)
Lemma answer_room j :
  status (bx j) <> Stopped -> Z.of_nat (occupancy (bx j) + length (told j l)) <= capacity self.
Proof.
  intros Hs. pose proof (su_capacity _ _ _ _ Hsu). pose proof (fi_in_flight _ _ _ _ _ _ _ _ _ _ _ H j).
  assert (Hlen : forall j, (length (setups (pend (bx j))) <= 1)%nat).
  { intros k. destruct (Hset k) as [-> | (_ & -> & _)]; cbn; lia. }
  pose proof (occupancy_pend bx j).
  destruct (decide (j <= last self)%nat) as [Hj|Hj].
  - destruct (decide (j = i)) as [->|Hne].
    + rewrite (an_self _ _ _ _ _ A). cbn. pose proof (pend_bound _ _ _ _ _ _ Hp _ _ _ _ _ H ltac:(auto) i Hj). lia.
    + assert (Hset' : forall k, (k <= last self)%nat -> (length (setups (pend (bx' k))) <= 1)%nat).
      { intros k _. destruct (decide (k = i)) as [->|Hk]; [|by rewrite setups_answered].
        rewrite setups_own. specialize (Hlen i). rewrite setups_before, length_app in Hlen. destruct b; cbn; lia. }
      pose proof (pend_bound _ _ _ _ _ _ Hp _ _ _ _ _ flows_answered Hset' j Hj) as Hb2.
      unfold answered in Hb2. rewrite decide_False, grow_pend, bool_decide_false, length_app in Hb2 by done. lia.
  - rewrite (fi_beyond _ _ _ _ _ _ _ _ _ _ _ H) by lia. assert (told j l = []) as ->; [|cbn; lia].
    destruct (decide (j = S (last self))) as [->|]; [apply (an_beyond _ _ _ _ _ A)|].
    apply (an_only _ _ _ _ _ A); lia.
Qed.
End answered.
End answer.

Lemma settles_others l w : settles (T:=T) l w = settles (others l) w.
Proof.
  unfold settles. revert w. induction l as [|a l IH]; intros w; [done|]. cbn. rewrite IH.
  destruct a; cbn; try done. 
Qed.

Lemma link_ext st bx st1 bx1 snt gt i :
  (forall j, st1 j = st j) -> (forall j, bx1 j = bx j) -> link_of p kd st1 bx1 snt gt i = link_of p kd st bx snt gt i.
Proof. intros E1 E2. unfold link_of. by rewrite !E1, !E2. Qed.
Lemma flows_ext (st bx st1 bx1 : _) Q snt gt :
  (forall j, st1 j = st j) -> (forall j, bx1 j = bx j) -> flows_inv st bx Q snt gt -> flows_inv st1 bx1 Q snt gt.
Proof.
  intros E1 E2 []. split; intros; rewrite ?E1, ?E2 in *; auto. rewrite (link_ext st bx) by done. auto.
Qed.

(** One message, handled: the stage and its mailbox, the mailboxes told, the rest of the world. *)
Lemma invoke_answer P Q snt gt i m rest b s' l :
  let bx := boxes (world P) in
  flows_inv (stages P) bx Q snt gt -> (Q -> stream_clean xs fs snk) ->
  (forall i, setups (pend (bx i)) = [] \/
    (1 <= i)%nat /\ setups (pend (bx i)) = [SetUpstream (i - 1) true] /\ _up (stages P i) = None) ->
  (i <= last self)%nat -> status (bx i) = Running -> batch (bx i) = m :: rest ->
  answer (stages P) bx Q snt gt i m b s' l ->
  exists bx', (forall j, bx' j = answered i rest b l bx j) /\
    invoke self i m rest P =
      mkPipe (<[i := s']> (stages P)) (set_boxes bx' (settles (others l) (world P))) (unstarted P) (starting P)
        (wiring P) (notified P).
Proof.
  intros bx H HQ Hset Hi Hrun Hb A.
  destruct (plays_ok (capacity self) l (world P)) as (w' & Hpl & Hbx & Hw).
  { intros j Hj. by apply (answer_room (stages P) bx Q snt gt H Hset i m rest b s' l). }
  pose proof (receive_plays _ _ _ _ _ _ _ _ _ _ (an_react _ _ _ _ _ _ _ _ _ _ A) Hpl) as Hrec.
  unfold invoke, bounded_env. rewrite Hrec. clear Hrec.
  assert (Hi' : boxes w' i = bx i) by (rewrite Hbx, (an_self _ _ _ _ _ _ _ _ _ _ A); apply grow_nil).
  exists (boxes (set_box i (if b then stopped_box else after_message rest (bx i)) w')). split.
  - intros j. cbn. unfold answered. destruct (decide (j = i)) as [->|Hne]; [by rewrite fn_lookup_insert|].
    rewrite fn_lookup_insert_ne by done. apply Hbx.
  - rewrite <- settles_others, Hi'. destruct b; rewrite Hw; done.
Qed.
End step.
