(* ===== verification/StreamKeep.v ===== *)
(** Every step of a running stream keeps its invariant. *)

From stdpp Require Import base list numbers gmap functions.
From S2P Require Import Prelude Effects Streams StreamGraph StreamLink StreamReact StreamStage StreamFlow StreamEnds StreamInv StreamRun StreamStep.

(** * The graph and the futures after an answer *)

Section settled.
Context {T : Type}.
Abbreviation msg := (StageBehaviorCommand T).

(** The world [w'] after stage [i] did what it does besides telling, and perhaps stopped. *)
Record settled (i : nat) (b : bool) (w w' : World T) : Prop := {
  se_stops : stops w' = stops w;
  se_refs : _refs (graph w') = _refs (graph w);
  se_expected : forall j, j ∈ _expected_stops (graph w') <-> (b = true /\ j = i) \/ j ∈ _expected_stops (graph w);
  se_state : _state (graph w') = _state (graph w) \/ _state (graph w) = PENDING /\ _state (graph w') = READY }.

(** What a sink makes of the future, and the calls of its function. *)
Definition sink_future (k : kind T) (m : msg) (g : list T) (f : Fut (list T)) : Fut (list T) :=
  match k, m with
  | SinkForEach false _, _ => f
  | SinkForEach _ func, OnNext x => match func x with Ok _ => f | Err e => _try_set_exception f e end
  | _, OnComplete => _try_set_result f (sink_result k g)
  | _, OnError e => _try_set_exception f e
  | _, _ => f
  end.
Definition sink_calls (k : kind T) (m : msg) : list T :=
  match k with SinkForEach _ _ => nexts [m] | _ => [] end.

Lemma sink_future_result k m g f v :
  sink_future k m g f = FResult v -> f = FResult v \/ m = OnComplete /\ v = sink_result k g.
Proof.
  unfold sink_future, _try_set_result, _try_set_exception. intros H.
  repeat (case_match; simplify_eq; auto).
Qed.
Lemma sink_future_idle i k m g f : ExpectStop i ∉ sink_acts i k m g -> sink_future k m g f = f.
Proof.
  unfold sink_future, sink_acts, settles_with. intros H.
  repeat (case_match; simplify_eq; try done); exfalso; apply H; set_solver.
Qed.

Lemma acknowledge_settled i w : settled i false w (acknowledge w).
Proof.
  unfold acknowledge. destruct (_state (graph w)) eqn:E, (_remaining (graph w)) as [r|]; try (split; [done|done|naive_solver|by left]).
  destruct (r - 1 =? 0) eqn:Er; split; cbn; auto; naive_solver.
Qed.
Lemma expect_stop_settled i w : settled i true w (expect_stop i w).
Proof. split; cbn; auto. intros j. set_solver. Qed.

Lemma sink_settled i k m g b w :
  is_sink k -> (b = true <-> ExpectStop i ∈ sink_acts i k m g) ->
  let w' := settles (sink_acts i k m g) w in
  settled i b w w' /\ _ready w' = _ready w /\ calls w' = calls w ++ sink_calls k m /\
  _materialized w' = sink_future k m g <$> _materialized w.
Proof.
  intros Hk Hb w'.
  assert (Hcase : (exists w1, w' = expect_stop i w1 /\ graph w1 = graph w /\ stops w1 = stops w /\ _ready w1 = _ready w /\
      calls w1 = calls w ++ sink_calls k m /\ _materialized w1 = sink_future k m g <$> _materialized w /\ b = true) \/
    (graph w' = graph w /\ stops w' = stops w /\ _ready w' = _ready w /\
      calls w' = calls w ++ sink_calls k m /\ _materialized w' = sink_future k m g <$> _materialized w /\ b = false)).
  { subst w'. unfold sink_acts, settles_with, sink_future, sink_calls in *.
    destruct m, k as [| |[] func|]; try done;
      repeat match goal with |- context [func ?x] => destruct (func x) end; cbn in *;
      first [left; eexists; split; [reflexivity|]; destruct w as [? ? ? [[]|]]; cbn; rewrite ?app_nil_r;
               split_and!; try done; apply Hb; set_solver
            |right; destruct w as [? ? ? [[]|]]; cbn; rewrite ?app_nil_r; split_and!; try done;
               (destruct b; [exfalso; pose proof (proj1 Hb eq_refl); set_solver|done])]. }
  destruct Hcase as [(w1 & -> & Hg & Hs & Hr & Hc & Hm & ->)|(Hg & Hs & Hr & Hc & Hm & ->)].
  - split_and!; [|done..]. destruct (expect_stop_settled i w1). split; by rewrite <- ?Hg, <- ?Hs.
  - split_and!; [|done..]. split; rewrite ?Hg; try done; [naive_solver|by left].
Qed.
End settled.

Section keep.
Context {T : Type} (self : StreamSetup T) (xs : list (result T)) (fs : list (T -> result (option T))) (snk : kind T).
Context (p q : Z) (Hp : 0 < p <= q) (Hsu : setup_ok self fs snk p).
Abbreviation msg := (StageBehaviorCommand T).
Abbreviation kd := (kinds self).
Abbreviation flows_inv := (flows_inv self xs fs snk p q).
Abbreviation graph_inv := (graph_inv self xs fs snk).
Abbreviation wiring_inv := (wiring_inv self).
Abbreviation pipe_inv := (pipe_inv self xs fs snk p q).
Abbreviation Quiet := (Quiet xs fs snk).

Section invoke.
Context (P : Pipe T) (snt gt : nat -> list T) (HP : pipe_inv P snt gt).
Abbreviation bx := (boxes (world P)).

Lemma setups_cases i :
  setups (pend (bx i)) = [] \/
  (1 <= i)%nat /\ setups (pend (bx i)) = [SetUpstream (i - 1) true] /\ _up (stages P i) = None.
Proof.
  destruct HP as [HF HW _]. destruct (decide (i = 0%nat)) as [->|H0]; [left; apply (wi_zero _ _ HW)|].
  destruct (decide (i <= last self)%nat) as [Hi|Hi]; [|left; by rewrite (fi_beyond _ _ _ _ _ _ _ _ _ _ _ HF) by lia].
  destruct (runs (bx i)) eqn:Hr; [|left; by rewrite (fi_dead _ _ _ _ _ _ _ _ _ _ _ HF i Hr)].
  destruct (decide (0 < starting P \/ i ∈ wiring P)) as [Hb|Hb]; [left; by apply (wi_before _ _ HW); [lia|]|].
  pose proof (wi_size _ _ HW). destruct (wi_after _ _ HW i) as [[? ?]|[? _]]; [lia|lia|tauto|done| |by left].
  right. split; [lia|done].
Qed.

Context (i : nat) (m : msg) (rest : list msg) (b : bool) (s' : Stage T) (l : list (action T)).
Context (Hi : (i <= last self)%nat) (Hrun : status (bx i) = Running) (Hb : batch (bx i) = m :: rest).
Context (A : answer self xs fs snk p q (stages P) bx (Quiet (world P)) snt gt i m b s' l).
Abbreviation gt' := (<[i := gt i ++ nexts [m]]> gt).
Abbreviation bx' := (answered i rest b l bx).

Lemma running_stage : stage_inv xs fs snk p q i (stages P i) (gt i) (snt i).
Proof. apply (fi_stage _ _ _ _ _ _ _ _ _ _ _ (pi_flows _ _ _ _ _ _ _ _ _ HP)); [done|]. unfold runs. by apply bool_decide_eq_true. Qed.
Lemma running_sink : i = last self -> sink_good snk (gt i).
Proof.
  intros E. pose proof running_stage as Hs. pose proof (su_last _ _ _ _ Hsu) as Hl. rewrite <- E in Hl.
  rewrite Hl in Hs |- *. cbn [stage_inv] in Hs. rewrite sink_index in Hs. exact (ko_good _ _ _ _ _ _ Hs).
Qed.
Lemma running_common : _terminated (stages P i) = false.
Proof.
  pose proof running_stage as Hs. unfold stage_inv in Hs. destruct i as [|u]; [by destruct Hs as [[]]|].
  by destruct (fs !! u); destruct Hs as [[]].
Qed.
Lemma kind_not_source : (1 <= i)%nat -> kd i <> SourceFromIterable.
Proof.
  intros H1. destruct i as [|u]; [lia|]. destruct (decide (S u = last self)) as [E|Hne].
  - rewrite E, (su_sink _ _ _ _ Hsu). pose proof (su_is_sink _ _ _ _ Hsu) as Hk. by intros ->.
  - destruct (flow_index _ _ _ _ Hsu u ltac:(lia)) as [f Hf]. by rewrite (su_flows _ _ _ _ Hsu _ _ Hf).
Qed.
Lemma own_up : (1 <= i)%nat -> _up s' = match m with SetUpstream u _ => Some u | _ => _up (stages P i) end.
Proof.
  intros H1. pose proof (react_up _ _ _ _ _ _ _ (an_react _ _ _ _ _ _ _ _ _ _ _ _ _ _ _ _ A) running_common) as E.
  pose proof (kind_not_source H1). rewrite E. by destruct (kd i), m.
Qed.

Lemma wiring_answered w' :
  (forall j, boxes w' j = bx' j) ->
  wiring_inv (mkPipe (<[i := s']> (stages P)) w' (unstarted P) (starting P) (wiring P) (notified P)).
Proof.
  intros Hbx. destruct HP as [HF HW HG].
  assert (Hother : forall j, j <> i -> setups (pend (boxes w' j)) = setups (pend (bx j))).
  { intros j Hj. rewrite Hbx. by apply (setups_answered self xs fs snk p q _ _ _ _ _ HF i m rest b s' l Hi A j). }
  assert (Hown : setups (pend (boxes w' i)) = if b then [] else setups (rest ++ queue (bx i))) by (rewrite Hbx; apply setups_own).
  pose proof (setups_before bx i m rest Hb) as Hbefore.
  assert (Hruns : forall j, j <> i -> runs (boxes w' j) = runs (bx j)).
  { intros j Hj. rewrite Hbx. unfold answered. by rewrite decide_False, grow_runs. }
  destruct HW as [Hz Hbef Haft Hsize Hstart Hnd Hrange]. split; cbn; try done.
  - destruct (decide (i = 0%nat)) as [E|Hne]; [|by rewrite Hother].
    rewrite E in *. rewrite Hz in Hbefore. rewrite Hown. destruct b; [done|]. symmetry in Hbefore. by apply app_nil in Hbefore as [_ ?].
  - intros j Hj Hw. destruct (Hbef j Hj Hw) as [H1 H2]. destruct (decide (j = i)) as [->|Hne].
    + rewrite H1 in Hbefore. symmetry in Hbefore. apply app_nil in Hbefore as [Hm Hr].
      rewrite Hown, Hr, fn_lookup_insert, own_up by lia. split; [by destruct b|]. by destruct m.
    + by rewrite Hother, fn_lookup_insert_ne by done.
  - intros j Hj Hs Hw Hr. destruct (decide (j = i)) as [->|Hne].
    + assert (Hbf : b = false).
      { rewrite Hbx in Hr. unfold answered in Hr. rewrite decide_True in Hr by done. by destruct b. }
      rewrite Hown, Hbf, fn_lookup_insert, own_up by lia.
      destruct (Haft i Hj Hs Hw) as [[H1 H2]|[H1 H2]]; [unfold runs; by apply bool_decide_eq_true| |].
      * rewrite H1 in Hbefore. destruct m; cbn in Hbefore; auto. injection Hbefore as _ _ Hn. right. by rewrite <- Hn.
      * rewrite H1 in Hbefore. symmetry in Hbefore. apply app_nil in Hbefore as [Hm Hr1]. rewrite Hr1. right.
        split; [done|]. by destruct m.
    + rewrite Hother, fn_lookup_insert_ne by done. apply Haft; try done. by rewrite <- Hruns.
Qed.

(** Before the wiring nobody subscribes. *)
Lemma no_subscription d w : 0 < starting P -> m <> Subscribe d w.
Proof.
  intros Hst Hm. destruct HP as [HF HW _].
  destruct (arrival self xs fs snk p q _ _ _ _ _ HF setups_cases i m rest Hi Hb) as [(u & _ & Hf & _)|[(Hl & _ & r & Hreq)|(u & _ & ? & _)]];
    [by rewrite Hm in Hf| |congruence].
  rewrite Hm in Hreq. pose proof (fi_links _ _ _ _ _ _ _ _ _ _ _ HF i Hl) as HL.
  destruct (subscribed_by_ok _ _ _ _ _ _ _ _ HL Hreq) as (_ & _ & _ & _ & Hw).
  { unfold runs. cbn. unfold runs. by apply bool_decide_eq_true. }
  destruct (wi_before _ _ HW (S i) ltac:(lia) (or_introl Hst)) as [_ Hu]. cbn in Hw. by rewrite Hu in Hw.
Qed.

Abbreviation w1 := (settles (others l) (world P)).
Lemma answer_settled : settled i b (world P) w1.
Proof.
  rewrite (an_others _ _ _ _ _ _ _ _ _ _ _ _ _ _ _ _ A). pose proof (an_stops _ _ _ _ _ _ _ _ _ _ _ _ _ _ _ _ A) as Hs.
  rewrite (an_others _ _ _ _ _ _ _ _ _ _ _ _ _ _ _ _ A) in Hs. unfold other_acts in *.
  destruct (decide (i = last self)) as [E|Hne].
  - apply (sink_settled i snk m (gt i) b); [apply (su_is_sink _ _ _ _ Hsu)|done].
  - destruct b; [apply expect_stop_settled|]. destruct m; try apply acknowledge_settled; split; cbn; try done; naive_solver.
Qed.
Lemma answer_sink :
  i = last self -> calls w1 = calls (world P) ++ sink_calls snk m /\
    _materialized w1 = sink_future snk m (gt i) <$> _materialized (world P).
Proof.
  intros E. pose proof (an_stops _ _ _ _ _ _ _ _ _ _ _ _ _ _ _ _ A) as Hs.
  rewrite (an_others _ _ _ _ _ _ _ _ _ _ _ _ _ _ _ _ A) in *. unfold other_acts in *. rewrite decide_True in * by done.
  pose proof (sink_settled i snk m (gt i) b (world P) (su_is_sink _ _ _ _ Hsu) Hs) as Hset. cbn in Hset.
  by destruct Hset as (_ & _ & ? & ?).
Qed.
Lemma answer_inner : i <> last self -> calls w1 = calls (world P) /\ _materialized w1 = _materialized (world P).
Proof.
  intros E. rewrite (an_others _ _ _ _ _ _ _ _ _ _ _ _ _ _ _ _ A). unfold other_acts. rewrite decide_False by done.
  destruct b; [done|]. destruct m; try done. cbn. unfold acknowledge. by repeat case_match.
Qed.
Lemma answer_ready : 0 < starting P -> _ready w1 = _ready (world P).
Proof.
  intros Hst. pose proof (fun d w => no_subscription d w Hst) as Hm. pose proof (an_stops _ _ _ _ _ _ _ _ _ _ _ _ _ _ _ _ A) as Hs.
  rewrite (an_others _ _ _ _ _ _ _ _ _ _ _ _ _ _ _ _ A) in *. unfold other_acts in *.
  destruct (decide (i = last self)) as [E|Hne].
  - pose proof (sink_settled i snk m (gt i) b (world P) (su_is_sink _ _ _ _ Hsu) Hs) as Hset. by apply Hset.
  - destruct b; [done|]. destruct m as [d w| | | | | |]; try done. by destruct (Hm d w).
Qed.

Lemma graph_answered bxs :
  (forall j, bxs j = bx' j) ->
  graph_inv (mkPipe (<[i := s']> (stages P)) (set_boxes bxs w1) (unstarted P) (starting P) (wiring P) (notified P)) gt'.
Proof.
  intros Hbx. destruct answer_settled as [Es Er Ee Est]. pose proof answer_sink as Hsink. pose proof answer_inner as Hinner.
  pose proof answer_ready as Hready.
  pose proof (an_final _ _ _ _ _ _ _ _ _ _ _ _ _ _ _ _ A) as Hfinal.
  pose proof (an_quiet _ _ _ _ _ _ _ _ _ _ _ _ _ _ _ _ A) as Hquiet.
  assert (Hstop : i = last self -> b = true <-> ExpectStop i ∈ sink_acts i snk m (gt i)).
  { intros E. rewrite (an_stops _ _ _ _ _ _ _ _ _ _ _ _ _ _ _ _ A), (an_others _ _ _ _ _ _ _ _ _ _ _ _ _ _ _ _ A).
    unfold other_acts. by rewrite decide_True. }
  assert (HQ : Quiet (set_boxes bxs w1) <-> Quiet (world P)) by (unfold StreamRun.Quiet; cbn; by rewrite Es).
  assert (Hmine : runs (bxs i) = negb b).
  { rewrite Hbx. unfold answered. rewrite decide_True by done. unfold runs. destruct b; cbn; [done|]. by rewrite Hrun. }
  assert (Hruns : forall j, j <> i -> runs (bxs j) = runs (bx j)).
  { intros j Hj. rewrite Hbx. unfold answered. by rewrite decide_False, grow_runs. }
  assert (Hdead : forall j, runs (bx j) = false -> runs (bxs j) = false /\ j <> i).
  { intros j Hj. assert (j <> i) by (intros ->; unfold runs in Hj; by rewrite Hrun in Hj). by rewrite Hruns. }
  destruct HP as [HF HW HG]. destruct HG as [Grefs Gstops Gcalls Gresult Gexp Gnot Gdead Gstate Gready Gfut Gfinal Gcomp].
  assert (Hgl : i <> last self -> gt' (last self) = gt (last self)) by (intros; by rewrite fn_lookup_insert_ne).
  split; cbn [world stages set_boxes boxes graph calls stops _materialized _ready starting unstarted notified].
  - by rewrite Er.
  - by rewrite Es.
  - destruct (decide (i = last self)) as [E|Hne].
    + destruct (Hsink E) as [-> _]. destruct snk; try done. by rewrite Gcalls, <- E, fn_lookup_insert.
    + destruct (Hinner Hne) as [-> _]. by rewrite Hgl.
  - intros v Hv. destruct (decide (i = last self)) as [E|Hne].
    + destruct (Hsink E) as [_ Em]. rewrite Em in Hv. destruct (_materialized (world P)) as [f|]; [|done]. injection Hv as Hv.
      apply sink_future_result in Hv as [-> |[-> ->]].
      { destruct (Gresult v eq_refl) as [Hd _]. rewrite <- E in Hd. by destruct (Hdead _ Hd). }
      destruct (Hfinal E eq_refl) as [-> Hfin]. pose proof (running_sink E).
      rewrite <- E, fn_lookup_insert, Hmine, app_nil_r. done.
    + destruct (Hinner Hne) as [_ Em]. rewrite Em in Hv. destruct (Gresult v Hv) as (H1 & H2 & H3).
      rewrite Hgl by done. destruct (Hdead _ H1). done.
  - intros j [[Hbt ->]|Hj]%Ee; [split; [done|]; by rewrite Hmine, Hbt|].
    destruct (Gexp j Hj) as [? ?%Hdead]. tauto.
  - intros j Hj. destruct (Gnot j Hj) as [? ?%Hdead]. tauto.
  - intros Hq%HQ j Hj. apply Ee. destruct (decide (j = i)) as [->|Hne]; [left; rewrite Hmine in Hj; by destruct b|right].
    apply Gdead; [done|]. by rewrite <- Hruns.
  - intros Hq%HQ. destruct (Gstate Hq). destruct Est as [->|[_ ->]]; done.
  - intros Hq%HQ Hst. rewrite Hready by done. auto.
  - intros Hq%HQ Hf. destruct (decide (i = last self)) as [E|Hne].
    + destruct (Hsink E) as [_ ->]. rewrite (Gfut Hq Hf), <- E, fn_lookup_insert, Hmine.
      rewrite (bool_decide_eq_true_2 _ Hrun : runs (bx i) = true). cbn. destruct b.
      * rewrite (Hquiet E eq_refl Hq). cbn. rewrite app_nil_r. destruct snk as [| |[]|]; done.
      * f_equal. apply (sink_future_idle i). intros Hin. by apply (Hstop E) in Hin.
    + destruct (Hinner Hne) as [_ ->]. rewrite Hgl, Hruns by done. auto.
  - intros Hq%HQ Hd. destruct (decide (i = last self)) as [E|Hne].
    + rewrite <- E, Hmine in Hd. destruct b; [|done]. rewrite <- E, fn_lookup_insert.
      pose proof (Hquiet E eq_refl Hq) as Hm. destruct (Hfinal E Hm) as [_ Hfin]. rewrite Hm. cbn. by rewrite app_nil_r.
    + rewrite Hgl by done. rewrite Hruns in Hd by done. auto.
  - intros Hq%HQ Hall. specialize (Gcomp Hq Hall). destruct Est as [->|[? ?]]; [done|congruence].
Qed.
End invoke.

Lemma pipe_pend P snt gt i :
  pipe_inv P snt gt -> (i <= last self)%nat -> Z.of_nat (length (pend (boxes (world P) i))) <= 2 * p + 4.
Proof.
  intros HP. apply (pend_bound _ _ _ _ _ _ Hp _ _ _ _ _ (pi_flows _ _ _ _ _ _ _ _ _ HP)). intros j _.
  destruct (setups_cases P snt gt HP j) as [-> |(_ & -> & _)]; cbn; lia.
Qed.

(** A message handled: its answer, the pipeline it leaves, and the invariant. *)
Lemma keep_invoke P snt gt i m rest :
  pipe_inv P snt gt -> status (boxes (world P) i) = Running -> batch (boxes (world P) i) = m :: rest ->
  exists b s' l bxs,
    (i <= last self)%nat /\ answer self xs fs snk p q (stages P) (boxes (world P)) (Quiet (world P)) snt gt i m b s' l /\
    ((forall j, bxs j = answered i rest b l (boxes (world P)) j) /\
     invoke self i m rest P =
      mkPipe (<[i := s']> (stages P)) (set_boxes bxs (settles (others l) (world P))) (unstarted P) (starting P) (wiring P) (notified P)) /\
    pipe_inv (invoke self i m rest P) (<[i := snt i ++ nexts (told (S i) l)]> snt) (<[i := gt i ++ nexts [m]]> gt).
Proof.
  intros HP Hrun Hb. pose proof (pi_flows _ _ _ _ _ _ _ _ _ HP) as HF.
  assert (Hi : (i <= last self)%nat).
  { destruct (decide (i <= last self)%nat); [done|]. by rewrite (fi_beyond _ _ _ _ _ _ _ _ _ _ _ HF) in Hb by lia. }
  pose proof (setups_cases P snt gt HP) as Hset.
  destruct (stage_answer self xs fs snk p q Hp Hsu _ _ _ _ _ HF (fun Hq => proj1 Hq) Hset i m rest Hi Hrun Hb) as (b & s' & l & A).
  destruct (invoke_answer self xs fs snk p q Hp Hsu P _ _ _ i m rest b s' l HF (fun Hq => proj1 Hq) Hset Hi Hrun Hb A) as (bxs & Hbx & Hinv).
  exists b, s', l, bxs. split_and!; [done..|]. rewrite Hinv. split; cbn [world stages boxes set_boxes].
  - apply (flows_ext self xs fs snk p q _ _ _ _ _ _ _ (fun _ => eq_refl) Hbx).
    replace (StreamRun.Quiet xs fs snk (set_boxes bxs (settles (others l) (world P)))) with (Quiet (world P)).
    + by apply (flows_answered self xs fs snk p q).
    + unfold StreamRun.Quiet. cbn. by rewrite (se_stops _ _ _ _ (answer_settled P snt gt i m rest b s' l Hb A)).
  - by apply (wiring_answered P snt gt HP i m rest b s' l).
  - by apply (graph_answered P snt gt HP i m rest b s' l).
Qed.
End keep.
