(* ===== verification/StreamReach.v ===== *)
(** Every state a stream reaches satisfies its invariant. *)

From stdpp Require Import base list numbers gmap functions.
From S2P Require Import Prelude Effects Streams StreamGraph StreamLink StreamReact StreamStage StreamFlow StreamEnds StreamInv StreamRun StreamStep StreamKeep.

(** The run ends early: every stage is sent [Stop], and a future that has a result keeps it. *)
Section ended.
Context {T : Type}.

Record ended (w w' : World T) : Prop := {
  en_boxes : boxes w' = boxes w;
  en_refs : _refs (graph w') = _refs (graph w);
  en_expected : _expected_stops (graph w') = _expected_stops (graph w);
  en_calls : calls w' = calls w;
  en_stops : stops w' = list_to_set (_refs (graph w)) ∪ stops w;
  en_result : forall v, _materialized w' = Some (FResult v) -> _materialized w = Some (FResult v) }.

Lemma reverse_stops (l : list nat) (X : gset nat) : list_to_set (reverse l) ∪ X = list_to_set l ∪ X.
Proof. apply set_eq. intros x. by rewrite !elem_of_union, !elem_of_list_to_set, elem_of_reverse. Qed.
Lemma fail_ended e (w : World T) : over (_state (graph w)) = false -> ended w (fail_ e w).
Proof.
  intros E. unfold fail_. rewrite E. destruct w as [bx g r m st c]. cbn in *.
  case_bool_decide; split; try done; try apply reverse_stops; by destruct m as [[]|].
Qed.
Lemma cancel_ended (w : World T) : over (_state (graph w)) = false -> ended w (cancel w).
Proof.
  intros E. unfold cancel, cancel_body. rewrite E. destruct w as [bx g r m st c]. cbn in *.
  destruct r, m as [[]|]; split; try done; apply reverse_stops.
Qed.
End ended.

Section reach.
Context {T : Type} (self : StreamSetup T) (xs : list (result T)) (fs : list (T -> result (option T))) (snk : kind T).
Context (p q : Z) (Hp : 0 < p <= q) (Hsu : setup_ok self fs snk p).
Abbreviation msg := (StageBehaviorCommand T).
Abbreviation kd := (kinds self).
Abbreviation flows_inv := (flows_inv self xs fs snk p q).
Abbreviation graph_inv := (graph_inv self xs fs snk).
Abbreviation wiring_inv := (wiring_inv self).
Abbreviation pipe_inv := (pipe_inv self xs fs snk p q).
Abbreviation Quiet := (Quiet xs fs snk).

Lemma flows_weaken st bx (Q Q' : Prop) snt gt : (Q' -> Q) -> flows_inv st bx Q snt gt -> flows_inv st bx Q' snt gt.
Proof. intros HQ []. split; eauto using link_weaken. Qed.

(** Once someone asked for a stop, only what was promised without reserve is to be kept. *)
Lemma keep_ended P w' snt gt nt :
  pipe_inv P snt gt -> ended (world P) w' -> (forall i, i ∈ nt -> i ∈ notified P \/ (i <= last self)%nat /\ runs (boxes (world P) i) = false) ->
  pipe_inv (mkPipe (stages P) w' (unstarted P) (starting P) (wiring P) nt) snt gt.
Proof.
  intros [HF HW HG] [Eb Er Ee Ec Es Em] Hnt. destruct HG as [Grefs Gstops Gcalls Gresult Gexp Gnot Gdead Gstate Gready Gfut Gfinal Gcomp].
  assert (HnQ : ~ Quiet w').
  { intros [_ H]. rewrite Es, Grefs in H. cbn in H. set_solver. }
  split.
  - cbn. rewrite Eb. by apply (flows_weaken _ _ (Quiet (world P))).
  - destruct HW. split; cbn; rewrite ?Eb; auto.
  - split; cbn [world notified starting unstarted]; rewrite ?Eb, ?Er, ?Ee, ?Ec, ?Es; try done; try (intros Hq; by destruct (HnQ Hq)).
    + intros i [Hi|Hi]%elem_of_union; [|auto]. rewrite Grefs in Hi. apply elem_of_list_to_set, elem_of_seq in Hi. lia.
    + auto.
    + intros i [Hi|Hi]%Hnt; auto.
Qed.

Lemma keep_cancel P snt gt : pipe_inv P snt gt -> pipe_inv (set_world (cancel (world P)) P) snt gt.
Proof.
  intros HP. destruct (over (_state (graph (world P)))) eqn:E.
  - unfold cancel, cancel_body, set_world. rewrite E. by destruct P.
  - apply (keep_ended P); [done|by apply cancel_ended|auto].
Qed.

Lemma expected_size g : (forall i, i ∈ g <-> (i <= last self)%nat) -> size (g : gset nat) = S (last self).
Proof.
  intros H. assert (g = list_to_set (seq 0 (S (last self)))) as ->.
  { apply leibniz_equiv. intros i. rewrite elem_of_list_to_set, elem_of_seq, H. lia. }
  rewrite size_list_to_set by apply NoDup_seq. apply length_seq.
Qed.

Lemma keep_notify P snt gt i :
  pipe_inv P snt gt -> status (boxes (world P) i) = Stopped ->
  pipe_inv (mkPipe (stages P) (stage_stopped i (world P)) (unstarted P) (starting P) (wiring P) ({[i]} ∪ notified P)) snt gt.
Proof.
  intros HP Hstop. assert (Hd : runs (boxes (world P) i) = false) by (unfold runs; by rewrite Hstop).
  pose proof HP as [HF HW HG]. destruct HG as [Grefs Gstops Gcalls Gresult Gexp Gnot Gdead Gstate Gready Gfut Gfinal Gcomp].
  assert (Hi : (i <= last self)%nat).
  { destruct (decide (i <= last self)%nat); [done|]. by rewrite (fi_beyond _ _ _ _ _ _ _ _ _ _ _ HF) in Hd by lia. }
  assert (Hnew : forall j, j ∈ {[i]} ∪ notified P -> (j <= last self)%nat /\ runs (boxes (world P) j) = false).
  { intros j [->%elem_of_singleton|Hj]%elem_of_union; auto. }
  assert (Hall : Quiet (world P) -> (forall j, (j <= last self)%nat -> j ∈ {[i]} ∪ notified P) ->
    size (_expected_stops (graph (world P))) = length (_refs (graph (world P)))).
  { intros Hq Hj. rewrite Grefs, length_seq. apply expected_size. intros j. split; [intros ?%Gexp; tauto|].
    intros Hle. apply Gdead; [done|]. by apply Hnew, Hj. }
  unfold stage_stopped. case_bool_decide as He.
  - destruct (Nat.eqb_spec (size (_expected_stops (graph (world P)))) (length (_refs (graph (world P))))) as [Hs|Hs].
    + split; [done|by destruct HW|]. split; cbn [world notified starting unstarted set_graph graph set_state _refs _expected_stops
        _state boxes stops calls _materialized _ready]; auto.
    + split; [done|by destruct HW|]. split; cbn [world notified starting unstarted]; auto.
      intros Hq Hj. by destruct Hs; auto.
  - destruct (over (_state (graph (world P)))) eqn:Eo.
    + split; [done|by destruct HW|]. split; cbn [world notified starting unstarted]; auto.
      intros Hq _. by destruct He; auto.
    + apply keep_ended; [done|by apply fail_ended|]. intros j [->%elem_of_singleton|Hj]%elem_of_union; auto.
Qed.

Lemma keep_started P snt gt i : pipe_inv P snt gt -> i ∈ unstarted P -> pipe_inv (stage_started self i P) snt gt.
Proof.
  intros [HF HW HG] Hi. destruct HW as [Hz Hbef Haft Hsize Hstart Hnd Hrange].
  assert (Hsz : size (unstarted P) = S (size (unstarted P ∖ {[i]}))).
  { rewrite (union_difference_L {[i]} (unstarted P)) at 1 by set_solver. rewrite size_union by set_solver.
    by rewrite size_singleton. }
  assert (Hpos : 0 < starting P) by lia. pose proof (Hstart Hpos) as Hw.
  destruct HG as [Grefs Gstops Gcalls Gresult Gexp Gnot Gdead Gstate Gready Gfut Gfinal Gcomp].
  unfold stage_started. destruct (fut_done (_ready (world P))) eqn:Ef.
  - split; [done| |].
    + split; cbn; auto. lia.
    + split; cbn [world notified starting unstarted]; auto. intros Hq _. destruct (Gready Hq Hpos) as [E _]. by rewrite E in Ef.
  - split; [done| |].
    + split; cbn [world wiring starting unstarted stages]; try done.
      * intros j Hj _. apply Hbef; auto.
      * intros j Hj Hs. rewrite Hs. cbn. rewrite elem_of_seq. lia.
      * lia.
      * intros Hs. destruct (Z.eqb_spec (starting P - 1) 0); [lia|done].
      * destruct (starting P - 1 =? 0); [apply NoDup_seq|done].
      * intros j. destruct (starting P - 1 =? 0); [rewrite elem_of_seq; lia|auto].
    + split; cbn [world notified starting unstarted]; auto. intros Hq Hs. destruct (Gready Hq Hpos) as [E1 E2]. split; [done|lia].
Qed.

(** A mailbox that only moved messages into a batch, or took some that belong to no link. *)
Lemma flows_boxes st bx bx1 Q snt gt :
  flows_inv st bx Q snt gt ->
  (forall j, status (bx1 j) = status (bx j)) -> (forall j, ups (pend (bx1 j)) = ups (pend (bx j))) ->
  (forall j, downs (pend (bx1 j)) = downs (pend (bx j))) ->
  (forall j, Z.of_nat (in_flight_messages (bx1 j)) <= 2 * p + 4) ->
  (forall j, (last self < j)%nat \/ runs (bx j) = false -> bx1 j = bx j) -> flows_inv st bx1 Q snt gt.
Proof.
  intros [Flinks Fstage Fmade Ffail Fdead Ffl Fbey Ffst Flst] Hst Hups Hdowns Hfl Hsame.
  assert (Hruns : forall j, runs (bx1 j) = runs (bx j)) by (intros j; unfold runs; by rewrite Hst).
  split; try done.
  - intros j Hj. unfold link_of. rewrite !Hruns, Hups, Hdowns. by apply Flinks.
  - intros j Hj. rewrite Hruns. auto.
  - intros j. by rewrite Hst.
  - intros j Hj. rewrite Hruns in Hj. rewrite Hsame by auto. auto.
  - intros j Hj. rewrite Hsame by auto. auto.
  - by rewrite Hups.
  - by rewrite Hdowns.
Qed.
Lemma graph_boxes P gt bx1 (un : gset nat) st wi :
  (forall j, runs (bx1 j) = runs (boxes (world P) j)) -> graph_inv P gt ->
  un = unstarted P -> st = starting P ->
  graph_inv (mkPipe (stages P) (set_boxes bx1 (world P)) un st wi (notified P)) gt.
Proof.
  intros Hr [Grefs Gstops Gcalls Gresult Gexp Gnot Gdead Gstate Gready Gfut Gfinal Gcomp] -> ->.
  split; cbn [world notified starting unstarted set_boxes graph boxes stops calls _materialized _ready]; intros; rewrite ?Hr in *; eauto.
Qed.
Lemma sent_box i (b : Box T) w j : boxes (set_box i b w) j = if decide (j = i) then b else boxes w j.
Proof. cbn. case_decide as E; [rewrite E; apply fn_lookup_insert|by apply fn_lookup_insert_ne]. Qed.

Lemma keep_take P snt gt i :
  pipe_inv P snt gt -> status (boxes (world P) i) = Running -> batch (boxes (world P) i) = [] ->
  pipe_inv (set_world (set_box i (stage_batch self (boxes (world P) i)) (world P)) P) snt gt.
Proof.
  intros HP Hr Hb. pose proof HP as [HF HW HG]. set (bx1 := boxes (set_box i (stage_batch self (boxes (world P) i)) (world P))).
  assert (Hbx : forall j, bx1 j = if decide (j = i) then stage_batch self (boxes (world P) i) else boxes (world P) j)
    by (intros j; apply sent_box).
  assert (Hpend : forall j, pend (bx1 j) = pend (boxes (world P) j)).
  { intros j. rewrite Hbx. case_decide as E; [|done]. rewrite E. unfold pend, stage_batch. cbn. by rewrite Hb, take_drop. }
  assert (Hst : forall j, status (bx1 j) = status (boxes (world P) j)) by (intros j; rewrite Hbx; case_decide as E; [by rewrite E|done]).
  assert (Hruns : forall j, runs (bx1 j) = runs (boxes (world P) j)) by (intros j; unfold runs; by rewrite Hst).
  split; cbn [world stages set_world].
  - apply (flows_boxes _ _ _ _ _ _ HF Hst); intros j; rewrite ?Hpend; try done.
    + rewrite Hbx. case_decide as E; [|apply (fi_in_flight _ _ _ _ _ _ _ _ _ _ _ HF)].
      cbn. rewrite length_take. destruct (decide (i <= last self)%nat) as [Hi|Hi].
      * pose proof (pipe_pend _ _ _ _ _ _ Hp P snt gt i HP Hi) as Hbd.
        unfold pend in Hbd. rewrite Hb in Hbd. cbn in Hbd. lia.
      * rewrite (fi_beyond _ _ _ _ _ _ _ _ _ _ _ HF i) by lia. cbn. lia.
    + intros [Hj|Hj]; rewrite Hbx; (case_decide as E; [|done]).
      * subst j. rewrite (fi_beyond _ _ _ _ _ _ _ _ _ _ _ HF i) by lia. unfold stage_batch. cbn. by destruct (throughput self).
      * subst j. unfold runs in Hj. by rewrite Hr in Hj.
  - destruct HW as [Hz Hbef Haft Hsize Hstart Hnd Hrange]. split; cbn [world wiring starting unstarted stages set_world]; try done.
    + fold bx1. by rewrite Hpend.
    + intros j. fold bx1. rewrite Hpend. auto.
    + intros j. fold bx1. rewrite Hpend, Hruns. auto.
  - by apply (graph_boxes P gt bx1 _ _ (wiring P) Hruns HG).
Qed.

(** [wire_graph] finds room in the mailbox of the stage it wires. *)
Lemma wire_shape P P' snt gt :
  pipe_inv P snt gt -> wire_next self P = Some P' ->
  exists i rest, wiring P = i :: rest /\ (1 <= i <= last self)%nat /\ starting P = 0 /\
    let bx := boxes (world P) in
    P' = mkPipe (stages P) (set_boxes (<[i := grow [SetUpstream (i - 1) true] (bx i)]> bx) (world P)) (unstarted P) (starting P)
           rest (notified P).
Proof.
  intros HP. pose proof HP as [HF HW HG]. unfold wire_next. destruct (wiring P) as [|i rest] eqn:Ew; [done|].
  destruct HW as [Hz Hbef Haft Hsize Hstart Hnd Hrange].
  assert (Hi : (1 <= i <= last self)%nat) by (apply Hrange; rewrite Ew; by left).
  assert (Hs0 : starting P = 0) by (destruct (decide (0 < starting P)) as [H|H]; [by rewrite (Hstart H) in Ew|lia]).
  destruct (Hbef i Hi ltac:(right; rewrite Ew; by left)) as [Hset Hup].
  set (m := SetUpstream (i - 1) true : msg). set (bx := boxes (world P)) in *.
  assert (Hsend : send (capacity self) m (bx i) = Ok (grow [m] (bx i))).
  { unfold send, grow. pose proof (fi_in_flight _ _ _ _ _ _ _ _ _ _ _ HF i). pose proof (su_capacity _ _ _ _ Hsu).
    pose proof (downs_bound _ _ _ _ _ _ Hp _ _ _ _ _ HF i ltac:(lia)). pose proof (ups_bound _ _ _ _ _ _ Hp _ _ _ _ _ HF i ltac:(lia)).
    pose proof (classes (pend (bx i))) as Hc. rewrite Hset in Hc. cbn in Hc.
    assert (length (queue (bx i)) <= length (pend (bx i)))%nat by (unfold pend; rewrite length_app; lia).
    destruct (status (bx i)); [..|done]; (rewrite (proj2 (Z.leb_gt _ _)) by lia; done). }
  unfold perform, bounded_env. cbn [perform_]. fold bx. rewrite Hsend. intros [= <-]. eauto 10.
Qed.
Lemma keep_wire P P' snt gt : pipe_inv P snt gt -> wire_next self P = Some P' -> pipe_inv P' snt gt.
Proof.
  intros HP Hwire. destruct (wire_shape P P' snt gt HP Hwire) as (i & rest & Ew & Hi & Hs0 & ->).
  pose proof HP as [HF HW HG]. destruct HW as [Hz Hbef Haft Hsize Hstart Hnd Hrange].
  destruct (Hbef i Hi ltac:(right; rewrite Ew; by left)) as [Hset Hup].
  rewrite Ew in Hnd. inversion Hnd as [|? ? Hnin Hnd']; subst.
  set (m := SetUpstream (i - 1) true : msg). set (bx := boxes (world P)) in *.
  set (bx1 := <[i := grow [m] (bx i)]> bx).
  assert (Hbx : forall j, bx1 j = if decide (j = i) then grow [m] (bx i) else bx j)
    by (intros j; apply (sent_box i _ (world P))).
  assert (Hst : forall j, status (bx1 j) = status (bx j)).
  { intros j. rewrite Hbx. case_decide as E; [rewrite E; apply grow_status|done]. }
  assert (Hruns : forall j, runs (bx1 j) = runs (bx j)) by (intros j; unfold runs; by rewrite Hst).
  assert (Hother : forall class : list msg -> list msg, (forall k n, class (k ++ n) = class k ++ class n) -> class [m] = [] ->
    forall j, class (pend (bx1 j)) = class (pend (bx j))).
  { intros class Happ Hm j. rewrite Hbx. case_decide as E; [|done]. rewrite E, grow_pend. case_bool_decide; [done|].
    by rewrite Happ, Hm, app_nil_r. }
  split; cbn [world stages].
  - apply (flows_boxes _ _ bx1 _ _ _ HF Hst); [by apply (Hother ups ups_app)|by apply (Hother downs downs_app)| |].
    + intros j. rewrite Hbx. case_decide as E; [|apply (fi_in_flight _ _ _ _ _ _ _ _ _ _ _ HF)].
      unfold grow. destruct (status (bx i)); apply (fi_in_flight _ _ _ _ _ _ _ _ _ _ _ HF i).
    + intros j Hj. rewrite Hbx. case_decide as E; [|done]. subst j. destruct Hj as [Hj|Hj]; [lia|].
      by rewrite (fi_dead _ _ _ _ _ _ _ _ _ _ _ HF i Hj : bx i = _).
  - split; cbn [world wiring starting unstarted stages set_boxes boxes]; fold bx1; try done.
    + rewrite Hbx, decide_False by lia. done.
    + intros j Hj [Hs|Hw]; [lia|]. rewrite Hbx, decide_False by (intros ->; done).
      apply Hbef; [done|]. right. rewrite Ew. by right.
    + intros j Hj _ Hw Hr. rewrite Hruns in Hr. rewrite Hbx. case_decide as E.
      * subst j. left. split; [|done]. rewrite grow_pend, bool_decide_false, setups_app, Hset; [done|].
        intros E. unfold runs in Hr. by rewrite E in Hr.
      * apply Haft; try done. rewrite Ew. set_solver.
    + intros Hs. lia.
    + intros j Hj. apply Hrange. rewrite Ew. by right.
  - by apply (graph_boxes P gt bx1 _ _ rest Hruns HG).
Qed.

Lemma keep_stop P snt gt i :
  pipe_inv P snt gt -> i ∈ stops (world P) -> status (boxes (world P) i) <> Stopped ->
  pipe_inv (set_world (set_box i stopped_box (world P)) P) snt gt.
Proof.
  intros HP Hs Hne. pose proof HP as [HF HW HG]. set (bx := boxes (world P)) in *.
  pose proof HG as [Grefs Gstops Gcalls Gresult Gexp Gnot Gdead Gstate Gready Gfut Gfinal Gcomp].
  assert (HnQ : ~ Quiet (world P)) by (intros [_ H]; set_solver).
  assert (Hi : (i <= last self)%nat) by auto.
  assert (Hrun : runs (bx i) = true).
  { pose proof (fi_failed _ _ _ _ _ _ _ _ _ _ _ HF i) as Hf. unfold runs. fold bx in Hf. by destruct (status (bx i)). }
  set (bx1 := <[i := stopped_box]> bx).
  assert (Hbx : forall j, bx1 j = if decide (j = i) then stopped_box else bx j) by (intros j; apply (sent_box i _ (world P))).
  assert (Hdead : forall j, runs (bx j) = false -> runs (bx1 j) = false) by (intros j Hj; rewrite Hbx; by case_decide).
  destruct HF as [Flinks Fstage Fmade Ffail Fdead Ffl Fbey Ffst Flst]. split; cbn [world stages set_world].
  - split; fold bx1; try done.
    + intros j Hj. pose proof (Flinks j Hj) as HL. unfold link_of. rewrite !Hbx.
      destruct (decide (S j = i)) as [E|Hn1]; [|destruct (decide (j = i)) as [E|Hn2]].
      * rewrite decide_False by lia. subst i.
        replace (mkLink _ _ _ _ _ _ _ _ _ _ _) with (receiver_dies [] (link_of p kd (stages P) bx snt gt j)).
        -- by apply receiver_dies_ok; [done|done|left| |].
        -- unfold receiver_dies. rewrite to_sender_nil. done.
      * subst j. replace (mkLink _ _ _ _ _ _ _ _ _ _ _) with (sender_dies [] (link_of p kd (stages P) bx snt gt i)).
        -- by apply sender_dies_ok; [done|done|left|..].
        -- unfold sender_dies. rewrite to_receiver_nil. done.
      * done.
    + intros j Hj. rewrite Hbx. case_decide; [done|]. auto.
    + intros j. rewrite Hbx. case_decide; [done|]. auto.
    + intros j. rewrite Hbx. case_decide; [done|]. auto.
    + intros j. rewrite Hbx. case_decide; [cbn; lia|]. auto.
    + intros j Hj. rewrite Hbx, decide_False by lia. auto.
    + rewrite Hbx. by case_decide.
    + rewrite Hbx. by case_decide.
  - destruct HW as [Hz Hbef Haft Hsize Hstart Hnd Hrange].
    split; cbn [world wiring starting unstarted stages set_world set_box set_boxes boxes]; fold bx1; try done.
    + rewrite Hbx. by case_decide.
    + intros j Hj Hw. destruct (Hbef j Hj Hw) as [H1 H2]. split; [|done]. rewrite Hbx. by case_decide.
    + intros j Hj H1 H2. rewrite Hbx. case_decide; [done|]. auto.
  - split; cbn [world notified starting unstarted set_world set_box set_boxes graph boxes stops calls _materialized _ready]; fold bx1;
      try done; try (intros Hq; by destruct HnQ).
    + intros v Hv. destruct (Gresult v Hv) as (H1 & H2 & H3). auto.
    + intros j Hj. destruct (Gexp j Hj) as [H1 H2]. auto.
    + intros j Hj. destruct (Gnot j Hj) as [H1 H2]. auto.
Qed.

(** ** Runs *)

Fixpoint execs (ls : list label) (P : Pipe T) : option (Pipe T) :=
  match ls with [] => Some P | a :: ls => pipe_exec self a P ≫= execs ls end.

Lemma keep_exec a P P' snt gt : pipe_inv P snt gt -> pipe_exec self a P = Some P' -> exists snt' gt', pipe_inv P' snt' gt'.
Proof.
  intros HP. destruct a as [i| |i|i|i|i|]; cbn.
  - case_decide; [|done]. intros [= <-]. eauto using keep_started.
  - intros Hw. eauto using keep_wire.
  - destruct (status _) eqn:Es; [|done..]. destruct (batch _) eqn:Eb; [|done]. destruct (queue _); [done|].
    intros [= <-]. eauto using keep_take.
  - destruct (status _) eqn:Es; [|done..]. destruct (batch _) as [|m rest] eqn:Eb; [done|].
    intros [= <-]. destruct (keep_invoke self xs fs snk p q Hp Hsu P snt gt i m rest HP Es Eb) as (? & ? & ? & ? & _ & _ & _ & ?). eauto.
  - case_decide; [|done]. destruct (status _) eqn:Es; try done; destruct (batch _) eqn:Eb; try done; intros [= <-];
      exists snt, gt; apply keep_stop; by rewrite ?Es.
  - case_decide; [done|]. destruct (status _) eqn:Es; [done..|]. intros [= <-]. eauto using keep_notify.
  - intros [= <-]. eauto using keep_cancel.
Qed.
Lemma keep_execs ls P P' snt gt : pipe_inv P snt gt -> execs ls P = Some P' -> exists snt' gt', pipe_inv P' snt' gt'.
Proof.
  revert P snt gt. induction ls as [|a ls IH]; intros P snt gt HP; cbn; [intros [= <-]; eauto|].
  intros (P1 & H1 & H2)%bind_Some. destruct (keep_exec _ _ _ _ _ HP H1) as (s1 & g1 & HP1). eauto.
Qed.
End reach.
