(* ===== verification/StreamSpec.v ===== *)
(** What a stream computes, whatever the schedule.

    A stream maps its iterable through its flows, in order.  Whatever order the stages run in,
    the sink sees a prefix of that, and the materialized future gets a result only if nothing
    failed, and then the whole of it ([stream_exact]).  Mailboxes of [4p + 8] messages never
    overflow and no stage fails ([stream_bounded]); the minimum the code asks for can
    ([min_capacity_overflows]). *)

From stdpp Require Import base list numbers gmap functions.
From S2P Require Import Prelude Effects Streams StreamGraph StreamLink StreamReact StreamStage StreamFlow StreamEnds StreamInv StreamRun StreamStep StreamKeep StreamReach.

Section initial.
Context {T : Type}.

(** The transforms of a source, in order. *)
Fixpoint flows_of (node : Source T) : list (T -> result (option T)) :=
  match node with SourceNode _ => [] | Chained source f => flows_of source ++ [f] end.
Lemma unwind_flows node : unwind node = SourceFromIterable :: (FlowMap <$> flows_of node).
Proof. induction node as [it|node IH f]; [done|]. cbn. by rewrite IH, fmap_app. Qed.

Definition setup_of (ks : list (kind T)) (cap : Z) (thr : nat) : StreamSetup T :=
  mkStreamSetup (fun i => default SinkCollect (ks !! i)) (length ks - 1) cap thr.
Definition stages_of (node : Source T) (snk : kind T) : list (kind T) := unwind node ++ [snk].

Lemma setup_of_ok node snk cap thr p :
  is_sink snk -> 4 * p + 8 <= cap -> (0 < thr)%nat -> setup_ok (setup_of (stages_of node snk) cap thr) (flows_of node) snk p.
Proof.
  intros Hs Hc Ht. unfold stages_of. rewrite unwind_flows. set (fs := flows_of node).
  assert (Hl : last (setup_of ((SourceFromIterable :: (FlowMap <$> fs)) ++ [snk]) cap thr) = S (length fs)).
  { cbn. rewrite length_app, length_fmap. cbn. lia. }
  split; try done.
  - intros j f Hf. change (kinds _ (S j)) with (default SinkCollect (((FlowMap <$> fs) ++ [snk]) !! j)). by rewrite lookup_app_l, list_lookup_fmap, Hf by (rewrite length_fmap; eapply lookup_lt_Some; eauto).
  - rewrite Hl. change (kinds _ (S _)) with (default SinkCollect (((FlowMap <$> fs) ++ [snk]) !! length fs)). rewrite lookup_app_r by (rewrite length_fmap; lia). by rewrite length_fmap, Nat.sub_diag.
Qed.

(** The world [run] leaves when no factory raises. *)
Definition spawned (m : option (Fut (list T))) (n : nat) : World T :=
  mkWorld (fun _ => empty_box) (mkGraph (seq 0 (S n)) (Some (Z.of_nat n)) ∅ PENDING) FPending m ∅ [].
Lemma spawn_all_ok refs w :
  _state (graph w) = PENDING ->
  spawn_all (T:=T) (fun _ => None) refs w =
    (Ret tt, set_graph (mkGraph (_refs (graph w) ++ refs) (Some (Z.of_nat (length (_refs (graph w) ++ refs)) - 1))
                          (_expected_stops (graph w)) PENDING) w).
Proof.
  revert w. induction refs as [|i refs IH]; intros w Hs; cbn.
  - unfold seal. rewrite Hs, bool_decide_true by done. by rewrite app_nil_r.
  - unfold spawn. rewrite Hs, bool_decide_true by done. rewrite IH by done. cbn. by rewrite <- app_assoc.
Qed.

Lemma run_starts rg c p q :
  _has_run rg = false -> _claimed rg = false -> (forall f, materialized_future rg = Some f -> f = FPending) ->
  _MIN_MAILBOX_CAPACITY <= c ->
  let n := S (length (flows_of (_source rg))) in
  let w := spawned (materialized_future rg) n in
  run rg (Some c) (fun _ => None) p q =
    (Ret (stages_of (_source rg) (_sink rg), initial_pipe (iterable_of (_source rg)) p q n w), w,
     mkRunnable (_source rg) (_sink rg) true true (materialized_future rg)).
Proof.
  intros H1 H2 H3 H4 n w. unfold run. cbv zeta. rewrite H1. cbn [_claimed materialized_future _source _sink]. rewrite H2.
  assert (match materialized_future rg with Some f => fut_done f | None => false end = false) as ->.
  { destruct (materialized_future rg) as [f|] eqn:E; [|done]. by rewrite (H3 f). }
  rewrite (proj2 (Z.ltb_ge _ _)) by done. rewrite spawn_all_ok by done.
  assert ((length (unwind (_source rg) ++ [_sink rg]) - 1)%nat = n) as ->.
  { rewrite unwind_flows, length_app. cbn. rewrite length_fmap. unfold n. lia. }
  cbn [fresh_world graph _refs app]. rewrite length_seq. replace (Z.of_nat (S n) - 1) with (Z.of_nat n) by lia. done.
Qed.

Context (self : StreamSetup T) (xs : list (result T)) (fs : list (T -> result (option T))) (snk : kind T).
Context (p q : Z) (Hp : 0 < p <= q) (Hsu : setup_ok self fs snk p).

Lemma new_stage_fields it : new_stage it p q = mkStage (T:=T) None None [] 0 0 false p q false false false it false [].
Proof.
  unfold new_stage, StageBehavior_new.
  rewrite (proj2 (Z.leb_gt p 0)), (proj2 (Z.leb_gt q 0)), (proj2 (Z.ltb_ge q p)) by lia. done.
Qed.

Lemma initial_pipe_inv m :
  (has_future snk = true -> m = Some FPending) -> (forall v, m <> Some (FResult v)) ->
  pipe_inv self xs fs snk p q (initial_pipe xs p q (last self) (spawned m (last self))) (fun _ => []) (fun _ => []).
Proof.
  intros Hm Hv. unfold initial_pipe, spawned. split; cbn [stages world boxes].
  - split; try done.
    + intros i Hi. exists [], [], [], []. unfold link_of. rewrite !new_stage_fields. split; cbn; try done; try (by left);
        try (destruct (kinds self (S i)), (kinds self i); cbn; done || lia). intros _. split_and!; auto; done.
    + intros i Hi _. rewrite new_stage_fields. unfold stage_inv. destruct i as [|j].
      * split; [split|..]; cbn; auto. tauto.
      * assert (common_ok p q (S j) (mkStage (T:=T) None None [] 0 0 false p q false false false [] false [])) by (split; cbn; auto; tauto).
        destruct (fs !! j); split; cbn; auto; try done; try tauto; try lia; [constructor|].
        destruct snk; cbn; constructor.
    + intros i Hi. apply prefix_nil.
    + intros i. cbn. lia.
  - split; cbn [stages world boxes starting unstarted wiring]; try done; try lia.
    + intros i Hi _. by rewrite new_stage_fields.
    + rewrite size_list_to_set, length_seq by apply NoDup_seq. lia.
    + constructor.
    + intros i Hi. by apply elem_of_nil in Hi.
  - split; cbn [stages world boxes starting unstarted wiring notified graph _refs stops calls _materialized _expected_stops _state _ready]; try done.
    + by destruct snk.
    + intros v ->. by destruct (Hv v).
    + intros _ _. split; [done|]. by rewrite size_list_to_set, length_seq by apply NoDup_seq.
    + intros _ Hall. specialize (Hall 0%nat ltac:(lia)). set_solver.
Qed.
End initial.

(** * The reference *)

Section reference.
Context {T : Type}.

(** The elements of a source in order, up to the first error; and whether there is none. *)
Fixpoint stream_elements (node : Source T) : list T :=
  match node with SourceNode it => oks it | Chained source f => mapped f (stream_elements source) end.
Fixpoint faultless (node : Source T) : Prop :=
  match node with SourceNode it => all_ok it | Chained source f => faultless source /\ good f (stream_elements source) end.

Lemma ideal_app xs (fs gs : list (T -> result (option T))) j :
  (j <= length fs)%nat -> ideal xs (fs ++ gs) j = ideal xs fs j /\ (clean xs (fs ++ gs) j <-> clean xs fs j).
Proof.
  induction j as [|j IH]; intros Hj; [done|]. destruct IH as [E1 E2]; [lia|]. cbn.
  rewrite lookup_app_l by lia. rewrite E1. destruct (fs !! j); [|done]. by rewrite E2.
Qed.
Lemma elements_ideal node :
  ideal (iterable_of node) (flows_of node) (length (flows_of node)) = stream_elements node /\
  (clean (iterable_of node) (flows_of node) (length (flows_of node)) <-> faultless node).
Proof.
  induction node as [it|node [IH1 IH2] f]; [done|]. cbn [iterable_of flows_of stream_elements faultless].
  rewrite length_app, Nat.add_comm. cbn [length Nat.add ideal clean]. rewrite lookup_app_r, Nat.sub_diag by lia. cbn.
  destruct (ideal_app (iterable_of node) (flows_of node) [f] (length (flows_of node)) ltac:(lia)) as [-> ->].
  by rewrite IH1, IH2.
Qed.

(** A stream materialized as [run] does it, with mailboxes of [c] messages, at some point of
    its run. *)
Record at_run (rg : RunnableGraph T) (c p q : Z) (thr : nat) (ls : list label) (P : Pipe T) : Prop := {
  ar_prefetch : 0 < p <= q;
  ar_capacity : 4 * p + 8 <= c;
  ar_throughput : (0 < thr)%nat;
  ar_sink : is_sink (_sink rg);
  ar_future : has_future (_sink rg) = true -> materialized_future rg <> None;
  ar_run : exists P0 w rg', run rg (Some c) (fun _ => None) p q = (Ret (stages_of (_source rg) (_sink rg), P0), w, rg') /\
    execs (setup_of (stages_of (_source rg) (_sink rg)) c thr) ls P0 = Some P }.

Lemma run_returns rg c p q ks P0 w rg' :
  run (T:=T) rg (Some c) (fun _ => None) p q = (Ret (ks, P0), w, rg') ->
  let n := S (length (flows_of (_source rg))) in
  (forall f, materialized_future rg = Some f -> f = FPending) /\
  P0 = initial_pipe (iterable_of (_source rg)) p q n (spawned (materialized_future rg) n).
Proof.
  intros H n. assert (Hg : _has_run rg = false /\ _claimed rg = false /\
    (forall f, materialized_future rg = Some f -> f = FPending) /\ _MIN_MAILBOX_CAPACITY <= c).
  { unfold run in H. cbv zeta in H. cbn [_claimed materialized_future] in H.
    destruct (_has_run rg); [done|]. destruct (_claimed rg); [done|].
    destruct (match materialized_future rg with Some f => fut_done f | None => false end) eqn:Ef; [done|].
    destruct (Z.ltb_spec c _MIN_MAILBOX_CAPACITY); [done|]. split_and!; try done. intros f Em. rewrite Em in Ef. by destruct f. }
  destruct Hg as (H1 & H2 & H3 & H4). split; [done|]. rewrite (run_starts rg c p q H1 H2 H3 H4) in H. by injection H as _ <- _ _.
Qed.

Lemma last_setup (rg : RunnableGraph T) c thr :
  last (setup_of (stages_of (_source rg) (_sink rg)) c thr) = S (length (flows_of (_source rg))).
Proof. cbn. unfold stages_of. rewrite unwind_flows, length_app. cbn. rewrite length_fmap. lia. Qed.

Section at_run.
Context (rg : RunnableGraph T) (c p q : Z) (thr : nat) (ls : list label) (P : Pipe T) (HR : at_run rg c p q thr ls P).
Abbreviation self := (setup_of (stages_of (_source rg) (_sink rg)) c thr).
Abbreviation xs := (iterable_of (_source rg)).
Abbreviation fs := (flows_of (_source rg)).

Lemma run_setup : setup_ok self fs (_sink rg) p.
Proof. apply setup_of_ok; apply HR. Qed.
Lemma run_reaches : exists P0 snt gt, pipe_inv self xs fs (_sink rg) p q P0 (fun _ => []) (fun _ => []) /\
  execs self ls P0 = Some P /\ P0 = initial_pipe xs p q (last self) (spawned (materialized_future rg) (last self)) /\
  pipe_inv self xs fs (_sink rg) p q P snt gt.
Proof.
  pose proof run_setup as Hsu. destruct HR as [Hp Hc Ht Hk Hf (P0 & w & rg' & Hrun & Hex)].
  destruct (run_returns _ _ _ _ _ _ _ _ Hrun) as [Hpend ->]. rewrite last_setup. rewrite <- (last_setup rg c thr) in *.
  assert (HP0 : pipe_inv self xs fs (_sink rg) p q (initial_pipe xs p q (last self) (spawned (materialized_future rg) (last self)))
    (fun _ => []) (fun _ => [])).
  { apply (initial_pipe_inv self xs fs (_sink rg) p q Hp Hsu).
    - intros Hh. destruct (materialized_future rg) as [f|] eqn:Em; [|by destruct (Hf Hh)]. by rewrite (Hpend f).
    - intros v Hv. by specialize (Hpend _ Hv). }
  destruct (keep_execs self xs fs (_sink rg) p q Hp Hsu ls _ _ _ _ HP0 Hex) as (snt & gt & HP). eauto 10.
Qed.

Lemma stream_exact_at :
  let lst := S (length fs) in
  match _sink rg with
  | SinkForEach _ func =>
      calls (world P) `prefix_of` stream_elements (_source rg) /\
      (status (boxes (world P) lst) = Running -> Forall (fun x => func x = Ok tt) (calls (world P)))
  | _ => status (boxes (world P) lst) = Running -> _items (stages P lst) `prefix_of` stream_elements (_source rg)
  end /\
  forall v, _materialized (world P) = Some (FResult v) ->
    faultless (_source rg) /\
    match _sink rg with
    | SinkForEach _ func =>
        v = [] /\ calls (world P) = stream_elements (_source rg) /\
        Forall (fun x => func x = Ok tt) (stream_elements (_source rg))
    | _ => v = stream_elements (_source rg)
    end.
Proof.
  cbv zeta. pose proof run_setup as Hsu. destruct run_reaches as (P0 & snt & gt & _ & _ & _ & HP). destruct HP as [HF _ HG].
  destruct (elements_ideal (_source rg)) as [El Ec]. assert (Hl : last self = S (length fs)) by apply last_setup.
  assert (Hpre : gt (last self) `prefix_of` stream_elements (_source rg)).
  { rewrite <- El, Hl. apply (got_ideal _ _ _ _ _ _ Hsu _ _ _ _ _ HF). lia. }
  pose proof (gi_calls _ _ _ _ _ _ HG) as Hc. pose proof (ar_sink _ _ _ _ _ _ _ HR) as Hk. split.
  - pose proof (fi_stage _ _ _ _ _ _ _ _ _ _ _ HF (S (length fs)) ltac:(lia)) as Hs.
    assert (Hs' : status (boxes (world P) (S (length fs))) = Running ->
      sink_ok p q (S (length fs)) (_sink rg) (stages P (S (length fs))) (gt (S (length fs)))).
    { intros Hr. specialize (Hs ltac:(by apply bool_decide_eq_true)). cbn [stage_inv] in Hs.
      by rewrite sink_index in Hs. }
    clear Hs. destruct (_sink rg) as [| |mat func|] eqn:Ek; try done.
    { rewrite Hc. split; [done|]. intros Hr. rewrite Hl. exact (ko_good _ _ _ _ _ _ (Hs' Hr)). }
    intros Hr. specialize (Hs' Hr). rename Hs' into Hs.
    rewrite (ko_items _ _ _ _ _ _ Hs eq_refl). by rewrite <- Hl.
  - intros v Hv. destruct (gi_result _ _ _ _ _ _ HG v Hv) as (_ & [Hg Hcl] & -> & Hgood).
    split; [by apply Ec|]. rewrite Hg, El in *. by destruct (_sink rg).
Qed.

Lemma stream_bounded_at i :
  status (boxes (world P) i) <> Failed /\ Z.of_nat (occupancy (boxes (world P) i)) <= 4 * p + 8 /\
  (forall j f, i = S j -> fs !! j = Some f -> status (boxes (world P) i) = Running -> Z.of_nat (length (_buf (stages P i))) <= p).
Proof.
  pose proof run_setup as Hsu. pose proof (ar_prefetch _ _ _ _ _ _ _ HR) as Hp.
  destruct run_reaches as (P0 & snt & gt & _ & _ & _ & HP). pose proof HP as [HF _ _].
  pose proof (fi_failed _ _ _ _ _ _ _ _ _ _ _ HF i) as Hf. split; [done|]. split.
  - pose proof (occupancy_pend (boxes (world P)) i). pose proof (fi_in_flight _ _ _ _ _ _ _ _ _ _ _ HF i).
    destruct (decide (i <= last self)%nat) as [Hi|Hi].
    + pose proof (pipe_pend _ _ _ _ _ _ Hp P snt gt i HP Hi). lia.
    + rewrite (fi_beyond _ _ _ _ _ _ _ _ _ _ _ HF) in * by lia. cbn in *. lia.
  - intros j f -> Hj Hr. pose proof (lookup_lt_Some _ _ _ Hj) as Hlt. pose proof (last_setup rg c thr) as Hl.
    pose proof (fi_stage _ _ _ _ _ _ _ _ _ _ _ HF (S j) ltac:(lia) ltac:(by apply bool_decide_eq_true)) as Hs.
    cbn [stage_inv] in Hs. rewrite Hj in Hs. apply (fo_le _ _ _ _ _ _ _ Hs).
Qed.
End at_run.
End reference.

(** * Schedules to try *)

Section attempts.
Context {T : Type} (self : StreamSetup T).
(** The labels of [cs] that can be executed in turn, and where they lead. *)
Fixpoint attempts (cs : list label) (P : Pipe T) : list label * Pipe T :=
  match cs with
  | [] => ([], P)
  | a :: cs => match pipe_exec self a P with
               | Some P' => let '(ls, P2) := attempts cs P' in (a :: ls, P2)
               | None => attempts cs P
               end
  end.
Lemma attempts_execs cs P : execs self (attempts cs P).1 P = Some (attempts cs P).2.
Proof.
  revert P. induction cs as [|a cs IH]; intros P; [done|]. cbn. destruct (pipe_exec self a P) as [P'|] eqn:E; [|done].
  specialize (IH P'). destruct (attempts cs P') as [ls P2]. cbn in *. by rewrite E.
Qed.
End attempts.

(** The stages in turn, [n] times over. *)
Definition round_robin (last n : nat) : list label :=
  let all := seq 0 (S last) in
  (Started <$> all) ++ replicate last Wire ++
  concat (replicate n ((i ← all; [TakeBatch i; Invoke i]) ++ (Notify <$> all))).
Definition increment (x : Z) : result (option Z) := Ok (Some (x + 1)).
Definition counting (n : Z) : RunnableGraph Z :=
  mkRunnable (Chained (Chained (SourceNode (Ok <$> seqZ 0 n)) increment) increment) SinkCollect false false (Some FPending).
Definition counting_run (n c : Z) (rounds : nat) : list label * Pipe Z :=
  attempts (setup_of (stages_of (_source (counting n)) SinkCollect) c 100) (round_robin 3 rounds)
    (initial_pipe (Ok <$> seqZ 0 n) 16 256 3 (spawned (Some FPending) 3)).
Lemma counting_at n c rounds :
  72 <= c -> at_run (counting n) c 16 256 100 (counting_run n c rounds).1 (counting_run n c rounds).2.
Proof.
  intros Hc. split; try done; try lia. do 3 eexists. split.
  - apply run_starts; [done|done|by intros f [= <-]|]. unfold _MIN_MAILBOX_CAPACITY. lia.
  - apply attempts_execs.
Qed.

(** * The theorems *)

(** C9.  A stream materialized by [run] with mailboxes of at least [4p + 8] messages, [p] being
    the prefetch, at every point of every schedule, whoever cancels: what the sink has been
    given so far is a prefix of the elements of the source in order, and the function of a
    [SinkForEach] that still runs has returned on all it was called with; and if the
    materialized future has a result then nothing failed, neither the iterable nor a transform
    nor the sink's function on any element, the sink was given all the elements, and a
    collecting sink's result is exactly their list. *)
Theorem stream_exact {T} (rg : RunnableGraph T) c p q thr ls P :
  at_run rg c p q thr ls P ->
  match _sink rg with
  | SinkForEach _ func =>
      calls (world P) `prefix_of` stream_elements (_source rg) /\
      (status (boxes (world P) (S (length (flows_of (_source rg))))) = Running ->
       Forall (fun x => func x = Ok tt) (calls (world P)))
  | _ => let lst := S (length (flows_of (_source rg))) in
         status (boxes (world P) lst) = Running -> _items (stages P lst) `prefix_of` stream_elements (_source rg)
  end /\
  forall v, _materialized (world P) = Some (FResult v) ->
    faultless (_source rg) /\
    match _sink rg with
    | SinkForEach _ func =>
        v = [] /\ calls (world P) = stream_elements (_source rg) /\
        Forall (fun x => func x = Ok tt) (stream_elements (_source rg))
    | _ => v = stream_elements (_source rg)
    end.
Proof. exact (stream_exact_at rg c p q thr ls P). Qed.

(** Three elements through two flows: the run ends with the result the theorem names. *)
Lemma stream_exact_witness :
  let P := (counting_run 3 100 20).2 in
  _materialized (world P) = Some (FResult [2; 3; 4]) /\ faultless (_source (counting 3)) /\
  [2; 3; 4] = stream_elements (_source (counting 3)).
Proof.
  intros P. assert (Hm : _materialized (world P) = Some (FResult [2; 3; 4])) by (vm_compute; reflexivity).
  split; [exact Hm|]. exact (proj2 (stream_exact _ _ _ _ _ _ _ (counting_at 3 100 20 ltac:(lia))) _ Hm).
Defined.

(** C40.  At every point of every schedule no stage has failed, a mailbox holds at most [4p + 8]
    messages, and the buffer of a flow at most the prefetch [p]. *)
Theorem stream_bounded {T} (rg : RunnableGraph T) c p q thr ls P i :
  at_run rg c p q thr ls P ->
  status (boxes (world P) i) <> Failed /\ Z.of_nat (occupancy (boxes (world P) i)) <= 4 * p + 8 /\
  (forall j f, i = S j -> flows_of (_source rg) !! j = Some f -> status (boxes (world P) i) = Running ->
     Z.of_nat (length (_buf (stages P i))) <= p).
Proof. intros HR. exact (stream_bounded_at rg c p q thr ls P HR i). Qed.

Lemma stream_bounded_witness :
  Z.of_nat (occupancy (boxes (world (counting_run 40 72 12).2) 2)) <= 72 /\
  (1 <= occupancy (boxes (world (counting_run 40 72 12).2) 2))%nat.
Proof.
  split.
  - exact (proj1 (proj2 (stream_bounded _ _ _ _ _ _ _ 2 (counting_at 40 72 12 ltac:(lia))))).
  - vm_compute. lia.
Defined.

(** The minimum mailbox capacity of the code is not enough: 40 elements through two flows
    that never raise, nobody cancelling, and the result is [MailboxCapacityExceeded]. *)
Theorem min_capacity_overflows :
  exists P0 w rg' ls P,
    faultless (_source (counting 40)) /\
    run (counting 40) (Some _MIN_MAILBOX_CAPACITY) (fun _ => None) 16 256 =
      (Ret (stages_of (_source (counting 40)) SinkCollect, P0), w, rg') /\
    UserCancel ∉ ls /\
    execs (setup_of (stages_of (_source (counting 40)) SinkCollect) _MIN_MAILBOX_CAPACITY 100) ls P0 = Some P /\
    _materialized (world P) = Some (FException MailboxCapacityExceeded).
Proof.
  do 3 eexists. exists (counting_run 40 32 100).1, (counting_run 40 32 100).2. split_and!.
  - cbn -[seqZ]. assert (forall l : list Z, all_ok (Ok <$> l)) as Hok.
    { intros l. apply Forall_fmap, Forall_true. intros x. by exists x. }
    assert (forall l, good increment l) as Hg by (intros l; apply Forall_true; intros x; by eexists).
    split; [split|]; auto.
  - apply run_starts; [done|done|by intros f [= <-]|done].
  - intros Hin. assert (Hb : existsb (fun a => match a with UserCancel => true | _ => false end) (counting_run 40 32 100).1 = false)
      by (vm_compute; reflexivity).
    apply list_elem_of_In in Hin. apply not_true_iff_false in Hb. apply Hb, existsb_exists. exists UserCancel. exact (conj Hin eq_refl).
  - apply attempts_execs.
  - vm_compute. reflexivity.
Qed.
