(* ===== verification/StreamLive.v ===== *)
(** A stream that nobody cancels and in which nothing fails finishes, whatever the schedule.

    [rank] decreases with every step but a cancellation, so a run has a bounded number of
    steps; and a state in which no step is left has delivered everything ([stuck_complete]):
    demand travels upstream, so a sink that still waits leaves a stage something to do. *)

From stdpp Require Import base list numbers gmap functions.
From S2P Require Import Prelude Effects Streams StreamGraph StreamLink StreamReact StreamStage StreamFlow StreamEnds StreamInv StreamRun StreamStep StreamKeep StreamReach StreamSpec.

Section live.
Context {T : Type} (self : StreamSetup T) (xs : list (result T)) (fs : list (T -> result (option T))) (snk : kind T).
Context (p q : Z) (Hp : 0 < p <= q) (Hsu : setup_ok self fs snk p).
Abbreviation msg := (StageBehaviorCommand T).
Abbreviation kd := (kinds self).
Abbreviation flows_inv := (flows_inv self xs fs snk p q).
Abbreviation pipe_inv := (pipe_inv self xs fs snk p q).
Abbreviation Quiet := (Quiet xs fs snk).

(** * No deadlock *)

(** A link with nothing under way: the sender owes all its receiver waits for, or has
    finished and its receiver knows. *)
Lemma link_rest d (Q : Prop) fin (L : @Link T) :
  link_ok p d Q fin L -> Q -> reqs L = [] -> data L = [] -> receiver_runs L = true -> receiver_wired L = true ->
  (sender_runs L = true -> owing L = owed L) /\ (sender_runs L = false -> receiver_closed L = true).
Proof.
  intros (ns & cn & ys & t & []) HQ Hr Hd Hrun Hw. rewrite Hr in lk_reqs. rewrite Hd in lk_data.
  symmetry in lk_reqs, lk_data. apply app_nil in lk_reqs as [_ [Hns _]%app_nil]. apply app_nil in lk_data as [Hxs ->].
  apply fmap_nil_inv in Hns as ->. apply fmap_nil_inv in Hxs as ->. split.
  - intros Hs. specialize (lk_credit_eq Hs Hrun). cbn in lk_credit_eq. lia.
  - intros Hs. destruct (lk_quiet HQ) as (_ & _ & Hc & _). destruct (Hc Hs Hrun); done.
Qed.

Section stuck.
Context (P : Pipe T) (snt gt : nat -> list T) (HP : pipe_inv P snt gt) (Hq : Quiet (world P)).
Context (Hstuck : forall a, a <> UserCancel -> pipe_exec self a P = None).
Abbreviation bx := (boxes (world P)).
Abbreviation L := (link_of p kd (stages P) bx snt gt).

Lemma stuck_wired : starting P = 0 /\ wiring P = [].
Proof.
  destruct HP as [_ HW HG]. assert (Hun : unstarted P = ∅).
  { destruct (set_choose_or_empty (unstarted P)) as [[i Hi]|He]; [|by apply leibniz_equiv].
    specialize (Hstuck (Started i) ltac:(done)). cbn in Hstuck. by rewrite decide_True in Hstuck. }
  pose proof (wi_size _ _ HW) as Hs. assert (starting P = 0).
  { destruct (decide (0 < starting P)) as [H|H]; [|lia]. destruct (gi_ready _ _ _ _ _ _ HG Hq H) as [_ E].
    rewrite Hun, size_empty in E. lia. }
  split; [done|]. specialize (Hstuck Wire ltac:(done)). cbn in Hstuck. unfold wire_next in Hstuck. by destruct (wiring P).
Qed.
Lemma stuck_empty i : pend (bx i) = [].
Proof.
  pose proof (pi_flows _ _ _ _ _ _ _ _ _ HP) as HF. destruct (runs (bx i)) eqn:Hr.
  - apply bool_decide_eq_true in Hr. pose proof (Hstuck (Invoke i) ltac:(done)) as Hi.
    pose proof (Hstuck (TakeBatch i) ltac:(done)) as Ht. cbn in Hi, Ht. rewrite Hr in Hi, Ht. unfold pend.
    destruct (batch (bx i)); [|done]. by destruct (queue (bx i)).
  - by rewrite (fi_dead _ _ _ _ _ _ _ _ _ _ _ HF i Hr).
Qed.
Lemma stuck_up i : (1 <= i <= last self)%nat -> runs (bx i) = true -> wired (_up (stages P i)) = true.
Proof.
  intros Hi Hr. destruct stuck_wired as [Hs Hw]. destruct HP as [_ HW _].
  destruct (wi_after _ _ HW i Hi Hs ltac:(rewrite Hw; by intros ?%elem_of_nil) Hr) as [[E _]|[_ E]].
  - by rewrite stuck_empty in E.
  - by destruct (_up (stages P i)).
Qed.
Lemma stuck_link u : (u < last self)%nat -> runs (bx (S u)) = true ->
  (runs (bx u) = true -> owing (L u) = owed (L u)) /\ (runs (bx u) = false -> receiver_closed (L u) = true).
Proof.
  intros Hu Hr. apply (link_rest (S u) (Quiet (world P)) (fin xs fs u) (L u)); [|done|cbn; by rewrite stuck_empty..|done|].
  - by apply (fi_links _ _ _ _ _ _ _ _ _ _ _ (pi_flows _ _ _ _ _ _ _ _ _ HP)).
  - by apply stuck_up; [lia|].
Qed.

(** No stage waits: the one before would be waiting too. *)
Lemma no_starving u :
  (u < last self)%nat -> runs (bx (S u)) = true -> owed (L u) = p -> receiver_closed (L u) = false -> False.
Proof.
  assert (Hsender : forall u, (u < last self)%nat -> runs (bx (S u)) = true -> owed (L u) = p ->
    receiver_closed (L u) = false -> runs (bx u) = true /\ owing (L u) = p).
  { intros v Hv Hr Ho Hc. destruct (stuck_link v Hv Hr) as [H1 H2]. destruct (runs (bx v)) eqn:E; [|by rewrite H2 in Hc].
    split; [done|]. by rewrite H1. }
  induction u as [|v IH]; intros Hu Hr Ho Hc; destruct (Hsender _ Hu Hr Ho Hc) as [Hrun H1]; cbn in H1.
  - rewrite (su_source _ _ _ _ Hsu) in H1. cbn in H1. lia.
  - destruct (flow_index _ _ _ _ Hsu v Hu) as [f Hf]. pose proof (su_flows _ _ _ _ Hsu _ _ Hf) as Hk.
    rewrite Hk in H1. cbn in H1.
    pose proof (fi_stage _ _ _ _ _ _ _ _ _ _ _ (pi_flows _ _ _ _ _ _ _ _ _ HP) (S v) ltac:(lia) Hrun) as Hs.
    cbn [stage_inv] in Hs. rewrite Hf in Hs. destruct Hs as [_ _ _ Hund _ _ Hbuf Hcl Hfull _ _ _].
    pose proof (stuck_up (S v) ltac:(lia) Hrun) as Hup.
    assert (Hb : _buf (stages P (S v)) = []) by (destruct (_buf (stages P (S v))); [done|]; specialize (Hbuf ltac:(done)); lia).
    assert (Hnc : _up_closed (stages P (S v)) = false).
    { destruct (_up_closed (stages P (S v))); [|done]. destruct (Hcl eq_refl) as [_ Hd]. specialize (Hd Hb). lia. }
    apply IH; [lia|done| |]; cbn; rewrite Hk; cbn; [|done].
    rewrite Hb in Hfull. cbn in Hfull. apply Hfull; [by destruct (_up (stages P (S v)))| |done].
    intros Hd. specialize (Hund Hd). lia.
Qed.
Lemma stuck_dead i : (i <= last self)%nat -> runs (bx i) = false.
Proof.
  pose proof (su_last _ _ _ _ Hsu) as Hl. pose proof (pi_flows _ _ _ _ _ _ _ _ _ HP) as HF. intros Hi.
  assert (Hsink : runs (bx (last self)) = false).
  { destruct (runs (bx (last self))) eqn:Hr; [|done]. exfalso. rewrite Hl in Hr. pose proof (kind_sink self fs snk p Hsu) as Hk.
    pose proof (su_is_sink _ _ _ _ Hsu) as Hsk.
    apply (no_starving (length fs)); [lia|done|..]; cbn; rewrite Hk; [|by destruct snk].
    assert (sink_owed p (stages P (S (length fs))) = p) by (unfold sink_owed; by rewrite stuck_up by (done || lia)).
    by destruct snk. }
  remember (last self - i)%nat as k eqn:Ek. revert i Hi Ek. induction k as [|k IH]; intros i Hi Ek.
  - by replace i with (last self) by lia.
  - destruct (fi_links _ _ _ _ _ _ _ _ _ _ _ HF i ltac:(lia)) as (ns & cn & ys & t & HL).
    destruct (lk_quiet _ _ _ _ _ _ _ _ _ HL Hq) as (_ & _ & _ & Hd). apply Hd. cbn. apply IH; lia.
Qed.

Lemma stuck_complete :
  _state (graph (world P)) = COMPLETED /\ (forall i, (i <= last self)%nat -> status (bx i) = Stopped) /\
  fin xs fs (length fs) (gt (last self)) /\
  (has_future snk = true -> _materialized (world P) = Some (FResult (sink_result snk (gt (last self))))) /\
  match snk with SinkForEach _ _ => calls (world P) = gt (last self) | _ => True end.
Proof.
  pose proof HP as [HF _ HG]. pose proof (stuck_dead (last self) ltac:(lia)) as Hd.
  assert (Hstop : forall i, (i <= last self)%nat -> status (bx i) = Stopped).
  { intros i Hi. by rewrite (fi_dead _ _ _ _ _ _ _ _ _ _ _ HF i (stuck_dead i Hi)). }
  split_and!; [|done|by apply (gi_final _ _ _ _ _ _ HG)| |by apply (gi_calls _ _ _ _ _ _ HG)].
  - apply (gi_complete _ _ _ _ _ _ HG Hq). intros i Hi. specialize (Hstuck (Notify i) ltac:(done)). cbn in Hstuck.
    destruct (decide (i ∈ notified P)); [done|]. by rewrite Hstop in Hstuck.
  - intros Hf. rewrite (gi_future _ _ _ _ _ _ HG Hq Hf). by rewrite Hd.
Qed.
End stuck.

(** * No endless run *)

Definition amount (m : msg) : Z := match m with Request n => n | _ => 0 end.
Definition amounts (ms : list msg) : Z := sumZ (amount <$> ms).
Lemma amounts_app l k : amounts (l ++ k) = amounts l + amounts k.
Proof. unfold amounts. by rewrite fmap_app, sumZ_app. Qed.
Lemma amounts_requests ns : amounts (Request <$> ns) = sumZ ns.
Proof. unfold amounts. f_equal. induction ns as [|n ns IH]; [done|]. cbn. by f_equal. Qed.

(** Between two running stages nothing asked for is lost. *)
Lemma link_credit d (Q : Prop) fin (L : @Link T) :
  link_ok p d Q fin L -> Q -> sender_runs L = true ->
  amounts (reqs L) + owing L + Z.of_nat (length (nexts (data L))) = owed L.
Proof.
  intros (ns & cn & ys & t & []) HQ Hs. destruct (lk_quiet HQ) as (-> & Ht & _ & Hd).
  assert (Hr : receiver_runs L = true) by (destruct (receiver_runs L); [done|]; specialize (Hd eq_refl); congruence).
  rewrite <- (lk_credit_eq Hs Hr), lk_reqs, lk_data, !amounts_app, amounts_requests, nexts_app, nexts_elements, length_app.
  assert (length (nexts t) = 0)%nat as -> by (destruct Ht as [-> | ->]; done).
  assert (amounts (if sender_runs L && receiver_wired L && negb (sender_wired L) then [Subscribe d true] else []) = 0) as ->
    by by case_match.
  unfold amounts. cbn. lia.
Qed.

Section rank.
Context (st : nat -> Stage T) (bx : nat -> Box T) (snt gt : nat -> list T).
Definition flag (b : bool) : Z := if b then 0 else 1.
(** Elements stage [i] may still receive, and elements it may still be asked for. *)
Definition got_left (i : nat) : Z :=
  match i with O => 0 | S u => Z.of_nat (length (ideal xs fs u)) - Z.of_nat (length (gt i)) end.
Definition ask_left (i : nat) : Z :=
  if decide (i < last self)%nat
  then Z.of_nat (length (ideal xs fs i)) + p - (owing_of (kd i) (st i) + Z.of_nat (length (snt i))) else 0.
Definition stage_rank (i : nat) : Z :=
  if runs (bx i)
  then 1 + got_left i + ask_left i + flag (wired (_up (st i))) + flag (wired (_down (st i))) + flag (_up_closed (st i))
  else 0.
Definition ranks : Z := sumZ (stage_rank <$> seq 0 (S (last self))).

Lemma sum_le (f g : nat -> Z) l : (forall j, j ∈ l -> f j <= g j) -> sumZ (f <$> l) <= sumZ (g <$> l).
Proof.
  induction l as [|j l IH]; intros H; [done|]. cbn. pose proof (H j ltac:(by left)).
  unfold sumZ in IH. specialize (IH ltac:(intros; apply H; by right)). lia.
Qed.
Lemma sum_lt (f g : nat -> Z) l i :
  (forall j, j ∈ l -> f j <= g j) -> i ∈ l -> f i < g i -> sumZ (f <$> l) < sumZ (g <$> l).
Proof.
  intros H Hi Hlt. induction l as [|j l IH]; [by apply elem_of_nil in Hi|].
  pose proof (H j ltac:(by left)). pose proof (sum_le f g l ltac:(intros; apply H; by right)) as Hle.
  unfold sumZ in *. cbn. apply elem_of_cons in Hi as [->|Hi]; [lia|].
  specialize (IH ltac:(intros; apply H; by right) Hi). lia.
Qed.

Context (Q : Prop) (H : flows_inv st bx Q snt gt).
Lemma got_left_nonneg i : (i <= last self)%nat -> 0 <= got_left i.
Proof.
  intros Hi. destruct i as [|u]; [done|]. cbn.
  pose proof (prefix_length _ _ (got_ideal _ _ _ _ _ _ Hsu _ _ _ _ _ H u ltac:(lia))). lia.
Qed.
Lemma ask_left_nonneg i : runs (bx i) = true -> 0 <= ask_left i.
Proof.
  intros Hr. unfold ask_left. case_decide as Hi; [|done].
  pose proof (prefix_length _ _ (sent_ideal _ _ _ _ _ _ Hsu _ _ _ _ _ H i Hi)).
  pose proof (link_owing_bound _ _ _ _ _ (fi_links _ _ _ _ _ _ _ _ _ _ _ H i Hi) Hr) as Ho. cbn in Ho. lia.
Qed.
Lemma stage_rank_nonneg i : (i <= last self)%nat -> 0 <= stage_rank i /\ (runs (bx i) = true -> 0 < stage_rank i).
Proof.
  intros Hi. unfold stage_rank. destruct (runs (bx i)) eqn:E; [|done].
  pose proof (got_left_nonneg i Hi). pose proof (ask_left_nonneg i E). unfold flag. repeat case_match; lia.
Qed.
Lemma ranks_nonneg : 0 <= ranks.
Proof.
  unfold ranks. etrans; [|apply (sum_le (fun _ => 0))].
  - induction (seq 0 (S (last self))); cbn; [done|]. unfold sumZ in *. lia.
  - intros j Hj%elem_of_seq. apply stage_rank_nonneg. lia.
Qed.
End rank.

Section progress.
Context (P : Pipe T) (snt gt : nat -> list T) (HP : pipe_inv P snt gt) (Hq : Quiet (world P)).
Abbreviation st := (stages P).
Abbreviation bx := (boxes (world P)).
Abbreviation L := (link_of p kd st bx snt gt).
Context (i : nat) (m : msg) (rest : list msg) (b : bool) (s' : Stage T) (l : list (action T)).
Context (Hi : (i <= last self)%nat) (Hrun : status (bx i) = Running) (Hb : batch (bx i) = m :: rest).
Context (A : answer self xs fs snk p q st bx (Quiet (world P)) snt gt i m b s' l).
Abbreviation snt' := (<[i := snt i ++ nexts (told (S i) l)]> snt).
Abbreviation gt' := (<[i := gt i ++ nexts [m]]> gt).

Lemma mine_runs : runs (bx i) = true.
Proof. unfold runs. by apply bool_decide_eq_true. Qed.
Lemma my_link : (i < last self)%nat -> link_ok p (S i) (Quiet (world P)) (fin xs fs i) (L i).
Proof. apply (fi_links _ _ _ _ _ _ _ _ _ _ _ (pi_flows _ _ _ _ _ _ _ _ _ HP)). Qed.

(** What a stage is asked for and what it has emitted grow by what the message asks. *)
Lemma answer_credit :
  b = false -> (i < last self)%nat ->
  owing_of (kd i) s' + Z.of_nat (length (nexts (told (S i) l))) = owing_of (kd i) (st i) + amount m.
Proof.
  intros Hbf Hl. pose proof mine_runs as Hr.
  pose proof (link_credit _ _ _ _ (my_link Hl) Hq Hr) as H1.
  pose proof (link_credit _ _ _ _ (an_right _ _ _ _ _ _ _ _ _ _ _ _ _ _ _ _ A Hl) Hq) as H2. rewrite Hbf in H2.
  specialize (H2 eq_refl). unfold right_link in H2. cbn [reqs owing data owed negb] in H2.
  change (reqs (L i)) with (downs (pend (bx i))) in H1, H2. change (owed (L i)) with (owed_of p (kd (S i)) (st (S i))) in H1, H2.
  change (owing (L i)) with (owing_of (kd i) (st i)) in H1. change (data (L i)) with (ups (pend (bx (S i)))) in H1.
  assert (Hreq : amounts (downs (pend (bx i))) =
    amount m + amounts (if from_down m then tail (downs (pend (bx i))) else downs (pend (bx i)))).
  { unfold pend. rewrite Hb. unfold amounts. cbn. destruct m; cbn; lia. }
  assert (Hdat : nexts (to_receiver (L i) (told (S i) l)) = nexts (ups (pend (bx (S i)))) ++ nexts (told (S i) l)).
  { unfold to_receiver. cbn. destruct (my_link Hl) as (ns & cn & ys & t & HL).
    destruct (lk_quiet _ _ _ _ _ _ _ _ _ HL Hq) as (_ & _ & _ & Hd). cbn in Hd.
    destruct (runs (bx (S i))); [apply nexts_app|]. specialize (Hd eq_refl). congruence. }
  rewrite Hdat, length_app in H2. lia.
Qed.

Lemma terminated_not : _terminated (st i) = false.
Proof. by apply (running_common self xs fs snk p q P snt gt HP i m rest b s' l). Qed.

Lemma got_left_after : got_left gt' i = got_left gt i - match i with O => 0 | S _ => Z.of_nat (length (nexts [m])) end.
Proof. unfold got_left. destruct i as [|u]; [done|]. rewrite fn_lookup_insert, length_app. lia. Qed.
Lemma ask_left_after :
  b = false -> ask_left (<[i := s']> st) snt' i = ask_left st snt i - if decide (i < last self)%nat then amount m else 0.
Proof.
  intros Hbf. unfold ask_left. case_decide as Hl; [|done]. pose proof (answer_credit Hbf Hl).
  rewrite !fn_lookup_insert, length_app. lia.
Qed.

Lemma rank_drops (bxs : nat -> Box T) :
  runs (bxs i) = negb b -> stage_rank (<[i := s']> st) bxs snt' gt' i < stage_rank st bx snt gt i.
Proof.
  intros Hr. pose proof (pi_flows _ _ _ _ _ _ _ _ _ HP) as HF. pose proof mine_runs as Hmine.
  pose proof (stage_rank_nonneg st bx snt gt _ HF i Hi) as [_ Hpos]. specialize (Hpos Hmine).
  destruct (decide (b = true)) as [Hbt|Hbf%not_true_is_false]; [unfold stage_rank at 1; by rewrite Hr, Hbt|].
  pose proof (an_react _ _ _ _ _ _ _ _ _ _ _ _ _ _ _ _ A) as Hre. pose proof terminated_not as Ht.
  pose proof (react_up _ _ _ _ _ _ _ Hre Ht) as Eu. pose proof (react_down _ _ _ _ _ _ _ Hre Ht) as Ed.
  pose proof (react_closed _ _ _ _ _ _ _ Hre Ht) as Ec.
  assert (Hflags : flag (wired (_up s')) <= flag (wired (_up (st i))) /\ flag (wired (_down s')) <= flag (wired (_down (st i))) /\
    flag (_up_closed s') <= flag (_up_closed (st i))).
  { rewrite Eu, Ed, Ec. unfold field_after, flag. destruct (kd i), m; cbn; repeat case_match; lia. }
  assert (Hgain : 0 < (match i with O => 0 | S _ => Z.of_nat (length (nexts [m])) end) +
      (if decide (i < last self)%nat then amount m else 0) +
      (flag (wired (_up (st i))) - flag (wired (_up s'))) + (flag (wired (_down (st i))) - flag (wired (_down s'))) +
      (flag (_up_closed (st i)) - flag (_up_closed s'))).
  2: { unfold stage_rank. rewrite Hr, Hbf, Hmine. cbn [negb]. rewrite got_left_after, (ask_left_after Hbf), !fn_lookup_insert. lia. }
  destruct (arrival self xs fs snk p q _ _ _ _ _ HF (setups_cases self xs fs snk p q Hp P snt gt HP) i m rest Hi Hb)
    as [(u & E & Hm & r & Hd)|[(Hl & Hm & r & Hd)|(u & E & Hm & Hup)]].
  - pose proof (fi_links _ _ _ _ _ _ _ _ _ _ _ HF u ltac:(lia)) as HL.
    assert (Hru : receiver_runs (L u) = true) by (cbn; by rewrite <- E).
    destruct m as [| | |x| |e|]; try done.
    + assert (match i with O => 0 | S _ => Z.of_nat (length (nexts [OnNext x])) end = 1) as -> by by rewrite E.
      cbn [amount]. case_decide; lia.
    + destruct (decide (i = last self)) as [El|Hne].
      { by destruct (an_final _ _ _ _ _ _ _ _ _ _ _ _ _ _ _ _ A El eq_refl) as [? _]; rewrite Hbf in *. }
      destruct (flow_index _ _ _ _ Hsu u ltac:(lia)) as [f Hf]. pose proof (su_flows _ _ _ _ Hsu _ _ Hf) as Hk.
      destruct (take_complete_ok _ _ _ _ _ _ HL Hd Hru) as (_ & _ & _ & _ & Hc). cbn in Hc. rewrite Hk in Hc. cbn in Hc.
      rewrite <- E in Hk, Hc. rewrite Hk in Ec. cbn in Ec. rewrite Ec, Hc in *. cbn [flag amount] in *.
      assert (match i with O => 0 | S _ => Z.of_nat (length (nexts [OnComplete : msg])) end = 0) as -> by by destruct i.
      case_decide; lia.
    + by destruct (take_error_loud _ _ _ _ _ _ _ HL Hd).
  - pose proof (my_link Hl) as HL. rewrite decide_True by done.
    assert (Hz : 0 <= match i with O => 0 | S _ => Z.of_nat (length (nexts [m])) end) by (destruct i; lia).
    destruct m as [d w| |n| | | |]; try done.
    + destruct (subscribed_by_ok _ _ _ _ _ _ _ _ HL Hd Hmine) as (_ & _ & _ & Hw & _). cbn in Hw. rewrite Hw in *.
      assert (Hdn : _down s' = Some d).
      { rewrite Ed. destruct i as [|v]; [by rewrite (su_source _ _ _ _ Hsu)|].
        destruct (flow_index _ _ _ _ Hsu v Hl) as [f Hf]. by rewrite (su_flows _ _ _ _ Hsu _ _ Hf). }
      rewrite Hdn. cbn [wired flag amount] in *. lia.
    + destruct (asked_ok _ _ _ _ _ _ _ HL Hd Hmine) as (_ & Hn & _). cbn [amount]. lia.
    + by destruct (cancel_loud _ _ _ _ _ _ HL Hd Hmine) as [? _].
  - assert (Hz : 0 <= match i with O => 0 | S _ => Z.of_nat (length (nexts [m])) end) by (destruct i; lia).
    assert (Hu : _up s' = Some u).
    { rewrite Eu, Hm. assert (kd i <> SourceFromIterable) by (eapply kind_not_source; eauto; lia). by destruct (kd i). }
    rewrite Hu, Hup. rewrite Hm in *. cbn [wired flag amount] in *. case_decide; lia.
Qed.
End progress.

(** ** The measure of a run *)

Abbreviation all := (seq 0 (S (last self))).
Definition wires_left (P : Pipe T) : Z :=
  if decide (0 < starting P) then Z.of_nat (last self) else Z.of_nat (length (wiring P)).
Definition unnotified (P : Pipe T) : Z := sumZ ((fun i => if decide (i ∈ notified P) then 0 else 1) <$> all).
Definition steps_left (P : Pipe T) (snt gt : nat -> list T) : Z :=
  ranks (stages P) (boxes (world P)) snt gt + wires_left P + Z.of_nat (size (unstarted P)) + unnotified P.
Definition waiting (P : Pipe T) : Z := sumZ ((fun i => Z.of_nat (length (queue (boxes (world P) i)))) <$> all).
Definition room : Z := Z.of_nat (S (last self)) * (2 * p + 4).
Definition measure (P : Pipe T) (snt gt : nat -> list T) : Z := steps_left P snt gt * (room + 1) + waiting P.

Lemma sum_const (c : Z) (l : list nat) : sumZ ((fun _ => c) <$> l) = Z.of_nat (length l) * c.
Proof. induction l as [|j l IH]; [done|]. cbn [fmap list_fmap sumZ foldr length]. unfold sumZ in IH. lia. Qed.
Lemma sum_bounds (f : nat -> Z) l c : (forall j, j ∈ l -> 0 <= f j <= c) -> 0 <= sumZ (f <$> l) <= Z.of_nat (length l) * c.
Proof.
  intros H. split.
  - pose proof (sum_le (fun _ => 0) f l) as Hs. rewrite sum_const in Hs. specialize (Hs ltac:(intros; by apply H)). lia.
  - rewrite <- sum_const. apply sum_le. intros; by apply H.
Qed.
Lemma waiting_bound P snt gt : pipe_inv P snt gt -> 0 <= waiting P <= room.
Proof.
  intros HP. unfold waiting, room. replace (Z.of_nat (S (last self))) with (Z.of_nat (length all)) by (by rewrite length_seq).
  apply sum_bounds. intros j Hj%elem_of_seq.
  pose proof (pipe_pend _ _ _ _ _ _ Hp P snt gt j HP ltac:(lia)) as Hb. unfold pend in Hb. rewrite length_app in Hb. lia.
Qed.
Lemma steps_left_nonneg P snt gt : pipe_inv P snt gt -> 0 <= steps_left P snt gt.
Proof.
  intros HP. unfold steps_left, wires_left. pose proof (ranks_nonneg _ _ _ _ _ (pi_flows _ _ _ _ _ _ _ _ _ HP)).
  assert (0 <= unnotified P) by (apply (sum_bounds _ _ 1); intros; case_decide; lia). case_decide; lia.
Qed.

(** The rank depends on who runs, and not on the mailboxes otherwise. *)
Lemma ranks_runs st bx bx1 snt gt : (forall j, runs (bx1 j) = runs (bx j)) -> ranks st bx1 snt gt = ranks st bx snt gt.
Proof. intros H. unfold ranks. f_equal. apply list_fmap_ext. intros j x _. unfold stage_rank. by rewrite H. Qed.

Definition falls (P P' : Pipe T) (snt gt : nat -> list T) : Prop :=
  exists snt' gt', pipe_inv P' snt' gt' /\ Quiet (world P') /\
    (steps_left P' snt' gt' < steps_left P snt gt \/ steps_left P' snt' gt' = steps_left P snt gt /\ waiting P' < waiting P).

Section quiet.
Context (P : Pipe T) (snt gt : nat -> list T) (HP : pipe_inv P snt gt) (Hq : Quiet (world P)).

Lemma started_falls i : i ∈ unstarted P -> falls P (stage_started self i P) snt gt.
Proof.
  intros Hi. exists snt, gt. split; [by apply keep_started|]. split; [unfold stage_started; by case_match|]. left.
  assert (Hsz : size (unstarted P) = S (size (unstarted P ∖ {[i]}))).
  { rewrite (union_difference_L {[i]} (unstarted P)) at 1 by set_solver. rewrite size_union by set_solver.
    by rewrite size_singleton. }
  pose proof (wi_size _ _ (pi_wiring _ _ _ _ _ _ _ _ _ HP)) as Hs. pose proof (wi_start _ _ (pi_wiring _ _ _ _ _ _ _ _ _ HP)) as Hw.
  unfold steps_left, stage_started, wires_left, unnotified. destruct (fut_done _); cbn [stages world starting wiring unstarted notified].
  - lia.
  - destruct (Z.eqb_spec (starting P - 1) 0); repeat case_decide; rewrite ?length_seq; lia.
Qed.
Lemma wire_falls P' : wire_next self P = Some P' -> falls P P' snt gt.
Proof.
  intros Hw. exists snt, gt. split; [by apply (keep_wire self xs fs snk p q Hp Hsu P)|].
  destruct (wire_shape self xs fs snk p q Hp Hsu P P' snt gt HP Hw) as (i & rest & Ew & Hi & Hs0 & ->).
  split; [done|]. left. unfold steps_left, wires_left, unnotified. cbn [stages world starting wiring unstarted notified set_boxes boxes].
  rewrite (ranks_runs _ (boxes (world P))), Ew, Hs0; [rewrite !decide_False by lia; cbn [length]; lia|]. intros j.
  pose proof (sent_box i (grow [SetUpstream (i - 1) true] (boxes (world P) i)) (world P) j) as E. cbn in E. rewrite E.
  case_decide as Ej; [subst; apply grow_runs|done].
Qed.
Lemma take_falls i :
  (i <= last self)%nat -> status (boxes (world P) i) = Running -> batch (boxes (world P) i) = [] -> queue (boxes (world P) i) <> [] ->
  falls P (set_world (set_box i (stage_batch self (boxes (world P) i)) (world P)) P) snt gt.
Proof.
  intros Hi Hr Hb Hne. exists snt, gt. split; [by apply (keep_take self xs fs snk p q Hp)|]. split; [done|]. right.
  assert (Hbx : forall j, boxes (set_box i (stage_batch self (boxes (world P) i)) (world P)) j =
    if decide (j = i) then stage_batch self (boxes (world P) i) else boxes (world P) j) by (intros j; apply sent_box).
  split.
  - unfold steps_left, wires_left, unnotified. cbn [stages world starting wiring unstarted notified set_world].
    rewrite (ranks_runs _ (boxes (world P))); [done|]. intros j. rewrite Hbx. case_decide as E; [by subst|done].
  - unfold waiting. cbn [world set_world]. apply (sum_lt _ _ _ i); [|apply elem_of_seq; lia|].
    + intros j _. rewrite Hbx. case_decide as E; [subst; cbn; rewrite length_drop; lia|done].
    + rewrite Hbx, decide_True by done. cbn. rewrite length_drop. pose proof (su_throughput _ _ _ _ Hsu).
      destruct (queue (boxes (world P) i)); [done|]. cbn. lia.
Qed.
Lemma notify_falls i :
  i ∉ notified P -> status (boxes (world P) i) = Stopped ->
  falls P (mkPipe (stages P) (stage_stopped i (world P)) (unstarted P) (starting P) (wiring P) ({[i]} ∪ notified P)) snt gt.
Proof.
  intros Hn Hs. exists snt, gt. split; [by apply keep_notify|]. pose proof HP as [HF _ HG].
  assert (Hd : runs (boxes (world P) i) = false) by (unfold runs; by rewrite Hs).
  pose proof (gi_dead _ _ _ _ _ _ HG Hq i Hd) as He. destruct (gi_expected _ _ _ _ _ _ HG i He) as [Hi _].
  assert (Hw : boxes (stage_stopped i (world P)) = boxes (world P) /\ stops (stage_stopped i (world P)) = stops (world P)).
  { unfold stage_stopped. rewrite bool_decide_true by done. by case_match. }
  destruct Hw as [Hw1 Hw2]. split; [unfold StreamRun.Quiet; cbn; by rewrite Hw2|]. left.
  unfold steps_left, wires_left. cbn [stages world starting wiring unstarted]. rewrite Hw1.
  assert (unnotified (mkPipe (stages P) (stage_stopped i (world P)) (unstarted P) (starting P) (wiring P) ({[i]} ∪ notified P)) <
    unnotified P); [|lia].
  unfold unnotified. cbn [notified]. apply (sum_lt _ _ _ i); [|apply elem_of_seq; lia|].
  - intros j _. repeat case_decide; lia || set_solver.
  - rewrite decide_True, decide_False by set_solver. lia.
Qed.
Lemma invoke_falls i m rest :
  status (boxes (world P) i) = Running -> batch (boxes (world P) i) = m :: rest -> falls P (invoke self i m rest P) snt gt.
Proof.
  intros Hrun Hb. destruct (keep_invoke self xs fs snk p q Hp Hsu P snt gt i m rest HP Hrun Hb)
    as (b & s' & l & bxs & Hi & A & [Hbx Hinv] & HP'). do 2 eexists. split; [exact HP'|].
  rewrite Hinv. unfold StreamRun.Quiet, steps_left, wires_left, unnotified.
  cbn [stages world starting wiring unstarted notified set_boxes boxes stops].
  rewrite (se_stops _ _ _ _ (answer_settled self xs fs snk p q Hp Hsu P snt gt i m rest b s' l Hb A)). split; [done|]. left.
  assert (Hr : runs (bxs i) = negb b).
  { rewrite Hbx. unfold answered. rewrite decide_True by done. unfold runs. destruct b; cbn; [done|]. by rewrite Hrun. }
  assert (ranks (<[i := s']> (stages P)) bxs (<[i := snt i ++ nexts (told (S i) l)]> snt) (<[i := gt i ++ nexts [m]]> gt) <
    ranks (stages P) (boxes (world P)) snt gt); [|lia].
  pose proof (rank_drops P snt gt HP Hq i m rest b s' l Hi Hrun Hb A bxs Hr) as Hdrop.
  apply (sum_lt _ _ _ i); [|apply elem_of_seq; lia|exact Hdrop]. intros j _.
  destruct (decide (j = i)) as [->|Hne]; [lia|]. unfold stage_rank, got_left, ask_left.
  rewrite Hbx. unfold answered. rewrite decide_False, grow_runs by done. rewrite !fn_lookup_insert_ne by done. done.
Qed.
Lemma quiet_step a P' : a <> UserCancel -> pipe_exec self a P = Some P' -> falls P P' snt gt.
Proof.
  intros Ha. destruct a as [i| |i|i|i|i|]; cbn; try done.
  - case_decide; [|done]. intros [= <-]. by apply started_falls.
  - apply wire_falls.
  - destruct (status _) eqn:Es; [|done..]. destruct (batch _) eqn:Eb; [|done]. destruct (queue _) eqn:Eq; [done|].
    intros [= <-]. apply take_falls; try done; [|by rewrite Eq]. destruct (decide (i <= last self)%nat); [done|].
    by rewrite (fi_beyond _ _ _ _ _ _ _ _ _ _ _ (pi_flows _ _ _ _ _ _ _ _ _ HP)) in Eq by lia.
  - destruct (status _) eqn:Es; [|done..]. destruct (batch _) as [|m rest] eqn:Eb; [done|].
    intros [= <-]. by apply invoke_falls.
  - destruct Hq as [_ Hs]. rewrite Hs. rewrite decide_False by set_solver. done.
  - case_decide; [done|]. destruct (status _) eqn:Es; [done..|]. intros [= <-]. by apply notify_falls.
Qed.
End quiet.

(** A clean run that nobody cancels has at most [measure] steps, and stays clean. *)
Lemma quiet_run ls P P' snt gt :
  pipe_inv P snt gt -> Quiet (world P) -> UserCancel ∉ ls -> execs self ls P = Some P' ->
  exists snt' gt', pipe_inv P' snt' gt' /\ Quiet (world P') /\
    Z.of_nat (length ls) + measure P' snt' gt' <= measure P snt gt /\ 0 <= measure P' snt' gt'.
Proof.
  revert P snt gt. induction ls as [|a ls IH]; intros P snt gt HP Hq Hn.
  - cbn. intros [= <-]. exists snt, gt. split_and!; try done. unfold measure. pose proof (waiting_bound P snt gt HP).
    pose proof (steps_left_nonneg P snt gt HP). nia.
  - cbn. intros (P1 & H1 & H2)%bind_Some. apply not_elem_of_cons in Hn as [Ha Hn].
    destruct (quiet_step P snt gt HP Hq a P1 ltac:(done) H1) as (s1 & g1 & HP1 & Hq1 & Hfall).
    destruct (IH P1 s1 g1 HP1 Hq1 Hn H2) as (s2 & g2 & HP2 & Hq2 & Hlen & Hpos). exists s2, g2. split_and!; try done.
    pose proof (waiting_bound P snt gt HP). pose proof (waiting_bound P1 s1 g1 HP1). unfold measure in *. nia.
Qed.
End live.

(** Whether no step is left, by looking at the stages of the pipeline. *)
Definition idle {T} (self : StreamSetup T) (P : Pipe T) : bool :=
  forallb (fun i => match pipe_exec self (TakeBatch i) P, pipe_exec self (Invoke i) P, pipe_exec self (Notify i) P with
                    | None, None, None => true | _, _, _ => false end) (seq 0 (S (last self))).
Lemma stuck_check {T} (self : StreamSetup T) xs fs snk p q P snt gt :
  pipe_inv self xs fs snk p q P snt gt ->
  size (unstarted P) = 0%nat -> wiring P = [] -> size (stops (world P)) = 0%nat -> idle self P = true ->
  forall a, a <> UserCancel -> pipe_exec self a P = None.
Proof.
  intros HP Hu Hw Hs Hidle. apply size_empty_inv in Hu, Hs.
  assert (Hstage : forall i, pipe_exec self (TakeBatch i) P = None /\ pipe_exec self (Invoke i) P = None /\ pipe_exec self (Notify i) P = None).
  { intros i. destruct (decide (i <= last self)%nat) as [Hi|Hi].
    - unfold idle in Hidle. rewrite forallb_forall in Hidle. specialize (Hidle i ltac:(apply in_seq; lia)).
      by repeat case_match.
    - cbn. rewrite (fi_beyond _ _ _ _ _ _ _ _ _ _ _ (pi_flows _ _ _ _ _ _ _ _ _ HP)) by lia. cbn. split_and!; try done. by case_decide. }
  intros a Ha. destruct a as [i| |i|i|i|i|]; try apply Hstage; try done; cbn.
  - rewrite decide_False by set_solver. done.
  - unfold wire_next. by rewrite Hw.
  - rewrite decide_False by set_solver. done.
Qed.

(** * The theorem *)

(** C13.  A stream materialized by [run] with mailboxes of at least [4p + 8] messages, [p] being
    the prefetch (72 for the default of 16; [run] itself accepts 32, for which
    [min_capacity_overflows] shows a stream that fails), whose iterable, transforms and sink
    function raise nothing, finishes if nobody cancels it, whatever the schedule: its runs have
    a bounded number of steps, and when no step is left the graph has completed, every stage
    has stopped and the sink was given all elements in order; the materialized future, if
    there is one, has its result. *)
Theorem stream_completes {T} (rg : RunnableGraph T) c p q thr :
  faultless (_source rg) -> sink_good (_sink rg) (stream_elements (_source rg)) ->
  exists N : nat, forall ls P, at_run rg c p q thr ls P -> UserCancel ∉ ls ->
    (length ls <= N)%nat /\
    ((forall a, a <> UserCancel -> pipe_exec (setup_of (stages_of (_source rg) (_sink rg)) c thr) a P = None) ->
     _state (graph (world P)) = COMPLETED /\
     (forall i, (i <= S (length (flows_of (_source rg))))%nat -> status (boxes (world P) i) = Stopped) /\
     match _sink rg with
     | SinkForEach materialized _ =>
         calls (world P) = stream_elements (_source rg) /\
         (materialized = true -> _materialized (world P) = Some (FResult []))
     | _ => _materialized (world P) = Some (FResult (stream_elements (_source rg)))
     end).
Proof.
  intros Hfl Hsg. destruct (elements_ideal (_source rg)) as [El Ec].
  set (self := setup_of (stages_of (_source rg) (_sink rg)) c thr).
  set (xs := iterable_of (_source rg)). set (fs := flows_of (_source rg)). fold xs fs in El, Ec.
  set (P0 := initial_pipe xs p q (last self) (spawned (materialized_future rg) (last self))).
  exists (Z.to_nat (measure self xs fs p P0 (fun _ => []) (fun _ => []))). intros ls P HR Hn.
  pose proof (run_setup _ _ _ _ _ _ _ HR) as Hsu. pose proof (ar_prefetch _ _ _ _ _ _ _ HR) as Hp.
  pose proof (ar_sink _ _ _ _ _ _ _ HR) as Hk.
  destruct (run_reaches _ _ _ _ _ _ _ HR) as (P1 & _ & _ & HP0 & Hex & -> & _). fold self xs fs P0 in HP0, Hex, Hsu.
  assert (Hq : Quiet xs fs (_sink rg) (world P0)).
  { split; [|done]. split; [by apply Ec|]. unfold stream_output. by rewrite El. }
  destruct (quiet_run self xs fs (_sink rg) p q Hp Hsu ls P0 P _ _ HP0 Hq Hn Hex) as (snt & gt & HP & HqP & Hlen & Hpos).
  split; [lia|]. intros Hstuck.
  destruct (stuck_complete self xs fs (_sink rg) p q Hp Hsu P snt gt HP HqP Hstuck) as (H1 & H2 & [H3 _] & H4 & H5).
  split; [done|]. split; [intros i Hi; apply H2; unfold self; by rewrite last_setup|].
  rewrite El in H3. rewrite H3 in *. destruct (_sink rg) as [| |[] func|]; try done; auto.
Qed.

(** The three elements of a small stream: the run ends because the theorem says so. *)
Lemma stream_completes_witness :
  let P := (counting_run 3 100 20).2 in
  _state (graph (world P)) = COMPLETED /\ _materialized (world P) = Some (FResult [2; 3; 4]).
Proof.
  assert (Hok : forall l : list Z, all_ok (Ok <$> l)) by (intros l; apply Forall_fmap, Forall_true; intros x; by exists x).
  assert (Hg : forall l, good increment l) by (intros l; apply Forall_true; intros x; by eexists).
  destruct (stream_completes (counting 3) 100 16 256 100) as [N HN].
  - exact (conj (conj (Hok _) (Hg _)) (Hg _)).
  - exact I.
  - pose proof (counting_at 3 100 20 ltac:(lia)) as HR. intros P.
    assert (Hn : UserCancel ∉ (counting_run 3 100 20).1).
    { intros Hin. apply list_elem_of_In in Hin. assert (Hb : existsb (fun a => match a with UserCancel => true | _ => false end)
        (counting_run 3 100 20).1 = false) by (vm_compute; reflexivity).
      apply not_true_iff_false in Hb. apply Hb, existsb_exists. exists UserCancel. exact (conj Hin eq_refl). }
    destruct (proj2 (HN _ _ HR Hn)) as (H1 & _ & H3); [|exact (conj H1 H3)].
    destruct (run_reaches _ _ _ _ _ _ _ HR) as (P1 & snt & gt & _ & _ & _ & HP).
    apply (stuck_check _ _ _ _ _ _ _ snt gt HP); vm_compute; reflexivity.
Defined.
